(* ===== verification/_CoqProject ===== *)
-Q . S2P
Prelude.v
Rstr.v
Json.v
Types.v
Placeholders.v
Redaction.v
RedactionSpec.v
Streaming.v
Sidecar.v
SidecarSpec.v
Analytics.v
AnalyticsSpec.v
Providers.v
ProvidersSpec.v
Policy.v
PolicySpec.v
SecureMode.v
Pipeline.v
PipelineSpec.v
GatewaySpec.v
ReplySpec.v
AuditTexts.v
AuditExport.v
AuditExportSpec.v
AuditExportRuns.v
Roles.v
License.v
LicenseSpec.v
UrlGuard.v
AdminAudit.v
Limits.v
LimitsSpec.v
ApiKeys.v
OpenAi.v
OpenAiSpec.v
Sessions.v
Login.v
TwoFactor.v
SessionsSpec.v
RefreshSpec.v
TwoFactorSpec.v
LoginSpec.v
AuthRuns.v
WorkerDb.v
Sweeps.v
SweepsSpec.v
ExportJob.v
QueueDrain.v
ExportRoutes.v
ExportSpec.v
ExportTx.v
ExportRefine.v
ExportClaims.v
ExportRuns.v
HttpProviders.v
HttpProvidersSpec.v
WireSpec.v
CredentialTest.v
AdminTx.v
ProviderAdmin.v
ProviderAdminSpec.v
PolicyAdmin.v
PolicyAdminSpec.v
Posture.v
Tools.v
ToolsSpec.v
ScanFile.v
Startup.v
Edge.v
EdgeSpec.v
Oidc.v
Reports.v
LeakReport.v
LeakReportSpec.v
Inventory.v
InventorySpec.v
