(* ===== verification/Prelude.v ===== *)
(** * SecurePrompt gateway: verification library

    SecurePrompt is a gateway between applications and LLM providers.  A chat
    or completion request is scanned for personal data and secrets, workspace
    policy rules and the workspace secure mode decide what happens to it, the
    detected spans are replaced by placeholders, the text is sent to a
    provider, the reply is restored (and optionally scanned again), and an
    audit event is written.  The promise to the customer is that nothing
    detected leaves in the clear, that nothing unscanned leaves unless the
    customer chose so, and that the audit trail says what happened.

    ** Files, in dependency order

    - [Prelude]: literals, results with panics, the hint database [sp], stable
      sorting, generic list and integer lemmas.
    - [Rstr]: Rust strings as UTF-8 byte lists: boundaries, slices, [chars],
      [find], [replace], [split], ASCII case; Unicode case mapping is the class
      [CaseMap] (its ASCII behaviour is the only law).
    - [Json]: [serde_json::Value] with ordered objects.
    - [Types]: [secureprompt-common] types.rs, errors.rs, pipeline.rs: errors,
      detections, the token vault, pipeline state.  [HashMap] iteration order
      is the class [HashOrder]: any permutation of the entries.
    - [Placeholders]: texts as sequences of bytes and placeholders; what the
      vault's successive replacements compute on them.
    - [Redaction], [RedactionSpec]: vault/redaction.rs.
    - [Streaming]: http/streaming.rs, with its properties.
    - [Sidecar], [SidecarSpec]: ml_sidecar/types.rs and client.rs,
      analytics/engines.rs, db/sidecar_policy_repo.rs and [sidecar_gate] of
      pipeline/service.rs; the circuit breaker sequentially and as interleaved
      atomic steps.
    - [Analytics], [AnalyticsSpec]: analytics/capture.rs, detection_counts.rs,
      events.rs and the consumer loop of clickhouse_writer.rs.
    - [Providers], [ProvidersSpec]: http/model_router.rs, providers/mod.rs and
      the in-process adapters, token_usage/, and the provider chain of
      pipeline/service.rs.
    - [Policy], [PolicySpec]: policy/engine.rs, policy/events.rs, the enabled
      filter of db/policy_repo.rs and the validation of
      http/routes/dashboard/policy_rules.rs.
    - [SecureMode]: the pure stages of pipeline/service.rs (file-vault markers,
      secure-mode override, default redaction, response-side filter, audited
      message).
    - [Pipeline]: [prepare], [execute] and [execute_stream] of
      pipeline/service.rs, in a state and error monad over the shared sidecar
      client and the trace of effects (alerts, audit rows, provider calls,
      metrics, token adjustments).
    - [PipelineSpec]: a small program logic for that monad and the contracts of
      the stages; [GatewaySpec]: what both response paths guarantee;
      [ReplySpec]: what the client receives, and concrete requests.
    - [AuditTexts], [AuditExport], [AuditExportSpec], [AuditExportRuns]: secureprompt-common/src/audit_export.rs, the signed
      export: its fixed texts, page rendering, manifest and chain, the verifier
      and its contract; concrete exports.
    - [Roles]: the privilege ladder.
    - [License], [LicenseSpec]: license/ (state, freshness,
      revocation polling), its dashboard route and
      http/middleware/license_gate.rs, as a step function over the events a
      gateway can meet.
    - [UrlGuard]: security/url_guard.rs, with its properties.
    - [AdminAudit]: db/admin_audit_repo.rs.
    - [Limits], [LimitsSpec]: http/middleware/rate_limit.rs, the counters of
      redis/mod.rs, db/budget_repo.rs.
    - [ApiKeys]: db/api_key_repo.rs, http/middleware/api_key_auth.rs,
      http/routes/dashboard/keys.rs, with their properties.
    - [OpenAi], [OpenAiSpec]: http/routes/openai.rs: the three
      data-plane routes, from the header to the body, over [Pipeline].
    - [Sessions]: http/middleware/jwt_auth.rs, the session keys of
      redis/mod.rs, db/refresh_token_repo.rs, db/session_repo.rs and
      db/session_revocation_repo.rs over one shared [World]; [Login]:
      http/routes/dashboard/auth.rs, users.rs and device.rs; [TwoFactor]:
      auth/totp.rs, the second-factor part of db/user_repo.rs and
      http/routes/dashboard/twofactor.rs.
    - [SessionsSpec] (a history of requests and what each may change),
      [RefreshSpec] (rotation under interleaving), [TwoFactorSpec],
      [LoginSpec]; [AuthRuns]: concrete histories.
    - [WorkerDb]: the database the API and the worker share: tables, row-level
      security and its armed scope, failing calls, the [Job] monad and the
      rules to reason about it.
    - [Sweeps], [SweepsSpec]: the worker's tasks/retention_purge.rs,
      api_key_rotation.rs and workspace_enumeration.rs.
    - [ExportJob]: the worker's tasks/audit_export.rs, from the envelope of
      secureprompt-common/src/tasks.rs to the stored pages; [QueueDrain]: the
      BLPOP loop and dispatch of the worker's main.rs and
      tasks/index_policy_rule.rs; [ExportRoutes]: db/scope.rs and
      http/routes/dashboard/audit_export.rs.
    - [ExportSpec] (what the job produces), [ExportTx] (the atomic
      transactions on the export tables and their invariant), [ExportRefine]
      (every part of the job against them), [ExportClaims] (the properties of
      routes, queue and worker together), [ExportRuns]: concrete runs.
    - [HttpProviders]: providers/openai_compat.rs (requests, replies and the
      SSE reader), upstream.rs, vertex.rs and the registry of mod.rs;
      [HttpProvidersSpec]: the SSE reader against a reader of the whole body;
      [WireSpec]: what a request of [Pipeline] puts on the wire.
    - [CredentialTest]: providers/credential_test.rs.
    - [AdminTx]: what handlers over one database share: the world with its
      tables, numbered calls and sent messages, transactions that fail or
      commit, the actor, and a logic for such handlers.
    - [ProviderAdmin]: db/provider_repo.rs and
      http/routes/dashboard/providers.rs; [ProviderAdminSpec].
    - [PolicyAdmin]: db/policy_repo.rs and
      http/routes/dashboard/policy_rules.rs; [PolicyAdminSpec].
    - [Posture]: db/secure_mode_repo.rs, db/sidecar_policy_repo.rs,
      db/raw_capture_repo.rs and GET and PUT of
      http/routes/dashboard/secure_mode.rs, with their properties.
    - [Tools]: tokenize and detokenize of http/routes/dashboard/secure_mode.rs,
      http/sidecar_coverage.rs, db/token_vault_repo.rs,
      http/routes/mcp_routes.rs and the file vault of redis/mod.rs;
      [ToolsSpec].
    - [ScanFile]: http/routes/scan_file.rs, [proxy_scan] of
      ml_sidecar/client.rs and the task bindings of redis/mod.rs, with their
      properties.
    - [Startup]: secureprompt-common/src/config.rs, crypto.rs and kms.rs and
      the checks of the API's main.rs; [Edge]: http/mod.rs and
      http/request_hygiene.rs, the layers around the handlers, and the error
      envelope of errors.rs; [EdgeSpec]: both, at concrete environments too.
    - [Oidc]: http/routes/dashboard/oidc.rs and its states in redis/mod.rs.
    - [Reports]: db/scope.rs and what read-only reports share: groupings, maps
      in key order, and the relation of two runs on deployments that look alike
      to one tenant.
    - [LeakReport], [LeakReportSpec]: http/routes/dashboard/leak_report.rs and
      leak_report_labels.rs, over the rows [Analytics] writes.
    - [Inventory], [InventorySpec]: http/routes/dashboard/data_inventory.rs and
      the reads of db/raw_capture_repo.rs.

    ** How the code is modelled

    Functions keep their names.  State is passed explicitly; code that can
    panic returns [option] ([None]) or [Panic]; [Result] is [outcome] with the
    code's own error type.  Integers are [N] or [Z]; [u32] counters wrap
    ([u32_succ]), [usize] subtraction saturates where the code says so, span
    arithmetic wraps at [usize_max].  Floats are the standard library's
    [SpecFloat] at binary32 and binary64.  An asynchronous call is its answer:
    the sidecar's replies, the clocks around them, other tasks' effects on the
    breaker between two chunks, the KMS (per call), the databases and the
    providers are arguments, quantified over in the theorems.

    Code outside the repository is a parameter: the detection floor
    [detect_content] and [merge_detections] (the crate's detection module is
    not published), the regex crate, base64, SHA-256, the KMS.  The theorems
    assume nothing of them unless a hypothesis says so, and every theorem with
    a hypothesis has a witness at concrete arguments.

    ** What is proved

    - End to end ([GatewaySpec], [ReplySpec]): no provider is contacted before
      the prompt was scanned completely or the customer accepted degradation
      and was alerted; an unscanned prompt is refused otherwise, with the same
      single audit row on both paths; a blocking or unreadable secure mode
      contacts nobody; by default every contacted provider is shown the
      prompt with its detections woven out; audit rows claim the scans that
      were made, hold captured content sealed and keep of the prompt what its
      scans left in, and their number is known; a buffered reply, and a
      well-formed streamed one, is the provider's reply restored; where the
      workspace redacts replies it is that reply piece by piece, each restored,
      scanned and woven in the state the piece before left, none lost.
    - Redaction: totality, coverage of nested or disjoint spans on character
      boundaries, injective placeholders, and the round trip with restoration
      for every iteration order on texts without placeholders of their own.
    - Streaming: incremental restoration equals restoring the whole of a
      well-formed reply for every chunking.
    - Policy: the first deciding rule determines the outcome, dry runs are
      inert, conditions bind to one detection, evaluation returns.
    - Sidecar: chunks tile the prompt, coverage claims are sound, a healthy
      sidecar gives full coverage, the gate fails closed, the breaker opens.
    - Analytics: captured content is ciphertext, rows carry no raw text, counts
      are distinct values in a fixed vocabulary.
    - Providers: workspace isolation of the model cache, order of failover,
      each provider sees only its own credential.
    - Signed export: an export that is built verifies, the verifier accepts
      exactly the exports its contract describes and never panics on hostile
      manifests, one chain root means one content, CSV pages read back.
    - License: a revocation sticks until it is superseded, the offline budget
      is enforced against rollback and forgery, the high-water mark is an
      atomic maximum.
    - Egress: address classification is membership in the blocked blocks; an
      accepted URL reaches none of them.
    - Admission: nothing runs on a data-plane route without a live key, both
      rate buckets, the budget gate and a model of the key's workspace; the
      limiter is within one request of its limit; budget decisions are those of
      a running total; a revoked key is refused after at most a minute.
    - Sessions: behind the session middleware revocation is final on every pod
      through any outage; an outage
      of Redis admits only warm sessions and closes after a minute; refresh
      rotation is linear under every interleaving and a replay ends every
      session; ending one session touches no other; sign-in and the second
      factor are exact, audited, and locked out after five failures.
    - Worker sweeps: a purge that reports success left nothing due behind, and
      neither sweep touches a row it has no business with.
    - Export as a service: whatever interleaves and whatever fails, an export
      shown complete verifies and is served whole; a run exports exactly the
      requested record, its window in whole seconds, or publishes nothing, and
      always answers; handlers
      refine the transactions; what a route accepts is what a worker runs.
    - Providers on the wire: a reply cut anywhere gives the events of its whole
      body; by default what a chat request sends is the redacted conversation
      and the caller's parameters, under the target's own credential.
    - Provider administration: a removed model stays removed through every
      sync, each change of a provider commits with one audit row that holds no
      secret, and a connection probe reaches only screened addresses.
    - Policy administration: every stored rule is one the engine honours, the
      stored rule of least priority that binds a request decides it, and the
      audit trail replays to the rules.
    - Security posture: a PUT is a prefix of three audited writes, whatever
      fails.
    - Tool routes: what tokenize took out of a text without placeholders comes
      back to its workspace for 24 hours and to nobody else; lost coverage is refused or told; stores hold
      ciphertext only.
    - File scanning: every upload handed to the scanner has an audit row, and a
      scan's result is fetched by its own workspace only.
    - Start-up: exactly a JWT secret and a provider key of the deployment's own,
      different as written, are accepted, and whichever KMS is configured opens
      what it sealed.
    - Edge: what a router answers depends on its handlers for admitted requests
      only; every request has one identifier.
    - OIDC: a sign-in spent its state, proved its code and opened a session for
      the user the provider named, second factor included.
    - Reports: the leak report is the tally of the tenant's traffic, in fixed
      words, and a function of its own rows; every number of the inventory was
      measured or is openly missing, and every protective verdict has rows
      behind it that all pass.
    - Defects the model exhibits are theorems too: a permissive downgrade
      forwards the raw prompt, the audit's own scan ignores an outage, a
      buffered completion stream is not scanned, the transform template panics
      off a character boundary, a second redaction rebinds placeholders, the
      breaker can wedge shut under interleaving; the limiter admits one request
      more than its limit, key rotation loses the owner, a late verdict revokes
      a replaced license, the relay ignores a revocation, reconciliation
      refunds what was never charged; a logged-out token is accepted again
      during the leeway, a revoked one still enrols a second factor, a backup
      code reopens the replay window, an address with a capital letter cannot
      sign in, a single-session revocation racing a refresh ends them all, an
      unreadable envelope ends the drain task, the export's row cap and window
      are softer than documented; a completions request smuggles an unscanned
      conversation past the redaction, CRLF replies arrive empty and cut ones
      look complete, a region names the host of a token, a removed model is
      still routed, the model sync calls unscreened addresses, the redact tool
      echoes the text of a workspace without rules, two rules can take one
      priority, a change of the capture retention can switch capture on again,
      one secret serves in two roles when padded, a published KMS key boots, an
      OIDC address with other capitals is another user, and the inventory
      quotes Postgres when the capture settings cannot be read.

    ** Bounds and fuel

    Loops over text that the code writes with a cursor take the text's length
    as fuel, and each file proves or states why a round consumes at least a
    byte ([scan_loop], [strip_loop], [split_loop], [chunk_loop_chars]); no
    result depends on running out.  Counter theorems ask for fewer than 2^32
    detections, the width of the code's counters; the export's fewer than
    2^32 - 1 pages.  Session theorems ask that the token lifetime plus 120 s
    fits 64 bits and let the clocks of the gateway and of Redis drift by 29 s
    either way, under the 60 s of slack the watermark keeps.

    ** Not modelled

    HTTP transport, TLS and SSE framing towards the client; SQL (a
    repository is its answer, a table is a list or a map, a transaction either
    fails or commits); tracing; the debug payload's text; a client that
    abandons a stream before its end, after which the generator's bookkeeping
    does not run.  Cryptography (HS256, Ed25519, SHA-256, Argon2, TOTP), the
    KMS, URL parsing and date rendering are parameters with the laws used.
    Of the license subsystem the attestation bundle and the relay's startup
    retry; of registration the seeding of the workspace; of the dashboard the
    listings over SQL (requests, analytics, users, budgets, the own profile).
    Of the worker, start-up, cron scheduling and ClickHouse migrations.  The
    CORS and tracing layers, the rendering of metrics, and the MCP server, a
    separate binary over the HTTP API.  A transaction of a repository is
    atomic: what READ COMMITTED lets happen between its statements is not
    modelled. *)

From stdpp Require Export prelude gmap list strings sorting pretty.
From Stdlib Require Export Ascii Lia ZifyBool ZifyN ZifyNat.
From Stdlib Require Import SpecFloat.

(** ** Rust strings

    A Rust [String]/[&str] is a sequence of UTF-8 bytes; every offset the
    gateway computes is a byte offset.  It is modelled as a list of bytes,
    written as literals with [$"..."]. *)

Abbreviation str := (list ascii).

Definition of_string (s : string) : str := String.list_ascii_of_string s.

Declare Scope sp_scope.
Delimit Scope sp_scope with sp.
Notation "'$' s" := (of_string s%string)
  (at level 1, s at level 0, format "'$' s") : sp_scope.
Open Scope sp_scope.

(** ** Fallible Rust code

    [Ok]/[Err] are the constructors of [Result]; [Panic] is an unwinding
    panic (an out-of-bounds index, a slice off a character boundary). *)

Inductive outcome (E A : Type) : Type :=
  | Ok (a : A)
  | Err (e : E)
  | Panic.
Arguments Ok {E A} a.
Arguments Err {E A} e.
Arguments Panic {E A}.

Definition obind {E A B} (m : outcome E A) (k : A -> outcome E B) : outcome E B :=
  match m with
  | Ok a => k a
  | Err e => Err e
  | Panic => Panic
  end.

(** Code that can only panic is written in [option]; [None] is the panic. *)
Definition or_panic {E A} (m : option A) : outcome E A :=
  match m with
  | Some a => Ok a
  | None => Panic
  end.

(** [Option::ok_or], and an early [return Err(e)] unless [b]. *)
Definition ok_or {E A} (o : option A) (e : E) : outcome E A :=
  match o with Some a => Ok a | None => Err e end.
Definition ensure {E} (b : bool) (e : E) : outcome E unit := if b then Ok tt else Err e.

Lemma obind_Ok {E A B} (m : outcome E A) (k : A -> outcome E B) b :
  obind m k = Ok b <-> exists a, m = Ok a /\ k a = Ok b.
Proof.
  destruct m; simpl; split; eauto; try done; by intros (? & ? & ?); simplify_eq.
Qed.

Lemma ok_or_Ok {E A} (o : option A) (e : E) a : ok_or o e = Ok a <-> o = Some a.
Proof. destruct o; simpl; split; congruence. Qed.

Lemma or_panic_Ok {E A} (o : option A) a : @or_panic E A o = Ok a <-> o = Some a.
Proof. destruct o; simpl; split; congruence. Qed.

Lemma ensure_Ok {E} b (e : E) u : ensure b e = Ok u <-> b = true.
Proof. destruct b, u; simpl; split; congruence. Qed.

(** Take a successful run of such code apart. *)
Ltac inv_ok :=
  repeat match goal with
  | H : obind _ _ = Ok _ |- _ => apply obind_Ok in H as (? & ? & ?); simplify_eq/=
  | H : ok_or _ _ = Ok _ |- _ => apply ok_or_Ok in H
  | H : or_panic _ = Ok _ |- _ => apply or_panic_Ok in H
  | H : ensure _ _ = Ok _ |- _ => apply ensure_Ok in H
  | H : Ok _ = Ok _ |- _ => simplify_eq/=
  | H : Err _ = Ok _ |- _ => discriminate H
  | H : Panic = Ok _ |- _ => discriminate H
  end.

(** ** Machine integers *)

Definition usize_max : N := (2 ^ 64 - 1)%N.
Definition u32_max : N := (2 ^ 32 - 1)%N.

(** [x + 1] on a [u32] in a release build. *)
Definition u32_succ (x : N) : N := ((x + 1) mod 2 ^ 32)%N.

Lemma u32_succ_small x : (x + 1 < 2 ^ 32)%N -> u32_succ x = (x + 1)%N.
Proof. intros H. unfold u32_succ. by rewrite N.mod_small. Qed.

(** [+] and [-] in a build with overflow checks: [None] is the panic. *)
Definition u64_add (a b : N) : option N := if (a + b <? 2 ^ 64)%N then Some (a + b)%N else None.
Definition u32_add (a b : N) : option N := if (a + b <? 2 ^ 32)%N then Some (a + b)%N else None.
Definition u32_sub (a b : N) : option N := if (b <=? a)%N then Some (a - b)%N else None.
Definition u32_saturating_add (a b : N) : N := N.min (a + b) u32_max.

Lemma u64_add_Some a b c : u64_add a b = Some c <-> c = (a + b)%N /\ (a + b < 2 ^ 64)%N.
Proof.
  unfold u64_add. destruct (N.ltb_spec (a + b) (2 ^ 64)); split; intros Hc;
    simplify_eq; try done; destruct Hc; [by f_equal|lia].
Qed.

(** Wrap to a signed 64-bit integer, as [-] and [as i64] do in a release
    build. *)
Definition i64_wrap (z : Z) : Z := ((z + 2 ^ 63) mod 2 ^ 64 - 2 ^ 63)%Z.

Lemma i64_wrap_id z : (- 2 ^ 63 <= z < 2 ^ 63)%Z -> i64_wrap z = z.
Proof. intros ?. unfold i64_wrap. rewrite Z.mod_small; lia. Qed.

(** [u32::try_from(len).unwrap_or(u32::MAX)] *)
Definition u32_of_len (n : nat) : N := N.min (N.of_nat n) u32_max.

(** [usize::saturating_sub] *)
Definition saturating_sub (a b : N) : N := (a - b)%N.

(** ** Floating point

    [f32] and [f64] are binary32/binary64 values of the standard library's
    [SpecFloat]; mantissas are kept in the canonical range of their format,
    so the widening conversion renormalises. *)

Abbreviation f32 := spec_float.
Abbreviation f64 := spec_float.

#[export] Instance spec_float_eq_dec : EqDecision spec_float.
Proof. solve_decision. Defined.

Definition f64_of_Z (z : Z) : f64 := binary_normalize 53 1024 z 0 false.

(** [f64::from(x : f32)]: exact. *)
Definition f64_from (x : f32) : f64 :=
  match x with
  | S754_finite sgn m e => binary_normalize 53 1024 (if sgn then Zneg m else Zpos m) e sgn
  | _ => x
  end.

Definition fge (x y : spec_float) : bool := SFleb y x.
Definition fle (x y : spec_float) : bool := SFleb x y.
Definition flt (x y : spec_float) : bool := SFltb x y.

(** ** Stable sorting

    [slice::sort_by] is a stable sort: equal elements keep their order. *)

Section stable_sort.
Context {A : Type} (le : A -> A -> bool).

Fixpoint sort_insert (x : A) (l : list A) : list A :=
  match l with
  | [] => [x]
  | y :: l' => if le x y then x :: y :: l' else y :: sort_insert x l'
  end.

Fixpoint sort_by (l : list A) : list A :=
  match l with
  | [] => []
  | x :: l' => sort_insert x (sort_by l')
  end.

Lemma sort_insert_perm x l : sort_insert x l ≡ₚ x :: l.
Proof.
  induction l as [|y l IH]; simpl; [done|].
  destruct (le x y); [done|]. rewrite IH. constructor.
Qed.

Lemma sort_by_perm l : sort_by l ≡ₚ l.
Proof. induction l as [|x l IH]; simpl; [done|]. by rewrite sort_insert_perm, IH. Qed.

Hypothesis le_trans : forall x y z, le x y -> le y z -> le x z.
Hypothesis le_total : forall x y, le x y \/ le y x.

Lemma sort_insert_sorted x l :
  StronglySorted (fun a b => le a b) l ->
  StronglySorted (fun a b => le a b) (sort_insert x l).
Proof.
  induction 1 as [|y l Hs IH Hall]; simpl; [repeat constructor|].
  destruct (le x y) eqn:E.
  - constructor; [by constructor|]. constructor; [by rewrite E|].
    eapply Forall_impl; [exact Hall|]. intros z Hz. eapply le_trans; [by rewrite E|done].
  - constructor; [done|]. rewrite sort_insert_perm. constructor; [|done].
    destruct (le_total x y) as [H|H]; [by rewrite E in H|done].
Qed.

Lemma sort_by_sorted l : StronglySorted (fun a b => le a b) (sort_by l).
Proof. induction l; simpl; [constructor|by apply sort_insert_sorted]. Qed.
End stable_sort.

(** ** Filters *)

Lemma filter_all {A} (P : A -> Prop) `{forall x, Decision (P x)} (l : list A) :
  Forall P l -> filter P l = l.
Proof. induction 1 as [|x l Hx _ IH]; [done|]. by rewrite filter_cons_True, IH. Qed.

Lemma filter_none {A} (P : A -> Prop) `{forall x, Decision (P x)} (l : list A) :
  (forall x, x ∈ l -> ~ P x) -> filter P l = [].
Proof.
  intros Hl. destruct (filter P l) as [|x l'] eqn:E; [done|]. exfalso.
  assert (x ∈ filter P l) as [Hp Hx]%list_elem_of_filter by (rewrite E; by left). by apply (Hl x).
Qed.

Lemma filter_fmap {A B} (P : B -> Prop) `{forall x, Decision (P x)} (f : A -> B) (l : list A) :
  filter P (f <$> l) = f <$> filter (fun x => P (f x)) l.
Proof.
  induction l as [|x l IH]; [done|]. rewrite fmap_cons, !filter_cons, IH. by case_decide.
Qed.

Lemma filter_ext {A} (P Q : A -> Prop) `{forall x, Decision (P x)} `{forall x, Decision (Q x)} (l : list A) :
  (forall x, x ∈ l -> P x <-> Q x) -> filter P l = filter Q l.
Proof.
  induction l as [|x l IH]; intros Hl; [done|]. rewrite !filter_cons, IH by (intros; apply Hl; by right).
  apply decide_ext, Hl. by left.
Qed.

(** ** Automation *)

Create HintDb sp discriminated.

(** Split the [if]/[match] the goal is stuck on. *)
Ltac split_case :=
  repeat (case_match || case_decide || case_bool_decide); simplify_eq/=.

(** Settle a closed decidable proposition by evaluation. *)
Ltac decide_compute := apply (bool_decide_unpack _); vm_compute; exact I.
