(* ===== verification/Rstr.v ===== *)
(** * The part of Rust's [str] API the gateway uses

    Byte strings with UTF-8 character boundaries: slicing (which panics off a
    boundary or out of range), searching, replacing, splitting, trimming and
    ASCII/Unicode case.  Offsets are [usize] values and kept in [N]. *)

From S2P Require Import Prelude.

(** ** Bytes *)

Definition byte_val (c : ascii) : N := N_of_ascii c.

Definition slen (s : str) : N := N.of_nat (length s).

(** A UTF-8 continuation byte, [0b10xxxxxx]. *)
Definition is_cont (c : ascii) : bool :=
  (128 <=? byte_val c)%N && (byte_val c <? 192)%N.

Definition in_range (lo hi : N) (c : ascii) : bool :=
  (lo <=? byte_val c)%N && (byte_val c <=? hi)%N.

Definition is_ascii_uppercase (c : ascii) : bool := in_range 65 90 c.
Definition is_ascii_lowercase (c : ascii) : bool := in_range 97 122 c.
Definition is_ascii_digit (c : ascii) : bool := in_range 48 57 c.
Definition is_ascii_byte (c : ascii) : bool := (byte_val c <? 128)%N.

Definition to_upper_byte (c : ascii) : ascii :=
  if is_ascii_lowercase c then ascii_of_N (byte_val c - 32)%N else c.
Definition to_lower_byte (c : ascii) : ascii :=
  if is_ascii_uppercase c then ascii_of_N (byte_val c + 32)%N else c.

Definition to_ascii_uppercase (s : str) : str := to_upper_byte <$> s.
Definition to_ascii_lowercase (s : str) : str := to_lower_byte <$> s.
Definition eq_ignore_ascii_case (a b : str) : bool :=
  bool_decide (to_ascii_lowercase a = to_ascii_lowercase b).

(** ** Boundaries and slices *)

Definition is_char_boundary (s : str) (i : N) : bool :=
  if (i =? 0)%N then true
  else match s !! N.to_nat i with
       | Some c => negb (is_cont c)
       | None => (i =? slen s)%N
       end.

(** [str::get(i..j)], and the value of [&s[i..j]] ([None]: the index panics). *)
Definition slice (s : str) (i j : N) : option str :=
  if (i <=? j)%N && (j <=? slen s)%N && is_char_boundary s i && is_char_boundary s j
  then Some (take (N.to_nat (j - i)) (drop (N.to_nat i) s))
  else None.

Definition slice_from (s : str) (i : N) : option str := slice s i (slen s).
Definition slice_to (s : str) (j : N) : option str := slice s 0 j.

(** ** Searching *)

Fixpoint starts_with (s pat : str) {struct pat} : bool :=
  match pat, s with
  | [], _ => true
  | _ :: _, [] => false
  | p :: pat', c :: s' => if decide (p = c) then starts_with s' pat' else false
  end.

Definition ends_with (s pat : str) : bool := starts_with (reverse s) (reverse pat).

(** [str::find] with a string pattern: offset of the first occurrence. *)
Fixpoint find (s pat : str) : option nat :=
  if starts_with s pat then Some 0
  else match s with
       | [] => None
       | _ :: s' => S <$> find s' pat
       end.

Definition contains (s pat : str) : bool :=
  match find s pat with Some _ => true | None => false end.

(** ** Characters *)

(** [str::chars]: each character as its UTF-8 bytes. *)
Fixpoint chars (s : str) : list str :=
  match s with
  | [] => []
  | c :: s' =>
      match s' with
      | [] => [[c]]
      | d :: _ =>
          if is_cont d then
            match chars s' with
            | ch :: rest => (c :: ch) :: rest
            | [] => [[c]]
            end
          else [c] :: chars s'
      end
  end.

(** [char::is_whitespace]: the Unicode [White_Space] property. *)
Definition is_whitespace (ch : str) : bool :=
  match ch with
  | [c] => in_range 9 13 c || (byte_val c =? 32)%N
  | [c; d] => (byte_val c =? 194)%N && ((byte_val d =? 133)%N || (byte_val d =? 160)%N)
  | [c; d; e] =>
      ((byte_val c =? 225)%N && (byte_val d =? 154)%N && (byte_val e =? 128)%N)
      || ((byte_val c =? 226)%N && (byte_val d =? 128)%N
          && (in_range 128 138 e || in_range 168 169 e || (byte_val e =? 175)%N))
      || ((byte_val c =? 226)%N && (byte_val d =? 129)%N && (byte_val e =? 159)%N)
      || ((byte_val c =? 227)%N && (byte_val d =? 128)%N && (byte_val e =? 128)%N)
  | _ => false
  end.

Fixpoint drop_while {A} (p : A -> bool) (l : list A) : list A :=
  match l with
  | [] => []
  | x :: l' => if p x then drop_while p l' else l
  end.

(** [str::trim] *)
Definition trim (s : str) : str :=
  concat (reverse (drop_while is_whitespace
    (reverse (drop_while is_whitespace (chars s))))).

(** [str::split_whitespace].count(): number of maximal non-blank runs. *)
Fixpoint count_words (in_word : bool) (cs : list str) : nat :=
  match cs with
  | [] => 0
  | ch :: cs' =>
      if is_whitespace ch then count_words false cs'
      else if in_word then count_words true cs' else S (count_words true cs')
  end.

(** ** Replacing, splitting and joining *)

(** The bytes of [s] after the occurrence being replaced are skipped by
    counting; [pat] is not empty here. *)
Fixpoint replace_go (pat to : str) (skip : nat) (s : str) : str :=
  match s with
  | [] => []
  | c :: s' =>
      match skip with
      | S k => replace_go pat to k s'
      | 0 => if starts_with s pat
             then to ++ replace_go pat to (length pat - 1) s'
             else c :: replace_go pat to 0 s'
      end
  end.

(** [str::replace]: the empty pattern matches at every character boundary. *)
Definition replace (s pat to : str) : str :=
  match pat with
  | [] => to ++ concat ((fun ch => ch ++ to) <$> chars s)
  | _ => replace_go pat to 0 s
  end.

(** [str::split] on a one-byte separator. *)
Fixpoint split_byte (sep : ascii) (s : str) : list str :=
  match s with
  | [] => [[]]
  | c :: s' =>
      if decide (c = sep) then [] :: split_byte sep s'
      else match split_byte sep s' with
           | w :: ws => (c :: w) :: ws
           | [] => [[c]]
           end
  end.

(** [[String]::join] *)
Fixpoint join (sep : str) (l : list str) : str :=
  match l with
  | [] => []
  | [w] => w
  | w :: l' => w ++ sep ++ join sep l'
  end.

(** Decimal [Display] of an unsigned integer. *)
Definition show_N (n : N) : str := of_string (pretty n).

(** [String::from_utf8]: the well-formed byte sequences of the encoding. *)
Fixpoint utf8_valid (s : str) : bool :=
  match s with
  | [] => true
  | c :: s1 =>
      if (byte_val c <? 128)%N then utf8_valid s1
      else match s1 with
      | [] => false
      | d :: s2 =>
          if in_range 194 223 c then is_cont d && utf8_valid s2
          else match s2 with
          | [] => false
          | e :: s3 =>
              if in_range 224 239 c then
                is_cont d && is_cont e
                && (negb (byte_val c =? 224)%N || (160 <=? byte_val d)%N)
                && (negb (byte_val c =? 237)%N || (byte_val d <=? 159)%N)
                && utf8_valid s3
              else match s3 with
              | [] => false
              | f :: s4 =>
                  in_range 240 244 c && is_cont d && is_cont e && is_cont f
                  && (negb (byte_val c =? 240)%N || (144 <=? byte_val d)%N)
                  && (negb (byte_val c =? 244)%N || (byte_val d <=? 143)%N)
                  && utf8_valid s4
              end
          end
      end
  end.

(** [String::from_utf8_lossy]: a maximal prefix of a well-formed sequence that
    cannot be completed becomes one U+FFFD. *)
Definition REPLACEMENT : str := ascii_of_N <$> [239; 191; 189]%N.

Fixpoint utf8_lossy (s : str) : str :=
  match s with
  | [] => []
  | c :: s1 =>
      if (byte_val c <? 128)%N then c :: utf8_lossy s1
      else match s1 with
      | [] => REPLACEMENT
      | d :: s2 =>
          if in_range 194 223 c then
            if is_cont d then c :: d :: utf8_lossy s2 else REPLACEMENT ++ utf8_lossy s1
          else if in_range 224 239 c then
            if is_cont d && (negb (byte_val c =? 224)%N || (160 <=? byte_val d)%N)
               && (negb (byte_val c =? 237)%N || (byte_val d <=? 159)%N) then
              match s2 with
              | [] => REPLACEMENT
              | e :: s3 => if is_cont e then c :: d :: e :: utf8_lossy s3
                           else REPLACEMENT ++ utf8_lossy s2
              end
            else REPLACEMENT ++ utf8_lossy s1
          else if in_range 240 244 c then
            if is_cont d && (negb (byte_val c =? 240)%N || (144 <=? byte_val d)%N)
               && (negb (byte_val c =? 244)%N || (byte_val d <=? 143)%N) then
              match s2 with
              | [] => REPLACEMENT
              | e :: s3 =>
                  if is_cont e then
                    match s3 with
                    | [] => REPLACEMENT
                    | f :: s4 => if is_cont f then c :: d :: e :: f :: utf8_lossy s4
                                 else REPLACEMENT ++ utf8_lossy s3
                    end
                  else REPLACEMENT ++ utf8_lossy s2
              end
            else REPLACEMENT ++ utf8_lossy s1
          else REPLACEMENT ++ utf8_lossy s1
      end
  end.

(** [str::trim_start] *)
Definition trim_start (s : str) : str := concat (drop_while is_whitespace (chars s)).

(** [trim_end_matches] with a one-byte character. *)
Definition trim_end_byte (c : ascii) (s : str) : str :=
  reverse (drop_while (fun d => bool_decide (d = c)) (reverse s)).

(** [str::strip_prefix] *)
Definition strip_prefix (s pat : str) : option str :=
  if starts_with s pat then Some (drop (length pat) s) else None.

(** [str::lines]: the pieces between line feeds, without the carriage return
    that precedes one; a final piece without a line feed is kept as it is, and
    dropped when empty. *)
Definition strip_cr (s : str) : str :=
  match reverse s with "013"%char :: r => reverse r | _ => s end.

Fixpoint line_pieces (ps : list str) : list str :=
  match ps with
  | [] => []
  | [last] => match last with [] => [] | _ => [last] end
  | p :: ps' => strip_cr p :: line_pieces ps'
  end.

Definition lines (s : str) : list str := line_pieces (split_byte "010" s).

(** [u64::from_str]: an optional plus sign and decimal digits, at most
    [u64::MAX]. *)
Fixpoint digits_value (acc : N) (s : str) : option N :=
  match s with
  | [] => Some acc
  | c :: s' =>
      if is_ascii_digit c then
        let acc' := (10 * acc + (byte_val c - 48))%N in
        if (acc' <? 2 ^ 64)%N then digits_value acc' s' else None
      else None
  end.

Definition parse_u64 (s : str) : option N :=
  match match s with "+"%char :: s' => s' | _ => s end with
  | [] => None
  | ds => digits_value 0 ds
  end.

(** [<str as Ord>::cmp] is [Lt]: byte-wise lexicographic order. *)
Fixpoint str_ltb (a b : str) : bool :=
  match a, b with
  | _, [] => false
  | [], _ :: _ => true
  | x :: a', y :: b' =>
      if (byte_val x <? byte_val y)%N then true
      else if (byte_val y <? byte_val x)%N then false
      else str_ltb a' b'
  end.

(** [char::is_ascii_graphic] on every character. *)
Definition all_ascii_graphic (s : str) : bool := forallb (in_range 33 126) s.

(** ** Unicode case mapping

    [str::to_uppercase]/[to_lowercase] use the Unicode tables of the standard
    library; the development only relies on what they do to ASCII text. *)

Definition ascii_only (s : str) : Prop := Forall (fun c => is_ascii_byte c = true) s.

Class CaseMap := {
  to_uppercase : str -> str;
  to_lowercase : str -> str;
  to_uppercase_ascii s : ascii_only s -> to_uppercase s = to_ascii_uppercase s;
  to_lowercase_ascii s : ascii_only s -> to_lowercase s = to_ascii_lowercase s;
}.

(** The ASCII part of the tables, for concrete evaluation. *)
Definition ascii_case_map : CaseMap := {|
  to_uppercase := to_ascii_uppercase;
  to_lowercase := to_ascii_lowercase;
  to_uppercase_ascii _ _ := eq_refl;
  to_lowercase_ascii _ _ := eq_refl;
|}.

(** ** Lemmas *)

Lemma slen_app a b : slen (a ++ b) = (slen a + slen b)%N.
Proof. unfold slen. rewrite length_app. lia. Qed.

Lemma boundary_0 s : is_char_boundary s 0 = true.
Proof. done. Qed.

Lemma boundary_len s : is_char_boundary s (slen s) = true.
Proof.
  unfold is_char_boundary, slen. case_match; [done|].
  rewrite Nat2N.id, lookup_ge_None_2 by done. apply N.eqb_refl.
Qed.

Lemma boundary_le s i : is_char_boundary s i = true -> (i <= slen s)%N.
Proof.
  unfold is_char_boundary, slen. case_match eqn:E; [lia|].
  case_match eqn:E2; [|lia]. intros _. apply lookup_lt_Some in E2. lia.
Qed.

Lemma slice_ok s i j :
  (i <= j)%N -> is_char_boundary s i = true -> is_char_boundary s j = true ->
  slice s i j = Some (take (N.to_nat (j - i)) (drop (N.to_nat i) s)).
Proof.
  intros Hij Hi Hj. pose proof (boundary_le _ _ Hj). unfold slice.
  rewrite Hi, Hj. by rewrite !andb_true_r, (proj2 (N.leb_le _ _)), (proj2 (N.leb_le _ _)).
Qed.

Lemma slice_Some s i j x :
  slice s i j = Some x ->
  (i <= j)%N /\ (j <= slen s)%N /\ x = take (N.to_nat (j - i)) (drop (N.to_nat i) s).
Proof. unfold slice. case_match eqn:E; [|done]. intros [= <-]. repeat split; lia. Qed.

Lemma slice_from_ok s i :
  is_char_boundary s i = true -> slice_from s i = Some (drop (N.to_nat i) s).
Proof.
  intros Hi. pose proof (boundary_le _ _ Hi). unfold slice_from.
  rewrite slice_ok; [|done|done|apply boundary_len].
  rewrite take_ge; [done|]. rewrite length_drop. unfold slen in *. lia.
Qed.

Lemma starts_with_spec s pat : starts_with s pat = true <-> exists t, s = pat ++ t.
Proof.
  revert s. induction pat as [|p pat IH]; intros s; simpl.
  - split; [intros _; by exists s|done].
  - destruct s as [|c s]; [split; [done|by intros [? ?]]|].
    case_decide; subst.
    + rewrite IH. split; intros [t Ht]; exists t; by simplify_eq.
    + split; [done|]. by intros [t [=]].
Qed.

Lemma starts_with_app pat t : starts_with (pat ++ t) pat = true.
Proof. apply starts_with_spec. by exists t. Qed.

Lemma starts_with_weaken s t pat : starts_with s pat = true -> starts_with (s ++ t) pat = true.
Proof. rewrite !starts_with_spec. intros [u ->]. exists (u ++ t). by rewrite app_assoc. Qed.

Lemma find_Some s pat i :
  find s pat = Some i -> exists t, s = take i s ++ pat ++ t /\ i <= length s.
Proof.
  revert i. induction s as [|c s IH]; intros i; simpl.
  - destruct (starts_with [] pat) eqn:E; [|done]. intros [= <-].
    apply starts_with_spec in E as [t ->]. exists t. simpl. split; [done|lia].
  - destruct (starts_with (c :: s) pat) eqn:E.
    + intros [= <-]. apply starts_with_spec in E as [t E]. exists t. simpl. split; [done|lia].
    + intros (j & Hj & ->)%fmap_Some. destruct (IH _ Hj) as (t & Ht & ?).
      exists t. simpl. split; [by rewrite <- Ht|lia].
Qed.

(** No occurrence starts before the offset [find] returns. *)
Lemma find_first s pat i j :
  find s pat = Some i -> j < i -> starts_with (drop j s) pat = false.
Proof.
  revert i j. induction s as [|c s IH]; intros i j; simpl.
  - destruct (starts_with [] pat); [intros [= <-]; lia|done].
  - destruct (starts_with (c :: s) pat) eqn:E; [intros [= <-]; lia|].
    intros (k & Hk & ->)%fmap_Some Hlt. destruct j as [|j]; [done|].
    simpl. eapply IH; [done|lia].
Qed.

Lemma find_None s pat j : find s pat = None -> starts_with (drop j s) pat = false.
Proof.
  revert j. induction s as [|c s IH]; intros j; simpl.
  - rewrite drop_nil. by destruct (starts_with [] pat).
  - destruct (starts_with (c :: s) pat) eqn:E; [done|].
    intros Hn%fmap_None. destruct j as [|j]; [done|]. simpl. by apply IH.
Qed.

Lemma concat_chars s : concat (chars s) = s.
Proof.
  induction s as [|c s IH]; [done|]. simpl. destruct s as [|d s]; [done|].
  destruct (is_cont d).
  - destruct (chars (d :: s)) as [|ch rest] eqn:E; [by simpl in IH|].
    simpl in *. by rewrite IH.
  - simpl in *. by rewrite IH.
Qed.

Lemma chars_nonempty s : Forall (fun ch => ch <> []) (chars s).
Proof.
  induction s as [|c s IH]; [constructor|]. simpl. destruct s as [|d s]; [repeat constructor; done|].
  destruct (is_cont d); [|by constructor].
  destruct (chars (d :: s)); [repeat constructor; done|]. inversion IH. by repeat constructor.
Qed.

(** *** Character boundaries inside a text *)

(** [t] does not start in the middle of a character. *)
Definition head_ok (t : str) : Prop :=
  match t with [] => True | c :: _ => is_cont c = false end.

Lemma chars_cons2 c d s :
  chars (c :: d :: s) =
  if is_cont d then match chars (d :: s) with ch :: rest => (c :: ch) :: rest | [] => [[c]] end
  else [c] :: chars (d :: s).
Proof. done. Qed.

Lemma chars_not_nil c s : chars (c :: s) <> [].
Proof. intros E. pose proof (concat_chars (c :: s)) as Hc. by rewrite E in Hc. Qed.

Lemma chars_app a b : head_ok b -> chars (a ++ b) = chars a ++ chars b.
Proof.
  intros Hb. induction a as [|c a IH]; [done|]. destruct a as [|d a].
  - destruct b as [|d b]; [done|]. simpl in *. by rewrite Hb.
  - change ((c :: d :: a) ++ b) with (c :: d :: (a ++ b)). rewrite !chars_cons2.
    change (d :: a ++ b) with ((d :: a) ++ b). rewrite IH. destruct (is_cont d); [|done].
    destruct (chars (d :: a)) eqn:E; [by apply chars_not_nil in E|done].
Qed.

Lemma chars_cons s ch rest :
  chars s = ch :: rest ->
  s = ch ++ concat rest /\ chars (concat rest) = rest /\ chars ch = [ch] /\ head_ok (concat rest).
Proof.
  revert ch rest. induction s as [|c s IH]; intros ch rest; [done|].
  destruct s as [|d s]; [by intros [= <- <-]|]. rewrite chars_cons2.
  destruct (is_cont d) eqn:Ed.
  - destruct (chars (d :: s)) as [|ch' rest'] eqn:E; [by apply chars_not_nil in E|].
    destruct (IH _ _ eq_refl) as (Hs & Hr & Hch & Hh). intros [= <- <-].
    split; [by rewrite Hs|]. split; [done|]. split; [|done].
    destruct ch' as [|x ch']; [done|]. simpl in Hs. injection Hs as <- Hs.
    by rewrite chars_cons2, Ed, Hch.
  - intros Heq. assert (ch = [c] /\ rest = chars (d :: s)) as [-> ->] by (split; congruence).
    by rewrite concat_chars.
Qed.

Lemma chars_take k s : chars (concat (take k (chars s))) = take k (chars s).
Proof.
  revert s. induction k as [|k IH]; intros s; [done|].
  destruct (chars s) as [|ch rest] eqn:E; [done|].
  destruct (chars_cons _ _ _ E) as (-> & Hr & Hch & Hh). simpl.
  assert (head_ok (concat (take k rest))) as Hk.
  { destruct rest as [|ch' rest]; [by rewrite take_nil|]. destruct k; [done|]. simpl in *.
    assert (ch' <> []) by (intros ->; pose proof (chars_nonempty (concat ([] :: rest))) as Hne;
      simpl in Hne, Hr; rewrite Hr in Hne; by inversion Hne).
    by destruct ch'. }
  rewrite chars_app by done. rewrite Hch. simpl. f_equal. rewrite <- Hr. apply IH.
Qed.

Lemma chars_drop k s : chars (concat (drop k (chars s))) = drop k (chars s).
Proof.
  revert s. induction k as [|k IH]; intros s; [by rewrite !drop_0, concat_chars|].
  destruct (chars s) as [|ch rest] eqn:E; [done|].
  destruct (chars_cons _ _ _ E) as (-> & Hr & _ & _). simpl. rewrite <- Hr. apply IH.
Qed.

(** *** Trimming *)

Lemma drop_while_drop {A} (p : A -> bool) l : exists k, drop_while p l = drop k l.
Proof.
  induction l as [|x l [k IH]]; [by exists 0|]. simpl. destruct (p x); [by exists (S k)|by exists 0].
Qed.

Lemma drop_while_head {A} (p : A -> bool) l x l' : drop_while p l = x :: l' -> p x = false.
Proof. induction l as [|y l IH]; simpl; [done|]. destruct (p y) eqn:E; [done|]. congruence. Qed.

Lemma drop_while_id {A} (p : A -> bool) l :
  (forall x l', l = x :: l' -> p x = false) -> drop_while p l = l.
Proof. destruct l as [|x l]; [done|]. intros Hx. simpl. by rewrite (Hx x l). Qed.

(** [trim] cuts a run of whole characters that neither starts nor ends with a
    blank. *)
Lemma chars_trim s :
  chars (trim s) = reverse (drop_while is_whitespace
    (reverse (drop_while is_whitespace (chars s)))).
Proof.
  unfold trim. destruct (drop_while_drop is_whitespace (chars s)) as [k Hk]. rewrite Hk.
  destruct (drop_while_drop is_whitespace (reverse (drop k (chars s)))) as [j Hj]. rewrite Hj.
  assert (reverse (drop j (reverse (drop k (chars s))))
    = take (length (drop k (chars s)) - j) (drop k (chars s))) as ->.
  { rewrite <- (reverse_involutive (drop k (chars s))) at 3. rewrite <- (length_reverse (drop k (chars s))).
    set (l := reverse (drop k (chars s))). rewrite <- (take_drop j l) at 3.
    rewrite reverse_app, take_app_length'; [done|]. rewrite length_reverse, length_drop. done. }
  rewrite <- (chars_drop k s) at 2 4. rewrite chars_take. by rewrite chars_drop.
Qed.

Lemma trim_trim s : trim (trim s) = trim s.
Proof.
  unfold trim at 1. rewrite chars_trim. unfold trim.
  set (d := drop_while is_whitespace (chars s)). set (e := drop_while is_whitespace (reverse d)).
  assert (drop_while is_whitespace (reverse e) = reverse e) as ->.
  { apply drop_while_id. intros x l' E. destruct (drop_while_drop is_whitespace (reverse d)) as [j Hj].
    assert (d = reverse e ++ reverse (take j (reverse d))) as Hd.
    { unfold e. rewrite Hj, <- reverse_app, take_drop, reverse_involutive. done. }
    rewrite E in Hd. simpl in Hd. exact (drop_while_head _ _ _ _ Hd). }
  rewrite reverse_involutive. rewrite drop_while_id; [done|].
  intros x l' E. exact (drop_while_head _ _ _ _ E).
Qed.

Lemma head_ok_drop k s : 0 < k -> head_ok (concat (drop k (chars s))).
Proof.
  revert s. induction k as [|k IH]; intros s Hk; [lia|].
  destruct (chars s) as [|ch rest] eqn:E; [done|].
  destruct (chars_cons _ _ _ E) as (-> & Hr & _ & Hh). simpl.
  destruct k as [|k]; [by rewrite drop_0|]. rewrite <- Hr. apply IH. lia.
Qed.

(** A boundary of a piece is a boundary of the whole. *)
Lemma boundary_mid pre c post i :
  (pre = [] \/ head_ok (c ++ post)) -> head_ok post ->
  is_char_boundary c i = true -> is_char_boundary (pre ++ c ++ post) (slen pre + i) = true.
Proof.
  intros Hpre Hpost Hi. pose proof (boundary_le _ _ Hi) as Hle. unfold is_char_boundary in *.
  destruct (N.eqb_spec (slen pre + i) 0) as [|Hnz]; [done|].
  assert (N.to_nat (slen pre + i) = length pre + N.to_nat i) as -> by (unfold slen; lia).
  rewrite lookup_app_r, Nat.add_comm, Nat.add_sub by lia.
  destruct (N.eqb_spec i 0) as [->|Hi0].
  - destruct Hpre as [->|Hh]; [unfold slen in Hnz; simpl in Hnz; lia|].
    destruct (c ++ post) as [|b r] eqn:E; simpl in *; [|by rewrite Hh].
    rewrite app_nil_r, N.add_0_r. apply N.eqb_refl.
  - destruct (c !! N.to_nat i) as [b|] eqn:E.
    + by rewrite (lookup_app_l_Some _ _ _ _ E).
    + apply N.eqb_eq in Hi. subst i. unfold slen in *. rewrite Nat2N.id.
      rewrite lookup_app_r, Nat.sub_diag by lia. destruct post as [|b post]; simpl in *; [|by rewrite Hpost].
      rewrite app_nil_r, length_app. lia.
Qed.

Lemma slice_mid pre c post i j x :
  (pre = [] \/ head_ok (c ++ post)) -> head_ok post ->
  slice c i j = Some x -> slice (pre ++ c ++ post) (slen pre + i) (slen pre + j) = Some x.
Proof.
  intros Hpre Hpost Hs. pose proof (slice_Some _ _ _ _ Hs) as (Hij & Hj & ->).
  unfold slice in Hs. destruct (_ && is_char_boundary c j) eqn:E; [|done].
  rewrite slice_ok; [| lia | apply boundary_mid; auto; lia | apply boundary_mid; auto; lia].
  f_equal. assert (N.to_nat (slen pre + i) = length pre + N.to_nat i) as -> by (unfold slen; lia).
  rewrite <- drop_drop, drop_app_length.
  assert (N.to_nat (slen pre + j - (slen pre + i)) = N.to_nat (j - i)) as -> by lia.
  rewrite drop_app_le by (unfold slen in Hj; lia).
  rewrite take_app_le; [done|]. rewrite length_drop. unfold slen in Hj. lia.
Qed.

Lemma join_split_byte sep s : join [sep] (split_byte sep s) = s.
Proof.
  induction s as [|c s IH]; [done|]. simpl. destruct (split_byte sep s) as [|w ws] eqn:E.
  - by destruct s; simpl in E; repeat case_match.
  - case_decide; simpl in *; [by rewrite IH; subst|]. destruct ws; simpl in *; by rewrite <- IH.
Qed.

(** *** Order *)

Lemma byte_val_inj a b : byte_val a = byte_val b -> a = b.
Proof. unfold byte_val. intros E. by rewrite <- (ascii_N_embedding a), E, ascii_N_embedding. Qed.

Lemma str_ltb_irrefl a : str_ltb a a = false.
Proof. induction a as [|x a IH]; simpl; [done|]. by rewrite N.ltb_irrefl. Qed.

Lemma str_ltb_trans a b c : str_ltb a b = true -> str_ltb b c = true -> str_ltb a c = true.
Proof.
  revert b c. induction a as [|x a IH]; intros [|y b] [|z c]; simpl; try done.
  destruct (N.ltb_spec (byte_val x) (byte_val y)), (N.ltb_spec (byte_val y) (byte_val x)); try done; try lia;
  destruct (N.ltb_spec (byte_val y) (byte_val z)), (N.ltb_spec (byte_val z) (byte_val y)); try done; try lia;
  destruct (N.ltb_spec (byte_val x) (byte_val z)), (N.ltb_spec (byte_val z) (byte_val x)); try done; try lia.
  apply IH.
Qed.

Lemma str_ltb_total a b : a = b \/ str_ltb a b = true \/ str_ltb b a = true.
Proof.
  revert b. induction a as [|x a IH]; intros [|y b]; simpl; auto.
  destruct (N.ltb_spec (byte_val x) (byte_val y)), (N.ltb_spec (byte_val y) (byte_val x)); auto; try lia.
  assert (x = y) as -> by (apply byte_val_inj; lia). destruct (IH b) as [->|[?|?]]; auto.
Qed.

(** *** Decimal numbers *)

Lemma of_string_inj s t : of_string s = of_string t -> s = t.
Proof.
  unfold of_string. intros E. rewrite <- (String.string_of_list_ascii_of_string s), E.
  apply String.string_of_list_ascii_of_string.
Qed.

Lemma show_N_inj n m : show_N n = show_N m -> n = m.
Proof. intros ?%of_string_inj. by apply (inj pretty). Qed.

Lemma show_N_digits n : Forall (fun c => is_ascii_digit c = true) (show_N n).
Proof.
  assert (forall x s, Forall (fun c => is_ascii_digit c = true) (of_string s) ->
    Forall (fun c => is_ascii_digit c = true) (of_string (pretty_N_go x s))) as Hgo.
  { intros x. induction (N.lt_wf_0 x) as [x _ IH]; intros s Hs.
    assert (x = 0 \/ 0 < x)%N as [->|?] by lia; [by rewrite pretty_N_go_0|].
    rewrite pretty_N_go_step by done. apply IH; [by apply N.div_lt|]. simpl. constructor; [|done].
    unfold pretty_N_char. by repeat case_match. }
  unfold show_N, pretty, pretty_N. case_decide; [by repeat constructor|]. apply Hgo. constructor.
Qed.

(** *** Case *)

Lemma upper_lower_byte c : is_ascii_lowercase c = false -> to_upper_byte (to_lower_byte c) = c.
Proof. by destruct c as [[] [] [] [] [] [] [] []]. Qed.

Lemma upper_byte_id c : is_ascii_lowercase c = false -> to_upper_byte c = c.
Proof. unfold to_upper_byte. by intros ->. Qed.

Lemma upper_byte_not_lower c : is_ascii_lowercase (to_upper_byte c) = false.
Proof. by destruct c as [[] [] [] [] [] [] [] []]. Qed.

Lemma upper_byte_ascii c : is_ascii_byte c = true -> is_ascii_byte (to_upper_byte c) = true.
Proof. by destruct c as [[] [] [] [] [] [] [] []]. Qed.

Lemma upper_byte_fix c d : is_ascii_uppercase d = false -> to_upper_byte c = d -> c = d.
Proof. intros Hd <-. revert Hd. by destruct c as [[] [] [] [] [] [] [] []]. Qed.

Lemma ascii_not_cont c : is_ascii_byte c = true -> is_cont c = false.
Proof. unfold is_ascii_byte, is_cont. lia. Qed.

Lemma chars_ascii s : ascii_only s -> chars s = (fun c => [c]) <$> s.
Proof.
  induction 1 as [|c s Hc Hs IH]; [done|]. rewrite fmap_cons, <- IH. simpl.
  destruct Hs as [|d s Hd Hs]; [done|]. by rewrite ascii_not_cont.
Qed.

Lemma map_join (f : ascii -> ascii) sep l : map f (join sep l) = join (map f sep) (map (map f) l).
Proof.
  induction l as [|w [|w' l] IH]; [done|done|]. simpl in *. by rewrite !map_app, IH.
Qed.

Lemma split_byte_Forall (P : ascii -> Prop) sep s : Forall P s -> Forall (Forall P) (split_byte sep s).
Proof.
  induction 1 as [|c s Hc Hs IH]; simpl; [repeat constructor|].
  case_decide; [by repeat constructor|].
  destruct (split_byte sep s) as [|w ws]; [by repeat constructor|].
  inversion IH; subst. by repeat constructor.
Qed.

Lemma utf8_lossy_valid s : utf8_valid s = true -> utf8_lossy s = s.
Proof.
  assert (H : forall n s, length s <= n -> utf8_valid s = true -> utf8_lossy s = s).
  { clear s. induction n as [|n IH]; intros s Hn; [by destruct s; simpl in *; [|lia]|].
    destruct s as [|c s1]; [done|]. cbn [utf8_valid utf8_lossy].
    destruct (byte_val c <? 128)%N; [intros Hv; f_equal; apply IH; simpl in *; [lia|done]|].
    destruct s1 as [|d s2]; [done|]. destruct (in_range 194 223 c).
    { intros [-> Hv]%andb_true_iff. do 2 f_equal. apply IH; simpl in *; [lia|done]. }
    destruct s2 as [|e s3]; [done|]. destruct (in_range 224 239 c).
    { intros Hv. apply andb_true_iff in Hv as [[[[-> ->]%andb_true_iff ->]%andb_true_iff ->]%andb_true_iff Hv].
      cbn [andb]. do 3 f_equal. apply IH; simpl in *; [lia|done]. }
    destruct s3 as [|f s4]; [done|]. intros Hv.
    apply andb_true_iff in Hv as [[[[[[-> ->]%andb_true_iff ->]%andb_true_iff ->]%andb_true_iff ->]%andb_true_iff ->]%andb_true_iff Hv].
    cbn [andb]. do 4 f_equal. apply IH; simpl in *; [lia|done]. }
  by apply (H (length s)).
Qed.
