(* ===== verification/Json.v ===== *)
(** * serde_json values

    The JSON values the gateway stores in [policy_rules.conditions],
    [action_params] and [extra_params], with the accessors it calls. *)

From Stdlib Require Import SpecFloat.
From S2P Require Import Prelude Rstr.

#[local] Set Warnings "-register-all".

(** [serde_json::Number]: an unsigned or a negative 64-bit integer, or a
    finite [f64]. *)
Inductive number : Type :=
  | PosInt (n : N)
  | NegInt (z : Z)
  | Float (x : f64).

(** An object is an association list; [serde_json]'s map has no duplicate
    keys and its iteration order is never used here. *)
Inductive Value : Type :=
  | Null
  | Bool (b : bool)
  | Number (n : number)
  | VString (s : str)
  | Array (l : list Value)
  | Object (m : list (str * Value)).

(** [PartialEq] of numbers and values; maps are compared in key order. *)
Definition number_eqb (a b : number) : bool :=
  match a, b with
  | PosInt n, PosInt m => (n =? m)%N
  | NegInt z, NegInt w => (z =? w)%Z
  | Float x, Float y => SFeqb x y
  | _, _ => false
  end.

Fixpoint value_eqb (v w : Value) : bool :=
  match v, w with
  | Null, Null => true
  | Bool a, Bool b => bool_decide (a = b)
  | Number a, Number b => number_eqb a b
  | VString a, VString b => bool_decide (a = b)
  | Array l, Array l' =>
      (fix go l l' := match l, l' with
        | [], [] => true
        | x :: l, y :: l' => value_eqb x y && go l l'
        | _, _ => false
        end) l l'
  | Object m, Object m' =>
      (fix go m m' := match m, m' with
        | [], [] => true
        | (k, x) :: m, (k', y) :: m' => bool_decide (k = k') && value_eqb x y && go m m'
        | _, _ => false
        end) m m'
  | _, _ => false
  end.

Fixpoint obj_get {A} (m : list (str * A)) (k : str) : option A :=
  match m with
  | [] => None
  | (k', v) :: m' => if decide (k = k') then Some v else obj_get m' k
  end.

Fixpoint obj_insert {A} (m : list (str * A)) (k : str) (v : A) : list (str * A) :=
  match m with
  | [] => [(k, v)]
  | (k', v') :: m' => if decide (k = k') then (k, v) :: m' else (k', v') :: obj_insert m' k v
  end.

Fixpoint obj_remove {A} (m : list (str * A)) (k : str) : list (str * A) :=
  match m with
  | [] => []
  | (k', v') :: m' => if decide (k = k') then obj_remove m' k else (k', v') :: obj_remove m' k
  end.

(** [Value::get(&str)]: [None] on anything but an object. *)
Definition get (v : Value) (k : str) : option Value :=
  match v with Object m => obj_get m k | _ => None end.

Definition as_str (v : Value) : option str :=
  match v with VString s => Some s | _ => None end.

Definition as_array (v : Value) : option (list Value) :=
  match v with Array l => Some l | _ => None end.

Definition as_f64 (v : Value) : option f64 :=
  match v with
  | Number (PosInt n) => Some (f64_of_Z (Z.of_N n))
  | Number (NegInt z) => Some (f64_of_Z z)
  | Number (Float x) => Some x
  | _ => None
  end.

(** [v.get(k).and_then(Value::as_str)] *)
Definition get_str (v : Value) (k : str) : option str := get v k ≫= as_str.

(** [values.iter().filter_map(Value::as_str).any(p)] *)
Definition any_str (p : str -> bool) (l : list Value) : bool :=
  existsb (fun v => match as_str v with Some s => p s | None => false end) l.

Lemma obj_get_insert {A} (m : list (str * A)) k v k' :
  obj_get (obj_insert m k v) k' = if decide (k' = k) then Some v else obj_get m k'.
Proof.
  induction m as [|[k1 v1] m IH]; simpl; [done|].
  destruct (decide (k = k1)) as [->|]; simpl.
  - by destruct (decide (k' = k1)).
  - rewrite IH. repeat destruct (decide _); congruence.
Qed.

Lemma obj_get_remove {A} (m : list (str * A)) k k' :
  obj_get (obj_remove m k) k' = if decide (k' = k) then None else obj_get m k'.
Proof.
  induction m as [|[k1 v1] m IH]; simpl; [by destruct (decide _)|].
  destruct (decide (k = k1)) as [->|]; simpl; rewrite IH;
    repeat destruct (decide _); congruence.
Qed.

Lemma obj_remove_absent {A} (m : list (str * A)) k : obj_get m k = None -> obj_remove m k = m.
Proof.
  induction m as [|[k' v] m IH]; simpl; [done|]. destruct (decide (k = k')); [done|].
  intros Hk. by rewrite IH.
Qed.

Lemma any_str_true p l :
  any_str p l = true <-> exists s, VString s ∈ l /\ p s = true.
Proof.
  unfold any_str. rewrite existsb_exists. split.
  - intros (v & Hin & Hv). destruct v; simpl in Hv; try done.
    exists s. by rewrite list_elem_of_In.
  - intros (s & Hin & Hp). exists (VString s). by rewrite <- list_elem_of_In.
Qed.
