(* ===== verification/Types.v ===== *)
(** * Shared data types (secureprompt-common)

    [types.rs], [errors.rs] and [pipeline.rs]: identifiers, detections, policy
    results, the token vault with its restoration, the pipeline state and the
    API error type. *)

From Stdlib Require Import SpecFloat.
From S2P Require Import Prelude Rstr Json.

(** ** Identifiers *)

Abbreviation Uuid := N.
Definition nil_uuid : Uuid := 0%N.
Definition is_nil (u : Uuid) : bool := (u =? 0)%N.

Abbreviation WorkspaceId := Uuid.
Abbreviation RequestId := Uuid.
Abbreviation ProviderId := Uuid.

(** ** Errors *)

Inductive ApiError : Type :=
  | NotFound (m : str)
  | Unauthorized (m : str)
  | Forbidden (m : str)
  | BadRequest (m : str)
  | NotImplemented (m : str)
  | Internal (m : str)
  | Database (m : str)
  | BudgetExceeded (m : str)
  | ServiceUnavailable (m : str)
  | Conflict (m : str)
  | TooManyRequests (m : str).

Abbreviation result := (outcome ApiError).

(** ** Data *)

Record TokenUsage : Type := {
  input_tokens : option N;
  output_tokens : option N;
  reasoning_tokens : option N;
  cache_read_tokens : option N;
  cache_write_tokens : option N;
}.

Definition TokenUsage_default : TokenUsage := {|
  input_tokens := None; output_tokens := None; reasoning_tokens := None;
  cache_read_tokens := None; cache_write_tokens := None;
|}.

Record Detection : Type := {
  class : str;
  confidence : f32;
  span : option (N * N);
  value : str;
}.

Record PolicyEvent : Type := {
  rule_id : Uuid;
  rule_name : str;
  pe_action : str;
  pe_dry_run : bool;
}.

Record PolicyResult : Type := {
  final_action : str;
  events : list PolicyEvent;
}.

Record Message : Type := {
  role : str;
  content : str;
}.

Record ProviderResponse : Type := {
  pr_content : str;
  pr_model : str;
  pr_finish_reason : option str;
  pr_embedding : option (list f32);
}.

(** ** The token vault *)

Record TokenVault : Type := { entries : gmap str str }.

Definition TokenVault_default : TokenVault := {| entries := ∅ |}.

Definition vault_insert (v : TokenVault) (placeholder original : str) : TokenVault :=
  {| entries := <[placeholder := original]> (entries v) |}.

Definition resolve (v : TokenVault) (placeholder : str) : option str :=
  entries v !! placeholder.

(** A [HashMap] is iterated in an unspecified order: any permutation of its
    entries. *)
Class HashOrder := {
  hash_iter : gmap str str -> list (str * str);
  hash_iter_perm m : hash_iter m ≡ₚ map_to_list m;
}.

Definition map_order : HashOrder := {|
  hash_iter m := map_to_list m;
  hash_iter_perm m := reflexivity (map_to_list m);
|}.

Definition original_values (v : TokenVault) : gset str :=
  list_to_set (map_to_list (entries v)).*2.

(** [for (placeholder, original) in &self.entries { restored = restored.replace(..) }] *)
Definition restore_in_order (l : list (str * str)) (content : str) : str :=
  foldl (fun restored kv => replace restored kv.1 kv.2) content l.

Definition restore `{HashOrder} (v : TokenVault) (content : str) : str :=
  restore_in_order (hash_iter (entries v)) content.

Definition vault_is_empty (v : TokenVault) : bool := bool_decide (entries v = ∅).

Definition vault_len (v : TokenVault) : nat := size (entries v).

(** ** Pipeline state *)

Record PipelineState : Type := {
  vault : TokenVault;
  detections : list Detection;
  policy_events : list PolicyEvent;
  redaction_map : gmap str str;
}.

Definition PipelineState_default : PipelineState := {|
  vault := TokenVault_default; detections := []; policy_events := []; redaction_map := ∅;
|}.

Record PipelineInput : Type := {
  pi_request_id : RequestId;
  pi_workspace_id : WorkspaceId;
  pi_provider_id : ProviderId;
  pi_messages : list Message;
  pi_stream : bool;
  pi_model : str;
  pi_extra_params : Value;
}.

Record PipelineOutput : Type := {
  po_response : ProviderResponse;
  po_usage : TokenUsage;
  po_redaction_map : gmap str str;
  po_policy_result : PolicyResult;
}.

(** [secureprompt_common::pipeline::run_pipeline] is still a stub. *)
Definition run_pipeline (st : PipelineState) (input : PipelineInput) : result PipelineOutput :=
  Err (NotImplemented $"pipeline not yet implemented — Phase 2 deliverable").

#[export] Instance Detection_eq_dec : EqDecision Detection.
Proof. solve_decision. Defined.
