(* ===== verification/Placeholders.v ===== *)
(** * Theory of placeholder text

    A text in which every [{{] opens a placeholder is a list of atoms: single
    bytes and tokens [{{body}}].  On such texts [TokenVault::restore], a
    sequence of [str::replace] calls in hash order, is the simultaneous
    substitution of the vault's values, whatever the order.  Redaction,
    streaming and the pipeline are verified against this view. *)

From S2P Require Import Prelude Rstr Json Types.

Definition obrace : ascii := "{"%char.
Definition cbrace : ascii := "}"%char.

Inductive atom : Type :=
  | Chr (c : ascii)
  | Tok (body : str).

Definition tok_text (body : str) : str := $"{{" ++ body ++ $"}}".

Definition render_atom (a : atom) : str :=
  match a with Chr c => [c] | Tok b => tok_text b end.

Definition render (ats : list atom) : str := concat (render_atom <$> ats).

(** A token body has no brace and is not empty. *)
Definition body_ok (b : str) : Prop :=
  b <> [] /\ Forall (fun c => c <> obrace /\ c <> cbrace) b.

Definition chr_is (c : ascii) (a : atom) : Prop := a = Chr c.

(** No two adjacent plain opening braces; token bodies are well formed. *)
Fixpoint atoms_ok (ats : list atom) : Prop :=
  match ats with
  | [] => True
  | Tok b :: ats' => body_ok b /\ atoms_ok ats'
  | Chr c :: ats' =>
      (c = obrace -> head ats' <> Some (Chr obrace)) /\ atoms_ok ats'
  end.

(** Replace the tokens a lookup function knows. *)
Definition subst_atom (f : str -> option str) (a : atom) : list atom :=
  match a with
  | Chr c => [Chr c]
  | Tok b => match f b with Some v => Chr <$> v | None => [Tok b] end
  end.

Definition subst (f : str -> option str) (ats : list atom) : list atom :=
  ats ≫= subst_atom f.

(** What a vault says about a token body. *)
Definition vault_fn (m : gmap str str) (b : str) : option str := m !! tok_text b.

(** Every key of the map is a placeholder. *)
Definition keys_ok (m : gmap str str) : Prop :=
  forall k v, m !! k = Some v -> exists b, k = tok_text b /\ body_ok b.

(** ** Rendering *)

Lemma render_cons a ats : render (a :: ats) = render_atom a ++ render ats.
Proof. done. Qed.

Lemma subst_cons f a ats : subst f (a :: ats) = subst_atom f a ++ subst f ats.
Proof. done. Qed.

Lemma tok_text_eq b : tok_text b = obrace :: obrace :: b ++ [cbrace; cbrace].
Proof. done. Qed.

Lemma render_app a b : render (a ++ b) = render a ++ render b.
Proof. unfold render. by rewrite fmap_app, concat_app. Qed.

Lemma render_chrs s : render (Chr <$> s) = s.
Proof. induction s as [|c s IH]; [done|]. rewrite fmap_cons, render_cons. by rewrite IH. Qed.

Lemma subst_app f a b : subst f (a ++ b) = subst f a ++ subst f b.
Proof. unfold subst. by rewrite bind_app. Qed.

Lemma subst_chrs f s : subst f (Chr <$> s) = Chr <$> s.
Proof. induction s as [|c s IH]; [done|]. rewrite fmap_cons, subst_cons. by rewrite IH. Qed.

(** ** Well-formedness *)

(** [atoms_ok] does not look at what precedes a token or a plain byte other
    than an opening brace. *)
Lemma atoms_ok_app_r a b : atoms_ok (a ++ b) -> atoms_ok b.
Proof. induction a as [|[c|t] a IH]; simpl; [done| |]; intros [_ Ha]; by apply IH. Qed.

Lemma atoms_ok_app_l a b : atoms_ok (a ++ b) -> atoms_ok a.
Proof.
  induction a as [|[c|t] a IH]; simpl; [done| |]; intros [Hh Ha]; split; eauto.
  intros ->. specialize (Hh eq_refl). by destruct a.
Qed.

(** Two adjacent braces of a text survive any substitution of its tokens. *)
Lemma atoms_ok_subst_inv f ats :
  (forall b, Tok b ∈ ats -> body_ok b) -> atoms_ok (subst f ats) -> atoms_ok ats.
Proof.
  induction ats as [|a ats IH]; intros Hb; [done|].
  rewrite subst_cons. intros Hok. assert (atoms_ok ats) as Ht.
  { apply IH; [set_solver|by eapply atoms_ok_app_r]. }
  destruct a as [c|b]; simpl in *; [|split; [apply Hb; left|done]].
  split; [|done]. intros ->. destruct Hok as [Hh _]. specialize (Hh eq_refl).
  destruct ats as [|[c'|b'] ats]; simpl in *; congruence.
Qed.

Lemma subst_compose f g ats :
  (forall b v, f b = Some v -> g b = Some v) -> subst g (subst f ats) = subst g ats.
Proof.
  intros Hfg. induction ats as [|a ats IH]; [done|].
  rewrite !subst_cons, subst_app, IH. f_equal.
  destruct a as [c|b]; [done|]. simpl. destruct (f b) as [v|] eqn:E.
  - by rewrite (Hfg _ _ E), subst_chrs.
  - unfold subst. simpl. by rewrite app_nil_r.
Qed.

Lemma subst_toks f ats b : Tok b ∈ subst f ats -> Tok b ∈ ats.
Proof.
  unfold subst. rewrite list_elem_of_bind. intros ([c|b'] & Hin & Ha); simpl in Hin.
  - apply list_elem_of_singleton in Hin. done.
  - destruct (f b') as [v|]; [by apply list_elem_of_fmap in Hin as (? & ? & ?)|].
    apply list_elem_of_singleton in Hin. by simplify_eq.
Qed.

Lemma atoms_ok_toks ats b : atoms_ok ats -> Tok b ∈ ats -> body_ok b.
Proof.
  induction ats as [|[c|b'] ats IH]; simpl; intros Hok Hin; [by apply not_elem_of_nil in Hin| |];
    destruct Hok as [Hh Ht]; apply elem_of_cons in Hin as [Heq|Hin]; simplify_eq; eauto.
Qed.

(** ** [str::replace] on atoms *)

Lemma replace_go_skip pat to x y :
  replace_go pat to (length x) (x ++ y) = replace_go pat to 0 y.
Proof. induction x as [|c x IH]; simpl; [|done]. by destruct y. Qed.

Lemma replace_go_no pat to c s :
  starts_with (c :: s) pat = false ->
  replace_go pat to 0 (c :: s) = c :: replace_go pat to 0 s.
Proof. intros Hno. cbn [replace_go]. by rewrite Hno. Qed.

(** Bytes that are not the first byte of the pattern are copied. *)
Lemma replace_go_copy p pat to x y :
  Forall (fun c => c <> p) x ->
  replace_go (p :: pat) to 0 (x ++ y) = x ++ replace_go (p :: pat) to 0 y.
Proof.
  induction 1 as [|c x Hc Hx IH]; [done|]. simpl. rewrite decide_False by congruence.
  by rewrite IH.
Qed.

(** Two token texts that are prefixes of a common text are equal. *)
Lemma tok_prefix b b' rest :
  body_ok b -> body_ok b' ->
  starts_with (tok_text b' ++ rest) (tok_text b) = true -> b = b'.
Proof.
  intros [_ Hb] [_ Hb'] Hs. apply starts_with_spec in Hs as [t Ht].
  rewrite !tok_text_eq in Ht. simpl in Ht. simplify_eq/=. rewrite <- !app_assoc in Ht.
  revert b' Hb' Ht. induction Hb as [|c b [Hc1 Hc2] Hb IH]; intros b' Hb' Ht.
  - destruct Hb' as [|c' b' [? ?] ?]; [done|]. exfalso. simpl in Ht. inversion Ht. done.
  - destruct Hb' as [|c' b' [? ?] Hb']; simpl in Ht; inversion Ht; subst; [done|].
    f_equal. by apply IH.
Qed.

Lemma no_match_chr c ats b :
  body_ok b -> atoms_ok (Chr c :: ats) -> starts_with (c :: render ats) (tok_text b) = false.
Proof.
  intros [Hne Hb] [Hc _]. destruct b as [|b0 b]; [done|]. inversion Hb as [|? ? [Hb0 _] _]; subst.
  rewrite tok_text_eq. simpl. destruct (decide _) as [<-|]; [|done].
  destruct ats as [|[d|b'] ats]; simpl; [done| |].
  - destruct (decide _) as [Hd|]; [|done]. destruct (Hc eq_refl). simpl. by rewrite <- Hd.
  - repeat case_decide; done.
Qed.

Lemma replace_go_hit b v rest :
  replace_go (tok_text b) v 0 (tok_text b ++ rest) = v ++ replace_go (tok_text b) v 0 rest.
Proof.
  transitivity (v ++ replace_go (tok_text b) v (length (tail (tok_text b)))
                       (tail (tok_text b) ++ rest)); [|by rewrite replace_go_skip].
  rewrite tok_text_eq. cbn [app replace_go].
  change (obrace :: obrace :: (b ++ [cbrace; cbrace]) ++ rest)
    with ((obrace :: obrace :: b ++ [cbrace; cbrace]) ++ rest).
  rewrite starts_with_app. do 2 f_equal.
Qed.

Lemma replace_go_miss b b' v rest :
  body_ok b -> body_ok b' -> b <> b' ->
  replace_go (tok_text b) v 0 (tok_text b' ++ rest) = tok_text b' ++ replace_go (tok_text b) v 0 rest.
Proof.
  intros Hb Hb' Hne.
  destruct (starts_with (tok_text b' ++ rest) (tok_text b)) eqn:E; [by apply tok_prefix in E|].
  destruct Hb' as [Hnil Hall]. destruct b' as [|c0 b0]; [done|].
  inversion Hall as [|? ? [Hc0 _] Hall0]; subst.
  assert (forall x y, starts_with (obrace :: c0 :: x) (obrace :: obrace :: y) = false) as Hsecond.
  { intros x y. simpl. repeat case_decide; congruence. }
  rewrite (tok_text_eq (c0 :: b0)), (tok_text_eq b) in *. simpl app in *.
  rewrite replace_go_no by done. rewrite replace_go_no by apply Hsecond.
  do 2 f_equal. rewrite (app_comm_cons _ rest c0).
  apply replace_go_copy.
  constructor; [done|]. apply Forall_app; split; [|by repeat constructor].
  eapply Forall_impl; [exact Hall0|]; naive_solver.
Qed.

(** Replacing one placeholder by a value substitutes exactly its tokens. *)
Definition single (b v : str) (b' : str) : option str :=
  if decide (b' = b) then Some v else None.

Lemma replace_render b v ats :
  body_ok b -> atoms_ok ats ->
  replace (render ats) (tok_text b) v = render (subst (single b v) ats).
Proof.
  intros Hb. change (replace (render ats) (tok_text b) v)
    with (replace_go (tok_text b) v 0 (render ats)).
  induction ats as [|[c|b'] ats IH]; intros Hok; [done| |];
    rewrite subst_cons, render_app, render_cons; simpl render_atom.
  - simpl app. rewrite replace_go_no by by apply no_match_chr. by rewrite IH by apply Hok.
  - destruct Hok as [Hb' Hok]. simpl subst_atom. unfold single at 1. case_decide; subst.
    + by rewrite replace_go_hit, render_chrs, IH.
    + rewrite replace_go_miss, IH by done. rewrite render_cons. by rewrite app_nil_r.
Qed.

(** ** [TokenVault::restore] on atoms *)

Lemma keys_ok_tok m b v : keys_ok m -> m !! tok_text b = Some v -> body_ok b.
Proof.
  intros Hm Hb. destruct (Hm _ _ Hb) as (b' & Heq & Hok).
  rewrite !tok_text_eq in Heq. simplify_eq. by apply app_inv_tail in Heq as ->.
Qed.

Lemma tok_text_inj b b' : tok_text b = tok_text b' -> b = b'.
Proof. rewrite !tok_text_eq. intros [= ?]. by eapply app_inv_tail. Qed.

(** The entries a lookup function already covers. *)
Definition list_fn (l : list (str * str)) (b : str) : option str :=
  (list_to_map l : gmap str str) !! tok_text b.

Lemma restore_in_order_atoms m l ats :
  keys_ok m -> NoDup l.*1 -> (forall k v, (k, v) ∈ l -> m !! k = Some v) ->
  (forall b, Tok b ∈ ats -> body_ok b) -> atoms_ok (subst (vault_fn m) ats) ->
  restore_in_order l (render ats) = render (subst (list_fn l) ats).
Proof.
  intros Hm. revert ats. induction l as [|[k v] l IH]; intros ats Hnd Hl Htok Hok.
  - simpl. f_equal. induction ats as [|a ats IH]; [done|]. rewrite subst_cons, <- IH.
    + destruct a as [c|b]; [done|]. simpl. unfold list_fn. simpl. by rewrite lookup_empty.
    + intros; apply Htok. by right.
    + rewrite subst_cons in Hok. by eapply atoms_ok_app_r.
  - apply NoDup_cons in Hnd as [Hk Hnd].
    assert (m !! k = Some v) as Hkv by (apply Hl; left).
    destruct (Hm _ _ Hkv) as (b & -> & Hb).
    assert (forall b' v', single b v b' = Some v' -> vault_fn m b' = Some v') as Hsub.
    { intros b' v'. unfold single, vault_fn. case_decide; [|done]. by intros [= <-]; subst. }
    change (restore_in_order ((tok_text b, v) :: l) (render ats))
      with (restore_in_order l (replace (render ats) (tok_text b) v)).
    rewrite replace_render; [|done|by eapply atoms_ok_subst_inv].
    rewrite IH; [|done|intros; apply Hl; by right|by intros b' Hb'%subst_toks; apply Htok|].
    2:{ by rewrite subst_compose. }
    f_equal. clear - Hk. induction ats as [|a ats IH]; [done|].
    rewrite !subst_cons, subst_app, IH. f_equal. destruct a as [c|b']; [done|]. simpl.
    unfold single, list_fn. simpl. destruct (decide (b' = b)) as [->|Hne].
    + rewrite subst_chrs, lookup_insert_eq. done.
    + rewrite lookup_insert_ne by (intros ?%tok_text_inj; congruence).
      rewrite subst_cons. simpl. unfold list_fn. by rewrite app_nil_r.
Qed.

(** Restoration is the simultaneous substitution of the vault's values, for
    every iteration order of the hash map. *)
Lemma restore_atoms `{HashOrder} v ats :
  keys_ok (entries v) -> (forall b, Tok b ∈ ats -> body_ok b) ->
  atoms_ok (subst (vault_fn (entries v)) ats) ->
  restore v (render ats) = render (subst (vault_fn (entries v)) ats).
Proof.
  intros Hm Htok Hok. unfold restore. pose proof (hash_iter_perm (entries v)) as Hp.
  assert (NoDup (hash_iter (entries v)).*1) as Hnd.
  { rewrite Hp. apply NoDup_fst_map_to_list. }
  rewrite (restore_in_order_atoms (entries v)); [|done|done| |done|done].
  - do 2 f_equal. unfold list_fn, vault_fn.
    assert (list_to_map (hash_iter (entries v)) = entries v) as ->; [|done].
    rewrite <- (list_to_map_to_list (entries v)) at 2. by apply list_to_map_proper.
  - intros k w Hin. rewrite Hp in Hin. by apply elem_of_map_to_list.
Qed.

Lemma keys_ok_empty : keys_ok ∅.
Proof. intros k v Hk. by rewrite lookup_empty in Hk. Qed.

Lemma keys_ok_insert m b v : keys_ok m -> body_ok b -> keys_ok (<[tok_text b := v]> m).
Proof.
  intros Hm Hb k w. rewrite lookup_insert. case_decide; [|apply Hm]. intros _. subst. by exists b.
Qed.

#[export] Hint Resolve keys_ok_empty keys_ok_insert : sp.

(** A property of all tokens, checked atom by atom. *)
Lemma toks_forall (P : str -> Prop) ats :
  Forall (fun a => match a with Tok b => P b | Chr _ => True end) ats ->
  forall b, Tok b ∈ ats -> P b.
Proof. rewrite Forall_forall. intros Hf b Hb. exact (Hf _ Hb). Qed.

#[export] Instance body_ok_dec b : Decision (body_ok b).
Proof. unfold body_ok. apply _. Defined.

#[export] Instance atom_eq_dec : EqDecision atom.
Proof. solve_decision. Defined.

#[export] Instance atoms_ok_dec ats : Decision (atoms_ok ats).
Proof. induction ats as [|[c|b] ats IH]; simpl; apply _. Defined.
