(* ===== verification/Redaction.v ===== *)
(** * Redaction and transformation of detected spans (vault/redaction.rs)

    [apply_redaction] replaces detected spans by [{{Class_N}}] placeholders
    and records them in the vault; [apply_transform] renders a template over
    each span.  Both walk the detections in span order with a cursor.  Code
    that slices returns [option]: [None] is the panic of a bad index. *)

From S2P Require Import Prelude Rstr Json Types.

Section redaction.
Context `{CaseMap}.

(** ** Placeholders *)

(** The legacy stateless placeholder; [sha256_hex] is the hex digest of the
    [sha2]/[hex] crates. *)
Definition placeholder_for (sha256_hex : str -> str) (cls val : str) : option str :=
  digest16 ← slice_to (sha256_hex val) 16;
  Some ($"[REDACTED:" ++ to_uppercase cls ++ $":" ++ digest16 ++ $"]").

Definition title_word (word : str) : str :=
  match chars word with
  | [] => []
  | first :: rest => to_uppercase first ++ to_lowercase (concat rest)
  end.

Definition title_case (cls : str) : str :=
  join $"_" (title_word <$> split_byte "_"%char cls).

(** The text between the braces, and [format!("{{{{{}_{}}}}}", ..)]. *)
Definition placeholder_body (class_upper : str) (counter : N) : str :=
  title_case class_upper ++ $"_" ++ show_N counter.

Definition placeholder (class_upper : str) (counter : N) : str :=
  $"{{" ++ placeholder_body class_upper counter ++ $"}}".

(** ** Span order *)

Definition span_key (d : Detection) : N * N := default (usize_max, usize_max) (span d).

(** [a.cmp(b) != Greater]: by start, longer spans first on ties. *)
Definition span_le (a b : Detection) : bool :=
  let '(a0, a1) := span_key a in
  let '(b0, b1) := span_key b in
  match (a0 ?= b0)%N with
  | Lt => true
  | Gt => false
  | Eq => (saturating_sub b1 b0 <=? saturating_sub a1 a0)%N
  end.

(** ** [apply_redaction] *)

Record RedactState : Type := {
  rs_cursor : N;
  rs_out : str;
  rs_assigned : gmap (str * str) str;
  rs_counters : gmap str N;
  rs_vault : TokenVault;
  rs_map : gmap str str;
}.

(** The placeholder of [(class, value)] in this call: reused if assigned,
    otherwise numbered by the next counter of the class. *)
Definition assign (assigned : gmap (str * str) str) (counters : gmap str N)
    (class_upper val : str) : str * gmap (str * str) str * gmap str N :=
  match assigned !! (class_upper, val) with
  | Some existing => (existing, assigned, counters)
  | None =>
      let counter := u32_succ (default 0%N (counters !! class_upper)) in
      let token := placeholder class_upper counter in
      (token, <[(class_upper, val) := token]> assigned, <[class_upper := counter]> counters)
  end.

(** The [continue] guards of the loop: overlap with text already emitted, end
    of content, character boundaries. *)
Definition span_accepted (text : str) (cursor : N) (start stop : N) : bool :=
  negb ((start <? cursor)%N || (slen text <? stop)%N)
  && (is_char_boundary text start && is_char_boundary text stop).

Definition redact_step (text : str) (st : RedactState) (d : Detection) : option RedactState :=
  match span d with
  | None => Some st
  | Some (start, stop) =>
      if span_accepted text (rs_cursor st) start stop then
        before ← slice text (rs_cursor st) start;
        let class_upper := to_uppercase (class d) in
        let '(ph, assigned, counters) :=
          assign (rs_assigned st) (rs_counters st) class_upper (value d) in
        Some {|
          rs_cursor := stop;
          rs_out := (rs_out st ++ before) ++ ph;
          rs_assigned := assigned;
          rs_counters := counters;
          rs_vault := vault_insert (rs_vault st) ph (value d);
          rs_map := <[ph := value d]> (rs_map st);
        |}
      else Some st
  end.

Fixpoint redact_loop (text : str) (st : RedactState) (ds : list Detection) : option RedactState :=
  match ds with
  | [] => Some st
  | d :: ds' => st' ← redact_step text st d; redact_loop text st' ds'
  end.

Definition redact_init (v : TokenVault) (m : gmap str str) : RedactState := {|
  rs_cursor := 0; rs_out := []; rs_assigned := ∅; rs_counters := ∅;
  rs_vault := v; rs_map := m;
|}.

Definition apply_redaction (text : str) (ds : list Detection) (v : TokenVault)
    (m : gmap str str) : option (str * TokenVault * gmap str str) :=
  st ← redact_loop text (redact_init v m) (sort_by span_le ds);
  rest ← slice_from text (rs_cursor st);
  Some (rs_out st ++ rest, rs_vault st, rs_map st).

(** ** [apply_transform] *)

Definition value_tail (val : str) : option str :=
  if (4 <? slen val)%N then slice_from val (slen val - 4) else Some val.

Definition render_template (template val : str) : option str :=
  tail ← value_tail val;
  Some (replace (replace template $"{value[-4:]}" tail) $"{value}" val).

Definition transform_step (text template : str) (st : N * str) (d : Detection) : option (N * str) :=
  match span d with
  | None => Some st
  | Some (start, stop) =>
      if span_accepted text st.1 start stop then
        before ← slice text st.1 start;
        rendered ← render_template template (value d);
        Some (stop, (st.2 ++ before) ++ rendered)
      else Some st
  end.

Fixpoint transform_loop (text template : str) (st : N * str) (ds : list Detection) : option (N * str) :=
  match ds with
  | [] => Some st
  | d :: ds' => st' ← transform_step text template st d; transform_loop text template st' ds'
  end.

Definition apply_transform (text : str) (ds : list Detection) (template : str) : option str :=
  st ← transform_loop text template (0%N, []) (sort_by span_le ds);
  rest ← slice_from text st.1;
  Some (st.2 ++ rest).

Definition restore_content `{HashOrder} (text : str) (v : TokenVault) : str := restore v text.

(** ** The span order is a total preorder *)

Lemma span_le_total a b : span_le a b \/ span_le b a.
Proof.
  unfold span_le. destruct (span_key a) as [a0 a1], (span_key b) as [b0 b1].
  rewrite (N.compare_antisym a0 b0). destruct (a0 ?= b0)%N; simpl; try naive_solver.
  unfold saturating_sub. rewrite !Is_true_true. lia.
Qed.

Lemma span_le_trans a b c : span_le a b -> span_le b c -> span_le a c.
Proof.
  unfold span_le, saturating_sub.
  destruct (span_key a) as [a0 a1], (span_key b) as [b0 b1], (span_key c) as [c0 c1].
  rewrite !Is_true_true.
  destruct (N.compare_spec a0 b0), (N.compare_spec b0 c0), (N.compare_spec a0 c0);
    try done; lia.
Qed.

Lemma sort_spans_sorted ds : StronglySorted (fun a b => span_le a b) (sort_by span_le ds).
Proof. apply sort_by_sorted; [apply span_le_trans|apply span_le_total]. Qed.

(** ** Acceptance and totality *)

Lemma span_accepted_spec text cursor start stop :
  span_accepted text cursor start stop = true ->
  (cursor <= start)%N /\ (stop <= slen text)%N /\
  is_char_boundary text start = true /\ is_char_boundary text stop = true.
Proof. unfold span_accepted. rewrite !andb_true_iff, negb_true_iff, orb_false_iff. lia. Qed.

Lemma redact_step_total text st d :
  is_char_boundary text (rs_cursor st) = true ->
  exists st', redact_step text st d = Some st' /\ is_char_boundary text (rs_cursor st') = true.
Proof.
  intros Hc. unfold redact_step. destruct (span d) as [[start stop]|]; [|by eauto].
  destruct (span_accepted _ _ _ _) eqn:E; [|by eauto].
  apply span_accepted_spec in E as (? & ? & ? & ?). rewrite slice_ok by done. simpl.
  destruct (assign _ _ _ _) as [[ph a] c]. eauto.
Qed.

Lemma redact_loop_total text ds st :
  is_char_boundary text (rs_cursor st) = true ->
  exists st', redact_loop text st ds = Some st' /\ is_char_boundary text (rs_cursor st') = true.
Proof.
  revert st. induction ds as [|d ds IH]; intros st Hc; simpl; [by eauto|].
  destruct (redact_step_total text st d Hc) as (st' & -> & Hc'). by apply IH.
Qed.

End redaction.
