(* ===== verification/RedactionSpec.v ===== *)
(** * Correctness of redaction

    Placeholder numbering is injective, redaction never panics, every
    detection of a laminar set is covered by a placeholder, and restoring a
    redacted text gives the text back. *)

From S2P Require Import Prelude Rstr Json Types Placeholders Redaction.

Section redaction_spec.
Context `{CaseMap}.

(** ** Placeholder names *)

(** A detector class as the gateway names them: ASCII without braces. *)
Definition class_ok (cls : str) : Prop :=
  ascii_only cls /\ Forall (fun c => c <> obrace /\ c <> cbrace) cls.

#[export] Instance class_ok_dec cls : Decision (class_ok cls).
Proof. unfold class_ok, ascii_only. apply _. Defined.

(** The same after [to_uppercase]. *)
Definition upper_ok (cu : str) : Prop :=
  class_ok cu /\ Forall (fun c => is_ascii_lowercase c = false) cu.

Lemma class_upper_ok cls : class_ok cls -> upper_ok (to_uppercase cls).
Proof.
  intros [Ha Hb]. rewrite to_uppercase_ascii by done. unfold to_ascii_uppercase.
  repeat split; apply Forall_fmap; simpl.
  - eapply Forall_impl; [exact Ha|]. apply upper_byte_ascii.
  - eapply Forall_impl; [exact Hb|]. intros c [? ?]. split; intros Hc%upper_byte_fix; done.
  - eapply Forall_impl; [exact Ha|]. intros c _. apply upper_byte_not_lower.
Qed.

Lemma upper_lower_str w :
  Forall (fun c => is_ascii_lowercase c = false) w -> map to_upper_byte (to_lower_byte <$> w) = w.
Proof.
  induction 1 as [|d w Hd Hw IH]; [done|]. rewrite fmap_cons. simpl. by rewrite upper_lower_byte, IH.
Qed.

Lemma concat_singletons (w : str) : concat ((fun c => [c]) <$> w) = w.
Proof. induction w as [|d w IH]; [done|]. rewrite fmap_cons. simpl. by rewrite IH. Qed.

Lemma title_word_upper w :
  ascii_only w -> Forall (fun c => is_ascii_lowercase c = false) w ->
  map to_upper_byte (title_word w) = w.
Proof.
  intros Ha Hl. unfold title_word. rewrite chars_ascii by done.
  destruct w as [|c w]; [done|]. rewrite fmap_cons, concat_singletons.
  apply Forall_cons in Ha as [Hc Ha], Hl as [Hcl Hl].
  rewrite to_uppercase_ascii, to_lowercase_ascii by (done || by repeat constructor).
  unfold to_ascii_uppercase, to_ascii_lowercase. simpl.
  rewrite (upper_byte_id c), (upper_byte_id c) by done. f_equal. by apply upper_lower_str.
Qed.

(** Upper-casing a title-cased name gives the name back. *)
Lemma title_case_upper cu : upper_ok cu -> map to_upper_byte (title_case cu) = cu.
Proof.
  intros [[Ha _] Hl]. unfold title_case. rewrite map_join.
  transitivity (join $"_" (split_byte "_"%char cu)); [|apply join_split_byte].
  f_equal.
  pose proof (split_byte_Forall _ "_"%char _ Ha) as Ha'.
  pose proof (split_byte_Forall _ "_"%char _ Hl) as Hl'.
  induction (split_byte "_"%char cu) as [|w ws IH]; [done|].
  inversion Ha'; inversion Hl'; subst. rewrite fmap_cons. simpl. rewrite title_word_upper by done.
  f_equal. by apply IH.
Qed.

Lemma title_case_no_brace cu :
  upper_ok cu -> Forall (fun c => c <> obrace /\ c <> cbrace) (title_case cu).
Proof.
  intros Hcu. pose proof Hcu as [[_ Hb] _]. rewrite <- (title_case_upper cu Hcu) in Hb.
  rewrite Forall_forall in *. intros c Hc.
  destruct (Hb (to_upper_byte c)) as [H1 H2].
  { apply list_elem_of_In. apply in_map. by apply list_elem_of_In. }
  split; intros ->; [by apply H1|by apply H2].
Qed.

Lemma placeholder_body_ok cu n : upper_ok cu -> body_ok (placeholder_body cu n).
Proof.
  intros Hcu. split.
  - unfold placeholder_body. by destruct (title_case cu).
  - unfold placeholder_body. repeat apply Forall_app_2.
    + by apply title_case_no_brace.
    + by repeat constructor.
    + eapply Forall_impl; [apply show_N_digits|]. intros c Hc. split; intros ->; done.
Qed.

(** Splitting at the last underscore is unique. *)
Lemma last_underscore_inj (x y d e : str) :
  Forall (fun c => is_ascii_digit c = true) d -> Forall (fun c => is_ascii_digit c = true) e ->
  x ++ $"_" ++ d = y ++ $"_" ++ e -> x = y /\ d = e.
Proof.
  intros Hd He Heq.
  assert (forall (l1 l2 d e : str), Forall (fun c => is_ascii_digit c = true) d ->
    l1 ++ "_"%char :: d = l2 ++ "_"%char :: e -> length l2 <= length l1) as Hlen.
  { clear. intros l1 l2 d e Hd Heq. destruct (decide (length l2 <= length l1)) as [|Hlt]; [done|].
    exfalso. assert ((l1 ++ "_"%char :: d) !! length l2 = Some "_"%char) as Hl.
    { rewrite Heq, lookup_app_r, Nat.sub_diag by lia. done. }
    rewrite lookup_app_r in Hl by lia.
    destruct (length l2 - length l1) as [|k] eqn:E; [lia|]. simpl in Hl.
    rewrite Forall_forall in Hd. specialize (Hd "_"%char (list_elem_of_lookup_2 _ _ _ Hl)). done. }
  apply app_inj_1 in Heq as [-> Heq]; [by inversion Heq|].
  simpl in Heq. pose proof (Hlen _ _ _ _ Hd Heq). symmetry in Heq.
  pose proof (Hlen _ _ _ _ He Heq). lia.
Qed.

Lemma placeholder_inj cu n cu' n' :
  upper_ok cu -> upper_ok cu' -> placeholder cu n = placeholder cu' n' -> cu = cu' /\ n = n'.
Proof.
  intros Hcu Hcu' Heq. apply tok_text_inj in Heq.
  apply last_underscore_inj in Heq as [Ht Hn]; try apply show_N_digits.
  apply show_N_inj in Hn as ->. split; [|done].
  by rewrite <- (title_case_upper cu), <- (title_case_upper cu'), Ht.
Qed.

(** ** Coverage: what the output is made of *)

(** Copy the text outside the accepted spans, put the placeholders in. *)
Fixpoint weave (text : str) (cursor : N) (plan : list (N * N * str)) : str :=
  match plan with
  | [] => drop (N.to_nat cursor) text
  | (start, stop, ph) :: plan' =>
      take (N.to_nat (start - cursor)) (drop (N.to_nat cursor) text) ++ ph ++ weave text stop plan'
  end.

(** The accepted spans of a run of the loop, with their placeholders. *)
Fixpoint loop_plan (text : str) (st : RedactState) (ds : list Detection) : list (N * N * str) :=
  match ds with
  | [] => []
  | d :: ds' =>
      match span d, redact_step text st d with
      | Some (start, stop), Some st' =>
          if span_accepted text (rs_cursor st) start stop
          then (start, stop, (assign (rs_assigned st) (rs_counters st) (to_uppercase (class d)) (value d)).1.1)
                 :: loop_plan text st' ds'
          else loop_plan text st ds'
      | _, _ => loop_plan text st ds'
      end
  end.

Definition redaction_plan (text : str) (ds : list Detection) : list (N * N * str) :=
  loop_plan text (redact_init TokenVault_default ∅) (sort_by span_le ds).

(** The loop's decisions do not depend on the vault it fills. *)
Lemma loop_plan_vault text ds st st' :
  rs_cursor st = rs_cursor st' -> rs_assigned st = rs_assigned st' ->
  rs_counters st = rs_counters st' -> loop_plan text st ds = loop_plan text st' ds.
Proof.
  revert st st'. induction ds as [|d ds IH]; intros st st' Hc Ha Hn; simpl; [done|].
  unfold redact_step. destruct (span d) as [[start stop]|]; [|by apply IH].
  rewrite <- Hc, <- Ha, <- Hn.
  destruct (span_accepted _ _ _ _); [|by apply IH].
  destruct (slice _ _ _); simpl; [|by apply IH].
  destruct (assign _ _ _ _) as [[ph a] n]. simpl. f_equal. by apply IH.
Qed.

Lemma loop_weave text ds st st' :
  is_char_boundary text (rs_cursor st) = true ->
  redact_loop text st ds = Some st' ->
  rs_out st' ++ drop (N.to_nat (rs_cursor st')) text
  = rs_out st ++ weave text (rs_cursor st) (loop_plan text st ds).
Proof.
  revert st. induction ds as [|d ds IH]; intros st Hb Hl; simpl in *; [by simplify_eq|].
  destruct (redact_step_total text st d Hb) as (st1 & Hs & Hb1). rewrite Hs in Hl |- *. simpl in Hl.
  specialize (IH _ Hb1 Hl). rewrite IH. unfold redact_step in Hs.
  destruct (span d) as [[start stop]|]; [|by simplify_eq].
  destruct (span_accepted text (rs_cursor st) start stop) eqn:E; [|by simplify_eq].
  apply span_accepted_spec in E as (? & ? & ? & ?). rewrite slice_ok in Hs by done. simpl in Hs.
  destruct (assign _ _ _ _) as [[ph a] n]. simplify_eq/=. by rewrite <- !app_assoc.
Qed.

(** Spans usable on a text, and sets of spans that nest or are disjoint. *)
Definition span_usable (text : str) (d : Detection) : Prop :=
  forall s e, span d = Some (s, e) ->
    (s <= e)%N /\ is_char_boundary text s = true /\ is_char_boundary text e = true.

Definition laminar (ds : list Detection) : Prop :=
  forall d1 d2 s1 e1 s2 e2, d1 ∈ ds -> d2 ∈ ds ->
    span d1 = Some (s1, e1) -> span d2 = Some (s2, e2) ->
    (e1 <= s2 \/ e2 <= s1 \/ (s1 <= s2 /\ e2 <= e1) \/ (s2 <= s1 /\ e1 <= e2))%N.

Definition covers (plan : list (N * N * str)) (s e : N) : Prop :=
  exists s' e' ph, (s', e', ph) ∈ plan /\ (s' <= s)%N /\ (e <= e')%N.

(** The span the cursor stands behind: already accepted and before [ds]. *)
Definition cursor_from (all ds : list Detection) (c : N) (done : list (N * N * str)) : Prop :=
  c = 0%N \/ exists d0 s0 ph, d0 ∈ all /\ span d0 = Some (s0, c) /\ (s0, c, ph) ∈ done /\
    Forall (fun d => span_le d0 d) ds.

Lemma skipped_is_covered text all ds c done d s e :
  laminar all -> Forall (span_usable text) all -> d ∈ all -> d ∈ ds ->
  cursor_from all ds c done -> span d = Some (s, e) -> (s < e)%N ->
  span_accepted text c s e = false -> covers done s e.
Proof.
  intros Hlam Hus Hd Hds Hcur Hsp Hlt Hacc. rewrite Forall_forall in Hus.
  destruct (Hus _ Hd _ _ Hsp) as (Hse & Hbs & Hbe). pose proof (boundary_le _ _ Hbe).
  unfold span_accepted in Hacc. rewrite Hbs, Hbe in Hacc. simpl in Hacc.
  destruct Hcur as [->|(d0 & s0 & ph & Hd0 & Hsp0 & Hin & Hle)]; [lia|].
  rewrite Forall_forall in Hle. specialize (Hle _ Hds).
  unfold span_le, span_key, saturating_sub in Hle. rewrite Hsp0, Hsp in Hle. simpl in Hle.
  destruct (Hus _ Hd0 _ _ Hsp0) as (? & _ & _).
  pose proof (Hlam _ _ _ _ _ _ Hd0 Hd Hsp0 Hsp) as Hl.
  exists s0, c, ph. split; [done|]. rewrite Is_true_true in Hle.
  destruct (N.compare_spec s0 s); lia.
Qed.

Lemma covers_mono p q s e : p ⊆ q -> covers p s e -> covers q s e.
Proof. intros Hsub (s' & e' & ph & Hin & ?). exists s', e', ph. split; [by apply Hsub|done]. Qed.

Lemma loop_plan_covers text all ds st done :
  laminar all -> Forall (span_usable text) all -> ds ⊆ all ->
  StronglySorted (fun a b => span_le a b) ds ->
  is_char_boundary text (rs_cursor st) = true -> cursor_from all ds (rs_cursor st) done ->
  forall d s e, d ∈ ds -> span d = Some (s, e) -> (s < e)%N ->
    covers (done ++ loop_plan text st ds) s e.
Proof.
  intros Hlam Hus. revert st done. induction ds as [|d ds IH]; intros st pl Hsub Hsort Hb Hcur;
    [by intros ? ? ? ?%not_elem_of_nil|].
  apply StronglySorted_inv in Hsort as [Hsort Hle].
  destruct (redact_step_total text st d Hb) as (st1 & Hs & Hb1).
  assert (forall c, cursor_from all (d :: ds) c pl -> cursor_from all ds c pl) as Hshrink.
  { intros c [?|(d0 & s0 & ph & ? & ? & ? & Hf)]; [by left|]. right. exists d0, s0, ph.
    by inversion Hf. }
  simpl. rewrite Hs. destruct (span d) as [[ds0 de0]|] eqn:Hsp.
  2:{ intros d' s e [->|Hin]%elem_of_cons Hd' Hlt; [congruence|].
      eapply IH; eauto. set_solver. }
  destruct (span_accepted text (rs_cursor st) ds0 de0) eqn:Hacc.
  - unfold redact_step in Hs. rewrite Hsp, Hacc in Hs.
    apply span_accepted_spec in Hacc as (? & ? & ? & ?). rewrite slice_ok in Hs by done. simpl in Hs.
    destruct (assign _ _ _ _) as [[ph a] n]. simpl.
    intros d' s e Hin Hd' Hlt. rewrite cons_middle, app_assoc.
    apply elem_of_cons in Hin as [->|Hin].
    + rewrite Hsp in Hd'. simplify_eq. exists s, e, ph. split; [set_solver|lia].
    + eapply IH; eauto; [set_solver|]. simplify_eq/=. right. exists d, ds0, ph.
      repeat split; try done; set_solver.
  - intros d' s e Hin Hd' Hlt. apply elem_of_cons in Hin as [->|Hin].
    + rewrite Hsp in Hd'. simplify_eq. eapply covers_mono; [apply list_subseteq_app_l; reflexivity|].
      eapply skipped_is_covered; eauto; set_solver.
    + eapply IH; eauto. set_solver.
Qed.

(** ** The placeholder table *)

(** After at most [k] numberings: every assigned placeholder is one of its
    class, numbered by a counter already used, and the vault maps it to its
    value. *)
Record table_ok (k : nat) (assigned : gmap (str * str) str) (counters : gmap str N)
    (vlt : gmap str str) : Prop := {
  table_assigned : forall cu v t, assigned !! (cu, v) = Some t ->
    upper_ok cu /\ vlt !! t = Some v /\
    exists n, t = placeholder cu n /\ (1 <= n <= default 0 (counters !! cu))%N;
  table_counters : forall cu, (default 0 (counters !! cu) <= N.of_nat k)%N;
}.

Lemma table_fresh k assigned counters vlt cu' cu v t n :
  table_ok k assigned counters vlt -> assigned !! (cu, v) = Some t -> upper_ok cu' ->
  (default 0 (counters !! cu') < n)%N -> t <> placeholder cu' n.
Proof.
  intros Ht Ha Hcu' Hn ->. destruct (table_assigned _ _ _ _ Ht _ _ _ Ha) as (Hcu & _ & m & Heq & Hm).
  apply placeholder_inj in Heq as [-> ->]; [lia|done|done].
Qed.

Lemma assign_ok k assigned counters vlt cu v ph assigned' counters' :
  table_ok k assigned counters vlt -> upper_ok cu -> (N.of_nat (S k) < 2 ^ 32)%N ->
  assign assigned counters cu v = (ph, assigned', counters') ->
  table_ok (S k) assigned' counters' (<[ph := v]> vlt) /\
  assigned' !! (cu, v) = Some ph /\ assigned ⊆ assigned' /\
  (forall key t, assigned !! key = Some t -> <[ph := v]> vlt !! t = vlt !! t).
Proof.
  intros Ht Hcu Hk. unfold assign. destruct (assigned !! (cu, v)) as [t|] eqn:E.
  - intros [= <- <- <-]. destruct (table_assigned _ _ _ _ Ht _ _ _ E) as (_ & Hv & _).
    rewrite insert_id by done. split_and!; try done.
    destruct Ht as [H1 H2]. split; [done|]. intros cu'. specialize (H2 cu'). lia.
  - pose proof (table_counters _ _ _ _ Ht cu) as Hc.
    rewrite u32_succ_small by lia. intros [= <- <- <-].
    set (n := (default 0 (counters !! cu) + 1)%N).
    assert (forall key t, assigned !! key = Some t -> t <> placeholder cu n) as Hfresh.
    { intros [cu1 v1] t Ha. eapply table_fresh; [exact Ht|done|done|lia]. }
    split_and!.
    + split.
      * intros cu1 v1 t. rewrite lookup_insert. case_decide as Hk1.
        { intros [= <-]. simplify_eq. rewrite !lookup_insert_eq. split_and!; try done.
          exists n. simpl. split; [done|lia]. }
        intros Ha. destruct (table_assigned _ _ _ _ Ht _ _ _ Ha) as (? & ? & m & -> & Hm).
        rewrite lookup_insert_ne by (intros Heq; by apply (Hfresh _ _ Ha)).
        split_and!; try done. exists m. split; [done|]. rewrite lookup_insert. case_decide; subst; simpl; lia.
      * intros cu1. rewrite lookup_insert. case_decide; subst; simpl; [lia|].
        pose proof (table_counters _ _ _ _ Ht cu1). lia.
    + by rewrite lookup_insert_eq.
    + by apply insert_subseteq.
    + intros key t Ha. apply lookup_insert_ne. intros Heq. by apply (Hfresh _ _ Ha).
Qed.

(** ** The loop invariant of the round trip *)

(** The detection's value is the text of its span. *)
Definition span_honest (text : str) (d : Detection) : Prop :=
  forall s e, span d = Some (s, e) -> slice text s e = Some (value d).

Record redact_inv (text : str) (k : nat) (st : RedactState) (ats : list atom) : Prop := {
  inv_out : rs_out st = render ats;
  inv_bound : is_char_boundary text (rs_cursor st) = true;
  inv_expand : subst (vault_fn (entries (rs_vault st))) ats
               = Chr <$> take (N.to_nat (rs_cursor st)) text;
  inv_toks : forall b, Tok b ∈ ats -> exists key, rs_assigned st !! key = Some (tok_text b);
  inv_table : table_ok k (rs_assigned st) (rs_counters st) (entries (rs_vault st));
  inv_keys : keys_ok (entries (rs_vault st));
}.

Lemma redact_inv_init text v m : keys_ok (entries v) -> redact_inv text 0 (redact_init v m) [].
Proof.
  intros Hk. split; try done.
  by intros b ?%not_elem_of_nil.
Qed.

Lemma subst_ext f g ats : (forall b, Tok b ∈ ats -> f b = g b) -> subst f ats = subst g ats.
Proof.
  induction ats as [|[c|b] ats IH]; intros Hfg; [done| |]; rewrite !subst_cons, IH by set_solver; [done|].
  simpl. by rewrite Hfg by left.
Qed.

Lemma take_slice (text : str) (c s e : N) before val :
  (c <= s)%N -> slice text c s = Some before -> slice text s e = Some val ->
  take (N.to_nat c) text ++ before ++ val = take (N.to_nat e) text.
Proof.
  intros Hcs (_ & _ & ->)%slice_Some (? & _ & ->)%slice_Some.
  rewrite !firstn_skipn_comm. rewrite <- (take_drop (N.to_nat c) (take (N.to_nat e) text)).
  rewrite take_take, Nat.min_l by lia. f_equal.
  replace (N.to_nat c + N.to_nat (s - c)) with (N.to_nat s) by lia.
  replace (N.to_nat s + N.to_nat (e - s)) with (N.to_nat e) by lia.
  rewrite <- (take_drop (N.to_nat s - N.to_nat c) (drop (N.to_nat c) (take (N.to_nat e) text))) at 1.
  rewrite drop_drop. replace (N.to_nat c + (N.to_nat s - N.to_nat c)) with (N.to_nat s) by lia.
  f_equal. rewrite !skipn_firstn_comm, take_take. f_equal. lia.
Qed.

Lemma redact_step_inv text k st ats d st' :
  redact_inv text k st ats -> span_honest text d -> class_ok (class d) ->
  (N.of_nat (S k) < 2 ^ 32)%N -> redact_step text st d = Some st' ->
  exists ats', redact_inv text (S k) st' ats'.
Proof.
  intros Hi Hh Hcls Hk Hs.
  assert (redact_inv text (S k) st ats) as Hskip.
  { destruct Hi as [? ? ? ? [Ht1 Ht2] ?]. split; try done. split; [done|].
    intros cu. specialize (Ht2 cu). lia. }
  unfold redact_step in Hs. destruct (span d) as [[s e]|] eqn:Hsp; [|simplify_eq; by eauto].
  destruct (span_accepted _ _ _ _) eqn:Hacc; [|simplify_eq; by eauto].
  apply span_accepted_spec in Hacc as (? & ? & ? & ?).
  destruct (slice text (rs_cursor st) s) as [before|] eqn:Hbef; [|done]. simpl in Hs.
  destruct (assign _ _ _ _) as [[ph a] n] eqn:Ha. simplify_eq.
  pose proof (class_upper_ok _ Hcls) as Hcu.
  destruct (assign_ok _ _ _ _ _ _ _ _ _ (inv_table _ _ _ _ Hi) Hcu Hk Ha) as (Htab & Hph & Hsub & Hold).
  destruct (table_assigned _ _ _ _ Htab _ _ _ Hph) as (_ & Hv & m & -> & _).
  exists (ats ++ (Chr <$> before) ++ [Tok (placeholder_body (to_uppercase (class d)) m)]).
  assert (Hfn : forall b, Tok b ∈ ats ->
    vault_fn (entries (vault_insert (rs_vault st) (placeholder (to_uppercase (class d)) m) (value d))) b
    = vault_fn (entries (rs_vault st)) b).
  { intros b [key Hkey]%(inv_toks _ _ _ _ Hi). by eapply Hold. }
  split; cbn [rs_out rs_cursor rs_assigned rs_counters rs_vault].
  - rewrite !render_app, render_chrs, (inv_out _ _ _ _ Hi), render_cons, <- app_assoc. simpl.
    by rewrite app_nil_r.
  - done.
  - rewrite !subst_app, subst_chrs, (subst_ext _ _ _ Hfn), (inv_expand _ _ _ _ Hi), subst_cons.
    cbn [subst_atom]. unfold vault_fn at 1. cbn [entries vault_insert].
    change (tok_text (placeholder_body (to_uppercase (class d)) m))
      with (placeholder (to_uppercase (class d)) m).
    rewrite lookup_insert_eq. change (subst ?f []) with (@nil atom). rewrite app_nil_r, <- !fmap_app. f_equal.
    by eapply take_slice; [|done|apply Hh].
  - intros b. rewrite !elem_of_app, list_elem_of_singleton.
    intros [[key Hkey]%(inv_toks _ _ _ _ Hi)|[(? & ? & ?)%list_elem_of_fmap|[= ->]]]; [|done|by eauto].
    exists key. by eapply lookup_weaken.
  - done.
  - intros k' v'. cbn [entries vault_insert]. rewrite lookup_insert. case_decide; [|apply (inv_keys _ _ _ _ Hi)].
    intros _. subst. eexists. split; [reflexivity|]. by apply placeholder_body_ok.
Qed.

Lemma redact_loop_inv text ds k st ats st' :
  redact_inv text k st ats -> Forall (span_honest text) ds -> Forall (fun d => class_ok (class d)) ds ->
  (N.of_nat (k + length ds) < 2 ^ 32)%N -> redact_loop text st ds = Some st' ->
  exists ats', redact_inv text (k + length ds) st' ats'.
Proof.
  revert k st ats. induction ds as [|d ds IH]; intros k st ats Hi Hh Hc Hk Hl; simpl in *.
  - simplify_eq. rewrite Nat.add_0_r. by eauto.
  - destruct (redact_step text st d) as [st1|] eqn:Hs; [|done]. simpl in Hl.
    apply Forall_cons in Hh as [? Hh], Hc as [? Hc].
    edestruct redact_step_inv as [ats1 Hi1]; [exact Hi|done|done|lia|exact Hs|].
    rewrite Nat.add_succ_r in *. eapply (IH (S k)); eauto.
Qed.

(** ** Consequences used by the callers *)

Lemma apply_redaction_returns text ds v m :
  exists out v' m', apply_redaction text ds v m = Some (out, v', m').
Proof.
  unfold apply_redaction.
  destruct (redact_loop_total text (sort_by span_le ds) (redact_init v m)) as (st & -> & Hb); [done|].
  simpl. rewrite slice_from_ok by done. simpl. by eauto.
Qed.

(** No detection, no change. *)
Lemma apply_redaction_nil text v m : apply_redaction text [] v m = Some (text, v, m).
Proof. unfold apply_redaction. simpl. by rewrite slice_from_ok. Qed.

(** A detection over a whole text. *)
Lemma apply_redaction_whole d v m :
  span d = Some (0%N, slen (value d)) ->
  apply_redaction (value d) [d] v m
  = Some (placeholder (to_uppercase (class d)) 1,
          vault_insert v (placeholder (to_uppercase (class d)) 1) (value d),
          <[placeholder (to_uppercase (class d)) 1 := value d]> m).
Proof.
  intros Hsp. unfold apply_redaction. simpl. unfold redact_step. rewrite Hsp. unfold span_accepted.
  simpl rs_cursor. rewrite boundary_len, boundary_0, (N.ltb_irrefl (slen _)). simpl.
  rewrite slice_ok by done. simpl. unfold assign. simpl. rewrite !lookup_empty. simpl.
  rewrite slice_from_ok by apply boundary_len. simpl. unfold slen. rewrite Nat2N.id, drop_all.
  by rewrite app_nil_r.
Qed.

Definition tail_ok (val : str) : Prop :=
  (slen val <= 4)%N \/ is_char_boundary val (slen val - 4) = true.

Lemma render_template_some template val : is_Some (render_template template val) <-> tail_ok val.
Proof.
  unfold render_template, value_tail, tail_ok. destruct (N.ltb_spec 4 (slen val)).
  - destruct (is_char_boundary val (slen val - 4)) eqn:E.
    + rewrite slice_from_ok by done. split; [by right|]. simpl. by eauto.
    + unfold slice_from, slice. rewrite E, andb_false_r. simpl. split; [by intros [? ?]|]. intros [?|?]; [lia|done].
  - simpl. split; [by left|]. by eauto.
Qed.

Lemma transform_loop_total text template ds st :
  Forall (fun d => tail_ok (value d)) ds -> is_char_boundary text st.1 = true ->
  exists st', transform_loop text template st ds = Some st' /\ is_char_boundary text st'.1 = true.
Proof.
  intros Hds. revert st. induction Hds as [|d ds Hd Hds IH]; intros st Hb; simpl; [by eauto|].
  unfold transform_step. destruct (span d) as [[s e]|]; [|by apply IH].
  destruct (span_accepted _ _ _ _) eqn:E; [|by apply IH].
  apply span_accepted_spec in E as (? & ? & ? & ?). rewrite slice_ok by done. simpl.
  apply (render_template_some template) in Hd as [r Hr]. rewrite Hr. simpl. by apply IH.
Qed.

Lemma apply_redaction_plan text ds v m out v' m' :
  apply_redaction text ds v m = Some (out, v', m') -> out = weave text 0 (redaction_plan text ds).
Proof.
  intros Ha. unfold apply_redaction in Ha.
  destruct (redact_loop_total text (sort_by span_le ds) (redact_init v m)) as (st & Hl & Hb); [done|].
  rewrite Hl in Ha. simpl in Ha. rewrite slice_from_ok in Ha by done. simpl in Ha. simplify_eq.
  rewrite (loop_weave text (sort_by span_le ds) (redact_init v m) st (boundary_0 _) Hl). simpl.
  f_equal. by apply loop_plan_vault.
Qed.

(** A redaction that records nothing replaces nothing. *)
Lemma redact_loop_empty_map text ds st st' :
  redact_loop text st ds = Some st' -> rs_map st' = ∅ -> rs_map st = ∅ /\ loop_plan text st ds = [].
Proof.
  revert st. induction ds as [|d ds IH]; intros st; simpl; [by intros [= ->]|].
  destruct (redact_step text st d) as [st1|] eqn:Hs; [|done]. simpl. intros Hl Hm.
  destruct (IH _ Hl Hm) as [Hm1 Hp]. unfold redact_step in Hs.
  destruct (span d) as [[s e]|]; [|by simplify_eq].
  destruct (span_accepted _ _ _ _); [|by simplify_eq].
  destruct (slice _ _ _); [|done]. simpl in Hs. destruct (assign _ _ _ _) as [[ph a] n]. simplify_eq.
  simpl in Hm1. by apply insert_non_empty in Hm1.
Qed.

Lemma apply_redaction_empty_map text ds v m out v' :
  apply_redaction text ds v m = Some (out, v', ∅) -> redaction_plan text ds = [] /\ out = text.
Proof.
  intros Ha. pose proof (apply_redaction_plan _ _ _ _ _ _ _ Ha) as ->. unfold apply_redaction in Ha.
  destruct (redact_loop _ _ _) as [st|] eqn:Hl; [|done]. simpl in Ha.
  destruct (slice_from _ _); [|done]. simpl in Ha. simplify_eq.
  destruct (redact_loop_empty_map _ _ _ _ Hl) as [_ Hp]; [done|].
  assert (redaction_plan text ds = []) as ->; [|done].
  rewrite <- Hp. unfold redaction_plan. by apply loop_plan_vault.
Qed.

Lemma redaction_plan_covers text ds :
  laminar ds -> Forall (span_usable text) ds ->
  forall d s e, d ∈ ds -> span d = Some (s, e) -> (s < e)%N -> covers (redaction_plan text ds) s e.
Proof.
  intros Hlam Hus d s e Hd Hsp Hlt. unfold redaction_plan.
  apply (loop_plan_covers text ds (sort_by span_le ds) _ []) with (d := d); try done.
  - intros x. by rewrite (sort_by_perm span_le ds).
  - apply sort_spans_sorted.
  - by left.
  - by rewrite (sort_by_perm span_le ds).
Qed.

(** The map and a vault that start equal stay equal. *)
Lemma redact_loop_map text ds st st' :
  redact_loop text st ds = Some st' -> rs_map st = entries (rs_vault st) -> rs_map st' = entries (rs_vault st').
Proof.
  revert st. induction ds as [|d ds IH]; intros st; cbn; [by intros [= <-]|].
  destruct (redact_step text st d) as [st1|] eqn:Hs; [|done]. cbn. intros Hl Hm. apply (IH _ Hl).
  revert Hs. unfold redact_step. destruct (span d) as [[s e]|]; [|by intros [= <-]].
  destruct (span_accepted _ _ _ _); [|by intros [= <-]]. destruct (slice _ _ _); [|done]. cbn.
  destruct (assign _ _ _ _) as [[ph a] c]. intros [= <-]. cbn. by rewrite Hm.
Qed.

Lemma apply_redaction_map text ds out v' m' :
  apply_redaction text ds TokenVault_default ∅ = Some (out, v', m') -> m' = entries v'.
Proof.
  unfold apply_redaction. destruct (redact_loop _ _ _) as [st|] eqn:Hl; [|done]. cbn.
  destruct (slice_from _ _); [|done]. intros [= _ <- <-]. by eapply redact_loop_map.
Qed.

Lemma redact_restore `{HashOrder} text ds v m out v' m' :
  atoms_ok (Chr <$> text) -> Forall (span_honest text) ds ->
  Forall (fun d => class_ok (class d)) ds -> keys_ok (entries v) ->
  (N.of_nat (length ds) < 2 ^ 32)%N ->
  apply_redaction text ds v m = Some (out, v', m') ->
  restore_content out v' = text.
Proof.
  intros Ht Hh Hc Hk Hn Ha. unfold apply_redaction in Ha.
  destruct (redact_loop _ _ _) as [st|] eqn:Hl; [|done]. simpl in Ha.
  edestruct (redact_loop_inv text (sort_by span_le ds)) as [ats Hi];
    [by apply redact_inv_init| | | |exact Hl|].
  1,2: by rewrite sort_by_perm. { by rewrite sort_by_perm. }
  rewrite slice_from_ok in Ha by apply (inv_bound _ _ _ _ Hi). simpl in Ha. simplify_eq.
  set (rest := drop (N.to_nat (rs_cursor st)) text).
  assert (subst (vault_fn (entries (rs_vault st))) (ats ++ (Chr <$> rest)) = Chr <$> text) as Hs.
  { rewrite subst_app, subst_chrs, (inv_expand _ _ _ _ Hi), <- fmap_app. unfold rest. by rewrite take_drop. }
  rewrite (inv_out _ _ _ _ Hi), <- (render_chrs rest), <- render_app.
  unfold restore_content. rewrite restore_atoms, Hs.
  - apply render_chrs.
  - apply (inv_keys _ _ _ _ Hi).
  - intros b. rewrite elem_of_app. intros [[[cu val] Hb]%(inv_toks _ _ _ _ Hi)|Hb].
    + destruct (table_assigned _ _ _ _ (inv_table _ _ _ _ Hi) _ _ _ Hb) as (Hu & _ & n & Heq & _).
      apply tok_text_inj in Heq as ->. by apply placeholder_body_ok.
    + by apply list_elem_of_fmap in Hb as (? & ? & ?).
  - by rewrite Hs.
Qed.

(** ** Properties *)

(** Redaction never panics: for every text, detection list, vault and map,
    whatever the spans (missing, inverted, out of range, off a character
    boundary, overlapping), [apply_redaction] returns. *)
Theorem apply_redaction_total text ds v m :
  exists out v' m', apply_redaction text ds v m = Some (out, v', m').
Proof.
  apply apply_redaction_returns.
Qed.

(** C6: Coverage: on detections that nest or are disjoint and whose spans lie
    in the text on character boundaries, the redacted text is the original
    with a set of spans woven out, and every non-empty detected span lies
    inside one of them, so no byte of it is copied.  A span out of range or
    off a character boundary is skipped, and stays in clear. *)
Theorem apply_redaction_covers text ds v m out v' m' :
  laminar ds -> Forall (span_usable text) ds ->
  apply_redaction text ds v m = Some (out, v', m') ->
  out = weave text 0 (redaction_plan text ds) /\
  (forall d s e, d ∈ ds -> span d = Some (s, e) -> (s < e)%N -> covers (redaction_plan text ds) s e).
Proof.
  intros Hlam Hus Ha. split; [by eapply apply_redaction_plan|by apply redaction_plan_covers].
Qed.

(** Placeholders are faithful names: in one redaction call two (class, value)
    pairs get the same placeholder only if they are the same pair, and the
    vault then maps the placeholder to that value. *)
Theorem placeholders_injective text ds v m st :
  Forall (fun d => class_ok (class d)) ds -> Forall (span_honest text) ds ->
  keys_ok (entries v) -> (N.of_nat (length ds) < 2 ^ 32)%N ->
  redact_loop text (redact_init v m) (sort_by span_le ds) = Some st ->
  forall key1 key2 ph, rs_assigned st !! key1 = Some ph -> rs_assigned st !! key2 = Some ph ->
  key1 = key2 /\ resolve (rs_vault st) ph = Some key1.2.
Proof.
  intros Hc Hh Hk Hn Hl.
  edestruct (redact_loop_inv text (sort_by span_le ds)) as [ats Hi];
    [by apply redact_inv_init| | | |exact Hl|].
  1,2: by rewrite sort_by_perm. { by rewrite sort_by_perm. }
  intros [cu1 v1] [cu2 v2] ph H1 H2.
  destruct (table_assigned _ _ _ _ (inv_table _ _ _ _ Hi) _ _ _ H1) as (Hu1 & Hv1 & n1 & Hp1 & _).
  destruct (table_assigned _ _ _ _ (inv_table _ _ _ _ Hi) _ _ _ H2) as (Hu2 & Hv2 & n2 & Hp2 & _).
  rewrite Hp1 in Hp2. apply placeholder_inj in Hp2 as [-> _]; [|done|done].
  unfold resolve. split; [congruence|done].
Qed.

(** C5: Round trip: restoring a redacted text with the vault it filled gives the
    text back, for every iteration order of the vault, under five conditions:
    the text does not itself contain an opening double brace, every span
    carries the text its detection claims, class names are ASCII without
    braces, the vault held placeholders only, and there are fewer than 2^32
    detections. *)
Theorem redact_restore_roundtrip `{HashOrder} text ds v m out v' m' :
  atoms_ok (Chr <$> text) -> Forall (span_honest text) ds ->
  Forall (fun d => class_ok (class d)) ds -> keys_ok (entries v) ->
  (N.of_nat (length ds) < 2 ^ 32)%N ->
  apply_redaction text ds v m = Some (out, v', m') ->
  restore_content out v' = text.
Proof. apply redact_restore. Qed.

(** A transform rule never panics as long as no matched value longer than
    four bytes has its last four bytes start inside a character. *)
Theorem apply_transform_total text ds template :
  Forall (fun d => tail_ok (value d)) ds -> is_Some (apply_transform text ds template).
Proof.
  intros Hds. unfold apply_transform.
  destruct (transform_loop_total text template (sort_by span_le ds) (0%N, [])) as (st & -> & Hb);
    [by rewrite sort_by_perm|done|]. simpl. rewrite slice_from_ok by done. simpl. by eauto.
Qed.

(** Transform rules can panic: [render_template] slices the last four
    bytes without checking the character boundary, even for templates that do
    not use them, so one accepted detection of such a value unwinds. *)
Theorem apply_transform_panics d template :
  span d = Some (0%N, slen (value d)) -> ~ tail_ok (value d) ->
  apply_transform (value d) [d] template = None.
Proof.
  intros Hsp Ht. unfold apply_transform. simpl. unfold transform_step. rewrite Hsp.
  unfold span_accepted. simpl fst. rewrite boundary_len, boundary_0, (N.ltb_irrefl (slen _)). simpl.
  rewrite slice_ok by done. simpl.
  destruct (render_template template (value d)) eqn:E; [|done].
  destruct Ht. by apply (render_template_some template).
Qed.

(** Numbering restarts at 1 in every call: redacting a second text through
    the same vault rebinds the class's first placeholder, so what an earlier
    call stored under it is lost. *)
Theorem second_redaction_rebinds d v m old :
  span d = Some (0%N, slen (value d)) ->
  resolve v (placeholder (to_uppercase (class d)) 1) = Some old -> old <> value d ->
  exists out v' m', apply_redaction (value d) [d] v m = Some (out, v', m') /\
    resolve v' (placeholder (to_uppercase (class d)) 1) = Some (value d) /\
    restore_in_order [(placeholder (to_uppercase (class d)) 1, value d)] out <> old.
Proof.
  intros Hsp _ Hne. rewrite apply_redaction_whole by done. do 3 eexists. split; [done|].
  unfold resolve, vault_insert. simpl. rewrite lookup_insert_eq. split; [done|].
  pose proof (replace_go_hit (placeholder_body (to_uppercase (class d)) 1) (value d) []) as Hr.
  rewrite !app_nil_r in Hr. intros Heq. apply Hne. rewrite <- Heq. exact Hr.
Qed.

End redaction_spec.

(** ** Witnesses and concrete behaviour *)

Definition sf_one : f32 := SpecFloat.S754_finite false 8388608 (-23).

Definition mk_det (cls val : str) (s e : N) : Detection :=
  {| class := cls; confidence := sf_one; span := Some (s, e); value := val |}.

Definition demo_text : str := $"Ali wrote to ali@x.uz and Bob".
Definition demo_detections : list Detection :=
  [ mk_det $"PERSON" $"Bob" 26 29; mk_det $"EMAIL_ADDRESS" $"ali@x.uz" 13 21;
    mk_det $"PERSON" $"Ali" 0 3 ].

Example demo_redaction :
  (fun r => r.1.1) <$>
    @apply_redaction ascii_case_map demo_text demo_detections TokenVault_default ∅
  = Some $"{{Person_1}} wrote to {{Email_Address_1}} and {{Person_2}}".
Proof. vm_compute. reflexivity. Qed.

(** Discharge the side conditions of the properties on concrete detections. *)
Ltac solve_detections :=
  repeat match goal with
  | |- Forall _ [] => constructor
  | |- Forall _ (_ :: _) => constructor
  | |- class_ok _ => decide_compute
  | |- span_honest _ _ => intros ? ? [= <- <-]; vm_compute; reflexivity
  | |- span_usable _ _ => intros ? ? [= <- <-]; vm_compute; repeat split; discriminate
  end.

Lemma demo_laminar : laminar demo_detections.
Proof.
  intros d1 d2 s1 e1 s2 e2 H1 H2 Hs1 Hs2. unfold demo_detections in *.
  rewrite !elem_of_cons in H1, H2.
  destruct H1 as [->|[->|[->|H1]]]; [..|by apply not_elem_of_nil in H1];
    (destruct H2 as [->|[->|[->|H2]]]; [..|by apply not_elem_of_nil in H2]);
    simpl in *; simplify_eq; lia.
Qed.

Lemma demo_honest : Forall (span_honest demo_text) demo_detections.
Proof. unfold demo_detections, mk_det. solve_detections. Qed.

Lemma demo_usable : Forall (span_usable demo_text) demo_detections.
Proof. unfold demo_detections, mk_det. solve_detections. Qed.

Lemma demo_classes : Forall (fun d => class_ok (class d)) demo_detections.
Proof. unfold demo_detections, mk_det. simpl. solve_detections. Qed.

Lemma demo_no_opener : atoms_ok (Chr <$> demo_text).
Proof. decide_compute. Qed.

Lemma empty_keys_ok : keys_ok (entries TokenVault_default).
Proof. by intros k v. Qed.

Lemma apply_redaction_covers_witness :
  covers (@redaction_plan ascii_case_map demo_text demo_detections) 13 21.
Proof.
  destruct (@apply_redaction_returns ascii_case_map demo_text demo_detections TokenVault_default ∅)
    as (out & v' & m' & Ha).
  destruct (@apply_redaction_covers ascii_case_map demo_text demo_detections TokenVault_default ∅
    out v' m' demo_laminar demo_usable Ha) as [_ Hc].
  apply (Hc (mk_det $"EMAIL_ADDRESS" $"ali@x.uz" 13 21)); [|reflexivity|lia].
  unfold demo_detections. right. left.
Defined.

Lemma placeholders_injective_witness :
  exists st, @redact_loop ascii_case_map demo_text (redact_init TokenVault_default ∅)
               (sort_by span_le demo_detections) = Some st /\
    resolve (rs_vault st) $"{{Person_2}}" = Some $"Bob".
Proof.
  assert ((fun st => rs_assigned st !! ($"PERSON", $"Bob")) <$>
    @redact_loop ascii_case_map demo_text (redact_init TokenVault_default ∅)
      (sort_by span_le demo_detections) = Some (Some $"{{Person_2}}")) as Hb
    by (vm_compute; reflexivity).
  destruct (@redact_loop_total ascii_case_map demo_text (sort_by span_le demo_detections)
    (redact_init TokenVault_default ∅) eq_refl) as (st & Hl & _).
  rewrite Hl in Hb. injection Hb as Hb. exists st. split; [exact Hl|].
  refine (proj2 (@placeholders_injective ascii_case_map demo_text demo_detections TokenVault_default ∅ st
    demo_classes demo_honest empty_keys_ok _ Hl _ _ _ Hb Hb)).
  vm_compute; reflexivity.
Defined.

Lemma redact_restore_roundtrip_witness :
  exists out v' m', @apply_redaction ascii_case_map demo_text demo_detections TokenVault_default ∅
                      = Some (out, v', m') /\
    @restore_content map_order out v' = demo_text.
Proof.
  destruct (@apply_redaction_returns ascii_case_map demo_text demo_detections TokenVault_default ∅)
    as (out & v' & m' & Ha).
  exists out, v', m'. split; [exact Ha|].
  refine (@redact_restore_roundtrip ascii_case_map map_order demo_text demo_detections
    TokenVault_default ∅ out v' m' demo_no_opener demo_honest demo_classes empty_keys_ok _ Ha).
  vm_compute; reflexivity.
Defined.

Lemma apply_transform_total_witness :
  is_Some (apply_transform demo_text demo_detections $"***{value[-4:]}").
Proof.
  apply apply_transform_total. repeat constructor; vm_compute; first [left; discriminate | right; reflexivity].
Defined.

(** A six-byte value whose last four bytes start inside the euro sign. *)
Definition euro_detection : Detection := mk_det $"AMOUNT" $"€abc" 0 6.

Lemma apply_transform_panics_witness :
  apply_transform $"€abc" [euro_detection] $"{value}" = None.
Proof.
  apply (apply_transform_panics euro_detection); [reflexivity|].
  intros [Hle|Hb]; [vm_compute in Hle; congruence|vm_compute in Hb; discriminate].
Defined.

Definition alice_vault : TokenVault :=
  vault_insert TokenVault_default $"{{Person_1}}" $"Alice".

Lemma second_redaction_rebinds_witness :
  exists out v' m',
    @apply_redaction ascii_case_map $"Bob" [mk_det $"PERSON" $"Bob" 0 3] alice_vault ∅ = Some (out, v', m') /\
    resolve v' $"{{Person_1}}" = Some $"Bob" /\
    restore_in_order [($"{{Person_1}}", $"Bob")] out <> $"Alice".
Proof.
  apply (@second_redaction_rebinds ascii_case_map (mk_det $"PERSON" $"Bob" 0 3) alice_vault ∅ $"Alice");
    [reflexivity|vm_compute; reflexivity|vm_compute; discriminate].
Defined.
