(* ===== verification/Streaming.v ===== *)
(** * Placeholder-safe streaming (http/streaming.rs)

    The streamer restores placeholders in a reply that arrives in arbitrary
    chunks: it holds back a partial placeholder until its closer arrives.  The
    properties show that chunking does not change the restored reply. *)

From S2P Require Import Prelude Rstr Json Types Placeholders.

(** ** Definitions *)

Definition force_include_usage (extra_params : Value) : Value :=
  let obj := match extra_params with Object m => m | _ => [] end in
  let stream_options :=
    match obj_get obj $"stream_options" with
    | Some (Object o) => o
    | _ => []
    end in
  Object (obj_insert obj $"stream_options"
    (Object (obj_insert stream_options $"include_usage" (Bool true)))).

(** Offset of the first [{{X] with [X] an ASCII upper-case letter. *)
Fixpoint find_placeholder_start (s : str) : option nat :=
  match s with
  | a :: s' =>
      match s' with
      | b :: c :: _ =>
          if bool_decide (a = obrace) && bool_decide (b = obrace) && is_ascii_uppercase c
          then Some 0 else S <$> find_placeholder_start s'
      | _ => None
      end
  | [] => None
  end.

(** Length of the trailing [{]/[{{] held back. *)
Definition hold_len (pending : str) : nat :=
  if ends_with pending $"{{" then 2 else if ends_with pending $"{" then 1 else 0.

(** One round of the scan loop: the text to restore and emit now, what stays
    pending, and whether the loop continues. *)
Definition scan_step (pending : str) : str * str * bool :=
  match find_placeholder_start pending with
  | Some start =>
      match find (drop start pending) $"}}" with
      | Some end_offset =>
          let emit_end := start + end_offset + 2 in
          (take emit_end pending, drop emit_end pending, true)
      | None => (take start pending, drop start pending, false)
      end
  | None =>
      let emit_len := length pending - hold_len pending in
      (take emit_len pending, drop emit_len pending, false)
  end.

(** The [loop]: the non-empty texts emitted, in order, and the pending rest.
    Every continuing round removes at least two bytes, so [length pending]
    rounds suffice. *)
Fixpoint scan_loop (fuel : nat) (pending : str) : list str * str :=
  match fuel with
  | 0 => ([], pending)
  | S fuel' =>
      let '(safe, rest, continue) := scan_step pending in
      let emit := match safe with [] => [] | _ => [safe] end in
      if continue then
        let '(segs, rest') := scan_loop fuel' rest in (emit ++ segs, rest')
      else (emit, rest)
  end.

Definition scan (pending : str) : list str * str := scan_loop (S (length pending)) pending.

Section streaming.
Context `{HashOrder}.

(** [PlaceholderStreamer::push] and [flush]; the state is [pending]. *)
Definition push (pending delta : str) (v : TokenVault) : str * str :=
  let '(segs, rest) := scan (pending ++ delta) in
  (concat (restore v <$> segs), rest).

Definition flush (pending : str) (v : TokenVault) : str :=
  match pending with [] => [] | _ => restore v pending end.

(** Feed a list of upstream deltas, then flush. *)
Fixpoint stream_deltas (pending : str) (deltas : list str) (v : TokenVault) : list str * str :=
  match deltas with
  | [] => ([], pending)
  | d :: deltas' =>
      let '(out, pending') := push pending d v in
      let '(outs, rest) := stream_deltas pending' deltas' v in
      (out :: outs, rest)
  end.

Definition stream_text (deltas : list str) (v : TokenVault) : str :=
  let '(outs, rest) := stream_deltas [] deltas v in concat outs ++ flush rest v.

(** [placeholder_safe_chunks]: the same loop over a whole chunk list. *)
Fixpoint safe_chunks_go (pending : str) (chunks : list str) (v : TokenVault) : list str :=
  match chunks with
  | [] => match pending with [] => [] | _ => [restore v pending] end
  | c :: chunks' =>
      let '(segs, rest) := scan (pending ++ c) in
      (restore v <$> segs) ++ safe_chunks_go rest chunks' v
  end.

Definition placeholder_safe_chunks (chunks : list str) (v : TokenVault) : list str :=
  safe_chunks_go [] chunks v.

Definition fallback_allowed (emitted_chunks : nat) : bool := emitted_chunks =? 0.

(** [settled_prefix_len]: end of the last line or sentence boundary. *)
Definition flush_to (bi : nat) (ch : str) (next : option str) : option nat :=
  if bool_decide (ch = [Ascii.ascii_of_N 10]) then Some (bi + length ch)
  else if bool_decide (ch = $".") || bool_decide (ch = $"!") || bool_decide (ch = $"?") then
    match next with
    | Some nc => if is_whitespace nc then Some (bi + length ch) else None
    | None => None
    end
  else None.

Fixpoint settled_go (cs : list str) (bi last : nat) : nat :=
  match cs with
  | [] => last
  | ch :: cs' => settled_go cs' (bi + length ch) (default last (flush_to bi ch (head cs')))
  end.

Definition settled_prefix_len (buf : str) : nat := settled_go (chars buf) 0 0.

End streaming.

Example demo_stream :
  @stream_text map_order [$"Hi {"; $"{Per"; $"son_1}"; $"}! { ok }"]
    (vault_insert TokenVault_default $"{{Person_1}}" $"Alice") = $"Hi Alice! { ok }".
Proof. vm_compute. reflexivity. Qed.

Example demo_settled : settled_prefix_len $"Email john.doe@x.com. Then more" = 21.
Proof. reflexivity. Qed.

(** ** The scan never loses or reorders text *)

Lemma scan_step_partition pending safe rest cont :
  scan_step pending = (safe, rest, cont) -> safe ++ rest = pending.
Proof. unfold scan_step. intros Hs. repeat case_match; simplify_eq; apply take_drop. Qed.

Lemma scan_loop_partition fuel pending segs rest :
  scan_loop fuel pending = (segs, rest) -> concat segs ++ rest = pending.
Proof.
  revert pending segs rest. induction fuel as [|fuel IH]; intros pending segs rest; simpl; [naive_solver|].
  destruct (scan_step pending) as [[safe rest1] cont] eqn:Hs. apply scan_step_partition in Hs as <-.
  assert (concat (match safe with [] => [] | _ => [safe] end) = safe) as Hsafe.
  { destruct safe; [done|]. apply app_nil_r. }
  destruct cont.
  - destruct (scan_loop fuel rest1) as [segs1 rest2] eqn:E. intros [= <- <-].
    rewrite concat_app, Hsafe, <- app_assoc. f_equal. by apply IH.
  - intros [= <- <-]. by rewrite Hsafe.
Qed.

(** ** The scan cuts at atom boundaries *)

Definition tok_upper (b : str) : Prop :=
  match b with c :: _ => is_ascii_uppercase c = true | [] => False end.

(** A text made of placeholders the streamer recognises and of bytes that do
    not look like one. *)
Record stream_ok (ats : list atom) : Prop := {
  stream_atoms : atoms_ok ats;
  stream_upper : forall b, Tok b ∈ ats -> tok_upper b;
}.

Lemma stream_ok_cons a ats : stream_ok (a :: ats) -> stream_ok ats.
Proof. intros [Ha Hu]. split; [by destruct a, Ha|set_solver]. Qed.

Lemma stream_ok_app_r a b : stream_ok (a ++ b) -> stream_ok b.
Proof. intros [Ha Hu]. split; [by eapply atoms_ok_app_r|set_solver]. Qed.

(** No placeholder opens at a plain byte. *)
Lemma chr_not_opener c p ats fut :
  stream_ok (Chr c :: ats) -> p ++ fut = render ats ->
  find_placeholder_start (c :: p) = S <$> find_placeholder_start p.
Proof.
  intros [[Hc Hok] _] Hp. destruct p as [|b [|d p]]; [done|done|].
  change (find_placeholder_start (c :: b :: d :: p))
    with (if bool_decide (c = obrace) && bool_decide (b = obrace) && is_ascii_uppercase d
          then Some 0 else S <$> find_placeholder_start (b :: d :: p)).
  destruct (bool_decide (c = obrace) && bool_decide (b = obrace) && is_ascii_uppercase d) eqn:E; [|done].
  rewrite !andb_true_iff, !bool_decide_eq_true in E. destruct E as [[-> ->] Hd].
  destruct ats as [|[c'|b'] ats]; [done| |].
  - rewrite render_cons in Hp. simpl in Hp. simplify_eq. by destruct Hc.
  - rewrite render_cons in Hp. simpl in Hp. by simplify_eq.
Qed.

Definition partial_opener (h : str) : Prop := h = [] \/ h = [obrace] \/ h = [obrace; obrace].

(** What a scan of a prefix of a well-formed text finds. *)
Lemma scan_prefix ats pending fut :
  stream_ok ats -> pending ++ fut = render ats ->
  (find_placeholder_start pending = None /\
   exists cs h ats2, pending = cs ++ h /\ ats = (Chr <$> cs) ++ ats2 /\
     h ++ fut = render ats2 /\ partial_opener h)
  \/ (exists cs p2 b ats2, find_placeholder_start pending = Some (length cs) /\
      pending = cs ++ p2 /\ ats = (Chr <$> cs) ++ Tok b :: ats2 /\
      p2 ++ fut = render (Tok b :: ats2)).
Proof.
  revert pending. induction ats as [|[c|b] ats IH]; intros pending Hok Hp.
  - apply app_eq_nil in Hp as [-> ->]. left. split; [done|]. exists [], [], []. unfold partial_opener; by split_and!; auto.
  - destruct pending as [|c' p].
    { left. split; [done|]. exists [], [], (Chr c :: ats). unfold partial_opener; by split_and!; auto. }
    rewrite render_cons in Hp. simpl in Hp. injection Hp as -> Hp.
    rewrite (chr_not_opener c p ats fut Hok Hp).
    destruct (IH p (stream_ok_cons _ _ Hok) Hp)
      as [(-> & cs & h & ats2 & -> & -> & Hh & Hpo)|(cs & p2 & b & ats2 & -> & -> & -> & Hp2)].
    + left. split; [done|]. by exists (c :: cs), h, ats2.
    + right. by exists (c :: cs), p2, b, ats2.
  - pose proof (stream_upper _ Hok b ltac:(left)) as Hu. destruct b as [|b0 b]; [done|]. simpl in Hu.
    pose proof Hp as Hp0. rewrite render_cons in Hp. simpl in Hp.
    destruct pending as [|p0 [|p1 [|p2 p]]]; simpl in Hp; simplify_eq.
    + left. split; [done|]. exists [], [], (Tok (b0 :: b) :: ats). unfold partial_opener; by split_and!; auto.
    + left. split; [done|]. exists [], $"{", (Tok (b0 :: b) :: ats). unfold partial_opener; by split_and!; auto.
    + left. split; [done|]. exists [], $"{{", (Tok (b0 :: b) :: ats). unfold partial_opener; by split_and!; auto.
    + right. eexists [], _, (b0 :: b), ats. repeat split; try done.
      change (find_placeholder_start (?x :: ?y :: ?z :: ?t))
        with (if bool_decide (x = obrace) && bool_decide (y = obrace) && is_ascii_uppercase z
              then Some 0 else S <$> find_placeholder_start (y :: z :: t)).
      by rewrite Hu.
Qed.

(** The first closer after an opener is the opener's own. *)
Lemma find_closer b p2 rest fut e :
  body_ok b -> p2 ++ fut = tok_text b ++ rest -> find p2 $"}}" = Some e ->
  e = 2 + length b /\ exists t, p2 = tok_text b ++ t.
Proof.
  intros [_ Hb] Hp Hf. destruct (find_Some _ _ _ Hf) as (t & Ht & Hle).
  assert (Forall (fun c => c <> cbrace) (obrace :: obrace :: b)) as Hopen.
  { repeat constructor; try done. eapply Forall_impl; [exact Hb|]; naive_solver. }
  assert (tok_text b ++ rest = (obrace :: obrace :: b) ++ [cbrace; cbrace] ++ rest) as Htok.
  { rewrite tok_text_eq. simpl. by rewrite <- app_assoc. }
  assert ((p2 ++ fut) !! e = Some cbrace) as Hlook.
  { rewrite Ht, <- !app_assoc, lookup_app_r by (rewrite length_take; lia).
    by rewrite length_take, Nat.min_l, Nat.sub_diag by lia. }
  assert (2 + length b <= e) as Hge.
  { destruct (decide (2 + length b <= e)) as [|Hlt]; [done|]. exfalso.
    rewrite Hp, Htok, lookup_app_l in Hlook by (simpl; lia).
    rewrite Forall_forall in Hopen. by apply (Hopen _ (list_elem_of_lookup_2 _ _ _ Hlook)). }
  assert (length p2 = e + 2 + length t) as Hlen.
  { rewrite Ht at 1. rewrite !length_app, length_take. simpl. lia. }
  assert (exists t', p2 = tok_text b ++ t') as [t' Hp2].
  { exists (drop (4 + length b) p2). rewrite <- (take_drop (4 + length b) p2) at 1. f_equal.
    rewrite <- (take_app_le p2 fut) by lia. rewrite Hp.
    rewrite take_app_length'; [done|]. rewrite tok_text_eq. simpl. rewrite length_app. simpl. lia. }
  split; [|by exists t']. destruct (decide (e = 2 + length b)) as [|Hne]; [done|]. exfalso.
  assert (starts_with (drop (2 + length b) p2) $"}}" = false) as Hno by (eapply find_first; [exact Hf|lia]).
  rewrite Hp2, tok_text_eq in Hno. simpl in Hno.
  rewrite <- app_assoc, drop_app_length in Hno. by simpl in Hno.
Qed.

Lemma hold_len_partial cs h : partial_opener h -> length h <= hold_len (cs ++ h).
Proof.
  intros [->|[->| ->]]; unfold hold_len, ends_with; [simpl; lia| |]; rewrite reverse_app.
  - destruct (starts_with (reverse [obrace] ++ reverse cs) (reverse $"{{")); [simpl; lia|]. simpl. lia.
  - simpl. lia.
Qed.

(** Each round hands [restore] a whole number of atoms. *)
Lemma scan_step_atoms ats pending fut safe rest cont :
  stream_ok ats -> pending ++ fut = render ats -> scan_step pending = (safe, rest, cont) ->
  exists a1 a2, ats = a1 ++ a2 /\ safe = render a1 /\ rest ++ fut = render a2.
Proof.
  intros Hok Hp. unfold scan_step.
  destruct (scan_prefix ats pending fut Hok Hp)
    as [(-> & cs & h & ats2 & -> & -> & Hh & Hpo)|(cs & p2 & b & ats2 & -> & -> & -> & Hp2)].
  - intros [= <- <- _]. pose proof (hold_len_partial cs h Hpo) as Hhold.
    set (k := length (cs ++ h) - hold_len (cs ++ h)).
    assert (k <= length cs) as Hk by (unfold k; rewrite length_app; lia).
    exists (Chr <$> take k cs), ((Chr <$> drop k cs) ++ ats2). split_and!.
    + rewrite app_assoc, <- fmap_app. by rewrite take_drop.
    + rewrite render_chrs. by apply take_app_le.
    + rewrite render_app, render_chrs, <- Hh, app_assoc. by rewrite drop_app_le.
  - rewrite drop_app_length. destruct (find p2 $"}}") as [e|] eqn:Hf.
    + assert (body_ok b) as Hb.
      { eapply atoms_ok_toks; [exact (stream_atoms _ Hok)|set_solver]. }
      destruct (find_closer b p2 (render ats2) fut e Hb Hp2 Hf) as [-> [t ->]].
      assert (length cs + (2 + length b) + 2 = length (cs ++ tok_text b)) as ->.
      { rewrite length_app, tok_text_eq. simpl. rewrite length_app. simpl. lia. }
      rewrite app_assoc, take_app_length, drop_app_length.
      intros Heq. apply pair_equal_spec in Heq as [[<- <-]%pair_equal_spec _].
      exists ((Chr <$> cs) ++ [Tok b]), ats2. split_and!.
      * by rewrite <- app_assoc.
      * rewrite render_app, render_chrs, render_cons. by rewrite app_nil_r.
      * rewrite render_cons in Hp2. simpl render_atom in Hp2. rewrite <- app_assoc in Hp2.
        by apply app_inv_head in Hp2.
    + intros [= <- <- _]. exists (Chr <$> cs), (Tok b :: ats2).
      rewrite take_app_length, render_chrs. done.
Qed.

Lemma scan_loop_atoms fuel ats pending fut segs rest :
  stream_ok ats -> pending ++ fut = render ats -> scan_loop fuel pending = (segs, rest) ->
  exists parts ats2, ats = concat parts ++ ats2 /\ segs = render <$> parts /\ rest ++ fut = render ats2.
Proof.
  revert ats pending segs rest. induction fuel as [|fuel IH]; intros ats pending segs rest Hok Hp; simpl.
  { intros [= <- <-]. by exists [], ats. }
  destruct (scan_step pending) as [[safe rest1] cont] eqn:Hs.
  destruct (scan_step_atoms _ _ _ _ _ _ Hok Hp Hs) as (a1 & a2 & -> & -> & Hr).
  assert (exists parts, concat parts = a1 /\
    match render a1 with [] => [] | _ => [render a1] end = render <$> parts) as (parts & Hparts & Hemit).
  { destruct (render a1) eqn:E.
    - exists []. split; [|done]. by destruct a1 as [|[c|b] a1].
    - exists [a1]. rewrite <- E. split; [apply app_nil_r|done]. }
  rewrite Hemit. destruct cont.
  - destruct (scan_loop fuel rest1) as [segs1 rest2] eqn:E. intros [= <- <-].
    destruct (IH _ _ _ _ (stream_ok_app_r _ _ Hok) Hr E) as (parts2 & ats2 & -> & -> & Hr2).
    exists (parts ++ parts2), ats2. rewrite concat_app, fmap_app, Hparts, app_assoc. done.
  - intros [= <- <-]. exists parts, a2. by rewrite Hparts.
Qed.

(** ** Restoring part by part *)

Section restore_parts.
Context `{HashOrder} (v : TokenVault).

(** The reply's placeholders can be restored without forming new ones. *)
Record reply_ok (ats : list atom) : Prop := {
  reply_stream : stream_ok ats;
  reply_keys : keys_ok (entries v);
  reply_subst : atoms_ok (subst (vault_fn (entries v)) ats);
}.

Lemma reply_ok_app_l a b : reply_ok (a ++ b) -> reply_ok a.
Proof.
  intros [[Hs Hu] Hk Ha]. rewrite subst_app in Ha. split; [split| |]; try done.
  - by eapply atoms_ok_app_l. - set_solver. - by eapply atoms_ok_app_l.
Qed.

Lemma reply_ok_app_r a b : reply_ok (a ++ b) -> reply_ok b.
Proof.
  intros [Hs Hk Ha]. rewrite subst_app in Ha. split; try done.
  - by eapply stream_ok_app_r. - by eapply atoms_ok_app_r.
Qed.

Lemma restore_reply ats : reply_ok ats -> restore v (render ats) = render (subst (vault_fn (entries v)) ats).
Proof.
  intros [[Hs _] Hk Ha]. apply restore_atoms; try done. intros b. by apply atoms_ok_toks.
Qed.

Lemma restore_reply_app a b :
  reply_ok (a ++ b) -> restore v (render (a ++ b)) = restore v (render a) ++ restore v (render b).
Proof.
  intros Hok. rewrite !restore_reply by eauto using reply_ok_app_l, reply_ok_app_r.
  by rewrite subst_app, render_app.
Qed.

Lemma restore_reply_concat parts :
  reply_ok (concat parts) -> concat (restore v <$> (render <$> parts)) = restore v (render (concat parts)).
Proof.
  induction parts as [|p parts IH]; intros Hok.
  - simpl. by rewrite restore_reply.
  - simpl in *. rewrite restore_reply_app by done. f_equal. apply IH. by eapply reply_ok_app_r.
Qed.

(** One scan of the pending text emits the restoration of whole atoms. *)
Lemma scan_restores ats pending fut segs rest :
  reply_ok ats -> pending ++ fut = render ats -> scan pending = (segs, rest) ->
  exists a1 a2, ats = a1 ++ a2 /\ concat (restore v <$> segs) = restore v (render a1) /\
    rest ++ fut = render a2.
Proof.
  intros Hok Hp Hs.
  destruct (scan_loop_atoms _ _ _ _ _ _ (reply_stream _ Hok) Hp Hs) as (parts & ats2 & -> & -> & Hr).
  exists (concat parts), ats2. split_and!; try done. apply restore_reply_concat.
  by eapply reply_ok_app_l.
Qed.

Lemma stream_deltas_restores ats pending deltas fut outs rest :
  reply_ok ats -> pending ++ concat deltas ++ fut = render ats ->
  stream_deltas pending deltas v = (outs, rest) ->
  exists a1 a2, ats = a1 ++ a2 /\ concat outs = restore v (render a1) /\ rest ++ fut = render a2.
Proof.
  revert ats pending outs rest. induction deltas as [|d deltas IH]; intros ats pending outs rest Hok Hp; simpl.
  { intros [= <- <-]. exists [], ats. split_and!; try done.
    rewrite (restore_reply []) by (eapply (reply_ok_app_l []); done). done. }
  unfold push. destruct (scan (pending ++ d)) as [segs rest1] eqn:Hs. simpl in Hp.
  destruct (scan_restores ats (pending ++ d) (concat deltas ++ fut) segs rest1) as (a1 & a2 & -> & Hc & Hr);
    [done|by rewrite <- Hp, <- !app_assoc|done|].
  destruct (stream_deltas rest1 deltas v) as [outs1 rest2] eqn:E. intros [= <- <-].
  destruct (IH _ _ _ _ (reply_ok_app_r _ _ Hok) Hr E) as (a3 & a4 & -> & Hc2 & Hr2).
  exists (a1 ++ a3), a4. rewrite app_assoc. split_and!; try done.
  rewrite restore_reply_app by (eapply reply_ok_app_l; by rewrite <- app_assoc). simpl. by rewrite Hc, Hc2.
Qed.

Lemma flush_restores pending : reply_ok [] -> flush pending v = restore v pending.
Proof. intros Hok. destruct pending; [|done]. simpl. symmetry. apply (restore_reply []). done. Qed.

Lemma safe_chunks_go_concat ats pending chunks :
  reply_ok ats -> pending ++ concat chunks = render ats ->
  concat (safe_chunks_go pending chunks v) = restore v (render ats).
Proof.
  revert ats pending. induction chunks as [|c chunks IH]; intros ats pending Hok Hp; simpl in *.
  - rewrite app_nil_r in Hp. rewrite <- Hp.
    rewrite <- (flush_restores pending) by (eapply (reply_ok_app_l []); done).
    unfold flush. by destruct pending; simpl; rewrite ?app_nil_r.
  - destruct (scan (pending ++ c)) as [segs rest] eqn:Hs.
    destruct (scan_restores ats (pending ++ c) (concat chunks) segs rest) as (a1 & a2 & -> & Hc & Hr);
      [done|by rewrite <- Hp, <- app_assoc|done|].
    rewrite concat_app, Hc, (IH a2 rest) by eauto using reply_ok_app_r. by rewrite restore_reply_app.
Qed.
End restore_parts.

(** ** The scan loop ends by itself *)

Lemma find_placeholder_start_lt s i : find_placeholder_start s = Some i -> i + 2 < length s.
Proof.
  revert i. induction s as [|a s IH]; intros i; simpl; [done|].
  destruct s as [|b [|c s]]; [done|done|]. case_match; [intros [= <-]; simpl; lia|].
  intros (j & Hj & ->)%fmap_Some. specialize (IH _ Hj). simpl in *. lia.
Qed.

Lemma scan_step_shrinks pending safe rest :
  scan_step pending = (safe, rest, true) -> length rest < length pending.
Proof.
  unfold scan_step. destruct (find_placeholder_start pending) as [i|] eqn:E; [|done].
  apply find_placeholder_start_lt in E. destruct (find _ _) as [e|]; [|done].
  intros [= _ <-]. rewrite length_drop. lia.
Qed.

Lemma scan_loop_fuel fuel pending :
  length pending < fuel -> scan_loop fuel pending = scan pending.
Proof.
  unfold scan. remember (S (length pending)) as m eqn:Hm.
  assert (length pending < m) as Hlt by lia. clear Hm. revert m pending Hlt.
  induction fuel as [|fuel IH]; intros m pending Hm Hf; [lia|]. destruct m as [|m]; [lia|]. simpl.
  destruct (scan_step pending) as [[safe rest] [|]] eqn:E; [|done].
  apply scan_step_shrinks in E. rewrite (IH m) by lia. done.
Qed.

(** ** Settled prefixes *)

Definition is_terminator (c : ascii) : Prop :=
  c = Ascii.ascii_of_N 10 \/ c = "."%char \/ c = "!"%char \/ c = "?"%char.

Lemma flush_to_spec bi ch next n :
  flush_to bi ch next = Some n -> exists t, ch = [t] /\ is_terminator t /\ n = S bi.
Proof.
  unfold flush_to, is_terminator. case_bool_decide as H1.
  - intros [= <-]. subst. eexists. split; [done|]. split; [by left|]. simpl. lia.
  - destruct (_ || _) eqn:E; [|done]. rewrite !orb_true_iff, !bool_decide_eq_true in E.
    repeat case_match; try done. intros [= <-].
    destruct E as [[->| ->]| ->]; (eexists; split; [done|]); simpl; split; auto; lia.
Qed.

(** The result is 0 or stands just behind a terminator. *)
Lemma settled_go_spec cs pre last :
  (last = 0 \/ exists k t, last = S k /\ is_terminator t /\ (pre ++ concat cs) !! k = Some t) ->
  let n := settled_go cs (length pre) last in
  n = 0 \/ exists k t, n = S k /\ is_terminator t /\ (pre ++ concat cs) !! k = Some t.
Proof.
  revert pre last. induction cs as [|ch cs IH]; intros pre last Hl; simpl; [exact Hl|].
  specialize (IH (pre ++ ch) (default last (flush_to (length pre) ch (head cs)))).
  rewrite length_app, <- app_assoc in IH. apply IH.
  destruct (flush_to (length pre) ch (head cs)) as [n|] eqn:E; [|exact Hl].
  apply flush_to_spec in E as (t & -> & Ht & ->). right. exists (length pre), t. split; [done|].
  split; [done|]. by rewrite lookup_app_r, Nat.sub_diag.
Qed.

Lemma settled_prefix_spec buf :
  settled_prefix_len buf = 0 \/
  exists k t, settled_prefix_len buf = S k /\ is_terminator t /\ buf !! k = Some t.
Proof.
  pose proof (settled_go_spec (chars buf) [] 0 (or_introl eq_refl)) as Hs.
  simpl in Hs. by rewrite concat_chars in Hs.
Qed.

(** A byte that no placeholder contains is an atom. *)
Lemma render_lookup_chr ats k t :
  (forall b, Tok b ∈ ats -> t ∉ tok_text b) -> render ats !! k = Some t ->
  exists a1 a2, ats = a1 ++ Chr t :: a2 /\ length (render a1) = k.
Proof.
  revert k. induction ats as [|a ats IH]; intros k Hb; [done|].
  rewrite render_cons. rewrite lookup_app_Some. intros [Hl|[Hge Hl]].
  - destruct a as [c|b]; simpl in Hl.
    + destruct k as [|k]; [|done]. injection Hl as ->. by exists [], ats.
    + exfalso. apply (Hb b); [left|]. by eapply list_elem_of_lookup_2.
  - destruct (IH (k - length (render_atom a))) as (a1 & a2 & -> & Hlen);
      [intros b Hin; apply Hb; by right|done|].
    exists (a :: a1), a2. split; [done|]. rewrite render_cons, length_app. lia.
Qed.

(** Whatever the chunking, streaming restores the reply as a whole. *)
Lemma stream_restores `{HashOrder} v ats deltas :
  reply_ok v ats -> concat deltas = render ats ->
  stream_text deltas v = restore v (concat deltas).
Proof.
  intros Hok Hd. unfold stream_text. destruct (stream_deltas [] deltas v) as [outs rest] eqn:E.
  destruct (stream_deltas_restores v ats [] deltas [] outs rest) as (a1 & a2 & -> & -> & Hr);
    [done|by rewrite app_nil_r|done|].
  rewrite app_nil_r in Hr. rewrite flush_restores by (eapply (reply_ok_app_l v []); done).
  by rewrite Hr, Hd, restore_reply_app.
Qed.

(** ** Properties *)

(** C9: Streaming restoration does not depend on chunking: however a well-formed
    reply is cut into deltas, the emitted text is the reply restored as a
    whole.  Well formed means that double braces open placeholders only, the
    vault holds placeholders only, and restoring forms no new ones; nothing is
    claimed of a reply that is not. *)
Theorem stream_text_is_restore `{HashOrder} v ats deltas :
  reply_ok v ats -> concat deltas = render ats ->
  stream_text deltas v = restore v (concat deltas).
Proof. apply stream_restores. Qed.

(** The buffered variant agrees: the concatenation of
    [placeholder_safe_chunks] is the reply restored as a whole. *)
Theorem placeholder_safe_chunks_concat `{HashOrder} v ats chunks :
  reply_ok v ats -> concat chunks = render ats ->
  concat (placeholder_safe_chunks chunks v) = restore v (concat chunks).
Proof. intros Hok Hc. rewrite Hc. by apply safe_chunks_go_concat. Qed.

(** With nothing to restore the streamer is the identity on every reply,
    well formed or not: no byte is dropped, duplicated or reordered. *)
Theorem stream_text_conserves `{HashOrder} deltas :
  stream_text deltas TokenVault_default = concat deltas.
Proof.
  assert (forall s, restore TokenVault_default s = s) as Hid.
  { intros s. unfold restore. simpl. pose proof (hash_iter_perm ∅) as Hp.
    rewrite map_to_list_empty in Hp. by apply Permutation_nil_r in Hp as ->. }
  assert (forall pending, let '(outs, rest) := stream_deltas pending deltas TokenVault_default in
    concat outs ++ rest = pending ++ concat deltas) as Hgo.
  { induction deltas as [|d ds IH]; intros pending; simpl; [by rewrite app_nil_r|].
    unfold push. destruct (scan (pending ++ d)) as [segs rest] eqn:Hs.
    apply scan_loop_partition in Hs. specialize (IH rest).
    destruct (stream_deltas rest ds TokenVault_default) as [outs rest']. simpl.
    rewrite <- app_assoc, IH, app_assoc, (app_assoc pending), <- Hs. do 2 f_equal.
    clear Hs. induction segs as [|x xs IHx]; [done|]. rewrite fmap_cons. simpl. by rewrite Hid, IHx. }
  unfold stream_text. specialize (Hgo []).
  destruct (stream_deltas [] deltas TokenVault_default) as [outs rest]. simpl in Hgo. rewrite <- Hgo. f_equal.
  destruct rest; [done|]. simpl. apply Hid.
Qed.

(** In redacting mode the gateway scans settled prefixes: the cut is a prefix
    of the buffer that never falls inside a placeholder, so each scanned
    segment is restored exactly as in the whole reply. *)
Theorem settled_prefix_cuts_atoms ats buf fut :
  stream_ok ats -> buf ++ fut = render ats ->
  (forall b t, Tok b ∈ ats -> is_terminator t -> t ∉ tok_text b) ->
  exists a1 a2, ats = a1 ++ a2 /\ take (settled_prefix_len buf) buf = render a1 /\
    drop (settled_prefix_len buf) buf ++ fut = render a2.
Proof.
  intros Hok Hp Ht. destruct (settled_prefix_spec buf) as [->|(k & t & -> & Hterm & Hk)].
  { exists [], ats. by rewrite drop_0. }
  destruct (render_lookup_chr ats k t) as (a1 & a2 & -> & Hlen).
  { intros b Hb. by apply Ht. } { rewrite <- Hp. by apply lookup_app_l_Some. }
  assert (k < length buf) as Hlt by by eapply lookup_lt_Some.
  rewrite cons_middle, app_assoc in Hp. rewrite render_app in Hp.
  assert (length (render (a1 ++ [Chr t])) = S k) as Hl by (rewrite render_app, length_app; simpl; lia).
  exists (a1 ++ [Chr t]), a2. split; [by rewrite <- app_assoc|].
  rewrite <- (take_app_le buf fut), <- (drop_app_le buf fut) by lia.
  rewrite Hp, <- Hl, take_app_length, drop_app_length. done.
Qed.

(** Forcing usage reporting always leaves [stream_options.include_usage] set
    to [true], keeps every other parameter and is idempotent. *)
Theorem force_include_usage_spec params :
  (get (force_include_usage params) $"stream_options" ≫= fun o => get o $"include_usage") = Some (Bool true) /\
  (forall k, k <> $"stream_options" -> get (force_include_usage params) k = get params k) /\
  force_include_usage (force_include_usage params) = force_include_usage params.
Proof.
  assert (forall (m : list (str * Value)) k v, obj_insert (obj_insert m k v) k v = obj_insert m k v) as Hidem.
  { intros m k v. induction m as [|[k' v'] m IH]; simpl; [by rewrite decide_True|].
    destruct (decide (k = k')); simpl; [by rewrite decide_True|]. rewrite decide_False by done. by rewrite IH. }
  unfold force_include_usage. split_and!.
  - simpl. rewrite obj_get_insert, decide_True by done. simpl.
    by rewrite obj_get_insert, decide_True by done.
  - intros k Hk. simpl. rewrite obj_get_insert, decide_False by done. by destruct params.
  - cbn [get]. rewrite obj_get_insert, decide_True by done. by rewrite Hidem, Hidem.
Qed.

(** ** Witnesses *)

Definition demo_vault : TokenVault :=
  {| entries := <[tok_text $"Person_1" := $"Alice"]> ∅ |}.

Definition demo_atoms : list atom :=
  (Chr <$> $"Hi ") ++ Tok $"Person_1" :: (Chr <$> $"! { ok }. Next").

Definition demo_deltas : list str := [$"Hi {"; $"{Per"; $"son_1}"; $"}! { o"; $"k }. Next"].

Lemma demo_stream_ok : stream_ok demo_atoms.
Proof.
  split.
  - decide_compute.
  - apply (toks_forall tok_upper). vm_compute. repeat constructor.
Qed.

Lemma demo_reply_ok : reply_ok demo_vault demo_atoms.
Proof.
  split; [apply demo_stream_ok| |].
  - apply keys_ok_insert; [auto with sp|decide_compute].
  - decide_compute.
Qed.

Lemma stream_text_is_restore_witness :
  @stream_text map_order demo_deltas demo_vault = @restore map_order demo_vault (concat demo_deltas).
Proof.
  apply (@stream_text_is_restore map_order demo_vault demo_atoms demo_deltas demo_reply_ok).
  vm_compute. reflexivity.
Defined.

Lemma placeholder_safe_chunks_concat_witness :
  concat (@placeholder_safe_chunks map_order demo_deltas demo_vault)
  = @restore map_order demo_vault (concat demo_deltas).
Proof.
  apply (@placeholder_safe_chunks_concat map_order demo_vault demo_atoms demo_deltas demo_reply_ok).
  vm_compute. reflexivity.
Defined.

Lemma settled_prefix_cuts_atoms_witness :
  exists a1 a2, demo_atoms = a1 ++ a2 /\
    take (settled_prefix_len (concat demo_deltas)) (concat demo_deltas) = render a1 /\
    drop (settled_prefix_len (concat demo_deltas)) (concat demo_deltas) ++ [] = render a2.
Proof.
  apply (settled_prefix_cuts_atoms demo_atoms (concat demo_deltas) [] demo_stream_ok).
  - vm_compute. reflexivity.
  - intros b t Hb Ht. revert b Hb. apply toks_forall. unfold demo_atoms. simpl.
    repeat constructor; (intros Hin; apply list_elem_of_In in Hin; vm_compute in Hin;
      destruct Ht as [->|[->|[->| ->]]]; vm_compute in Hin; intuition discriminate).
Defined.
