(* ===== verification/Sidecar.v ===== *)
(** * The ML detection sidecar client

    [ml_sidecar/types.rs], [ml_sidecar/client.rs], [analytics/engines.rs] and
    [db/sidecar_policy_repo.rs]: prompt tiling, the circuit breaker, the chunk
    loop with its coverage accounting, and the fail-closed policy on coverage
    loss.  The sidecar's answers, the clock and the budget are oracles of the
    loop. *)

From S2P Require Import Prelude Rstr Json Types.

(** ** Coverage types *)

Inductive SidecarOutage : Type := Unconfigured | Disabled | CircuitOpen | AllCallsFailed.

Definition SidecarOutage_as_str (o : SidecarOutage) : str :=
  match o with
  | Unconfigured => $"unconfigured"
  | Disabled => $"disabled"
  | CircuitOpen => $"circuit_open"
  | AllCallsFailed => $"all_calls_failed"
  end.

Inductive SidecarCoverage : Type :=
  | Complete
  | Partial (chunks_covered chunks_total : nat)
  | Absent (o : SidecarOutage).

Inductive CoverageLoss : Type :=
  | Outage (o : SidecarOutage)
  | PartialLoss.

Definition CoverageLoss_from_coverage (c : SidecarCoverage) : option CoverageLoss :=
  match c with
  | Complete => None
  | Partial _ _ => Some PartialLoss
  | Absent reason => Some (Outage reason)
  end.

Definition CoverageLoss_as_str (l : CoverageLoss) : str :=
  match l with
  | Outage reason => SidecarOutage_as_str reason
  | PartialLoss => $"partial_coverage"
  end.

Record MlDetection : Type := {
  ml_class : str;
  ml_confidence : f32;
  ml_span : option (N * N);
  ml_value : str;
  compliance_categories : list str;
}.

Record MlDetectionOutcome : Type := {
  ml_detections : list MlDetection;
  ml_coverage : SidecarCoverage;
}.

Record InjectionResponse : Type := { is_injection : bool; inj_score : f32 }.

Record InjectionOutcome : Type := {
  inj_response : InjectionResponse;
  inj_coverage : SidecarCoverage;
}.

Definition ml_absent (reason : SidecarOutage) : MlDetectionOutcome :=
  {| ml_detections := []; ml_coverage := Absent reason |}.

Definition injection_absent (reason : SidecarOutage) : InjectionOutcome :=
  {| inj_response := {| is_injection := false; inj_score := SpecFloat.S754_zero false |};
     inj_coverage := Absent reason |}.

(** ** Detection engines (the audit statement) *)

Inductive DetectionEngines : Type := FloorOnly | FloorAndMl | FloorAndPartialMl.

Definition DetectionEngines_from_coverage (c : SidecarCoverage) : DetectionEngines :=
  match c with
  | Complete => FloorAndMl
  | Partial _ _ => FloorAndPartialMl
  | Absent _ => FloorOnly
  end.

Definition engines_as_slice (e : DetectionEngines) : list str :=
  match e with
  | FloorOnly => [$"floor"]
  | FloorAndMl => [$"floor"; $"ml"]
  | FloorAndPartialMl => [$"floor"; $"ml_partial"]
  end.

Definition engines_as_header_value (e : DetectionEngines) : str :=
  match e with
  | FloorOnly => $"floor"
  | FloorAndMl => $"floor,ml"
  | FloorAndPartialMl => $"floor,ml_partial"
  end.

(** ** The workspace's outage policy *)

Inductive SidecarUnavailablePolicy : Type := Block | DegradeWithAlert.

#[export] Instance SidecarUnavailablePolicy_eq_dec : EqDecision SidecarUnavailablePolicy.
Proof. solve_decision. Defined.

Definition policy_default : SidecarUnavailablePolicy := Block.

Definition policy_from_db (v : str) : SidecarUnavailablePolicy :=
  if decide (v = $"degrade_with_alert") then DegradeWithAlert
  else if decide (v = $"block") then Block
  else Block.

Definition policy_as_str (p : SidecarUnavailablePolicy) : str :=
  match p with Block => $"block" | DegradeWithAlert => $"degrade_with_alert" end.

(** [SidecarPolicyRepository::get]: [row] is what the query came back with. *)
Definition sidecar_policy_get (row : result (option str)) : result (option SidecarUnavailablePolicy) :=
  obind row (fun r => Ok (policy_from_db <$> r)).

Definition get_effective (row : result (option str))
    (deployment_default : SidecarUnavailablePolicy) : result SidecarUnavailablePolicy :=
  obind (sidecar_policy_get row) (fun r => Ok (default deployment_default r)).

(** [SidecarPolicyRepository::upsert]: the stored value afterwards, the value
    returned, and the before/after pair of the audit row when one is written. *)
Definition sidecar_policy_upsert (row : option str) (p deployment_default : SidecarUnavailablePolicy)
    : option str * SidecarUnavailablePolicy
      * option (SidecarUnavailablePolicy * SidecarUnavailablePolicy) :=
  let before := default deployment_default (policy_from_db <$> row) in
  let stored := policy_as_str p in
  let after := policy_from_db stored in
  (Some stored, after, if decide (before = after) then None else Some (before, after)).

Inductive SidecarGate : Type :=
  | Proceed
  | GateBlock (l : CoverageLoss)
  | GateDegrade (l : CoverageLoss).

Definition sidecar_gate (c : SidecarCoverage) (p : SidecarUnavailablePolicy) : SidecarGate :=
  match CoverageLoss_from_coverage c with
  | None => Proceed
  | Some loss => match p with Block => GateBlock loss | DegradeWithAlert => GateDegrade loss end
  end.

(** ** Circuit breaker *)

Definition FAILURE_THRESHOLD : N := 5.
Definition OPEN_DURATION_SECS : N := 30.

Record Circuit : Type := { consecutive_failures : N; open_since : N }.

Definition circuit_new : Circuit := {| consecutive_failures := 0; open_since := 0 |}.

Definition is_open (now : N) (c : Circuit) : bool * Circuit :=
  if (open_since c =? 0)%N then (false, c)
  else if (OPEN_DURATION_SECS <=? saturating_sub now (open_since c))%N
  then (false, circuit_new)
  else (true, c).

Definition record_success (c : Circuit) : Circuit := circuit_new.

Definition record_failure (now : N) (c : Circuit) : bool * Circuit :=
  let prev := consecutive_failures c in
  let c1 := {| consecutive_failures := u32_succ prev; open_since := open_since c |} in
  if (prev + 1 =? FAILURE_THRESHOLD)%N
  then (true, {| consecutive_failures := u32_succ prev; open_since := now |})
  else (false, c1).

(** ** Prompt tiling *)

(** The largest [j <= n] such that the character before [j] is white space. *)
Fixpoint walk_back (cs : list str) (n : nat) : nat :=
  match n with
  | 0 => 0
  | S j =>
      match cs !! j with
      | Some ch => if is_whitespace ch then n else walk_back cs j
      | None => walk_back cs j
      end
  end.

(** The cut of the window that starts the remaining characters [cs]. *)
Definition ner_cut (max_chars : nat) (cs : list str) : nat :=
  let hard_end := Nat.min max_chars (length cs) in
  if hard_end <? length cs then
    let j := walk_back cs hard_end in if 0 <? j then j else hard_end
  else hard_end.

(** Every round consumes at least one character, so [length cs] rounds
    suffice. *)
Fixpoint split_loop (fuel max_chars : nat) (start_byte : N) (cs : list str) : list (N * str) :=
  match fuel, cs with
  | _, [] => []
  | 0, _ => []
  | S fuel', _ =>
      let cut := ner_cut max_chars cs in
      let chunk := concat (take cut cs) in
      (start_byte, chunk) :: split_loop fuel' max_chars (start_byte + slen chunk)%N (drop cut cs)
  end.

Definition split_for_ner (text : str) (max_chars : nat) : list (N * str) :=
  let max_chars := Nat.max max_chars 1 in
  let cs := chars text in
  if length cs <=? max_chars then [(0%N, text)]
  else split_loop (length cs) max_chars 0 cs.

(** ** Chunk calls *)

Definition usize_add (a b : N) : N := ((a + b) mod 2 ^ 64)%N.

Definition rebase_span (sp : option (N * N)) (offset : N) : option (N * N) :=
  (fun '(s, e) => (usize_add s offset, usize_add e offset)) <$> sp.

Definition classify_coverage (attempted covered chunks_total : nat) : SidecarCoverage :=
  if attempted =? 0 then Absent CircuitOpen
  else if covered =? 0 then Absent AllCallsFailed
  else if covered <? chunks_total then Partial covered chunks_total
  else Complete.

Record NerEntity : Type := {
  entity_type : str; ne_start : N; ne_end : N; ne_score : f32; ne_text : str;
  ne_categories : list str;
}.

(** What one [POST /detect/ner] can come back with. *)
Inductive NerReply : Type :=
  | TransportError
  | Status429
  | Status4xx
  | Unparseable
  | Entities (es : list NerEntity).

Record Counters : Type := {
  calls_total : N; failures_total : N; circuit_open_count : N; saturated_total : N;
}.

Definition count_call (k : Counters) : Counters := {|
  calls_total := (calls_total k + 1)%N; failures_total := failures_total k;
  circuit_open_count := circuit_open_count k; saturated_total := saturated_total k;
|}.

Definition count_failure (opened : bool) (k : Counters) : Counters := {|
  calls_total := calls_total k; failures_total := failures_total k + 1;
  circuit_open_count := if opened then circuit_open_count k + 1 else circuit_open_count k;
  saturated_total := saturated_total k;
|}%N.

Definition entity_detection (e : NerEntity) : MlDetection := {|
  ml_class := entity_type e; ml_confidence := ne_score e; ml_span := Some (ne_start e, ne_end e);
  ml_value := ne_text e; compliance_categories := ne_categories e;
|}.

Definition detect_chunk (now : N) (reply : NerReply) (c : Circuit) (k : Counters)
    : option (list MlDetection) * Circuit * Counters :=
  match reply with
  | Status429 =>
      (None, c, {| calls_total := calls_total k; failures_total := failures_total k;
                   circuit_open_count := circuit_open_count k;
                   saturated_total := (saturated_total k + 1)%N |})
  | Status4xx => (None, c, k)
  | Entities es =>
      (Some (entity_detection <$> es), record_success c,
       count_call k)
  | Unparseable | TransportError =>
      let '(opened, c') := record_failure now c in (None, c', count_failure opened k)
  end.

(** What the loop observes around one chunk: what other tasks did to the
    shared breaker since the last look, the clock at the breaker check, whether
    the aggregate budget has expired, the reply, and the clock when a failure
    is recorded. *)
Record ChunkEnv : Type := {
  env_others : Circuit -> Circuit;
  env_now : N; env_budget_expired : bool; env_reply : NerReply; env_fail_now : N;
}.

Record LoopState : Type := {
  ls_all : list MlDetection; ls_attempted : nat; ls_covered : nat;
  ls_circuit : Circuit; ls_counters : Counters;
}.

Definition rebase_detection (offset : N) (d : MlDetection) : MlDetection := {|
  ml_class := ml_class d; ml_confidence := ml_confidence d;
  ml_span := rebase_span (ml_span d) offset; ml_value := ml_value d;
  compliance_categories := compliance_categories d;
|}.

Fixpoint chunk_loop (env : nat -> ChunkEnv) (chunks_done : nat) (chunks : list (N * str))
    (st : LoopState) : LoopState :=
  match chunks with
  | [] => st
  | (offset, chunk) :: chunks' =>
      let e := env chunks_done in
      let '(opened, circuit) := is_open (env_now e) (env_others e (ls_circuit st)) in
      let st0 := {| ls_all := ls_all st; ls_attempted := ls_attempted st; ls_covered := ls_covered st;
                    ls_circuit := circuit; ls_counters := ls_counters st |} in
      if opened then st0
      else if (0 <? chunks_done) && env_budget_expired e then st0
      else
        let '(dets, circuit', counters) :=
          detect_chunk (env_fail_now e) (env_reply e) circuit (ls_counters st) in
        chunk_loop env (S chunks_done) chunks'
          {| ls_all := ls_all st ++ (rebase_detection offset <$> default [] dets);
             ls_attempted := S (ls_attempted st);
             ls_covered := if dets then S (ls_covered st) else ls_covered st;
             ls_circuit := circuit'; ls_counters := counters |}
  end.

Record MlSidecarClient : Type := {
  base_url : str;
  client_enabled : bool;
  ner_chunk_chars : nat;
  circuit : Circuit;
  counters : Counters;
}.

(** [MlSidecarClient::new]; [chunk_chars_env] is the parsed
    [ML_NER_CHUNK_CHARS]. *)
Definition DEFAULT_NER_CHUNK_CHARS : N := 24000.

Definition client_new (base_url : str) (chunk_chars_env : option N) : MlSidecarClient := {|
  base_url := base_url;
  client_enabled := negb (bool_decide (base_url = []))
    && (starts_with base_url $"http://" || starts_with base_url $"https://");
  ner_chunk_chars := N.to_nat (default DEFAULT_NER_CHUNK_CHARS
    (chunk_chars_env ≫= fun v => if (0 <? v)%N then Some v else None));
  circuit := circuit_new;
  counters := {| calls_total := 0; failures_total := 0; circuit_open_count := 0; saturated_total := 0 |};
|}.

Definition outage_of (cl : MlSidecarClient) : SidecarOutage :=
  match base_url cl with [] => Unconfigured | _ => Disabled end.

Definition with_circuit (cl : MlSidecarClient) (c : Circuit) (k : Counters) : MlSidecarClient := {|
  base_url := base_url cl; client_enabled := client_enabled cl; ner_chunk_chars := ner_chunk_chars cl;
  circuit := c; counters := k;
|}.

(** [detect_if_available]; [now] is the clock at the first breaker check. *)
Definition detect_if_available (cl : MlSidecarClient) (now : N) (env : nat -> ChunkEnv) (prompt : str)
    : MlDetectionOutcome * MlSidecarClient :=
  if negb (client_enabled cl) then (ml_absent (outage_of cl), cl)
  else
    let '(opened, c) := is_open now (circuit cl) in
    if opened then (ml_absent CircuitOpen, with_circuit cl c (counters cl))
    else
      let chunks := split_for_ner prompt (ner_chunk_chars cl) in
      let st := chunk_loop env 0 chunks
        {| ls_all := []; ls_attempted := 0; ls_covered := 0; ls_circuit := c;
           ls_counters := counters cl |} in
      let cl' := with_circuit cl (ls_circuit st) (ls_counters st) in
      match classify_coverage (ls_attempted st) (ls_covered st) (length chunks) with
      | Complete => ({| ml_detections := ls_all st; ml_coverage := Complete |}, cl')
      | Partial _ _ =>
          ({| ml_detections := ls_all st; ml_coverage := Partial (ls_covered st) (length chunks) |}, cl')
      | Absent reason => (ml_absent reason, cl')
      end.

(** What one [POST /detect/injection] can come back with. *)
Inductive InjectionReply : Type :=
  | InjTransportError
  | InjErrorStatus
  | InjUnparseable
  | InjAnswer (r : InjectionResponse).

(** [fail_now] is the clock when a failure is recorded, after the call. *)
Definition injection_check_if_available (cl : MlSidecarClient) (now fail_now : N)
    (reply : InjectionReply) : InjectionOutcome * MlSidecarClient :=
  if negb (client_enabled cl) then (injection_absent (outage_of cl), cl)
  else
    let '(opened, c) := is_open now (circuit cl) in
    let cl0 := with_circuit cl c (counters cl) in
    if opened then (injection_absent CircuitOpen, cl0)
    else
      match reply with
      | InjErrorStatus => (injection_absent AllCallsFailed, cl0)
      | InjAnswer out =>
          ({| inj_response := out; inj_coverage := Complete |},
           with_circuit cl (record_success c) (count_call (counters cl)))
      | InjUnparseable | InjTransportError =>
          let '(tripped, c') := record_failure fail_now c in
          (injection_absent AllCallsFailed, with_circuit cl c' (count_failure tripped (counters cl)))
      end.

Record RagCheckMatch : Type := { rag_rule_id : str; rag_score : f32 }.
Record RagCheckResponse : Type := { rag_matches : list RagCheckMatch; is_match : bool }.

Definition rag_empty : RagCheckResponse := {| rag_matches := []; is_match := false |}.

(** [rag_check_if_available]; the reply is [None] for a transport error or an
    unparseable body. *)
Definition rag_check_if_available (cl : MlSidecarClient) (now fail_now : N)
    (reply : option RagCheckResponse) : RagCheckResponse * MlSidecarClient :=
  if negb (client_enabled cl) then (rag_empty, cl)
  else
    let '(opened, c) := is_open now (circuit cl) in
    if opened then (rag_empty, with_circuit cl c (counters cl))
    else
      match reply with
      | Some r => (r, with_circuit cl (record_success c) (counters cl))
      | None =>
          let '(tripped, c') := record_failure fail_now c in
          (rag_empty, with_circuit cl c' (count_failure tripped (counters cl)))
      end.

(** ** The breaker's atomic steps

    [AtomicCircuit] is shared by every request task and each of its two fields
    is a separate relaxed atomic, so the operations above are sequences of
    single-field accesses that interleave.  A task's program counter: *)

Inductive BreakerPc : Type :=
  | SuccessStart                 (* about to store [consecutive_failures := 0] *)
  | SuccessStored                (* about to store [open_since := 0] *)
  | FailureStart                 (* about to [fetch_add] *)
  | FailureTripped               (* about to store [open_since := now] *)
  | OpenCheckStart               (* about to load [open_since] *)
  | OpenCheckExpired             (* about to store [open_since := 0] *)
  | OpenCheckReset               (* about to store [consecutive_failures := 0] *)
  | Finished (r : bool).

Definition atomic_step (now : N) (pc : BreakerPc) (c : Circuit) : BreakerPc * Circuit :=
  match pc with
  | SuccessStart => (SuccessStored, {| consecutive_failures := 0; open_since := open_since c |})
  | SuccessStored =>
      (Finished false, {| consecutive_failures := consecutive_failures c; open_since := 0 |})
  | FailureStart =>
      let prev := consecutive_failures c in
      (if (prev + 1 =? FAILURE_THRESHOLD)%N then FailureTripped else Finished false,
       {| consecutive_failures := u32_succ prev; open_since := open_since c |})
  | FailureTripped =>
      (Finished true, {| consecutive_failures := consecutive_failures c; open_since := now |})
  | OpenCheckStart =>
      (if (open_since c =? 0)%N then Finished false
       else if (OPEN_DURATION_SECS <=? saturating_sub now (open_since c))%N then OpenCheckExpired
       else Finished true, c)
  | OpenCheckExpired =>
      (OpenCheckReset, {| consecutive_failures := consecutive_failures c; open_since := 0 |})
  | OpenCheckReset =>
      (Finished false, {| consecutive_failures := 0; open_since := open_since c |})
  | Finished r => (Finished r, c)
  end.

(** One scheduled step of one of the concurrent tasks. *)
Inductive breaker_step : list BreakerPc * Circuit -> list BreakerPc * Circuit -> Prop :=
  | breaker_step_at (i : nat) (now : N) pcs c pc pc' c' :
      pcs !! i = Some pc ->
      (0 < now)%N ->
      atomic_step now pc c = (pc', c') ->
      breaker_step (pcs, c) (<[i := pc']> pcs, c').

Definition breaker_reachable : list BreakerPc * Circuit -> list BreakerPc * Circuit -> Prop :=
  rtc breaker_step.
