(* ===== verification/SidecarSpec.v ===== *)
(** * Properties of the ML sidecar client

    Tiling of the prompt, honesty of the rebased spans, the coverage statement
    the enforcement points act on, the fail-closed outage policy, and the
    circuit breaker, sequentially and under interleaving. *)

From S2P Require Import Prelude Rstr Json Types Sidecar.

(** ** Tiling *)

Lemma walk_back_le cs n : walk_back cs n <= n.
Proof. induction n as [|n IH]; simpl; [done|]. repeat case_match; lia. Qed.

(** The walk stops just after a white-space character and skips none. *)
Lemma walk_back_spec cs n :
  n <= length cs ->
  (forall k, walk_back cs n = S k -> exists ch, cs !! k = Some ch /\ is_whitespace ch = true) /\
  (forall i ch, walk_back cs n <= i < n -> cs !! i = Some ch -> is_whitespace ch = false).
Proof.
  induction n as [|n IH]; intros Hn; simpl; [split; intros; [done|lia]|].
  destruct (lookup_lt_is_Some_2 cs n) as [ch Hch]; [lia|]. rewrite Hch.
  destruct (is_whitespace ch) eqn:Ew.
  - split; [intros k [= <-]; eauto|intros; lia].
  - destruct IH as [IH1 IH2]; [lia|]. split; [done|]. intros i c Hi Hc.
    destruct (decide (i = n)) as [->|]; [congruence|]. eapply (IH2 i); [lia|done].
Qed.

Lemma ner_cut_bounds m cs :
  0 < m -> cs <> [] -> 0 < ner_cut m cs <= Nat.min m (length cs).
Proof.
  intros Hm Hcs. assert (0 < length cs) by (destruct cs; simpl; [done|lia]).
  unfold ner_cut. pose proof (walk_back_le cs (Nat.min m (length cs))).
  repeat case_match; lia.
Qed.

(** The last character of the piece is white space, or the piece is a full
    window without any. *)
Definition word_cut (m : nat) (c : str) : Prop :=
  (exists init ch, chars c = init ++ [ch] /\ is_whitespace ch = true) \/
  (length (chars c) = m /\ Forall (fun ch => is_whitespace ch = false) (chars c)).

Lemma ner_cut_word m s :
  0 < m -> ner_cut m (chars s) < length (chars s) ->
  word_cut m (concat (take (ner_cut m (chars s)) (chars s))).
Proof.
  intros Hm Hlt. unfold word_cut. rewrite chars_take. unfold ner_cut in *.
  destruct (Nat.ltb_spec (Nat.min m (length (chars s))) (length (chars s))) as [Hl|]; [|lia].
  destruct (walk_back_spec (chars s) (Nat.min m (length (chars s)))) as [H1 H2]; [lia|].
  destruct (walk_back (chars s) (Nat.min m (length (chars s)))) as [|k] eqn:Ek; simpl in *.
  - right. rewrite Nat.min_l in * by lia. rewrite length_take. split; [lia|].
    apply Forall_lookup. intros i ch [Hi Hch]%lookup_take_Some. eapply (H2 i); [lia|done].
  - destruct (H1 _ eq_refl) as (ch & Hch & Hw). left. exists (take k (chars s)), ch.
    split; [by apply take_S_r|done].
Qed.

Lemma split_loop_tiles m fuel s :
  0 < m -> length (chars s) <= fuel -> forall off,
  let out := split_loop fuel m off (chars s) in
  concat out.*2 = s /\
  forall i o c, out !! i = Some (o, c) ->
    o = (off + slen (concat (take i out.*2)))%N /\ c <> [] /\ length (chars c) <= m /\
    (S i < length out -> word_cut m c).
Proof.
  intros Hm. revert s. induction fuel as [|fuel IH]; intros s Hlen off.
  - assert (s = []) as -> by (pose proof (concat_chars s); destruct (chars s); simpl in *; [done|lia]).
    done.
  - destruct (decide (s = [])) as [->|Hs]; [done|].
    assert (chars s <> []) as Hc by (intros E; pose proof (concat_chars s); by rewrite E in *).
    pose proof (ner_cut_bounds m _ Hm Hc) as Hcut.
    set (cut := ner_cut m (chars s)) in *. set (chunk := concat (take cut (chars s))).
    assert (split_loop (S fuel) m off (chars s)
      = (off, chunk) :: split_loop fuel m (off + slen chunk)%N (drop cut (chars s))) as ->.
    { simpl. by destruct (chars s) eqn:E. }
    rewrite <- chars_drop.
    destruct (IH (concat (drop cut (chars s)))) with (off := (off + slen chunk)%N) as [IHc IHi].
    { rewrite chars_drop, length_drop. lia. }
    split.
    + cbn [fmap list_fmap snd concat]. rewrite IHc. unfold chunk.
      by rewrite <- concat_app, take_drop, concat_chars.
    + intros i o c. destruct i as [|i]; cbn [lookup list_lookup].
      * intros [= <- <-]. split; [unfold slen; simpl; lia|].
        assert (chunk <> []) as Hne.
        { intros E. pose proof (chars_take cut s) as Ht. fold chunk in Ht. rewrite E in Ht.
          symmetry in Ht. simpl in Ht. apply (f_equal length) in Ht.
          rewrite length_take in Ht. simpl in Ht. lia. }
        split; [done|]. split; [unfold chunk; rewrite chars_take, length_take; lia|].
        intros Hl. apply ner_cut_word; [done|]. fold cut.
        destruct (decide (cut < length (chars s))); [done|].
        rewrite drop_ge in Hl by lia. by destruct fuel; simpl in Hl; lia.
      * intros Hi. destruct (IHi _ _ _ Hi) as (-> & Hne & Hlc & Hw).
        split; [|split; [done|split; [done|]]].
        -- cbn [fmap list_fmap snd take concat]. rewrite slen_app. lia.
        -- intros Hl. apply Hw. simpl in Hl. lia.
Qed.

(** Tiling loses, repeats and reorders nothing: the pieces concatenate to
    the prompt, each carries the byte offset it starts at, none exceeds the
    character cap (clamped to at least one), none is empty unless the prompt
    is, and a piece other than the last ends after white space or is a full
    window containing none. *)
Theorem split_for_ner_tiles text max_chars :
  let out := split_for_ner text max_chars in
  concat out.*2 = text /\
  forall i o c, out !! i = Some (o, c) ->
    o = slen (concat (take i out.*2)) /\
    length (chars c) <= Nat.max max_chars 1 /\
    (text <> [] -> c <> []) /\
    (S i < length out -> word_cut (Nat.max max_chars 1) c).
Proof.
  unfold split_for_ner. destruct (Nat.leb_spec (length (chars text)) (Nat.max max_chars 1)) as [Hl|Hl].
  - split; [simpl; by rewrite app_nil_r|]. intros [|i] o c; [|done]. intros [= <- <-].
    split; [done|]. split; [done|]. split; [done|]. simpl. lia.
  - destruct (split_loop_tiles (Nat.max max_chars 1) (length (chars text)) text) with (off := 0%N)
      as [Hc Hi]; [lia|done|].
    split; [done|]. intros i o c Hio. destruct (Hi _ _ _ Hio) as (-> & Hne & Hm & Hw).
    split; [lia|]. done.
Qed.

(** Every piece sits in the text at a character boundary. *)
Lemma split_loop_mid m fuel s :
  0 < m -> length (chars s) <= fuel -> forall off pre,
  off = slen pre -> (pre = [] \/ head_ok s) ->
  forall i o c, split_loop fuel m off (chars s) !! i = Some (o, c) ->
  exists pre' post, pre ++ s = pre' ++ c ++ post /\ o = slen pre' /\
    (pre' = [] \/ head_ok (c ++ post)) /\ head_ok post.
Proof.
  intros Hm. revert s. induction fuel as [|fuel IH]; intros s Hlen off pre -> Hpre i o c Hi.
  { by destruct (chars s). }
  destruct (decide (s = [])) as [->|Hs]; [done|].
  assert (chars s <> []) as Hc by (intros E; pose proof (concat_chars s); by rewrite E in *).
  pose proof (ner_cut_bounds m _ Hm Hc) as Hcut.
  set (cut := ner_cut m (chars s)) in *. set (chunk := concat (take cut (chars s))).
  assert (split_loop (S fuel) m (slen pre) (chars s)
    = (slen pre, chunk) :: split_loop fuel m (slen pre + slen chunk)%N (drop cut (chars s))) as E.
  { simpl. by destruct (chars s) eqn:E. }
  rewrite E in Hi.
  assert (s = chunk ++ concat (drop cut (chars s))) as Hs'.
  { unfold chunk. by rewrite <- concat_app, take_drop, concat_chars. }
  assert (head_ok (concat (drop cut (chars s)))) as Hd by (apply head_ok_drop; lia).
  destruct i as [|i]; cbn [lookup list_lookup] in Hi.
  - injection Hi as <- <-. exists pre, (concat (drop cut (chars s))). by rewrite <- Hs'.
  - rewrite <- chars_drop in Hi.
    destruct (IH (concat (drop cut (chars s)))) with (off := (slen pre + slen chunk)%N)
      (pre := pre ++ chunk) (i := i) (o := o) (c := c) as (pre' & post & Hp & Ho & H1 & H2).
    + rewrite chars_drop, length_drop. lia.
    + by rewrite slen_app.
    + by right.
    + done.
    + exists pre', post. by rewrite <- Hp, <- app_assoc, <- Hs'.
Qed.

Lemma split_for_ner_mid text m i o c :
  split_for_ner text m !! i = Some (o, c) ->
  exists pre post, text = pre ++ c ++ post /\ o = slen pre /\
    (pre = [] \/ head_ok (c ++ post)) /\ head_ok post.
Proof.
  unfold split_for_ner. case_match.
  - destruct i; [|done]. intros [= <- <-]. exists [], []. simpl. rewrite app_nil_r. auto.
  - intros Hi. destruct (split_loop_mid (Nat.max m 1) (length (chars text)) text) with (off := 0%N)
      (pre := [] : str) (i := i) (o := o) (c := c) as (pre & post & Hp & Hrest); auto; [lia|].
    by exists pre, post.
Qed.

(** ** The chunk loop *)

(** What a reply contributes: nothing at all unless the piece was scanned. *)
Definition reply_dets (r : NerReply) : option (list MlDetection) :=
  match r with Entities es => Some (entity_detection <$> es) | _ => None end.

Definition scanned (env : nat -> ChunkEnv) (i : nat) : Prop :=
  is_Some (reply_dets (env_reply (env i))).

#[export] Instance scanned_dec env i : Decision (scanned env i).
Proof. unfold scanned. apply _. Defined.

Definition chunk_dets (env : nat -> ChunkEnv) (i : nat) (oc : N * str) : list MlDetection :=
  rebase_detection oc.1 <$> default [] (reply_dets (env_reply (env i))).

Fixpoint collected (env : nat -> ChunkEnv) (n : nat) (chunks : list (N * str)) : list MlDetection :=
  match chunks with
  | [] => []
  | oc :: chunks' => chunk_dets env n oc ++ collected env (S n) chunks'
  end.

Lemma detect_chunk_dets now r c k : (detect_chunk now r c k).1.1 = reply_dets r.
Proof. by destruct r; simpl; repeat case_match. Qed.

(** The loop stops after some prefix of the pieces; it has then attempted
    exactly that prefix, counted exactly the scanned ones, and collected
    exactly their rebased detections. *)
Lemma chunk_loop_prefix env n chunks st :
  exists k, k <= length chunks /\
    let st' := chunk_loop env n chunks st in
    ls_attempted st' = ls_attempted st + k /\
    ls_covered st' = ls_covered st + length (filter (scanned env) (seq n k)) /\
    ls_all st' = ls_all st ++ collected env n (take k chunks).
Proof.
  revert n st. induction chunks as [|[o ch] chunks IH]; intros n st; cbn [chunk_loop].
  { exists 0. simpl. rewrite app_nil_r. split; [lia|]. repeat split; lia. }
  destruct (is_open _ _) as [opened circ]. 
  destruct opened; [|destruct (_ && _)].
  1,2: exists 0; simpl; rewrite app_nil_r; split; [lia|]; repeat split; lia.
  pose proof (detect_chunk_dets (env_fail_now (env n)) (env_reply (env n)) circ (ls_counters st)) as Hd.
  destruct (detect_chunk _ _ _ _) as [[dets circ'] counters]. simpl in Hd. subst dets.
  edestruct (IH (S n)) as (k & Hk & Ha & Hc & Hall). exists (S k). split; [simpl; lia|].
  cbn zeta. rewrite Ha, Hc, Hall. simpl. rewrite filter_cons. split; [lia|]. split.
  - destruct (reply_dets (env_reply (env n))) as [ds|] eqn:E.
    + rewrite decide_True by (by eexists). simpl. lia.
    + rewrite decide_False by (unfold scanned; rewrite E; by intros [? ?]). lia.
  - by rewrite <- app_assoc.
Qed.

Lemma filter_full {A} (P : A -> Prop) `{!forall x, Decision (P x)} l :
  length (filter P l) = length l -> Forall P l.
Proof.
  induction l as [|x l IH]; [constructor|]. rewrite filter_cons. simpl.
  pose proof (length_filter P l). case_decide; simpl; intros ?; [constructor; [done|apply IH; lia]|lia].
Qed.

(** The outcome of an enabled client with a closed breaker, by cases. *)
Lemma detect_if_available_cases cl now env prompt :
  client_enabled cl = true -> (is_open now (circuit cl)).1 = false ->
  exists k, k <= length (split_for_ner prompt (ner_chunk_chars cl)) /\
    let chunks := split_for_ner prompt (ner_chunk_chars cl) in
    let covered := length (filter (scanned env) (seq 0 k)) in
    let out := (detect_if_available cl now env prompt).1 in
    ml_coverage out = classify_coverage k covered (length chunks) /\
    ml_detections out =
      match ml_coverage out with Absent _ => [] | _ => collected env 0 (take k chunks) end.
Proof.
  intros He Ho. unfold detect_if_available. rewrite He. simpl.
  destruct (is_open now (circuit cl)) as [opened c]. simpl in Ho. subst opened.
  edestruct (chunk_loop_prefix env 0) as (k & Hk & Ha & Hc & Hall). exists k. split; [done|].
  cbn zeta in *. rewrite Ha, Hc, Hall. simpl.
  destruct (classify_coverage _ _ _) eqn:E; simpl; try done.
  unfold classify_coverage in E. repeat case_match; try done.
Qed.

Lemma complete_cases cl now env prompt :
  ml_coverage (detect_if_available cl now env prompt).1 = Complete ->
  client_enabled cl = true /\ (is_open now (circuit cl)).1 = false.
Proof.
  unfold detect_if_available. destruct (client_enabled cl); simpl; [|done].
  by destruct (is_open now (circuit cl)) as [[] c].
Qed.

Lemma complete_all cl now env prompt :
  ml_coverage (detect_if_available cl now env prompt).1 = Complete ->
  let chunks := split_for_ner prompt (ner_chunk_chars cl) in
  (forall i, i < length chunks -> scanned env i) /\
  ml_detections (detect_if_available cl now env prompt).1 = collected env 0 chunks.
Proof.
  intros Hc. destruct (complete_cases _ _ _ _ Hc) as [He Ho].
  destruct (detect_if_available_cases _ _ env prompt He Ho) as (k & Hk & Hcov & Hdet).
  cbn zeta in *. rewrite Hc in Hcov, Hdet. symmetry in Hcov.
  unfold classify_coverage in Hcov. repeat case_match; try done.
  pose proof (length_filter (scanned env) (seq 0 k)) as Hf. rewrite length_seq in Hf.
  assert (k = length (split_for_ner prompt (ner_chunk_chars cl))) as Ek by lia.
  split; [|by rewrite Hdet, take_ge by lia].
  intros i Hi. assert (Forall (scanned env) (seq 0 k)) as HF
    by (apply (filter_full (scanned env)); rewrite length_seq; lia).
  rewrite Forall_forall in HF. apply HF. apply elem_of_seq. lia.
Qed.

(** A complete coverage statement is true: whenever the client answers
    [Complete], the client was enabled, every single piece of the prompt was
    scanned by the sidecar, and the detections are exactly the rebased
    entities of all pieces, in order. *)
Theorem complete_coverage_sound cl now env prompt :
  ml_coverage (detect_if_available cl now env prompt).1 = Complete ->
  let chunks := split_for_ner prompt (ner_chunk_chars cl) in
  client_enabled cl = true /\
  (forall i, i < length chunks -> scanned env i) /\
  ml_detections (detect_if_available cl now env prompt).1 = collected env 0 chunks.
Proof. intros Hc. split; [by apply complete_cases in Hc as [-> _]|by apply complete_all]. Qed.

(** A two-piece prompt and a sidecar that answers for both. *)
Definition demo_client : MlSidecarClient := client_new $"http://sidecar:8000" (Some 12%N).
Definition demo_prompt : str := $"Please call Anna".
Definition demo_entity : NerEntity := {|
  entity_type := $"PERSON"; ne_start := 0; ne_end := 4;
  ne_score := SpecFloat.S754_finite false 15099494 (-24); ne_text := $"Anna"; ne_categories := [];
|}.
Definition demo_env (i : nat) : ChunkEnv := {|
  env_others := id; env_now := 1000; env_budget_expired := false;
  env_reply := Entities (if i =? 1 then [demo_entity] else []); env_fail_now := 1000;
|}.

Lemma complete_coverage_sound_witness :
  ml_detections (detect_if_available demo_client 1000 demo_env demo_prompt).1
  = [rebase_detection 12 (entity_detection demo_entity)].
Proof.
  destruct (complete_coverage_sound demo_client 1000 demo_env demo_prompt) as (_ & _ & E);
    [vm_compute; reflexivity|].
  rewrite E. vm_compute. reflexivity.
Defined.

(** ** Rebased spans *)

Definition ml_honest (text : str) (d : MlDetection) : Prop :=
  match ml_span d with
  | Some (s, e) => slice text s e = Some (ml_value d)
  | None => False
  end.

Lemma rebase_honest text m i o c d :
  (slen text <= usize_max)%N ->
  split_for_ner text m !! i = Some (o, c) -> ml_honest c d -> ml_honest text (rebase_detection o d).
Proof.
  intros Hlen Hi Hd. destruct (split_for_ner_mid _ _ _ _ _ Hi) as (pre & post & -> & -> & H1 & H2).
  unfold ml_honest in *. simpl. destruct (ml_span d) as [[s e]|]; [|done]. simpl.
  pose proof (slice_Some _ _ _ _ Hd) as (Hse & He & _). rewrite !slen_app in Hlen. unfold usize_max in Hlen.
  unfold usize_add. rewrite !N.mod_small by lia.
  rewrite !(N.add_comm _ (slen pre)). by apply slice_mid.
Qed.

Lemma collected_elem env n chunks d :
  d ∈ collected env n chunks ->
  exists i o c, chunks !! i = Some (o, c) /\ d ∈ chunk_dets env (n + i) (o, c).
Proof.
  revert n. induction chunks as [|[o c] chunks IH]; intros n; simpl; [by intros ?%not_elem_of_nil|].
  intros [H|H]%elem_of_app.
  - exists 0, o, c. by rewrite Nat.add_0_r.
  - destruct (IH _ H) as (i & o' & c' & Hi & Hd). exists (S i), o', c'. by rewrite Nat.add_succ_r.
Qed.

(** When the sidecar reports honest offsets inside the piece it was sent,
    every span the client hands to the pipeline slices the whole prompt to the
    reported value: rebasing neither shifts a span nor cuts a character, on
    complete and on partial coverage alike. *)
Theorem detections_honest cl now env prompt :
  (slen prompt <= usize_max)%N ->
  (forall i o c es e, split_for_ner prompt (ner_chunk_chars cl) !! i = Some (o, c) ->
     env_reply (env i) = Entities es -> e ∈ es -> ml_honest c (entity_detection e)) ->
  Forall (ml_honest prompt) (ml_detections (detect_if_available cl now env prompt).1).
Proof.
  intros Hlen Hhonest. destruct (client_enabled cl) eqn:He.
  2: { unfold detect_if_available. rewrite He. constructor. }
  destruct (is_open now (circuit cl)).1 eqn:Ho.
  { unfold detect_if_available. rewrite He. simpl.
    destruct (is_open now (circuit cl)) as [[] ?]; [constructor|done]. }
  destruct (detect_if_available_cases _ _ env prompt He Ho) as (k & Hk & _ & Hdet). cbn zeta in Hdet.
  rewrite Hdet. apply Forall_forall. intros d Hd.
  assert (d ∈ collected env 0 (take k (split_for_ner prompt (ner_chunk_chars cl)))) as Hc.
  { case_match; [done|done|]. by apply not_elem_of_nil in Hd. }
  apply collected_elem in Hc as (i & o & c & Hi & Hin).
  apply lookup_take_Some in Hi as [Hi _]. unfold chunk_dets in Hin. simpl in Hin.
  apply list_elem_of_fmap in Hin as (d0 & -> & Hin).
  eapply rebase_honest; [done|done|].
  destruct (env_reply (env i)) as [| | | |es] eqn:Er; simpl in Hin; try by apply not_elem_of_nil in Hin.
  apply list_elem_of_fmap in Hin as (e & -> & Hin). by eapply Hhonest.
Qed.

Lemma detections_honest_witness :
  Forall (ml_honest demo_prompt)
    (ml_detections (detect_if_available demo_client 1000 demo_env demo_prompt).1).
Proof.
  apply detections_honest.
  - vm_compute. discriminate.
  - intros i o c es e Hi Hr He.
    destruct i as [|[|i]]; vm_compute in Hi.
    + vm_compute in Hr. injection Hr as <-. by apply not_elem_of_nil in He.
    + injection Hi as <- <-. vm_compute in Hr. injection Hr as <-.
      apply list_elem_of_singleton in He as ->. vm_compute. reflexivity.
    + discriminate.
Defined.

(** ** The outage policy *)

(** The gate lets a request through unconditionally only when the sidecar
    scanned every piece of its prompt; a missing or partial scan is blocked
    unless the policy in force is [DegradeWithAlert], and that policy is in
    force only when the stored value is exactly [degrade_with_alert] or there
    is no row and the deployment opted out.  An unreadable row is an error,
    never a pass. *)
Theorem gate_fails_closed cl now env prompt row deployment_default p :
  get_effective row deployment_default = Ok p ->
  match sidecar_gate (ml_coverage (detect_if_available cl now env prompt).1) p with
  | Proceed =>
      forall i, i < length (split_for_ner prompt (ner_chunk_chars cl)) -> scanned env i
  | GateDegrade _ =>
      row = Ok (Some $"degrade_with_alert") \/
      (row = Ok None /\ deployment_default = DegradeWithAlert)
  | GateBlock _ => p = Block
  end.
Proof.
  intros Hp. unfold sidecar_gate.
  destruct (CoverageLoss_from_coverage _) as [loss|] eqn:El.
  - destruct p; [done|]. destruct row as [[v|]| |]; try done.
    + left. injection Hp as Hp. unfold policy_from_db in Hp. simpl in Hp.
      by case_decide; [subst|case_decide].
    + right. by injection Hp as ->.
  - assert (ml_coverage (detect_if_available cl now env prompt).1 = Complete) as Hc by
      (by destruct (ml_coverage _)).
    by apply (complete_all _ _ _ _ Hc).
Qed.

(** The first piece scanned, the second refused by a saturated sidecar. *)
Definition saturated_env (i : nat) : ChunkEnv := {|
  env_others := id; env_now := 1000; env_budget_expired := false;
  env_reply := if i =? 0 then Entities [] else Status429; env_fail_now := 1000;
|}.

Lemma gate_fails_closed_witness :
  sidecar_gate (ml_coverage (detect_if_available demo_client 1000 saturated_env demo_prompt).1) Block
    = GateBlock PartialLoss /\
  get_effective (Ok (Some $"degrade")) DegradeWithAlert = Ok Block /\ Block = Block.
Proof.
  split; [vm_compute; reflexivity|]. split; [vm_compute; reflexivity|].
  exact (gate_fails_closed demo_client 1000 saturated_env demo_prompt
           (Ok (Some $"degrade")) DegradeWithAlert Block eq_refl).
Defined.

(** Writing a policy and reading it back gives that policy whatever the
    deployment default, and the write is audited exactly when the policy in
    force changed, with the true before and after. *)
Theorem sidecar_policy_upsert_roundtrip row p d d' before :
  get_effective (Ok row) d = Ok before ->
  let '(stored, returned, audit) := sidecar_policy_upsert row p d in
  get_effective (Ok stored) d' = Ok p /\ returned = p /\
  audit = (if decide (before = p) then None else Some (before, p)).
Proof.
  intros [= <-]. unfold sidecar_policy_upsert. assert (policy_from_db (policy_as_str p) = p) as ->.
  { by destruct p. }
  split; [|by repeat case_decide]. by destruct p.
Qed.

Lemma sidecar_policy_upsert_roundtrip_witness :
  sidecar_policy_upsert None DegradeWithAlert Block
    = (Some $"degrade_with_alert", DegradeWithAlert, Some (Block, DegradeWithAlert)) /\
  get_effective (Ok (Some $"degrade_with_alert")) Block = Ok DegradeWithAlert.
Proof.
  split; [vm_compute; reflexivity|].
  exact (proj1 (sidecar_policy_upsert_roundtrip None DegradeWithAlert Block Block Block eq_refl)).
Defined.

(** ** The circuit breaker, operations run one at a time *)

Inductive BreakerOp : Type := BSuccess | BFailure (now : N) | BCheck (now : N).

Definition run_op (c : Circuit) (op : BreakerOp) : Circuit :=
  match op with
  | BSuccess => record_success c
  | BFailure now => (record_failure now c).2
  | BCheck now => (is_open now c).2
  end.

(** A closed breaker has not yet counted up to the threshold. *)
Definition breaker_ok (c : Circuit) : Prop :=
  open_since c = 0%N -> (consecutive_failures c < FAILURE_THRESHOLD)%N.

Definition clock_positive (op : BreakerOp) : Prop :=
  match op with BFailure now | BCheck now => (0 < now)%N | BSuccess => True end.

Lemma run_op_ok c op : clock_positive op -> breaker_ok c -> breaker_ok (run_op c op).
Proof.
  unfold breaker_ok, FAILURE_THRESHOLD. destruct op as [|now|now]; simpl; intros Hp Hc.
  - by intros _.
  - unfold record_failure, FAILURE_THRESHOLD, u32_succ. case_match eqn:E; simpl; [lia|].
    intros Ho. specialize (Hc Ho). rewrite N.mod_small; lia.
  - unfold is_open. repeat case_match; simpl; [done|lia|done].
Qed.

Lemma run_ops_ok c ops : Forall clock_positive ops -> breaker_ok c -> breaker_ok (foldl run_op c ops).
Proof.
  intros Hops. revert c. induction Hops as [|op ops Hop Hops IH]; intros c Hc; simpl; [done|].
  by apply IH, run_op_ok.
Qed.

(** Once open, failures do not move the opening time (until the counter
    wraps). *)
Lemma failures_keep_open ns c :
  open_since c <> 0%N -> (FAILURE_THRESHOLD <= consecutive_failures c)%N ->
  (consecutive_failures c + N.of_nat (length ns) < 2 ^ 32)%N ->
  open_since (foldl run_op c (BFailure <$> ns)) = open_since c.
Proof.
  revert c. induction ns as [|n ns IH]; intros c Ho Hf Hw; simpl in *; [done|].
  unfold record_failure, FAILURE_THRESHOLD, u32_succ in *.
  rewrite (proj2 (N.eqb_neq _ _)) by lia.
  rewrite N.mod_small by lia. rewrite IH; simpl; [done|done|lia|lia].
Qed.

Lemma failures_trip c ns :
  open_since c = 0%N -> (consecutive_failures c < FAILURE_THRESHOLD)%N ->
  (FAILURE_THRESHOLD <= consecutive_failures c + N.of_nat (length ns))%N ->
  (N.of_nat (length ns) < 2 ^ 31)%N -> Forall (fun n => (0 < n)%N) ns ->
  exists n, n ∈ ns /\ open_since (foldl run_op c (BFailure <$> ns)) = n.
Proof.
  revert c. induction ns as [|n ns IH]; intros c Ho Hf Hl Hs Hpos; simpl in *; [lia|].
  inversion Hpos as [|? ? Hn Hpos']; subst. unfold record_failure.
  destruct (N.eqb_spec (consecutive_failures c + 1) FAILURE_THRESHOLD) as [E|E]; simpl.
  - exists n. split; [left|]. unfold FAILURE_THRESHOLD in *.
    rewrite failures_keep_open; simpl; rewrite ?u32_succ_small by lia; unfold FAILURE_THRESHOLD; lia || done.
  - unfold FAILURE_THRESHOLD in *. rewrite u32_succ_small by lia.
    destruct (IH {| consecutive_failures := consecutive_failures c + 1; open_since := open_since c |})
      as (m & Hm & Heq); simpl; [done|lia|lia|lia|done|].
    exists m. split; [by right|done].
Qed.

(** Run one operation at a time the breaker does its job: after any
    history, once a check has found it closed, five recorded failures without
    an intervening success open it, at the time of one of those failures, and
    it then refuses calls for thirty seconds. *)
Theorem breaker_opens history c ns :
  Forall clock_positive history -> c = foldl run_op circuit_new history ->
  open_since c = 0%N -> length ns = 5 -> Forall (fun n => (0 < n)%N) ns ->
  let c' := foldl run_op c (BFailure <$> ns) in
  exists n, n ∈ ns /\ open_since c' = n /\
    forall t, (t < n + OPEN_DURATION_SECS)%N -> is_open t c' = (true, c').
Proof.
  intros Hh -> Ho Hlen Hpos.
  assert (breaker_ok (foldl run_op circuit_new history)) as Hok by (apply run_ops_ok; done).
  destruct (failures_trip (foldl run_op circuit_new history) ns) as (n & Hn & E); auto.
  1,2: rewrite Hlen; unfold FAILURE_THRESHOLD; lia.
  exists n. split; [done|]. split; [done|]. intros t Ht. unfold is_open. rewrite E.
  rewrite Forall_forall in Hpos. specialize (Hpos _ Hn).
  rewrite (proj2 (N.eqb_neq _ _)) by lia. unfold saturating_sub, OPEN_DURATION_SECS in *.
  by rewrite (proj2 (N.leb_gt _ _)) by lia.
Qed.

Lemma breaker_opens_witness :
  exists n, n ∈ [100; 101; 102; 103; 104]%N /\
    open_since (foldl run_op circuit_new (BFailure <$> [100; 101; 102; 103; 104]%N)) = n /\
    forall t, (t < n + OPEN_DURATION_SECS)%N ->
      is_open t (foldl run_op circuit_new (BFailure <$> [100; 101; 102; 103; 104]%N)) =
      (true, foldl run_op circuit_new (BFailure <$> [100; 101; 102; 103; 104]%N)).
Proof.
  apply (breaker_opens [] circuit_new); [constructor|reflexivity|reflexivity|reflexivity|].
  repeat constructor.
Defined.

(** ** The circuit breaker under interleaving *)

(** Run a schedule: which task steps next, and the clock it sees. *)
Fixpoint run_schedule (sched : list (nat * N)) (st : list BreakerPc * Circuit)
    : option (list BreakerPc * Circuit) :=
  match sched with
  | [] => Some st
  | (i, now) :: sched' =>
      match st.1 !! i with
      | Some pc =>
          if (0 <? now)%N then
            let '(pc', c') := atomic_step now pc st.2 in run_schedule sched' (<[i := pc']> st.1, c')
          else None
      | None => None
      end
  end.

Lemma run_schedule_reachable sched st st' :
  run_schedule sched st = Some st' -> breaker_reachable st st'.
Proof.
  revert st. induction sched as [|[i now] sched IH]; intros [pcs c]; simpl.
  - intros [= <-]. constructor.
  - destruct (pcs !! i) as [pc|] eqn:E; [|done]. destruct (N.ltb_spec 0 now); [|done].
    destruct (atomic_step now pc c) as [pc' c'] eqn:Es. intros Hr%IH.
    eapply rtc_l; [|exact Hr]. by econstructor.
Qed.

Lemma failures_stay_closed ns c :
  open_since c = 0%N -> (FAILURE_THRESHOLD <= consecutive_failures c)%N ->
  (consecutive_failures c + N.of_nat (length ns) < 2 ^ 32)%N ->
  open_since (foldl run_op c (BFailure <$> ns)) = 0%N.
Proof.
  revert c. induction ns as [|n ns IH]; intros c Ho Hf Hw; simpl in *; [done|].
  unfold record_failure, FAILURE_THRESHOLD, u32_succ in *.
  rewrite (proj2 (N.eqb_neq _ _)) by lia.
  rewrite N.mod_small by lia. apply IH; simpl; [done|lia|lia].
Qed.

(** Interleaved, the breaker can wedge shut: six tasks, one success and
    five failures, have a schedule from a fresh breaker after which all are
    done and the breaker reads closed with its counter at the threshold (the
    success's second store lands after the trip).  From there no number of
    further consecutive failures below the counter's wrap-around opens it. *)
Theorem breaker_interleaving_wedges ns t :
  (N.of_nat (length ns) < 2 ^ 32 - 5)%N ->
  exists c,
    breaker_reachable ([SuccessStart; FailureStart; FailureStart; FailureStart; FailureStart; FailureStart],
                       circuit_new)
      ([Finished false; Finished false; Finished false; Finished false; Finished false; Finished true], c) /\
    (is_open t (foldl run_op c (BFailure <$> ns))).1 = false.
Proof.
  intros Hns. exists {| consecutive_failures := 5; open_since := 0 |}. split.
  - apply (run_schedule_reachable
      ((fun i => (i, 1%N)) <$> [0; 1; 2; 3; 4; 5; 5; 0])). vm_compute. reflexivity.
  - unfold is_open. rewrite failures_stay_closed; [done|done|unfold FAILURE_THRESHOLD; simpl; lia|simpl; lia].
Qed.

Lemma breaker_interleaving_wedges_witness :
  exists c,
    breaker_reachable ([SuccessStart; FailureStart; FailureStart; FailureStart; FailureStart; FailureStart],
                       circuit_new)
      ([Finished false; Finished false; Finished false; Finished false; Finished false; Finished true], c) /\
    (is_open 20 (foldl run_op c (BFailure <$> [10; 11; 12; 13; 14; 15]%N))).1 = false.
Proof. apply (breaker_interleaving_wedges [10; 11; 12; 13; 14; 15]%N 20). vm_compute. reflexivity. Defined.

(** ** Calls the sidecar answers *)

(** No other task touches the breaker and the budget never expires. *)
Definition undisturbed (env : nat -> ChunkEnv) : Prop :=
  forall i, (forall c, env_others (env i) c = c) /\ env_budget_expired (env i) = false.

Lemma is_open_closed now c : open_since c = 0%N -> is_open now c = (false, c).
Proof. intros E. unfold is_open. by rewrite E. Qed.

Lemma is_open_false now c : (is_open now c).1 = false -> open_since (is_open now c).2 = 0%N.
Proof. unfold is_open. destruct (N.eqb_spec (open_since c) 0); [done|]. by case_match. Qed.

Lemma split_for_ner_pos text m : 0 < length (split_for_ner text m).
Proof.
  unfold split_for_ner. case_match eqn:E; simpl; [lia|]. apply Nat.leb_gt in E.
  destruct (chars text) as [|ch cs]; simpl in *; [lia|]. destruct cs; simpl; lia.
Qed.

(** The loop goes through all pieces when no reply opens the breaker. *)
Lemma chunk_loop_all (P : NerReply -> Prop) env n chunks st :
  (forall now r c k, P r -> open_since c = 0%N -> open_since (detect_chunk now r c k).1.2 = 0%N) ->
  undisturbed env -> (forall i, P (env_reply (env i))) -> open_since (ls_circuit st) = 0%N ->
  ls_attempted (chunk_loop env n chunks st) = ls_attempted st + length chunks.
Proof.
  intros HP Henv Hr. revert n st. induction chunks as [|[o ch] chunks IH]; intros n st Ho; cbn [chunk_loop].
  { simpl. lia. }
  destruct (Henv n) as [Hid Hb]. rewrite Hid, is_open_closed, Hb, andb_false_r by done.
  pose proof (HP (env_fail_now (env n)) (env_reply (env n)) (ls_circuit st) (ls_counters st) (Hr n) Ho) as Ho'.
  destruct (detect_chunk _ _ _ _) as [[dets circ'] counters]. rewrite IH by done. simpl. lia.
Qed.

(** C29: A healthy sidecar gives complete coverage: an enabled client whose
    breaker lets calls through, undisturbed by other tasks and within its
    budget, reports [Complete] when every piece is answered with entities,
    whatever the length of the prompt. *)
Theorem healthy_scan_is_complete cl now env prompt :
  client_enabled cl = true -> (is_open now (circuit cl)).1 = false ->
  undisturbed env -> (forall i, scanned env i) ->
  ml_coverage (detect_if_available cl now env prompt).1 = Complete.
Proof.
  intros He Ho Henv Hs. pose proof (is_open_false _ _ Ho) as Hc.
  unfold detect_if_available. rewrite He. simpl.
  destruct (is_open now (circuit cl)) as [opened c]. simpl in Ho, Hc. subst opened.
  set (chunks := split_for_ner prompt (ner_chunk_chars cl)).
  pose proof (split_for_ner_pos prompt (ner_chunk_chars cl)) as Hpos. fold chunks in Hpos.
  set (st0 := {| ls_all := []; ls_attempted := 0; ls_covered := 0; ls_circuit := c; ls_counters := counters cl |}).
  assert (ls_attempted (chunk_loop env 0 chunks st0) = length chunks) as Ha.
  { apply (chunk_loop_all (fun r => is_Some (reply_dets r))); auto. by intros ? [] ? ? [? ?]. }
  destruct (chunk_loop_prefix env 0 chunks st0) as (k & Hk & Hatt & Hcov & _). cbn zeta in *.
  rewrite Ha in *. simpl in *.
  assert (length (filter (scanned env) (seq 0 k)) = k) as Hf.
  { assert (forall l, filter (scanned env) l = l) as ->; [|apply length_seq].
    induction l as [|x l IH]; [done|]. by rewrite filter_cons, decide_True, IH. }
  rewrite Hcov, Hf. unfold classify_coverage.
  rewrite (proj2 (Nat.eqb_neq _ _)), (proj2 (Nat.eqb_neq _ _)), (proj2 (Nat.ltb_ge _ _)) by lia. done.
Qed.

Lemma healthy_scan_is_complete_witness :
  ml_coverage (detect_if_available demo_client 1000 demo_env demo_prompt).1 = Complete.
Proof.
  apply healthy_scan_is_complete; [reflexivity|reflexivity| |].
  - intros i. split; reflexivity.
  - intros i. eexists. reflexivity.
Defined.

Definition client_error (r : NerReply) : Prop := r = Status429 \/ r = Status4xx.

Lemma client_error_inert now r c k :
  client_error r -> (detect_chunk now r c k).1.2 = c /\ failures_total (detect_chunk now r c k).2 = failures_total k.
Proof. by intros [-> | ->]. Qed.

Lemma chunk_loop_inert env n chunks st :
  undisturbed env -> (forall i, client_error (env_reply (env i))) -> open_since (ls_circuit st) = 0%N ->
  let st' := chunk_loop env n chunks st in
  ls_circuit st' = ls_circuit st /\ failures_total (ls_counters st') = failures_total (ls_counters st).
Proof.
  intros Henv Hr. revert n st. induction chunks as [|[o ch] chunks IH]; intros n st Ho; cbn [chunk_loop]; [done|].
  destruct (Henv n) as [Hid Hb]. rewrite Hid, is_open_closed, Hb, andb_false_r by done.
  destruct (client_error_inert (env_fail_now (env n)) _ (ls_circuit st) (ls_counters st) (Hr n)) as [H1 H2].
  destruct (detect_chunk _ _ _ _) as [[dets circ'] k']. simpl in H1, H2. subst circ'.
  edestruct (IH (S n)) as [E1 E2]; [|cbn zeta; rewrite E1, E2; by rewrite <- H2]. done.
Qed.

(** Rejected requests never count against the sidecar's health: however
    long the prompt, a sidecar that answers 4xx or 429 to every piece leaves
    the breaker and the failure counter where they were, and the outcome is
    reported as no coverage rather than as clean text. *)
Theorem client_errors_spare_breaker cl now env prompt :
  client_enabled cl = true -> open_since (circuit cl) = 0%N ->
  undisturbed env -> (forall i, client_error (env_reply (env i))) ->
  let '(out, cl') := detect_if_available cl now env prompt in
  ml_coverage out = Absent AllCallsFailed /\ ml_detections out = [] /\
  circuit cl' = circuit cl /\ failures_total (counters cl') = failures_total (counters cl).
Proof.
  intros He Ho Henv Hr. unfold detect_if_available. rewrite He. simpl. rewrite is_open_closed by done.
  set (chunks := split_for_ner prompt (ner_chunk_chars cl)).
  set (st0 := {| ls_all := []; ls_attempted := 0; ls_covered := 0; ls_circuit := circuit cl; ls_counters := counters cl |}).
  destruct (chunk_loop_inert env 0 chunks st0 Henv Hr Ho) as [Ec Ef]. cbn zeta in *.
  assert (ls_attempted (chunk_loop env 0 chunks st0) = length chunks) as ->.
  { apply (chunk_loop_all client_error); auto. by intros ? ? ? ? [-> | ->] ?. }
  destruct (chunk_loop_prefix env 0 chunks st0) as (k & _ & _ & Hcov & _). cbn zeta in Hcov.
  assert (length (filter (scanned env) (seq 0 k)) = 0) as Hf.
  { assert (forall l, filter (scanned env) l = []) as ->; [|done].
    induction l as [|x l IH]; [done|]. rewrite filter_cons, decide_False, IH; [done|].
    unfold scanned. destruct (Hr x) as [-> | ->]; by intros [? ?]. }
  rewrite Hcov, Hf. simpl.
  pose proof (split_for_ner_pos prompt (ner_chunk_chars cl)) as Hpos. fold chunks in Hpos.
  unfold classify_coverage. rewrite (proj2 (Nat.eqb_neq _ _)) by lia. done.
Qed.

Definition rejecting_env (i : nat) : ChunkEnv := {|
  env_others := id; env_now := 1000; env_budget_expired := false;
  env_reply := if i =? 0 then Status4xx else Status429; env_fail_now := 1000;
|}.

Lemma client_errors_spare_breaker_witness :
  let '(out, cl') := detect_if_available demo_client 1000 rejecting_env demo_prompt in
  ml_coverage out = Absent AllCallsFailed /\ ml_detections out = [] /\
  circuit cl' = circuit demo_client /\ failures_total (counters cl') = failures_total (counters demo_client).
Proof.
  apply (client_errors_spare_breaker demo_client 1000 rejecting_env demo_prompt); [reflexivity|reflexivity| |].
  - intros i. split; reflexivity.
  - intros [|i]; [right|left]; reflexivity.
Defined.
