(* ===== verification/Analytics.v ===== *)
(** * Analytics events, the capture gate and the ClickHouse writer

    [analytics/events.rs], [analytics/capture.rs],
    [analytics/detection_counts.rs] and the consumer loop of
    [analytics/clickhouse_writer.rs]: which content of a request may reach the
    warehouse, and in what form. *)

From S2P Require Import Prelude Rstr Json Types Sidecar.

(** ** The capture gate *)

Record CaptureDecision : Type := { cd_enabled : bool; cd_retention_days : Z }.

Definition DEFAULT_RETENTION_DAYS : Z := 30.
Definition MIN_RETENTION_DAYS : Z := 1.
Definition MAX_RETENTION_DAYS : Z := 3650.

Definition clamp_retention (days : Z) : Z :=
  if (days <? MIN_RETENTION_DAYS)%Z then MIN_RETENTION_DAYS
  else if (MAX_RETENTION_DAYS <? days)%Z then MAX_RETENTION_DAYS
  else days.

Definition CaptureDecision_default : CaptureDecision :=
  {| cd_enabled := false; cd_retention_days := DEFAULT_RETENTION_DAYS |}.

Record CapturedContent : Type := {
  cc_raw_prompt : option str;
  cc_raw_response : option str;
  cc_restored_response : option str;
  cc_encrypted : bool;
  cc_retention_days : Z;
}.

(** [KmsBackend::encrypt] is a remote call: the answer to the [n]-th call on a
    plaintext, [None] for an error. *)
Abbreviation KmsEncrypt := (nat -> str -> option str).

(** [Err] aborts the whole capture; the call number is threaded because an
    absent or empty value makes no call. *)
Definition seal_field (kms : KmsEncrypt) (n : nat) (value : option str)
    : outcome unit (option str) * nat :=
  match value with
  | None | Some [] => (Ok None, n)
  | Some v =>
      (match kms n v with
       | Some ciphertext => if utf8_valid ciphertext then Ok (Some ciphertext) else Err tt
       | None => Err tt
       end, S n)
  end.

Definition opt_is_none {A} (o : option A) : bool := match o with None => true | Some _ => false end.

Definition seal (decision : CaptureDecision) (kms : KmsEncrypt)
    (raw_prompt raw_response restored_response : option str) : option CapturedContent :=
  if negb (cd_enabled decision) then None
  else if opt_is_none raw_prompt && opt_is_none raw_response && opt_is_none restored_response then None
  else
    match seal_field kms 0 raw_prompt with
    | (Ok rp, n1) =>
        match seal_field kms n1 raw_response with
        | (Ok rr, n2) =>
            match seal_field kms n2 restored_response with
            | (Ok rs, _) =>
                if opt_is_none rp && opt_is_none rr && opt_is_none rs then None
                else Some {| cc_raw_prompt := rp; cc_raw_response := rr; cc_restored_response := rs;
                             cc_encrypted := true; cc_retention_days := cd_retention_days decision |}
            | _ => None
            end
        | _ => None
        end
    | _ => None
    end.

(** ** Per-class counts *)

Definition OTHER : str := $"other".
Definition UNREGISTERED_MODEL : str := $"unregistered".
Definition MAX_MODEL_LEN : N := 128.

Definition canonicalize_model (model : str) (registered : bool) : str :=
  let bounded := negb (bool_decide (model = [])) && (slen model <=? MAX_MODEL_LEN)%N
                 && all_ascii_graphic model in
  if registered && bounded then model else UNREGISTERED_MODEL.

Definition CANONICAL_CLASSES : list str :=
  [$"ANTHROPIC_API_KEY"; $"API_TOKEN_GENERIC"; $"AWS_ACCESS_KEY";
   $"AZURE_STORAGE_CONNECTION_STRING"; $"BASIC_AUTH_HEADER"; $"BEARER_TOKEN";
   $"GCP_SERVICE_ACCOUNT_EMAIL"; $"GITHUB_FINE_GRAINED_PAT"; $"GITHUB_OAUTH_TOKEN";
   $"GITHUB_PAT"; $"GITHUB_REFRESH_TOKEN"; $"GOOGLE_API_KEY"; $"JWT"; $"MONGODB_URI";
   $"OAUTH_CLIENT_SECRET"; $"OPENAI_API_KEY"; $"OPENSSH_PRIVATE_KEY"; $"PASSWORD_ASSIGNMENT";
   $"POSTGRESQL_URI"; $"PRIVATE_KEY_PEM"; $"RSA_PRIVATE_KEY"; $"SLACK_APP_TOKEN";
   $"SLACK_BOT_TOKEN"; $"SLACK_USER_TOKEN"; $"STRIPE_PUBLISHABLE_KEY"; $"STRIPE_SECRET_KEY";
   $"WEBHOOK_URL"; $"CREDIT_CARD"; $"EMAIL_ADDRESS"; $"HUMO"; $"IBAN"; $"MFO";
   $"PASSPORT_NUMBER"; $"PHONE_NUMBER"; $"PINFL"; $"SSN"; $"STIR"; $"UZCARD"; $"ADDRESS";
   $"BANK_ACCOUNT_NUMBER"; $"BIRTH_CERTIFICATE_NUMBER"; $"BLOOD_TYPE"; $"CNPJ"; $"CPF";
   $"CREDIT_AGREEMENT_ID"; $"CREDIT_CARD_BRAND"; $"CREDIT_CARD_EXPIRATION_DATE";
   $"CREDIT_CARD_NUMBER"; $"CVV"; $"DATE_OF_BIRTH"; $"DRIVERS_LICENSE_NUMBER";
   $"FLIGHT_NUMBER"; $"HEALTH_INSURANCE_NUMBER"; $"IDENTITY_CARD_NUMBER"; $"INSURANCE_COMPANY";
   $"INSURANCE_NUMBER"; $"IP_ADDRESS"; $"LICENSE_PLATE_NUMBER"; $"LOAN_AMOUNT";
   $"MEDICAL_CONDITION"; $"MEDICATION"; $"NATIONAL_HEALTH_INSURANCE_NUMBER"; $"ORGANIZATION";
   $"PASSPORT_EXPIRATION_DATE"; $"PERSON"; $"POSTAL_CODE"; $"REGISTRATION_NUMBER";
   $"RESERVATION_NUMBER"; $"SALARY"; $"SERIAL_NUMBER"; $"SOCIAL_SECURITY_NUMBER";
   $"STUDENT_ID_NUMBER"; $"TAX_IDENTIFICATION_NUMBER"; $"TRAIN_TICKET_NUMBER";
   $"TRANSACTION_NUMBER"; $"USERNAME"; $"VEHICLE_REGISTRATION_NUMBER"; $"VISA_NUMBER";
   $"DATE_TIME"; $"IBAN_CODE"; $"US_DRIVER_LICENSE"; $"US_SSN"; $"AZURE_KEY"; $"GCP_KEY";
   $"GPE"; $"LOCATION"; $"MEDICAL_LICENSE"].

Section counts.
  Context `{CaseMap}.

Definition canonicalize (class : str) : str :=
  default OTHER (List.find (fun known => bool_decide (known = to_uppercase class)) CANONICAL_CLASSES).

(** [*counts.entry(class).or_default() += 1] on a [BTreeMap], kept as its
    ordered list of entries. *)
Fixpoint btree_incr (k : str) (m : list (str * N)) : list (str * N) :=
  match m with
  | [] => [(k, u32_succ 0)]
  | (k', v) :: m' =>
      if decide (k = k') then (k', u32_succ v) :: m'
      else if str_ltb k k' then (k, u32_succ 0) :: m
      else (k', v) :: btree_incr k m'
  end.

Definition per_class_step (acc : gset (str * str) * list (str * N)) (d : Detection)
    : gset (str * str) * list (str * N) :=
  let '(seen, counts) := acc in
  let class := canonicalize (class d) in
  if decide ((class, value d) ∈ seen) then acc
  else ({[ (class, value d) ]} ∪ seen, btree_incr class counts).

Definition per_class (ds : list Detection) : list (str * N) := (foldl per_class_step (∅, []) ds).2.

(** ** Request events *)

Inductive RedactedPrompt : Type := Redacted (text : str) | CoverageLost.

Record RequestEvent : Type := {
  rq_request_id : RequestId;
  rq_workspace_id : WorkspaceId;
  rq_provider : str;
  rq_model : str;
  rq_final_action : str;
  rq_usage : TokenUsage;
  rq_estimated_usage : bool;
  rq_cost_usd : f64;
  rq_policy_events : list PolicyEvent;
  rq_latency_ms : option N;
  rq_ttft_ms : option N;
  rq_user_id : option Uuid;
  rq_api_key_id : option Uuid;
  rq_api_key_name : option str;
  rq_ip_address : option str;
  rq_user_agent : option str;
  rq_redacted_prompt : option str;
  rq_redacted_response : option str;
  rq_captured : option CapturedContent;
  rq_floor_only : bool;
  rq_engines : DetectionEngines;
  rq_model_registered : bool;
  rq_detection_counts : list (str * N);
}.

Definition event_new (request_id : RequestId) (workspace_id : WorkspaceId)
    (provider model final_action : str) (usage : TokenUsage) (estimated_usage : bool)
    (cost_usd : f64) (policy_events : list PolicyEvent) : RequestEvent := {|
  rq_request_id := request_id; rq_workspace_id := workspace_id; rq_provider := provider;
  rq_model := model; rq_final_action := final_action; rq_usage := usage;
  rq_estimated_usage := estimated_usage; rq_cost_usd := cost_usd; rq_policy_events := policy_events;
  rq_latency_ms := None; rq_ttft_ms := None; rq_user_id := None; rq_api_key_id := None;
  rq_api_key_name := None; rq_ip_address := None; rq_user_agent := None;
  rq_redacted_prompt := None; rq_redacted_response := None; rq_captured := None;
  rq_floor_only := false; rq_engines := FloorOnly; rq_model_registered := false;
  rq_detection_counts := [];
|}.

(** The public fields the request paths assign after construction. *)
Definition set_context (latency_ms ttft_ms : option N) (user_id api_key_id : option Uuid)
    (api_key_name ip_address user_agent : option str) (floor_only : bool)
    (engines : DetectionEngines) (model_registered : bool) (e : RequestEvent) : RequestEvent := {|
  rq_request_id := rq_request_id e; rq_workspace_id := rq_workspace_id e;
  rq_provider := rq_provider e; rq_model := rq_model e; rq_final_action := rq_final_action e;
  rq_usage := rq_usage e; rq_estimated_usage := rq_estimated_usage e;
  rq_cost_usd := rq_cost_usd e; rq_policy_events := rq_policy_events e;
  rq_latency_ms := latency_ms; rq_ttft_ms := ttft_ms; rq_user_id := user_id;
  rq_api_key_id := api_key_id; rq_api_key_name := api_key_name; rq_ip_address := ip_address;
  rq_user_agent := user_agent; rq_redacted_prompt := rq_redacted_prompt e;
  rq_redacted_response := rq_redacted_response e; rq_captured := rq_captured e;
  rq_floor_only := floor_only; rq_engines := engines; rq_model_registered := model_registered;
  rq_detection_counts := rq_detection_counts e;
|}.

Definition record_detections (ds : list Detection) (e : RequestEvent) : RequestEvent := {|
  rq_request_id := rq_request_id e; rq_workspace_id := rq_workspace_id e;
  rq_provider := rq_provider e; rq_model := rq_model e; rq_final_action := rq_final_action e;
  rq_usage := rq_usage e; rq_estimated_usage := rq_estimated_usage e;
  rq_cost_usd := rq_cost_usd e; rq_policy_events := rq_policy_events e;
  rq_latency_ms := rq_latency_ms e; rq_ttft_ms := rq_ttft_ms e; rq_user_id := rq_user_id e;
  rq_api_key_id := rq_api_key_id e; rq_api_key_name := rq_api_key_name e;
  rq_ip_address := rq_ip_address e; rq_user_agent := rq_user_agent e;
  rq_redacted_prompt := rq_redacted_prompt e; rq_redacted_response := rq_redacted_response e;
  rq_captured := rq_captured e; rq_floor_only := rq_floor_only e; rq_engines := rq_engines e;
  rq_model_registered := rq_model_registered e; rq_detection_counts := per_class ds;
|}.

End counts.

Definition capture_content (decision : CaptureDecision) (kms : KmsEncrypt)
    (raw_prompt raw_response restored_response : option str) (e : RequestEvent) : RequestEvent := {|
  rq_request_id := rq_request_id e; rq_workspace_id := rq_workspace_id e;
  rq_provider := rq_provider e; rq_model := rq_model e; rq_final_action := rq_final_action e;
  rq_usage := rq_usage e; rq_estimated_usage := rq_estimated_usage e;
  rq_cost_usd := rq_cost_usd e; rq_policy_events := rq_policy_events e;
  rq_latency_ms := rq_latency_ms e; rq_ttft_ms := rq_ttft_ms e; rq_user_id := rq_user_id e;
  rq_api_key_id := rq_api_key_id e; rq_api_key_name := rq_api_key_name e;
  rq_ip_address := rq_ip_address e; rq_user_agent := rq_user_agent e;
  rq_redacted_prompt := rq_redacted_prompt e; rq_redacted_response := rq_redacted_response e;
  rq_captured := seal decision kms raw_prompt raw_response restored_response;
  rq_floor_only := rq_floor_only e; rq_engines := rq_engines e;
  rq_model_registered := rq_model_registered e; rq_detection_counts := rq_detection_counts e;
|}.

Definition record_prompt (p : RedactedPrompt) (e : RequestEvent) : RequestEvent := {|
  rq_request_id := rq_request_id e; rq_workspace_id := rq_workspace_id e;
  rq_provider := rq_provider e; rq_model := rq_model e; rq_final_action := rq_final_action e;
  rq_usage := rq_usage e; rq_estimated_usage := rq_estimated_usage e;
  rq_cost_usd := rq_cost_usd e; rq_policy_events := rq_policy_events e;
  rq_latency_ms := rq_latency_ms e; rq_ttft_ms := rq_ttft_ms e; rq_user_id := rq_user_id e;
  rq_api_key_id := rq_api_key_id e; rq_api_key_name := rq_api_key_name e;
  rq_ip_address := rq_ip_address e; rq_user_agent := rq_user_agent e;
  rq_redacted_prompt := match p with Redacted text => Some text | CoverageLost => None end;
  rq_redacted_response := rq_redacted_response e; rq_captured := rq_captured e;
  rq_floor_only := rq_floor_only e; rq_engines := rq_engines e;
  rq_model_registered := rq_model_registered e; rq_detection_counts := rq_detection_counts e;
|}.

Definition record_response (p : RedactedPrompt) (e : RequestEvent) : RequestEvent := {|
  rq_request_id := rq_request_id e; rq_workspace_id := rq_workspace_id e;
  rq_provider := rq_provider e; rq_model := rq_model e; rq_final_action := rq_final_action e;
  rq_usage := rq_usage e; rq_estimated_usage := rq_estimated_usage e;
  rq_cost_usd := rq_cost_usd e; rq_policy_events := rq_policy_events e;
  rq_latency_ms := rq_latency_ms e; rq_ttft_ms := rq_ttft_ms e; rq_user_id := rq_user_id e;
  rq_api_key_id := rq_api_key_id e; rq_api_key_name := rq_api_key_name e;
  rq_ip_address := rq_ip_address e; rq_user_agent := rq_user_agent e;
  rq_redacted_prompt := rq_redacted_prompt e;
  rq_redacted_response := match p with Redacted (c :: t) => Some (c :: t) | _ => None end;
  rq_captured := rq_captured e; rq_floor_only := rq_floor_only e; rq_engines := rq_engines e;
  rq_model_registered := rq_model_registered e; rq_detection_counts := rq_detection_counts e;
|}.

(** ** Warehouse rows

    Instants are seconds since the epoch. *)

Record RequestEventRow : Type := {
  rr_request_id : Uuid; rr_workspace_id : Uuid; rr_provider : str; rr_model : str;
  rr_final_action : str; rr_usage : TokenUsage; rr_estimated_usage : bool; rr_cost_usd : f64;
  rr_created_at : Z; rr_user_id : option Uuid; rr_api_key_id : option Uuid;
  rr_api_key_name : option str; rr_ip_address : option str; rr_user_agent : option str;
  rr_redacted_prompt : option str; rr_restored_response : option str; rr_raw_prompt : option str;
  rr_raw_response : option str; rr_floor_only : bool; rr_engines : list str;
  rr_redacted_response : option str;
}.

Definition RequestEventRow_from_event (e : RequestEvent) (created_at : Z) : RequestEventRow := {|
  rr_request_id := rq_request_id e; rr_workspace_id := rq_workspace_id e;
  rr_provider := rq_provider e; rr_model := rq_model e; rr_final_action := rq_final_action e;
  rr_usage := rq_usage e; rr_estimated_usage := rq_estimated_usage e; rr_cost_usd := rq_cost_usd e;
  rr_created_at := created_at; rr_user_id := rq_user_id e; rr_api_key_id := rq_api_key_id e;
  rr_api_key_name := rq_api_key_name e; rr_ip_address := rq_ip_address e;
  rr_user_agent := rq_user_agent e; rr_redacted_prompt := rq_redacted_prompt e;
  rr_restored_response := None; rr_raw_prompt := None; rr_raw_response := None;
  rr_floor_only := rq_floor_only e; rr_engines := engines_as_slice (rq_engines e);
  rr_redacted_response := rq_redacted_response e;
|}.

Record RequestContentCaptureRow : Type := {
  cr_request_id : Uuid; cr_workspace_id : Uuid; cr_created_at : Z; cr_expires_at : Z;
  cr_encrypted : bool; cr_raw_prompt : option str; cr_raw_response : option str;
  cr_restored_response : option str;
}.

(** [Duration::try_days] on an [i32] number of days never overflows. *)
Definition RequestContentCaptureRow_from_event (e : RequestEvent) (created_at : Z)
    : option RequestContentCaptureRow :=
  captured ← rq_captured e;
  Some {|
    cr_request_id := rq_request_id e; cr_workspace_id := rq_workspace_id e;
    cr_created_at := created_at;
    cr_expires_at := created_at + cc_retention_days captured * 86400;
    cr_encrypted := cc_encrypted captured; cr_raw_prompt := cc_raw_prompt captured;
    cr_raw_response := cc_raw_response captured;
    cr_restored_response := cc_restored_response captured;
  |}%Z.

Record DetectionClassCountRow : Type := {
  dc_request_id : Uuid; dc_workspace_id : Uuid; dc_created_at : Z; dc_model : str;
  dc_user_id : option Uuid; dc_api_key_name : option str; dc_entity_class : str;
  dc_entity_count : N;
}.

Definition DetectionClassCountRow_from_event (e : RequestEvent) (created_at : Z)
    : list DetectionClassCountRow :=
  (fun '(class, count) => {|
     dc_request_id := rq_request_id e; dc_workspace_id := rq_workspace_id e;
     dc_created_at := created_at;
     dc_model := canonicalize_model (rq_model e) (rq_model_registered e);
     dc_user_id := rq_user_id e; dc_api_key_name := rq_api_key_name e;
     dc_entity_class := class; dc_entity_count := count |}) <$> rq_detection_counts e.

Record PolicyEventRow : Type := {
  pr_request_id : Uuid; pr_workspace_id : Uuid; pr_rule_id : Uuid; pr_rule_name : str;
  pr_action : str; pr_dry_run : bool; pr_created_at : Z;
}.

Definition from_policy_event (pe : PolicyEvent) (request_id workspace_id : Uuid) (created_at : Z)
    : PolicyEventRow := {|
  pr_request_id := request_id; pr_workspace_id := workspace_id; pr_rule_id := rule_id pe;
  pr_rule_name := rule_name pe; pr_action := pe_action pe; pr_dry_run := pe_dry_run pe;
  pr_created_at := created_at;
|}.

Record LatencySampleRow : Type := {
  ls_request_id : Uuid; ls_workspace_id : Uuid; ls_model : str; ls_latency_ms : N;
  ls_created_at : Z; ls_ttft_ms : option N;
}.

Record TokenUsageRow : Type := {
  tu_workspace_id : Uuid; tu_model : str; tu_date : Z; tu_input_tokens : N; tu_output_tokens : N;
  tu_cost_usd : f64;
}.

Definition TokenUsageRow_from_event (e : RequestEvent) (date : Z) : TokenUsageRow := {|
  tu_workspace_id := rq_workspace_id e; tu_model := rq_model e; tu_date := date;
  tu_input_tokens := default 0%N (input_tokens (rq_usage e));
  tu_output_tokens := default 0%N (output_tokens (rq_usage e));
  tu_cost_usd := rq_cost_usd e;
|}.

(** ** The consumer loop *)

Inductive Row : Type :=
  | RowRequest (r : RequestEventRow)
  | RowCapture (r : RequestContentCaptureRow)
  | RowCount (r : DetectionClassCountRow)
  | RowPolicy (r : PolicyEventRow)
  | RowLatency (r : LatencySampleRow)
  | RowTokens (r : TokenUsageRow).

Inductive WriteResult : Type := Written | SchemaMismatch | WriteError.

(** [w_calls] numbers the inserter calls; [w_rows] are the rows the inserters
    accepted, oldest first. *)
Record WriterState : Type := {
  w_calls : nat; w_rows : list Row; w_consumed : N; w_insert_failures : N; w_retries : N;
  w_abandoned : N; w_schema_mismatch : bool;
}.

Definition writer_init : WriterState := {|
  w_calls := 0; w_rows := []; w_consumed := 0; w_insert_failures := 0; w_retries := 0;
  w_abandoned := 0; w_schema_mismatch := false;
|}.

Section writer.
  (** The server's answer to each call, in order. *)
  Variable server : nat -> WriteResult.

Definition write_row (r : Row) (w : WriterState) : WriteResult * WriterState :=
  let res := server (w_calls w) in
  (res, {| w_calls := S (w_calls w);
           w_rows := match res with Written => w_rows w ++ [r] | _ => w_rows w end;
           w_consumed := w_consumed w; w_insert_failures := w_insert_failures w;
           w_retries := w_retries w; w_abandoned := w_abandoned w;
           w_schema_mismatch := w_schema_mismatch w |}).

Definition insert_failure (w : WriterState) : WriterState := {|
  w_calls := w_calls w; w_rows := w_rows w; w_consumed := w_consumed w;
  w_insert_failures := (w_insert_failures w + 1)%N; w_retries := w_retries w;
  w_abandoned := w_abandoned w; w_schema_mismatch := w_schema_mismatch w;
|}.

Definition set_mismatch (b : bool) (w : WriterState) : WriterState := {|
  w_calls := w_calls w; w_rows := w_rows w; w_consumed := w_consumed w;
  w_insert_failures := w_insert_failures w; w_retries := w_retries w;
  w_abandoned := w_abandoned w; w_schema_mismatch := b;
|}.

Definition count_retry (w : WriterState) : WriterState := {|
  w_calls := w_calls w; w_rows := w_rows w; w_consumed := w_consumed w;
  w_insert_failures := w_insert_failures w; w_retries := (w_retries w + 1)%N;
  w_abandoned := w_abandoned w; w_schema_mismatch := w_schema_mismatch w;
|}.

Definition count_abandoned (w : WriterState) : WriterState := {|
  w_calls := w_calls w; w_rows := w_rows w; w_consumed := w_consumed w;
  w_insert_failures := w_insert_failures w; w_retries := w_retries w;
  w_abandoned := (w_abandoned w + 1)%N; w_schema_mismatch := w_schema_mismatch w;
|}.

Definition count_consumed (w : WriterState) : WriterState := {|
  w_calls := w_calls w; w_rows := w_rows w; w_consumed := (w_consumed w + 1)%N;
  w_insert_failures := w_insert_failures w; w_retries := w_retries w;
  w_abandoned := w_abandoned w; w_schema_mismatch := w_schema_mismatch w;
|}.

(** A best-effort row: a failure is counted and the loop goes on. *)
Definition write_or_count (w : WriterState) (r : Row) : WriterState :=
  let '(res, w') := write_row r w in
  match res with Written => w' | _ => insert_failure w' end.

Definition commit (w : WriterState) : WriterState :=
  let w' := {| w_calls := S (w_calls w); w_rows := w_rows w; w_consumed := w_consumed w;
               w_insert_failures := w_insert_failures w; w_retries := w_retries w;
               w_abandoned := w_abandoned w; w_schema_mismatch := w_schema_mismatch w |} in
  match server (w_calls w) with Written => w' | _ => insert_failure w' end.

(** [true] when the request row was accepted, on the first or second try. *)
Definition write_request_row (r : Row) (w : WriterState) : bool * WriterState :=
  let '(res, w1) := write_row r w in
  match res with
  | Written => (true, set_mismatch false w1)
  | _ =>
      let w2 := match res with SchemaMismatch => set_mismatch true w1 | _ => w1 end in
      let '(res2, w3) := write_row r (count_retry w2) in
      match res2 with
      | Written => (true, set_mismatch false w3)
      | _ => (false, count_abandoned (insert_failure w3))
      end
  end.

(** One turn of [while let Some(event) = receiver.recv().await]. *)
Definition consume (now : Z) (w : WriterState) (e : RequestEvent) : WriterState :=
  let '(accepted, w1) :=
    write_request_row (RowRequest (RequestEventRow_from_event e now)) (count_consumed w) in
  if negb accepted then w1
  else
    let w2 := match RequestContentCaptureRow_from_event e now with
              | Some cap_row => write_or_count w1 (RowCapture cap_row)
              | None => w1
              end in
    let w3 := foldl write_or_count w2 (RowCount <$> DetectionClassCountRow_from_event e now) in
    let w4 := foldl write_or_count w3
      ((fun pe => RowPolicy (from_policy_event pe (rq_request_id e) (rq_workspace_id e) now))
         <$> rq_policy_events e) in
    let w5 := match rq_latency_ms e with
              | Some latency_ms => write_or_count w4 (RowLatency {|
                  ls_request_id := rq_request_id e; ls_workspace_id := rq_workspace_id e;
                  ls_model := rq_model e; ls_latency_ms := latency_ms; ls_created_at := now;
                  ls_ttft_ms := rq_ttft_ms e |})
              | None => w4
              end in
    let w6 := write_or_count w5 (RowTokens (TokenUsageRow_from_event e (now / 86400)%Z)) in
    commit (commit (commit (commit (commit (commit w6))))).

End writer.

(** [AnalyticsHandle::enqueue]: [try_send] on the bounded channel. *)
Definition CHANNEL_CAPACITY : nat := 256.

Definition enqueue (queue : list RequestEvent) (drops : N) (e : RequestEvent)
    : list RequestEvent * N :=
  if length queue <? CHANNEL_CAPACITY then (queue ++ [e], drops) else (queue, drops + 1)%N.
