(* ===== verification/AnalyticsSpec.v ===== *)
(** * Properties of the analytics path

    What the capture gate lets through, what the per-class counts say, and
    which rows the consumer can write whatever the warehouse answers. *)

From S2P Require Import Prelude Rstr Json Types Sidecar Analytics.

(** ** The capture gate *)

(** [stored] is what may be kept of [plain]: nothing for no content, and
    otherwise what the KMS returned for exactly that content. *)
Definition sealed_as (kms : KmsEncrypt) (plain stored : option str) : Prop :=
  match plain with
  | None | Some [] => stored = None
  | Some v => exists n x, kms n v = Some x /\ stored = Some x
  end.

Lemma seal_field_spec kms n v :
  match seal_field kms n v with
  | (Ok stored, _) => sealed_as kms v stored
  | (Err _, _) => exists p, v = Some p /\ (kms n p = None \/ exists x, kms n p = Some x /\ utf8_valid x = false)
  | (Panic, _) => False
  end.
Proof.
  unfold seal_field, sealed_as. destruct v as [[|c v]|]; [done| |done].
  destruct (kms n (c :: v)) as [x|] eqn:E; [|eauto].
  destruct (utf8_valid x) eqn:Eu; [eauto|]. eauto 6.
Qed.

Lemma seal_sound decision kms rp rr rs c :
  seal decision kms rp rr rs = Some c ->
  cd_enabled decision = true /\ cc_encrypted c = true /\
  cc_retention_days c = cd_retention_days decision /\
  sealed_as kms rp (cc_raw_prompt c) /\ sealed_as kms rr (cc_raw_response c) /\
  sealed_as kms rs (cc_restored_response c).
Proof.
  unfold seal. destruct (cd_enabled decision); [|done]. simpl. case_match; [done|].
  pose proof (seal_field_spec kms 0 rp) as H1. destruct (seal_field kms 0 rp) as [[|?|] n1]; try done.
  pose proof (seal_field_spec kms n1 rr) as H2. destruct (seal_field kms n1 rr) as [[|?|] n2]; try done.
  pose proof (seal_field_spec kms n2 rs) as H3. destruct (seal_field kms n2 rs) as [[|?|] n3]; try done.
  case_match; [done|]. intros [= <-]. done.
Qed.

(** Raw content leaves the process only encrypted and only on an explicit
    opt-in: a sealed capture exists only if the workspace enabled capture,
    every stored field is the KMS's own output for the corresponding raw text
    (an absent or empty text stores nothing), the row is flagged encrypted and
    carries the workspace's retention. *)
Theorem seal_only_ciphertext decision kms rp rr rs c :
  seal decision kms rp rr rs = Some c ->
  cd_enabled decision = true /\ cc_encrypted c = true /\
  cc_retention_days c = cd_retention_days decision /\
  sealed_as kms rp (cc_raw_prompt c) /\ sealed_as kms rr (cc_raw_response c) /\
  sealed_as kms rs (cc_restored_response c).
Proof. apply seal_sound. Qed.

(** A toy cipher: the text backwards. *)
Definition reversing_kms (n : nat) (v : str) : option str := Some (reverse v).

Definition opted_in : CaptureDecision := {| cd_enabled := true; cd_retention_days := 30 |}.

Lemma seal_only_ciphertext_witness :
  exists c, seal opted_in reversing_kms (Some $"hello") (Some $"") None = Some c /\
    sealed_as reversing_kms (Some $"hello") (cc_raw_prompt c).
Proof.
  destruct (seal opted_in reversing_kms (Some $"hello") (Some $"") None) as [c|] eqn:E; [|vm_compute in E; discriminate].
  exists c. split; [reflexivity|].
  apply (seal_only_ciphertext opted_in reversing_kms _ (Some $"") None c E).
Defined.

(** A KMS failure never degrades to plaintext: if the KMS refuses (or
    answers bytes that are not UTF-8 for) every call on one of the three
    non-empty texts, nothing at all is kept of the request. *)
Theorem seal_kms_failure_drops decision kms rp rr rs v :
  v <> [] -> rp = Some v \/ rr = Some v \/ rs = Some v ->
  (forall n, match kms n v with Some x => utf8_valid x = false | None => True end) ->
  seal decision kms rp rr rs = None.
Proof.
  intros Hv Hin Hk.
  assert (forall n, (seal_field kms n (Some v)).1 = Err tt) as Hf.
  { intros n. unfold seal_field. destruct v as [|a v]; [done|]. specialize (Hk n).
    destruct (kms n (a :: v)); simpl; [by rewrite Hk|done]. }
  unfold seal. destruct (cd_enabled decision); [|done]. simpl. case_match; [done|].
  destruct Hin as [-> | [-> | ->]].
  - specialize (Hf 0). by destruct (seal_field kms 0 (Some v)) as [[] ?].
  - destruct (seal_field kms 0 rp) as [[] n1]; try done.
    specialize (Hf n1). by destruct (seal_field kms n1 (Some v)) as [[] ?].
  - destruct (seal_field kms 0 rp) as [[] n1]; try done.
    destruct (seal_field kms n1 rr) as [[] n2]; try done.
    specialize (Hf n2). by destruct (seal_field kms n2 (Some v)) as [[] ?].
Qed.

Lemma seal_kms_failure_drops_witness :
  seal opted_in (fun n v => if n =? 0 then Some v else None) (Some $"question") (Some $"answer") None = None /\
  seal opted_in (fun _ _ => None) (Some $"question") (Some $"answer") None = None.
Proof.
  split; [reflexivity|]. apply (seal_kms_failure_drops _ _ _ _ _ $"question").
  - discriminate.
  - left. reflexivity.
  - intros n. exact I.
Defined.

(** ** Counts *)

Definition btree_get (k : str) (m : list (str * N)) : option N :=
  snd <$> List.find (fun kv => bool_decide (kv.1 = k)) m.

Definition keys_sorted (m : list (str * N)) : Prop :=
  StronglySorted (fun a b => str_ltb a b = true) m.*1.

Lemma btree_get_cons k k' v m :
  btree_get k ((k', v) :: m) = if decide (k' = k) then Some v else btree_get k m.
Proof.
  unfold btree_get. simpl. destruct (decide (k' = k)).
  - by rewrite bool_decide_true.
  - by rewrite bool_decide_false.
Qed.

Lemma btree_get_None k m : k ∉ m.*1 -> btree_get k m = None.
Proof.
  induction m as [|[k' v] m IH]; [done|]. simpl. intros [? ?]%not_elem_of_cons.
  rewrite btree_get_cons, decide_False by done. by apply IH.
Qed.

Lemma btree_incr_keys k m x : x ∈ (btree_incr k m).*1 <-> x = k \/ x ∈ m.*1.
Proof.
  induction m as [|[k' v] m IH]; simpl; [set_solver|].
  destruct (decide (k = k')) as [->|]; [set_solver|]. destruct (str_ltb k k'); [set_solver|].
  simpl. rewrite !elem_of_cons, IH. set_solver.
Qed.

Lemma btree_incr_sorted k m : keys_sorted m -> keys_sorted (btree_incr k m).
Proof.
  unfold keys_sorted. induction m as [|[k' v] m IH]; simpl; [repeat constructor|].
  intros Hs. inversion Hs as [|? ? Hs' Hall]; subst.
  destruct (decide (k = k')) as [->|Hne]; [done|].
  destruct (str_ltb k k') eqn:E; simpl.
  - constructor; [done|]. constructor; [done|]. eapply Forall_impl; [exact Hall|].
    intros z Hz. by eapply str_ltb_trans.
  - constructor; [by apply IH|]. apply Forall_forall. intros x [->|Hx]%btree_incr_keys.
    + destruct (str_ltb_total k k') as [?|[?|?]]; congruence.
    + rewrite Forall_forall in Hall. by apply Hall.
Qed.

Lemma btree_get_incr k m k0 :
  keys_sorted m ->
  btree_get k0 (btree_incr k m) =
  if decide (k = k0) then Some (u32_succ (default 0%N (btree_get k0 m))) else btree_get k0 m.
Proof.
  unfold keys_sorted. induction m as [|[k' v] m IH]; simpl.
  - intros _. by rewrite btree_get_cons.
  - intros Hs. inversion Hs as [|? ? Hs' Hall]; subst.
    destruct (decide (k = k')) as [->|Hne].
    { rewrite !btree_get_cons. by destruct (decide (k' = k0)). }
    destruct (str_ltb k k') eqn:E.
    + rewrite !btree_get_cons. destruct (decide (k = k0)) as [->|]; [|done].
      rewrite decide_False by congruence. rewrite btree_get_None; [done|].
      intros Hin. rewrite Forall_forall in Hall. specialize (Hall _ Hin).
      pose proof (str_ltb_trans _ _ _ E Hall) as Ht. by rewrite str_ltb_irrefl in Ht.
    + rewrite !btree_get_cons, IH by done.
      destruct (decide (k' = k0)) as [->|]; [by rewrite decide_False|done].
Qed.

Section counts.
Context `{CaseMap}.

(** Distinct values among the detections of canonical class [k]. *)
Definition distinct (k : str) (ds : list Detection) : gset str :=
  list_to_set (value <$> filter (fun d => canonicalize (class d) = k) ds).

Lemma elem_of_distinct k ds v :
  v ∈ distinct k ds <-> exists d, d ∈ ds /\ canonicalize (class d) = k /\ value d = v.
Proof.
  unfold distinct. rewrite elem_of_list_to_set, list_elem_of_fmap.
  setoid_rewrite list_elem_of_filter. naive_solver.
Qed.

Lemma distinct_snoc k ds d :
  distinct k (ds ++ [d]) =
  if decide (canonicalize (class d) = k) then distinct k ds ∪ {[ value d ]} else distinct k ds.
Proof.
  unfold distinct. rewrite filter_app, filter_cons, filter_nil, fmap_app, list_to_set_app_L.
  case_decide; simpl; set_solver.
Qed.

Lemma distinct_size_snoc k ds d :
  size (distinct k (ds ++ [d])) =
  if decide (canonicalize (class d) = k /\ value d ∉ distinct k ds)
  then S (size (distinct k ds)) else size (distinct k ds).
Proof.
  rewrite distinct_snoc. destruct (decide (canonicalize (class d) = k)) as [E|E].
  - destruct (decide (value d ∈ distinct k ds)) as [Hin|Hin].
    + rewrite decide_False by naive_solver. f_equal. set_solver.
    + rewrite decide_True by done. rewrite size_union by set_solver. rewrite size_singleton. lia.
  - by rewrite decide_False by naive_solver.
Qed.

Lemma distinct_size_le k ds : size (distinct k ds) <= length ds.
Proof.
  induction ds as [|d ds IH] using rev_ind; [done|].
  rewrite distinct_size_snoc, length_app. simpl. case_decide; lia.
Qed.

Lemma canonicalize_vocab c : canonicalize c ∈ OTHER :: CANONICAL_CLASSES.
Proof.
  unfold canonicalize. destruct (List.find _ CANONICAL_CLASSES) as [x|] eqn:E; simpl; [|left].
  right. apply List.find_some in E as [Hin _]. by apply list_elem_of_In.
Qed.

Lemma per_class_keys ds k : k ∈ (per_class ds).*1 -> k ∈ OTHER :: CANONICAL_CLASSES.
Proof.
  unfold per_class. revert k. induction ds as [|d ds IH] using rev_ind; intros k; [set_solver|].
  rewrite foldl_app. simpl. destruct (foldl per_class_step (∅, []) ds) as [seen counts].
  unfold per_class_step. case_decide; [apply IH|]. simpl. rewrite btree_incr_keys.
  intros [->|Hk]; [apply canonicalize_vocab|by apply IH].
Qed.

(** The state of the fold after [ds]. *)
Lemma per_class_fold ds :
  (N.of_nat (length ds) < 2 ^ 32)%N ->
  let '(seen, counts) := foldl per_class_step (∅, []) ds in
  (forall k v, (k, v) ∈ seen <-> v ∈ distinct k ds) /\
  keys_sorted counts /\
  (forall k, k ∈ counts.*1 -> k ∈ OTHER :: CANONICAL_CLASSES) /\
  (forall k, btree_get k counts =
     match size (distinct k ds) with 0 => None | n => Some (N.of_nat n) end).
Proof.
  induction ds as [|d ds IH] using rev_ind; intros Hlen.
  { simpl. split; [set_solver|]. split; [constructor|]. split; [set_solver|done]. }
  rewrite length_app in Hlen. simpl in Hlen. specialize (IH ltac:(lia)).
  rewrite foldl_app. simpl. destruct (foldl per_class_step (∅, []) ds) as [seen counts].
  destruct IH as (Hseen & Hsort & Hvoc & Hget). unfold per_class_step.
  set (c := canonicalize (class d)).
  destruct (decide ((c, value d) ∈ seen)) as [Hin|Hin].
  - pose proof (proj1 (Hseen _ _) Hin) as Hd. split; [|split; [done|split; [done|]]].
    + intros k v. rewrite Hseen, distinct_snoc. case_decide; [subst k|done]. fold c. set_solver.
    + intros k. rewrite Hget, distinct_size_snoc, decide_False; [done|]. intros [<- Hn]. done.
  - assert (value d ∉ distinct c ds) as Hd by (by rewrite <- Hseen).
    split; [|split; [by apply btree_incr_sorted|split]].
    + intros k v. rewrite elem_of_union, elem_of_singleton, Hseen, distinct_snoc. fold c.
      case_decide; [subst k|]; set_solver.
    + intros k. rewrite btree_incr_keys. intros [->|Hk]; [apply canonicalize_vocab|by apply Hvoc].
    + intros k. rewrite btree_get_incr by done. rewrite distinct_size_snoc. fold c.
      destruct (decide (c = k)) as [<-|Hne].
      * rewrite decide_True by done. rewrite Hget. pose proof (distinct_size_le c ds).
        destruct (size (distinct c ds)) as [|n]; simpl; [done|].
        rewrite u32_succ_small by lia. f_equal. lia.
      * rewrite decide_False by naive_solver. apply Hget.
Qed.

(** The leak report's source counts entities, not matches, and only in
    the binary's own vocabulary: for every canonical class the recorded
    count is the number of distinct values detected with that class (no
    entry when there is none), entries are in strictly increasing key order,
    and no key is a string chosen by the sidecar. *)
Theorem per_class_counts ds :
  (N.of_nat (length ds) < 2 ^ 32)%N ->
  keys_sorted (per_class ds) /\
  (forall k, k ∈ (per_class ds).*1 -> k ∈ OTHER :: CANONICAL_CLASSES) /\
  (forall k, btree_get k (per_class ds) =
     match size (distinct k ds) with 0 => None | n => Some (N.of_nat n) end).
Proof.
  intros Hlen. pose proof (per_class_fold ds Hlen) as Hf. unfold per_class.
  destruct (foldl per_class_step (∅, []) ds) as [seen counts]. tauto.
Qed.
End counts.

Definition cls_det (c v : str) : Detection :=
  {| class := c; confidence := SpecFloat.S754_zero false; span := None; value := v |}.

Definition sample_dets : list Detection :=
  [cls_det $"person" $"Anna"; cls_det $"PERSON" $"Anna"; cls_det $"PERSON" $"Boris";
   cls_det $"Anna lives here" $"x"].

Lemma per_class_counts_witness :
  keys_sorted (@per_class ascii_case_map sample_dets) /\
  @per_class ascii_case_map sample_dets = [($"PERSON", 2%N); ($"other", 1%N)].
Proof.
  split; [|vm_compute; reflexivity].
  apply (@per_class_counts ascii_case_map sample_dets). vm_compute. reflexivity.
Defined.

(** ** The consumer loop *)

Lemma Forall_sublist {A} (P : A -> Prop) l1 l2 : l1 `sublist_of` l2 -> Forall P l2 -> Forall P l1.
Proof. induction 1; [done| |]; inversion 1; subst; auto. Qed.

(** The rows one event stands for, in the order they are sent: the request
    row and the others. *)
Definition other_rows (now : Z) (e : RequestEvent) : list Row :=
  (match RequestContentCaptureRow_from_event e now with Some r => [RowCapture r] | None => [] end)
  ++ (RowCount <$> DetectionClassCountRow_from_event e now)
  ++ ((fun pe => RowPolicy (from_policy_event pe (rq_request_id e) (rq_workspace_id e) now))
        <$> rq_policy_events e)
  ++ (match rq_latency_ms e with
      | Some l => [RowLatency {| ls_request_id := rq_request_id e; ls_workspace_id := rq_workspace_id e;
                                 ls_model := rq_model e; ls_latency_ms := l; ls_created_at := now;
                                 ls_ttft_ms := rq_ttft_ms e |}]
      | None => []
      end)
  ++ [RowTokens (TokenUsageRow_from_event e (now / 86400)%Z)].

Definition event_rows (now : Z) (e : RequestEvent) : list Row :=
  RowRequest (RequestEventRow_from_event e now) :: other_rows now e.

Section writer.
Variable server : nat -> WriteResult.

Lemma write_or_count_rows w r :
  exists sub, w_rows (write_or_count server w r) = w_rows w ++ sub /\ sub `sublist_of` [r] /\
    w_abandoned (write_or_count server w r) = w_abandoned w /\
    ((forall n, server n = Written) -> sub = [r]).
Proof.
  unfold write_or_count, write_row. destruct (server (w_calls w)) eqn:E; simpl.
  - exists [r]. done.
  - exists []. rewrite app_nil_r. split; [done|]. split; [apply sublist_nil_l|]. split; [done|].
    intros Hs. by rewrite Hs in E.
  - exists []. rewrite app_nil_r. split; [done|]. split; [apply sublist_nil_l|]. split; [done|].
    intros Hs. by rewrite Hs in E.
Qed.

Lemma write_all_rows rs w :
  exists sub, w_rows (foldl (write_or_count server) w rs) = w_rows w ++ sub /\ sub `sublist_of` rs /\
    w_abandoned (foldl (write_or_count server) w rs) = w_abandoned w /\
    ((forall n, server n = Written) -> sub = rs).
Proof.
  revert w. induction rs as [|r rs IH]; intros w; simpl.
  { exists []. by rewrite app_nil_r. }
  destruct (write_or_count_rows w r) as (s1 & E1 & Hs1 & Ha1 & Hw1).
  destruct (IH (write_or_count server w r)) as (s2 & E2 & Hs2 & Ha2 & Hw2).
  exists (s1 ++ s2). rewrite E2, E1, app_assoc, Ha2, Ha1. split; [done|].
  split; [by apply (sublist_app s1 [r])|]. split; [done|].
  intros Hs. by rewrite Hw1, Hw2.
Qed.

Lemma commit_rows w :
  w_rows (commit server w) = w_rows w /\ w_abandoned (commit server w) = w_abandoned w.
Proof. unfold commit. by case_match. Qed.

(** [consume] after the request row is one best-effort pass over the rest. *)
Lemma consume_tail now w e w1 :
  write_request_row server (RowRequest (RequestEventRow_from_event e now)) (count_consumed w) = (true, w1) ->
  exists w6, w6 = foldl (write_or_count server) w1 (other_rows now e) /\
    w_rows (consume server now w e) = w_rows w6 /\ w_abandoned (consume server now w e) = w_abandoned w6.
Proof.
  intros E. unfold consume. rewrite E. simpl. eexists. split; [reflexivity|].
  unfold other_rows. rewrite !foldl_app. simpl.
  destruct (RequestContentCaptureRow_from_event e now); destruct (rq_latency_ms e); simpl;
    rewrite !(proj1 (commit_rows _)), !(proj2 (commit_rows _)); done.
Qed.

Lemma write_request_row_cases r w :
  let '(ok, w1) := write_request_row server r w in
  (ok = true /\ w_rows w1 = w_rows w ++ [r] /\ w_abandoned w1 = w_abandoned w) \/
  (ok = false /\ w_rows w1 = w_rows w /\ w_abandoned w1 = (w_abandoned w + 1)%N /\
   exists n, server n <> Written).
Proof.
  unfold write_request_row, write_row.
  destruct (server (w_calls w)) eqn:E1; simpl; [by left| |];
    destruct (server (S (w_calls w))) eqn:E2; simpl; auto; right; repeat split; eexists; by rewrite E1.
Qed.

Lemma consume_cases now w e :
  exists sub, w_rows (consume server now w e) = w_rows w ++ sub /\
    ((sub = [] /\ w_abandoned (consume server now w e) = (w_abandoned w + 1)%N) \/
     (exists rest, sub = RowRequest (RequestEventRow_from_event e now) :: rest /\
        rest `sublist_of` other_rows now e /\
        w_abandoned (consume server now w e) = w_abandoned w)) /\
    ((forall n, server n = Written) -> sub = event_rows now e).
Proof.
  pose proof (write_request_row_cases (RowRequest (RequestEventRow_from_event e now)) (count_consumed w)) as Hc.
  destruct (write_request_row _ _ _) as [ok w1] eqn:E.
  destruct Hc as [(-> & Hr & Ha) | (-> & Hr & Ha & n & Hn)].
  - destruct (consume_tail now w e w1 E) as (w6 & -> & Hr6 & Ha6).
    destruct (write_all_rows (other_rows now e) w1) as (sub & Es & Hsub & Hab & Hall).
    exists (RowRequest (RequestEventRow_from_event e now) :: sub).
    rewrite Hr6, Es, Hr, <- app_assoc, Ha6, Hab, Ha. split; [done|]. split; [right; eauto|].
    intros Hs. by rewrite Hall.
  - exists []. unfold consume. rewrite E. simpl. rewrite app_nil_r, Hr, Ha. split; [done|].
    split; [by left|]. intros Hs. by rewrite Hs in Hn.
Qed.

(** One event leaves a well-formed trace in the warehouse whatever the
    server answers: either it is abandoned, counted as such and leaves no
    row at all, or its request row is accepted first and the other rows that
    are accepted are, in order, rows of this same event.  If the server
    accepts every call, exactly the event's rows are written. *)
Theorem consume_rows now w e :
  exists sub, w_rows (consume server now w e) = w_rows w ++ sub /\
    ((sub = [] /\ w_abandoned (consume server now w e) = (w_abandoned w + 1)%N) \/
     (exists rest, sub = RowRequest (RequestEventRow_from_event e now) :: rest /\
        rest `sublist_of` other_rows now e /\
        w_abandoned (consume server now w e) = w_abandoned w)) /\
    ((forall n, server n = Written) -> sub = event_rows now e).
Proof. exact (consume_cases now w e). Qed.

(** An event whose counts came through [record_detections]. *)
Definition counts_canonical (e : RequestEvent) : Prop :=
  forall k, k ∈ (rq_detection_counts e).*1 -> k ∈ OTHER :: CANONICAL_CLASSES.

(** What a warehouse row may contain, given the events seen. *)
Definition row_ok (es : list RequestEvent) (r : Row) : Prop :=
  match r with
  | RowRequest q => rr_raw_prompt q = None /\ rr_raw_response q = None /\ rr_restored_response q = None
  | RowCapture c => exists e k, e ∈ es /\ rq_captured e = Some k /\
      cr_raw_prompt c = cc_raw_prompt k /\ cr_raw_response c = cc_raw_response k /\
      cr_restored_response c = cc_restored_response k /\
      cr_expires_at c = (cr_created_at c + cc_retention_days k * 86400)%Z
  | RowCount c =>
      dc_entity_class c ∈ OTHER :: CANONICAL_CLASSES /\
      (dc_model c = UNREGISTERED_MODEL \/
       (slen (dc_model c) <= MAX_MODEL_LEN)%N /\
       exists e, e ∈ es /\ rq_model_registered e = true /\ dc_model c = rq_model e)
  | _ => True
  end.

Lemma canonicalize_model_cases m b :
  canonicalize_model m b = UNREGISTERED_MODEL \/
  (b = true /\ canonicalize_model m b = m /\ (slen m <= MAX_MODEL_LEN)%N).
Proof. unfold canonicalize_model. case_match eqn:E; [right|by left]. split_and!; [lia|done|lia]. Qed.

Lemma event_rows_ok es now e :
  e ∈ es -> counts_canonical e -> Forall (row_ok es) (event_rows now e).
Proof.
  intros He Hc. unfold event_rows, other_rows. rewrite Forall_cons, !Forall_app. split; [done|]. split.
  { destruct (rq_captured e) as [k|] eqn:E; unfold RequestContentCaptureRow_from_event; rewrite E; simpl; [|done].
    repeat constructor. exists e, k. done. }
  split.
  { rewrite Forall_fmap. apply Forall_forall. intros c Hin.
    apply list_elem_of_fmap in Hin as ([k n] & -> & Hin). simpl. split.
    - apply Hc, list_elem_of_fmap. by exists (k, n).
    - destruct (canonicalize_model_cases (rq_model e) (rq_model_registered e)) as [?|(? & -> & ?)];
        [by left|right; split; [done|by exists e]]. }
  split; [apply Forall_fmap, Forall_true; done|]. split; [case_match; repeat constructor|repeat constructor].
Qed.

(** The warehouse never receives raw text in the clear: whatever events
    the gateway enqueues and however the server behaves, every row written
    has empty raw-content columns in [request_events], a content-capture row
    only repeats what the gate sealed for one of the events (with its own
    retention), and a count row names only a class of the binary's list and
    either an administrator-registered model or the fixed bucket name. *)
Theorem warehouse_rows_ok (events : list (Z * RequestEvent)) :
  (forall e, e ∈ events.*2 -> counts_canonical e) ->
  Forall (row_ok events.*2)
    (w_rows (foldl (fun w ne => consume server ne.1 w ne.2) writer_init events)).
Proof.
  intros Hc. set (es := events.*2) in *.
  assert (forall l w, (forall e, e ∈ l.*2 -> e ∈ es) -> Forall (row_ok es) (w_rows w) ->
    Forall (row_ok es) (w_rows (foldl (fun w ne => consume server ne.1 w ne.2) w l))) as Hgen.
  { induction l as [|[now e] l IH]; intros w Hl Hw; simpl; [done|].
    apply IH; [intros e' He'; apply Hl; simpl; by right|].
    destruct (consume_cases now w e) as (sub & -> & Hsub & _). apply Forall_app. split; [done|].
    assert (e ∈ es) as He by (apply Hl; simpl; left).
    pose proof (event_rows_ok es now e He (Hc _ He)) as Hrows.
    destruct Hsub as [[-> _] | (rest & -> & Hrest & _)]; [constructor|].
    eapply Forall_sublist; [|exact Hrows]. by constructor. }
  apply Hgen; [done|constructor].
Qed.
End writer.

(** A request with two detected entities, through a gateway that opted in. *)
Definition sample_event : RequestEvent :=
  capture_content opted_in reversing_kms (Some $"hello Anna") None None
    (@record_detections ascii_case_map sample_dets
      (event_new 7 9 $"openai" $"gpt-4o-mini" $"redact" TokenUsage_default false
         (SpecFloat.S754_zero false) [])).

Lemma warehouse_rows_ok_witness :
  Forall (row_ok [sample_event])
    (w_rows (foldl (fun w ne => consume (fun n => if n =? 2 then WriteError else Written) ne.1 w ne.2)
       writer_init [(1000%Z, sample_event)])).
Proof.
  apply (warehouse_rows_ok (fun n => if n =? 2 then WriteError else Written) [(1000%Z, sample_event)]).
  intros e He k Hk. apply list_elem_of_singleton in He. subst e. revert k Hk.
  assert (Forall (fun k => k ∈ OTHER :: CANONICAL_CLASSES) (rq_detection_counts sample_event).*1) as HF.
  { decide_compute. }
  intros k Hk. rewrite Forall_forall in HF. apply HF. exact Hk.
Defined.
