(* ===== verification/Providers.v ===== *)
(** * Model resolution, provider adapters and failover

    [http/model_router.rs], [providers/mod.rs] (the adapter trait, its default
    event stream, the echo adapters), [token_usage/dispatch.rs],
    [token_usage/pricing.rs] and the provider-chain part of
    [pipeline/service.rs]. *)

From Stdlib Require Import SpecFloat.
From S2P Require Import Prelude Rstr Json Types.

(** ** Model resolution *)

Record ModelTarget : Type := {
  model_id : Uuid;
  mt_workspace_id : WorkspaceId;
  mt_provider_id : ProviderId;
  mt_provider_name : str;
  mt_provider_type : str;
  mt_model_name : str;
  mt_encrypted_credential : option str;
  mt_config : Value;
}.

Record ResolvedModel : Type := { public_model : str; targets : list ModelTarget }.

Definition is_registered (r : ResolvedModel) : bool :=
  match targets r with t :: _ => negb (is_nil (model_id t)) | [] => false end.

(** [Uuid]'s hyphenated lower-case form. *)
Definition hex_digit (n : N) : ascii :=
  ascii_of_N (if (n <? 10)%N then 48 + n else 87 + n)%N.

Fixpoint hex_digits (k : nat) (n : N) : str :=
  match k with
  | 0 => []
  | S k' => hex_digits k' (n / 16)%N ++ [hex_digit (n mod 16)]
  end.

Definition show_uuid (u : Uuid) : str :=
  let h := hex_digits 32 u in
  take 8 h ++ $"-" ++ take 4 (drop 8 h) ++ $"-" ++ take 4 (drop 12 h) ++ $"-"
  ++ take 4 (drop 16 h) ++ $"-" ++ drop 20 h.

Record CachedApiKey : Type := {
  ck_api_key_id : Uuid;
  ck_workspace_id : WorkspaceId;
  ck_name : str;
  ck_assigned_user_id : option Uuid;
  ck_cached_at : N;
}.

(** Instants are milliseconds of the monotonic clock. *)
Definition CACHE_TTL : N := 60000.

Record ConfigCache : Type := {
  api_keys : gmap str CachedApiKey;
  models : gmap str (ResolvedModel * N);
}.

Definition ConfigCache_default : ConfigCache := {| api_keys := ∅; models := ∅ |}.

Definition get_api_key (now : N) (c : ConfigCache) (token : str) : option CachedApiKey :=
  entry ← api_keys c !! token;
  if (CACHE_TTL <? saturating_sub now (ck_cached_at entry))%N then None else Some entry.

Definition set_api_key (c : ConfigCache) (token : str) (v : CachedApiKey) : ConfigCache :=
  {| api_keys := <[token := v]> (api_keys c); models := models c |}.

Definition get_model (now : N) (c : ConfigCache) (key : str) : option ResolvedModel :=
  '(m, cached_at) ← models c !! key;
  if (CACHE_TTL <? saturating_sub now cached_at)%N then None else Some m.

Definition set_model (now : N) (c : ConfigCache) (key : str) (v : ResolvedModel) : ConfigCache :=
  {| api_keys := api_keys c; models := <[key := (v, now)]> (models c) |}.

Definition cache_key (w : WorkspaceId) (m : str) : str := show_uuid w ++ $":" ++ m.

Record ProviderRow : Type := {
  pw_id : Uuid; pw_name : str; pw_provider_type : str; pw_encrypted_credential : option str;
  pw_config : Value;
}.

(** [resolve_model]; [resolve_model_targets] and [list_providers] are the
    repository's answers for this workspace and model. *)
Definition resolve_model (now : N) (c : ConfigCache)
    (resolve_model_targets : result (list ModelTarget)) (list_providers : result (list ProviderRow))
    (w : WorkspaceId) (m : str) : result ResolvedModel * ConfigCache :=
  match get_model now c (cache_key w m) with
  | Some cached => (Ok cached, c)
  | None =>
      match resolve_model_targets with
      | Err e => (Err e, c)
      | Panic => (Panic, c)
      | Ok [] =>
          (obind list_providers (fun ps =>
             match ps with
             | p :: _ =>
                 Ok {| public_model := m;
                       targets := [{| model_id := nil_uuid; mt_workspace_id := w;
                                      mt_provider_id := pw_id p; mt_provider_name := pw_name p;
                                      mt_provider_type := pw_provider_type p; mt_model_name := m;
                                      mt_encrypted_credential := pw_encrypted_credential p;
                                      mt_config := pw_config p |}] |}
             | [] => Err (NotFound ($"no provider configured for model " ++ m))
             end), c)
      | Ok ts =>
          let resolved := {| public_model := m; targets := ts |} in
          (Ok resolved, set_model now c (cache_key w m) resolved)
      end
  end.

(** ** Provider adapters *)

Inductive InvocationKind : Type := KChat | KCompletion | KEmbedding.

Record ProviderInvocation : Type := {
  in_request_id : RequestId;
  in_model : str;
  in_prompt : str;
  in_messages : list Message;
  in_extra_params : Value;
  in_stream : bool;
  in_kind : InvocationKind;
  in_decrypted_credential : option str;
}.

Record ProviderOutput : Type := {
  out_content : str;
  out_model : str;
  out_usage : option TokenUsage;
  out_embedding : option (list f32);
  out_stream_chunks : list str;
  out_finish_reason : option str;
  out_ttft_ms : option N;
}.

Record ProviderFailure : Type := { pf_message : str; pf_retryable : bool }.

Inductive ProviderEvent : Type :=
  | Token (t : str)
  | EvDone (usage : option TokenUsage) (finish_reason model : option str) (ttft_ms : option N).

(** A provider event stream is the finite list of what it yields. *)
Abbreviation ProviderEventStream := (list (outcome ProviderFailure ProviderEvent)).

(** The adapter trait.  Each method is a remote call: its first argument
    numbers the provider calls of the request. *)
Record ProviderAdapter : Type := {
  ad_complete : nat -> ModelTarget -> ProviderInvocation -> outcome ProviderFailure ProviderOutput;
  ad_stream : nat -> ModelTarget -> ProviderInvocation -> outcome ProviderFailure ProviderOutput;
  ad_stream_events :
    nat -> ModelTarget -> ProviderInvocation -> outcome ProviderFailure ProviderEventStream;
}.

(** The trait's default [stream_events], over the result of [stream]. *)
Definition events_of_output (out : ProviderOutput) : ProviderEventStream :=
  (match out_stream_chunks out with
   | [] => match out_content out with [] => [] | c => [Ok (Token c)] end
   | chunks => (fun c => Ok (Token c)) <$> chunks
   end) ++ [Ok (EvDone (out_usage out) (out_finish_reason out) (Some (out_model out)) (out_ttft_ms out))].

Definition default_stream_events
    (stream : nat -> ModelTarget -> ProviderInvocation -> outcome ProviderFailure ProviderOutput)
    (n : nat) (t : ModelTarget) (i : ProviderInvocation) : outcome ProviderFailure ProviderEventStream :=
  obind (stream n t i) (fun out => Ok (events_of_output out)).

Definition sanitize_extra_params (params : Value) : Value :=
  match params with
  | Object m => Object (obj_remove (obj_remove m $"omit_usage") $"force_provider_failure")
  | _ => params
  end.

(** ** Usage and cost *)

Definition u32_of (n : N) : N := (n mod 2 ^ 32)%N.

Definition estimate_tokens (provider_type content : str) : N :=
  let trimmed := trim content in
  match trimmed with
  | [] => 0
  | _ =>
      let word_count := u32_of (N.of_nat (count_words false (chars trimmed))) in
      let char_count := u32_of (N.of_nat (length (chars trimmed))) in
      if decide (provider_type = $"anthropic") then N.max (char_count / 3) word_count
      else if decide (provider_type = $"ollama" \/ provider_type = $"vllm")
      then N.max word_count (char_count / 5)
      else N.max (char_count / 4) word_count
  end%N.

Definition derive_usage (provider_type : str) (reported : option TokenUsage) (prompt response : str)
    : TokenUsage * bool :=
  match reported with
  | Some usage => (usage, false)
  | None =>
      ({| input_tokens := Some (estimate_tokens provider_type prompt);
          output_tokens := Some (estimate_tokens provider_type response);
          reasoning_tokens := Some 0%N; cache_read_tokens := Some 0%N;
          cache_write_tokens := Some 0%N |}, true)
  end.

Record ModelPricing : Type := { input_per_1k_usd : f64; output_per_1k_usd : f64 }.

Abbreviation PricingTable := (gmap str ModelPricing).

Definition PricingTable_with_defaults : PricingTable :=
  <[$"gpt-4o-mini" := {| input_per_1k_usd := S754_finite false 5534023222112865 (-65);
                         output_per_1k_usd := S754_finite false 5534023222112865 (-63) |}]>
  (<[$"claude-3-5-haiku" := {| input_per_1k_usd := S754_finite false 7378697629483821 (-63);
                               output_per_1k_usd := S754_finite false 4611686018427388 (-60) |}]>
  (<[$"llama3.1" := {| input_per_1k_usd := S754_zero false; output_per_1k_usd := S754_zero false |}]> ∅)).

Definition default_pricing : ModelPricing := {|
  input_per_1k_usd := S754_finite false 7378697629483821 (-65);
  output_per_1k_usd := S754_finite false 7378697629483821 (-63);
|}.

Definition thousand : f64 := S754_finite false 8796093022208000 (-43).

Definition compute_cost (t : PricingTable) (m : str) (usage : TokenUsage) : f64 :=
  let pricing := default default_pricing (t !! m) in
  let per_k (n : option N) := SFdiv 53 1024 (f64_of_Z (Z.of_N (default 0%N n))) thousand in
  SFadd 53 1024 (SFmul 53 1024 (per_k (input_tokens usage)) (input_per_1k_usd pricing))
                (SFmul 53 1024 (per_k (output_tokens usage)) (output_per_1k_usd pricing)).

(** ** The echo adapters *)

Definition maybe_fail (provider_type : str) (t : ModelTarget) (i : ProviderInvocation)
    : option ProviderFailure :=
  if decide (mt_encrypted_credential t = Some $"force_retryable") then
    Some {| pf_message := provider_type ++ $" adapter forced retryable failure"; pf_retryable := true |}
  else if decide (mt_encrypted_credential t = Some $"force_fatal") then
    Some {| pf_message := provider_type ++ $" adapter forced fatal failure"; pf_retryable := false |}
  else if decide (get_str (in_extra_params i) $"force_provider_failure" = Some provider_type) then
    Some {| pf_message := provider_type ++ $" adapter forced failure via request"; pf_retryable := true |}
  else None.

Definition as_bool (v : Value) : option bool := match v with Bool b => Some b | _ => None end.
Definition as_u64 (v : Value) : option N := match v with Number (PosInt n) => Some n | _ => None end.

Definition maybe_usage (provider_type : str) (i : ProviderInvocation) (output : str) : option TokenUsage :=
  if default false (get (in_extra_params i) $"omit_usage" ≫= as_bool) then None
  else Some {| input_tokens := Some (estimate_tokens provider_type (in_prompt i));
               output_tokens := Some (estimate_tokens provider_type output);
               reasoning_tokens := Some 0%N; cache_read_tokens := Some 0%N;
               cache_write_tokens := Some 0%N |}.

(** Each round takes at least one character, so the text's length is fuel
    enough. *)
Fixpoint chunk_loop_chars (fuel size : nat) (cs : list str) : list str :=
  match fuel, cs with
  | _, [] => []
  | 0, _ => []
  | S fuel', _ => concat (take size cs) :: chunk_loop_chars fuel' size (drop size cs)
  end.

Definition chunk_content (text : str) (chunk_size : N) : list str :=
  if (chunk_size =? 0)%N then [text]
  else
    let cs := chars text in
    chunk_loop_chars (length cs) (N.to_nat (N.min chunk_size (N.of_nat (length cs)))) cs.

(** [values[slot] += f32::from(byte) / 255.0] over the prompt's bytes. *)
Definition f32_of_byte (c : ascii) : f32 := binary_normalize 24 128 (Z.of_N (byte_val c)) 0 false.

Definition f32_255 : f32 := S754_finite false 16711680 (-16).

Definition fake_embedding_step (st : nat * list f32) (c : ascii) : nat * list f32 :=
  let '(index, values) := st in
  let slot := index mod 8 in
  (S index, alter (fun v => SFadd 24 128 v (SFdiv 24 128 (f32_of_byte c) f32_255)) slot values).

Definition fake_embedding (prompt : str) : list f32 :=
  (foldl fake_embedding_step (0, replicate 8 (S754_zero false)) prompt).2.

Definition render_output (label : str) (t : ModelTarget) (i : ProviderInvocation) (streaming : bool)
    : ProviderOutput :=
  match in_kind i with
  | KEmbedding =>
      {| out_content := []; out_model := mt_model_name t; out_usage := maybe_usage label i [];
         out_embedding := Some (fake_embedding (in_prompt i)); out_stream_chunks := [];
         out_finish_reason := Some $"stop"; out_ttft_ms := None |}
  | _ =>
      let text := label ++ $" echo: " ++ in_prompt i in
      {| out_content := text; out_model := mt_model_name t; out_usage := maybe_usage label i text;
         out_embedding := None;
         out_stream_chunks :=
           if streaming
           then chunk_content text (default 7%N (get (in_extra_params i) $"chunk_size" ≫= as_u64))
           else [];
         out_finish_reason := Some $"stop"; out_ttft_ms := None |}
  end.

Definition echo_call (label : str) (streaming : bool) (n : nat) (t : ModelTarget)
    (i : ProviderInvocation) : outcome ProviderFailure ProviderOutput :=
  match maybe_fail label t i with
  | Some failure => Err failure
  | None => Ok (render_output label t i streaming)
  end.

(** [AnthropicAdapter], [OllamaAdapter] and [VllmAdapter] differ in their
    label only. *)
Definition echo_adapter (label : str) : ProviderAdapter := {|
  ad_complete := echo_call label false;
  ad_stream := echo_call label true;
  ad_stream_events := default_stream_events (echo_call label true);
|}.

(** ** Failover *)

Section failover.
  (** [ProviderCatalog::adapter_for] *)
  Variable adapter_for : str -> option ProviderAdapter.
  (** [URL_SAFE_NO_PAD.decode] of the base64 crate, and the [n]-th KMS
      decryption. *)
  Variable b64_decode : str -> option str.
  Variable kms_decrypt : nat -> str -> option str.

Definition decrypt_credential (n : nat) (stored : str) : outcome str str :=
  match b64_decode stored with
  | None => Err $"base64 decode"
  | Some raw =>
      match kms_decrypt n raw with
      | None => Err $"kms decrypt"
      | Some bytes => if utf8_valid bytes then Ok bytes else Err $"not valid UTF-8"
      end
  end.

Definition with_credential (i : ProviderInvocation) (c : option str) : ProviderInvocation := {|
  in_request_id := in_request_id i; in_model := in_model i; in_prompt := in_prompt i;
  in_messages := in_messages i; in_extra_params := in_extra_params i; in_stream := in_stream i;
  in_kind := in_kind i; in_decrypted_credential := c;
|}.

(** The adapter and invocation a target is called with; [None] is the
    [continue] for a missing adapter or an undecryptable credential. *)
Definition ready (n : nat) (template : ProviderInvocation) (t : ModelTarget)
    : option (ProviderAdapter * ProviderInvocation) :=
  adapter ← adapter_for (mt_provider_type t);
  match mt_encrypted_credential t with
  | Some stored =>
      match decrypt_credential n stored with
      | Ok plain => Some (adapter, with_credential template (Some plain))
      | _ => None
      end
  | None => Some (adapter, with_credential template None)
  end.

(** The loop shared by both entry points: the result, and the provider calls
    made in order.  [n] numbers the targets tried. *)
Fixpoint failover {A} (call : ProviderAdapter -> nat -> ModelTarget -> ProviderInvocation -> outcome ProviderFailure A)
    (n : nat) (template : ProviderInvocation) (ts : list ModelTarget) (last_retryable : option str)
    : result (ModelTarget * A) * list (ModelTarget * ProviderInvocation) :=
  match ts with
  | [] => (Err (Internal (default $"all providers failed" last_retryable)), [])
  | t :: ts' =>
      match ready n template t with
      | None => failover call (S n) template ts' last_retryable
      | Some (adapter, i) =>
          match call adapter n t i with
          | Ok out => (Ok (t, out), [(t, i)])
          | Panic => (Panic, [(t, i)])
          | Err failure =>
              if pf_retryable failure then
                let '(r, calls) := failover call (S n) template ts' (Some (pf_message failure)) in
                (r, (t, i) :: calls)
              else (Err (Internal (pf_message failure)), [(t, i)])
          end
      end
  end.

Definition newline : str := ["010"%char].

Definition prompt_from_messages (messages : list Message) : str :=
  join newline (content <$> messages).

Definition invocation_template (pi : PipelineInput) (stream : bool) (kind : InvocationKind)
    : ProviderInvocation := {|
  in_request_id := pi_request_id pi; in_model := pi_model pi;
  in_prompt := prompt_from_messages (pi_messages pi); in_messages := pi_messages pi;
  in_extra_params := sanitize_extra_params (pi_extra_params pi); in_stream := stream;
  in_kind := kind; in_decrypted_credential := None;
|}.

Definition invoke_provider_chain (ts : list ModelTarget) (kind : InvocationKind) (stream : bool)
    (pi : PipelineInput) : result (ModelTarget * ProviderOutput) * list (ModelTarget * ProviderInvocation) :=
  failover (fun a => if stream then ad_stream a else ad_complete a) 0
    (invocation_template pi (pi_stream pi) kind) ts None.

Definition open_provider_stream (ts : list ModelTarget) (pi : PipelineInput) (kind : InvocationKind)
    : result (ModelTarget * ProviderEventStream) * list (ModelTarget * ProviderInvocation) :=
  failover ad_stream_events 0 (invocation_template pi true kind) ts None.

End failover.

(** [pipeline::service::model_label]: the bounded metric label. *)
Definition model_label (t : ModelTarget) : str :=
  if is_nil (model_id t) then $"unknown" else mt_model_name t.
