(* ===== verification/ProvidersSpec.v ===== *)
(** * Properties of model resolution and provider failover *)

From S2P Require Import Prelude Rstr Json Types Providers.

(** ** Cache keys *)

Lemma hex_digits_length k n : length (hex_digits k n) = k.
Proof. revert n. induction k as [|k IH]; intros n; [done|]. simpl. rewrite length_app, IH. simpl. lia. Qed.

Lemma hex_digit_inj a b : (a < 16)%N -> (b < 16)%N -> hex_digit a = hex_digit b -> a = b.
Proof.
  intros Ha Hb E. unfold hex_digit in E. apply (f_equal N_of_ascii) in E.
  destruct (N.ltb_spec a 10), (N.ltb_spec b 10); rewrite !N_ascii_embedding in E by lia; lia.
Qed.

Lemma hex_digits_inj k n m :
  (n < 16 ^ N.of_nat k)%N -> (m < 16 ^ N.of_nat k)%N -> hex_digits k n = hex_digits k m -> n = m.
Proof.
  revert n m. induction k as [|k IH]; intros n m Hn Hm E; [simpl in *; lia|].
  rewrite Nat2N.inj_succ, N.pow_succ_r' in Hn, Hm. cbn [hex_digits] in E.
  apply app_inj_2 in E as [E1 E2]; [|done]. injection E2 as E2.
  apply hex_digit_inj in E2; [|by apply N.mod_lt|by apply N.mod_lt].
  apply IH in E1; [|apply N.Div0.div_lt_upper_bound; lia|apply N.Div0.div_lt_upper_bound; lia].
  rewrite (N.div_mod' n 16), (N.div_mod' m 16). lia.
Qed.

Lemma show_uuid_length u : length (show_uuid u) = 36.
Proof.
  unfold show_uuid. pose proof (hex_digits_length 32 u) as H.
  rewrite !length_app, !length_take, !length_drop, H. reflexivity.
Qed.

Lemma show_uuid_inj u w : (u < 2 ^ 128)%N -> (w < 2 ^ 128)%N -> show_uuid u = show_uuid w -> u = w.
Proof.
  intros Hu Hw E. apply (hex_digits_inj 32); [done|done|]. unfold show_uuid in E.
  set (h := hex_digits 32 u) in *. set (g := hex_digits 32 w) in *.
  assert (length h = 32) as Hh by apply hex_digits_length.
  assert (length g = 32) as Hg by apply hex_digits_length.
  repeat (apply app_inj_1 in E as [? E]; [|rewrite ?length_take, ?length_drop, ?Hh, ?Hg; done]).
  rewrite <- (take_drop 8 h), <- (take_drop 8 g). f_equal; [done|].
  rewrite <- (take_drop 4 (drop 8 h)), <- (take_drop 4 (drop 8 g)). f_equal; [done|]. rewrite !drop_drop. cbn [Nat.add].
  rewrite <- (take_drop 4 (drop 12 h)), <- (take_drop 4 (drop 12 g)). f_equal; [done|]. rewrite !drop_drop. cbn [Nat.add].
  rewrite <- (take_drop 4 (drop 16 h)), <- (take_drop 4 (drop 16 g)). f_equal; [done|]. by rewrite !drop_drop.
Qed.

Lemma cache_key_inj w m w' m' :
  (w < 2 ^ 128)%N -> (w' < 2 ^ 128)%N -> cache_key w m = cache_key w' m' -> w = w' /\ m = m'.
Proof.
  intros Hw Hw' E. unfold cache_key in E.
  apply app_inj_1 in E as [E1 E2]; [|by rewrite !show_uuid_length].
  split; [by apply show_uuid_inj|]. by injection E2.
Qed.

(** ** Resolution *)

(** Where a resolution can come from: the database rows of this very
    workspace and model, or the passthrough to its first provider. *)
Definition resolved_from (w : WorkspaceId) (m : str) (ts : list ModelTarget) (ps : list ProviderRow)
    (r : ResolvedModel) : Prop :=
  public_model r = m /\
  (ts <> [] /\ targets r = ts \/
   ts = [] /\ exists p ps' t, ps = p :: ps' /\ targets r = [t] /\ is_nil (model_id t) = true /\
     mt_workspace_id t = w /\ mt_provider_id t = pw_id p /\ mt_model_name t = m).

(** A cached resolution never crosses tenants: after resolving a model
    for one workspace, a lookup for any other workspace or model name answers
    exactly what it answered before, however model names are chosen
    (including names containing a colon or another workspace's id). *)
Theorem resolve_model_isolated now c ts ps w m w' m' now' :
  (w < 2 ^ 128)%N -> (w' < 2 ^ 128)%N -> (w', m') <> (w, m) ->
  get_model now' (resolve_model now c ts ps w m).2 (cache_key w' m') = get_model now' c (cache_key w' m').
Proof.
  intros Hw Hw' Hne. unfold resolve_model.
  destruct (get_model now c (cache_key w m)) as [cached|]; [done|].
  destruct ts as [[|t ts]| |]; simpl; [done| |done|done].
  unfold get_model. simpl. rewrite lookup_insert_ne; [done|].
  intros E. apply cache_key_inj in E as [-> ->]; [by apply Hne|done|done].
Qed.

Definition demo_target : ModelTarget := {|
  model_id := 5; mt_workspace_id := 1; mt_provider_id := 2; mt_provider_name := $"primary";
  mt_provider_type := $"openai"; mt_model_name := $"gpt"; mt_encrypted_credential := None;
  mt_config := Null;
|}.

Lemma resolve_model_isolated_witness :
  get_model 10 (resolve_model 0 ConfigCache_default (Ok [demo_target]) (Ok []) 1 $"gpt").2 (cache_key 2 $"gpt")
  = get_model 10 ConfigCache_default (cache_key 2 $"gpt").
Proof. apply resolve_model_isolated; [reflexivity|reflexivity|discriminate]. Defined.

(** What resolution returns.  On a cache miss the answer is built from
    this workspace's rows: registered models as stored and cached, otherwise
    the uncached passthrough to the workspace's first provider, whose target
    is marked unregistered; it is an error exactly when there is neither.  A
    cached answer is served for sixty seconds and no longer. *)
Theorem resolve_model_spec now c ts ps w m :
  get_model now c (cache_key w m) = None ->
  let '(r, c') := resolve_model now c (Ok ts) (Ok ps) w m in
  match r with
  | Ok res =>
      resolved_from w m ts ps res /\
      (ts = [] -> c' = c /\ is_registered res = false) /\
      (ts <> [] -> forall t, (now <= t)%N ->
         get_model t c' (cache_key w m) = if (t - now <=? 60000)%N then Some res else None)
  | Err e => ts = [] /\ ps = [] /\ e = NotFound ($"no provider configured for model " ++ m) /\ c' = c
  | Panic => False
  end.
Proof.
  intros Hmiss. unfold resolve_model. rewrite Hmiss. destruct ts as [|t ts]; simpl.
  - destruct ps as [|p ps]; simpl; [done|]. split; [|split; [done|done]].
    split; [done|]. right. split; [done|]. by eexists p, ps, _.
  - split; [split; [done|by left]|]. split; [done|]. intros _ t' Ht. unfold get_model, set_model. simpl.
    rewrite lookup_insert_eq. simpl. unfold saturating_sub, CACHE_TTL.
    destruct (N.ltb_spec 60000 (t' - now)), (N.leb_spec (t' - now) 60000); done || lia.
Qed.

Definition demo_provider : ProviderRow := {|
  pw_id := 2; pw_name := $"p"; pw_provider_type := $"openai"; pw_encrypted_credential := None;
  pw_config := Null;
|}.

Lemma resolve_model_spec_witness :
  match (resolve_model 0 ConfigCache_default (Ok []) (Ok [demo_provider]) 1 $"my private text").1 with
  | Ok res => is_registered res = false
  | _ => False
  end.
Proof.
  pose proof (resolve_model_spec 0 ConfigCache_default [] [demo_provider] 1 $"my private text" eq_refl) as H.
  destruct (resolve_model 0 ConfigCache_default (Ok []) (Ok [demo_provider]) 1 $"my private text")
    as [[res|e|] c'].
  - apply H. reflexivity.
  - destruct H as (_ & H & _). discriminate H.
  - exact H.
Defined.

(** ** Request parameters *)

(** Test-only controls never reach a provider: after sanitising, an
    object has neither control key and every other key has its old value;
    sanitising is idempotent and leaves non-objects alone. *)
Theorem sanitize_extra_params_spec params k :
  let out := sanitize_extra_params params in
  get out k =
    (if decide (k = $"omit_usage" \/ k = $"force_provider_failure") then None else get params k) /\
  sanitize_extra_params out = out.
Proof.
  destruct params as [| | | | |m]; simpl; try (split; [by case_decide|done]).
  split.
  - rewrite !obj_get_remove. repeat case_decide; naive_solver.
  - f_equal. rewrite (obj_remove_absent _ $"omit_usage"), obj_remove_absent; [done| |].
    + by rewrite obj_get_remove, decide_True.
    + rewrite !obj_get_remove. by repeat case_decide.
Qed.

(** ** Failover *)

Section failover.
Context (adapter_for : str -> option ProviderAdapter) (b64_decode : str -> option str)
  (kms_decrypt : nat -> str -> option str).
Context {A : Type}
  (call : ProviderAdapter -> nat -> ModelTarget -> ProviderInvocation -> outcome ProviderFailure A).

Abbreviation ready := (ready adapter_for b64_decode kms_decrypt).

(** The chain goes past target [t] (number [n]): it cannot be called, or
    its failure is retryable. *)
Definition passed_over (template : ProviderInvocation) (n : nat) (t : ModelTarget) : Prop :=
  match ready n template t with
  | None => True
  | Some (a, i) => exists f, call a n t i = Err f /\ pf_retryable f = true
  end.

(** The calls made to the targets passed over. *)
Fixpoint contacts (template : ProviderInvocation) (n : nat) (ts : list ModelTarget)
    : list (ModelTarget * ProviderInvocation) :=
  match ts with
  | [] => []
  | t :: ts' =>
      (match ready n template t with Some (_, i) => [(t, i)] | None => [] end)
      ++ contacts template (S n) ts'
  end.

Lemma failover_cases template ts n last :
  let '(r, calls) := failover adapter_for b64_decode kms_decrypt call n template ts last in
  (exists pre t post a i, ts = pre ++ t :: post /\
     (forall k u, pre !! k = Some u -> passed_over template (n + k) u) /\
     ready (n + length pre) template t = Some (a, i) /\
     calls = contacts template n pre ++ [(t, i)] /\
     match call a (n + length pre) t i with
     | Ok out => r = Ok (t, out)
     | Err f => pf_retryable f = false /\ r = Err (Internal (pf_message f))
     | Panic => r = Panic
     end) \/
  ((forall k u, ts !! k = Some u -> passed_over template (n + k) u) /\
   calls = contacts template n ts /\ exists msg, r = Err (Internal msg)).
Proof.
  revert n last. induction ts as [|t ts IH]; intros n last; cbn [failover].
  { right. split; [done|]. split; [done|]. by eexists. }
  destruct (ready n template t) as [[a i]|] eqn:Er.
  - destruct (call a n t i) as [out|f|] eqn:Ec.
    + left. exists [], t, ts, a, i. simpl. rewrite Nat.add_0_r, Er, Ec. done.
    + destruct (pf_retryable f) eqn:Ef.
      * specialize (IH (S n) (Some (pf_message f))).
        destruct (failover _ _ _ _ (S n) _ _ _) as [r calls].
        assert (passed_over template (n + 0) t) as Hp.
        { unfold passed_over. rewrite Nat.add_0_r, Er. eauto. }
        destruct IH as [(pre & u & post & a' & i' & -> & Hpre & Hr & -> & Hres) | (Hall & -> & Hmsg)].
        -- left. exists (t :: pre), u, post, a', i'. split; [done|]. split.
           { intros [|k] v; simpl; [by intros [= <-]|]. intros Hk. rewrite Nat.add_succ_r. by apply Hpre. }
           simpl. rewrite Nat.add_succ_r, Er. done.
        -- right. split; [|split; [simpl; by rewrite Er|done]].
           intros [|k] v; simpl; [by intros [= <-]|]. intros Hk. rewrite Nat.add_succ_r. by apply Hall.
      * left. exists [], t, ts, a, i. simpl. rewrite Nat.add_0_r, Er, Ec. done.
    + left. exists [], t, ts, a, i. simpl. rewrite Nat.add_0_r, Er, Ec. done.
  - specialize (IH (S n) last). destruct (failover _ _ _ _ (S n) _ _ _) as [r calls].
    assert (passed_over template (n + 0) t) as Hp.
    { unfold passed_over. by rewrite Nat.add_0_r, Er. }
    destruct IH as [(pre & u & post & a' & i' & -> & Hpre & Hr & -> & Hres) | (Hall & -> & Hmsg)].
    + left. exists (t :: pre), u, post, a', i'. split; [done|]. split.
      { intros [|k] v; simpl; [by intros [= <-]|]. intros Hk. rewrite Nat.add_succ_r. by apply Hpre. }
      simpl. rewrite Nat.add_succ_r, Er. done.
    + right. split; [|split; [simpl; by rewrite Er|done]].
      intros [|k] v; simpl; [by intros [= <-]|]. intros Hk. rewrite Nat.add_succ_r. by apply Hall.
Qed.

(** What a provider is shown: the template, plus only that target's own
    credential. *)
Definition own_invocation (template : ProviderInvocation) (ti : ModelTarget * ProviderInvocation) : Prop :=
  exists c, ti.2 = with_credential template c /\
    match c with
    | None => mt_encrypted_credential ti.1 = None
    | Some plain => exists n stored, mt_encrypted_credential ti.1 = Some stored /\
        decrypt_credential b64_decode kms_decrypt n stored = Ok plain
    end.

Lemma ready_own n template t a i : ready n template t = Some (a, i) -> own_invocation template (t, i).
Proof.
  unfold Providers.ready. intros (ad & _ & H)%bind_Some.
  destruct (mt_encrypted_credential t) as [stored|] eqn:Ec.
  - destruct (decrypt_credential _ _ n stored) as [plain|?|] eqn:Ed; [|done|done].
    injection H as _ <-. exists (Some plain). split; [done|]. by exists n, stored.
  - injection H as _ <-. by exists None.
Qed.

Lemma contacts_own template n ts :
  Forall (fun ti => own_invocation template ti /\ ti.1 ∈ ts) (contacts template n ts).
Proof.
  revert n. induction ts as [|t ts IH]; intros n; [constructor|]. cbn [contacts]. apply Forall_app. split.
  - destruct (ready n template t) as [[a i]|] eqn:E; [|constructor]. constructor; [|constructor].
    split; [by eapply ready_own|left].
  - eapply Forall_impl; [apply (IH (S n))|]. intros ti [? ?]. split; [done|by right].
Qed.

Lemma failover_calls_own template ts n last :
  Forall (fun ti => own_invocation template ti /\ ti.1 ∈ ts)
    (failover adapter_for b64_decode kms_decrypt call n template ts last).2.
Proof.
  pose proof (failover_cases template ts n last) as Hc.
  destruct (failover _ _ _ _ n template ts last) as [r calls]. simpl.
  destruct Hc as [(pre & t & post & a & i & -> & _ & Hr & -> & _) | (_ & -> & _)].
  - apply Forall_app. split.
    + eapply Forall_impl; [apply contacts_own|]. intros ti [? ?]. split; [done|set_solver].
    + constructor; [|constructor]. split; [by eapply ready_own|set_solver].
  - apply contacts_own.
Qed.
End failover.

Lemma invoke_calls_own adapter_for b64_decode kms_decrypt ts kind stream pi :
  Forall (fun ti => own_invocation b64_decode kms_decrypt (invocation_template pi (pi_stream pi) kind) ti /\ ti.1 ∈ ts)
    (invoke_provider_chain adapter_for b64_decode kms_decrypt ts kind stream pi).2.
Proof. apply failover_calls_own. Qed.

Lemma open_calls_own adapter_for b64_decode kms_decrypt ts kind pi :
  Forall (fun ti => own_invocation b64_decode kms_decrypt (invocation_template pi true kind) ti /\ ti.1 ∈ ts)
    (open_provider_stream adapter_for b64_decode kms_decrypt ts pi kind).2.
Proof. apply failover_calls_own. Qed.

(** Failover order: the buffered chain stops at the first target that has
    an adapter and a decryptable credential and either answers or fails for
    good; everything before it was skipped or failed retryably, every such
    earlier target was called at most once and in order, nothing after it is
    contacted, and the caller gets that target's answer (or its error).  When
    no target decides, the request fails. *)
Theorem invoke_provider_chain_order adapter_for b64_decode kms_decrypt ts kind stream pi :
  let call (a : ProviderAdapter) := if stream : bool then ad_stream a else ad_complete a in
  let template := invocation_template pi (pi_stream pi) kind in
  let '(r, calls) := invoke_provider_chain adapter_for b64_decode kms_decrypt ts kind stream pi in
  (exists pre t post a i, ts = pre ++ t :: post /\
     (forall k u, pre !! k = Some u ->
        passed_over adapter_for b64_decode kms_decrypt call template k u) /\
     ready adapter_for b64_decode kms_decrypt (length pre) template t = Some (a, i) /\
     calls = contacts adapter_for b64_decode kms_decrypt template 0 pre ++ [(t, i)] /\
     match call a (length pre) t i with
     | Ok out => r = Ok (t, out)
     | Err f => pf_retryable f = false /\ r = Err (Internal (pf_message f))
     | Panic => r = Panic
     end) \/
  ((forall k u, ts !! k = Some u ->
      passed_over adapter_for b64_decode kms_decrypt call template k u) /\
   calls = contacts adapter_for b64_decode kms_decrypt template 0 ts /\ exists msg, r = Err (Internal msg)).
Proof.
  exact (failover_cases adapter_for b64_decode kms_decrypt
    (fun a => if stream then ad_stream a else ad_complete a)
    (invocation_template pi (pi_stream pi) kind) ts 0 None).
Qed.

(** Credential isolation and parameter hygiene on both provider paths: a
    contacted provider is one of the request's targets, is handed the same
    sanitised invocation as every other, and the only credential it ever sees
    is the decryption of its own stored one. *)
Theorem provider_calls_confined adapter_for b64_decode kms_decrypt ts kind stream pi :
  Forall (fun ti => own_invocation b64_decode kms_decrypt (invocation_template pi (pi_stream pi) kind) ti /\ ti.1 ∈ ts)
    (invoke_provider_chain adapter_for b64_decode kms_decrypt ts kind stream pi).2 /\
  Forall (fun ti => own_invocation b64_decode kms_decrypt (invocation_template pi true kind) ti /\ ti.1 ∈ ts)
    (open_provider_stream adapter_for b64_decode kms_decrypt ts pi kind).2.
Proof. split; [apply invoke_calls_own|apply open_calls_own]. Qed.

(** ** Streamed and buffered answers *)

Definition token_text (e : outcome ProviderFailure ProviderEvent) : option str :=
  match e with Ok (Token t) => Some t | _ => None end.

Definition tokens_of (s : ProviderEventStream) : str := concat (omap token_text s).

Lemma omap_tokens (l : list str) : omap token_text ((fun c => Ok (Token c)) <$> l) = l.
Proof. induction l as [|c l IH]; [done|]. by rewrite fmap_cons; simpl; f_equal. Qed.

Lemma chunk_loop_chars_concat fuel size cs :
  0 < size -> length cs <= fuel -> concat (chunk_loop_chars fuel size cs) = concat cs.
Proof.
  intros Hs. revert cs. induction fuel as [|fuel IH]; intros cs Hl.
  - by destruct cs; simpl in *; [|lia].
  - destruct cs as [|c cs]; [done|]. cbn [chunk_loop_chars concat].
    rewrite IH by (rewrite length_drop; simpl in *; lia). by rewrite <- concat_app, take_drop.
Qed.

Lemma chunk_content_concat text size : concat (chunk_content text size) = text.
Proof.
  unfold chunk_content. destruct (N.eqb_spec size 0) as [->|]; [simpl; by rewrite app_nil_r|].
  destruct text as [|c text]; [done|].
  assert (0 < length (chars (c :: text))) as Hpos.
  { destruct (chars (c :: text)) eqn:E; [by apply chars_not_nil in E|simpl; lia]. }
  rewrite chunk_loop_chars_concat; [apply concat_chars|lia|done].
Qed.

Lemma tokens_of_output out :
  tokens_of (events_of_output out) =
  match out_stream_chunks out with [] => out_content out | chunks => concat chunks end.
Proof.
  unfold tokens_of, events_of_output. rewrite omap_app, concat_app.
  destruct (out_stream_chunks out) as [|c cs]; [|rewrite omap_tokens; simpl; by rewrite app_nil_r].
  destruct (out_content out); simpl; by rewrite ?app_nil_r.
Qed.

(** The built-in adapters say the same thing either way: for every
    request the tokens of the default event stream concatenate to the content
    of the buffered completion, whatever chunk size the request asks for, and
    the two paths fail on the same requests with the same failure. *)
Theorem echo_stream_equals_complete label n t i :
  match ad_stream_events (echo_adapter label) n t i, ad_complete (echo_adapter label) n t i with
  | Ok evs, Ok out => tokens_of evs = out_content out
  | Err f, Err g => f = g
  | _, _ => False
  end.
Proof.
  simpl. unfold default_stream_events, echo_call. destruct (maybe_fail label t i); simpl; [done|].
  rewrite tokens_of_output. unfold render_output. destruct (in_kind i); simpl; [| |done].
  all: set (size := default 7%N _); pose proof (chunk_content_concat (label ++ $" echo: " ++ in_prompt i) size) as Hc;
    by destruct (chunk_content _ size).
Qed.
