(* ===== verification/Policy.v ===== *)
(** * Policy engine (policy/engine.rs, policy/events.rs)

    Rules are evaluated in priority order against one request.  A rule matches
    when its request-scoped conditions hold and one single detection satisfies
    all its detection-scoped conditions; the first matching rule with a
    recognised action decides. *)

From S2P Require Import Prelude Rstr Json Types Redaction RedactionSpec.

(** ** Data *)

Record PolicyRuleRow : Type := {
  id : Uuid;
  workspace_id : Uuid;
  name : str;
  priority : Z;
  conditions : Value;
  action : str;
  action_params : Value;
  enabled : bool;
  dry_run : bool;
}.

Record PolicyEvaluationInput : Type := {
  pe_request_id : RequestId;
  pe_workspace_id : WorkspaceId;
  provider_name : str;
  model : str;
  pe_content : str;
  pe_detections : list Detection;
  fail_closed : bool;
}.

Record PolicyEvaluationOutcome : Type := {
  oc_content : str;
  oc_result : PolicyResult;
  denied : bool;
  rules_evaluated : nat;
  unprotected : bool;
}.

(** [policy::events::from_rule] *)
Definition from_rule (rule : PolicyRuleRow) : PolicyEvent := {|
  rule_id := id rule;
  rule_name := name rule;
  pe_action := action rule;
  pe_dry_run := dry_run rule;
|}.

(** ** Condition matching *)

Definition GENERIC_CLASS_FOR : list (str * str) :=
  [($"UZCARD", $"CREDIT_CARD"); ($"HUMO", $"CREDIT_CARD")].

Definition class_filter_matches (filter detection_class : str) : bool :=
  bool_decide (filter = detection_class)
  || existsb (fun sg => bool_decide (sg.1 = detection_class) && bool_decide (sg.2 = filter))
       GENERIC_CLASS_FOR.

Definition is_detection_scoped (condition : Value) : bool :=
  match get_str condition $"field" with
  | Some field => bool_decide (field = $"detection_class") || bool_decide (field = $"confidence_gte")
  | None => false
  end.

(** [field], [op] and [value] of a condition, or the early [return false]. *)
Definition condition_parts (condition : Value) : option (str * str * Value) :=
  field ← get_str condition $"field";
  operator ← get_str condition $"op";
  v ← get condition $"value";
  Some (field, operator, v).

Definition is_op (field operator f o : str) : bool :=
  bool_decide (field = f) && bool_decide (operator = o).

Definition matches_detection_condition (condition : Value) (d : Detection) : bool :=
  match condition_parts condition with
  | None => false
  | Some (field, operator, v) =>
      if is_op field operator $"detection_class" $"eq" then
        match as_str v with Some f => class_filter_matches f (class d) | None => false end
      else if is_op field operator $"detection_class" $"in" then
        match as_array v with
        | Some values => any_str (fun f => class_filter_matches f (class d)) values
        | None => false
        end
      else if is_op field operator $"confidence_gte" $"gte" then
        match as_f64 v with Some t => fge (f64_from (confidence d)) t | None => false end
      else if is_op field operator $"confidence_gte" $"lte" then
        match as_f64 v with Some t => fle (f64_from (confidence d)) t | None => false end
      else false
  end.

Section engine.
Context `{CaseMap}.

(** [regex::Regex::new]: [None] for an invalid pattern, otherwise [is_match]. *)
Variable regex_new : str -> option (str -> bool).

Definition matches_condition (condition : Value) (input : PolicyEvaluationInput) : bool :=
  match condition_parts condition with
  | None => false
  | Some (field, operator, v) =>
      if is_op field operator $"provider" $"eq" then
        bool_decide (as_str v = Some (provider_name input))
      else if is_op field operator $"provider" $"in" then
        match as_array v with
        | Some values => any_str (fun c => bool_decide (c = provider_name input)) values
        | None => false
        end
      else if is_op field operator $"model" $"eq" then
        bool_decide (as_str v = Some (model input))
      else if is_op field operator $"model" $"in" then
        match as_array v with
        | Some values => any_str (fun c => bool_decide (c = model input)) values
        | None => false
        end
      else if is_op field operator $"content_regex" $"matches" then
        match as_str v with
        | Some pattern =>
            match regex_new pattern with
            | Some is_match => is_match (pe_content input)
            | None => false
            end
        | None => false
        end
      else false
  end.

(** The loop of [rule_matches] over the conditions: [None] is the early
    [return false], otherwise the detection-scoped conditions in order. *)
Fixpoint split_conditions (conds : list Value) (input : PolicyEvaluationInput) : option (list Value) :=
  match conds with
  | [] => Some []
  | c :: conds' =>
      if is_detection_scoped c then cons c <$> split_conditions conds' input
      else if matches_condition c input then split_conditions conds' input
      else None
  end.

Definition rule_matches (rule : PolicyRuleRow) (input : PolicyEvaluationInput) : bool :=
  match as_array (conditions rule) with
  | None => true
  | Some conds =>
      match split_conditions conds input with
      | None => false
      | Some [] => true
      | Some dconds =>
          existsb (fun d => forallb (fun c => matches_detection_condition c d) dconds)
            (pe_detections input)
      end
  end.

(** ** Narrowing the detections of a rule *)

Record Filters : Type := {
  class_filters : list str;
  confidence_gte : option f64;
  confidence_lte : option f64;
}.

Definition add_filter (fs : Filters) (condition : Value) : Filters :=
  match condition_parts condition with
  | None => fs
  | Some (field, operator, v) =>
      if is_op field operator $"detection_class" $"eq" then
        match as_str v with
        | Some c => {| class_filters := class_filters fs ++ [c];
                       confidence_gte := confidence_gte fs; confidence_lte := confidence_lte fs |}
        | None => fs
        end
      else if is_op field operator $"detection_class" $"in" then
        match as_array v with
        | Some values => {| class_filters := class_filters fs ++ omap as_str values;
                            confidence_gte := confidence_gte fs; confidence_lte := confidence_lte fs |}
        | None => fs
        end
      else if is_op field operator $"confidence_gte" $"gte" then
        {| class_filters := class_filters fs; confidence_gte := as_f64 v; confidence_lte := confidence_lte fs |}
      else if is_op field operator $"confidence_gte" $"lte" then
        {| class_filters := class_filters fs; confidence_gte := confidence_gte fs; confidence_lte := as_f64 v |}
      else fs
  end.

Definition rule_filters (rule : PolicyRuleRow) : Filters :=
  foldl add_filter {| class_filters := []; confidence_gte := None; confidence_lte := None |}
    (default [] (as_array (conditions rule))).

Definition passes_filters (fs : Filters) (d : Detection) : bool :=
  (match class_filters fs with
   | [] => true
   | cls => existsb (fun c => class_filter_matches c (class d)) cls
   end)
  && (match confidence_gte fs with Some t => fge (f64_from (confidence d)) t | None => true end)
  && (match confidence_lte fs with Some t => fle (f64_from (confidence d)) t | None => true end).

Definition matching_detections (rule : PolicyRuleRow) (ds : list Detection) : list Detection :=
  match List.filter (passes_filters (rule_filters rule)) ds with
  | [] => ds
  | filtered => filtered
  end.

(** ** Evaluation *)

Record EvalState : Type := {
  ev_content : str;
  ev_events : list PolicyEvent;
  ev_final_action : str;
  ev_denied : bool;
  ev_applied : bool;
  ev_vault : TokenVault;
  ev_map : gmap str str;
}.

Definition template_of (rule : PolicyRuleRow) : str :=
  default $"{value}" (get_str (action_params rule) $"template").

(** The [match rule.action.as_str()] of the loop body: the new state and
    whether the loop breaks. *)
Definition apply_action (input : PolicyEvaluationInput) (rule : PolicyRuleRow) (st : EvalState)
    : option (EvalState * bool) :=
  let matching := matching_detections rule (pe_detections input) in
  let with_ (c : str) (d a : bool) v m :=
    {| ev_content := c; ev_events := ev_events st; ev_final_action := action rule;
       ev_denied := d; ev_applied := a; ev_vault := v; ev_map := m |} in
  if decide (action rule = $"deny") then
    Some (with_ (ev_content st) true true (ev_vault st) (ev_map st), true)
  else if decide (action rule = $"allow") then
    Some (with_ (ev_content st) (ev_denied st) true (ev_vault st) (ev_map st), true)
  else if decide (action rule = $"redact") then
    let to_redact := if fail_closed input then pe_detections input else matching in
    '(c, v, m) ← apply_redaction (ev_content st) to_redact (ev_vault st) (ev_map st);
    Some (with_ c (ev_denied st) true v m, true)
  else if decide (action rule = $"transform") then
    c ← apply_transform (ev_content st) matching (template_of rule);
    Some (with_ c (ev_denied st) true (ev_vault st) (ev_map st), true)
  else if decide (action rule = $"flag") then
    Some (with_ (ev_content st) (ev_denied st) true (ev_vault st) (ev_map st), true)
  else
    Some (with_ (ev_content st) (ev_denied st) (ev_applied st) (ev_vault st) (ev_map st), false).

Definition push_event (st : EvalState) (e : PolicyEvent) : EvalState :=
  {| ev_content := ev_content st; ev_events := ev_events st ++ [e];
     ev_final_action := ev_final_action st; ev_denied := ev_denied st;
     ev_applied := ev_applied st; ev_vault := ev_vault st; ev_map := ev_map st |}.

Fixpoint eval_loop (input : PolicyEvaluationInput) (rules : list PolicyRuleRow) (st : EvalState)
    : option EvalState :=
  match rules with
  | [] => Some st
  | rule :: rules' =>
      if rule_matches rule input then
        let st1 := push_event st (from_rule rule) in
        if dry_run rule then eval_loop input rules' st1
        else
          '(st2, brk) ← apply_action input rule st1;
          if brk : bool then Some st2 else eval_loop input rules' st2
      else eval_loop input rules' st
  end.

Definition eval_init (input : PolicyEvaluationInput) (v : TokenVault) (m : gmap str str) : EvalState :=
  {| ev_content := pe_content input; ev_events := []; ev_final_action := $"allow";
     ev_denied := false; ev_applied := false; ev_vault := v; ev_map := m |}.

(** [evaluate]: [list_enabled_rules] is the repository's answer for the
    workspace; the result carries the vault and map the caller passed by
    mutable reference. *)
Definition evaluate (list_enabled_rules : result (list PolicyRuleRow)) (input : PolicyEvaluationInput)
    (v : TokenVault) (m : gmap str str)
    : result (PolicyEvaluationOutcome * TokenVault * gmap str str) :=
  obind list_enabled_rules (fun rules =>
  obind (or_panic (eval_loop input rules (eval_init input v m))) (fun st =>
  Ok ({| oc_content := ev_content st;
         oc_result := {| final_action := ev_final_action st; events := ev_events st |};
         denied := ev_denied st;
         rules_evaluated := length rules;
         unprotected := negb (ev_applied st) |},
      ev_vault st, ev_map st))).

(** [PolicyRepository::list_enabled_rules] over the rows [list_rules] reads
    (ordered by priority, then id, by the query). *)
Definition list_enabled_rules (list_rules : result (list PolicyRuleRow)) : result (list PolicyRuleRow) :=
  obind list_rules (fun rows => Ok (List.filter enabled rows)).

(** ** Save-time validation (http/routes/dashboard/policy_rules.rs) *)

Definition VALID_ACTIONS : list str := [$"deny"; $"allow"; $"redact"; $"transform"; $"flag"].

Definition validate_action (act : str) : result unit :=
  if bool_decide (act ∈ VALID_ACTIONS) then Ok tt
  else Err (BadRequest ($"action must be one of: " ++ join $", " VALID_ACTIONS)).

Definition is_class_condition (c : Value) : bool :=
  bool_decide (get_str c $"field" = Some $"detection_class").

(** A [content_regex] condition whose pattern does not compile. *)
Definition bad_regex (c : Value) : bool :=
  bool_decide (get_str c $"field" = Some $"content_regex")
  && match get_str c $"value" with
     | Some pattern => match regex_new pattern with Some _ => false | None => true end
     | None => false
     end.

(** Error messages embed the regex crate's diagnostics; only the error kind
    is modelled. *)
Definition validate_conditions (conds : Value) : result unit :=
  match as_array conds with
  | None => Ok tt
  | Some array =>
      if existsb bad_regex array then
        Err (BadRequest $"condition field `content_regex` is not a valid regular expression")
      else if 1 <? length (List.filter is_class_condition array) then
        Err (BadRequest $"a rule may have at most one `detection_class` condition")
      else Ok tt
  end.

End engine.
