(* ===== verification/PolicySpec.v ===== *)
(** * Correctness of the policy engine

    The loop of [evaluate] refines a declarative specification: the first
    matching, enforced rule with a recognised action decides, and nothing else
    does. *)

From S2P Require Import Prelude Rstr Json Types Placeholders Redaction RedactionSpec Policy.

Section policy_spec.
Context `{CaseMap} (regex_new : str -> option (str -> bool)).

(** ** Matching *)

Definition request_scoped_hold (input : PolicyEvaluationInput) (conds : list Value) : Prop :=
  forall c, c ∈ conds -> is_detection_scoped c = false -> matches_condition regex_new c input = true.

Definition satisfies_all (conds : list Value) (d : Detection) : Prop :=
  forall c, c ∈ conds -> is_detection_scoped c = true -> matches_detection_condition c d = true.

Lemma split_conditions_Some conds input dconds :
  split_conditions regex_new conds input = Some dconds ->
  request_scoped_hold input conds /\ dconds = List.filter is_detection_scoped conds.
Proof.
  revert dconds. induction conds as [|c conds IH]; intros dconds; simpl.
  - intros [= <-]. split; [|done]. by intros c ?%not_elem_of_nil.
  - destruct (is_detection_scoped c) eqn:Ec.
    + intros (l & Hl & ->)%fmap_Some. destruct (IH _ Hl) as [Hr ->]. split; [|done].
      intros c' [->|Hc']%elem_of_cons Hs; [congruence|by apply Hr].
    + destruct (matches_condition regex_new c input) eqn:Em; [|done]. intros Hl.
      destruct (IH _ Hl) as [Hr ->]. split; [|done].
      intros c' [->|Hc']%elem_of_cons Hs; [done|by apply Hr].
Qed.

Lemma split_conditions_None conds input :
  split_conditions regex_new conds input = None -> ~ request_scoped_hold input conds.
Proof.
  induction conds as [|c conds IH]; simpl; [done|].
  destruct (is_detection_scoped c) eqn:Ec.
  - intros Hn%fmap_None Hr. apply IH; [done|]. intros c' Hc'. apply Hr. by right.
  - destruct (matches_condition regex_new c input) eqn:Em; [|intros _ Hr].
    + intros Hn Hr. apply IH; [done|]. intros c' Hc'. apply Hr. by right.
    + rewrite Hr in Em; [done|left|done].
Qed.

Lemma forallb_satisfies conds d :
  forallb (fun c => matches_detection_condition c d) (List.filter is_detection_scoped conds) = true
  <-> satisfies_all conds d.
Proof.
  rewrite forallb_forall. unfold satisfies_all. setoid_rewrite filter_In.
  setoid_rewrite <- list_elem_of_In. naive_solver.
Qed.

Lemma rule_matches_array rule conds input :
  conditions rule = Array conds ->
  rule_matches regex_new rule input = true <->
  request_scoped_hold input conds /\
  ((forall c, c ∈ conds -> is_detection_scoped c = false) \/
   exists d, d ∈ pe_detections input /\ satisfies_all conds d).
Proof.
  intros Hc. unfold rule_matches. rewrite Hc. simpl.
  destruct (split_conditions regex_new conds input) as [dconds|] eqn:Es.
  - apply split_conditions_Some in Es as [Hr ->].
    assert ((forall c, c ∈ conds -> is_detection_scoped c = false) <->
            List.filter is_detection_scoped conds = []) as Hnil.
    { split.
      - intros Hall. destruct (List.filter _ conds) as [|c l] eqn:E; [done|].
        assert (In c (List.filter is_detection_scoped conds)) as Hin by (rewrite E; by left).
        apply filter_In in Hin as [Hin Hs]. apply list_elem_of_In in Hin. by rewrite Hall in Hs.
      - intros Hn c Hin. destruct (is_detection_scoped c) eqn:E; [|done].
        assert (In c (List.filter is_detection_scoped conds)) as Hf.
        { apply filter_In. by rewrite <- list_elem_of_In. } by rewrite Hn in Hf. }
    rewrite Hnil. setoid_rewrite <- forallb_satisfies.
    destruct (List.filter is_detection_scoped conds) as [|c l]; [naive_solver|].
    rewrite existsb_exists. setoid_rewrite <- list_elem_of_In. naive_solver.
  - apply split_conditions_None in Es. naive_solver.
Qed.

(** ** Narrowing *)

(** A detection that satisfies the conditions read so far passes the filters
    collected so far. *)
Definition filters_sound (fs : Filters) (d : Detection) : Prop :=
  (class_filters fs <> [] -> exists c, c ∈ class_filters fs /\ class_filter_matches c (class d) = true) /\
  (forall t, confidence_gte fs = Some t -> fge (f64_from (confidence d)) t = true) /\
  (forall t, confidence_lte fs = Some t -> fle (f64_from (confidence d)) t = true).

Lemma passes_filters_sound fs d : filters_sound fs d -> passes_filters fs d = true.
Proof.
  intros (Hc & Hg & Hl). unfold passes_filters. rewrite !andb_true_iff. split_and!.
  - destruct (class_filters fs) as [|c cls] eqn:E; [done|]. destruct Hc as (c' & Hin & Hm); [done|].
    apply existsb_exists. exists c'. by rewrite <- list_elem_of_In.
  - destruct (confidence_gte fs); [by apply Hg|done].
  - destruct (confidence_lte fs); [by apply Hl|done].
Qed.

Lemma condition_parts_Some c field operator v :
  condition_parts c = Some (field, operator, v) ->
  get_str c $"field" = Some field /\ get_str c $"op" = Some operator /\ get c $"value" = Some v.
Proof.
  unfold condition_parts. intros (f & Hf & (o & Ho & (w & Hw & [= -> -> ->])%bind_Some)%bind_Some)%bind_Some.
  done.
Qed.

Lemma is_op_scoped c field operator v f o :
  condition_parts c = Some (field, operator, v) -> is_op field operator f o = true ->
  f = $"detection_class" \/ f = $"confidence_gte" -> is_detection_scoped c = true.
Proof.
  intros (Hf & _)%condition_parts_Some. unfold is_detection_scoped, is_op. rewrite Hf.
  rewrite andb_true_iff, !bool_decide_eq_true. intros [-> ->] [->| ->]; done.
Qed.

Lemma add_filter_sound fs c d :
  filters_sound fs d -> (is_detection_scoped c = true -> matches_detection_condition c d = true) ->
  filters_sound (add_filter fs c) d.
Proof.
  intros (Hc & Hg & Hl) Hm. unfold add_filter. unfold matches_detection_condition in Hm.
  destruct (condition_parts c) as [[[field operator] v]|] eqn:Ep; [|done].
  pose proof (is_op_scoped c field operator v) as Hsc.
  destruct (is_op field operator $"detection_class" $"eq") eqn:E1.
  { specialize (Hm (Hsc _ _ Ep E1 (or_introl eq_refl))). destruct (as_str v) as [f|]; [|done].
    split; [|done]. intros _. exists f. split; [set_solver|done]. }
  destruct (is_op field operator $"detection_class" $"in") eqn:E2.
  { specialize (Hm (Hsc _ _ Ep E2 (or_introl eq_refl))). destruct (as_array v) as [vs|]; [|done].
    split; [|done]. intros _. apply any_str_true in Hm as (f & Hin & Hf). exists f. split; [|done].
    simpl. apply elem_of_app. right. apply list_elem_of_omap. exists (VString f). done. }
  destruct (is_op field operator $"confidence_gte" $"gte") eqn:E3.
  { specialize (Hm (Hsc _ _ Ep E3 (or_intror eq_refl))). destruct (as_f64 v) as [t|]; [|done].
    split_and!; simpl; [done| |done]. by intros t' [= <-]. }
  destruct (is_op field operator $"confidence_gte" $"lte") eqn:E4; [|done].
  specialize (Hm (Hsc _ _ Ep E4 (or_intror eq_refl))). destruct (as_f64 v) as [t|]; [|done].
  split_and!; simpl; [done|done|]. by intros t' [= <-].
Qed.

Lemma rule_filters_sound rule conds d :
  conditions rule = Array conds -> satisfies_all conds d -> filters_sound (rule_filters rule) d.
Proof.
  intros Hc Hs. unfold rule_filters. rewrite Hc. simpl.
  assert (forall fs, filters_sound fs d -> filters_sound (foldl add_filter fs conds) d) as Hgo.
  { clear Hc. induction conds as [|c conds IH]; intros fs Hfs; simpl; [done|]. apply IH.
    - intros c' Hin. apply Hs. by right.
    - apply add_filter_sound; [done|]. apply Hs. left. }
  apply Hgo. repeat split; done.
Qed.

Lemma matching_sublist rule ds : matching_detections rule ds ⊆ ds.
Proof.
  unfold matching_detections. destruct (List.filter _ ds) as [|d l] eqn:E; [done|].
  intros x Hx. rewrite <- E in Hx. apply list_elem_of_In, filter_In in Hx as [Hx _].
  by apply list_elem_of_In.
Qed.

(** ** The evaluation loop *)

Definition recognised (act : str) : bool := bool_decide (act ∈ VALID_ACTIONS).

(** A rule that decides the request. *)
Definition decisive (input : PolicyEvaluationInput) (rule : PolicyRuleRow) : bool :=
  rule_matches regex_new rule input && negb (dry_run rule) && recognised (action rule).

Definition matched_events (input : PolicyEvaluationInput) (rules : list PolicyRuleRow) : list PolicyEvent :=
  from_rule <$> List.filter (fun r => rule_matches regex_new r input) rules.

(** The action of the last matching enforced rule seen, or what it was. *)
Definition last_action (input : PolicyEvaluationInput) (dflt : str) (rules : list PolicyRuleRow) : str :=
  foldl (fun acc r => if rule_matches regex_new r input && negb (dry_run r) then action r else acc)
    dflt rules.

Definition bump (input : PolicyEvaluationInput) (rules : list PolicyRuleRow) (st : EvalState) : EvalState :=
  {| ev_content := ev_content st; ev_events := ev_events st ++ matched_events input rules;
     ev_final_action := last_action input (ev_final_action st) rules;
     ev_denied := ev_denied st; ev_applied := ev_applied st;
     ev_vault := ev_vault st; ev_map := ev_map st |}.

Lemma apply_action_unrecognised input rule st :
  recognised (action rule) = false ->
  apply_action input rule st =
    Some ({| ev_content := ev_content st; ev_events := ev_events st; ev_final_action := action rule;
             ev_denied := ev_denied st; ev_applied := ev_applied st;
             ev_vault := ev_vault st; ev_map := ev_map st |}, false).
Proof.
  unfold recognised, VALID_ACTIONS. rewrite bool_decide_eq_false, !not_elem_of_cons. intros (?&?&?&?&?&?).
  unfold apply_action. by rewrite !decide_False by done.
Qed.

Lemma apply_action_recognised input rule st st' brk :
  recognised (action rule) = true -> apply_action input rule st = Some (st', brk) ->
  brk = true /\ ev_applied st' = true /\ ev_events st' = ev_events st /\ ev_final_action st' = action rule.
Proof.
  unfold recognised, VALID_ACTIONS. rewrite bool_decide_eq_true. intros Hr. unfold apply_action.
  repeat case_decide; intros Ha; simplify_eq/=; try done.
  - destruct (apply_redaction _ _ _ _) as [[[c v] m]|]; simplify_eq/=; done.
  - destruct (apply_transform _ _ _); simplify_eq/=; done.
  - exfalso. rewrite !elem_of_cons, elem_of_nil in Hr. naive_solver.
Qed.

Lemma bump_nil input st : bump input [] st = st.
Proof. destruct st. unfold bump. simpl. by rewrite app_nil_r. Qed.

(** Rules that do not decide leave content, vault and verdict alone. *)
Lemma eval_loop_skip input pre post st :
  Forall (fun r => decisive input r = false) pre ->
  eval_loop regex_new input (pre ++ post) st = eval_loop regex_new input post (bump input pre st).
Proof.
  intros Hpre. revert st. induction Hpre as [|r pre Hr Hpre IH]; intros st; [by rewrite bump_nil|].
  simpl. unfold decisive in Hr.
  destruct (rule_matches regex_new r input) eqn:Em; simpl in Hr.
  - destruct (dry_run r) eqn:Ed; simpl in Hr.
    + rewrite IH. f_equal. unfold bump, matched_events, last_action. simpl. rewrite Em, Ed. simpl.
      by rewrite <- app_assoc.
    + rewrite apply_action_unrecognised by done. simpl. rewrite IH. f_equal.
      unfold bump, matched_events, last_action. simpl. rewrite Em, Ed. simpl. by rewrite <- app_assoc.
  - rewrite IH. f_equal. unfold bump, matched_events, last_action. simpl. by rewrite Em.
Qed.

(** The first deciding rule ends the loop with its own action. *)
Lemma eval_loop_decides input pre r post st :
  Forall (fun r => decisive input r = false) pre -> decisive input r = true ->
  eval_loop regex_new input (pre ++ r :: post) st
  = fst <$> apply_action input r (push_event (bump input pre st) (from_rule r)).
Proof.
  intros Hpre Hr. rewrite eval_loop_skip by done. simpl. unfold decisive in Hr.
  rewrite !andb_true_iff, negb_true_iff in Hr. destruct Hr as [[-> ->] Hrec].
  destruct (apply_action _ _ _) as [[st' brk]|] eqn:Ea; [|done].
  destruct (apply_action_recognised _ _ _ _ _ Hrec Ea) as (-> & _). done.
Qed.

(** Either no rule decides, or the list splits at the first that does. *)
Lemma first_decisive input rules :
  Forall (fun r => decisive input r = false) rules \/
  exists pre r post, rules = pre ++ r :: post /\
    Forall (fun r => decisive input r = false) pre /\ decisive input r = true.
Proof.
  induction rules as [|r rules IH]; [left; constructor|].
  destruct (decisive input r) eqn:E; [right; by exists [], r, rules|].
  destruct IH as [IH|(pre & r' & post & -> & Hpre & Hr)]; [left; by constructor|].
  right. exists (r :: pre), r', post. split; [done|]. split; [by constructor|done].
Qed.

(** What one action does to the content, the vault and the verdict. *)
Definition action_effect (input : PolicyEvaluationInput) (rule : PolicyRuleRow) (v : TokenVault)
    (m : gmap str str) : option (str * TokenVault * gmap str str) :=
  if decide (action rule = $"redact") then
    apply_redaction (pe_content input)
      (if fail_closed input then pe_detections input
       else matching_detections rule (pe_detections input)) v m
  else if decide (action rule = $"transform") then
    c ← apply_transform (pe_content input) (matching_detections rule (pe_detections input)) (template_of rule);
    Some (c, v, m)
  else Some (pe_content input, v, m).

Lemma apply_action_effect input rule st :
  recognised (action rule) = true -> ev_content st = pe_content input -> ev_denied st = false ->
  fst <$> apply_action input rule st =
    ('(c, v, m) ← action_effect input rule (ev_vault st) (ev_map st);
     Some {| ev_content := c; ev_events := ev_events st; ev_final_action := action rule;
             ev_denied := bool_decide (action rule = $"deny"); ev_applied := true;
             ev_vault := v; ev_map := m |}).
Proof.
  intros Hrec Hcont Hden. unfold apply_action, action_effect. rewrite Hcont, Hden.
  destruct (decide (action rule = $"deny")) as [->|Hd]; [done|]. rewrite bool_decide_eq_false_2 by done.
  destruct (decide (action rule = $"allow")) as [->|Ha]; [done|].
  destruct (decide (action rule = $"redact")) as [->|Hr].
  { destruct (apply_redaction _ _ _ _) as [[[c v] m]|]; done. }
  destruct (decide (action rule = $"transform")) as [->|Ht].
  { destruct (apply_transform _ _ _); done. }
  destruct (decide (action rule = $"flag")) as [->|Hf]; [done|].
  exfalso. unfold recognised, VALID_ACTIONS in Hrec.
  rewrite bool_decide_eq_true, !elem_of_cons, elem_of_nil in Hrec. naive_solver.
Qed.

Lemma bump_init input rules v m :
  bump input rules (eval_init input v m) =
    {| ev_content := pe_content input; ev_events := matched_events input rules;
       ev_final_action := last_action input $"allow" rules; ev_denied := false; ev_applied := false;
       ev_vault := v; ev_map := m |}.
Proof. done. Qed.

Lemma eval_loop_no_decision input rules st :
  Forall (fun r => decisive input r = false) rules ->
  eval_loop regex_new input rules st = Some (bump input rules st).
Proof. intros Hr. pose proof (eval_loop_skip input rules [] st Hr) as Hs. by rewrite app_nil_r in Hs. Qed.

Lemma action_effect_total input rule v m :
  Forall (fun d => tail_ok (value d)) (pe_detections input) -> is_Some (action_effect input rule v m).
Proof.
  intros Ht. unfold action_effect. repeat case_decide.
  - match goal with |- is_Some (apply_redaction ?c ?ds ?v ?m) =>
      destruct (apply_redaction_returns c ds v m) as (? & ? & ? & ->) end. by eauto.
  - destruct (apply_transform _ _ _) eqn:E; simpl; [by eauto|]. exfalso.
    assert (is_Some (apply_transform (pe_content input)
      (matching_detections rule (pe_detections input)) (template_of rule))) as [? Hs];
      [|by rewrite Hs in E].
    unfold apply_transform.
    destruct (transform_loop_total (pe_content input) (template_of rule)
      (sort_by span_le (matching_detections rule (pe_detections input))) (0%N, [])) as (st & -> & Hb); [|done|].
    + rewrite sort_by_perm. rewrite Forall_forall in *. intros d Hd. apply Ht. by eapply matching_sublist.
    + simpl. rewrite slice_from_ok by done. simpl. by eauto.
  - by eauto.
Qed.

(** The evaluation as a function of the first deciding rule. *)
Lemma evaluate_decided input pre r post v m :
  Forall (fun r => decisive input r = false) pre -> decisive input r = true ->
  evaluate regex_new (Ok (pre ++ r :: post)) input v m =
    match action_effect input r v m with
    | None => Panic
    | Some (c, v', m') =>
        Ok ({| oc_content := c;
               oc_result := {| final_action := action r; events := matched_events input (pre ++ [r]) |};
               denied := bool_decide (action r = $"deny");
               rules_evaluated := length (pre ++ r :: post);
               unprotected := false |}, v', m')
    end.
Proof.
  intros Hpre Hr. unfold evaluate. simpl. rewrite eval_loop_decides, apply_action_effect by
    (done || by unfold decisive in Hr; rewrite !andb_true_iff in Hr; destruct Hr).
  simpl. destruct (action_effect input r v m) as [[[c v'] m']|]; [|done]. simpl. do 4 f_equal.
  unfold matched_events. rewrite List.filter_app, fmap_app. simpl.
  unfold decisive in Hr. rewrite !andb_true_iff in Hr. destruct Hr as [[-> _] _]. done.
Qed.

Lemma evaluate_undecided input rules v m :
  Forall (fun r => decisive input r = false) rules ->
  evaluate regex_new (Ok rules) input v m =
    Ok ({| oc_content := pe_content input;
           oc_result := {| final_action := last_action input $"allow" rules;
                           events := matched_events input rules |};
           denied := false; rules_evaluated := length rules; unprotected := true |}, v, m).
Proof. intros Hr. unfold evaluate. simpl. by rewrite eval_loop_no_decision. Qed.

(** Everything the engine decides, without the log of matched rules. *)
Definition verdict (r : result (PolicyEvaluationOutcome * TokenVault * gmap str str))
    : result (str * str * bool * bool * TokenVault * gmap str str) :=
  obind r (fun '(o, v, m) =>
    Ok (oc_content o, final_action (oc_result o), denied o, unprotected o, v, m)).

(** ** Properties *)

(** C10: First decision wins: the first rule that matches, is not a dry run and
    has a recognised action determines the content, the verdict and the vault
    exactly; rules after it have no effect, rules before it only log. *)
Theorem evaluate_first_decision input pre r post v m :
  Forall (fun r => decisive input r = false) pre -> decisive input r = true ->
  evaluate regex_new (Ok (pre ++ r :: post)) input v m =
    match action_effect input r v m with
    | None => Panic
    | Some (c, v', m') =>
        Ok ({| oc_content := c;
               oc_result := {| final_action := action r; events := matched_events input (pre ++ [r]) |};
               denied := bool_decide (action r = $"deny");
               rules_evaluated := length (pre ++ r :: post);
               unprotected := false |}, v', m')
    end.
Proof. apply evaluate_decided. Qed.

(** A request is reported unprotected exactly when no rule decided it, and
    then content, vault and map come out as they went in and the request is
    not denied. *)
Theorem evaluate_unprotected_iff input rules v m o v' m' :
  evaluate regex_new (Ok rules) input v m = Ok (o, v', m') ->
  (unprotected o = true <-> Forall (fun r => decisive input r = false) rules) /\
  (unprotected o = true -> oc_content o = pe_content input /\ denied o = false /\ v' = v /\ m' = m).
Proof.
  destruct (first_decisive input rules) as [Hno|(pre & r & post & -> & Hpre & Hr)].
  - rewrite evaluate_undecided by done. by intros [= <- <- <-].
  - rewrite evaluate_decided by done. destruct (action_effect input r v m) as [[[c w] k]|]; [|done].
    intros [= <- <- <-]. simpl. split; [|done]. split; [done|].
    intros Hf. apply Forall_app in Hf as [_ Hf]. inversion Hf. congruence.
Qed.

(** Dry-run rules are inert: dropping them changes nothing but the log. *)
Theorem dry_run_rules_inert input rules v m :
  verdict (evaluate regex_new (Ok rules) input v m)
  = verdict (evaluate regex_new (Ok (List.filter (fun r => negb (dry_run r)) rules)) input v m).
Proof.
  set (keep := fun r => negb (dry_run r)).
  assert (forall rs, Forall (fun r => decisive input r = false) rs ->
    Forall (fun r => decisive input r = false) (List.filter keep rs) /\
    forall a, last_action input a (List.filter keep rs) = last_action input a rs) as Hpre.
  { induction 1 as [|r rs Hr Hrs [IH1 IH2]]; [done|]. simpl.
    destruct (keep r) eqn:Ek; simpl; [split; [by constructor|done]|].
    split; [done|]. intros a. rewrite IH2. unfold keep in Ek. rewrite Ek. by rewrite andb_false_r. }
  destruct (first_decisive input rules) as [Hno|(pre & r & post & -> & Hf & Hr)].
  - destruct (Hpre _ Hno) as [Hno' Hla]. rewrite !evaluate_undecided by done. simpl. by rewrite Hla.
  - assert (keep r = true) as Hk.
    { unfold decisive in Hr. rewrite !andb_true_iff in Hr. by destruct Hr as [[_ ?] _]. }
    assert (List.filter keep (pre ++ r :: post) = List.filter keep pre ++ r :: List.filter keep post) as ->.
    { rewrite List.filter_app. cbn [List.filter]. by rewrite Hk. }
    rewrite (evaluate_decided input pre r post), evaluate_decided by (done || by apply Hpre).
    destruct (action_effect input r v m) as [[[c w] k]|]; done.
Qed.

(** Evaluation returns for every rule set as long as no detected value makes
    a transform slice inside a character: with such values the only error is
    the repository's own. *)
Theorem evaluate_returns rules input v m :
  Forall (fun d => tail_ok (value d)) (pe_detections input) ->
  exists o v' m', evaluate regex_new (Ok rules) input v m = Ok (o, v', m').
Proof.
  intros Ht. destruct (first_decisive input rules) as [Hno|(pre & r & post & -> & Hpre & Hr)].
  - rewrite evaluate_undecided by done. by eauto.
  - rewrite evaluate_decided by done.
    destruct (action_effect_total input r v m Ht) as [[[c w] k] ->]. by eauto.
Qed.

(** A rule with a condition list matches exactly when every request-scoped
    condition holds and, if it has detection-scoped conditions, one single
    detection satisfies all of them. *)
Theorem rule_matches_same_detection rule conds input :
  conditions rule = Array conds ->
  rule_matches regex_new rule input = true <->
  request_scoped_hold input conds /\
  ((forall c, c ∈ conds -> is_detection_scoped c = false) \/
   exists d, d ∈ pe_detections input /\ satisfies_all conds d).
Proof. apply rule_matches_array. Qed.

(** When a matching rule has a detection-scoped condition, its narrowed
    detection set contains a detection satisfying all its conditions and only
    detections that pass its filters: the return-everything fallback of
    [matching_detections] is never taken for it. *)
Theorem matched_rule_narrows rule conds c input :
  conditions rule = Array conds -> c ∈ conds -> is_detection_scoped c = true ->
  rule_matches regex_new rule input = true ->
  matching_detections rule (pe_detections input)
  = List.filter (passes_filters (rule_filters rule)) (pe_detections input) /\
  exists d, d ∈ matching_detections rule (pe_detections input) /\ satisfies_all conds d.
Proof.
  intros Hc Hin Hs Hm. apply (rule_matches_array rule conds input Hc) in Hm as [_ [Hno|(d & Hd & Hsat)]].
  { by rewrite Hno in Hs. }
  assert (In d (List.filter (passes_filters (rule_filters rule)) (pe_detections input))) as Hf.
  { apply filter_In. split; [by apply list_elem_of_In|].
    apply passes_filters_sound. by eapply rule_filters_sound. }
  unfold matching_detections.
  destruct (List.filter (passes_filters (rule_filters rule)) (pe_detections input)) as [|d0 l] eqn:E;
    [done|]. split; [done|]. exists d. split; [|done]. by apply list_elem_of_In.
Qed.

(** Under [fail_closed] a firing redact rule protects the whole request: on
    nested-or-disjoint detections the forwarded content has every detected
    span woven out, whatever classes the rule names. *)
Theorem fail_closed_redact_covers_all input pre r post v m o v' m' :
  fail_closed input = true -> action r = $"redact" ->
  Forall (fun r => decisive input r = false) pre -> decisive input r = true ->
  laminar (pe_detections input) -> Forall (span_usable (pe_content input)) (pe_detections input) ->
  evaluate regex_new (Ok (pre ++ r :: post)) input v m = Ok (o, v', m') ->
  oc_content o = weave (pe_content input) 0 (redaction_plan (pe_content input) (pe_detections input)) /\
  forall d s e, d ∈ pe_detections input -> span d = Some (s, e) -> (s < e)%N ->
    covers (redaction_plan (pe_content input) (pe_detections input)) s e.
Proof.
  intros Hfc Hact Hpre Hr Hlam Hus. rewrite evaluate_decided by done. unfold action_effect.
  rewrite Hact, Hfc. rewrite decide_True by done.
  destruct (apply_redaction _ _ _ _) as [[[c w] k]|] eqn:E; [|done]. intros [= <- <- <-]. simpl.
  split; [by eapply apply_redaction_plan|by apply redaction_plan_covers].
Qed.

(** Save-time validation is exact: a condition list is accepted if and only if
    every [content_regex] pattern compiles and at most one condition is on
    [detection_class]. *)
Theorem validate_conditions_iff conds :
  validate_conditions regex_new (Array conds) = Ok tt <->
  (forall c p, c ∈ conds -> get_str c $"field" = Some $"content_regex" -> get_str c $"value" = Some p ->
     is_Some (regex_new p)) /\
  length (List.filter is_class_condition conds) <= 1.
Proof.
  unfold validate_conditions. simpl. destruct (existsb (bad_regex regex_new) conds) eqn:E.
  - split; [done|]. intros [Hr _]. exfalso. apply existsb_exists in E as (c & Hin & Hb).
    apply list_elem_of_In in Hin. unfold bad_regex in Hb. rewrite andb_true_iff, bool_decide_eq_true in Hb.
    destruct Hb as [Hf Hv]. destruct (get_str c $"value") as [p|] eqn:Ev; [|done].
    destruct (Hr c p Hin Hf Ev) as [f Hp]. by rewrite Hp in Hv.
  - assert (forall c p, c ∈ conds -> get_str c $"field" = Some $"content_regex" ->
      get_str c $"value" = Some p -> is_Some (regex_new p)) as Hall.
    { intros c p Hin Hf Hv. destruct (regex_new p) as [f|] eqn:Ep; [by eauto|]. exfalso.
      assert (existsb (bad_regex regex_new) conds = true); [|congruence].
      apply existsb_exists. exists c. rewrite <- list_elem_of_In. split; [done|].
      unfold bad_regex. by rewrite Hf, bool_decide_eq_true_2, Hv, Ep by done. }
    destruct (Nat.ltb_spec 1 (length (List.filter is_class_condition conds))).
    + split; [done|]. intros [_ ?]. lia.
    + split; [|done]. intros _. split; [done|lia].
Qed.

End policy_spec.

(** ** Witnesses *)

(** A regex engine for literal patterns; a lone ["("] does not compile. *)
Definition literal_regex (p : str) : option (str -> bool) :=
  if decide (p = $"(") then None else Some (fun s => contains s p).

Definition mk_cond (field op : str) (v : Value) : Value :=
  Object [($"field", VString field); ($"op", VString op); ($"value", v)].

Definition mk_rule (act : str) (dry : bool) (conds : list Value) : PolicyRuleRow := {|
  id := 7%N; workspace_id := 1%N; name := $"rule"; priority := 10%Z; conditions := Array conds;
  action := act; action_params := Null; enabled := true; dry_run := dry;
|}.

Definition demo_input : PolicyEvaluationInput := {|
  pe_request_id := 1%N; pe_workspace_id := 1%N; provider_name := $"openai"; model := $"gpt-4o-mini";
  pe_content := demo_text; pe_detections := demo_detections; fail_closed := true;
|}.

Definition person_eq : Value := mk_cond $"detection_class" $"eq" (VString $"PERSON").
Definition deny_hr : PolicyRuleRow := mk_rule $"deny" false [mk_cond $"provider" $"eq" (VString $"vertex")].
Definition redact_persons : PolicyRuleRow := mk_rule $"redact" false [person_eq].
Definition dry_deny : PolicyRuleRow := mk_rule $"deny" true [].
Definition demo_pre : list PolicyRuleRow := [deny_hr; dry_deny].

Lemma demo_pre_inert :
  Forall (fun r => decisive literal_regex demo_input r = false) demo_pre.
Proof. repeat constructor. Qed.

Lemma redact_persons_decisive : decisive literal_regex demo_input redact_persons = true.
Proof. vm_compute. reflexivity. Qed.

Lemma demo_tails : Forall (fun d => tail_ok (value d)) (pe_detections demo_input).
Proof. repeat constructor; vm_compute; first [left; discriminate | right; reflexivity]. Qed.

Lemma demo_evaluates :
  exists o v' m', @evaluate ascii_case_map literal_regex (Ok (demo_pre ++ redact_persons :: []))
    demo_input TokenVault_default ∅ = Ok (o, v', m').
Proof.
  rewrite (@evaluate_decided ascii_case_map literal_regex demo_input demo_pre redact_persons []
    TokenVault_default ∅ demo_pre_inert redact_persons_decisive).
  destruct (@action_effect_total ascii_case_map demo_input redact_persons TokenVault_default ∅ demo_tails)
    as [[[c w] k] ->]. by eauto.
Qed.

Lemma evaluate_first_decision_witness :
  denied <$> (match @evaluate ascii_case_map literal_regex (Ok (demo_pre ++ mk_rule $"deny" false [] :: [redact_persons]))
    demo_input TokenVault_default ∅ with Ok (o, _, _) => Some o | _ => None end) = Some true.
Proof.
  rewrite (@evaluate_first_decision ascii_case_map literal_regex demo_input demo_pre (mk_rule $"deny" false [])
    [redact_persons] TokenVault_default ∅ demo_pre_inert eq_refl). reflexivity.
Defined.

Lemma evaluate_unprotected_iff_witness :
  exists o v' m', @evaluate ascii_case_map literal_regex (Ok demo_pre) demo_input TokenVault_default ∅
    = Ok (o, v', m') /\ unprotected o = true /\ oc_content o = demo_text.
Proof.
  eexists _, _, _. split.
  - exact (@evaluate_undecided ascii_case_map literal_regex demo_input demo_pre TokenVault_default ∅
      demo_pre_inert).
  - split; [reflexivity|].
    exact (proj1 (proj2 (@evaluate_unprotected_iff ascii_case_map literal_regex demo_input demo_pre
      TokenVault_default ∅ _ _ _ (@evaluate_undecided ascii_case_map literal_regex demo_input demo_pre
        TokenVault_default ∅ demo_pre_inert)) eq_refl)).
Defined.

Lemma evaluate_returns_witness :
  exists o v' m', @evaluate ascii_case_map literal_regex
    (Ok [mk_rule $"transform" false [person_eq]]) demo_input TokenVault_default ∅ = Ok (o, v', m').
Proof. apply evaluate_returns. exact demo_tails. Defined.

Lemma rule_matches_same_detection_witness :
  rule_matches literal_regex redact_persons demo_input = true.
Proof.
  apply (rule_matches_same_detection literal_regex redact_persons [person_eq] demo_input eq_refl).
  split.
  - intros c [->|Hc]%elem_of_cons Hs; [discriminate|by apply not_elem_of_nil in Hc].
  - right. exists (mk_det $"PERSON" $"Ali" 0 3). split; [unfold demo_input, demo_detections; simpl; right; right; left|].
    intros c [->|Hc]%elem_of_cons Hs; [vm_compute; reflexivity|by apply not_elem_of_nil in Hc].
Defined.

Lemma matched_rule_narrows_witness :
  length (matching_detections redact_persons demo_detections) = 2 /\
  exists d, d ∈ matching_detections redact_persons demo_detections /\ satisfies_all [person_eq] d.
Proof.
  split; [vm_compute; reflexivity|].
  refine (proj2 (matched_rule_narrows literal_regex redact_persons [person_eq] person_eq demo_input
    eq_refl _ eq_refl _)); [left|vm_compute; reflexivity].
Defined.

Lemma fail_closed_redact_covers_all_witness :
  covers (@redaction_plan ascii_case_map demo_text demo_detections) 13 21.
Proof.
  destruct demo_evaluates as (o & v' & m' & He).
  refine (proj2 (@fail_closed_redact_covers_all ascii_case_map literal_regex demo_input demo_pre redact_persons []
    TokenVault_default ∅ o v' m' eq_refl eq_refl demo_pre_inert redact_persons_decisive
    demo_laminar demo_usable He) (mk_det $"EMAIL_ADDRESS" $"ali@x.uz" 13 21) 13%N 21%N _ eq_refl _);
    [unfold demo_input, demo_detections; simpl; right; left|lia].
Defined.

Lemma validate_conditions_iff_witness :
  validate_conditions literal_regex (Array [person_eq]) = Ok tt.
Proof.
  apply validate_conditions_iff. split; [|vm_compute; lia].
  intros c p [->|Hc]%elem_of_cons Hf; [discriminate|by apply not_elem_of_nil in Hc].
Defined.

(** ** Two class conditions on one rule *)

Definition double_class_rule : PolicyRuleRow :=
  mk_rule $"deny" false [mk_cond $"detection_class" $"eq" (VString $"UZCARD");
                         mk_cond $"detection_class" $"eq" (VString $"CREDIT_CARD")].

Definition card_input : PolicyEvaluationInput := {|
  pe_request_id := 1%N; pe_workspace_id := 1%N; provider_name := $"openai"; model := $"gpt-4o-mini";
  pe_content := $"8600123412341234";
  pe_detections := [mk_det $"UZCARD" $"8600123412341234" 0 16]; fail_closed := true;
|}.

(** A rule with two [detection_class] conditions can fire: a local card
    satisfies both its own class and the generic card class, so the shape that
    save-time validation rejects as impossible denies this request. *)
Theorem double_class_rule_fires :
  rule_matches literal_regex double_class_rule card_input = true /\
  validate_conditions literal_regex (conditions double_class_rule) <> Ok tt.
Proof. split; [vm_compute; reflexivity|vm_compute; discriminate]. Qed.
