(* ===== verification/SecureMode.v ===== *)
(** * The pure stages of the request path

    The helpers of [pipeline/service.rs] around policy evaluation: file-vault
    markers, the workspace secure mode, the default-redact safety net, the
    response-side filter and the audited view of the last user message. *)

From Stdlib Require Import SpecFloat.
From S2P Require Import Prelude Rstr Json Types Redaction Sidecar Analytics Policy.

(** ** File-vault markers *)

Definition FILE_VAULT_MARKER_OPEN : str := $"[[sp:v=".
Definition FILE_VAULT_MARKER_CLOSE : str := $"]]".

(** The marker strings are ASCII, so every cut is at a character boundary.
    A round removes at least the opening marker: the length of the text is
    fuel enough. *)
Fixpoint strip_loop (fuel : nat) (rest : str) : str * list str :=
  match fuel with
  | 0 => (rest, [])
  | S fuel' =>
      match find rest FILE_VAULT_MARKER_OPEN with
      | None => (rest, [])
      | Some idx =>
          let after := drop (idx + length FILE_VAULT_MARKER_OPEN) rest in
          match find after FILE_VAULT_MARKER_CLOSE with
          | Some stop =>
              let vref := take stop after in
              let '(cleaned, refs) :=
                strip_loop fuel' (drop (stop + length FILE_VAULT_MARKER_CLOSE) after) in
              (take idx rest ++ cleaned, match vref with [] => refs | _ => vref :: refs end)
          | None => (take idx rest ++ drop idx rest, [])
          end
      end
  end.

Definition strip_file_vault_markers (text : str) : str * list str := strip_loop (length text) text.

(** [preload_file_vault]; [load vref] is the stashed map behind a reference,
    in its iteration order, [None] when it is missing or unreadable. *)
Definition preload_file_vault (load : str -> option (list (str * str))) (prompt : str) (v : TokenVault)
    : str * TokenVault :=
  if contains prompt FILE_VAULT_MARKER_OPEN then
    let '(cleaned, refs) := strip_file_vault_markers prompt in
    (cleaned,
     foldl (fun v vref =>
              foldl (fun v kv => vault_insert v kv.1 kv.2) v (default [] (load vref))) v refs)
  else (prompt, v).

(** ** Secure mode *)

Record SecureModeRow : Type := {
  sm_workspace_id : Uuid;
  sm_enabled : bool;
  sm_level : str;
  block_on_pii_detection : bool;
  block_on_injection_detection : bool;
  redact_pii_in_responses : bool;
}.

Definition SecureModeRow_default : SecureModeRow := {|
  sm_workspace_id := nil_uuid; sm_enabled := false; sm_level := $"standard";
  block_on_pii_detection := false; block_on_injection_detection := false;
  redact_pii_in_responses := false;
|}.

(** The nearest [f32] to 0.99. *)
Definition INJECTION_BLOCK_THRESHOLD : f32 := S754_finite false 16609444 (-24).

(** [format!("{:.2}", x)]: the exact value rounded to two decimals, ties to
    even. *)
Definition round_div (n d : Z) : Z :=
  let q := (n / d)%Z in let r := (n mod d)%Z in
  if (2 * r <? d)%Z then q else if (d <? 2 * r)%Z then (q + 1)%Z
  else if Z.even q then q else (q + 1)%Z.

Definition show_fixed2 (x : f32) : str :=
  match x with
  | S754_zero s => (if s then $"-" else []) ++ $"0.00"
  | S754_infinity s => (if s then $"-" else []) ++ $"inf"
  | S754_nan => $"NaN"
  | S754_finite s m e =>
      let hundredths :=
        if (0 <=? e)%Z then (Zpos m * 2 ^ e * 100)%Z else round_div (Zpos m * 100) (2 ^ (- e)) in
      let frac := Z.to_N (hundredths mod 100) in
      (if s then $"-" else []) ++ show_N (Z.to_N (hundredths / 100)) ++ $"."
      ++ (if (frac <? 10)%N then $"0" else []) ++ show_N frac
  end.

Definition secure_mode_rule_id : Uuid := nil_uuid.

(** Field updates of the outcome the stages mutate in place. *)
Definition set_verdict (o : PolicyEvaluationOutcome) (d : bool) (act : str) : PolicyEvaluationOutcome := {|
  oc_content := oc_content o;
  oc_result := {| final_action := act; events := events (oc_result o) |};
  denied := d; rules_evaluated := rules_evaluated o; unprotected := unprotected o;
|}.

Definition set_content (o : PolicyEvaluationOutcome) (c act : str) : PolicyEvaluationOutcome := {|
  oc_content := c;
  oc_result := {| final_action := act; events := events (oc_result o) |};
  denied := denied o; rules_evaluated := rules_evaluated o; unprotected := unprotected o;
|}.

Definition record_secure_mode_event (o : PolicyEvaluationOutcome) (name act : str)
    : PolicyEvaluationOutcome := {|
  oc_content := oc_content o;
  oc_result := {|
    final_action := final_action (oc_result o);
    events := events (oc_result o)
      ++ [{| rule_id := secure_mode_rule_id; rule_name := name; pe_action := act; pe_dry_run := false |}] |};
  denied := denied o; rules_evaluated := rules_evaluated o; unprotected := unprotected o;
|}.

Definition set_vault (st : PipelineState) (v : TokenVault) (m : gmap str str) : PipelineState := {|
  vault := v; detections := detections st; policy_events := policy_events st; redaction_map := m;
|}.

Definition is_empty_list {A} (l : list A) : bool := match l with [] => true | _ => false end.

Section stages.
  Context `{CaseMap}.

(** The default redaction both the standard level and the safety net apply. *)
Definition redact_all (o : PolicyEvaluationOutcome) (st : PipelineState) (ds : list Detection)
    : option (PolicyEvaluationOutcome * PipelineState) :=
  '(c, v, m) ← apply_redaction (oc_content o) ds (vault st) (redaction_map st);
  let act := final_action (oc_result o) in
  Some (set_content o c (if decide (act = $"allow") then $"redact" else act), set_vault st v m).

Definition injection_blocking (injection : InjectionResponse) : bool :=
  is_injection injection && fge (inj_score injection) INJECTION_BLOCK_THRESHOLD.

Definition override_permissive (ds : list Detection) (o : PolicyEvaluationOutcome)
    : PolicyEvaluationOutcome :=
  if denied o then
    let act := if is_empty_list ds then $"allow" else $"redact" in
    record_secure_mode_event (set_verdict o false act)
      $"Secure mode (permissive): downgraded policy deny" act
  else o.

Definition override_strict (ds : list Detection) (injection : InjectionResponse)
    (o : PolicyEvaluationOutcome) : PolicyEvaluationOutcome :=
  if negb (is_empty_list ds) || injection_blocking injection then
    record_secure_mode_event (set_verdict o true $"deny")
      (if injection_blocking injection
       then $"Secure mode (strict): blocked on prompt injection (score "
            ++ show_fixed2 (inj_score injection) ++ $")"
       else $"Secure mode (strict): blocked on PII/secret detection")
      $"deny"
  else o.

Definition override_standard (config : SecureModeRow) (ds : list Detection)
    (injection : InjectionResponse) (o : PolicyEvaluationOutcome) (st : PipelineState)
    : option (PolicyEvaluationOutcome * PipelineState) :=
  '(o1, st1) ← (if negb (is_empty_list ds) && bool_decide (redaction_map st = ∅)
                then redact_all o st ds else Some (o, st));
  if block_on_pii_detection config && negb (is_empty_list ds) then
    Some (record_secure_mode_event (set_verdict o1 true $"deny")
            $"Secure mode: block on PII detection" $"deny", st1)
  else if block_on_injection_detection config && injection_blocking injection then
    Some (record_secure_mode_event (set_verdict o1 true $"deny")
            ($"Secure mode: block on prompt injection (score "
             ++ show_fixed2 (inj_score injection) ++ $")") $"deny", st1)
  else Some (o1, st1).

Definition apply_secure_mode_override (config : SecureModeRow) (ds : list Detection)
    (injection : InjectionResponse) (o : PolicyEvaluationOutcome) (st : PipelineState)
    : option (PolicyEvaluationOutcome * PipelineState) :=
  if decide (sm_level config = $"permissive") then Some (override_permissive ds o, st)
  else if decide (sm_level config = $"strict") then Some (override_strict ds injection o, st)
  else override_standard config ds injection o st.

(** ** The default-redact safety net *)

Definition apply_fallback_redaction (chat_debug_mode redact_when_no_rules : bool)
    (o : PolicyEvaluationOutcome) (st : PipelineState)
    : option (PolicyEvaluationOutcome * PipelineState) :=
  let use_fallback_redact := chat_debug_mode || (redact_when_no_rules && unprotected o) in
  if use_fallback_redact && bool_decide (redaction_map st = ∅)
     && negb (is_empty_list (detections st))
  then redact_all o st (detections st)
  else Some (o, st).

Definition policy_violation_label (act : str) : option str :=
  if decide (act = $"deny") then Some $"block"
  else if decide (act = $"redact" \/ act = $"transform") then Some $"redact"
  else if decide (act = $"flag") then Some $"flag"
  else None.

(** ** Response-side filter *)

Definition MIN_NER_LEN : nat := 3.
(** The nearest [f32] to 0.85. *)
Definition MIN_NER_CONFIDENCE : f32 := S754_finite false 14260634 (-24).

Definition PRONOUN_BLOCKLIST : list str :=
  [$"i"; $"me"; $"my"; $"you"; $"your"; $"we"; $"us"; $"he"; $"she"; $"him";
   $"her"; $"his"; $"hers"; $"it"; $"its"; $"they"; $"them"; $"their"].

Definition NER_CLASSES : list str :=
  [$"PERSON"; $"ORGANIZATION"; $"LOCATION"; $"ADDRESS"; $"GPE"].

Definition keep_response_side (client_originals : gset str) (d : Detection) : bool :=
  if bool_decide (value d ∈ client_originals) || bool_decide (trim (value d) ∈ client_originals) then false
  else if negb (bool_decide (to_uppercase (class d) ∈ NER_CLASSES)) then true
  else
    let trimmed := trim (value d) in
    if length (chars trimmed) <? MIN_NER_LEN then false
    else if flt (confidence d) MIN_NER_CONFIDENCE then false
    else negb (bool_decide (to_ascii_lowercase trimmed ∈ PRONOUN_BLOCKLIST)).

Definition filter_response_side_detections (ds : list Detection) (client_originals : gset str)
    : list Detection := List.filter (keep_response_side client_originals) ds.

(** ** The audited message *)

Definition is_user (m : Message) : bool := eq_ignore_ascii_case (role m) $"user".

Definition last_user_message (messages : list Message) : option Message :=
  match List.find is_user (reverse messages) with
  | Some m => Some m
  | None => last messages
  end.

Definition last_user_message_raw (messages : list Message) : option str :=
  m ← last_user_message messages;
  match content m with [] => None | c => Some c end.

(** [Iterator::rposition] *)
Fixpoint rposition (p : Message -> bool) (l : list Message) : option nat :=
  match l with
  | [] => None
  | m :: l' =>
      match rposition p l' with
      | Some i => Some (S i)
      | None => if p m then Some 0 else None
      end
  end.

Fixpoint span_loop (messages : list Message) (idx : nat) (offset : N) : option (N * N * str) :=
  match messages with
  | [] => None
  | m :: messages' =>
      let cleaned := (strip_file_vault_markers (content m)).1 in
      match idx with
      | 0 => Some (offset, offset + slen cleaned, cleaned)%N
      | S idx' => span_loop messages' idx' (offset + slen cleaned + 1)
      end
  end.

Definition last_user_message_span (messages : list Message) : option (N * N * str) :=
  idx ← match rposition is_user messages with
        | Some i => Some i
        | None => match length messages with 0 => None | S k => Some k end
        end;
  span_loop messages idx 0.

(** A detection of the joined prompt, if it lies inside the audited message
    and its bytes are there. *)
Definition scope_detection (start stop : N) (text : str) (d : Detection) : option Detection :=
  '(s, e) ← span d;
  if (s <? start)%N || (stop <? e)%N then None
  else
    actual ← slice text (s - start) (e - start);
    if negb (bool_decide (actual = [])) && bool_decide (actual = value d) then
      Some {| class := class d; confidence := confidence d;
              span := Some (s - start, e - start)%N; value := value d |}
    else None.

Definition redact_last_user_message_with (messages : list Message) (ds : list Detection) : option str :=
  match last_user_message_span messages with
  | None => Some []
  | Some (start, stop, text) =>
      match text with
      | [] => Some []
      | _ =>
          match omap (scope_detection start stop text) ds with
          | [] => Some text
          | scoped => '(out, _, _) ← apply_redaction text scoped TokenVault_default ∅; Some out
          end
      end
  end.

Definition audit_prompt_with (messages : list Message) (ds : list Detection)
    (degraded : option CoverageLoss) : option RedactedPrompt :=
  match degraded with
  | Some _ => Some CoverageLost
  | None => Redacted <$> redact_last_user_message_with messages ds
  end.

End stages.
