(* ===== verification/Pipeline.v ===== *)
(** * The request path: prepare, execute, execute_stream

    [PipelineService] of [pipeline/service.rs].  The service is a state and
    error monad over the gateway's shared sidecar client and the trace of its
    observable effects: alerts, audit rows, provider calls and metrics, in
    order.  What lies outside the repository (the detection floor, the merge,
    databases, KMS, sidecar and provider answers, clocks) is an argument. *)

From S2P Require Import Prelude Rstr Json Types Redaction Streaming Sidecar Analytics.
From S2P Require Import Providers Policy SecureMode.

(** ** Requests *)

Inductive RequestKind : Type := Chat | Completion | Embedding.

Record AuthContext : Type := {
  au_api_key_id : Uuid;
  au_workspace_id : WorkspaceId;
  au_api_key_name : str;
  au_user_id : option Uuid;
}.

Record GatewayRequest : Type := {
  gr_public_model : str;
  gr_messages : list Message;
  gr_stream : bool;
  gr_request_kind : RequestKind;
  gr_extra_params : Value;
  gr_client_ip : option str;
  gr_user_agent : option str;
  gr_request_id : option RequestId;
}.

Record Prepared : Type := {
  p_request_id : RequestId;
  p_pipeline_state : PipelineState;
  p_policy_outcome : PolicyEvaluationOutcome;
  p_secure_mode : SecureModeRow;
  p_pipeline_input : PipelineInput;
  p_degraded_reason : option CoverageLoss;
  p_engines : DetectionEngines;
  p_capture : CaptureDecision;
}.

Record PipelineExecution : Type := {
  px_request_id : RequestId;
  px_provider_name : str;
  px_model : str;
  px_content : option str;
  px_embedding : option (list f32);
  px_usage : TokenUsage;
  px_estimated_usage : bool;
  px_stream_chunks : list str;
  px_finish_reason : option str;
  px_pipeline_output : PipelineOutput;
  px_degraded_reason : option CoverageLoss;
  px_engines : DetectionEngines;
}.

Inductive ChatStreamItem : Type :=
  | Delta (text : str)
  | Done (usage : TokenUsage) (estimated : bool) (model : str) (request_id : RequestId).

Record StreamExecution : Type := {
  sx_items : list ChatStreamItem;
  sx_degraded_reason : option CoverageLoss;
  sx_engines : DetectionEngines;
}.

Definition ACTION_BLOCK : str := policy_as_str Block.
Definition ACTION_DEGRADE : str := policy_as_str DegradeWithAlert.
Definition ACTION_DEGRADE_RESPONSE_SIDE : str := $"degrade_response_side".

(** ** Effects and the monad *)

Inductive Effect : Type :=
  | Alert (reason : CoverageLoss) (act : str)
  | Enqueue (e : RequestEvent)
  | ProviderCall (t : ModelTarget) (i : ProviderInvocation)
  | PolicyViolation (label : str)
  | RequestDuration (label : str)
  | RequestDone (ok : bool)
  | AdjustTokens (delta : Z).

(** [g_scans] numbers the NER scans of the request. *)
Record Gateway : Type := {
  g_sidecar : MlSidecarClient;
  g_scans : nat;
  g_trace : list Effect;
}.

Definition M (A : Type) : Type := Gateway -> result A * Gateway.

#[export] Instance M_ret : MRet M := fun A a g => (Ok a, g).
#[export] Instance M_bind : MBind M := fun A B k m g =>
  match m g with
  | (Ok a, g') => k a g'
  | (Err e, g') => (Err e, g')
  | (Panic, g') => (Panic, g')
  end.

Definition throw {A} (e : ApiError) : M A := fun g => (Err e, g).
Definition lift {A} (r : result A) : M A := fun g => (r, g).
Definition lift_panic {A} (o : option A) : M A := lift (or_panic o).

Definition emit_all (es : list Effect) : M unit := fun g =>
  (Ok tt, {| g_sidecar := g_sidecar g; g_scans := g_scans g; g_trace := g_trace g ++ es |}).
Definition emit (e : Effect) : M unit := emit_all [e].

(** ** The environment of one request *)

Record Env : Type := {
  chat_debug_mode : bool;
  redact_when_no_rules : bool;
  sidecar_unavailable_default : str;
  pricing : PricingTable;
  (* repositories, read for the request's workspace *)
  e_raw_capture : result CaptureDecision;
  e_sidecar_row : result (option str);
  e_rules : result (list PolicyRuleRow);
  e_secure_mode : result SecureModeRow;
  e_load_file_vault : str -> option (list (str * str));
  (* the sidecar: per scan, the clock and what its pieces meet; the injection
     and rag calls with the clocks around them *)
  e_ner : nat -> N * (nat -> ChunkEnv);
  e_injection : N * N * InjectionReply;
  e_rag : N * N * option RagCheckResponse;
  (* KMS, providers, identifiers and timings *)
  e_kms : KmsEncrypt;
  e_adapter_for : str -> option ProviderAdapter;
  e_b64_decode : str -> option str;
  e_kms_decrypt : nat -> str -> option str;
  e_fresh_id : RequestId;
  e_latency_ms : N;
  e_ttft_ms : N;
}.

Definition floor_detector := str -> list Detection.
Definition merger := list Detection -> list MlDetection -> list Detection.

Section service.
  Context `{CaseMap} `{HashOrder}.
  (** [regex::Regex::new], [detection::detect_content] and
      [detection::merge::merge_detections]. *)
  Context (regex_new : str -> option (str -> bool)) (detect_content : floor_detector)
    (merge_detections : merger).
  Context (E : Env).

(** ** Sidecar calls *)

Definition detect_if_available_m (text : str) : M MlDetectionOutcome := fun g =>
  let '(now, env) := e_ner E (g_scans g) in
  let '(out, cl) := detect_if_available (g_sidecar g) now env text in
  (Ok out, {| g_sidecar := cl; g_scans := S (g_scans g); g_trace := g_trace g |}).

Definition injection_check_m : M InjectionOutcome := fun g =>
  let '(now, fail_now, reply) := e_injection E in
  let '(out, cl) := injection_check_if_available (g_sidecar g) now fail_now reply in
  (Ok out, {| g_sidecar := cl; g_scans := g_scans g; g_trace := g_trace g |}).

Definition rag_check_m : M RagCheckResponse := fun g =>
  let '(now, fail_now, reply) := e_rag E in
  let '(out, cl) := rag_check_if_available (g_sidecar g) now fail_now reply in
  (Ok out, {| g_sidecar := cl; g_scans := g_scans g; g_trace := g_trace g |}).

Definition alert_sidecar_unavailable (reason : CoverageLoss) (act : str) : M unit :=
  emit (Alert reason act).

(** ** Audit rows *)

(** [redact_last_user_message]: a scan of its own over the audited message. *)
Definition redact_last_user_message (messages : list Message) : M str :=
  match last_user_message messages with
  | None => mret []
  | Some m =>
      match content m with
      | [] => mret []
      | text =>
          ml ← detect_if_available_m text;
          match merge_detections (detect_content text) (ml_detections ml) with
          | [] => mret text
          | ds =>
              '(out, _, _) ← lift_panic (apply_redaction text ds TokenVault_default ∅);
              mret out
          end
      end
  end.

Definition audit_prompt (messages : list Message) (degraded : option CoverageLoss) : M RedactedPrompt :=
  match degraded with
  | Some _ => mret CoverageLost
  | None => text ← redact_last_user_message messages; mret (Redacted text)
  end.

Definition provider_label (resolved : ResolvedModel) : str :=
  match targets resolved with t :: _ => mt_provider_name t | [] => $"unconfigured" end.

(** The caller and transport columns every path fills in, with the engine and
    model provenance. *)
Definition with_context (auth : AuthContext) (request : GatewayRequest) (resolved : ResolvedModel)
    (latency ttft : option N) (floor_only : bool) (engines : DetectionEngines) (e : RequestEvent)
    : RequestEvent :=
  set_context latency ttft (au_user_id auth) (Some (au_api_key_id auth)) (Some (au_api_key_name auth))
    (gr_client_ip request) (gr_user_agent request) floor_only engines (is_registered resolved) e.

(** The audit row of a request that reached no provider. *)
Definition refused_event (auth : AuthContext) (request : GatewayRequest) (resolved : ResolvedModel)
    (request_id : RequestId) (act : str) (evs : list PolicyEvent) (prompt : RedactedPrompt)
    (ds : list Detection) (engines : DetectionEngines) (capture : CaptureDecision) : RequestEvent :=
  let usage := TokenUsage_default in
  record_detections ds (record_prompt prompt
    (capture_content capture (e_kms E) (last_user_message_raw (gr_messages request)) None None
      (with_context auth request resolved None None false engines
        (event_new request_id (au_workspace_id auth) (provider_label resolved)
           (gr_public_model request) act usage false
           (compute_cost (pricing E) (gr_public_model request) usage) evs)))).

Definition coverage_unavailable : ApiError := ServiceUnavailable
  $"PII detection coverage is unavailable for this request and the workspace is configured to fail closed".

Definition fail_closed_on_coverage_loss (auth : AuthContext) (request : GatewayRequest)
    (resolved : ResolvedModel) (request_id : RequestId) (reason : CoverageLoss)
    (prompt : RedactedPrompt) (ds : list Detection) (engines : DetectionEngines)
    (capture : CaptureDecision) : M ApiError :=
  alert_sidecar_unavailable reason ACTION_BLOCK;;
  emit_all [Enqueue (refused_event auth request resolved request_id $"block_sidecar_unavailable" []
                       prompt ds engines capture);
            RequestDuration $"unknown"; RequestDone false];;
  mret coverage_unavailable.

(** ** prepare *)

Definition sidecar_policy : SidecarUnavailablePolicy :=
  match get_effective (e_sidecar_row E) (policy_from_db (sidecar_unavailable_default E)) with
  | Ok p => p
  | _ => policy_default
  end.

(** The prompt scan and the coverage gate: the merged detections, the
    degradation the workspace accepted, and the engines. *)
Definition scan_and_gate (auth : AuthContext) (request : GatewayRequest) (resolved : ResolvedModel)
    (request_id : RequestId) (capture : CaptureDecision) (prompt : str)
    : M (list Detection * option CoverageLoss * DetectionEngines) :=
  ml_outcome ← detect_if_available_m prompt;
  let engines := DetectionEngines_from_coverage (ml_coverage ml_outcome) in
  let merged := merge_detections (detect_content prompt) (ml_detections ml_outcome) in
  match sidecar_gate (ml_coverage ml_outcome) sidecar_policy with
  | Proceed => mret (merged, None, engines)
  | GateBlock reason =>
      err ← fail_closed_on_coverage_loss auth request resolved request_id reason CoverageLost
              merged engines capture;
      throw err
  | GateDegrade reason =>
      alert_sidecar_unavailable reason ACTION_DEGRADE;;
      mret (merged, Some reason, engines)
  end.

Definition injection_enforced (sm : SecureModeRow) : bool :=
  bool_decide (sm_level sm = $"strict")
  || (negb (bool_decide (sm_level sm = $"permissive")) && block_on_injection_detection sm).

(** The secure-mode layer over the policy outcome, with the injection gate. *)
Definition secure_mode_stage (auth : AuthContext) (request : GatewayRequest) (resolved : ResolvedModel)
    (request_id : RequestId) (capture : CaptureDecision) (engines : DetectionEngines)
    (sm : SecureModeRow) (degraded : option CoverageLoss) (o : PolicyEvaluationOutcome)
    (st : PipelineState)
    : M (PolicyEvaluationOutcome * PipelineState * option CoverageLoss) :=
  if negb (sm_enabled sm) then mret (o, st, degraded)
  else
    injection_outcome ← injection_check_m;
    degraded' ←
      (if injection_enforced sm then
         match sidecar_gate (inj_coverage injection_outcome) sidecar_policy with
         | Proceed => mret degraded
         | GateBlock reason =>
             prompt ← lift_panic (audit_prompt_with (gr_messages request) (detections st) degraded);
             err ← fail_closed_on_coverage_loss auth request resolved request_id reason prompt
                     (detections st) engines capture;
             throw err
         | GateDegrade reason =>
             alert_sidecar_unavailable reason ACTION_DEGRADE;;
             mret (match degraded with Some r => Some r | None => Some reason end)
         end
       else mret degraded);
    '(o', st') ← lift_panic
      (apply_secure_mode_override sm (detections st) (inj_response injection_outcome) o st);
    mret (o', st', degraded').

(** The policy-denied exit. *)
Definition deny_exit (auth : AuthContext) (request : GatewayRequest) (resolved : ResolvedModel)
    (request_id : RequestId) (capture : CaptureDecision) (engines : DetectionEngines)
    (degraded : option CoverageLoss) (o : PolicyEvaluationOutcome) (ds : list Detection)
    : M Prepared :=
  prompt ← audit_prompt (gr_messages request) degraded;
  emit_all [Enqueue (refused_event auth request resolved request_id (final_action (oc_result o))
                       (events (oc_result o)) prompt ds engines capture);
            RequestDuration $"unknown"; RequestDone false];;
  throw (Forbidden $"request denied by policy").

(** The safety net, the violation metric and the verdict. *)
Definition prepare_verdict (auth : AuthContext) (resolved : ResolvedModel) (request : GatewayRequest)
    (request_id : RequestId) (capture : CaptureDecision) (engines : DetectionEngines)
    (sm : SecureModeRow) (degraded : option CoverageLoss) (o1 : PolicyEvaluationOutcome)
    (st1 : PipelineState) : M Prepared :=
  '(o2, st2) ← lift_panic (apply_fallback_redaction (chat_debug_mode E) (redact_when_no_rules E) o1 st1);
  (match policy_violation_label (final_action (oc_result o2)) with
   | Some label => emit (PolicyViolation label)
   | None => mret tt
   end);;
  if denied o2 then
    deny_exit auth request resolved request_id capture engines degraded o2 (detections st2)
  else
    match targets resolved with
    | [] => lift Panic
    | target :: _ =>
        mret {|
          p_request_id := request_id; p_pipeline_state := st2; p_policy_outcome := o2;
          p_secure_mode := sm;
          p_pipeline_input := {|
            pi_request_id := request_id; pi_workspace_id := au_workspace_id auth;
            pi_provider_id := mt_provider_id target;
            pi_messages := [{| role := $"user"; content := oc_content o2 |}];
            pi_stream := gr_stream request; pi_model := gr_public_model request;
            pi_extra_params := gr_extra_params request |};
          p_degraded_reason := degraded; p_engines := engines; p_capture := capture |}
    end.

(** Policy evaluation and the secure-mode layer, after the gate. *)
Definition prepare_policy (auth : AuthContext) (resolved : ResolvedModel) (request : GatewayRequest)
    (request_id : RequestId) (capture : CaptureDecision) (prompt : str) (vault0 : TokenVault)
    (ds : list Detection) (degraded : option CoverageLoss) (engines : DetectionEngines) : M Prepared :=
  rag_check_m;;
  '(o, v, m) ← lift (evaluate regex_new (list_enabled_rules (e_rules E)) {|
      pe_request_id := request_id; pe_workspace_id := au_workspace_id auth;
      provider_name := provider_label resolved; model := gr_public_model request;
      pe_content := prompt; pe_detections := ds; fail_closed := redact_when_no_rules E |}
    vault0 ∅);
  sm ← (match e_secure_mode E with
        | Ok sm => mret sm
        | _ => throw (ServiceUnavailable $"secure mode configuration unavailable; request refused")
        end);
  '(o1, st1, degraded1) ←
    secure_mode_stage auth request resolved request_id capture engines sm degraded o
      {| vault := v; detections := ds; policy_events := []; redaction_map := m |};
  prepare_verdict auth resolved request request_id capture engines sm degraded1 o1 st1.

Definition prepare (auth : AuthContext) (resolved : ResolvedModel) (request : GatewayRequest) : M Prepared :=
  let request_id := default (e_fresh_id E) (gr_request_id request) in
  let capture := match e_raw_capture E with Ok c => c | _ => CaptureDecision_default end in
  let '(prompt, vault0) :=
    preload_file_vault (e_load_file_vault E) (prompt_from_messages (gr_messages request))
      TokenVault_default in
  '(ds, degraded, engines) ← scan_and_gate auth request resolved request_id capture prompt;
  prepare_policy auth resolved request request_id capture prompt vault0 ds degraded engines.

(** ** The response side *)

Definition kind_of (k : RequestKind) : InvocationKind :=
  match k with Chat => KChat | Completion => KCompletion | Embedding => KEmbedding end.

Definition redact_responses (sm : SecureModeRow) : bool :=
  sm_enabled sm && redact_pii_in_responses sm && negb (chat_debug_mode E).

(** Scan a restored text, mark a lost coverage, and re-redact what the client
    did not itself provide. *)
Definition scrub (client_originals : gset str) (text : str) (degraded : option CoverageLoss)
    (v : TokenVault) (m : gmap str str)
    : M (str * option CoverageLoss * TokenVault * gmap str str) :=
  ml_out ← detect_if_available_m text;
  degraded' ←
    (match CoverageLoss_from_coverage (ml_coverage ml_out) with
     | Some reason =>
         alert_sidecar_unavailable reason ACTION_DEGRADE_RESPONSE_SIDE;;
         mret (match degraded with Some r => Some r | None => Some reason end)
     | None => mret degraded
     end);
  match filter_response_side_detections
          (merge_detections (detect_content text) (ml_detections ml_out)) client_originals with
  | [] => mret (text, degraded', v, m)
  | ds =>
      '(out, v', m') ← lift_panic (apply_redaction text ds v m);
      mret (out, degraded', v', m')
  end.

Definition call_provider (resolved : ResolvedModel) (request : GatewayRequest) (pi : PipelineInput)
    : M (ModelTarget * ProviderOutput) :=
  let '(r, calls) :=
    invoke_provider_chain (e_adapter_for E) (e_b64_decode E) (e_kms_decrypt E) (targets resolved)
      (kind_of (gr_request_kind request)) (gr_stream request) pi in
  emit_all ((fun ti => ProviderCall ti.1 ti.2) <$> calls);;
  lift r.

(** [render_debug_payload] is a display helper; its text is an argument. *)
Context (render_debug_payload : ModelTarget -> GatewayRequest -> str -> gmap str str -> str).

(** The upstream call, or the debug echo. *)
Definition upstream (resolved : ResolvedModel) (request : GatewayRequest) (p : Prepared)
    : M (ModelTarget * ProviderOutput) :=
  if chat_debug_mode E then
    match targets resolved with
    | [] => throw (Internal $"debug mode: no resolved target available")
    | target :: _ =>
        mret (target, {|
          out_content := render_debug_payload target request (oc_content (p_policy_outcome p))
                           (redaction_map (p_pipeline_state p));
          out_model := mt_model_name target; out_usage := None; out_embedding := None;
          out_stream_chunks := []; out_finish_reason := Some $"debug_stop"; out_ttft_ms := None |})
    end
  else call_provider resolved request (p_pipeline_input p).

Definition restored_reply (out : ProviderOutput) (v : TokenVault) : option str :=
  if chat_debug_mode E then Some (out_content out)
  else match out_embedding out, out_content out with
       | Some _, [] => None
       | _, c => Some (restore_content c v)
       end.

(** The events the caller of a streaming request gets from a buffered reply. *)
Definition buffered_chunks (request : GatewayRequest) (out : ProviderOutput)
    (client_content : option str) (v : TokenVault) : list str :=
  if gr_stream request then
    let raw_chunks :=
      match out_stream_chunks out with
      | [] => match client_content with Some c => [c] | None => [] end
      | chunks => chunks
      end in
    if chat_debug_mode E then raw_chunks else placeholder_safe_chunks raw_chunks v
  else [].

(** The audit row of a served request. *)
Definition served_event (auth : AuthContext) (resolved : ResolvedModel) (request : GatewayRequest)
    (p : Prepared) (target : ModelTarget) (usage : TokenUsage) (estimated : bool)
    (ttft : option N) (degraded : option CoverageLoss) (prompt : RedactedPrompt)
    (raw_response : str) (restored_response : option str) (ds : list Detection) : RequestEvent :=
  let nonempty (s : str) := match s with [] => None | _ => Some s end in
  record_detections ds
    (record_response (match degraded with Some _ => CoverageLost | None => Redacted raw_response end)
      (capture_content (p_capture p) (e_kms E) (last_user_message_raw (gr_messages request))
         (nonempty raw_response) restored_response
        (record_prompt prompt
          (with_context auth request resolved (Some (e_latency_ms E)) ttft
             (match degraded with Some _ => true | None => false end) (p_engines p)
            (event_new (p_request_id p) (au_workspace_id auth) (mt_provider_name target)
               (gr_public_model request) (final_action (oc_result (p_policy_outcome p))) usage estimated
               (compute_cost (pricing E) (gr_public_model request) usage)
               (events (oc_result (p_policy_outcome p)))))))).

Definition execute (auth : AuthContext) (resolved : ResolvedModel) (request : GatewayRequest)
    : M PipelineExecution :=
  p ← prepare auth resolved request;
  '(target, out) ← upstream resolved request p;
  let st := p_pipeline_state p in
  let restored := restored_reply out (vault st) in
  '(client_content, degraded, v, m) ←
    (match redact_responses (p_secure_mode p), restored with
     | true, Some text =>
         '(scrubbed, degraded, v, m) ←
           scrub (original_values (vault st)) text (p_degraded_reason p) (vault st) (redaction_map st);
         mret (Some scrubbed, degraded, v, m)
     | _, _ => mret (restored, p_degraded_reason p, vault st, redaction_map st)
     end);
  let '(usage, estimated) :=
    derive_usage (mt_provider_type target) (out_usage out) (oc_content (p_policy_outcome p))
      (default [] client_content) in
  prompt ← audit_prompt (gr_messages request) degraded;
  let event := served_event auth resolved request p target usage estimated (out_ttft_ms out) degraded
                 prompt (out_content out) restored (detections st) in
  emit_all [Enqueue event; RequestDuration (model_label target); RequestDone true];;
  mret {|
    px_request_id := p_request_id p; px_provider_name := mt_provider_name target;
    px_model := mt_model_name target; px_content := client_content;
    px_embedding := out_embedding out; px_usage := usage; px_estimated_usage := estimated;
    px_stream_chunks := buffered_chunks request out client_content v;
    px_finish_reason := out_finish_reason out;
    px_pipeline_output := {|
      po_response := {| pr_content := default [] client_content; pr_model := mt_model_name target;
                        pr_finish_reason := out_finish_reason out; pr_embedding := out_embedding out |};
      po_usage := usage; po_redaction_map := m; po_policy_result := oc_result (p_policy_outcome p) |};
    px_degraded_reason := degraded; px_engines := p_engines p |}.

(** ** Streaming *)

Record StreamState : Type := {
  s_raw_full : str;
  s_restored_full : str;
  s_placeholder : str;        (* the off-mode restorer's held-back text *)
  s_pending : str;            (* the on-mode hold-back buffer *)
  s_usage : option TokenUsage;
  s_ttft_ms : option N;
  s_ok : bool;
  s_degraded : option CoverageLoss;
  s_vault : TokenVault;
  s_map : gmap str str;
  s_items : list ChatStreamItem;
}.

Definition stream_init (p : Prepared) : StreamState := {|
  s_raw_full := []; s_restored_full := []; s_placeholder := []; s_pending := []; s_usage := None;
  s_ttft_ms := None; s_ok := true; s_degraded := p_degraded_reason p;
  s_vault := vault (p_pipeline_state p); s_map := redaction_map (p_pipeline_state p); s_items := [];
|}.

Definition delta (text : str) : list ChatStreamItem := match text with [] => [] | _ => [Delta text] end.

(** [scrub_segment!] over [restore_content] of a segment, and its emission;
    [pending] is what stays held back. *)
Definition emit_segment (client_originals : gset str) (segment pending : str) (s : StreamState)
    : M StreamState :=
  let restored := restore_content segment (s_vault s) in
  '(scrubbed, degraded, v, m) ← scrub client_originals restored (s_degraded s) (s_vault s) (s_map s);
  mret {| s_raw_full := s_raw_full s; s_restored_full := s_restored_full s ++ restored;
          s_placeholder := s_placeholder s; s_pending := pending; s_usage := s_usage s;
          s_ttft_ms := s_ttft_ms s; s_ok := s_ok s; s_degraded := degraded; s_vault := v; s_map := m;
          s_items := s_items s ++ delta scrubbed |}.

(** Emission of restored text when responses are not redacted. *)
Definition emit_restored (text held : str) (s : StreamState) : StreamState := {|
  s_raw_full := s_raw_full s; s_restored_full := s_restored_full s ++ text;
  s_placeholder := held; s_pending := s_pending s; s_usage := s_usage s; s_ttft_ms := s_ttft_ms s;
  s_ok := s_ok s; s_degraded := s_degraded s; s_vault := s_vault s; s_map := s_map s;
  s_items := s_items s ++ delta text;
|}.

(** Bookkeeping of a token: the verbatim transcript and the first-token time. *)
Definition note_token (tok : str) (s : StreamState) : StreamState := {|
  s_raw_full := s_raw_full s ++ tok; s_restored_full := s_restored_full s;
  s_placeholder := s_placeholder s; s_pending := s_pending s; s_usage := s_usage s;
  s_ttft_ms := match s_ttft_ms s with Some t => Some t | None => Some (e_ttft_ms E) end;
  s_ok := s_ok s; s_degraded := s_degraded s; s_vault := s_vault s; s_map := s_map s;
  s_items := s_items s;
|}.

Definition with_pending (pending : str) (s : StreamState) : StreamState := {|
  s_raw_full := s_raw_full s; s_restored_full := s_restored_full s; s_placeholder := s_placeholder s;
  s_pending := pending; s_usage := s_usage s; s_ttft_ms := s_ttft_ms s; s_ok := s_ok s;
  s_degraded := s_degraded s; s_vault := s_vault s; s_map := s_map s; s_items := s_items s;
|}.

Definition on_token (on : bool) (client_originals : gset str) (tok : str) (s0 : StreamState)
    : M StreamState :=
  let s := note_token tok s0 in
  if on then
    let pending := s_pending s ++ tok in
    let n := settled_prefix_len pending in
    if 0 <? n then emit_segment client_originals (take n pending) (drop n pending) s
    else mret (with_pending pending s)
  else
    let '(text, held) := push (s_placeholder s) tok (s_vault s) in
    mret (emit_restored text held s).

Definition on_done (usage : option TokenUsage) (ttft : option N) (s : StreamState) : StreamState := {|
  s_raw_full := s_raw_full s; s_restored_full := s_restored_full s; s_placeholder := s_placeholder s;
  s_pending := s_pending s; s_usage := usage;
  s_ttft_ms := match ttft with Some t => Some t | None => s_ttft_ms s end;
  s_ok := s_ok s; s_degraded := s_degraded s; s_vault := s_vault s; s_map := s_map s;
  s_items := s_items s;
|}.

Definition on_failure (s : StreamState) : StreamState := {|
  s_raw_full := s_raw_full s; s_restored_full := s_restored_full s; s_placeholder := s_placeholder s;
  s_pending := s_pending s; s_usage := s_usage s; s_ttft_ms := s_ttft_ms s; s_ok := false;
  s_degraded := s_degraded s; s_vault := s_vault s; s_map := s_map s; s_items := s_items s;
|}.

(** [while let Some(ev) = provider_stream.next().await]; an error breaks. *)
Fixpoint stream_loop (on : bool) (client_originals : gset str) (evs : ProviderEventStream)
    (s : StreamState) : M StreamState :=
  match evs with
  | [] => mret s
  | Ok (Token tok) :: evs' =>
      s' ← on_token on client_originals tok s; stream_loop on client_originals evs' s'
  | Ok (EvDone usage _ _ ttft) :: evs' =>
      stream_loop on client_originals evs' (on_done usage ttft s)
  | Err _ :: _ => mret (on_failure s)
  | Panic :: _ => lift Panic
  end.

Definition stream_flush (on : bool) (client_originals : gset str) (s : StreamState) : M StreamState :=
  if on then
    match s_pending s with
    | [] => mret s
    | pending => emit_segment client_originals pending [] s
    end
  else mret (emit_restored (flush (s_placeholder s) (s_vault s)) [] s).

(** [i64::try_from(x).unwrap_or(i64::MAX)] *)
Definition i64_max : Z := (2 ^ 63 - 1)%Z.
Definition i64_sat (n : N) : Z := if (Z.of_N n <=? i64_max)%Z then Z.of_N n else i64_max.

Definition tokens_delta (usage : TokenUsage) (estimated_input : N) : Z :=
  (i64_sat (default 0%N (input_tokens usage) + default 0%N (output_tokens usage))
   - i64_sat estimated_input)%Z.

Definition open_stream (resolved : ResolvedModel) (request : GatewayRequest) (pi : PipelineInput)
    : M (ModelTarget * ProviderEventStream) :=
  let '(r, calls) :=
    open_provider_stream (e_adapter_for E) (e_b64_decode E) (e_kms_decrypt E) (targets resolved)
      pi (kind_of (gr_request_kind request)) in
  emit_all ((fun ti => ProviderCall ti.1 ti.2) <$> calls);;
  lift r.

(** The whole streaming request, the generator run to its end. *)
Definition execute_stream (auth : AuthContext) (resolved : ResolvedModel) (request : GatewayRequest)
    (estimated_input : N) : M StreamExecution :=
  p ← prepare auth resolved request;
  '(target, evs) ← open_stream resolved request (p_pipeline_input p);
  let on := redact_responses (p_secure_mode p) in
  let client_originals := original_values (vault (p_pipeline_state p)) in
  s1 ← stream_loop on client_originals evs (stream_init p);
  s ← stream_flush on client_originals s1;
  let nonempty (t : str) := match t with [] => None | _ => Some t end in
  let '(usage, estimated) :=
    derive_usage (mt_provider_type target) (s_usage s)
      (match pi_messages (p_pipeline_input p) with msg :: _ => content msg | [] => [] end)
      (s_restored_full s) in
  prompt ← audit_prompt (gr_messages request) (s_degraded s);
  let event := served_event auth resolved request p target usage estimated (s_ttft_ms s) (s_degraded s)
                 prompt (s_raw_full s) (nonempty (s_restored_full s))
                 (detections (p_pipeline_state p)) in
  emit_all [Enqueue event; RequestDuration (model_label target); RequestDone (s_ok s);
            AdjustTokens (tokens_delta usage estimated_input)];;
  mret {| sx_items := s_items s ++ [Done usage estimated (mt_model_name target) (p_request_id p)];
          sx_degraded_reason := p_degraded_reason p; sx_engines := p_engines p |}.

End service.
