(* ===== verification/PipelineSpec.v ===== *)
(** * Properties of the request path

    A small program logic for the service monad, the contract of [prepare],
    and from them what both response paths guarantee: nothing reaches a
    provider before the coverage gate and the policy have let it through, and
    every audit row says what happened. *)

From S2P Require Import Prelude Rstr Json Types Redaction RedactionSpec Streaming Sidecar.
From S2P Require Import SidecarSpec Analytics AnalyticsSpec Providers ProvidersSpec Policy PolicySpec SecureMode.
From S2P Require Import Pipeline.

(** ** The logic of the monad

    [spec m g Φ]: run from [g], [m] appends some effects to the trace, and
    [Φ] holds of its result, those effects and the final state. *)

Definition spec {A} (m : M A) (g : Gateway) (Φ : result A -> list Effect -> Gateway -> Prop) : Prop :=
  exists es, g_trace (m g).2 = g_trace g ++ es /\ Φ (m g).1 es (m g).2.

Lemma spec_mono {A} (m : M A) g (Φ Ψ : result A -> list Effect -> Gateway -> Prop) :
  spec m g Φ -> (forall r es g', Φ r es g' -> Ψ r es g') -> spec m g Ψ.
Proof. intros (es & Ht & HΦ) Himp. exists es. auto. Qed.

Lemma spec_ret {A} (a : A) g (Φ : result A -> list Effect -> Gateway -> Prop) :
  Φ (Ok a) [] g -> spec (mret a) g Φ.
Proof. intros HΦ. exists []. by rewrite app_nil_r. Qed.

Lemma spec_lift {A} (r : result A) g (Φ : result A -> list Effect -> Gateway -> Prop) :
  Φ r [] g -> spec (lift r) g Φ.
Proof. intros HΦ. exists []. by rewrite app_nil_r. Qed.

Lemma spec_lift_panic {A} (o : option A) g (Φ : result A -> list Effect -> Gateway -> Prop) :
  Φ (or_panic o) [] g -> spec (lift_panic o) g Φ.
Proof. apply spec_lift. Qed.

Lemma spec_throw {A} e g (Φ : result A -> list Effect -> Gateway -> Prop) :
  Φ (Err e) [] g -> spec (throw e) g Φ.
Proof. intros HΦ. exists []. by rewrite app_nil_r. Qed.

Lemma spec_emit_all es g (Φ : result unit -> list Effect -> Gateway -> Prop) :
  Φ (Ok tt) es {| g_sidecar := g_sidecar g; g_scans := g_scans g; g_trace := g_trace g ++ es |} ->
  spec (emit_all es) g Φ.
Proof. intros HΦ. by exists es. Qed.

Lemma spec_bind {A B} (m : M A) (k : A -> M B) g (Φ : result B -> list Effect -> Gateway -> Prop) :
  spec m g (fun r es g' =>
    match r with
    | Ok a => spec (k a) g' (fun r' es' g'' => Φ r' (es ++ es') g'')
    | Err e => Φ (Err e) es g'
    | Panic => Φ Panic es g'
    end) ->
  spec (m ≫= k) g Φ.
Proof.
  intros (es & Ht & HΦ). unfold spec, mbind, M_bind. destruct (m g) as [[a|e|] g']; simpl in *.
  - destruct HΦ as (es' & Ht' & HΦ). exists (es ++ es'). by rewrite app_assoc, <- Ht.
  - by exists es.
  - by exists es.
Qed.

Lemma spec_and {A} (m : M A) g (Φ Ψ : result A -> list Effect -> Gateway -> Prop) :
  spec m g Φ -> spec m g Ψ -> spec m g (fun r es g' => Φ r es g' /\ Ψ r es g').
Proof.
  intros (es & Ht & HΦ) (es' & Ht' & HΨ). rewrite Ht in Ht'. apply app_inv_head in Ht' as ->.
  by exists es'.
Qed.

(** The effects a run appends. *)
Definition new_effects {A} (m : M A) (g : Gateway) : list Effect :=
  drop (length (g_trace g)) (g_trace (m g).2).

Lemma spec_effects {A} (m : M A) g (Φ : result A -> list Effect -> Gateway -> Prop) :
  spec m g Φ -> Φ (m g).1 (new_effects m g) (m g).2.
Proof. intros (es & Ht & HΦ). unfold new_effects. by rewrite Ht, drop_app_length. Qed.

(** The state between two sidecar calls: the client, and how many scans
    were made.  [reached g g']: real calls of this request lead from the one
    state to the other. *)
Section calls.
Context (E : Env).

Definition scan_of (g : Gateway) (text : str) : MlDetectionOutcome * MlSidecarClient :=
  detect_if_available (g_sidecar g) (e_ner E (g_scans g)).1 (e_ner E (g_scans g)).2 text.

Definition after_scan (g : Gateway) (text : str) : Gateway := {|
  g_sidecar := (scan_of g text).2; g_scans := S (g_scans g); g_trace := g_trace g |}.

Inductive sidecar_call : MlSidecarClient * nat -> MlSidecarClient * nat -> Prop :=
| call_scan cl k text :
    sidecar_call (cl, k) ((detect_if_available cl (e_ner E k).1 (e_ner E k).2 text).2, S k)
| call_injection cl k :
    sidecar_call (cl, k) ((injection_check_if_available cl (e_injection E).1.1 (e_injection E).1.2
                             (e_injection E).2).2, k)
| call_rag cl k :
    sidecar_call (cl, k) ((rag_check_if_available cl (e_rag E).1.1 (e_rag E).1.2 (e_rag E).2).2, k).

Definition reached (g g' : Gateway) : Prop :=
  rtc sidecar_call (g_sidecar g, g_scans g) (g_sidecar g', g_scans g').

Lemma reached_refl g es :
  reached g {| g_sidecar := g_sidecar g; g_scans := g_scans g; g_trace := es |}.
Proof. apply rtc_refl. Qed.

Lemma reached_trans g1 g2 g3 : reached g1 g2 -> reached g2 g3 -> reached g1 g3.
Proof. unfold reached. intros. by etrans. Qed.

Lemma reached_scan g text : reached g (after_scan g text).
Proof. apply rtc_once, call_scan. Qed.

(** Nothing but the sidecar state changes in a sidecar call. *)
Lemma detect_run text g :
  detect_if_available_m E text g = (Ok (scan_of g text).1, after_scan g text).
Proof.
  unfold detect_if_available_m, after_scan, scan_of. destruct (e_ner E (g_scans g)) as [now env].
  by destruct (detect_if_available _ _ _ _).
Qed.

Lemma spec_detect text g (Φ : result MlDetectionOutcome -> list Effect -> Gateway -> Prop) :
  Φ (Ok (scan_of g text).1) [] (after_scan g text) -> spec (detect_if_available_m E text) g Φ.
Proof. unfold spec. rewrite detect_run. intros HΦ. exists []. by rewrite app_nil_r. Qed.

Lemma spec_injection g (Φ : result InjectionOutcome -> list Effect -> Gateway -> Prop) :
  (forall out g', reached g g' -> Φ (Ok out) [] g') -> spec (injection_check_m E) g Φ.
Proof.
  intros HΦ. unfold spec, injection_check_m.
  pose proof (call_injection (g_sidecar g) (g_scans g)) as Hc.
  destruct (e_injection E) as [[now fail_now] reply]. simpl in Hc.
  destruct (injection_check_if_available _ _ _ _) as [out cl]. exists [].
  split; [by rewrite app_nil_r|]. by apply HΦ, rtc_once.
Qed.

Lemma spec_rag g (Φ : result RagCheckResponse -> list Effect -> Gateway -> Prop) :
  (forall out g', reached g g' -> Φ (Ok out) [] g') -> spec (rag_check_m E) g Φ.
Proof.
  intros HΦ. unfold spec, rag_check_m.
  pose proof (call_rag (g_sidecar g) (g_scans g)) as Hc.
  destruct (e_rag E) as [[now fail_now] reply]. simpl in Hc.
  destruct (rag_check_if_available _ _ _ _) as [out cl]. exists [].
  split; [by rewrite app_nil_r|]. by apply HΦ, rtc_once.
Qed.
End calls.

(** ** What effects say *)

Definition is_enqueue (e : Effect) : bool := match e with Enqueue _ => true | _ => false end.
Definition is_call (e : Effect) : bool := match e with ProviderCall _ _ => true | _ => false end.

Definition enqueues (es : list Effect) : nat := length (List.filter is_enqueue es).
Definition calls (es : list Effect) : nat := length (List.filter is_call es).

Lemma enqueues_app a b : enqueues (a ++ b) = enqueues a + enqueues b.
Proof. unfold enqueues. by rewrite List.filter_app, length_app. Qed.

Lemma calls_app a b : calls (a ++ b) = calls a + calls b.
Proof. unfold calls. by rewrite List.filter_app, length_app. Qed.

Lemma calls_of_list l : calls ((fun ti => ProviderCall ti.1 ti.2) <$> l) = length l
  /\ enqueues ((fun ti => ProviderCall ti.1 ti.2) <$> l) = 0.
Proof. induction l as [|[t i] l [IH1 IH2]]; [done|]. split; [unfold calls in *; simpl in *; by f_equal|exact IH2]. Qed.

Section service.
Context `{CaseMap} `{HashOrder}.
Context (regex_new : str -> option (str -> bool)) (detect_content : floor_detector)
  (merge_detections : merger) (E : Env).

(** The text detection runs over, the answer of the prompt scan, and the
    capture decision in force. *)
Definition prompt_of (request : GatewayRequest) : str :=
  (preload_file_vault (e_load_file_vault E) (prompt_from_messages (gr_messages request))
     TokenVault_default).1.

Definition prompt_scan (g : Gateway) (request : GatewayRequest) : MlDetectionOutcome :=
  (scan_of E g (prompt_of request)).1.

(** The detections of the prompt. *)
Definition prompt_detections (g : Gateway) (request : GatewayRequest) : list Detection :=
  merge_detections (detect_content (prompt_of request)) (ml_detections (prompt_scan g request)).

(** [text] with the spans of [ds] replaced by their placeholders. *)
Definition woven (text : str) (ds : list Detection) : str := weave text 0 (redaction_plan text ds).

Definition capture_of : CaptureDecision :=
  match e_raw_capture E with Ok c => c | _ => CaptureDecision_default end.

(** The text an audit row may keep as its redacted prompt, of a request that
    started in [g] and ended in [g']: nothing; or the audited message with the
    prompt scan's own detections woven out of it; or the audited message with
    the floor's detections and those of the request's last scan, made over
    that message in a state the request reached, woven out. *)
Definition kept_text (g g' : Gateway) (request : GatewayRequest) (t : str) : Prop :=
  t = [] \/
  (exists start stop text, last_user_message_span (gr_messages request) = Some (start, stop, text) /\
     t = woven text (omap (scope_detection start stop text) (prompt_detections g request))) \/
  (exists msg ga, last_user_message (gr_messages request) = Some msg /\ reached E g ga /\
     g_sidecar g' = g_sidecar (after_scan E ga (content msg)) /\
     g_scans g' = g_scans (after_scan E ga (content msg)) /\
     t = woven (content msg) (merge_detections (detect_content (content msg))
           (ml_detections (scan_of E ga (content msg)).1))).

Definition kept_prompt (g g' : Gateway) (request : GatewayRequest) (p : RedactedPrompt) : Prop :=
  match p with Redacted t => kept_text g g' request t | CoverageLost => True end.

(** An audit row tells the truth about the prompt scan, holds raw content
    only sealed under the decision in force, counts in the binary's
    vocabulary, and keeps of the prompt what its scans left in. *)
Definition audit_ok (g g' : Gateway) (request : GatewayRequest) (ev : RequestEvent) : Prop :=
  rq_engines ev = DetectionEngines_from_coverage (ml_coverage (prompt_scan g request)) /\
  (exists rr rs, rq_captured ev =
     seal capture_of (e_kms E) (last_user_message_raw (gr_messages request)) rr rs) /\
  counts_canonical ev /\
  (forall t, rq_redacted_prompt ev = Some t -> kept_text g g' request t).

Definition effect_ok (g g' : Gateway) (request : GatewayRequest) (e : Effect) : Prop :=
  match e with Enqueue ev => audit_ok g g' request ev | _ => True end.

(** The gate let the request through: full coverage, or a degradation the
    workspace chose and was alerted about. *)
Definition gate_passed (g : Gateway) (request : GatewayRequest) (es : list Effect) : Prop :=
  ml_coverage (prompt_scan g request) = Complete \/
  (sidecar_policy E = DegradeWithAlert /\ exists loss, Alert loss ACTION_DEGRADE ∈ es).

Lemma record_detections_canonical ds e : counts_canonical (record_detections ds e).
Proof.
  intros k Hk. cbn in Hk. apply (per_class_keys ds k Hk).
Qed.

(** ** The stages of [prepare] *)

Abbreviation refuse_on_loss := (fail_closed_on_coverage_loss E).
Abbreviation refused := (refused_event E).

Lemma refused_ok g g' request auth resolved rid act evs prompt ds :
  kept_prompt g g' request prompt ->
  audit_ok g g' request (refused auth request resolved rid act evs prompt ds
    (DetectionEngines_from_coverage (ml_coverage (prompt_scan g request))) capture_of).
Proof.
  intros Hk. split; [done|]. split; [by eexists _, _|]. split; [apply record_detections_canonical|].
  intros t Ht. cbn in Ht. destruct prompt; [|done]. by injection Ht as <-.
Qed.

Lemma fail_closed_spec auth request resolved rid reason prompt ds engines capture g
    (Φ : result ApiError -> list Effect -> Gateway -> Prop) :
  (forall g', reached E g g' -> Φ (Ok coverage_unavailable)
     [Alert reason ACTION_BLOCK;
      Enqueue (refused auth request resolved rid $"block_sidecar_unavailable" [] prompt ds engines capture);
      RequestDuration $"unknown"; RequestDone false] g') ->
  spec (refuse_on_loss auth request resolved rid reason prompt ds engines capture) g Φ.
Proof.
  intros HΦ. unfold fail_closed_on_coverage_loss, alert_sidecar_unavailable, emit.
  apply spec_bind, spec_emit_all. apply spec_bind, spec_emit_all. apply spec_ret, HΦ, rtc_refl.
Qed.

(** The scan and the gate, by the coverage of the scan. *)
Lemma scan_and_gate_spec auth request resolved rid g
    (Φ : result (list Detection * option CoverageLoss * DetectionEngines) -> list Effect -> Gateway -> Prop) :
  let out := prompt_scan g request in
  let engines := DetectionEngines_from_coverage (ml_coverage out) in
  let merged := prompt_detections g request in
  (forall g', reached E g g' ->
     match sidecar_gate (ml_coverage out) (sidecar_policy E) with
     | Proceed => Φ (Ok (merged, None, engines)) [] g'
     | GateBlock reason => Φ (Err coverage_unavailable)
         [Alert reason ACTION_BLOCK;
          Enqueue (refused auth request resolved rid $"block_sidecar_unavailable" [] CoverageLost
                     merged engines capture_of);
          RequestDuration $"unknown"; RequestDone false] g'
     | GateDegrade reason => Φ (Ok (merged, Some reason, engines)) [Alert reason ACTION_DEGRADE] g'
     end) ->
  spec (scan_and_gate detect_content merge_detections E auth request resolved rid capture_of
          (prompt_of request)) g Φ.
Proof.
  cbn zeta. intros HΦ. unfold scan_and_gate. apply spec_bind, spec_detect.
  pose proof (reached_scan E g (prompt_of request)) as Hr.
  fold (prompt_scan g request). fold (prompt_detections g request).
  destruct (sidecar_gate (ml_coverage (prompt_scan g request)) (sidecar_policy E)).
  - apply spec_ret, HΦ, Hr.
  - apply spec_bind, fail_closed_spec. intros g' Hg'. apply spec_throw. rewrite app_nil_r.
    apply HΦ. by eapply reached_trans.
  - apply spec_bind, spec_emit_all, spec_ret, HΦ, Hr.
Qed.

Lemma woven_nil text : woven text [] = text.
Proof. reflexivity. Qed.

Lemma audit_prompt_spec request degraded g0 g
    (Φ : result RedactedPrompt -> list Effect -> Gateway -> Prop) :
  reached E g0 g ->
  (forall r g', (forall e, r <> Err e) -> (forall p, r = Ok p -> kept_prompt g0 g' request p) -> Φ r [] g') ->
  spec (audit_prompt detect_content merge_detections E (gr_messages request) degraded) g Φ.
Proof.
  intros Hg HΦ. unfold audit_prompt. destruct degraded as [l|].
  { apply spec_ret, HΦ; [done|]. by intros ? [= <-]. }
  assert (forall t g', kept_text g0 g' request t -> Φ (Ok (Redacted t)) [] g') as HΦ'.
  { intros t g' Ht. apply HΦ; [done|]. by intros ? [= <-]. }
  unfold redact_last_user_message. apply spec_bind.
  destruct (last_user_message (gr_messages request)) as [msg|] eqn:Hm;
    [|apply spec_ret, spec_ret, HΦ'; by left].
  destruct (content msg) as [|c text] eqn:Hc; [apply spec_ret, spec_ret, HΦ'; by left|].
  assert (forall t, t = woven (c :: text) (merge_detections (detect_content (c :: text))
      (ml_detections (scan_of E g (c :: text)).1)) ->
    kept_text g0 (after_scan E g (c :: text)) request t) as Hkept.
  { intros t ->. right. right. exists msg, g. rewrite Hc. by split_and!. }
  apply spec_bind, spec_detect.
  destruct (merge_detections _ _) as [|d ds]; [apply spec_ret, spec_ret, HΦ', Hkept; done|].
  apply spec_bind, spec_lift_panic. destruct (apply_redaction _ _ _ _) as [[[o v] m]|] eqn:Ha; simpl.
  - apply spec_ret, spec_ret. simpl. apply HΦ', Hkept. by eapply apply_redaction_plan.
  - by apply HΦ.
Qed.

(** What the injection gate keeps of a prompt it refuses. *)
Lemma audit_prompt_with_kept request degraded g0 g' p :
  audit_prompt_with (gr_messages request) (prompt_detections g0 request) degraded = Some p ->
  kept_prompt g0 g' request p.
Proof.
  unfold audit_prompt_with. destruct degraded; [by intros [= <-]|].
  unfold redact_last_user_message_with.
  destruct (last_user_message_span _) as [[[start stop] text]|] eqn:Hs; [|intros [= <-]; by left].
  destruct text as [|c text]; [intros [= <-]; by left|].
  intros Ht. assert (exists t, p = Redacted t /\ t = woven (c :: text)
    (omap (scope_detection start stop (c :: text)) (prompt_detections g0 request))) as (t & -> & ->).
  { destruct (omap _ _) as [|d ds]; [injection Ht as <-; eauto|].
    destruct (apply_redaction _ _ _ _) as [[[o v] m]|] eqn:Ha; [|done]. injection Ht as <-.
    eexists. split; [done|]. by eapply apply_redaction_plan. }
  right. left. by exists start, stop, (c :: text).
Qed.

(** Close [Forall (effect_ok ..)] on the effects of a refusal. *)
Ltac refusal_effects :=
  repeat (apply Forall_cons; split); try exact I; try apply Forall_nil_2; apply refused_ok; try done.

Definition prep_effects (g g' : Gateway) (request : GatewayRequest) (es : list Effect) : Prop :=
  Forall (effect_ok g g' request) es /\ calls es = 0.

Lemma quiet_effects g g1 g2 request es :
  enqueues es = 0 -> prep_effects g g1 request es -> prep_effects g g2 request es.
Proof.
  intros Hn [_ Hc]. split; [|done]. apply Forall_forall. intros e He. destruct e as [|ev| | | | |]; try done.
  exfalso. apply list_elem_of_split in He as (l1 & l2 & ->). rewrite enqueues_app in Hn.
  unfold enqueues in Hn. simpl in Hn. lia.
Qed.

Lemma prep_effects_app g g1 g2 request a b :
  enqueues a = 0 -> prep_effects g g1 request a -> prep_effects g g2 request b ->
  prep_effects g g2 request (a ++ b).
Proof.
  intros Hn Ha [Hb Cb]. destruct (quiet_effects _ _ g2 _ _ Hn Ha) as [Ha' Ca].
  split; [by apply Forall_app|]. rewrite calls_app. lia.
Qed.

Lemma override_keeps_detections sm ds inj o st o' st' :
  apply_secure_mode_override sm ds inj o st = Some (o', st') -> detections st' = detections st.
Proof.
  unfold apply_secure_mode_override, override_standard, redact_all.
  destruct (decide (sm_level sm = $"permissive")); [by intros [= _ <-]|].
  destruct (decide (sm_level sm = $"strict")); [by intros [= _ <-]|].
  intros ([o1 st1] & H1 & H2)%bind_Some. assert (detections st1 = detections st) as <-.
  { destruct (_ && _) in H1; [|by simplify_eq]. apply bind_Some in H1 as ([[c v] m] & _ & H1).
    by simplify_eq. }
  destruct (_ && _) in H2; [|destruct (_ && _) in H2]; by simplify_eq.
Qed.

(** The secure-mode layer refuses with one audit row, or goes on with none. *)
Lemma secure_mode_stage_spec auth request resolved rid sm degraded o st g0 g :
  let engines := DetectionEngines_from_coverage (ml_coverage (prompt_scan g0 request)) in
  detections st = prompt_detections g0 request -> reached E g0 g ->
  spec (secure_mode_stage E auth request resolved rid capture_of engines sm degraded o st) g
    (fun r es g' => prep_effects g0 g' request es /\
       match r with
       | Ok (_, st', _) => enqueues es = 0 /\ detections st' = detections st /\ reached E g0 g'
       | Err e => e = coverage_unavailable /\ enqueues es = 1
       | Panic => True
       end).
Proof.
  intros engines Hst Hg. unfold secure_mode_stage. destruct (sm_enabled sm); simpl; [|by apply spec_ret].
  apply spec_bind, spec_injection. intros out gi Hgi%(reached_trans E _ _ _ Hg). apply spec_bind.
  assert (forall (d' : option CoverageLoss) es g', prep_effects g0 g' request es -> enqueues es = 0 ->
    reached E g0 g' ->
    spec ('(o', st') ← lift_panic (apply_secure_mode_override sm (detections st) (inj_response out) o st);
          mret (o', st', d')) g' (fun r es' g'' =>
      prep_effects g0 g'' request (es ++ es') /\
      match r with
      | Ok (_, st', _) => enqueues (es ++ es') = 0 /\ detections st' = detections st /\ reached E g0 g''
      | Err e => e = coverage_unavailable /\ enqueues (es ++ es') = 1
      | Panic => True
      end)) as Hrest.
  { intros d' es g' Hes Hn Hg'. apply spec_bind, spec_lift_panic.
    destruct (apply_secure_mode_override _ _ _ _ _) as [[o' st']|] eqn:Eo; simpl; [|by rewrite app_nil_r].
    apply spec_ret. simpl. rewrite app_nil_r. split; [done|]. split; [done|]. split; [|done].
    by eapply override_keeps_detections. }
  destruct (injection_enforced sm); [|apply spec_ret, (Hrest degraded []); done].
  destruct (sidecar_gate _ _) as [|reason|reason].
  - apply spec_ret, (Hrest degraded []); done.
  - apply spec_bind, spec_lift_panic. rewrite Hst.
    destruct (audit_prompt_with _ _ _) as [prompt|] eqn:Ep; simpl; [|done].
    apply spec_bind, fail_closed_spec. intros g' _. apply spec_throw. simpl.
    split; [|done]. split; [|done]. refusal_effects. by eapply audit_prompt_with_kept.
  - apply spec_bind, spec_emit_all, spec_ret. rewrite app_nil_r.
    by apply (Hrest _ [Alert reason ACTION_DEGRADE]); [split; [repeat constructor|]| |].
Qed.

Lemma deny_exit_spec auth request resolved rid degraded o ds g0 g :
  let engines := DetectionEngines_from_coverage (ml_coverage (prompt_scan g0 request)) in
  reached E g0 g ->
  spec (deny_exit detect_content merge_detections E auth request resolved rid capture_of engines
          degraded o ds) g
    (fun r es g' => prep_effects g0 g' request es /\
       match r with
       | Ok _ => False
       | Err e => e = Forbidden $"request denied by policy" /\ enqueues es = 1
       | Panic => True
       end).
Proof.
  intros engines Hg. unfold deny_exit. apply spec_bind, (audit_prompt_spec _ _ g0); [done|].
  intros r g' Hr Hk. destruct r as [prompt|e|]; [|by destruct (Hr e)|done].
  apply spec_bind, spec_emit_all, spec_throw. simpl. split; [|done]. split; [|done].
  refusal_effects. by apply Hk.
Qed.

Lemma deny_exit_noresult auth request resolved rid capture engines degraded o ds g :
  spec (deny_exit detect_content merge_detections E auth request resolved rid capture engines
          degraded o ds) g (fun r _ _ => match r with Ok _ => False | _ => True end).
Proof.
  unfold deny_exit. apply spec_bind, (audit_prompt_spec _ _ g); [apply rtc_refl|]. intros r g' _ _.
  destruct r as [prompt|e|]; [|done|done]. by apply spec_bind, spec_emit_all, spec_throw.
Qed.

(** What [prepare] hands to the response paths. *)
Definition prepared_ok (g : Gateway) (request : GatewayRequest) (p : Prepared) : Prop :=
  denied (p_policy_outcome p) = false /\
  p_engines p = DetectionEngines_from_coverage (ml_coverage (prompt_scan g request)) /\
  p_capture p = capture_of /\
  pi_messages (p_pipeline_input p) = [{| role := $"user"; content := oc_content (p_policy_outcome p) |}] /\
  pi_extra_params (p_pipeline_input p) = gr_extra_params request.

(** Why a request can end without an audit row: a repository failed. *)
Definition unaudited_error (e : ApiError) : Prop :=
  e_rules E = Err e \/ e = ServiceUnavailable $"secure mode configuration unavailable; request refused".

Lemma fallback_keeps_detections b c o st o' st' :
  apply_fallback_redaction b c o st = Some (o', st') -> detections st' = detections st.
Proof.
  unfold apply_fallback_redaction, redact_all. case_match; [|by intros [= _ <-]].
  intros ([[x v] m] & _ & Hs)%bind_Some. by simplify_eq.
Qed.

Lemma evaluate_error rules input v m e :
  evaluate regex_new (list_enabled_rules rules) input v m = Err e -> rules = Err e.
Proof.
  destruct rules as [rows|e'|]; simpl; [|by intros [= ->]|done].
  unfold evaluate. simpl. by destruct (eval_loop _ _ _ _).
Qed.

Lemma spec_violation g0 request label g (Φ : result unit -> list Effect -> Gateway -> Prop) :
  (forall es g', prep_effects g0 g' request es -> enqueues es = 0 -> reached E g g' -> Φ (Ok tt) es g') ->
  spec (match label with Some l => emit (PolicyViolation l) | None => mret tt end) g Φ.
Proof.
  intros HΦ. destruct label as [l|].
  - apply spec_emit_all, HΦ; [split; [repeat constructor|done]|done|apply rtc_refl].
  - apply spec_ret, HΦ; [split; [constructor|done]|done|apply rtc_refl].
Qed.

(** The last steps: the safety net, the metric, and the verdict. *)
Lemma prepare_verdict_spec auth request resolved rid sm degraded o st g0 g :
  let engines := DetectionEngines_from_coverage (ml_coverage (prompt_scan g0 request)) in
  reached E g0 g ->
  spec (prepare_verdict detect_content merge_detections E auth resolved request rid capture_of engines
          sm degraded o st) g
    (fun r es g' => prep_effects g0 g' request es /\
       match r with
       | Ok p => enqueues es = 0 /\ prepared_ok g0 request p /\ p_degraded_reason p = degraded /\
           reached E g0 g'
       | Err e => e = Forbidden $"request denied by policy" /\ enqueues es = 1
       | Panic => True
       end).
Proof.
  intros engines Hg. unfold prepare_verdict. apply spec_bind, spec_lift_panic.
  destruct (apply_fallback_redaction _ _ _ _) as [[o2 st2]|]; simpl; [|done].
  apply spec_bind, (spec_violation g0 request). intros es g' Hes Hn Hg'%(reached_trans E _ _ _ Hg).
  destruct (denied o2) eqn:Ed.
  - eapply spec_mono; [by apply (deny_exit_spec _ _ _ _ _ _ _ g0)|]. intros r es' g'' [Hes' Hr].
    split; [by eapply prep_effects_app|]. rewrite enqueues_app, Hn. by destruct r.
  - destruct (targets resolved) as [|t ts]; [apply spec_lift|apply spec_ret]; by rewrite app_nil_r.
Qed.

Lemma sidecar_gate_cases c p :
  match sidecar_gate c p with
  | Proceed => c = Complete
  | GateBlock _ => p = Block
  | GateDegrade _ => p = DegradeWithAlert
  end.
Proof. by destruct c, p. Qed.

Lemma gate_passed_app g request a b : gate_passed g request a -> gate_passed g request (a ++ b).
Proof. intros [?|(? & l & ?)]; [by left|]. right. split; [done|]. exists l. set_solver. Qed.

(** Everything after the gate. *)
Lemma prepare_policy_spec auth resolved request rid prompt vault0 degraded g0 g :
  let engines := DetectionEngines_from_coverage (ml_coverage (prompt_scan g0 request)) in
  reached E g0 g ->
  spec (prepare_policy regex_new detect_content merge_detections E auth resolved request rid capture_of
          prompt vault0 (prompt_detections g0 request) degraded engines) g
    (fun r es g' => prep_effects g0 g' request es /\
       match r with
       | Ok p => enqueues es = 0 /\ prepared_ok g0 request p /\ reached E g0 g'
       | Err e => enqueues es = 1 \/ (enqueues es = 0 /\ unaudited_error e)
       | Panic => True
       end).
Proof.
  intros engines Hg. unfold prepare_policy. apply spec_bind, spec_rag. intros _ gr Hgr%(reached_trans E _ _ _ Hg).
  apply spec_bind, spec_lift. destruct (evaluate _ _ _ _ _) as [[[o v] m]|e|] eqn:Ee; [| |done].
  2: { apply evaluate_error in Ee. split; [done|]. right. split; [done|]. by left. }
  apply spec_bind. destruct (e_secure_mode E) as [sm|e|];
    [apply spec_ret|apply spec_throw|apply spec_throw].
  2,3: split; [done|]; right; split; [done|]; by right.
  apply spec_bind. eapply spec_mono; [by apply (secure_mode_stage_spec _ _ _ _ _ _ _ _ g0)|].
  intros r es g' [Hes Hr]. destruct r as [[[o1 st1] degraded1]|e|]; simpl.
  - destruct Hr as (Hn & _ & Hg'). eapply spec_mono; [by apply (prepare_verdict_spec _ _ _ _ _ _ _ _ g0)|].
    intros r es' g'' [Hes' Hr]. split; [by eapply prep_effects_app|]. rewrite enqueues_app, Hn.
    destruct r; [|by left; apply Hr|done]. naive_solver.
  - split; [done|]. left. by destruct Hr.
  - done.
Qed.

(** The contract of [prepare]: it contacts no provider; whatever it enqueues
    is an honest audit row; it succeeds only past the gate, undenied and
    without an audit row; it fails with exactly one audit row unless a
    repository read failed. *)
Lemma prepare_contract auth resolved request g :
  spec (prepare regex_new detect_content merge_detections E auth resolved request) g
    (fun r es g' => prep_effects g g' request es /\
       match r with
       | Ok p => enqueues es = 0 /\ prepared_ok g request p /\ gate_passed g request es /\ reached E g g'
       | Err e => enqueues es = 1 \/ (enqueues es = 0 /\ unaudited_error e)
       | Panic => True
       end).
Proof.
  unfold prepare. fold capture_of. set (rid := default _ _).
  destruct (preload_file_vault _ _ _) as [prompt vault0] eqn:Epre.
  assert (prompt = prompt_of request) as -> by (unfold prompt_of; by rewrite Epre).
  apply spec_bind, scan_and_gate_spec. intros g1 Hg1. cbn zeta.
  pose proof (sidecar_gate_cases (ml_coverage (prompt_scan g request)) (sidecar_policy E)) as Hgate.
  assert (forall degraded es, prep_effects g g1 request es -> enqueues es = 0 -> gate_passed g request es ->
    spec (prepare_policy regex_new detect_content merge_detections E auth resolved request rid capture_of
            (prompt_of request) vault0 (prompt_detections g request) degraded
            (DetectionEngines_from_coverage (ml_coverage (prompt_scan g request)))) g1
      (fun r es' g' => prep_effects g g' request (es ++ es') /\
        match r with
        | Ok p => enqueues (es ++ es') = 0 /\ prepared_ok g request p /\
            gate_passed g request (es ++ es') /\ reached E g g'
        | Err e => enqueues (es ++ es') = 1 \/ (enqueues (es ++ es') = 0 /\ unaudited_error e)
        | Panic => True
        end)) as Hrest.
  { intros degraded es Hes Hn Hg. eapply spec_mono; [by apply (prepare_policy_spec _ _ _ _ _ _ _ g)|].
    intros r es' g'' [Hes' Hr]. split; [by eapply prep_effects_app|]. rewrite enqueues_app, Hn.
    destruct r; [|done|done]. destruct Hr as (? & ? & ?). split_and!; [done|done|by apply gate_passed_app|done]. }
  destruct (sidecar_gate _ _) as [|reason|reason].
  - apply (Hrest None []); [done|done|by left].
  - split; [|by left]. split; [refusal_effects|done].
  - apply (Hrest (Some reason) [Alert reason ACTION_DEGRADE]); [split; [repeat constructor|done]|done|].
    right. split; [done|]. exists reason. left.
Qed.

(** ** How the forwarded text is decided *)

(** The input policy evaluation gets. *)
Definition policy_input (auth : AuthContext) (resolved : ResolvedModel) (request : GatewayRequest)
    (g : Gateway) : PolicyEvaluationInput := {|
  pe_request_id := default (e_fresh_id E) (gr_request_id request);
  pe_workspace_id := au_workspace_id auth; provider_name := provider_label resolved;
  model := gr_public_model request; pe_content := prompt_of request;
  pe_detections := prompt_detections g request; fail_closed := redact_when_no_rules E |}.

Definition file_vault (request : GatewayRequest) : TokenVault :=
  (preload_file_vault (e_load_file_vault E) (prompt_from_messages (gr_messages request))
     TokenVault_default).2.

Definition state_of (ds : list Detection) (v : TokenVault) (m : gmap str str) : PipelineState :=
  {| vault := v; detections := ds; policy_events := []; redaction_map := m |}.

(** [p] is the composition of policy, secure mode and safety net. *)
Definition decided (auth : AuthContext) (resolved : ResolvedModel) (request : GatewayRequest)
    (g : Gateway) (p : Prepared) : Prop :=
  exists o v m sm o1 st1,
    evaluate regex_new (list_enabled_rules (e_rules E)) (policy_input auth resolved request g)
      (file_vault request) ∅ = Ok (o, v, m) /\
    e_secure_mode E = Ok sm /\
    (if sm_enabled sm then
       exists inj, apply_secure_mode_override sm (prompt_detections g request) inj o
         (state_of (prompt_detections g request) v m) = Some (o1, st1)
     else o1 = o /\ st1 = state_of (prompt_detections g request) v m) /\
    apply_fallback_redaction (chat_debug_mode E) (redact_when_no_rules E) o1 st1
      = Some (p_policy_outcome p, p_pipeline_state p).

Lemma secure_mode_stage_out auth request resolved rid engines sm degraded o st g :
  spec (secure_mode_stage E auth request resolved rid capture_of engines sm degraded o st) g
    (fun r _ _ => match r with
       | Ok (o1, st1, _) =>
           if sm_enabled sm
           then exists inj, apply_secure_mode_override sm (detections st) inj o st = Some (o1, st1)
           else o1 = o /\ st1 = st
       | _ => True
       end).
Proof.
  unfold secure_mode_stage. destruct (sm_enabled sm); simpl; [|by apply spec_ret].
  apply spec_bind, spec_injection. intros out gi _. apply spec_bind.
  assert (forall (d' : option CoverageLoss) g',
    spec ('(o', st') ← lift_panic (apply_secure_mode_override sm (detections st) (inj_response out) o st);
          mret (o', st', d')) g' (fun r _ _ =>
      match r with
      | Ok (o1, st1, _) => exists inj, apply_secure_mode_override sm (detections st) inj o st = Some (o1, st1)
      | _ => True
      end)) as Hrest.
  { intros d' g'. apply spec_bind, spec_lift_panic.
    destruct (apply_secure_mode_override _ _ _ _ _) as [[o' st']|] eqn:Eo; simpl; [|done].
    apply spec_ret. eauto. }
  destruct (injection_enforced sm); [|apply spec_ret, Hrest].
  destruct (sidecar_gate _ _) as [|reason|reason]; [apply spec_ret, Hrest| |].
  - apply spec_bind, spec_lift_panic. destruct (audit_prompt_with _ _ _); simpl; [|done].
    apply spec_bind, fail_closed_spec. intros g' _. by apply spec_throw.
  - apply spec_bind, spec_emit_all, spec_ret, Hrest.
Qed.

Lemma prepare_decided auth resolved request g :
  spec (prepare regex_new detect_content merge_detections E auth resolved request) g
    (fun r _ _ => match r with Ok p => decided auth resolved request g p | _ => True end).
Proof.
  unfold prepare. fold capture_of. set (rid := default _ _).
  destruct (preload_file_vault _ _ _) as [prompt vault0] eqn:Epre.
  assert (prompt = prompt_of request) as -> by (unfold prompt_of; by rewrite Epre).
  assert (vault0 = file_vault request) as -> by (unfold file_vault; by rewrite Epre).
  apply spec_bind, scan_and_gate_spec. intros g1 _. cbn zeta.
  assert (forall degraded engines g', 
    spec (prepare_policy regex_new detect_content merge_detections E auth resolved request rid capture_of
            (prompt_of request) (file_vault request) (prompt_detections g request) degraded engines) g'
      (fun r _ _ => match r with Ok p => decided auth resolved request g p | _ => True end)) as Hrest.
  { intros degraded engines g'. unfold prepare_policy. apply spec_bind, spec_rag. intros _ gr _.
    apply spec_bind, spec_lift. destruct (evaluate _ _ _ _ _) as [[[o v] m]|e|] eqn:Ee; [|done|done].
    apply spec_bind. destruct (e_secure_mode E) as [sm|e|] eqn:Esm;
      [apply spec_ret|by apply spec_throw|by apply spec_throw].
    apply spec_bind. eapply spec_mono; [apply secure_mode_stage_out|].
    intros r es g'' Hr. destruct r as [[[o1 st1] d1]|e|]; [|done|done].
    unfold prepare_verdict. apply spec_bind, spec_lift_panic.
    destruct (apply_fallback_redaction _ _ _ _) as [[o2 st2]|] eqn:Ef; simpl; [|done].
    apply spec_bind, (spec_violation g request). intros es' g3 _ _ _. destruct (denied o2).
    { eapply spec_mono; [apply (deny_exit_noresult auth request resolved)|]. by intros []. }
    destruct (targets resolved) as [|t ts]; [by apply spec_lift|]. apply spec_ret.
    exists o, v, m, sm, o1, st1. simpl. done. }
  destruct (sidecar_gate _ _); [apply Hrest|done|apply Hrest].
Qed.
(** ** The response paths *)

(** Only alerts. *)
Definition only_alerts (es : list Effect) : Prop := Forall (fun e => exists l a, e = Alert l a) es.

Lemma only_alerts_app a b : only_alerts a -> only_alerts b -> only_alerts (a ++ b).
Proof. intros Ha Hb. by apply Forall_app. Qed.

Lemma alerts_no_calls es : only_alerts es -> calls es = 0 /\ enqueues es = 0.
Proof. induction 1 as [|e es (l & a & ->) _ IH]; [done|exact IH]. Qed.

Lemma alerts_Forall (P : Effect -> Prop) es :
  (forall l a, P (Alert l a)) -> only_alerts es -> Forall P es.
Proof. intros HP. induction 1 as [|e es (l & a & ->) _ IH]; constructor; auto. Qed.

Lemma scrub_spec (originals : gset str) (text : str) (degraded : option CoverageLoss) (v : TokenVault)
    (m : gmap str str) (g : Gateway)
    (Φ : result (str * option CoverageLoss * TokenVault * gmap str str) -> list Effect -> Gateway -> Prop) :
  (forall r es g', (forall e, r <> Err e) -> only_alerts es -> reached E g g' -> Φ r es g') ->
  spec (scrub detect_content merge_detections E originals text degraded v m) g Φ.
Proof.
  intros HΦ. unfold scrub. apply spec_bind, spec_detect.
  pose proof (reached_scan E g text) as Hg. set (out := (scan_of E g text).1).
  assert (forall d es g', only_alerts es -> reached E g g' ->
    spec (match filter_response_side_detections
                  (merge_detections (detect_content text) (ml_detections out)) originals with
          | [] => mret (text, d, v, m)
          | ds => '(o, v', m') ← lift_panic (apply_redaction text ds v m); mret (o, d, v', m')
          end) g' (fun r es' g'' => Φ r (es ++ es') g'')) as Hrest.
  { intros d es g' Hes Hg'. destruct (filter_response_side_detections _ _) as [|x ds].
    - apply spec_ret. rewrite app_nil_r. by apply HΦ.
    - apply spec_bind, spec_lift_panic. destruct (apply_redaction _ _ _ _) as [[[o v'] m']|]; simpl.
      + apply spec_ret. rewrite app_nil_r. by apply HΦ.
      + rewrite app_nil_r. by apply HΦ. }
  apply spec_bind. destruct (CoverageLoss_from_coverage _) as [l|].
  - apply spec_bind, spec_emit_all, spec_ret. apply (Hrest _ [_]); [|exact Hg]. repeat constructor. eauto.
  - apply spec_ret. apply (Hrest _ []); [constructor|exact Hg].
Qed.

(** What a provider may be shown. *)
Definition call_ok (request : GatewayRequest) (resolved : ResolvedModel) (p : Prepared) (e : Effect) : Prop :=
  match e with
  | ProviderCall t i =>
      t ∈ targets resolved /\
      in_messages i = [{| role := $"user"; content := oc_content (p_policy_outcome p) |}] /\
      in_prompt i = oc_content (p_policy_outcome p) /\
      in_extra_params i = sanitize_extra_params (gr_extra_params request)
  | _ => True
  end.

Lemma own_calls_ok g request resolved p b kind calls0 :
  prepared_ok g request p ->
  Forall (fun ti => own_invocation (e_b64_decode E) (e_kms_decrypt E)
                      (invocation_template (p_pipeline_input p) b kind) ti /\ ti.1 ∈ targets resolved) calls0 ->
  Forall (call_ok request resolved p) ((fun ti => ProviderCall ti.1 ti.2) <$> calls0).
Proof.
  intros (_ & _ & _ & Hm & Hx) Hc. apply Forall_fmap. eapply Forall_impl; [exact Hc|].
  intros [t i] [(c & Hi & _) Ht]. simpl in Hi, Ht. subst i. simpl. rewrite Hm, Hx. done.
Qed.

(** The trace of a finished request: a preparation that contacts nobody,
    then provider calls only past the gate and undenied, with what was
    prepared; at most one audit row, exactly one when the request is
    served, and all rows honest. *)
Definition path_ok {A} (auth : AuthContext) (g g' : Gateway) (request : GatewayRequest)
    (resolved : ResolvedModel) (r : result A) (es : list Effect) : Prop :=
  Forall (effect_ok g g' request) es /\
  (exists es1 es2, es = es1 ++ es2 /\ calls es1 = 0 /\
     (calls es2 = 0 \/
      gate_passed g request es1 /\ exists p, prepared_ok g request p /\
        decided auth resolved request g p /\ Forall (call_ok request resolved p) es2)) /\
  match r with
  | Ok _ => enqueues es = 1
  | Err e => (enqueues es = 1 /\ calls es = 0) \/ enqueues es = 0
  | Panic => True
  end.

Lemma no_calls_call_ok request resolved p es : calls es = 0 -> Forall (call_ok request resolved p) es.
Proof.
  intros Hc. apply Forall_forall. intros e Hin. destruct e as [| |t i| | | |]; try done. exfalso.
  apply list_elem_of_split in Hin as (l1 & l2 & ->). rewrite calls_app in Hc. unfold calls in Hc.
  simpl in Hc. lia.
Qed.

(** A path after a successful [prepare]: the provider calls, then effects
    that contact nobody. *)
Lemma path_ok_after {A} auth g g1 g' request resolved p es1 calls0 rest (r : result A) :
  prep_effects g g1 request es1 -> enqueues es1 = 0 -> prepared_ok g request p -> gate_passed g request es1 ->
  decided auth resolved request g p ->
  Forall (call_ok request resolved p) ((fun ti => ProviderCall ti.1 ti.2) <$> calls0) ->
  prep_effects g g' request rest ->
  match r with Ok _ => enqueues rest = 1 | Err _ => enqueues rest = 0 | Panic => True end ->
  path_ok auth g g' request resolved r (es1 ++ ((fun ti => ProviderCall ti.1 ti.2) <$> calls0) ++ rest).
Proof.
  intros Hpe Hn1 Hp Hg Hd Hcalls [Her Hcr] Hr. destruct (quiet_effects _ _ g' _ _ Hn1 Hpe) as [He1 Hc1]. destruct (calls_of_list calls0) as [Hcc Hnc].
  split; [|split].
  - apply Forall_app. split; [done|]. apply Forall_app. split; [|done].
    apply Forall_fmap. by apply Forall_true.
  - exists es1. eexists. split; [reflexivity|]. split; [done|]. right. split; [done|]. exists p.
    split; [done|]. split; [done|]. apply Forall_app. split; [done|]. by apply no_calls_call_ok.
  - rewrite !enqueues_app, Hn1, Hnc. destruct r; [done|by right|done].
Qed.

Lemma alerts_prep g g' request es : only_alerts es -> prep_effects g g' request es.
Proof. intros Ha. split; [by apply alerts_Forall|by apply alerts_no_calls]. Qed.

Lemma path_ok_prepare {A} auth g g' request resolved es (r : result A) :
  prep_effects g g' request es ->
  match r with Ok _ => False | Err _ => enqueues es = 1 \/ enqueues es = 0 | Panic => True end ->
  path_ok auth g g' request resolved r es.
Proof.
  intros [He Hc] Hr. split; [done|]. split; [exists es, []; by rewrite app_nil_r; auto|].
  destruct r; [done| |done]. destruct Hr; auto.
Qed.

Lemma served_ok g g' request auth resolved p target usage est ttft degraded prompt raw restored ds :
  prepared_ok g request p -> kept_prompt g g' request prompt ->
  audit_ok g g' request (served_event E auth resolved request p target usage est ttft degraded prompt raw restored ds).
Proof.
  intros (_ & He & Hc & _) Hk. unfold served_event. split; [exact He|]. split; [|split].
  - rewrite <- Hc. by eexists _, _.
  - apply record_detections_canonical.
  - intros t Ht. cbn in Ht. destruct prompt; [|done]. by injection Ht as <-.
Qed.

Context (render_debug : ModelTarget -> GatewayRequest -> str -> gmap str str -> str).

Lemma upstream_spec g0 resolved request p g
    (Φ : result (ModelTarget * ProviderOutput) -> list Effect -> Gateway -> Prop) :
  prepared_ok g0 request p ->
  (forall r calls0 g', reached E g g' ->
     Forall (call_ok request resolved p) ((fun ti => ProviderCall ti.1 ti.2) <$> calls0) ->
     Φ r ((fun ti => ProviderCall ti.1 ti.2) <$> calls0) g') ->
  spec (upstream E render_debug resolved request p) g Φ.
Proof.
  intros Hp HΦ. unfold upstream. destruct (chat_debug_mode E).
  - destruct (targets resolved) as [|t ts]; [apply spec_throw|apply spec_ret]; apply (HΦ _ []); try apply rtc_refl; constructor.
  - unfold call_provider.
    pose proof (invoke_calls_own (e_adapter_for E) (e_b64_decode E) (e_kms_decrypt E) (targets resolved)
      (kind_of (gr_request_kind request)) (gr_stream request) (p_pipeline_input p)) as Hc.
    destruct (invoke_provider_chain _ _ _ _ _ _ _) as [r calls0]. simpl in Hc.
    apply spec_bind, spec_emit_all, spec_lift. rewrite app_nil_r. apply HΦ; [apply rtc_refl|]. by eapply own_calls_ok.
Qed.

Lemma open_stream_spec g0 resolved request p g
    (Φ : result (ModelTarget * ProviderEventStream) -> list Effect -> Gateway -> Prop) :
  prepared_ok g0 request p ->
  (forall r calls0 g', reached E g g' ->
     Forall (call_ok request resolved p) ((fun ti => ProviderCall ti.1 ti.2) <$> calls0) ->
     Φ r ((fun ti => ProviderCall ti.1 ti.2) <$> calls0) g') ->
  spec (open_stream E resolved request (p_pipeline_input p)) g Φ.
Proof.
  intros Hp HΦ. unfold open_stream.
  pose proof (open_calls_own (e_adapter_for E) (e_b64_decode E) (e_kms_decrypt E) (targets resolved)
    (kind_of (gr_request_kind request)) (p_pipeline_input p)) as Hc.
  destruct (open_provider_stream _ _ _ _ _ _) as [r calls0]. simpl in Hc.
  apply spec_bind, spec_emit_all, spec_lift. rewrite app_nil_r. apply HΦ; [apply rtc_refl|]. by eapply own_calls_ok.
Qed.

(** The optional response-side pass. *)
Lemma response_pass_spec (on : bool) (restored : option str) (p : Prepared) (g : Gateway)
    (Φ : result (option str * option CoverageLoss * TokenVault * gmap str str) -> list Effect -> Gateway -> Prop) :
  (forall r es g', (forall e, r <> Err e) -> only_alerts es -> reached E g g' -> Φ r es g') ->
  spec (match on, restored with
        | true, Some text =>
            '(scrubbed, degraded, v, m) ←
              scrub detect_content merge_detections E (original_values (vault (p_pipeline_state p))) text
                (p_degraded_reason p) (vault (p_pipeline_state p)) (redaction_map (p_pipeline_state p));
            mret (Some scrubbed, degraded, v, m)
        | _, _ => mret (restored, p_degraded_reason p, vault (p_pipeline_state p),
                        redaction_map (p_pipeline_state p))
        end) g Φ.
Proof.
  intros HΦ. assert (only_alerts []) as Hnil by constructor.
  destruct on; [destruct restored as [text|]|]; try (apply spec_ret, HΦ; [done|done|apply rtc_refl]).
  apply spec_bind, scrub_spec. intros r es g' Hr Hes Hg. destruct r as [[[[x d] v] m]|e|].
  - apply spec_ret. rewrite app_nil_r. by apply HΦ.
  - by destruct (Hr e).
  - by apply HΦ.
Qed.

(** The effects after the provider calls: alerts, then the audit row. *)
Lemma finish_prep g g' request es2 ev es3 :
  only_alerts es2 -> audit_ok g g' request ev -> calls es3 = 0 -> enqueues es3 = 0 ->
  Forall (effect_ok g g' request) es3 ->
  prep_effects g g' request (es2 ++ Enqueue ev :: es3) /\ enqueues (es2 ++ Enqueue ev :: es3) = 1.
Proof.
  intros Ha Hev Hc Hn H3. destruct (alerts_no_calls _ Ha) as [Hca Hna]. split; [split|].
  - apply Forall_app. split; [by apply alerts_Forall|]. by constructor.
  - rewrite calls_app, Hca. exact Hc.
  - rewrite enqueues_app, Hna. unfold enqueues in *. simpl. by rewrite Hn.
Qed.

Lemma execute_path auth resolved request g :
  spec (execute regex_new detect_content merge_detections E render_debug auth resolved request) g
    (fun r es g' => path_ok auth g g' request resolved r es).
Proof.
  unfold execute. apply spec_bind. eapply spec_mono; [apply spec_and; [apply prepare_contract|apply prepare_decided]|].
  intros r es1 g1 [[He1 Hr] Hd]. destruct r as [p|e|]; [|apply path_ok_prepare; naive_solver..].
  destruct Hr as (Hn1 & Hp & Hg & Hg1). apply spec_bind, (upstream_spec g); [done|].
  intros r calls0 g2 Hg2%(reached_trans E _ _ _ Hg1) Hcalls.
  assert (forall A (r : result A) rest g', prep_effects g g' request rest ->
    match r with Ok _ => enqueues rest = 1 | Err _ => enqueues rest = 0 | Panic => True end ->
    path_ok auth g g' request resolved r (es1 ++ ((fun ti => ProviderCall ti.1 ti.2) <$> calls0) ++ rest)) as Hdone.
  { intros. by eapply path_ok_after. }
  destruct r as [[target out]|e|];
    [|rewrite <- (app_nil_r (_ <$> _)); by apply Hdone..].
  apply spec_bind, response_pass_spec. intros r es2 g3 Hr2 Hes2 Hg3%(reached_trans E _ _ _ Hg2).
  pose proof (alerts_prep g g3 request _ Hes2).
  destruct r as [[[[cc degraded] v] m]|e|]; [|by destruct (Hr2 e)|by apply Hdone].
  destruct (derive_usage _ _ _ _) as [usage est].
  apply spec_bind, (audit_prompt_spec _ _ g); [done|]. intros r g4 Hr3 Hk. destruct r as [prompt|e|];
    [|by destruct (Hr3 e)|rewrite app_nil_r; by apply Hdone; [apply alerts_prep|]].
  apply spec_bind, spec_emit_all, spec_ret. rewrite app_nil_r. simpl.
  edestruct finish_prep; [exact Hes2| | | | |apply Hdone; eassumption];
    [by apply served_ok, Hk|done|done|repeat constructor].
Qed.

(** *** Streaming *)

Lemma emit_segment_spec (originals : gset str) segment pending s (g : Gateway) (Φ : result StreamState -> list Effect -> Gateway -> Prop) :
  (forall r es g', (forall e, r <> Err e) -> only_alerts es -> reached E g g' -> Φ r es g') ->
  spec (emit_segment detect_content merge_detections E originals segment pending s) g Φ.
Proof.
  intros HΦ. unfold emit_segment. apply spec_bind, scrub_spec. intros r es g' Hr Hes Hg.
  destruct r as [[[[x d] v] m]|e|]; [|by destruct (Hr e)|by apply HΦ].
  apply spec_ret. rewrite app_nil_r. by apply HΦ.
Qed.

Lemma stream_loop_spec (on : bool) (originals : gset str) evs s (g : Gateway) (Φ : result StreamState -> list Effect -> Gateway -> Prop) :
  (forall r es g', (forall e, r <> Err e) -> only_alerts es -> reached E g g' -> Φ r es g') ->
  spec (stream_loop detect_content merge_detections E on originals evs s) g Φ.
Proof.
  assert (only_alerts []) as Hnil by constructor.
  revert s g Φ. induction evs as [|ev evs IH]; intros s g Φ HΦ; cbn [stream_loop];
    pose proof (rtc_refl _ _ : reached E g g) as Hg.
  { apply spec_ret. by apply HΦ. }
  destruct ev as [[tok|usage fr model ttft]|f|].
  - apply spec_bind. unfold on_token. destruct on; [case_match|destruct (push _ _ _) as [text held]].
    + apply emit_segment_spec. intros r es g' Hr Hes Hg'. destruct r as [s'|e|]; [|by destruct (Hr e)|by apply HΦ].
      apply IH. intros r es' g'' Hr' Hes' Hg''.
      apply HΦ; [done|by apply only_alerts_app|by eapply reached_trans].
    + apply spec_ret, IH. intros r es' g'' Hr' Hes' Hg''. by apply HΦ.
    + apply spec_ret, IH. intros r es' g'' Hr' Hes' Hg''. by apply HΦ.
  - by apply IH.
  - apply spec_ret. by apply HΦ.
  - apply spec_lift. by apply HΦ.
Qed.

Lemma stream_flush_spec (on : bool) (originals : gset str) s (g : Gateway) (Φ : result StreamState -> list Effect -> Gateway -> Prop) :
  (forall r es g', (forall e, r <> Err e) -> only_alerts es -> reached E g g' -> Φ r es g') ->
  spec (stream_flush detect_content merge_detections E on originals s) g Φ.
Proof.
  intros HΦ. assert (only_alerts []) as Hnil by constructor. unfold stream_flush.
  pose proof (rtc_refl _ _ : reached E g g) as Hg.
  destruct on; [|apply spec_ret; by apply HΦ].
  destruct (s_pending s); [apply spec_ret; by apply HΦ|by apply emit_segment_spec].
Qed.

Lemma execute_stream_path auth resolved request n g :
  spec (execute_stream regex_new detect_content merge_detections E auth resolved request n) g
    (fun r es g' => path_ok auth g g' request resolved r es).
Proof.
  unfold execute_stream. apply spec_bind. eapply spec_mono; [apply spec_and; [apply prepare_contract|apply prepare_decided]|].
  intros r es1 g1 [[He1 Hr] Hd]. destruct r as [p|e|]; [|apply path_ok_prepare; naive_solver..].
  destruct Hr as (Hn1 & Hp & Hg & Hg1). apply spec_bind, (open_stream_spec g); [done|].
  intros r calls0 g2 Hg2%(reached_trans E _ _ _ Hg1) Hcalls.
  assert (forall A (r : result A) rest g', prep_effects g g' request rest ->
    match r with Ok _ => enqueues rest = 1 | Err _ => enqueues rest = 0 | Panic => True end ->
    path_ok auth g g' request resolved r (es1 ++ ((fun ti => ProviderCall ti.1 ti.2) <$> calls0) ++ rest)) as Hdone.
  { intros. by eapply path_ok_after. }
  destruct r as [[target evs]|e|];
    [|rewrite <- (app_nil_r (_ <$> _)); by apply Hdone..].
  apply spec_bind, stream_loop_spec. intros r es2 g3 Hr2 Hes2 Hg3%(reached_trans E _ _ _ Hg2).
  destruct r as [s1|e|]; [|by destruct (Hr2 e)|by apply Hdone; [apply alerts_prep|]].
  apply spec_bind, stream_flush_spec. intros r es3 g4 Hr3 Hes3 Hg4%(reached_trans E _ _ _ Hg3).
  pose proof (only_alerts_app _ _ Hes2 Hes3) as Hes.
  destruct r as [s2|e|]; [|by destruct (Hr3 e)|by apply Hdone; [apply alerts_prep|]].
  destruct (derive_usage _ _ _ _) as [usage est].
  apply spec_bind, (audit_prompt_spec _ _ g); [done|]. intros r g5 Hr4 Hk. destruct r as [prompt|e|];
    [|by destruct (Hr4 e)|rewrite app_nil_r; by apply Hdone; [apply alerts_prep|]].
  apply spec_bind, spec_emit_all, spec_ret. rewrite app_nil_r. simpl. rewrite (app_assoc es2 es3).
  edestruct finish_prep; [exact Hes| | | | |apply Hdone; eassumption];
    [by apply served_ok, Hk|done|done|repeat constructor].
Qed.

End service.
