(* ===== verification/GatewaySpec.v ===== *)
(** * What the gateway guarantees about a request

    End-to-end properties of [execute] and [execute_stream], from the
    contracts of the request path, with concrete runs. *)

From S2P Require Import Prelude Rstr Json Types Placeholders Redaction RedactionSpec Streaming.
From S2P Require Import Sidecar SidecarSpec Analytics AnalyticsSpec Providers ProvidersSpec Policy PolicySpec.
From S2P Require Import SecureMode Pipeline PipelineSpec.

Section gateway.
Context `{CaseMap} `{HashOrder}.
Context (regex_new : str -> option (str -> bool)) (detect_content : floor_detector)
  (merge_detections : merger) (E : Env).
Context (render_debug : ModelTarget -> GatewayRequest -> str -> gmap str str -> str).
Context (auth : AuthContext) (resolved : ResolvedModel) (request : GatewayRequest).

Abbreviation run_execute :=
  (execute regex_new detect_content merge_detections E render_debug auth resolved request).
Abbreviation run_stream n :=
  (execute_stream regex_new detect_content merge_detections E auth resolved request n).
Abbreviation run_prepare :=
  (prepare regex_new detect_content merge_detections E auth resolved request).

(** The effects of one of the two response paths. *)
Definition path_effects (g : Gateway) (es : list Effect) : Prop :=
  es = new_effects run_execute g \/ exists n, es = new_effects (run_stream n) g.

(** A run of one of the two, with the state it ends in. *)
Definition path_run (g : Gateway) (es : list Effect) (g' : Gateway) : Prop :=
  (es = new_effects run_execute g /\ g' = (run_execute g).2) \/
  exists n, es = new_effects (run_stream n) g /\ g' = (run_stream n g).2.

Lemma path_run_ok g es g' :
  path_run g es g' -> exists A (r : result A),
    path_ok regex_new detect_content merge_detections E auth g g' request resolved r es.
Proof.
  intros [[-> ->]|(n & -> & ->)].
  - exists PipelineExecution. eexists. apply (spec_effects _ _ _ (execute_path regex_new detect_content merge_detections E render_debug
    auth resolved request g)).
  - exists StreamExecution. eexists. apply (spec_effects _ _ _ (execute_stream_path regex_new detect_content merge_detections E
    auth resolved request n g)).
Qed.

Lemma path_effects_ok g es :
  path_effects g es -> exists A (r : result A) g',
    path_ok regex_new detect_content merge_detections E auth g g' request resolved r es.
Proof.
  intros Hes. assert (exists g', path_run g es g') as (g' & Hrun).
  { destruct Hes as [->|[n ->]]; eexists; [left|right; exists n]; done. }
  apply path_run_ok in Hrun as (A & r & ?). by exists A, r, g'.
Qed.

(** A refused [prepare] is the whole request. *)
Lemma refused_whole {A} (m : M A) (k : Prepared -> M A) g :
  m = run_prepare ≫= k -> (forall p, (run_prepare g).1 <> Ok p) ->
  (forall a, (m g).1 <> Ok a) /\ g_trace (m g).2 = g_trace (run_prepare g).2.
Proof.
  intros -> Hp. unfold mbind, M_bind. destruct (run_prepare g) as [[p|e|] g']; [by destruct (Hp p)|done|done].
Qed.

Lemma refused_no_contact g es :
  (forall p, (run_prepare g).1 <> Ok p) -> path_effects g es -> calls es = 0.
Proof.
  intros Hp Hes.
  assert (es = new_effects run_prepare g) as ->.
  { destruct Hes as [->|[n ->]]; unfold new_effects.
    - by rewrite (proj2 (refused_whole run_execute _ g eq_refl Hp)).
    - by rewrite (proj2 (refused_whole (run_stream n) _ g eq_refl Hp)). }
  apply (spec_effects _ _ _ (prepare_contract regex_new detect_content merge_detections E auth resolved request g)).
Qed.

(** Every piece of the prompt was scanned by the sidecar. *)
Definition prompt_scanned (g : Gateway) : Prop :=
  forall k, k < length (split_for_ner (prompt_of E request) (ner_chunk_chars (g_sidecar g))) ->
    scanned (e_ner E (g_scans g)).2 k.

(** The workspace, or the deployment for a workspace that never chose,
    accepted degraded service. *)
Definition degrade_chosen : Prop :=
  e_sidecar_row E = Ok (Some $"degrade_with_alert") \/
  (e_sidecar_row E = Ok None /\ sidecar_unavailable_default E = $"degrade_with_alert").

Lemma sidecar_policy_degrade : sidecar_policy E = DegradeWithAlert -> degrade_chosen.
Proof.
  unfold sidecar_policy, get_effective, degrade_chosen.
  destruct (e_sidecar_row E) as [[v|]|e|]; simpl; try done.
  - unfold policy_from_db. intros. left. repeat case_decide; naive_solver.
  - unfold policy_from_db. intros. right. repeat case_decide; naive_solver.
Qed.

Lemma complete_scanned g : ml_coverage (prompt_scan E g request) = Complete -> prompt_scanned g.
Proof. intros Hc. by apply complete_all in Hc as [? _]. Qed.

(** C1: No prompt reaches a provider unscanned unless the customer chose so
    and was alerted first.  In every run of the buffered or the streaming
    path, whatever the databases, the sidecar, the KMS and the providers
    answer: before a provider is called, either the sidecar scanned every
    piece of the prompt, or degraded service was explicitly configured and
    an alert for this request is already out. *)
Theorem provider_contact_gated g es before t i after :
  path_effects g es -> es = before ++ ProviderCall t i :: after ->
  prompt_scanned g \/ (degrade_chosen /\ exists loss, Alert loss ACTION_DEGRADE ∈ before).
Proof.
  intros Hes Heq. apply path_effects_ok in Hes as (A & r & g' & _ & (es1 & es2 & Hsplit & Hc1 & Hcase) & _).
  assert (exists l, before = es1 ++ l) as [l ->].
  { rewrite Heq in Hsplit. apply app_eq_app in Hsplit as (l & [[-> Hl]|[-> Hl]]); [by eexists|].
    destruct l as [|x l]; [exists []; by rewrite !app_nil_r|]. injection Hl as <- Hl.
    exfalso. rewrite calls_app in Hc1. unfold calls in Hc1. simpl in Hc1. lia. }
  destruct Hcase as [Hc2|[[Hg|(Hd & loss & Hin)] _]].
  - exfalso. rewrite Hsplit in Heq. rewrite <- app_assoc in Heq. apply app_inv_head in Heq as ->.
    rewrite calls_app in Hc2. unfold calls in Hc2. simpl in Hc2. lia.
  - left. by apply complete_scanned.
  - right. split; [by apply sidecar_policy_degrade|]. exists loss. set_solver.
Qed.

(** What [prepare] decided is what every contacted provider is shown. *)
Lemma contact_shows_decision g es t i :
  path_effects g es -> ProviderCall t i ∈ es ->
  exists p, prepared_ok E g request p /\ decided regex_new detect_content merge_detections E auth resolved request g p /\
    t ∈ targets resolved /\
    in_messages i = [{| role := $"user"; content := oc_content (p_policy_outcome p) |}] /\
    in_prompt i = oc_content (p_policy_outcome p) /\
    in_extra_params i = sanitize_extra_params (gr_extra_params request).
Proof.
  intros Hes Hin. apply path_effects_ok in Hes as (A & r & g' & _ & (es1 & es2 & -> & Hc1 & Hcase) & _).
  assert (forall l, calls l = 0 -> ProviderCall t i ∉ l) as Hno.
  { intros l Hl Hm. apply list_elem_of_split in Hm as (l1 & l2 & ->). rewrite calls_app in Hl.
    unfold calls in Hl. simpl in Hl. lia. }
  apply elem_of_app in Hin as [Hin|Hin]; [by destruct (Hno _ Hc1)|].
  destruct Hcase as [Hc2|(_ & p & Hp & Hd & Hcalls)]; [by destruct (Hno _ Hc2)|].
  rewrite Forall_forall in Hcalls. specialize (Hcalls _ Hin). exists p. naive_solver.
Qed.

(** C3: The audit trail is honest.  Every audit row either path writes
    claims full ML coverage only if every piece of the prompt was scanned;
    its captured content is there only if the workspace's capture settings
    were readable and enabled, and every captured field, the raw prompt
    first, is the KMS's ciphertext; it counts detections in the binary's own
    vocabulary; and the prompt text it keeps is empty, or the last user
    message with its part of the prompt scan's detections woven out, or that
    message with the floor's detections woven out together with those of the
    request's last scan, a scan of that very message.  When the sidecar is
    lost before this last scan, only the floor's detections are taken out of
    the text kept. *)
Theorem audit_rows_honest g es g' ev :
  path_run g es g' -> Enqueue ev ∈ es ->
  (rq_engines ev = FloorAndMl -> prompt_scanned g) /\
  (forall c, rq_captured ev = Some c ->
     exists d rr rs, e_raw_capture E = Ok d /\ cd_enabled d = true /\ cc_encrypted c = true /\
       sealed_as (e_kms E) (last_user_message_raw (gr_messages request)) (cc_raw_prompt c) /\
       sealed_as (e_kms E) rr (cc_raw_response c) /\
       sealed_as (e_kms E) rs (cc_restored_response c)) /\
  counts_canonical ev /\
  (forall t, rq_redacted_prompt ev = Some t -> kept_text detect_content merge_detections E g g' request t).
Proof.
  intros Hes Hin. apply path_run_ok in Hes as (A & r & Hok & _ & _).
  rewrite Forall_forall in Hok. destruct (Hok _ Hin) as (He & (rr & rs & Hcap) & Hcnt & Hkept).
  split; [|split; [|done]].
  - rewrite He. intros Hf. apply complete_scanned. by destruct (ml_coverage _).
  - intros c Hc. rewrite Hcap in Hc. destruct (seal_sound _ _ _ _ _ _ Hc) as (Hen & Henc & _ & H1 & H2 & H3).
    unfold capture_of in *. destruct (e_raw_capture E) as [d|e|]; [|done|done].
    by exists d, rr, rs.
Qed.

(** One request, one audit row: a served request (buffered or streamed)
    writes exactly one row; a request that fails before any provider was
    contacted writes at most one, and a request that fails after a provider
    was contacted writes none. *)
Theorem audit_row_count g n :
  (match (run_execute g).1 with
   | Ok _ => enqueues (new_effects run_execute g) = 1
   | Err _ => enqueues (new_effects run_execute g) <= 1 /\
              (0 < calls (new_effects run_execute g) -> enqueues (new_effects run_execute g) = 0)
   | Panic => True
   end) /\
  (match (run_stream n g).1 with
   | Ok _ => enqueues (new_effects (run_stream n) g) = 1
   | Err _ => enqueues (new_effects (run_stream n) g) <= 1 /\
              (0 < calls (new_effects (run_stream n) g) -> enqueues (new_effects (run_stream n) g) = 0)
   | Panic => True
   end).
Proof.
  split.
  - destruct (spec_effects _ _ _ (execute_path regex_new detect_content merge_detections E render_debug
      auth resolved request g)) as (_ & _ & Hr).
    destruct (run_execute g).1; [done| |done]. destruct Hr as [[-> ->]| ->]; lia.
  - destruct (spec_effects _ _ _ (execute_stream_path regex_new detect_content merge_detections E
      auth resolved request n g)) as (_ & _ & Hr).
    destruct (run_stream n g).1; [done| |done]. destruct Hr as [[-> ->]| ->]; lia.
Qed.
(** ** Refusals *)

(** An erroring [prepare] is the answer of both paths. *)
Lemma refused_err {A} (m : M A) (k : Prepared -> M A) g e :
  m = run_prepare ≫= k -> (run_prepare g).1 = Err e ->
  (m g).1 = Err e /\ g_trace (m g).2 = g_trace (run_prepare g).2.
Proof. intros -> Hp. unfold mbind, M_bind. destruct (run_prepare g) as [[p|e'|] g']; naive_solver. Qed.

Lemma prepare_blocks g :
  sidecar_policy E = Block -> ml_coverage (prompt_scan E g request) <> Complete ->
  exists loss ev, CoverageLoss_from_coverage (ml_coverage (prompt_scan E g request)) = Some loss /\
    rq_final_action ev = $"block_sidecar_unavailable" /\ rq_redacted_prompt ev = None /\
    rq_redacted_response ev = None /\
    rq_captured ev = seal (capture_of E) (e_kms E) (last_user_message_raw (gr_messages request)) None None /\
    (run_prepare g).1 = Err coverage_unavailable /\
    new_effects run_prepare g =
      [Alert loss ACTION_BLOCK; Enqueue ev; RequestDuration $"unknown"; RequestDone false].
Proof.
  intros Hb Hc.
  assert (exists loss, sidecar_gate (ml_coverage (prompt_scan E g request)) (sidecar_policy E) = GateBlock loss
    /\ CoverageLoss_from_coverage (ml_coverage (prompt_scan E g request)) = Some loss) as (loss & Hg & Hl).
  { rewrite Hb. by destruct (ml_coverage _); eauto. }
  exists loss. eexists. split; [done|]. split; [|split; [|split; [|split]]]; cycle 4.
  - apply and_comm.
    apply (spec_effects run_prepare g (fun r es _ => es = _ /\ r = Err coverage_unavailable)).
    unfold prepare. destruct (preload_file_vault _ _ _) as [prompt vault0] eqn:Epre.
    assert (prompt = prompt_of E request) as -> by (unfold prompt_of; by rewrite Epre).
    apply spec_bind, (scan_and_gate_spec detect_content merge_detections E auth request resolved).
    intros g1 _. rewrite Hg. split; reflexivity.
  - done.
  - done.
  - done.
  - done.
Qed.

(** The sealed capture of a refusal: the prompt's ciphertext and no reply. *)
Lemma refused_capture c :
  seal (capture_of E) (e_kms E) (last_user_message_raw (gr_messages request)) None None = Some c ->
  exists d, e_raw_capture E = Ok d /\ cd_enabled d = true /\ cc_encrypted c = true /\
    sealed_as (e_kms E) (last_user_message_raw (gr_messages request)) (cc_raw_prompt c) /\
    cc_raw_response c = None /\ cc_restored_response c = None.
Proof.
  intros Hc. destruct (seal_sound _ _ _ _ _ _ Hc) as (Hen & Henc & _ & H1 & H2 & H3).
  unfold capture_of in *. destruct (e_raw_capture E) as [d|e|]; [|done|done]. by exists d.
Qed.

(** C4: Fail closed.  A workspace that did not accept degraded service gets no
    answer at all to a prompt the sidecar could not scan completely, on either
    path: the same error, one alert, one audit row, and no provider is
    contacted.  The row keeps no text in the clear: no redacted prompt and no
    response, and a capture only when the workspace's settings were readable
    and enabled, holding the last user message as KMS ciphertext and nothing
    of a reply. *)
Theorem block_refuses_unscanned g es n :
  sidecar_policy E = Block -> ml_coverage (prompt_scan E g request) <> Complete ->
  path_effects g es ->
  (run_execute g).1 = Err coverage_unavailable /\ (run_stream n g).1 = Err coverage_unavailable /\
  exists loss ev,
    es = [Alert loss ACTION_BLOCK; Enqueue ev; RequestDuration $"unknown"; RequestDone false] /\
    rq_final_action ev = $"block_sidecar_unavailable" /\
    rq_redacted_prompt ev = None /\ rq_redacted_response ev = None /\
    (forall c, rq_captured ev = Some c ->
       exists d, e_raw_capture E = Ok d /\ cd_enabled d = true /\ cc_encrypted c = true /\
         sealed_as (e_kms E) (last_user_message_raw (gr_messages request)) (cc_raw_prompt c) /\
         cc_raw_response c = None /\ cc_restored_response c = None).
Proof.
  intros Hb Hc Hes. destruct (prepare_blocks g Hb Hc) as (loss & ev & _ & Ha & Hp & Hq & Hcap & Hr & He).
  split; [by apply (refused_err run_execute _ g _ eq_refl)|].
  split; [by apply (refused_err (run_stream n) _ g _ eq_refl)|].
  exists loss, ev. split; [|rewrite Hcap; split_and!; [done..|apply refused_capture]].
  rewrite <- He. unfold new_effects.
  destruct Hes as [->|[k ->]]; unfold new_effects.
  - by rewrite (proj2 (refused_err run_execute _ g _ eq_refl Hr)).
  - by rewrite (proj2 (refused_err (run_stream k) _ g _ eq_refl Hr)).
Qed.

(** A successful [prepare] is decided and undenied. *)
Lemma prepare_ok g p :
  (run_prepare g).1 = Ok p -> prepared_ok E g request p /\
    decided regex_new detect_content merge_detections E auth resolved request g p.
Proof.
  intros Hp.
  pose proof (spec_effects _ _ _ (prepare_contract regex_new detect_content merge_detections E auth resolved request g)) as [_ H1].
  pose proof (spec_effects _ _ _ (prepare_decided regex_new detect_content merge_detections E auth resolved request g)) as H2.
  rewrite Hp in H1, H2. naive_solver.
Qed.

Lemma fallback_keeps_denied b c o st o' st' :
  apply_fallback_redaction b c o st = Some (o', st') -> denied o' = denied o.
Proof.
  unfold apply_fallback_redaction, redact_all. case_match; [|by intros [= <- _]].
  intros ([[x v] m] & _ & Hs)%bind_Some. by simplify_eq.
Qed.

(** The workspace blocks on detections: strict level, or a level that is not
    permissive with the flag set. *)
Definition blocks_on_pii (sm : SecureModeRow) : Prop :=
  sm_enabled sm = true /\
  (sm_level sm = $"strict" \/ (sm_level sm <> $"permissive" /\ block_on_pii_detection sm = true)).

Lemma override_denies sm inj o st o' st' :
  blocks_on_pii sm -> detections st <> [] ->
  apply_secure_mode_override sm (detections st) inj o st = Some (o', st') -> denied o' = true.
Proof.
  intros [_ Hl] Hd. assert (is_empty_list (detections st) = false) as He by by destruct (detections st).
  unfold apply_secure_mode_override. destruct (decide (sm_level sm = $"permissive")) as [Hp|].
  { rewrite Hp in Hl. destruct Hl as [Hl|[Hl _]]; [|done].
    assert ($"permissive" <> $"strict") as Hne by decide_compute. done. }
  destruct (decide (sm_level sm = $"strict")).
  { unfold override_strict. rewrite He. by intros [= <- _]. }
  destruct Hl as [|[_ Hb]]; [done|]. unfold override_standard. rewrite He, Hb. simpl.
  intros ([o1 st1] & _ & Hs)%bind_Some. by simplify_eq.
Qed.

(** Blocking workspaces forward nothing detected, and an unreadable
    secure-mode setting blocks everything: whatever the policy rules say, if
    the workspace's secure mode blocks on detections and the prompt has one,
    or the setting could not be read, no provider is contacted and no answer
    is served. *)
Theorem secure_mode_blocks g es :
  (forall sm, e_secure_mode E = Ok sm ->
     blocks_on_pii sm /\ prompt_detections detect_content merge_detections E g request <> []) ->
  path_effects g es ->
  calls es = 0 /\ (forall px, (run_execute g).1 <> Ok px) /\ (forall n sx, (run_stream n g).1 <> Ok sx).
Proof.
  intros Hsm Hes. assert (forall p, (run_prepare g).1 <> Ok p) as Hno.
  { intros p [(Hden & _) (o & v & m & sm & o1 & st1 & _ & Hs & Hov & Hfb)]%prepare_ok.
    destruct (Hsm _ Hs) as [Hb Hd]. rewrite (proj1 Hb) in Hov. destruct Hov as [inj Hov].
    apply (override_denies _ _ _ (state_of _ v m)) in Hov; [|done|done].
    apply fallback_keeps_denied in Hfb. congruence. }
  split; [by eapply refused_no_contact|]. split.
  - intros px. by apply (refused_whole run_execute _ g eq_refl Hno).
  - intros n sx. by apply (refused_whole (run_stream n) _ g eq_refl Hno).
Qed.

(** ** What is forwarded *)

(** No rule decides, or the first that does redacts. *)
Definition redaction_not_waived (input : PolicyEvaluationInput) (rules : list PolicyRuleRow) : Prop :=
  Forall (fun r => decisive regex_new input r = false) rules \/
  exists pre r post, rules = pre ++ r :: post /\
    Forall (fun r => decisive regex_new input r = false) pre /\
    decisive regex_new input r = true /\ action r = $"redact".

(** Progress of the redaction of [text]: untouched, or redacted; [done] when
    redacted for sure. *)
Definition redacting (text : str) (ds : list Detection) (o : PolicyEvaluationOutcome) (m : gmap str str) : Prop :=
  (m = ∅ -> oc_content o = text) /\ (m <> ∅ -> oc_content o = woven text ds).

Lemma redact_all_done text ds o st o' st' :
  redacting text ds o (redaction_map st) -> redaction_map st = ∅ ->
  redact_all o st ds = Some (o', st') ->
  redacting text ds o' (redaction_map st') /\ oc_content o' = woven text ds.
Proof.
  intros [Ht _] Hm. unfold redact_all. rewrite (Ht Hm).
  intros ([[c v] m] & Ha & Hs)%bind_Some. simplify_eq. simpl.
  pose proof (apply_redaction_plan _ _ _ _ _ _ _ Ha) as Hc. split; [|done]. split; [|done].
  intros ->. by apply apply_redaction_empty_map in Ha as [_ ->].
Qed.

Lemma evaluate_redacting g o v m :
  redact_when_no_rules E = true ->
  (forall rows, e_rules E = Ok rows ->
     redaction_not_waived (policy_input detect_content merge_detections E auth resolved request g)
       (List.filter enabled rows)) ->
  evaluate regex_new (list_enabled_rules (e_rules E))
    (policy_input detect_content merge_detections E auth resolved request g) (file_vault E request) ∅
    = Ok (o, v, m) ->
  let P := prompt_of E request in
  let ds := prompt_detections detect_content merge_detections E g request in
  redacting P ds o m /\ (unprotected o = true \/ oc_content o = woven P ds).
Proof.
  intros Hfc Hw. unfold list_enabled_rules. destruct (e_rules E) as [rows|e|]; cbn [obind]; [|done|done].
  destruct (Hw _ eq_refl) as [Hno|(pre & r & post & Heq & Hpre & Hr & Hact)]; [|rewrite Heq].
  - rewrite evaluate_undecided by done. intros [= <- <- <-]. simpl. split; [|by left]. by split.
  - rewrite evaluate_decided by done. unfold action_effect. rewrite decide_True by done. simpl. rewrite Hfc.
    destruct (apply_redaction _ _ _ _) as [[[c w] k]|] eqn:Ha; [|done]. intros [= <- <- <-]. simpl.
    pose proof (apply_redaction_plan _ _ _ _ _ _ _ Ha) as Hc. split; [|by right]. split; [|done].
    intros ->. by apply apply_redaction_empty_map in Ha as [_ ->].
Qed.

Lemma override_redacting text sm inj o st o' st' :
  apply_secure_mode_override sm (detections st) inj o st = Some (o', st') ->
  redacting text (detections st) o (redaction_map st) ->
  redacting text (detections st) o' (redaction_map st') /\
  (oc_content o' = woven text (detections st) \/ (oc_content o' = oc_content o /\ unprotected o' = unprotected o)).
Proof.
  intros Ho Hr. unfold apply_secure_mode_override in Ho. destruct (decide (sm_level sm = $"permissive")).
  { simplify_eq. unfold override_permissive. destruct (denied o); split; auto. }
  destruct (decide (sm_level sm = $"strict")).
  { simplify_eq. unfold override_strict. destruct (_ || _); split; auto. }
  unfold override_standard in Ho. apply bind_Some in Ho as ([o1 st1] & H1 & H2).
  assert (oc_content o' = oc_content o1 /\ unprotected o' = unprotected o1 /\ st' = st1) as (Hc & Hu & ->).
  { destruct (_ && _) in H2; [|destruct (_ && _) in H2]; by simplify_eq. }
  unfold redacting. rewrite Hc, Hu. destruct (_ && _) eqn:Hif in H1; [|by simplify_eq; split; auto].
  apply andb_true_iff in Hif as [_ Hm%bool_decide_eq_true].
  destruct (redact_all_done _ _ _ _ _ _ Hr Hm H1) as [? ?]. split; auto.
Qed.

Lemma fallback_redacting text b o st o' st' :
  redacting text (detections st) o (redaction_map st) ->
  oc_content o = woven text (detections st) \/ unprotected o = true ->
  apply_fallback_redaction b true o st = Some (o', st') ->
  oc_content o' = woven text (detections st).
Proof.
  intros Hr Hd. unfold apply_fallback_redaction. destruct (_ && _) eqn:Hif.
  - apply andb_true_iff in Hif as [[_ Hm%bool_decide_eq_true]%andb_true_iff _]. intros Ha.
    by eapply redact_all_done in Ha as [_ ?].
  - intros [= <- <-]. destruct Hd as [|Hu]; [done|]. rewrite Hu, orb_true_r in Hif. simpl in Hif.
    destruct (bool_decide _) eqn:Hm; [|apply bool_decide_eq_false in Hm; by apply Hr].
    apply bool_decide_eq_true in Hm. destruct (detections st); [|done].
    destruct Hr as [-> _]; [|done]. done.
Qed.

(** With redaction as the default, what a contacted provider is shown is the
    prompt with its detections woven out. *)
Lemma contact_woven g es t i :
  redact_when_no_rules E = true ->
  (forall rows, e_rules E = Ok rows ->
     redaction_not_waived (policy_input detect_content merge_detections E auth resolved request g)
       (List.filter enabled rows)) ->
  path_effects g es -> ProviderCall t i ∈ es ->
  in_prompt i = woven (prompt_of E request) (prompt_detections detect_content merge_detections E g request)
  /\ in_messages i = [{| role := $"user"; content := in_prompt i |}]
  /\ in_extra_params i = sanitize_extra_params (gr_extra_params request).
Proof.
  intros Hfc Hw Hes Hin.
  destruct (contact_shows_decision _ _ _ _ Hes Hin) as (p & _ & Hd & _ & Hm & Hp & Hx).
  destruct Hd as (o & v & m & sm & o1 & st1 & He & _ & Hov & Hfb).
  apply (evaluate_redacting g) in He as [Hr Hu]; [|done|done].
  assert (redacting (prompt_of E request) (detections st1) o1 (redaction_map st1) /\
    (oc_content o1 = woven (prompt_of E request) (detections st1) \/ unprotected o1 = true) /\
    detections st1 = prompt_detections detect_content merge_detections E g request) as (Hr1 & Hu1 & Hds).
  { destruct (sm_enabled sm).
    - destruct Hov as [inj Hov]. pose proof (override_keeps_detections _ _ _ _ _ _ _ Hov) as Hds.
      apply (override_redacting (prompt_of E request) sm inj o (state_of _ v m)) in Hov as [Hr1 Hu1]; [|done].
      rewrite Hds. split; [exact Hr1|]. split; [|done].
      destruct Hu1 as [|[Hc Hun]]; [by left|]. simpl. rewrite Hc, Hun. destruct Hu; [by right|by left].
    - destruct Hov as [-> ->]. split; [done|]. split; [|done]. destruct Hu; [by right|by left]. }
  rewrite Hfc in Hfb. apply (fallback_redacting _ _ _ _ _ _ Hr1 Hu1) in Hfb. rewrite Hds in Hfb.
  rewrite Hm, Hp, Hfb. split_and!; [done|done|exact Hx].
Qed.

(** C2: Default protection, end to end.  With redaction as the deployment's
    default, unless a matching policy rule decided something other than
    redaction, every provider that is contacted, on either path, at every
    secure-mode level, is shown the prompt with its detections woven out; and
    when the detections nest or are disjoint and lie on character boundaries,
    every non-empty detected span is inside a replaced one. *)
Theorem forwarded_prompt_redacted g es t i :
  let P := prompt_of E request in
  let ds := prompt_detections detect_content merge_detections E g request in
  redact_when_no_rules E = true ->
  (forall rows, e_rules E = Ok rows ->
     redaction_not_waived (policy_input detect_content merge_detections E auth resolved request g)
       (List.filter enabled rows)) ->
  path_effects g es -> ProviderCall t i ∈ es ->
  in_prompt i = woven P ds /\ in_messages i = [{| role := $"user"; content := woven P ds |}] /\
  (laminar ds -> Forall (span_usable P) ds ->
   forall d s e, d ∈ ds -> span d = Some (s, e) -> (s < e)%N -> covers (redaction_plan P ds) s e).
Proof.
  cbn zeta. intros Hfc Hw Hes Hin. destruct (contact_woven _ _ _ _ Hfc Hw Hes Hin) as (Hp & Hm & _).
  rewrite Hm, Hp. split; [done|]. split; [done|]. intros. by eapply redaction_plan_covers.
Qed.

(** But a permissive workspace forwards the raw prompt of a denied
    request.  When the first deciding rule denies and the secure mode is
    permissive, the deny is lifted and recorded as a redaction, yet every
    contacted provider is shown the prompt itself: the default redaction does
    not run, because a rule has decided. *)
Theorem permissive_downgrade_forwards_raw g es t i rows pre r post sm :
  e_rules E = Ok rows -> List.filter enabled rows = pre ++ r :: post ->
  let input := policy_input detect_content merge_detections E auth resolved request g in
  Forall (fun r => decisive regex_new input r = false) pre -> decisive regex_new input r = true ->
  action r = $"deny" -> e_secure_mode E = Ok sm -> sm_enabled sm = true -> sm_level sm = $"permissive" ->
  chat_debug_mode E = false ->
  path_effects g es -> ProviderCall t i ∈ es ->
  in_prompt i = prompt_of E request.
Proof.
  intros Hrows Hen input Hpre Hr Hact Hsm Hon Hlev Hdbg Hes Hin.
  destruct (contact_shows_decision _ _ _ _ Hes Hin) as (p & _ & Hd & _ & _ & Hp & _).
  destruct Hd as (o & v & m & sm' & o1 & st1 & He & Hsm' & Hov & Hfb).
  rewrite Hsm in Hsm'. injection Hsm' as <-. rewrite Hon in Hov. destruct Hov as [inj Hov].
  unfold list_enabled_rules in He. rewrite Hrows in He. cbn [obind] in He.
  rewrite Hen, evaluate_decided in He by done. unfold action_effect in He.
  rewrite Hact, !decide_False in He by decide_compute.
  injection He as <- <- <-. unfold apply_secure_mode_override in Hov. rewrite decide_True in Hov by done.
  injection Hov as <- <-. unfold apply_fallback_redaction in Hfb. rewrite Hdbg in Hfb. simpl in Hfb.
  unfold override_permissive in Hfb. rewrite Hp.
  destruct (bool_decide (action r = $"deny")); cbn in Hfb; rewrite andb_false_r in Hfb;
    by injection Hfb as <- _.
Qed.

End gateway.
