(* ===== verification/ReplySpec.v ===== *)
(** * What the client is streamed

    The response side of [execute_stream], over a provider stream cut into
    arbitrary deltas: with response redaction off the client receives a
    well-formed reply restored; with it on, the reply's settled pieces, each
    restored, scanned and redacted in the state the piece before it left. *)

From S2P Require Import Prelude Rstr Json Types Placeholders Redaction RedactionSpec Streaming.
From S2P Require Import Sidecar SidecarSpec Analytics Providers ProvidersSpec Policy SecureMode Pipeline.
From S2P Require Import PipelineSpec GatewaySpec.
From S2P Require Import AnalyticsSpec PolicySpec.

(** The tokens of a provider stream up to its end or first error. *)
Fixpoint tokens_of (evs : ProviderEventStream) : list str :=
  match evs with
  | Ok (Token tok) :: evs' => tok :: tokens_of evs'
  | Ok (EvDone _ _ _ _) :: evs' => tokens_of evs'
  | _ => []
  end.

(** No adapter task died. *)
Definition no_panic (evs : ProviderEventStream) : Prop := Panic ∉ evs.

Lemma no_panic_cons ev evs : no_panic (ev :: evs) -> ev <> Panic /\ no_panic evs.
Proof. unfold no_panic. rewrite not_elem_of_cons. naive_solver. Qed.

(** The text of the items a client receives. *)
Definition item_text (i : ChatStreamItem) : str := match i with Delta t => t | Done _ _ _ _ => [] end.
Definition items_text (l : list ChatStreamItem) : str := concat (item_text <$> l).

Lemma items_text_app a b : items_text (a ++ b) = items_text a ++ items_text b.
Proof. unfold items_text. by rewrite fmap_app, concat_app. Qed.

Lemma items_text_delta t : items_text (delta t) = t.
Proof. destruct t; [done|]. unfold items_text. simpl. by rewrite app_nil_r. Qed.

Section reply.
Context `{CaseMap} `{HashOrder}.
Context (regex_new : str -> option (str -> bool)) (detect_content : floor_detector)
  (merge_detections : merger) (E : Env).

Abbreviation loop := (stream_loop detect_content merge_detections E).
Abbreviation finish := (stream_flush detect_content merge_detections E).

(** ** Redaction off *)

Lemma loop_off (originals : gset str) evs s g :
  no_panic evs -> exists s',
    loop false originals evs s g = (Ok s', g) /\
    s_vault s' = s_vault s /\
    let '(outs, rest) := stream_deltas (s_placeholder s) (tokens_of evs) (s_vault s) in
    s_placeholder s' = rest /\ items_text (s_items s') = items_text (s_items s) ++ concat outs /\
    s_raw_full s' = s_raw_full s ++ concat (tokens_of evs).
Proof.
  revert s. induction evs as [|ev evs IH]; intros s Hp; simpl.
  { exists s. by rewrite !app_nil_r. }
  apply no_panic_cons in Hp as [Hne Hp]. destruct ev as [[tok|u f m t]|e|]; [| | |done].
  - unfold mbind, M_bind, on_token. simpl. destruct (push (s_placeholder s) tok (s_vault s)) as [text held].
    destruct (IH (emit_restored text held (note_token E tok s)) Hp) as (s' & Hl & Hv & Hs').
    simpl in Hl, Hv, Hs'. exists s'. split; [exact Hl|]. split; [exact Hv|].
    destruct (stream_deltas held (tokens_of evs) (s_vault s)) as [outs rest]. simpl.
    destruct Hs' as (Hh & Hi & Hr). split; [done|]. rewrite Hi, Hr, items_text_app, items_text_delta.
    by rewrite <- !app_assoc.
  - destruct (IH (on_done u t s) Hp) as (s' & Hl & Hv & Hs'). by exists s'.
  - exists (on_failure s). simpl. by rewrite !app_nil_r.
Qed.

Lemma off_text (originals : gset str) evs p g :
  no_panic evs -> exists s',
    (s ← loop false originals evs (stream_init p); finish false originals s) g = (Ok s', g) /\
    items_text (s_items s') = stream_text (tokens_of evs) (vault (p_pipeline_state p)).
Proof.
  intros Hp. destruct (loop_off originals evs (stream_init p) g Hp) as (s & Hl & Hv & Hs).
  eexists. split.
  { unfold mbind, M_bind. rewrite Hl. reflexivity. }
  unfold stream_text. simpl in Hv, Hs.
  destruct (stream_deltas [] (tokens_of evs) (vault (p_pipeline_state p))) as [outs rest].
  destruct Hs as (-> & Hi & _). simpl. by rewrite items_text_app, items_text_delta, Hi, Hv.
Qed.

(** ** Redaction on *)

(** Where the response side stands between two pieces: the sidecar client
    with the number of the next scan, and the vault and redaction map. *)
Record ReplyState : Type := {
  y_client : MlSidecarClient;
  y_scan : nat;
  y_vault : TokenVault;
  y_map : gmap str str;
}.

Definition reply_state (g : Gateway) (v : TokenVault) (m : gmap str str) : ReplyState :=
  {| y_client := g_sidecar g; y_scan := g_scans g; y_vault := v; y_map := m |}.

(** The next scan of the request, over [text]. *)
Definition reply_scan (y : ReplyState) (text : str) : MlDetectionOutcome * MlSidecarClient :=
  detect_if_available (y_client y) (e_ner E (y_scan y)).1 (e_ner E (y_scan y)).2 text.

(** What is taken out of [text]: the detections of the floor and of this
    scan, save the client's own data. *)
Definition reply_detections (originals : gset str) (y : ReplyState) (text : str) : list Detection :=
  filter_response_side_detections
    (merge_detections (detect_content text) (ml_detections (reply_scan y text).1)) originals.

Definition scrubbed (originals : gset str) (y : ReplyState) (text out : str) : Prop :=
  out = woven text (reply_detections originals y text).





Lemma scrub_run (originals : gset str) text degraded v m g :
  exists out d' v' m' g', scrub detect_content merge_detections E originals text degraded v m g
    = (Ok (out, d', v', m'), g') /\ scrubbed originals (reply_state g v m) text out /\
    apply_redaction text (reply_detections originals (reply_state g v m) text) v m = Some (out, v', m') /\
    g_sidecar g' = (reply_scan (reply_state g v m) text).2 /\ g_scans g' = S (g_scans g).
Proof.
  unfold scrub, mbind, M_bind, scrubbed. rewrite detect_run. unfold reply_detections.
  change (scan_of E g text) with (reply_scan (reply_state g v m) text).
  set (ds := filter_response_side_detections _ _).
  destruct (apply_redaction_returns text ds v m) as (out & v' & m' & Ha).
  pose proof (apply_redaction_plan _ _ _ _ _ _ _ Ha) as Hw.
  destruct ds as [|x ds'].
  - rewrite apply_redaction_nil in Ha. injection Ha as <- <- <-.
    destruct (CoverageLoss_from_coverage _); do 5 eexists; (split; [reflexivity|]);
      (split; [exact Hw|]); (split; [apply apply_redaction_nil|]); by split.
  - destruct (CoverageLoss_from_coverage _); simpl; rewrite Ha; do 5 eexists; (split; [reflexivity|]);
      (split; [exact Hw|]); (split; [done|]); by split.
Qed.




(** ** The whole streaming request *)

Lemma audit_prompt_run messages degraded g :
  exists r g', audit_prompt detect_content merge_detections E messages degraded g = (Ok r, g').
Proof.
  unfold audit_prompt. destruct degraded as [l|]; [by do 2 eexists|].
  unfold redact_last_user_message, mbind, M_bind, detect_if_available_m.
  destruct (last_user_message messages) as [msg|]; [|by do 2 eexists].
  destruct (content msg) as [|c text]; [by do 2 eexists|].
  destruct (e_ner E (g_scans g)) as [now env]. destruct (detect_if_available _ _ _ _) as [out cl].
  destruct (merge_detections _ _) as [|d ds]; [by do 2 eexists|].
  destruct (apply_redaction_returns (c :: text) (d :: ds) TokenVault_default ∅) as (o & v & m & ->).
  by do 2 eexists.
Qed.

Context (auth : AuthContext) (resolved : ResolvedModel) (request : GatewayRequest) (n : N).

Abbreviation run := (execute_stream regex_new detect_content merge_detections E auth resolved request n).
Abbreviation prepared_run := (prepare regex_new detect_content merge_detections E auth resolved request).
Abbreviation opened p := (open_provider_stream (e_adapter_for E) (e_b64_decode E) (e_kms_decrypt E)
  (targets resolved) (p_pipeline_input p) (kind_of (gr_request_kind request))).

(** Once the provider stream is open, the request is served with what the
    loop emitted and one final item. *)
Lemma stream_served g p g1 target evs cs (Q : StreamState -> Prop) :
  prepared_run g = (Ok p, g1) -> opened p = (Ok (target, evs), cs) ->
  (forall g2, g_sidecar g2 = g_sidecar g1 -> g_scans g2 = g_scans g1 -> exists s g3,
     (s1 ← loop (redact_responses E (p_secure_mode p)) (original_values (vault (p_pipeline_state p))) evs
             (stream_init p);
      finish (redact_responses E (p_secure_mode p)) (original_values (vault (p_pipeline_state p))) s1) g2
     = (Ok s, g3) /\ Q s) ->
  exists sx s usage estimated, (run g).1 = Ok sx /\ Q s /\
    sx_items sx = s_items s ++ [Done usage estimated (mt_model_name target) (p_request_id p)].
Proof.
  intros Hp Ho Hl. unfold execute_stream, open_stream, mbind, M_bind. rewrite Hp, Ho. simpl.
  match goal with |- context [stream_loop _ _ _ _ _ _ _ ?g0] => destruct (Hl g0 eq_refl eq_refl) as (s & g3 & Hs & HQ) end.
  unfold mbind, M_bind in Hs.
  destruct (loop _ _ evs (stream_init p) _) as [[s1|e|] g4]; [|done|done].
  rewrite Hs. destruct (derive_usage _ _ _ _) as [usage est].
  destruct (audit_prompt_run (gr_messages request) (s_degraded s) g3) as (r & g5 & ->).
  do 4 eexists. split; [reflexivity|]. split; [exact HQ|reflexivity].
Qed.

(** C8: Streaming without response redaction is transparent.  When the
    request is accepted, a provider stream opens, its adapter task does not
    die, and the reply is well formed (its double braces open placeholders
    only, the vault holds placeholders only, and restoring them forms no new
    ones), the request is served, and the text the client receives over all
    deltas is the reply up to where it ended or broke off, with its
    placeholders restored, however the provider cut it. *)
Theorem streamed_reply_restored g p g1 target evs cs ats :
  prepared_run g = (Ok p, g1) -> opened p = (Ok (target, evs), cs) -> no_panic evs ->
  redact_responses E (p_secure_mode p) = false ->
  reply_ok (vault (p_pipeline_state p)) ats -> concat (tokens_of evs) = render ats ->
  exists sx, (run g).1 = Ok sx /\
    items_text (sx_items sx) = restore (vault (p_pipeline_state p)) (concat (tokens_of evs)).
Proof.
  intros Hp Ho Hnp Hoff Hok Hats.
  destruct (stream_served g p g1 target evs cs
    (fun s => items_text (s_items s) = stream_text (tokens_of evs) (vault (p_pipeline_state p))) Hp Ho)
    as (sx & s & u & e & Hr & Hs & Hi).
  { intros g2 _ _. rewrite Hoff. destruct (off_text (original_values (vault (p_pipeline_state p))) evs p g2 Hnp)
      as (s' & ? & ?). eauto. }
  exists sx. split; [done|]. rewrite Hi, items_text_app, Hs. unfold items_text. simpl. rewrite app_nil_r.
  by apply (stream_restores _ ats).
Qed.


(** ** The buffered request *)

Context (render_debug : ModelTarget -> GatewayRequest -> str -> gmap str str -> str).

Abbreviation run_buffered :=
  (execute regex_new detect_content merge_detections E render_debug auth resolved request).
Abbreviation replied p := (invoke_provider_chain (e_adapter_for E) (e_b64_decode E) (e_kms_decrypt E)
  (targets resolved) (kind_of (gr_request_kind request)) (gr_stream request) (p_pipeline_input p)).

Lemma response_pass_run (on : bool) (restored : option str) p g :
  exists cc d v m g',
    (match on, restored with
     | true, Some text =>
         '(scrubbed, degraded, v, m) ←
           scrub detect_content merge_detections E (original_values (vault (p_pipeline_state p))) text
             (p_degraded_reason p) (vault (p_pipeline_state p)) (redaction_map (p_pipeline_state p));
         mret (Some scrubbed, degraded, v, m)
     | _, _ => mret (restored, p_degraded_reason p, vault (p_pipeline_state p),
                     redaction_map (p_pipeline_state p))
     end : M _) g = (Ok (cc, d, v, m), g') /\
    match on, restored with
    | true, Some text => exists out, cc = Some out /\
        scrubbed (original_values (vault (p_pipeline_state p)))
          (reply_state g (vault (p_pipeline_state p)) (redaction_map (p_pipeline_state p))) text out
    | _, _ => cc = restored
    end.
Proof.
  destruct on; [destruct restored as [text|]|]; try (do 5 eexists; split; reflexivity).
  destruct (scrub_run (original_values (vault (p_pipeline_state p))) text (p_degraded_reason p)
    (vault (p_pipeline_state p)) (redaction_map (p_pipeline_state p)) g) as (out & d & v & m & g' & Hr & Ho & _).
  do 5 eexists. split; [unfold mbind, M_bind; rewrite Hr; reflexivity|]. eauto.
Qed.

Lemma buffered_served g p g1 target out cs :
  chat_debug_mode E = false ->
  prepared_run g = (Ok p, g1) -> replied p = (Ok (target, out), cs) -> out_embedding out = None ->
  exists px v, (run_buffered g).1 = Ok px /\
    (if redact_responses E (p_secure_mode p)
     then exists reply, px_content px = Some reply /\
       scrubbed (original_values (vault (p_pipeline_state p)))
         (reply_state g1 (vault (p_pipeline_state p)) (redaction_map (p_pipeline_state p)))
         (restore_content (out_content out) (vault (p_pipeline_state p))) reply
     else px_content px = Some (restore_content (out_content out) (vault (p_pipeline_state p)))) /\
    px_stream_chunks px = buffered_chunks E request out (px_content px) v.
Proof.
  intros Hdbg Hp Ho Hemb.
  assert (restored_reply E out (vault (p_pipeline_state p))
    = Some (restore_content (out_content out) (vault (p_pipeline_state p)))) as Hrest.
  { unfold restored_reply. by rewrite Hdbg, Hemb. }
  unfold execute, upstream, call_provider. rewrite Hdbg.
  unfold mbind at 1, M_bind at 1. rewrite Hp. unfold mbind at 1, M_bind at 1. rewrite Ho.
  unfold mbind at 1, M_bind at 1. simpl. rewrite Hrest.
  unfold mbind at 1, M_bind at 1.
  edestruct (response_pass_run (redact_responses E (p_secure_mode p))
    (Some (restore_content (out_content out) (vault (p_pipeline_state p)))) p)
    as (cc & d & v & m & g' & Hr & Hcc).
  rewrite Hr. destruct (derive_usage _ _ _ _) as [usage est]. unfold mbind at 1, M_bind at 1.
  destruct (audit_prompt_run (gr_messages request) d g') as (r & g5 & ->).
  eexists _, v. split; [reflexivity|]. split; [|reflexivity].
  simpl. destruct (redact_responses _ _); [|exact Hcc]. destruct Hcc as (reply & -> & Hs). eauto.
Qed.

(** A buffered reply is the provider's reply with its placeholders
    restored, and when the workspace redacts replies it is that text after a
    response-side scan with the client's own data left in; the request is
    served as soon as a provider answered. *)
Theorem buffered_reply_content g p g1 target out cs :
  chat_debug_mode E = false ->
  prepared_run g = (Ok p, g1) -> replied p = (Ok (target, out), cs) -> out_embedding out = None ->
  exists px, (run_buffered g).1 = Ok px /\
    if redact_responses E (p_secure_mode p)
    then exists reply, px_content px = Some reply /\
      scrubbed (original_values (vault (p_pipeline_state p)))
        (reply_state g1 (vault (p_pipeline_state p)) (redaction_map (p_pipeline_state p)))
        (restore_content (out_content out) (vault (p_pipeline_state p))) reply
    else px_content px = Some (restore_content (out_content out) (vault (p_pipeline_state p))).
Proof.
  intros Hdbg Hp Ho Hemb.
  destruct (buffered_served g p g1 target out cs Hdbg Hp Ho Hemb) as (px & v & Hr & Hc & _). eauto.
Qed.

(** The chunks of a buffered streaming request (the completions route)
    bypass the response-side scan.  Whatever the workspace's setting, the
    chunks the client is sent are the provider's own chunks with placeholders
    restored: no detection is run over them, even when the reply's content is
    redacted. *)
Theorem completion_stream_unscanned g p g1 target out cs :
  chat_debug_mode E = false ->
  prepared_run g = (Ok p, g1) -> replied p = (Ok (target, out), cs) -> out_embedding out = None ->
  gr_stream request = true -> out_stream_chunks out <> [] ->
  exists px v, (run_buffered g).1 = Ok px /\
    px_stream_chunks px = placeholder_safe_chunks (out_stream_chunks out) v.
Proof.
  intros Hdbg Hp Ho Hemb Hs Hne.
  destruct (buffered_served g p g1 target out cs Hdbg Hp Ho Hemb) as (px & v & Hr & _ & Hc).
  exists px, v. split; [done|]. rewrite Hc. unfold buffered_chunks. rewrite Hs, Hdbg.
  by destruct (out_stream_chunks out).
Qed.

(** ** The audit's own scan *)

Lemma absent_no_detections cl now env text reason :
  ml_coverage (detect_if_available cl now env text).1 = Absent reason ->
  ml_detections (detect_if_available cl now env text).1 = [].
Proof.
  unfold detect_if_available. destruct (client_enabled cl); simpl; [|done].
  destruct (is_open now (circuit cl)) as [[|] c]; [done|].
  by destruct (classify_coverage _ _ _).
Qed.

(** The audited prompt trusts a scan that did not happen.  When the prompt
    scan was complete but the sidecar is gone by the time the audit scans the
    message again, and the floor alone finds nothing in it, the raw message is
    recorded as the redacted prompt. *)
Theorem audit_rescan_ignores_outage messages msg g reason :
  last_user_message messages = Some msg -> content msg <> [] ->
  ml_coverage (detect_if_available (g_sidecar g) (e_ner E (g_scans g)).1 (e_ner E (g_scans g)).2
                 (content msg)).1 = Absent reason ->
  merge_detections (detect_content (content msg)) [] = [] ->
  (audit_prompt detect_content merge_detections E messages None g).1 = Ok (Redacted (content msg)).
Proof.
  intros Hm Hne Hcov Hfloor. apply absent_no_detections in Hcov.
  unfold audit_prompt, redact_last_user_message, detect_if_available_m, mbind, M_bind. rewrite Hm.
  destruct (content msg) as [|ch text]; [done|].
  destruct (e_ner E (g_scans g)) as [now env]. simpl in Hcov.
  destruct (detect_if_available _ _ _ _) as [out cl]. simpl in Hcov |- *. by rewrite Hcov, Hfloor.
Qed.

End reply.

(** ** Concrete requests through the gateway

    A deployment with a two-piece sidecar, an echoing provider and a floor
    detector that knows one name, and the end-to-end properties applied to
    requests run through it. *)

(** ** The deployment *)

(** A floor that finds the name Bob. *)
Definition demo_floor (text : str) : list Detection :=
  match find text $"Bob" with
  | Some i => [mk_det $"PERSON" $"Bob" (N.of_nat i) (N.of_nat i + 3)%N]
  | None => []
  end.

Definition ml_as_detection (d : MlDetection) : Detection :=
  {| class := ml_class d; confidence := ml_confidence d; span := ml_span d; value := ml_value d |}.

Definition demo_merge (floor : list Detection) (ml : list MlDetection) : list Detection :=
  floor ++ (ml_as_detection <$> ml).

Definition down_env (i : nat) : ChunkEnv := {|
  env_others := fun c => c; env_now := 1000; env_budget_expired := false;
  env_reply := TransportError; env_fail_now := 1000;
|}.

Definition clean_env (i : nat) : ChunkEnv := {|
  env_others := fun c => c; env_now := 1000; env_budget_expired := false;
  env_reply := Entities []; env_fail_now := 1000;
|}.

Definition demo_deployment (row : result (option str)) (rules : list PolicyRuleRow)
    (sm : result SecureModeRow) (ner : nat -> nat -> ChunkEnv) (adapter : ProviderAdapter) : Env := {|
  chat_debug_mode := false; redact_when_no_rules := true; sidecar_unavailable_default := $"block";
  pricing := PricingTable_with_defaults;
  e_raw_capture := Ok opted_in; e_sidecar_row := row; e_rules := Ok rules; e_secure_mode := sm;
  e_load_file_vault := fun _ => None;
  e_ner := fun n => (1000%N, ner n);
  e_injection := (1000%N, 1000%N, InjAnswer {| is_injection := false; inj_score := SpecFloat.S754_zero false |});
  e_rag := (1000%N, 1000%N, Some rag_empty);
  e_kms := reversing_kms; e_adapter_for := fun _ => Some adapter;
  e_b64_decode := Some; e_kms_decrypt := fun _ c => Some c;
  e_fresh_id := 77%N; e_latency_ms := 12%N; e_ttft_ms := 5%N;
|}.

Definition demo_auth : AuthContext :=
  {| au_api_key_id := 3%N; au_workspace_id := 1%N; au_api_key_name := $"key"; au_user_id := None |}.

Definition demo_resolved : ResolvedModel := {| public_model := $"gpt"; targets := [demo_target] |}.

Definition demo_request (stream : bool) : GatewayRequest := {|
  gr_public_model := $"gpt"; gr_messages := [{| role := $"user"; content := demo_prompt |}];
  gr_stream := stream; gr_request_kind := if stream then Completion else Chat; gr_extra_params := Null;
  gr_client_ip := None; gr_user_agent := None; gr_request_id := None;
|}.

Definition idle : Gateway := {| g_sidecar := demo_client; g_scans := 0; g_trace := [] |}.

(** Healthy for the prompt scan, then [later]. *)
Definition scans_then (later : nat -> ChunkEnv) (n : nat) : nat -> ChunkEnv :=
  match n with 0 => demo_env | _ => later end.

Definition mode (on : bool) (level : str) (redact_replies : bool) : SecureModeRow := {|
  sm_workspace_id := 1%N; sm_enabled := on; sm_level := level; block_on_pii_detection := false;
  block_on_injection_detection := false; redact_pii_in_responses := redact_replies;
|}.

Definition no_debug (_ : ModelTarget) (_ : GatewayRequest) (_ : str) (_ : gmap str str) : str := [].

Definition buffered (E : Env) (stream : bool) : M PipelineExecution :=
  @execute ascii_case_map map_order literal_regex demo_floor demo_merge E no_debug
    demo_auth demo_resolved (demo_request stream).

(** Without policy rules, with the secure mode off. *)
Definition quiet_env : Env :=
  demo_deployment (Ok None) [] (Ok SecureModeRow_default) (fun _ => demo_env) (echo_adapter $"vllm").

Definition first_call (es : list Effect) : option (ModelTarget * ProviderInvocation) :=
  head (omap (fun e => match e with ProviderCall t i => Some (t, i) | _ => None end) es).

Definition rows_of (es : list Effect) : list RequestEvent :=
  omap (fun e => match e with Enqueue ev => Some ev | _ => None end) es.

Example quiet_run :
  (fun ti => in_prompt ti.2) <$> first_call (new_effects (buffered quiet_env false) idle)
    = Some $"Please call {{Person_1}}" /\
  (fun ev => (rq_redacted_prompt ev, rq_final_action ev)) <$> rows_of (new_effects (buffered quiet_env false) idle)
    = [(Some $"Please call {{Person_1}}", $"redact")] /\
  match (buffered quiet_env false idle).1 with
  | Ok px => px_content px = Some $"vllm echo: Please call Anna"
  | _ => False
  end.
Proof. vm_compute. split_and!; reflexivity. Qed.

(** ** The end-to-end properties on runs *)

Lemma first_call_split es ti :
  first_call es = Some ti -> exists before after, es = before ++ ProviderCall ti.1 ti.2 :: after.
Proof.
  induction es as [|e es IH]; [done|]. unfold first_call in *.
  destruct e as [| |t i| | | |]; simpl.
  3: { intros [= <-]. by exists [], es. }
  all: intros Hh; destruct (IH Hh) as (b & a & ->); eexists (_ :: b), a; reflexivity.
Qed.

Lemma first_call_in es t i : first_call es = Some (t, i) -> ProviderCall t i ∈ es.
Proof. intros (b & a & ->)%first_call_split. set_solver. Qed.

(** Take the call out of a run, refuting that there is none by computation. *)
Ltac obtain_call t i H :=
  match goal with |- context [first_call ?es] => destruct (first_call es) as [[t i]|] eqn:H end;
  [|vm_compute in H; discriminate].

(** The sidecar is down and the workspace accepted degraded service. *)
Definition degraded_env : Env :=
  demo_deployment (Ok (Some $"degrade_with_alert")) [] (Ok SecureModeRow_default)
    (fun _ => down_env) (echo_adapter $"vllm").

Lemma provider_contact_gated_witness :
  first_call (new_effects (buffered degraded_env false) idle) <> None /\
  degrade_chosen degraded_env.
Proof.
  obtain_call t i H. split; [discriminate|].
  destruct (first_call_split _ _ H) as (before & after & Heq).
  destruct (@provider_contact_gated ascii_case_map map_order literal_regex demo_floor demo_merge degraded_env
    no_debug demo_auth demo_resolved (demo_request false) idle _ before t i after (or_introl eq_refl) Heq)
    as [Hs|[Hd _]]; [|exact Hd].
  destruct (Hs 0) as [l Hl]; [vm_compute; lia|]. discriminate Hl.
Defined.

Lemma audit_rows_honest_witness :
  exists ev, Enqueue ev ∈ new_effects (buffered quiet_env false) idle /\ counts_canonical ev /\
    prompt_scanned quiet_env (demo_request false) idle /\
    @kept_text ascii_case_map demo_floor demo_merge quiet_env idle (buffered quiet_env false idle).2
      (demo_request false) $"Please call {{Person_1}}".
Proof.
  destruct (rows_of (new_effects (buffered quiet_env false) idle)) as [|ev l] eqn:H;
    [vm_compute in H; discriminate|].
  assert (ev ∈ rows_of (new_effects (buffered quiet_env false) idle)) as Hin by (rewrite H; left).
  apply list_elem_of_omap in Hin as (e & Hin & He). destruct e as [|ev'| | | | |]; try discriminate He.
  injection He as ->. exists ev. split; [exact Hin|].
  destruct (@audit_rows_honest ascii_case_map map_order literal_regex demo_floor demo_merge quiet_env
    no_debug demo_auth demo_resolved (demo_request false) idle _ (buffered quiet_env false idle).2 ev
    (or_introl (conj eq_refl eq_refl)) Hin) as (He & _ & Hc & Hk).
  assert ((fun ev => (rq_engines ev, rq_redacted_prompt ev))
      <$> rows_of (new_effects (buffered quiet_env false) idle)
    = [(FloorAndMl, Some $"Please call {{Person_1}}")]) as Hr by (vm_compute; reflexivity).
  rewrite H in Hr. injection Hr as Hr Hp _.
  split; [exact Hc|]. split; [exact (He Hr)|exact (Hk _ Hp)].
Defined.

(** The sidecar is down and nobody chose anything. *)
Definition outage_env : Env :=
  demo_deployment (Ok None) [] (Ok SecureModeRow_default) (fun _ => down_env) (echo_adapter $"vllm").

Lemma block_refuses_unscanned_witness :
  (buffered outage_env false idle).1 = Err coverage_unavailable.
Proof.
  apply (@block_refuses_unscanned ascii_case_map map_order literal_regex demo_floor demo_merge outage_env
    no_debug demo_auth demo_resolved (demo_request false) idle
    (new_effects (buffered outage_env false) idle) 0%N).
  - vm_compute. reflexivity.
  - vm_compute. discriminate.
  - left. reflexivity.
Defined.

Definition strict_env : Env :=
  demo_deployment (Ok None) [mk_rule $"allow" false []] (Ok (mode true $"strict" false)) (fun _ => demo_env)
    (echo_adapter $"vllm").

Lemma secure_mode_blocks_witness : calls (new_effects (buffered strict_env false) idle) = 0.
Proof.
  apply (@secure_mode_blocks ascii_case_map map_order literal_regex demo_floor demo_merge strict_env
    no_debug demo_auth demo_resolved (demo_request false) idle).
  - intros sm [= <-]. split; [split; [reflexivity|left; reflexivity]|]. vm_compute. discriminate.
  - left. reflexivity.
Defined.

Lemma forwarded_prompt_redacted_witness :
  (fun ti => in_prompt ti.2) <$> first_call (new_effects (buffered quiet_env false) idle)
  = Some (@woven ascii_case_map demo_prompt
            [ml_as_detection (rebase_detection 12 (entity_detection demo_entity))]).
Proof.
  obtain_call t i H. simpl. f_equal.
  refine (proj1 (@forwarded_prompt_redacted ascii_case_map map_order literal_regex demo_floor demo_merge quiet_env
    no_debug demo_auth demo_resolved (demo_request false) idle _ t i eq_refl _ (or_introl eq_refl)
    (first_call_in _ _ _ H))).
  intros rows [= <-]. left. constructor.
Defined.

(** A deny rule under a permissive secure mode. *)
Definition permissive_env : Env :=
  demo_deployment (Ok None) [mk_rule $"deny" false []] (Ok (mode true $"permissive" false)) (fun _ => demo_env)
    (echo_adapter $"vllm").

Lemma permissive_downgrade_forwards_raw_witness :
  (fun ti => in_prompt ti.2) <$> first_call (new_effects (buffered permissive_env false) idle)
  = Some $"Please call Anna".
Proof.
  obtain_call t i H. simpl. f_equal.
  apply (@permissive_downgrade_forwards_raw ascii_case_map map_order literal_regex demo_floor demo_merge
    permissive_env no_debug demo_auth demo_resolved (demo_request false) idle
    (new_effects (buffered permissive_env false) idle) t i
    [mk_rule $"deny" false []] [] (mk_rule $"deny" false []) [] (mode true $"permissive" false));
    try reflexivity.
  - constructor.
  - left. reflexivity.
  - exact (first_call_in _ _ _ H).
Defined.

(** ** What the runs show besides *)

(** The row of the downgraded request says its content was redacted. *)
Example permissive_row :
  rq_final_action <$> rows_of (new_effects (buffered permissive_env false) idle) = [$"redact"].
Proof. vm_compute. reflexivity. Qed.

(** The sidecar dies between the prompt scan and the audit's own scan of the
    message: the provider is shown the redacted prompt, while the audit row
    keeps the raw message as its redacted prompt, claims both engines and is
    not marked as degraded. *)
Example audit_rescan_outage_keeps_raw :
  let E := demo_deployment (Ok None) [] (Ok SecureModeRow_default) (scans_then down_env) (echo_adapter $"vllm") in
  (fun ti => in_prompt ti.2) <$> first_call (new_effects (buffered E false) idle)
    = Some $"Please call {{Person_1}}" /\
  (fun ev => (rq_redacted_prompt ev, rq_engines ev, rq_floor_only ev))
    <$> rows_of (new_effects (buffered E false) idle)
    = [(Some $"Please call Anna", FloorAndMl, false)].
Proof. vm_compute. split; reflexivity. Qed.

(** A provider that names somebody the client did not. *)
Definition gossip_output (t : ModelTarget) : ProviderOutput := {|
  out_content := $"Ask Bob"; out_model := mt_model_name t; out_usage := None; out_embedding := None;
  out_stream_chunks := [$"Ask "; $"Bob"]; out_finish_reason := None; out_ttft_ms := None;
|}.

Definition gossip_adapter : ProviderAdapter := {|
  ad_complete := fun _ t _ => Ok (gossip_output t);
  ad_stream := fun _ t _ => Ok (gossip_output t);
  ad_stream_events := default_stream_events (fun _ t _ => Ok (gossip_output t));
|}.

Definition gossip_env : Env :=
  demo_deployment (Ok None) [] (Ok (mode true $"standard" true)) (scans_then clean_env) gossip_adapter.

(** A buffered request with [stream] set: the reply's content is redacted,
    the chunks the client is sent are not. *)
Example completion_stream_unscrubbed :
  match (buffered gossip_env true idle).1 with
  | Ok px => px_content px = Some $"Ask {{Person_1}}" /\ px_stream_chunks px = [$"Ask "; $"Bob"]
  | _ => False
  end.
Proof. vm_compute. split; reflexivity. Qed.

(** ** Replies *)

Definition prepared_in (E : Env) (stream : bool) : result Prepared * Gateway :=
  @prepare ascii_case_map literal_regex demo_floor demo_merge E demo_auth demo_resolved
    (demo_request stream) idle.

Definition opened_in (E : Env) (p : Prepared)
    : result (ModelTarget * ProviderEventStream) * list (ModelTarget * ProviderInvocation) :=
  open_provider_stream (e_adapter_for E) (e_b64_decode E) (e_kms_decrypt E) (targets demo_resolved)
    (p_pipeline_input p) (kind_of (gr_request_kind (demo_request false))).

(** What a successful preparation leads to, as one computable check. *)
Definition then_check {A} (r : result A) (check : A -> bool) : bool :=
  match r with Ok a => check a | _ => false end.

Lemma then_check_ok {A B} (x : result A * B) check :
  then_check x.1 check = true -> exists a b, x = (Ok a, b) /\ check a = true.
Proof. destruct x as [[a|e|] b]; [by eauto|done|done]. Qed.

Definition stream_tokens (evs : ProviderEventStream) : option (list str) :=
  if existsb (fun ev => match ev with Panic => true | _ => false end) evs then None else Some (tokens_of evs).

Lemma stream_tokens_Some evs toks : stream_tokens evs = Some toks -> no_panic evs /\ tokens_of evs = toks.
Proof.
  unfold stream_tokens, no_panic. destruct (existsb _ _) eqn:Hx; [done|]. intros [= <-]. split; [|done].
  intros Hin%list_elem_of_In. apply not_true_iff_false in Hx. apply Hx, existsb_exists. by exists Panic.
Qed.

(** The echo of the demo prompt, in the adapter's seven-character chunks. *)
Definition echo_tokens : list str :=
  [$"vllm ec"; $"ho: Ple"; $"ase cal"; $"l {{Per"; $"son_1}}"].

Definition anna_vault : TokenVault := {| entries := <[tok_text $"Person_1" := $"Anna"]> ∅ |}.

Definition echo_atoms : list atom := (Chr <$> $"vllm echo: Please call ") ++ [Tok $"Person_1"].

Definition vault_dec (v w : TokenVault) : bool := bool_decide (entries v = entries w).

Lemma vault_dec_eq v w : vault_dec v w = true -> v = w.
Proof. unfold vault_dec. rewrite bool_decide_eq_true. destruct v, w. simpl. by intros ->. Qed.

Lemma anna_reply_ok : reply_ok anna_vault echo_atoms.
Proof.
  split.
  - split; [decide_compute|]. apply (toks_forall tok_upper). vm_compute. repeat constructor.
  - apply keys_ok_insert; [auto with sp|decide_compute].
  - decide_compute.
Qed.

Lemma streamed_reply_restored_witness :
  exists sx, (@execute_stream ascii_case_map map_order literal_regex demo_floor demo_merge quiet_env
      demo_auth demo_resolved (demo_request false) 0%N idle).1 = Ok sx /\
    items_text (sx_items sx) = @restore map_order anna_vault (concat echo_tokens).
Proof.
  destruct (then_check_ok (prepared_in quiet_env false) (fun p =>
    vault_dec (vault (p_pipeline_state p)) anna_vault && negb (redact_responses quiet_env (p_secure_mode p))
    && then_check (opened_in quiet_env p).1
         (fun te => bool_decide (stream_tokens te.2 = Some echo_tokens)))) as (p & g1 & Hp & Hc);
    [vm_compute; reflexivity|].
  rewrite !andb_true_iff, negb_true_iff in Hc. destruct Hc as [[Hv%vault_dec_eq Hoff] Hop].
  apply then_check_ok in Hop as ([t evs] & cs & Hop & Htok).
  apply bool_decide_eq_true, stream_tokens_Some in Htok as [Hnp Htok]. simpl in Htok.
  rewrite <- Hv, <- Htok.
  apply (@streamed_reply_restored ascii_case_map map_order literal_regex demo_floor demo_merge quiet_env
    demo_auth demo_resolved (demo_request false) 0%N idle p g1 t evs cs echo_atoms); try assumption.
  - rewrite Hv. exact anna_reply_ok.
  - rewrite Htok. vm_compute. reflexivity.
Defined.


Lemma buffered_reply_content_witness :
  exists px reply, (buffered gossip_env false idle).1 = Ok px /\ px_content px = Some reply.
Proof.
  destruct (then_check_ok (prepared_in gossip_env false) (fun p =>
    redact_responses gossip_env (p_secure_mode p)
    && then_check (invoke_provider_chain (e_adapter_for gossip_env) (e_b64_decode gossip_env)
         (e_kms_decrypt gossip_env) (targets demo_resolved) KChat false (p_pipeline_input p)).1
         (fun te => match out_embedding te.2 with None => true | Some _ => false end)))
    as (p & g1 & Hp & Hc); [vm_compute; reflexivity|].
  apply andb_true_iff in Hc as [Hon Hop].
  apply then_check_ok in Hop as ([t out] & cs & Hop & Hemb). simpl in Hemb.
  destruct (@buffered_reply_content ascii_case_map map_order literal_regex demo_floor demo_merge gossip_env
    demo_auth demo_resolved (demo_request false) no_debug idle p g1 t out cs eq_refl Hp Hop)
    as (px & Hr & Hc); [by destruct (out_embedding out)|].
  rewrite Hon in Hc. destruct Hc as (reply & Hreply & _). exists px, reply. split; [exact Hr|exact Hreply].
Defined.

Lemma completion_stream_unscanned_witness :
  exists px v, (buffered gossip_env true idle).1 = Ok px /\
    px_stream_chunks px = @placeholder_safe_chunks map_order [$"Ask "; $"Bob"] v.
Proof.
  destruct (then_check_ok (prepared_in gossip_env true) (fun p =>
    then_check (invoke_provider_chain (e_adapter_for gossip_env) (e_b64_decode gossip_env)
         (e_kms_decrypt gossip_env) (targets demo_resolved) KCompletion true (p_pipeline_input p)).1
         (fun te => match out_embedding te.2 with None => true | Some _ => false end
            && bool_decide (out_stream_chunks te.2 = [$"Ask "; $"Bob"]))))
    as (p & g1 & Hp & Hop); [vm_compute; reflexivity|].
  apply then_check_ok in Hop as ([t out] & cs & Hop & Hc). cbn [snd] in Hc.
  apply andb_true_iff in Hc as [Hemb Hch%bool_decide_eq_true]. rewrite <- Hch.
  apply (@completion_stream_unscanned ascii_case_map map_order literal_regex demo_floor demo_merge gossip_env
    demo_auth demo_resolved (demo_request true) no_debug idle p g1 t out cs eq_refl Hp Hop);
    [by destruct (out_embedding out)|reflexivity|]. rewrite Hch. discriminate.
Defined.

Lemma audit_rescan_ignores_outage_witness :
  (@audit_prompt ascii_case_map demo_floor demo_merge
     (demo_deployment (Ok None) [] (Ok SecureModeRow_default) (scans_then down_env) (echo_adapter $"vllm"))
     [{| role := $"user"; content := demo_prompt |}] None
     {| g_sidecar := demo_client; g_scans := 1; g_trace := [] |}).1 = Ok (Redacted $"Please call Anna").
Proof.
  apply (@audit_rescan_ignores_outage ascii_case_map demo_floor demo_merge _ _
    {| role := $"user"; content := demo_prompt |} _ AllCallsFailed);
    [reflexivity|discriminate|vm_compute; reflexivity|reflexivity].
Defined.
