(* ===== verification/AuditTexts.v ===== *)
(** * Audit export: the constants of the format

    The section names, planes, column lists and coverage statements that
    secureprompt-common/src/audit_export.rs copies into every signed manifest,
    with the text of the source ([++] joins the pieces of one literal). *)

From S2P Require Import Prelude Rstr.

(** ** Version, sources and sections *)

Definition SCHEMA_VERSION : N := 2.
Definition SOURCE_TTL_DAYS : Z := 90.
Definition SIGNING_KEY_ENV : str :=
  $"SECUREPROMPT_AUDIT_EXPORT_SIGNING_KEY".
Definition SOURCE_TABLE : str :=
  $"request_events".
Definition CONTROL_SOURCE_TABLES : list str := [$"raw_capture_audit"; $"retention_purge_audit"; $"session_revocation_audit"; $"admin_audit"].
Definition SECTION_REQUEST_EVENTS : str :=
  $"request_events".
Definition SECTION_CONTROL_PLANE : str :=
  $"control_plane_events".
Definition PLANE_DATA : str :=
  $"data".
Definition PLANE_CONTROL : str :=
  $"control".
Definition REQUIRED_SECTIONS : list str := [SECTION_REQUEST_EVENTS; SECTION_CONTROL_PLANE].
Definition EVENT_RAW_CAPTURE_CHANGED : str :=
  $"raw_capture.changed".
Definition EVENT_RETENTION_PURGE : str :=
  $"retention.purge".
Definition EVENT_SESSION_REVOKED : str :=
  $"session.revoked".
Definition GENESIS_DOMAIN : str :=
  $"secureprompt.audit_export.v1".
Definition WITHIN_RETENTION : str :=
  $"within_retention".
Definition PARTIALLY_EXPIRED : str :=
  $"partially_expired".
Definition WHOLLY_EXPIRED : str :=
  $"wholly_expired".
Definition NO_EXPIRY : str :=
  $"no_expiry".

(** ** Columns, with the meaning the manifest gives each *)

Definition REQUEST_COLUMNS : list (str * str) := [
    ($"request_id",
     $"Gateway-assigned identifier for the request. Unique within the workspace; the " ++
     $"join key to any other SecurePrompt record about the same request.");
    ($"workspace_id",
     $"The tenant the request belonged to. Constant across every row of one export " ++
     $"— an export is scoped to exactly one workspace.");
    ($"created_at",
     $"When the gateway recorded the request, RFC 3339 in UTC. This is the column the " ++
     $"export window selects on.");
    ($"provider",
     $"The upstream the request was routed to (e.g. `openai`, `anthropic`, `vertex`).");
    ($"model",
     $"The model name the caller asked for. Free text chosen by the caller when the " ++
     $"model is not in the workspace catalogue.");
    ($"final_action",
     $"What the gateway did: `allow`, `redact`, `deny`, `block`, or `flag`. This is " ++
     $"the disposition an auditor is usually counting.");
    ($"input_tokens",
     $"Prompt tokens billed. NULL when the provider returned no usage and no estimate " ++
     $"was made.");
    ($"output_tokens",
     $"Completion tokens billed. NULL under the same condition as `input_tokens`.");
    ($"estimated_usage",
     $"TRUE when the token figures on this row were ESTIMATED by the gateway because " ++
     $"the provider returned none. Read cost on such a row as an approximation.");
    ($"cost_usd",
     $"Cost in USD as the gateway computed it from its pricing table at the time of " ++
     $"the request. Written with exact round-tripping decimal formatting, not rounded " ++
     $"to cents.");
    ($"user_id",
     $"The dashboard user the API key was assigned to. NULL for a workspace-scoped " ++
     $"key never assigned to a member — reported as NULL rather than folded into an " ++
     $"`unknown` bucket.");
    ($"api_key_id",
     $"Which API key authenticated the request.");
    ($"api_key_name",
     $"The administrator-chosen label for that key. FREE TEXT: it is operator " ++
     $"attribution metadata and may name a person.");
    ($"ip_address",
     $"Source address as the gateway saw it. Subject to whatever proxy sits in front " ++
     $"of the deployment.");
    ($"user_agent",
     $"Client-supplied User-Agent header. Caller-controlled and therefore not " ++
     $"evidence of anything on its own.");
    ($"floor_only",
     $"TRUE when detection ran on the deterministic floor alone because the ML " ++
     $"sidecar was unavailable. Such a request was screened by a strictly weaker " ++
     $"detector.");
    ($"engines",
     $"Which detection engines contributed to this request, as a JSON array.") ].

Definition CONTROL_COLUMNS : list (str * str) := [
    ($"event_id",
     $"The source row's own primary key. Stable, so an auditor can point at the exact " ++
     $"Postgres row this line came from.");
    ($"workspace_id",
     $"The tenant the action was performed in. Constant across every row of one " ++
     $"export.");
    ($"occurred_at",
     $"When the action was recorded, RFC 3339 in UTC. This is the column the export " ++
     $"window selects on: `created_at` for `raw_capture_audit` and " ++
     $"`session_revocation_audit`, `completed_at` for `retention_purge_audit`.");
    ($"event_type",
     $"What was done. `raw_capture.changed` (an administrator changed whether this " ++
     $"workspace stores raw prompt/response content, or for how long), " ++
     $"`retention.purge` (a scheduled purge run reported what it deleted for this " ++
     $"workspace), `session.revoked` (an administrator terminated a user's sessions), " ++
     $"or one of the `admin_audit` actions listed in this section's coverage note — " ++
     $"`api_key.*`, `provider_credential.*`, `policy_rule.*`, `user.created` (FU5) " ++
     $"and `two_factor.*`, `license.*`, `budget.updated`, `secure_mode.updated`, " ++
     $"`sidecar_policy.updated`, `auth.login_succeeded` and " ++
     $"`auth.second_factor_verified` (P1A). The `admin_audit` values are the `action` " ++
     $"column passed through VERBATIM, so this vocabulary grows with the product " ++
     $"rather than with a translation table somebody has to remember to extend — " ++
     $"P1A's ten actions reached this export with no change to the export code at all.");
    ($"source_table",
     $"The Postgres relation this row was read from, so the claim is re-derivable " ++
     $"against the live database.");
    ($"actor_user_id",
     $"The dashboard user who performed the action, taken from their authenticated " ++
     $"context and never from a request body. NULL for `retention.purge`, which is " ++
     $"performed by the scheduler and has no human actor — a NULL here is a FACT " ++
     $"about the event, not a missing attribution.");
    ($"actor_email",
     $"The actor's email as it read AT THE TIME, denormalised on purpose: a foreign " ++
     $"key would let deleting a user rewrite the evidence. FREE TEXT, and it names a " ++
     $"person.");
    ($"actor_role",
     $"The actor's role as it read at the time. NULL where the source table does not " ++
     $"record one.");
    ($"target_user_id",
     $"The user the action was performed ON. Populated for `session.revoked` (equal " ++
     $"to the actor on a self-revocation) and for `user.created`. NULL for events " ++
     $"whose target is not a person — an API key, a provider or a policy rule — " ++
     $"whose identity is in `detail.target_id` and `detail.target_label` instead.");
    ($"target_email",
     $"The target's email as it read at the time. FREE TEXT, and it names a person.");
    ($"target_role",
     $"The target's role as it read at the time.");
    ($"detail",
     $"A JSON object of the event-type-specific facts. `raw_capture.changed`: " ++
     $"`enabled_before`, `enabled_after`, `retention_days_before`, " ++
     $"`retention_days_after`. `retention.purge`: `run_id`, `scope`, `cutoff`, " ++
     $"`rows_deleted`, `oldest_deleted`, `newest_deleted`, " ++
     $"`rows_remaining_past_cutoff`, `status`, `error_present`, `started_at`. " ++
     $"`session.revoked`: `revoked_before_unix` (every access token for the target " ++
     $"issued at or before this instant was refused thereafter) and " ++
     $"`refresh_tokens_revoked` (how many live sessions the action closed). " ++
     $"`retention_purge_audit.error` is reported as the BOOLEAN `error_present` and " ++
     $"its text is NOT exported: it is a ClickHouse exception message, which quotes " ++
     $"the statement that provoked it and sometimes the value it choked on. Read it " ++
     $"in Postgres or the gateway log if a run failed. EVERY `admin_audit` (FU5) " ++
     $"event carries `target_type` (`api_key`, `provider`, `policy_rule` or `user`), " ++
     $"`target_id` and `target_label` — the acted-on object's own name, kept so the " ++
     $"row still names something after that object is deleted — plus its own facts: " ++
     $"`api_key.created` has `assigned_user_id`; `api_key.rotated` has " ++
     $"`grace_expires_at` and `grace_secs`, the window in which the rotated key " ++
     $"remained usable; `provider_credential.*` have `provider_type` and, on update, " ++
     $"`credential_replaced`, `credential_cleared` and `config_changed`; " ++
     $"`policy_rule.created` and `policy_rule.deleted` have `priority`, " ++
     $"`rule_action`, `enabled` and `dry_run`; `policy_rule.updated` has `changed` " ++
     $"plus `conditions_changed` and `action_params_changed`; the two toggles have " ++
     $"`before` and `after`; `user.created` has `role_granted`. The P1A actions " ++
     $"carry: `two_factor.enrollment_started` — `backup_codes_issued` (how many " ++
     $"single-use recovery credentials now exist) and `reenrollment`; " ++
     $"`two_factor.disabled` — `verified_with` (`totp` or `backup_code`, which " ++
     $"factor authorised the reset); `license.activated` — `status`, `expires_at`, " ++
     $"`feature_count`, `source_before` and `source_after` (each `db`, `env` or " ++
     $"`none`), with the vendor `lic_id` in `target_label`; `license.cleared` — " ++
     $"`status_after` and `source_after`; `budget.updated` and `secure_mode.updated` " ++
     $"— `changed`, in the same shape as `policy_rule.updated`; " ++
     $"`sidecar_policy.updated` — `before` and `after`; `auth.login_succeeded` — " ++
     $"`method` (`password` or `oidc`) and `outcome` (`session_issued`, " ++
     $"`second_factor_required` or `enrolment_required`); " ++
     $"`auth.second_factor_verified` — `verified_with`. `changed` is an object " ++
     $"holding ONLY the fields that actually moved, each as `{before, after}`, so an " ++
     $"edit does not read as though it rewrote everything. NO SECRET APPEARS ANYWHERE " ++
     $"IN `detail`, BY CONSTRUCTION: every value is built from a typed column the " ++
     $"product already stores, and an API key, a provider credential, a password, a " ++
     $"TOTP secret, a 2FA backup code and the signed license token are never among " ++
     $"them — nor is any prefix or hash of one. A login event carries neither the " ++
     $"client address nor any form of the User-Agent, including the reduced " ++
     $"`{browser} on {os}` descriptor a SESSION row holds: that descriptor is ERASED " ++
     $"when the session ends, and this table is never purged, so a copy here would " ++
     $"undo the erasure permanently. Where a value is unbounded " ++
     $"administrator-authored text — a policy rule's match conditions, a provider's " ++
     $"config blob — only WHETHER it changed is reported, never its contents.") ].

(** ** Statements copied into the manifest *)

Definition SECTION_REQUEST_DESCRIPTION : str :=
  $"The DATA PLANE: one row per request the gateway handled for this workspace in " ++
  $"this window, read from ClickHouse `request_events`.".

Definition SECTION_CONTROL_DESCRIPTION : str :=
  $"The CONTROL PLANE: one row per audited administrative action in this workspace in " ++
  $"this window, read from three Postgres audit tables and normalised into one " ++
  $"time-ordered shape.".

Definition REQUEST_COVERAGE : str :=
  $"GATEWAY TRAFFIC ONLY, METADATA ONLY. Every row in this section comes from " ++
  $"`request_events`, which is written from the gateway request pipeline — the " ++
  $"paths `/v1/chat/completions`, `/v1/completions` and `/v1/embeddings`. Requests to " ++
  $"`/v1/redact`, `/v1/secure-mode/tokenize`, the MCP server and file scanning write " ++
  $"no `request_events` row at all, so they are ABSENT from this export entirely; " ++
  $"their absence is not evidence they did not happen. No prompt or response content " ++
  $"is exported: `request_events` also holds `raw_prompt`, `raw_response`, " ++
  $"`redacted_prompt` and `restored_response`, and this export carries NONE of them, " ++
  $"by construction rather than by configuration.".

Definition CONTROL_COVERAGE : str :=
  $"AUDITED ADMINISTRATIVE ACTIONS ONLY. This section carries every row of " ++
  $"`raw_capture_audit` (WS3-1), `retention_purge_audit` (WS3-4), " ++
  $"`session_revocation_audit` (WS4-3) and `admin_audit` (FU5, extended by P1A and " ++
  $"WS4-2) whose instant falls in the window and whose `workspace_id` is this " ++
  $"workspace's. The audited actions are, in full: `raw_capture.changed`, " ++
  $"`retention.purge`, `session.revoked`, `api_key.created`, `api_key.revoked`, " ++
  $"`api_key.rotated`, `provider_credential.created`, `provider_credential.updated`, " ++
  $"`provider_credential.deleted`, `policy_rule.created`, `policy_rule.updated`, " ++
  $"`policy_rule.deleted`, `policy_rule.enabled_changed`, " ++
  $"`policy_rule.dry_run_changed`, `user.created`, `two_factor.enrollment_started`, " ++
  $"`two_factor.enabled`, `two_factor.disabled`, `license.activated`, " ++
  $"`license.cleared`, `budget.updated`, `secure_mode.updated`, " ++
  $"`sidecar_policy.updated`, `auth.login_succeeded`, `auth.second_factor_verified` " ++
  $"and `file_scan.requested`. It is NOT a complete record of administrative " ++
  $"activity, and must not be read as one. The following are NOT audited into any " ++
  $"table and therefore appear NOWHERE in this export: every FAILED or refused " ++
  $"dashboard login, whether the email named an account or not; creating a workspace " ++
  $"through public signup; refreshing an access token; logging out; a member editing " ++
  $"their own name or position; requesting a signed export (this artifact does not " ++
  $"record that it was asked for); testing a provider connection, saved or unsaved, " ++
  $"which sends a stored credential outbound; tokenising content into the vault; " ++
  $"RESTORING TOKENISED CONTENT TO THE ORIGINAL VALUES; and adding, removing or " ++
  $"excluding a provider's models. Their absence here is not evidence they did not " ++
  $"happen. THE RE-IDENTIFICATION GAP IS THE ONE TO READ TWICE: `POST " ++
  $"/v1/secure-mode/detokenize` reads the token vault and returns the ORIGINAL values " ++
  $"in the clear, it is open to every authenticated role, and NOTHING in this product " ++
  $"records who called it or how much they read back. If your control objective is " ++
  $"`every access to unmasked personal data is attributable`, this artifact does not " ++
  $"meet it and no other artifact in this product does either. THE FAILED-LOGIN GAP " ++
  $"IS DELIBERATE AND ITS SHAPE MATTERS: an attempt against an email that names no " ++
  $"account has no workspace to be recorded under, so auditing only the attempts that " ++
  $"DO resolve would make the absence of a row mean `no such account`. Rather than " ++
  $"ship an account-existence oracle inside a compliance artifact, this product " ++
  $"records neither, and the two refusals are indistinguishable in the trail. If your " ++
  $"control objective is `every failed authentication attempt is recorded`, this " ++
  $"artifact does not meet it. Three further limits on what IS carried: a repeated " ++
  $"`POST /v1/keys/{id}/rotate` inside the grace window is idempotent, changes " ++
  $"nothing and writes no second `api_key.rotated` row; a settings PUT that moves no " ++
  $"field — the same budget, secure mode or sidecar policy submitted again — " ++
  $"likewise writes nothing, so this section holds CHANGES and not form submissions; " ++
  $"and a failed or refused action — a 403, or a 404 for an object that does not " ++
  $"exist — is never recorded, so this section describes actions that TOOK EFFECT " ++
  $"rather than attempts. There are TWO exceptions and both are written down. " ++
  $"`auth.login_succeeded` is the first and says so in its own `outcome` field: it is " ++
  $"written when the FIRST factor verified, and `second_factor_required` or " ++
  $"`enrolment_required` mean the password was correct and no session was issued. " ++
  $"That row COMMITS BEFORE the session it precedes, so no session is ever issued " ++
  $"without one; the residual is the other direction, and it is stated rather than " ++
  $"hidden — if session issuance then fails on an infrastructure error, an " ++
  $"`outcome` of `session_issued` describes a login that produced no session. " ++
  $"`file_scan.requested` (WS4-2) is the second, and its verb is the warning: the row " ++
  $"COMMITS BEFORE the document's bytes leave the gateway, so no file reaches the " ++
  $"scanner without a record of who sent it, and a scan the scanner then refused — " ++
  $"too large, unavailable, timed out — still has a row. READ THIS SECTION FOR WHAT " ++
  $"IT DOES NOT SAY ABOUT FILE SCANS: the row names the person, the workspace, the " ++
  $"API key, the endpoint and the byte count, and it deliberately carries NEITHER THE " ++
  $"UPLOADED FILENAME NOR ANYTHING ABOUT WHAT WAS FOUND IN THE DOCUMENT. Filenames " ++
  $"are end-user content and this table is never purged; detection results are a " ++
  $"summary of the document itself. If your control objective is `which documents " ++
  $"were scanned` or `what personal data they contained`, this artifact does not meet " ++
  $"it — it answers `who scanned, when, and how much`. AND IT DOES NOT COVER EVERY " ++
  $"SCAN IN THE PRODUCT. `file_scan.requested` records scans that went through the " ++
  $"gateway's `POST /v1/scan-file` — the chat client's file uploads. The " ++
  $"DASHBOARD's own file-scan page reaches the ML sidecar through a same-origin proxy " ++
  $"in the web tier (`/api/proxy/ml/v1/scan-file`, and `/v1/secure-file` for the " ++
  $"redacted-document download), which is session-authenticated and refuses the " ++
  $"`viewer` role but writes NO ROW ANYWHERE. So a `file_scan.requested` count is a " ++
  $"floor on the documents this workspace put through detection, not a total, and the " ++
  $"absence of a row does not mean a document was not scanned. Rows of " ++
  $"`retention_purge_audit` whose `workspace_id` is NULL — purge scopes that are " ++
  $"not per-workspace, such as the token vault — are excluded because they are not " ++
  $"this tenant's records; the section's source block reports how many such rows fell " ++
  $"in the window so their exclusion is visible rather than silent. " ++
  $"`audit_events_meta` is not included either: it is a data-plane pointer from a " ++
  $"request id to an event type, and what it points at is already the first section.".

Definition EXPORT_COVERAGE : str :=
  $"TWO PLANES, ONE SIGNED ARTIFACT. Section `request_events` is the DATA PLANE — " ++
  $"what requests passed through the gateway. Section `control_plane_events` is the " ++
  $"CONTROL PLANE — what administrators did. Each section states its own coverage " ++
  $"and its own per-source retention, because they come from different stores with " ++
  $"different expiry: `request_events` is ClickHouse with a 90-day TTL, the three " ++
  $"control-plane tables are Postgres with no TTL at all, so ONE window can be " ++
  $"complete for one section and partially expired for the other. Both sections are " ++
  $"always present: a manifest that declares any other set of sections is refused by " ++
  $"the verifier, so an export cannot be handed over with the control plane quietly " ++
  $"removed. A section with no rows still carries one page, and that is a signed " ++
  $"claim that the window was looked at and held nothing — not evidence the section " ++
  $"was omitted.".

Definition WINDOW_INTERPRETATION : str :=
  $"`from` is INCLUSIVE and `to` is EXCLUSIVE, both instants in UTC: rows are " ++
  $"selected by `created_at >= from AND created_at < to`. A half-open window means " ++
  $"two consecutive exports abut exactly, with no row counted twice and none dropped " ++
  $"between them.".

Definition VERIFICATION_RECIPE : str :=
  $"1. Obtain the deployment's audit-export public key OUT OF BAND — not from this " ++
  $"export. 2. Verify the Ed25519 signature over the manifest file's EXACT bytes; the " ++
  $"manifest is served verbatim as it was signed and must not be reformatted, " ++
  $"re-indented or re-serialised before verifying. 3. Refuse any `schema_version` you " ++
  $"do not implement; this recipe describes 2. 4. For each page file, compute SHA-256 " ++
  $"and compare it to `pages[i].sha256`. 5. Check you hold exactly `total_pages` " ++
  $"pages. 6. Recompute `chain_genesis` = SHA256 of the LF-joined header lines " ++
  $"`secureprompt.audit_export.v1`, `export_id`, `workspace_id`, `window.from`, " ++
  $"`window.to`, `format`, `page_size`, with a trailing LF. 7. Recompute the chain: " ++
  $"`chain_0 = SHA256(chain_genesis || sha256_0)` and `chain_i = SHA256(chain_{i-1} " ++
  $"|| sha256_i)`, all over RAW 32-byte digests, and compare each to `pages[i].chain` " ++
  $"and the last to `chain_root`. 8. Check `sum(pages[i].rows) == total_rows`. 9. " ++
  $"Check `sections` names exactly `request_events` then `control_plane_events`: any " ++
  $"other set means part of the export is missing, and an export that omits the " ++
  $"control plane must be REFUSED rather than read as a shorter one. 10. Check the " ++
  $"sections partition the pages — `sections[0].first_page` is 1, each section's " ++
  $"`last_page + 1` is the next section's `first_page`, the last section's " ++
  $"`last_page` is `total_pages` — that every `pages[i].section` is the section " ++
  $"whose range contains page i+1, and that each section's `rows` is the sum of its " ++
  $"own pages' `rows`. 11. Read each section's `sources[]` separately: they have " ++
  $"different retention, so one window can be complete for one section and partially " ++
  $"expired for the other.".

(** The [detail] texts of the retention verdicts. *)
Definition NO_EXPIRY_DETAIL : str :=
  $"NO EXPIRY. This relation is append-only, carries no TTL, and is not covered by " ++
  $"the `retention.purge` job, so no row of it has ever been removed by the product " ++
  $"and the window is complete with respect to expiry however far back it reaches. " ++
  $"Note this is the OPPOSITE of the data-plane section's position: do not carry " ++
  $"`request_events`' 90-day boundary over to this section, and do not read a short " ++
  $"control-plane section as expiry.".

Definition WHOLLY_EXPIRED_DETAIL : str :=
  $"WHOLLY EXPIRED. Every instant in the requested window is older than the source " ++
  $"table's retention boundary, so ClickHouse has already deleted the rows this " ++
  $"export would have contained. An empty or short export for this window is EVIDENCE " ++
  $"OF EXPIRY, not evidence that no traffic occurred. Do not read this export as a " ++
  $"record of a quiet period.".

Definition PARTIALLY_EXPIRED_DETAIL : str :=
  $"PARTIALLY EXPIRED. The requested window starts BEFORE the source table's " ++
  $"retention boundary, so the earliest part of it has already been deleted by " ++
  $"ClickHouse and is absent from this export. The rows present are complete only " ++
  $"from the boundary onward; the export cannot distinguish an expired day from a " ++
  $"quiet one.".

Definition WITHIN_RETENTION_DETAIL : str :=
  $"WITHIN RETENTION. The whole requested window sits inside the source table's " ++
  $"retention period as of the moment this export was generated, so no row was " ++
  $"withheld by expiry. Note this is a statement about the TTL only.".
