(* ===== verification/AuditExport.v ===== *)
(** * Signed audit export

    secureprompt-common/src/audit_export.rs: the rows and their rendering as
    CSV or JSON lines, the digest chain, the signed manifest
    ([build_manifest]), its verification ([verify_export]), the retention
    verdicts and the loading of the signing key.

    Bytes are [str].  SHA-256, Ed25519, base64, hex, serde_json's text and
    chrono's rendering of an instant are the class [ExportEnv]; an instant is
    a number of nanoseconds.  The additions the code writes with [+] on [u32]
    and [u64] panic on overflow here ([u64_add], [u32_sub], [u32_add]), as in a
    build with overflow checks. *)

From S2P Require Import Prelude Rstr Json Types Providers AuditTexts.

(** ** What the module calls outside the repository *)

Abbreviation DateTime := Z.

(** [SourceRetention], needed first: the manifest holds it. *)
Record SourceRetention : Type := {
  sr_source_table : str;
  sr_store : str;
  sr_section : str;
  sr_ttl_days : option Z;
  sr_boundary : option DateTime;
  sr_window_status : str;
  sr_detail : str;
  sr_excluded_rows : N;
  sr_excluded_reason : option str;
}.

Record ColumnDoc : Type := { cd_name : str; cd_meaning : str }.

Record PageEntry : Type := {
  pe_page : N;
  pe_section : str;
  pe_rows : N;
  pe_sha256 : str;
  pe_chain : str;
}.

Record SectionEntry : Type := {
  se_section : str;
  se_plane : str;
  se_description : str;
  se_first_page : N;
  se_last_page : N;
  se_pages : N;
  se_rows : N;
  se_columns : list ColumnDoc;
  se_coverage : str;
  se_sources : list SourceRetention;
}.

Record Window : Type := { w_from : DateTime; w_to : DateTime; w_interpretation : str }.

Record Manifest : Type := {
  schema_version : N;
  m_export_id : Uuid;
  m_workspace_id : Uuid;
  m_window : Window;
  m_format : str;
  m_page_size : N;
  m_total_rows : N;
  m_total_pages : N;
  m_chain_genesis : str;
  m_chain_root : str;
  m_sections : list SectionEntry;
  m_pages : list PageEntry;
  m_coverage : str;
  m_signing_key_id : str;
  m_generated_at : DateTime;
  m_verification : str;
}.

Class ExportEnv := {
  (** [Sha256], a 32-byte digest. *)
  sha256 : str -> str;
  sha256_len : forall b, length (sha256 b) = 32;
  (** [hex::encode], [hex::decode]; base64's standard engine. *)
  hex_encode : str -> str;
  hex_decode : str -> option str;
  b64_encode : str -> str;
  b64_decode : str -> option str;
  (** ed25519_dalek. *)
  SigningKey : Type;
  VerifyingKey : Type;
  signing_key_from_bytes : str -> SigningKey;
  verifying_key : SigningKey -> VerifyingKey;
  vk_to_bytes : VerifyingKey -> str;
  vk_from_bytes : str -> option VerifyingKey;
  ed_sign : SigningKey -> str -> str;
  ed_verify : VerifyingKey -> str -> str -> bool;
  (** serde_json: [Value]'s and [Number]'s text, parsing to a [Value], and the
      derived (de)serialisers of [Manifest]. *)
  value_to_string : Value -> str;
  number_to_string : number -> str;
  value_from_str : str -> option Value;
  manifest_to_string : Manifest -> option str;
  manifest_from_str : str -> option Manifest;
  (** chrono: the text [Serialize] gives an instant, the JSON document made of
      it, [to_rfc3339], and the least representable instant. *)
  instant_text : DateTime -> str;
  instant_to_string : DateTime -> option str;
  to_rfc3339 : DateTime -> str;
  min_instant : DateTime;
}.

(** ** Formats *)

Inductive ExportFormat : Type := Csv | Jsonl.

#[export] Instance export_format_eq_dec : EqDecision ExportFormat.
Proof. solve_decision. Defined.

Definition format_as_str (f : ExportFormat) : str :=
  match f with Csv => $"csv" | Jsonl => $"jsonl" end.

Definition format_parse (s : str) : option ExportFormat :=
  if decide (s = $"csv") then Some Csv
  else if decide (s = $"jsonl") then Some Jsonl
  else None.

Definition format_content_type (f : ExportFormat) : str :=
  match f with
  | Csv => $"text/csv; charset=utf-8"
  | Jsonl => $"application/x-ndjson; charset=utf-8"
  end.

(** ** Rows

    [serde_json]'s map is a [BTreeMap] here (the [preserve_order] feature is
    off), so an object's entries are kept in the order of their keys. *)

Fixpoint btree_insert {A} (m : list (str * A)) (k : str) (v : A) : list (str * A) :=
  match m with
  | [] => [(k, v)]
  | (k', v') :: m' =>
    if decide (k = k') then (k, v) :: m'
    else if str_ltb k k' then (k, v) :: m
    else (k', v') :: btree_insert m' k v
  end.

(** The derived [Serialize] writes a struct's fields in order into the map. *)
Definition struct_object (fields : list (str * Value)) : list (str * Value) :=
  fold_left (fun m kv => btree_insert m kv.1 kv.2) fields [].

Definition of_option {A} (f : A -> Value) (o : option A) : Value :=
  match o with Some a => f a | None => Null end.

Definition uuid_value (u : Uuid) : Value := VString (show_uuid u).
Definition u32_value (n : N) : Value := Number (PosInt n).

(** A finite [f64] is a number, any other is null. *)
Definition f64_value (x : f64) : Value :=
  match x with
  | SpecFloat.S754_zero _ | SpecFloat.S754_finite _ _ _ => Number (Float x)
  | _ => Null
  end.

Record AuditRow : Type := {
  ar_request_id : Uuid;
  ar_workspace_id : Uuid;
  ar_created_at : DateTime;
  ar_provider : str;
  ar_model : str;
  ar_final_action : str;
  ar_input_tokens : option N;
  ar_output_tokens : option N;
  ar_estimated_usage : bool;
  ar_cost_usd : f64;
  ar_user_id : option Uuid;
  ar_api_key_id : option Uuid;
  ar_api_key_name : option str;
  ar_ip_address : option str;
  ar_user_agent : option str;
  ar_floor_only : bool;
  ar_engines : list str;
}.

Record ControlRow : Type := {
  cr_event_id : Uuid;
  cr_workspace_id : Uuid;
  cr_occurred_at : DateTime;
  cr_event_type : str;
  cr_source_table : str;
  cr_actor_user_id : option Uuid;
  cr_actor_email : option str;
  cr_actor_role : option str;
  cr_target_user_id : option Uuid;
  cr_target_email : option str;
  cr_target_role : option str;
  cr_detail : Value;
}.

(** [trait ExportRow] *)
Class ExportRow (R : Type) := {
  columns : list (str * str);
  to_object : R -> list (str * Value);
}.
Arguments columns R {_}.

Section export.
Context `{ExportEnv}.

#[global] Instance audit_row_export : ExportRow AuditRow := {|
  columns := REQUEST_COLUMNS;
  to_object r := struct_object [
    ($"request_id", uuid_value (ar_request_id r));
    ($"workspace_id", uuid_value (ar_workspace_id r));
    ($"created_at", VString (instant_text (ar_created_at r)));
    ($"provider", VString (ar_provider r));
    ($"model", VString (ar_model r));
    ($"final_action", VString (ar_final_action r));
    ($"input_tokens", of_option u32_value (ar_input_tokens r));
    ($"output_tokens", of_option u32_value (ar_output_tokens r));
    ($"estimated_usage", Bool (ar_estimated_usage r));
    ($"cost_usd", f64_value (ar_cost_usd r));
    ($"user_id", of_option uuid_value (ar_user_id r));
    ($"api_key_id", of_option uuid_value (ar_api_key_id r));
    ($"api_key_name", of_option VString (ar_api_key_name r));
    ($"ip_address", of_option VString (ar_ip_address r));
    ($"user_agent", of_option VString (ar_user_agent r));
    ($"floor_only", Bool (ar_floor_only r));
    ($"engines", Array (VString <$> ar_engines r)) ];
|}.

#[global] Instance control_row_export : ExportRow ControlRow := {|
  columns := CONTROL_COLUMNS;
  to_object r := struct_object [
    ($"event_id", uuid_value (cr_event_id r));
    ($"workspace_id", uuid_value (cr_workspace_id r));
    ($"occurred_at", VString (instant_text (cr_occurred_at r)));
    ($"event_type", VString (cr_event_type r));
    ($"source_table", VString (cr_source_table r));
    ($"actor_user_id", of_option uuid_value (cr_actor_user_id r));
    ($"actor_email", of_option VString (cr_actor_email r));
    ($"actor_role", of_option VString (cr_actor_role r));
    ($"target_user_id", of_option uuid_value (cr_target_user_id r));
    ($"target_email", of_option VString (cr_target_email r));
    ($"target_role", of_option VString (cr_target_role r));
    ($"detail", cr_detail r) ];
|}.

(** ** Rendering *)

Definition dquote : ascii := "034"%char.
Definition LF : ascii := "010"%char.

Definition csv_field (value : option str) : str :=
  match value with
  | None => []
  | Some s => [dquote] ++ replace s [dquote] [dquote; dquote] ++ [dquote]
  end.

Definition json_to_csv_text (value : Value) : option str :=
  match value with
  | Null => None
  | VString s => Some s
  | Bool b => Some (if b then $"true" else $"false")
  | Number n => Some (number_to_string n)
  | other => Some (value_to_string other)
  end.

(** One record of a CSV page, as the cells of the row's columns. *)
Definition row_cells {R} `{ExportRow R} (row : R) : list (option str) :=
  let object := to_object row in
  (fun col => json_to_csv_text (default Null (obj_get object col.1))) <$> columns R.

Definition csv_line (cells : list (option str)) : str := join $"," (csv_field <$> cells) ++ [LF].

Definition render_page {R} `{ExportRow R} (rows : list R) (format : ExportFormat) : str :=
  match format with
  | Csv =>
    csv_line ((fun col => Some col.1) <$> columns R)
    ++ concat ((fun row => csv_line (row_cells row)) <$> rows)
  | Jsonl => concat ((fun row => value_to_string (Object (to_object row)) ++ [LF]) <$> rows)
  end.

(** ** Digests and the chain *)

(** [str::trim_matches] of the double quote. *)
Definition is_dquote (c : ascii) : bool := bool_decide (c = dquote).
Definition trim_quotes (s : str) : str :=
  reverse (drop_while is_dquote (reverse (drop_while is_dquote s))).

Definition manifest_instant (instant : DateTime) : str :=
  match instant_to_string instant with
  | None => to_rfc3339 instant
  | Some quoted => trim_quotes quoted
  end.

Definition genesis_header (export_id workspace_id : Uuid) (from to : DateTime)
    (format : ExportFormat) (page_size : N) : str :=
  GENESIS_DOMAIN ++ [LF] ++ show_uuid export_id ++ [LF] ++ show_uuid workspace_id ++ [LF]
  ++ manifest_instant from ++ [LF] ++ manifest_instant to ++ [LF]
  ++ format_as_str format ++ [LF] ++ show_N page_size ++ [LF].

Definition genesis export_id workspace_id from to format page_size : str :=
  sha256 (genesis_header export_id workspace_id from to format page_size).

Definition chain_step (prev digest : str) : str := sha256 (prev ++ digest).

Definition to_hex (bytes : str) : str := hex_encode bytes.

(** [try_into::<[u8; n]>] *)
Definition as_array_of (n : nat) (b : str) : option str :=
  if decide (length b = n) then Some b else None.

Definition from_hex (s : str) : option str := hex_decode s ≫= as_array_of 32.

(** ** Sections on the way in *)

Record SectionInput : Type := {
  si_section : str;
  si_plane : str;
  si_description : str;
  si_columns : list (str * str);
  si_coverage : str;
  si_sources : list SourceRetention;
  si_pages : list str;
  si_rows_per_page : list N;
}.

Definition request_section (pages : list str) (rows_per_page : list N)
    (sources : list SourceRetention) : SectionInput := {|
  si_section := SECTION_REQUEST_EVENTS;
  si_plane := PLANE_DATA;
  si_description := SECTION_REQUEST_DESCRIPTION;
  si_columns := REQUEST_COLUMNS;
  si_coverage := REQUEST_COVERAGE;
  si_sources := sources;
  si_pages := pages;
  si_rows_per_page := rows_per_page;
|}.

Definition control_section (pages : list str) (rows_per_page : list N)
    (sources : list SourceRetention) : SectionInput := {|
  si_section := SECTION_CONTROL_PLANE;
  si_plane := PLANE_CONTROL;
  si_description := SECTION_CONTROL_DESCRIPTION;
  si_columns := CONTROL_COLUMNS;
  si_coverage := CONTROL_COVERAGE;
  si_sources := sources;
  si_pages := pages;
  si_rows_per_page := rows_per_page;
|}.

(** ** Retention verdicts *)

Definition no_expiry_for (source_table : str) : SourceRetention := {|
  sr_source_table := source_table;
  sr_store := $"postgres";
  sr_section := SECTION_CONTROL_PLANE;
  sr_ttl_days := None;
  sr_boundary := None;
  sr_window_status := NO_EXPIRY;
  sr_detail := NO_EXPIRY_DETAIL;
  sr_excluded_rows := 0;
  sr_excluded_reason := None;
|}.

Definition nanos_per_day : Z := 86400 * 1000000000.

(** [generated_at - Duration::days(n)] panics below the least instant. *)
Definition minus_days (t : DateTime) (n : Z) : option DateTime :=
  let r := (t - n * nanos_per_day)%Z in
  if (min_instant <=? r)%Z then Some r else None.

Definition retention_for (from to generated_at : DateTime) : option SourceRetention :=
  boundary ← minus_days generated_at SOURCE_TTL_DAYS;
  let '(status, detail) :=
    if (to <=? boundary)%Z then (WHOLLY_EXPIRED, WHOLLY_EXPIRED_DETAIL)
    else if (from <? boundary)%Z then (PARTIALLY_EXPIRED, PARTIALLY_EXPIRED_DETAIL)
    else (WITHIN_RETENTION, WITHIN_RETENTION_DETAIL) in
  Some {|
    sr_source_table := SOURCE_TABLE;
    sr_store := $"clickhouse";
    sr_section := SECTION_REQUEST_EVENTS;
    sr_ttl_days := Some SOURCE_TTL_DAYS;
    sr_boundary := Some boundary;
    sr_window_status := status;
    sr_detail := detail;
    sr_excluded_rows := 0;
    sr_excluded_reason := None;
  |}.

(** ** Building and signing *)

Record SignedExport : Type := {
  x_manifest_json : str;
  x_signature_b64 : str;
  x_public_key_b64 : str;
  x_signing_key_id : str;
  x_total_rows : N;
  x_total_pages : N;
  x_page_digests : list str;
  x_rows_per_page : list N;
}.

Inductive BuildError : Type :=
  | PageRowCountMismatch
  | EmptySection
  | BuildSectionSetUnexpected
  | ManifestSerialization.

(** [Display for BuildError] *)
Definition build_error_text (e : BuildError) : str :=
  match e with
  | PageRowCountMismatch => $"page list and row-count list have different lengths"
  | EmptySection => $"a section was offered with no pages at all"
  | BuildSectionSetUnexpected =>
    $"the sections offered are not the ones this schema version requires"
  | ManifestSerialization => $"manifest could not be serialized"
  end.

Definition key_id (key : VerifyingKey) : str :=
  $"sha256:" ++ hex_encode (take 8 (sha256 (vk_to_bytes key))).

(** The loop's variables: [all_pages] is only counted. *)
Record BuildState : Type := {
  b_chain : str;
  b_entries : list PageEntry;
  b_digests : list str;
  b_rows : list N;
  b_sections : list SectionEntry;
  b_all_pages : nat;
  b_total_rows : N;
}.

(** One turn of the loop over [input.pages]. *)
Definition build_page (section : str) (bytes : str) (rows : N) (section_rows : N)
    (b : BuildState) : option (N * BuildState) :=
  let digest := sha256 bytes in
  let chain := chain_step (b_chain b) digest in
  total ← u64_add (b_total_rows b) rows;
  section_rows' ← u64_add section_rows rows;
  Some (section_rows', {|
    b_chain := chain;
    b_entries := b_entries b ++ [{|
      pe_page := u32_saturating_add (u32_of_len (length (b_entries b))) 1;
      pe_section := section;
      pe_rows := rows;
      pe_sha256 := to_hex digest;
      pe_chain := to_hex chain |}];
    b_digests := b_digests b ++ [to_hex digest];
    b_rows := b_rows b ++ [rows];
    b_sections := b_sections b;
    b_all_pages := S (b_all_pages b);
    b_total_rows := total |}).

(** [input.pages.iter().enumerate()] with [rows_per_page[index]]. *)
Fixpoint build_pages (input : SectionInput) (index : nat) (pages : list str) (section_rows : N)
    (b : BuildState) : option (N * BuildState) :=
  match pages with
  | [] => Some (section_rows, b)
  | bytes :: pages' =>
    rows ← si_rows_per_page input !! index;
    '(section_rows', b') ← build_page (si_section input) bytes rows section_rows b;
    build_pages input (S index) pages' section_rows' b'
  end.

Definition build_section (input : SectionInput) (b : BuildState) : option BuildState :=
  let first_page := u32_saturating_add (u32_of_len (length (b_entries b))) 1 in
  '(section_rows, b') ← build_pages input 0 (si_pages input) 0%N b;
  let last_page := u32_of_len (length (b_entries b')) in
  Some {|
    b_chain := b_chain b';
    b_entries := b_entries b';
    b_digests := b_digests b';
    b_rows := b_rows b';
    b_sections := b_sections b' ++ [{|
      se_section := si_section input;
      se_plane := si_plane input;
      se_description := si_description input;
      se_first_page := first_page;
      se_last_page := last_page;
      se_pages := u32_saturating_add (saturating_sub last_page first_page) 1;
      se_rows := section_rows;
      se_columns := (fun col => {| cd_name := col.1; cd_meaning := col.2 |}) <$> si_columns input;
      se_coverage := si_coverage input;
      se_sources := si_sources input |}];
    b_all_pages := b_all_pages b';
    b_total_rows := b_total_rows b' |}.

Fixpoint build_sections (inputs : list SectionInput) (b : BuildState) : option BuildState :=
  match inputs with
  | [] => Some b
  | input :: inputs' => b' ← build_section input b; build_sections inputs' b'
  end.

(** The section list is exactly the required one. *)
Definition sections_required (names : list str) : bool :=
  (length names =? length REQUIRED_SECTIONS)
  && forallb (fun p => bool_decide (p.1 = p.2)) (zip names REQUIRED_SECTIONS).

Fixpoint check_inputs (inputs : list SectionInput) : option BuildError :=
  match inputs with
  | [] => None
  | input :: inputs' =>
    if negb (length (si_pages input) =? length (si_rows_per_page input))
    then Some PageRowCountMismatch
    else if decide (si_pages input = []) then Some EmptySection
    else check_inputs inputs'
  end.

Definition build_manifest (export_id workspace_id : Uuid) (from to : DateTime)
    (format : ExportFormat) (page_size : N) (sections : list SectionInput)
    (generated_at : DateTime) (key : SigningKey) : outcome BuildError SignedExport :=
  if negb (sections_required (si_section <$> sections)) then Err BuildSectionSetUnexpected
  else match check_inputs sections with
  | Some e => Err e
  | None =>
    let seed := genesis export_id workspace_id from to format page_size in
    obind (or_panic (build_sections sections {|
      b_chain := seed; b_entries := []; b_digests := []; b_rows := []; b_sections := [];
      b_all_pages := 0; b_total_rows := 0 |})) (fun b =>
    let verifying := verifying_key key in
    let manifest := {|
      schema_version := SCHEMA_VERSION;
      m_export_id := export_id;
      m_workspace_id := workspace_id;
      m_window := {| w_from := from; w_to := to; w_interpretation := WINDOW_INTERPRETATION |};
      m_format := format_as_str format;
      m_page_size := page_size;
      m_total_rows := b_total_rows b;
      m_total_pages := u32_of_len (b_all_pages b);
      m_chain_genesis := to_hex seed;
      m_chain_root := to_hex (b_chain b);
      m_sections := b_sections b;
      m_pages := b_entries b;
      m_coverage := EXPORT_COVERAGE;
      m_signing_key_id := key_id verifying;
      m_generated_at := generated_at;
      m_verification := VERIFICATION_RECIPE |} in
    match manifest_to_string manifest with
    | None => Err ManifestSerialization
    | Some manifest_json =>
      let signature := ed_sign key manifest_json in
      Ok {|
        x_manifest_json := manifest_json;
        x_signature_b64 := b64_encode signature;
        x_public_key_b64 := b64_encode (vk_to_bytes verifying);
        x_signing_key_id := key_id verifying;
        x_total_rows := m_total_rows manifest;
        x_total_pages := m_total_pages manifest;
        x_page_digests := b_digests b;
        x_rows_per_page := b_rows b |}
    end)
  end.

(** ** Verification *)

Inductive VerifyError : Type :=
  | PublicKeyMalformed
  | SignatureMalformed
  | SignatureInvalid
  | ManifestMalformed
  | UnsupportedSchemaVersion (got : N)
  | ManifestInternallyInconsistent
  | SectionSetUnexpected
  | SectionPagesNotContiguous (section_index : N)
  | SectionRowCountMismatch (section_index : N)
  | PageSectionMismatch (page : N)
  | GenesisMismatch
  | PageCountMismatch (expected got : N)
  | PageDigestMismatch (page : N)
  | ChainBroken (page : N)
  | ChainRootMismatch
  | RowCountMismatch (declared summed : N).

(** [Display for VerifyError] *)
Definition verify_error_text (e : VerifyError) : str :=
  match e with
  | PublicKeyMalformed => $"public key is not 32 base64-encoded bytes"
  | SignatureMalformed => $"signature is not 64 base64-encoded bytes"
  | SignatureInvalid =>
    $"signature does not cover these manifest bytes, or was made by another key"
  | ManifestMalformed => $"manifest is not a well-formed export manifest"
  | UnsupportedSchemaVersion got =>
    $"manifest schema_version " ++ show_N got ++ $" is not understood"
  | ManifestInternallyInconsistent =>
    $"manifest page list disagrees with its own total_pages"
  | SectionSetUnexpected =>
    $"manifest does not declare exactly the sections this schema version "
    ++ $"requires, so part of the export may have been removed"
  | SectionPagesNotContiguous i =>
    $"section " ++ show_N i ++ $" does not continue the page sequence"
  | SectionRowCountMismatch i =>
    $"section " ++ show_N i ++ $" declares a row count its own pages do not sum to"
  | PageSectionMismatch page =>
    $"page " ++ show_N page ++ $" claims a section it does not fall in"
  | GenesisMismatch =>
    $"chain seed does not match the manifest header "
    ++ $"(export id, workspace, window, format or page size)"
  | PageCountMismatch expected got =>
    $"expected " ++ show_N expected ++ $" pages, was given " ++ show_N got
  | PageDigestMismatch page => $"page " ++ show_N page ++ $" does not match its digest"
  | ChainBroken page => $"chain is broken at page " ++ show_N page
  | ChainRootMismatch => $"chain root does not match"
  | RowCountMismatch declared summed =>
    $"manifest declares " ++ show_N declared ++ $" rows, its pages sum to " ++ show_N summed
  end.

(** [Value::as_u64] then [u32::try_from] *)
Definition as_u32 (v : Value) : option N :=
  match v with
  | Number (PosInt n) => if (n <=? u32_max)%N then Some n else None
  | _ => None
  end.

(** Step 1: the signature over the manifest's exact bytes. *)
Definition verify_signature (manifest_json signature_b64 public_key_b64 : str)
    : outcome VerifyError unit :=
  obind (ok_or (b64_decode public_key_b64 ≫= as_array_of 32) PublicKeyMalformed) (fun key_bytes =>
  obind (ok_or (vk_from_bytes key_bytes) PublicKeyMalformed) (fun verifying =>
  obind (ok_or (b64_decode signature_b64 ≫= as_array_of 64) SignatureMalformed) (fun signature =>
  ensure (ed_verify verifying manifest_json signature) SignatureInvalid))).

(** Step 2: the declared version, then the shape. *)
Definition read_manifest (manifest_json : str) : outcome VerifyError Manifest :=
  obind (ok_or (value_from_str manifest_json) ManifestMalformed) (fun raw =>
  obind (ok_or (get raw $"schema_version" ≫= as_u32) ManifestMalformed) (fun declared_version =>
  if negb (declared_version =? SCHEMA_VERSION)%N
  then Err (UnsupportedSchemaVersion declared_version)
  else obind (ok_or (manifest_from_str manifest_json) ManifestMalformed) (fun manifest =>
  obind (ensure (N.of_nat (length (m_pages manifest)) =? m_total_pages manifest)%N
    ManifestInternallyInconsistent) (fun _ =>
  Ok manifest)))).

(** Step 4b: the pages of one section, from [page] to [last]; [l] is the rest
    of [manifest.pages] from index [page - 1], so that an empty [l] is the
    failing [get]. *)
Fixpoint check_section_pages (name : str) (last page : N) (section_rows : N)
    (l : list PageEntry) : outcome VerifyError N :=
  if (last <? page)%N then Ok section_rows
  else match l with
  | [] => Err ManifestInternallyInconsistent
  | entry :: l' =>
    if decide (pe_section entry = name) then
      obind (or_panic (u64_add section_rows (pe_rows entry))) (fun section_rows' =>
      check_section_pages name last (page + 1) section_rows' l')
    else Err (PageSectionMismatch (pe_page entry))
  end.

(** [section.last_page - section.first_page + 1], not evaluated when the pages
    are out of order. *)
Definition section_contiguous (s : SectionEntry) (next_page : N) : option bool :=
  if negb (se_first_page s =? next_page)%N || (se_last_page s <? se_first_page s)%N
  then Some false
  else d ← u32_sub (se_last_page s) (se_first_page s);
       n ← u32_add d 1;
       Some (se_pages s =? n)%N.

Fixpoint check_sections (pages : list PageEntry) (index : N) (next_page : N)
    (sections : list SectionEntry) : outcome VerifyError N :=
  match sections with
  | [] => Ok next_page
  | s :: sections' =>
    obind (or_panic (section_contiguous s next_page)) (fun contiguous =>
    if negb contiguous then Err (SectionPagesNotContiguous index)
    else obind (or_panic (u32_sub (se_first_page s) 1)) (fun start =>
    obind (check_section_pages (se_section s) (se_last_page s) (se_first_page s) 0
             (drop (N.to_nat start) pages)) (fun section_rows =>
    if negb (section_rows =? se_rows s)%N then Err (SectionRowCountMismatch index)
    else check_sections pages (index + 1)
           (u32_saturating_add (se_last_page s) 1) sections')))
  end.

(** Step 5: [entries] is [manifest.pages] from [index]; indexing past its end
    panics. *)
Fixpoint check_digests (entries : list PageEntry) (index : N) (pages : list str)
    : outcome VerifyError unit :=
  match pages with
  | [] => Ok tt
  | bytes :: pages' =>
    match entries with
    | [] => Panic
    | entry :: entries' =>
      if negb (pe_page entry =? index + 1)%N then Err ManifestInternallyInconsistent
      else if decide (to_hex (sha256 bytes) = pe_sha256 entry)
           then check_digests entries' (index + 1) pages'
           else Err (PageDigestMismatch (pe_page entry))
    end
  end.

(** Step 6: the chain over the declared digests, and the sum of the rows. *)
Fixpoint check_chain (chain : str) (summed : N) (entries : list PageEntry)
    : outcome VerifyError (str * N) :=
  match entries with
  | [] => Ok (chain, summed)
  | entry :: entries' =>
    obind (ok_or (from_hex (pe_sha256 entry)) ManifestMalformed) (fun digest =>
    let chain' := chain_step chain digest in
    if decide (to_hex chain' = pe_chain entry) then
      obind (or_panic (u64_add summed (pe_rows entry))) (fun summed' =>
      check_chain chain' summed' entries')
    else Err (ChainBroken (pe_page entry)))
  end.

Definition verify_export (manifest_json signature_b64 public_key_b64 : str) (pages : list str)
    : outcome VerifyError Manifest :=
  obind (verify_signature manifest_json signature_b64 public_key_b64) (fun _ =>
  obind (read_manifest manifest_json) (fun manifest =>
  obind (ok_or (format_parse (m_format manifest)) ManifestInternallyInconsistent) (fun format =>
  let seed := genesis (m_export_id manifest) (m_workspace_id manifest)
    (w_from (m_window manifest)) (w_to (m_window manifest)) format (m_page_size manifest) in
  obind (ensure (bool_decide (to_hex seed = m_chain_genesis manifest)) GenesisMismatch) (fun _ =>
  let got := u32_of_len (length pages) in
  obind (ensure (got =? m_total_pages manifest)%N
           (PageCountMismatch (m_total_pages manifest) got)) (fun _ =>
  obind (ensure (sections_required (se_section <$> m_sections manifest))
           SectionSetUnexpected) (fun _ =>
  obind (check_sections (m_pages manifest) 0 1 (m_sections manifest)) (fun next_page =>
  obind (ensure (saturating_sub next_page 1 =? m_total_pages manifest)%N
           ManifestInternallyInconsistent) (fun _ =>
  obind (check_digests (m_pages manifest) 0 pages) (fun _ =>
  obind (check_chain seed 0 (m_pages manifest)) (fun '(chain, summed) =>
  obind (ensure (bool_decide (to_hex chain = m_chain_root manifest)) ChainRootMismatch) (fun _ =>
  obind (ensure (summed =? m_total_rows manifest)%N
           (RowCountMismatch (m_total_rows manifest) summed)) (fun _ =>
  Ok manifest)))))))))))).

(** ** Keys *)

Inductive KeyError : Type := NotConfigured | Malformed.

(** [Display for KeyError] *)
Definition key_error_text (e : KeyError) : str :=
  match e with
  | NotConfigured =>
    $"audit-export signing key is not configured, so no signed export can be "
    ++ $"produced; set SECUREPROMPT_AUDIT_EXPORT_SIGNING_KEY"
  | Malformed =>
    $"audit-export signing key is not 64 hex characters or base64 of 32 bytes; "
    ++ $"its value is deliberately not quoted here"
  end.

Definition parse_signing_key (configured : str) : outcome KeyError SigningKey :=
  let trimmed := trim configured in
  if decide (trimmed = []) then Err NotConfigured
  else
    let from_base64 :=
      obind (ok_or (b64_decode trimmed ≫= as_array_of 32) Malformed) (fun bytes =>
      Ok (signing_key_from_bytes bytes)) in
    if decide (length trimmed = 64) then
      match from_hex trimmed with
      | Some bytes => Ok (signing_key_from_bytes bytes)
      | None => from_base64
      end
    else from_base64.

(** [env] is the process environment's answer for [SIGNING_KEY_ENV]. *)
Definition signing_key_from_env (env : str -> option str) : outcome KeyError SigningKey :=
  obind (ok_or (env SIGNING_KEY_ENV) NotConfigured) parse_signing_key.
End export.
