(* ===== verification/AuditExportSpec.v ===== *)
(** * Properties of the signed audit export

    What an auditor can conclude: a produced export verifies; an export that
    verifies holds both planes, all its pages, in order, each with the signed
    bytes; the chain root alone identifies the export, up to a SHA-256
    collision; a CSV page reads back to its cells; the retention verdict is
    exact. *)

From Stdlib Require Import SpecFloat.
From S2P Require Import Prelude Rstr Json Types Providers ProvidersSpec AuditTexts AuditExport.

(** What the module relies on of the libraries it calls: the codecs and the
    manifest's serialisation round-trip, and a signature verifies under its
    own key. *)
Class ExportLaws `{ExportEnv} : Prop := {
  hex_decode_encode : forall b, hex_decode (hex_encode b) = Some b;
  b64_decode_encode : forall b, b64_decode (b64_encode b) = Some b;
  vk_len : forall k, length (vk_to_bytes (verifying_key k)) = 32;
  vk_from_to : forall k, vk_from_bytes (vk_to_bytes (verifying_key k)) = Some (verifying_key k);
  sign_len : forall k m, length (ed_sign k m) = 64;
  sign_verifies : forall k m, ed_verify (verifying_key k) m (ed_sign k m) = true;
  manifest_from_to : forall m s, manifest_to_string m = Some s -> manifest_from_str s = Some m;
  manifest_version : forall m s, manifest_to_string m = Some s ->
    exists v, value_from_str s = Some v
      /\ get v $"schema_version" = Some (Number (PosInt (schema_version m)));
}.

(** Two different byte strings with one digest. *)
Definition sha256_collision `{ExportEnv} : Prop := exists p q, p <> q /\ sha256 p = sha256 q.

(** ** Sums of row counts *)

Definition row_sum (l : list N) : N := foldr N.add 0%N l.

Lemma row_sum_app l k : row_sum (l ++ k) = (row_sum l + row_sum k)%N.
Proof. induction l as [|x l IH]; simpl; [done|]. rewrite IH. lia. Qed.

Lemma row_sum_bound l :
  Forall (fun r => (r < 2 ^ 32)%N) l -> (row_sum l <= N.of_nat (length l) * (2 ^ 32 - 1))%N.
Proof. induction 1; simpl; lia. Qed.

Lemma u64_add_ok a b : (a + b < 2 ^ 64)%N -> u64_add a b = Some (a + b)%N.
Proof. intros. by apply u64_add_Some. Qed.

(** A sum of fewer than 2^32 [u32] counts fits a [u64]. *)
Lemma row_sum_u64 l :
  Forall (fun r => (r < 2 ^ 32)%N) l -> (N.of_nat (length l) < 2 ^ 32)%N -> (row_sum l < 2 ^ 64)%N.
Proof. intros Hl%row_sum_bound Hn. nia. Qed.

Section laws.
Context `{ExportEnv}.

(** ** The chain as a function of the digests *)

Definition chain_of (seed : str) (digests : list str) : str := fold_left chain_step digests seed.

Lemma chain_of_len seed ds : length seed = 32 -> length (chain_of seed ds) = 32.
Proof.
  intros Hs. induction ds as [|d ds IH] using rev_ind; [done|].
  unfold chain_of. rewrite fold_left_app. apply sha256_len.
Qed.

Lemma chain_of_snoc seed ds d : chain_of seed (ds ++ [d]) = sha256 (chain_of seed ds ++ d).
Proof. unfold chain_of. by rewrite fold_left_app. Qed.

(** Equal digests have equal preimages, or there is a collision. *)
Lemma sha256_eq p q : sha256 p = sha256 q -> sha256_collision \/ p = q.
Proof. intros E. destruct (decide (p = q)); [by right|]. left. by exists p, q. Qed.

(** The final value of a chain whose seed is the digest of more than 64 bytes
    determines the seed's preimage and all digests. *)
Lemma chain_of_inj h h' ds ds' :
  64 < length h -> 64 < length h' ->
  Forall (fun d => length d = 32) ds -> Forall (fun d => length d = 32) ds' ->
  chain_of (sha256 h) ds = chain_of (sha256 h') ds' ->
  sha256_collision \/ (h = h' /\ ds = ds').
Proof.
  intros Hh Hh'. revert ds'.
  induction ds as [|d ds IH] using rev_ind; intros ds' Hds Hds' E;
    destruct ds' as [|d' ds' _] using rev_ind.
  - destruct (sha256_eq _ _ E) as [?| ->]; [by left|by right].
  - rewrite chain_of_snoc in E. apply Forall_app in Hds' as [_ [? _]%Forall_cons_1].
    destruct (sha256_eq _ _ E) as [?|Hx]; [by left|]. apply (f_equal length) in Hx.
    rewrite length_app, chain_of_len in Hx by apply sha256_len. simpl in *. lia.
  - rewrite chain_of_snoc in E. apply Forall_app in Hds as [_ [? _]%Forall_cons_1].
    destruct (sha256_eq _ _ E) as [?|Hx]; [by left|]. apply (f_equal length) in Hx.
    rewrite length_app, chain_of_len in Hx by apply sha256_len. simpl in *. lia.
  - rewrite !chain_of_snoc in E. apply Forall_app in Hds as [? ?], Hds' as [? ?].
    destruct (sha256_eq _ _ E) as [?|Hx]; [by left|].
    apply app_inj_1 in Hx as [Hx Hd]; [|by rewrite !chain_of_len by apply sha256_len].
    destruct (IH ds') as [?|[-> ->]]; [done..|by left|]. right. by rewrite Hd.
Qed.

(** ** What the build loop computes *)

(** A page of an export: its section, its bytes and its row count. *)
Abbreviation page := (str * str * N)%type.
Definition pg_section (p : page) : str := p.1.1.
Definition pg_bytes (p : page) : str := p.1.2.
Definition pg_rows (p : page) : N := p.2.

Definition input_pages (i : SectionInput) : list page :=
  zip_with (fun b r => (si_section i, b, r)) (si_pages i) (si_rows_per_page i).

(** The manifest's page list for [l], after [n] pages with the chain at
    [chain]. *)
Fixpoint page_entries (n : nat) (chain : str) (l : list page) : list PageEntry :=
  match l with
  | [] => []
  | p :: l' =>
    let chain' := chain_step chain (sha256 (pg_bytes p)) in
    {| pe_page := N.of_nat (S n); pe_section := pg_section p; pe_rows := pg_rows p;
       pe_sha256 := to_hex (sha256 (pg_bytes p)); pe_chain := to_hex chain' |}
    :: page_entries (S n) chain' l'
  end.

Definition page_digests (l : list page) : list str := (fun p => sha256 (pg_bytes p)) <$> l.

Lemma page_entries_app n chain l k :
  page_entries n chain (l ++ k) =
  page_entries n chain l ++ page_entries (n + length l) (chain_of chain (page_digests l)) k.
Proof.
  revert n chain. induction l as [|p l IH]; intros n chain; simpl.
  - by rewrite Nat.add_0_r.
  - rewrite IH. do 3 f_equal. lia.
Qed.

Lemma page_entries_length n chain l : length (page_entries n chain l) = length l.
Proof. revert n chain. induction l; intros; simpl; auto. Qed.

Lemma page_entries_sections n chain l : pe_section <$> page_entries n chain l = pg_section <$> l.
Proof. revert n chain. induction l; intros; csimpl; f_equal; auto. Qed.

Lemma page_entries_rows n chain l : pe_rows <$> page_entries n chain l = pg_rows <$> l.
Proof. revert n chain. induction l; intros; csimpl; f_equal; auto. Qed.

(** The state of the build after the pages [l]. *)
Definition build_state (seed : str) (secs : list SectionEntry) (l : list page) : BuildState := {|
  b_chain := chain_of seed (page_digests l);
  b_entries := page_entries 0 seed l;
  b_digests := to_hex <$> page_digests l;
  b_rows := pg_rows <$> l;
  b_sections := secs;
  b_all_pages := length l;
  b_total_rows := row_sum (pg_rows <$> l);
|}.

Definition pages_ok (l : list page) : Prop :=
  Forall (fun r => (r < 2 ^ 32)%N) (pg_rows <$> l) /\ (N.of_nat (length l) < 2 ^ 32 - 1)%N.

Lemma pages_ok_app l k : pages_ok (l ++ k) -> pages_ok l /\ pages_ok k.
Proof.
  unfold pages_ok. rewrite fmap_app, Forall_app, length_app. intros [[? ?] ?]. repeat split; try done; lia.
Qed.

Lemma pages_ok_sum l : pages_ok l -> (row_sum (pg_rows <$> l) < 2 ^ 64)%N.
Proof. intros [??]. apply row_sum_u64; [done|rewrite length_fmap; lia]. Qed.

Lemma u32_of_len_small n : (N.of_nat n < 2 ^ 32)%N -> u32_of_len n = N.of_nat n.
Proof. unfold u32_of_len, u32_max. lia. Qed.

Lemma build_page_spec seed secs l (p : page) sr :
  pages_ok (l ++ [p]) -> (sr <= row_sum (pg_rows <$> l))%N ->
  build_page (pg_section p) (pg_bytes p) (pg_rows p) sr (build_state seed secs l)
  = Some ((sr + pg_rows p)%N, build_state seed secs (l ++ [p])).
Proof.
  intros Hok Hsr. pose proof (pages_ok_sum _ Hok) as Hsum.
  destruct Hok as [_ Hlen]. rewrite length_app in Hlen. simpl in Hlen.
  rewrite fmap_app, row_sum_app in Hsum. simpl in Hsum. unfold build_page, build_state.
  cbn [b_chain b_entries b_digests b_rows b_sections b_all_pages b_total_rows].
  rewrite !u64_add_ok by lia. cbn [mbind option_bind].
  f_equal. f_equal.
  unfold page_digests. rewrite page_entries_app, !fmap_app, row_sum_app, length_app, page_entries_length.
  rewrite u32_of_len_small by lia. f_equal; simpl; try lia.
  - unfold chain_of. by rewrite fold_left_app.
  - unfold u32_saturating_add, u32_max. repeat f_equal. lia.
Qed.

Lemma build_pages_spec i seed secs l index pages sr :
  drop index (si_pages i) = pages -> length (si_pages i) = length (si_rows_per_page i) ->
  pages_ok (l ++ drop index (input_pages i)) -> (sr <= row_sum (pg_rows <$> l))%N ->
  build_pages i index pages sr (build_state seed secs l)
  = Some ((sr + row_sum (pg_rows <$> drop index (input_pages i)))%N,
          build_state seed secs (l ++ drop index (input_pages i))).
Proof.
  revert index l sr. induction pages as [|bytes pages IH]; intros index l sr Hd Hlen Hok Hsr; cbn [build_pages].
  - assert (drop index (input_pages i) = []) as ->.
    { apply drop_ge. unfold input_pages. rewrite length_zip_with.
      apply (f_equal length) in Hd. rewrite length_drop in Hd. simpl in Hd. lia. }
    simpl. by rewrite app_nil_r, N.add_0_r.
  - assert (si_pages i !! index = Some bytes) as Hb by (by rewrite <- (Nat.add_0_r index), <- lookup_drop, Hd).
    destruct (si_rows_per_page i !! index) as [r|] eqn:Hr; cycle 1.
    { apply lookup_lt_Some in Hb. apply lookup_ge_None in Hr. lia. }
    assert (input_pages i !! index = Some (si_section i, bytes, r)) as Hp.
    { unfold input_pages. rewrite lookup_zip_with, Hb. cbn [mbind option_bind]. by rewrite Hr. }
    rewrite (drop_S _ _ _ Hp) in Hok |- *. cbn [mbind option_bind].
    replace (l ++ (si_section i, bytes, r) :: drop (S index) (input_pages i))
      with ((l ++ [(si_section i, bytes, r)]) ++ drop (S index) (input_pages i)) in Hok |- *
      by (by rewrite <- app_assoc).
    assert (build_page (si_section i) bytes r sr (build_state seed secs l) =
      Some ((sr + r)%N, build_state seed secs (l ++ [(si_section i, bytes, r)]))) as ->.
    { apply pages_ok_app in Hok as [Hok _]. exact (build_page_spec _ _ _ _ _ Hok Hsr). }
    cbn [mbind option_bind]. rewrite IH; [| |done|done|rewrite fmap_app, row_sum_app; simpl; lia].
    + f_equal. f_equal. csimpl. apply eq_sym, N.add_assoc.
    + rewrite (drop_S _ _ _ Hb) in Hd. congruence.
Qed.

(** The section entry written for [i] after the pages [l]. *)
Definition section_entry (l : list page) (i : SectionInput) : SectionEntry := {|
  se_section := si_section i;
  se_plane := si_plane i;
  se_description := si_description i;
  se_first_page := N.of_nat (S (length l));
  se_last_page := N.of_nat (length l + length (input_pages i));
  se_pages := N.of_nat (length (input_pages i));
  se_rows := row_sum (pg_rows <$> input_pages i);
  se_columns := (fun col => {| cd_name := col.1; cd_meaning := col.2 |}) <$> si_columns i;
  se_coverage := si_coverage i;
  se_sources := si_sources i;
|}.

Definition input_ok (i : SectionInput) : Prop :=
  length (si_pages i) = length (si_rows_per_page i) /\ si_pages i <> [].

Lemma input_pages_length i : input_ok i -> length (input_pages i) = length (si_pages i).
Proof. intros [Hl _]. unfold input_pages. rewrite length_zip_with. lia. Qed.

Lemma build_section_spec i seed secs l :
  input_ok i -> pages_ok (l ++ input_pages i) ->
  build_section i (build_state seed secs l)
  = Some (build_state seed (secs ++ [section_entry l i]) (l ++ input_pages i)).
Proof.
  intros Hi Hok. pose proof (input_pages_length _ Hi) as Hpl. destruct Hi as [Hlen Hne].
  unfold build_section. cbn [b_entries build_state]. rewrite page_entries_length.
  rewrite (build_pages_spec i seed secs l 0 (si_pages i) 0); [|by rewrite drop_0|done|by rewrite drop_0|lia].
  rewrite drop_0. cbn [mbind option_bind b_entries b_chain b_digests b_rows b_sections b_all_pages b_total_rows build_state].
  destruct Hok as [_ Hn]. rewrite length_app in Hn.
  assert (0 < length (si_pages i)) by (destruct (si_pages i); [done|simpl; lia]).
  rewrite page_entries_length, length_app, !u32_of_len_small by lia.
  unfold section_entry, build_state, u32_saturating_add, saturating_sub, u32_max.
  do 3 f_equal; [..|by rewrite length_app]. do 2 f_equal; lia.
Qed.

Definition all_pages (inputs : list SectionInput) : list page := concat (input_pages <$> inputs).

Fixpoint section_entries (l : list page) (inputs : list SectionInput) : list SectionEntry :=
  match inputs with
  | [] => []
  | i :: inputs' => section_entry l i :: section_entries (l ++ input_pages i) inputs'
  end.

Lemma build_sections_spec inputs seed secs l :
  Forall input_ok inputs -> pages_ok (l ++ all_pages inputs) ->
  build_sections inputs (build_state seed secs l)
  = Some (build_state seed (secs ++ section_entries l inputs) (l ++ all_pages inputs)).
Proof.
  revert secs l. induction inputs as [|i inputs IH]; intros secs l Hin Hok; cbn [build_sections section_entries].
  - unfold all_pages in *. simpl in *. by rewrite !app_nil_r.
  - apply Forall_cons in Hin as [Hi Hin]. unfold all_pages in Hok |- *. csimpl in *. rewrite app_assoc in Hok |- *.
    rewrite build_section_spec; [|done|exact (proj1 (pages_ok_app _ _ Hok))]. cbn [mbind option_bind].
    rewrite IH by done. by rewrite <- (app_assoc secs).
Qed.

(** ** The loops of the verifier *)

Lemma check_section_pages_ok name last pg sr E rest :
  Forall (fun e => pe_section e = name) E -> (N.of_nat (length E) + pg = last + 1)%N ->
  (sr + row_sum (pe_rows <$> E) < 2 ^ 64)%N ->
  check_section_pages name last pg sr (E ++ rest) = Ok (sr + row_sum (pe_rows <$> E))%N.
Proof.
  revert pg sr. induction E as [|e E IH]; intros pg sr HE Hlen Hsum; csimpl in *.
  - destruct rest; simpl; replace (last <? pg)%N with true by lia; by rewrite N.add_0_r.
  - apply Forall_cons in HE as [He HE]. replace (last <? pg)%N with false by lia.
    rewrite decide_True by done. rewrite u64_add_ok by lia. cbn [or_panic obind].
    rewrite IH by (done || lia). f_equal. lia.
Qed.

Lemma input_pages_named i : Forall (fun p => pg_section p = si_section i) (input_pages i).
Proof.
  apply Forall_forall. intros p Hp. unfold input_pages in Hp.
  apply elem_of_lookup_zip_with in Hp as (? & ? & ? & -> & _). done.
Qed.

Lemma entries_named n chain l name :
  Forall (fun p => pg_section p = name) l -> Forall (fun e => pe_section e = name) (page_entries n chain l).
Proof.
  intros Hl. revert n chain. induction Hl; intros; constructor; auto.
Qed.

Lemma obind_not_panic {E A B} (m : outcome E A) (k : A -> outcome E B) :
  m <> Panic -> (forall a, m = Ok a -> k a <> Panic) -> obind m k <> Panic.
Proof. destruct m; simpl; auto. Qed.

Lemma check_digests_inv entries index pages :
  check_digests entries index pages = Ok tt ->
  exists E rest, entries = E ++ rest
    /\ Forall2 (fun e b => pe_sha256 e = to_hex (sha256 b)) E pages
    /\ (forall i e, E !! i = Some e -> pe_page e = index + N.of_nat (S i))%N.
Proof.
  revert entries index. induction pages as [|b pages IH]; intros entries index Hc; cbn [check_digests] in Hc.
  - exists [], entries. split; [done|]. split; [constructor|]. intros i e Hi. by rewrite lookup_nil in Hi.
  - destruct entries as [|e entries]; [done|]. cbn [check_digests] in Hc.
    destruct (N.eqb_spec (pe_page e) (index + 1)) as [Hp|]; [|done]. cbn [negb] in Hc.
    case_decide as Hd; [|done]. destruct (IH _ _ Hc) as (E & rest & -> & HE & Hpos).
    exists (e :: E), rest. split; [done|]. split; [by constructor|].
    intros [|i] e' Hi; simpl in Hi; [simplify_eq; lia|]. rewrite (Hpos _ _ Hi). lia.
Qed.

(** The declared chain values are the chain over [ds] from [chain]. *)
Fixpoint chain_links (chain : str) (ds : list str) (links : list str) : Prop :=
  match ds, links with
  | [], [] => True
  | d :: ds', c :: links' => c = to_hex (chain_step chain d) /\ chain_links (chain_step chain d) ds' links'
  | _, _ => False
  end.

Lemma check_chain_inv chain summed entries chain' summed' :
  check_chain chain summed entries = Ok (chain', summed') ->
  exists ds, Forall2 (fun e d => from_hex (pe_sha256 e) = Some d) entries ds
    /\ chain_links chain ds (pe_chain <$> entries)
    /\ chain' = chain_of chain ds /\ summed' = (summed + row_sum (pe_rows <$> entries))%N.
Proof.
  revert chain summed. induction entries as [|e entries IH]; intros chain summed Hc; cbn [check_chain] in Hc.
  - simplify_eq. exists []. repeat split; [constructor|]. simpl. lia.
  - apply obind_Ok in Hc as (d & Hd%ok_or_Ok & Hc). case_decide as Hlink; [|done].
    apply obind_Ok in Hc as (s & Hs%or_panic_Ok & Hc). apply u64_add_Some in Hs as [-> _].
    destruct (IH _ _ Hc) as (ds & ? & ? & -> & ->). exists (d :: ds).
    split; [by constructor|]. csimpl. split; [done|]. split; [done|lia].
Qed.

Lemma check_section_pages_inv name last pg sr l r :
  check_section_pages name last pg sr l = Ok r -> (pg <= last + 1)%N ->
  exists E rest, l = E ++ rest /\ (N.of_nat (length E) + pg = last + 1)%N
    /\ Forall (fun e => pe_section e = name) E /\ r = (sr + row_sum (pe_rows <$> E))%N.
Proof.
  revert pg sr. induction l as [|e l IH]; intros pg sr Hc Hle; cbn [check_section_pages] in Hc;
    (destruct (N.ltb_spec last pg); [injection Hc as <-; eexists [], _; split; [done|];
       split; [simpl; lia|]; split; [constructor|simpl; lia]|]); [done|].
  case_decide as Hn; [|done].
  apply obind_Ok in Hc as (s & Hs%or_panic_Ok & Hc). apply u64_add_Some in Hs as [-> _].
  destruct (IH _ _ Hc) as (E & rest & -> & Hlen & HE & ->); [lia|].
  exists (e :: E), rest. split; [done|]. split; [simpl; lia|]. split; [by constructor|]. csimpl. lia.
Qed.

(** The sections cut the page list into consecutive runs, each labelled with
    the section's name and summing to its row count; page numbers start at
    [pg]. *)
Inductive sections_tile : N -> list SectionEntry -> list PageEntry -> Prop :=
  | tile_nil pg : sections_tile pg [] []
  | tile_cons pg s secs E rest :
    E <> [] ->
    se_first_page s = pg ->
    (se_last_page s + 1 = pg + N.of_nat (length E))%N ->
    se_pages s = N.of_nat (length E) ->
    Forall (fun e => pe_section e = se_section s) E ->
    se_rows s = row_sum (pe_rows <$> E) ->
    sections_tile (pg + N.of_nat (length E)) secs rest ->
    sections_tile pg (s :: secs) (E ++ rest).

Lemma section_contiguous_inv s pg :
  section_contiguous s pg = Some true ->
  se_first_page s = pg /\ (pg <= se_last_page s)%N /\ se_pages s = (se_last_page s - pg + 1)%N.
Proof.
  unfold section_contiguous, u32_sub, u32_add.
  destruct (N.eqb_spec (se_first_page s) pg) as [->|]; [|done]. cbn [negb orb].
  destruct (N.ltb_spec (se_last_page s) pg); [done|]. rewrite (proj2 (N.leb_le _ _)) by done.
  cbn [mbind option_bind]. case_match; [|done]. intros [= Hx%N.eqb_eq]. lia.
Qed.

Lemma check_sections_u32 pages index pg secs next :
  check_sections pages index pg secs = Ok next -> (pg <= u32_max)%N -> (next <= u32_max)%N.
Proof.
  revert index pg. induction secs as [|s secs IH]; intros index pg Hc Hpg; cbn [check_sections] in Hc.
  - by simplify_eq.
  - apply obind_Ok in Hc as ([] & _ & Hc); [|done]. cbn [negb] in Hc.
    apply obind_Ok in Hc as (start & _ & Hc). apply obind_Ok in Hc as (r & _ & Hc).
    case_match; [done|]. eapply IH; [exact Hc|]. unfold u32_saturating_add. lia.
Qed.

Lemma check_sections_inv pages index pg secs next :
  check_sections pages index pg secs = Ok next ->
  (1 <= pg)%N -> (pg - 1 <= N.of_nat (length pages))%N -> (N.of_nat (length pages) < u32_max)%N ->
  saturating_sub next 1 = N.of_nat (length pages) ->
  sections_tile pg secs (drop (N.to_nat (pg - 1)) pages).
Proof.
  revert index pg. induction secs as [|s secs IH]; intros index pg Hc Hpg Hle Hn Hnext; cbn [check_sections] in Hc.
  - injection Hc as ->. rewrite drop_ge; [constructor|]. unfold saturating_sub in Hnext. lia.
  - apply obind_Ok in Hc as ([] & Hcont%or_panic_Ok & Hc); [|done]. cbn [negb] in Hc.
    apply section_contiguous_inv in Hcont as (Hf & Hl & Hp).
    apply obind_Ok in Hc as (start & Hs%or_panic_Ok & Hc). unfold u32_sub in Hs. case_match; [|done].
    injection Hs as <-. rewrite Hf in Hc.
    apply obind_Ok in Hc as (r & Hr & Hc). destruct (N.eqb_spec r (se_rows s)) as [Hrows|]; [|done].
    cbn [negb] in Hc. apply check_section_pages_inv in Hr as (E & rest & Hd & Hlen & HE & Hsum); [|lia].
    rewrite Hd. pose proof (f_equal length Hd) as HL. rewrite length_drop, length_app in HL.
    assert (u32_saturating_add (se_last_page s) 1 = (pg + N.of_nat (length E))%N) as Hsat
      by (unfold u32_saturating_add; lia). rewrite Hsat in Hc.
    constructor; try done; [..|subst r; rewrite <- Hrows; lia|].
    + intros ->. simpl in *. lia.
    + lia.
    + lia.
    + apply IH in Hc; [|lia..|done].
      replace (N.to_nat (pg + N.of_nat (length E) - 1)) with (N.to_nat (pg - 1) + length E) in Hc by lia.
      rewrite <- drop_drop, Hd, drop_app_length in Hc. done.
Qed.

Lemma check_sections_ok pre secs L index pg :
  sections_tile pg secs L -> (pg = N.of_nat (S (length pre)))%N ->
  Forall (fun r => (r < 2 ^ 32)%N) (pe_rows <$> L) -> (N.of_nat (length (pre ++ L)) < u32_max)%N ->
  check_sections (pre ++ L) index pg secs = Ok (N.of_nat (S (length (pre ++ L)))).
Proof.
  intros Ht. revert pre index. induction Ht as [pg|pg s secs E rest Hne Hf Hl Hp HE Hr Ht IH];
    intros pre index Hpg Hrows Hlen; cbn [check_sections].
  - rewrite app_nil_r. by subst.
  - assert (0 < length E) by (destruct E; [done|simpl; lia]). rewrite !length_app in Hlen. unfold u32_max in *.
    rewrite fmap_app in Hrows. apply Forall_app in Hrows as [HrE Hrr].
    assert (section_contiguous s pg = Some true) as ->.
    { unfold section_contiguous, u32_sub, u32_add. rewrite Hf, N.eqb_refl. cbn [negb orb].
      replace (_ <? _)%N with false by lia. replace (_ <=? _)%N with true by lia. cbn [mbind option_bind].
      replace (_ <? _)%N with true by lia. cbn [mbind option_bind]. f_equal. lia. }
    cbn [or_panic obind negb]. unfold u32_sub at 1. rewrite Hf.
    replace (1 <=? pg)%N with true by lia. cbn [or_panic obind].
    replace (N.to_nat (pg - 1)) with (length pre) by lia. rewrite drop_app_length.
    rewrite check_section_pages_ok; [|done|lia|].
    + cbn [obind]. rewrite N.add_0_l, Hr, N.eqb_refl. cbn [negb].
      replace (u32_saturating_add (se_last_page s) 1) with (pg + N.of_nat (length E))%N
        by (unfold u32_saturating_add, u32_max; lia).
      rewrite app_assoc. apply IH; [rewrite length_app; lia|done|rewrite !length_app; lia].
    + rewrite N.add_0_l. apply row_sum_u64; [done|rewrite length_fmap; lia].
Qed.

Lemma check_digests_ok entries index pages :
  Forall2 (fun e b => pe_sha256 e = to_hex (sha256 b)) entries pages ->
  (forall i e, entries !! i = Some e -> pe_page e = index + N.of_nat (S i))%N ->
  check_digests entries index pages = Ok tt.
Proof.
  intros HF. revert index. induction HF as [|e b entries pages He HF IH]; intros index Hpos; [done|].
  cbn [check_digests]. rewrite (Hpos 0 e eq_refl), decide_True by done.
  replace (_ =? _)%N with true by lia. cbn [negb]. apply IH. intros i e' Hi.
  rewrite (Hpos (S i) e' Hi). lia.
Qed.

Lemma check_chain_ok chain summed entries ds :
  Forall2 (fun e d => from_hex (pe_sha256 e) = Some d) entries ds ->
  chain_links chain ds (pe_chain <$> entries) ->
  (summed + row_sum (pe_rows <$> entries) < 2 ^ 64)%N ->
  check_chain chain summed entries
  = Ok (chain_of chain ds, (summed + row_sum (pe_rows <$> entries))%N).
Proof.
  intros HF. revert chain summed. induction HF as [|e d entries ds He HF IH]; intros chain summed Hl Hs.
  - simpl. by rewrite N.add_0_r.
  - csimpl in *. destruct Hl as [Hc Hl]. rewrite He. cbn [ok_or obind]. rewrite decide_True by done.
    rewrite u64_add_ok by lia. cbn [or_panic obind]. rewrite IH by (done || lia).
    unfold chain_of. simpl. do 2 f_equal. lia.
Qed.

(** ** The declarative contract of the verifier *)

Lemma sections_required_iff names : sections_required names = true <-> names = REQUIRED_SECTIONS.
Proof.
  unfold sections_required. split.
  - intros [Hl Hz]%andb_prop. apply Nat.eqb_eq in Hl.
    destruct names as [|a [|b [|? ?]]]; try discriminate Hl. cbn [zip_with REQUIRED_SECTIONS forallb] in Hz.
    apply andb_prop in Hz as [?%bool_decide_eq_true Hz]. apply andb_prop in Hz as [?%bool_decide_eq_true _].
    by simplify_eq/=.
  - intros ->. vm_compute. reflexivity.
Qed.

(** What it means for pages to be the ones a manifest signed with the key
    [public_key_b64] describes. *)
Record valid_export (manifest_json signature_b64 public_key_b64 : str) (pages : list str)
    (m : Manifest) : Prop := {
  ve_signed : exists kb vk sb,
    b64_decode public_key_b64 = Some kb /\ length kb = 32 /\ vk_from_bytes kb = Some vk
    /\ b64_decode signature_b64 = Some sb /\ length sb = 64 /\ ed_verify vk manifest_json sb = true;
  ve_version : exists v, value_from_str manifest_json = Some v
    /\ get v $"schema_version" = Some (Number (PosInt SCHEMA_VERSION));
  ve_manifest : manifest_from_str manifest_json = Some m;
  ve_total_pages : m_total_pages m = N.of_nat (length pages);
  ve_sections : se_section <$> m_sections m = REQUIRED_SECTIONS;
  ve_tile : sections_tile 1 (m_sections m) (m_pages m);
  ve_numbers : forall i e, m_pages m !! i = Some e -> pe_page e = N.of_nat (S i);
  ve_digests : Forall2 (fun e b => pe_sha256 e = to_hex (sha256 b)) (m_pages m) pages;
  ve_chain : exists format, format_parse (m_format m) = Some format
    /\ let seed := genesis (m_export_id m) (m_workspace_id m) (w_from (m_window m))
                     (w_to (m_window m)) format (m_page_size m) in
       m_chain_genesis m = to_hex seed
       /\ chain_links seed (sha256 <$> pages) (pe_chain <$> m_pages m)
       /\ m_chain_root m = to_hex (chain_of seed (sha256 <$> pages));
  ve_total_rows : m_total_rows m = row_sum (pe_rows <$> m_pages m);
}.

(** Every integer of a deserialised manifest fits its field's type. *)
Definition manifest_typed (m : Manifest) : Prop :=
  Forall (fun r => (r < 2 ^ 32)%N) (pe_rows <$> m_pages m) /\ (m_total_pages m < 2 ^ 32)%N
  /\ Forall (fun s => (se_last_page s < 2 ^ 32)%N) (m_sections m).

Lemma verify_signature_iff mj sig pk :
  verify_signature mj sig pk = Ok tt <->
  exists kb vk sb, b64_decode pk = Some kb /\ length kb = 32 /\ vk_from_bytes kb = Some vk
    /\ b64_decode sig = Some sb /\ length sb = 64 /\ ed_verify vk mj sb = true.
Proof.
  unfold verify_signature, as_array_of. split.
  - intros Hv. inv_ok. repeat match goal with
      | Hb : _ ≫= _ = Some _ |- _ => apply bind_Some in Hb as (? & ? & Hb); case_decide; simplify_eq
      end. eauto 10.
  - intros (kb & vk & sb & -> & Hk & Hvk & -> & Hs & Hver). cbn [mbind option_bind].
    rewrite !decide_True by done. cbn [ok_or obind]. rewrite Hvk. cbn [ok_or obind]. by rewrite Hver.
Qed.

Lemma as_u32_Some v n : as_u32 v = Some n -> v = Number (PosInt n).
Proof. destruct v as [| |[]| | |]; simpl; try done. case_match; [|done]. congruence. Qed.

Lemma read_manifest_inv mj m :
  read_manifest mj = Ok m ->
  manifest_from_str mj = Some m /\ N.of_nat (length (m_pages m)) = m_total_pages m
  /\ exists v, value_from_str mj = Some v
       /\ get v $"schema_version" = Some (Number (PosInt SCHEMA_VERSION)).
Proof.
  unfold read_manifest. intros Hr. apply obind_Ok in Hr as (raw & Hraw%ok_or_Ok & Hr).
  apply obind_Ok in Hr as (ver & Hver%ok_or_Ok & Hr).
  destruct (N.eqb_spec ver SCHEMA_VERSION) as [->|]; [|done]. cbn [negb] in Hr. inv_ok.
  apply bind_Some in Hver as (x & Hx & ?%as_u32_Some). subst x.
  match goal with Hb : (_ =? _)%N = true |- _ => apply N.eqb_eq in Hb end. eauto.
Qed.

Context `{!ExportLaws}.

Lemma to_hex_inj a b : to_hex a = to_hex b -> a = b.
Proof. intros E. apply (f_equal hex_decode) in E. unfold to_hex in E. rewrite !hex_decode_encode in E. congruence. Qed.

Lemma from_to_hex b : from_hex (to_hex (sha256 b)) = Some (sha256 b).
Proof.
  unfold from_hex, to_hex, as_array_of. rewrite hex_decode_encode. cbn [mbind option_bind].
  rewrite decide_True by apply sha256_len. done.
Qed.

Lemma digests_from_hex entries pages :
  Forall2 (fun e b => pe_sha256 e = to_hex (sha256 b)) entries pages ->
  Forall2 (fun e d => from_hex (pe_sha256 e) = Some d) entries (sha256 <$> pages).
Proof. induction 1 as [|e b ? ? He]; csimpl; constructor; [by rewrite He, from_to_hex|done]. Qed.

Lemma from_hex_fun entries ds ds' :
  Forall2 (fun e d => from_hex (pe_sha256 e) = Some d) entries ds ->
  Forall2 (fun e d => from_hex (pe_sha256 e) = Some d) entries ds' -> ds = ds'.
Proof. intros HF. revert ds'. induction HF; inversion 1; simplify_eq; f_equal; auto. Qed.

Lemma verify_export_valid mj sig pk pages m :
  verify_export mj sig pk pages = Ok m -> (m_total_pages m < 2 ^ 32)%N ->
  valid_export mj sig pk pages m.
Proof.
  unfold verify_export. intros Hv Hty.
  apply obind_Ok in Hv as ([] & Hsig%verify_signature_iff & Hv).
  apply obind_Ok in Hv as (m' & (Hm & Hlen & Hver)%read_manifest_inv & Hv).
  apply obind_Ok in Hv as (fmt & Hfmt%ok_or_Ok & Hv).
  apply obind_Ok in Hv as (_ & Hg%ensure_Ok%bool_decide_eq_true & Hv).
  apply obind_Ok in Hv as (_ & Hgot%ensure_Ok%N.eqb_eq & Hv).
  apply obind_Ok in Hv as (_ & Hsec%ensure_Ok%sections_required_iff & Hv).
  apply obind_Ok in Hv as (next & Hnext & Hv).
  apply obind_Ok in Hv as (_ & Htot%ensure_Ok%N.eqb_eq & Hv).
  apply obind_Ok in Hv as ([] & Hdig & Hv).
  apply obind_Ok in Hv as ([chain summed] & Hch & Hv).
  apply obind_Ok in Hv as (_ & Hroot%ensure_Ok%bool_decide_eq_true & Hv).
  apply obind_Ok in Hv as (_ & Hrows%ensure_Ok%N.eqb_eq & Hv). injection Hv as ->.
  apply check_digests_inv in Hdig as (E & rest & HE & HF & Hpos).
  pose proof (Forall2_length _ _ _ HF) as HL.
  assert (rest = []) as ->.
  { apply (f_equal length) in HE. rewrite length_app in HE. unfold u32_of_len in Hgot.
    apply length_zero_iff_nil. lia. }
  rewrite app_nil_r in HE. subst E.
  apply check_chain_inv in Hch as (ds & Hds & Hlinks & -> & ->).
  assert (ds = sha256 <$> pages) as ->.
  { apply digests_from_hex in HF. exact (from_hex_fun _ _ _ Hds HF). }
  split; try done.
  - unfold u32_of_len in Hgot. lia.
  - rewrite <- (drop_0 (m_pages m)). replace 0 with (N.to_nat (1 - 1)) by done.
    pose proof (check_sections_u32 _ _ _ _ _ Hnext ltac:(done)) as Hu.
    eapply check_sections_inv; [exact Hnext|..]; unfold saturating_sub, u32_max in *; lia.
  - exists fmt. auto.
Qed.

Lemma verify_export_reads mj sig pk pages m :
  verify_export mj sig pk pages = Ok m -> manifest_from_str mj = Some m.
Proof.
  unfold verify_export. intros Hv. apply obind_Ok in Hv as (? & _ & Hv).
  apply obind_Ok in Hv as (m' & (Hm & _)%read_manifest_inv & Hv). inv_ok.
  match goal with Hp : (let '(_, _) := ?p in _) = Ok _ |- _ => destruct p end. inv_ok. done.
Qed.

Lemma valid_export_verifies mj sig pk pages m :
  valid_export mj sig pk pages m -> manifest_typed m -> (N.of_nat (length pages) < u32_max)%N ->
  verify_export mj sig pk pages = Ok m.
Proof.
  intros [Hsig (v & Hv & Hver) Hm Htp Hsec Htile Hnum HF (fmt & Hfmt & Hg & Hl & Hroot) Hrows] [Hty _] Hn.
  pose proof (Forall2_length _ _ _ HF) as HL. unfold verify_export.
  rewrite (proj2 (verify_signature_iff _ _ _) Hsig). cbn [obind]. unfold read_manifest.
  rewrite Hv. cbn [ok_or obind]. rewrite Hver. cbn [mbind option_bind as_u32].
  replace (_ <=? _)%N with true by done. cbn [ok_or obind]. rewrite N.eqb_refl. cbn [negb].
  rewrite Hm. cbn [ok_or obind]. rewrite HL, Htp, N.eqb_refl. cbn [ensure obind].
  rewrite Hfmt. cbn [ok_or obind]. rewrite bool_decide_true by done. cbn [ensure obind].
  replace (u32_of_len (length pages)) with (N.of_nat (length pages)) by (unfold u32_of_len; lia).
  rewrite Htp, N.eqb_refl. cbn [ensure obind]. rewrite (proj2 (sections_required_iff _)) by done. cbn [ensure obind].
  rewrite (check_sections_ok [] _ _ _ _ Htile) by (try done; rewrite ?app_nil_l; lia). cbn [obind app].
  replace (_ =? _)%N with true by (unfold saturating_sub; lia). cbn [ensure obind].
  rewrite check_digests_ok by (try done; intros ? ? Hi; by rewrite (Hnum _ _ Hi)). cbn [obind].
  apply digests_from_hex in HF. rewrite (check_chain_ok _ _ _ _ HF Hl); cycle 1.
  { rewrite N.add_0_l. apply row_sum_u64; [done|]. rewrite length_fmap. unfold u32_max in Hn. lia. }
  cbn [obind]. rewrite bool_decide_true by done. cbn [ensure obind].
  rewrite N.add_0_l, Hrows, N.eqb_refl. done.
Qed.

(** ** What the build writes is valid *)

Lemma check_inputs_ok inputs : Forall input_ok inputs -> check_inputs inputs = None.
Proof.
  induction 1 as [|i inputs [Hl Hne] _ IH]; [done|]. cbn [check_inputs].
  rewrite Hl, Nat.eqb_refl. cbn [negb]. by rewrite decide_False.
Qed.

Lemma all_pages_bytes inputs :
  Forall input_ok inputs -> pg_bytes <$> all_pages inputs = concat (si_pages <$> inputs).
Proof.
  induction 1 as [|i inputs [Hl _] _ IH]; [done|]. unfold all_pages in *. csimpl. rewrite fmap_app, IH. f_equal.
  unfold input_pages. apply fmap_zip_with_l; [done|lia].
Qed.

Lemma all_pages_rows inputs :
  Forall input_ok inputs -> pg_rows <$> all_pages inputs = concat (si_rows_per_page <$> inputs).
Proof.
  induction 1 as [|i inputs [Hl _] _ IH]; [done|]. unfold all_pages in *. csimpl. rewrite fmap_app, IH. f_equal.
  unfold input_pages. apply fmap_zip_with_r; [done|lia].
Qed.

Lemma page_entries_numbers n chain l i e :
  page_entries n chain l !! i = Some e -> pe_page e = N.of_nat (S (n + i)).
Proof.
  revert n chain i. induction l as [|p l IH]; intros n chain [|i] Hi; cbn in Hi; try done.
  - simplify_eq/=. by rewrite Nat.add_0_r.
  - rewrite (IH _ _ _ Hi). f_equal. lia.
Qed.

Lemma page_entries_links n chain l :
  chain_links chain (page_digests l) (pe_chain <$> page_entries n chain l).
Proof. revert n chain. induction l; intros; csimpl; [done|]. split; [done|auto]. Qed.

Lemma page_entries_digests n chain l :
  Forall2 (fun e b => pe_sha256 e = to_hex (sha256 b)) (page_entries n chain l) (pg_bytes <$> l).
Proof. revert n chain. induction l; intros; csimpl; constructor; auto. Qed.

Lemma section_entries_tile inputs seed l :
  Forall input_ok inputs ->
  sections_tile (N.of_nat (S (length l))) (section_entries l inputs)
    (page_entries (length l) (chain_of seed (page_digests l)) (all_pages inputs)).
Proof.
  intros Hin. revert l. induction Hin as [|i inputs Hi _ IH]; intros l; [constructor|].
  unfold all_pages. csimpl. fold (all_pages inputs). rewrite page_entries_app.
  pose proof (input_pages_length _ Hi) as Hpl.
  assert (0 < length (input_pages i))
    by (destruct Hi as [_ Hi]; rewrite Hpl; destruct (si_pages i); [done|simpl; lia]).
  cbn [section_entries]. constructor; cbn [se_first_page se_last_page se_pages se_rows se_section section_entry];
    rewrite ?page_entries_length, ?page_entries_rows; try done; try lia.
  - intros E. apply (f_equal length) in E. rewrite page_entries_length in E. simpl in E. lia.
  - apply entries_named, input_pages_named.
  - specialize (IH (l ++ input_pages i)). rewrite length_app in IH. unfold page_digests in IH |- *.
    rewrite fmap_app in IH. unfold chain_of in IH |- *. rewrite fold_left_app in IH.
    replace (_ + N.of_nat (length (input_pages i)))%N
      with (N.of_nat (S (length l + length (input_pages i)))) by lia. exact IH.
Qed.

Lemma section_entries_names l inputs : se_section <$> section_entries l inputs = si_section <$> inputs.
Proof. revert l. induction inputs; intros; csimpl; f_equal; auto. Qed.

Lemma format_parse_as_str f : format_parse (format_as_str f) = Some f.
Proof. by destruct f. Qed.

(** The manifest of an export of [inputs]. *)
Definition built_manifest (export_id workspace_id : Uuid) (from to : DateTime)
    (format : ExportFormat) (page_size : N) (inputs : list SectionInput)
    (generated_at : DateTime) (key : SigningKey) : Manifest :=
  let seed := genesis export_id workspace_id from to format page_size in
  let l := all_pages inputs in {|
    schema_version := SCHEMA_VERSION;
    m_export_id := export_id;
    m_workspace_id := workspace_id;
    m_window := {| w_from := from; w_to := to; w_interpretation := WINDOW_INTERPRETATION |};
    m_format := format_as_str format;
    m_page_size := page_size;
    m_total_rows := row_sum (pg_rows <$> l);
    m_total_pages := u32_of_len (length l);
    m_chain_genesis := to_hex seed;
    m_chain_root := to_hex (chain_of seed (page_digests l));
    m_sections := section_entries [] inputs;
    m_pages := page_entries 0 seed l;
    m_coverage := EXPORT_COVERAGE;
    m_signing_key_id := key_id (verifying_key key);
    m_generated_at := generated_at;
    m_verification := VERIFICATION_RECIPE |}.

Lemma build_manifest_ok eid wid from to fmt psize inputs gen key mj :
  si_section <$> inputs = REQUIRED_SECTIONS -> Forall input_ok inputs -> pages_ok (all_pages inputs) ->
  let m := built_manifest eid wid from to fmt psize inputs gen key in
  manifest_to_string m = Some mj ->
  build_manifest eid wid from to fmt psize inputs gen key = Ok {|
    x_manifest_json := mj;
    x_signature_b64 := b64_encode (ed_sign key mj);
    x_public_key_b64 := b64_encode (vk_to_bytes (verifying_key key));
    x_signing_key_id := key_id (verifying_key key);
    x_total_rows := m_total_rows m;
    x_total_pages := m_total_pages m;
    x_page_digests := to_hex <$> page_digests (all_pages inputs);
    x_rows_per_page := pg_rows <$> all_pages inputs |}.
Proof.
  intros Hnames Hin Hok m Hmj. unfold build_manifest.
  rewrite (proj2 (sections_required_iff _)), check_inputs_ok by done. cbn [negb]. cbv zeta.
  pose proof (build_sections_spec inputs (genesis eid wid from to fmt psize) [] [] Hin Hok) as Hb.
  change (build_state (genesis eid wid from to fmt psize) [] []) with {|
    b_chain := genesis eid wid from to fmt psize; b_entries := []; b_digests := []; b_rows := [];
    b_sections := []; b_all_pages := 0; b_total_rows := 0 |} in Hb.
  rewrite Hb. cbn [or_panic obind b_chain b_entries b_digests b_rows b_sections b_all_pages b_total_rows build_state app].
  fold (built_manifest eid wid from to fmt psize inputs gen key). fold m. by rewrite Hmj.
Qed.

Lemma section_entries_last l inputs :
  (N.of_nat (length (l ++ all_pages inputs)) < 2 ^ 32)%N ->
  Forall (fun s => (se_last_page s < 2 ^ 32)%N) (section_entries l inputs).
Proof.
  revert l. induction inputs as [|i inputs IH]; intros l Hl; cbn [section_entries]; [constructor|].
  unfold all_pages in Hl. csimpl in *. rewrite app_assoc in Hl. constructor; [|by apply IH].
  rewrite !length_app in Hl. cbn [se_last_page section_entry]. lia.
Qed.

Lemma built_manifest_typed eid wid from to fmt psize inputs gen key :
  pages_ok (all_pages inputs) -> manifest_typed (built_manifest eid wid from to fmt psize inputs gen key).
Proof.
  intros [Hr Hn]. unfold built_manifest. split; [|split]; cbn [m_pages m_total_pages m_sections].
  - by rewrite page_entries_rows.
  - unfold u32_of_len, u32_max. lia.
  - apply section_entries_last. simpl. lia.
Qed.

Lemma built_manifest_valid eid wid from to fmt psize inputs gen key mj :
  si_section <$> inputs = REQUIRED_SECTIONS -> Forall input_ok inputs -> pages_ok (all_pages inputs) ->
  let m := built_manifest eid wid from to fmt psize inputs gen key in
  manifest_to_string m = Some mj ->
  valid_export mj (b64_encode (ed_sign key mj)) (b64_encode (vk_to_bytes (verifying_key key)))
    (concat (si_pages <$> inputs)) m.
Proof.
  intros Hnames Hin Hok m Hmj. pose proof (all_pages_bytes _ Hin) as Hb.
  assert (sha256 <$> concat (si_pages <$> inputs) = page_digests (all_pages inputs)) as Hd
    by (by rewrite <- Hb, <- list_fmap_compose).
  split.
  - exists (vk_to_bytes (verifying_key key)), (verifying_key key), (ed_sign key mj).
    rewrite !b64_decode_encode. auto 10 using vk_len, vk_from_to, sign_len, sign_verifies.
  - destruct (manifest_version _ _ Hmj) as (v & Hv & Hs). eauto.
  - by apply manifest_from_to.
  - cbn. rewrite <- Hb, length_fmap. apply u32_of_len_small. destruct Hok. lia.
  - cbn. by rewrite section_entries_names.
  - apply (section_entries_tile inputs _ []). done.
  - intros i e Hi. exact (page_entries_numbers _ _ _ _ _ Hi).
  - rewrite <- Hb. apply page_entries_digests.
  - exists fmt. split; [apply format_parse_as_str|]. rewrite Hd. split; [done|]. split; [apply page_entries_links|done].
  - cbn [m_total_rows m_pages built_manifest m]. by rewrite page_entries_rows.
Qed.

(** A produced export verifies: whatever pages the two required sections
    carry (fewer than [u32::MAX] of them, at least one each, with their row
    counts), [build_manifest] returns a signed export, and [verify_export]
    accepts it with the exporter's own public key and the very pages, giving
    back a manifest with the requested identity and window and the true
    totals. *)
Theorem export_verifies eid wid from to fmt psize inputs gen key :
  si_section <$> inputs = REQUIRED_SECTIONS ->
  Forall input_ok inputs ->
  Forall (fun r => (r < 2 ^ 32)%N) (concat (si_rows_per_page <$> inputs)) ->
  (N.of_nat (length (concat (si_pages <$> inputs))) < u32_max)%N ->
  (forall m, manifest_typed m -> is_Some (manifest_to_string m)) ->
  exists x m,
    build_manifest eid wid from to fmt psize inputs gen key = Ok x
    /\ verify_export (x_manifest_json x) (x_signature_b64 x) (x_public_key_b64 x)
         (concat (si_pages <$> inputs)) = Ok m
    /\ m_export_id m = eid /\ m_workspace_id m = wid
    /\ w_from (m_window m) = from /\ w_to (m_window m) = to
    /\ m_format m = format_as_str fmt /\ m_page_size m = psize
    /\ m_total_rows m = row_sum (concat (si_rows_per_page <$> inputs))
    /\ x_total_rows x = m_total_rows m
    /\ x_total_pages x = N.of_nat (length (concat (si_pages <$> inputs)))
    /\ x_page_digests x = (fun b => to_hex (sha256 b)) <$> concat (si_pages <$> inputs).
Proof.
  intros Hnames Hin Hrows Hlen Hser.
  pose proof (all_pages_bytes _ Hin) as Hb. pose proof (all_pages_rows _ Hin) as Hr.
  assert (pages_ok (all_pages inputs)) as Hok.
  { split; [by rewrite Hr|]. rewrite <- Hb, length_fmap in Hlen. exact Hlen. }
  set (m := built_manifest eid wid from to fmt psize inputs gen key).
  pose proof (built_manifest_typed eid wid from to fmt psize inputs gen key Hok) as Hty.
  destruct (Hser m Hty) as [mj Hmj].
  pose proof (built_manifest_valid eid wid from to fmt psize inputs gen key mj Hnames Hin Hok Hmj) as Hv.
  eexists _, m. split; [exact (build_manifest_ok _ _ _ _ _ _ _ _ _ _ Hnames Hin Hok Hmj)|].
  cbn [x_manifest_json x_signature_b64 x_public_key_b64 x_total_rows x_total_pages x_page_digests].
  split; [by apply valid_export_verifies|].
  pose proof (ve_total_pages _ _ _ _ _ Hv) as Htp. fold m in Htp.
  repeat split; try done.
  - unfold m, built_manifest. cbn [m_total_rows]. by rewrite Hr.
  - unfold page_digests. rewrite <- Hb, <- !list_fmap_compose. done.
Qed.

(** C12: [verify_export] implements its contract: on fewer than [u32::MAX]
    pages it accepts exactly when the auditor's key signed these manifest
    bytes, the manifest has version 2, the two required sections cut its page
    list into consecutive labelled runs with the declared counts, every page
    has the listed number and SHA-256, and the seed, every link and the root
    of the chain are recomputed from the header and the page bytes. *)
Theorem verify_export_exact mj sig pk pages m :
  (forall s m', manifest_from_str s = Some m' -> manifest_typed m') ->
  (N.of_nat (length pages) < u32_max)%N ->
  verify_export mj sig pk pages = Ok m <-> valid_export mj sig pk pages m.
Proof.
  intros Hty Hlen. split.
  - intros Hv. apply verify_export_valid; [done|]. apply verify_export_reads in Hv. by destruct (Hty _ _ Hv) as (_ & ? & _).
  - intros Hv. apply valid_export_verifies; [done| |done]. exact (Hty _ _ (ve_manifest _ _ _ _ _ Hv)).
Qed.

(** ** The chain root identifies the export *)

Lemma app_sep_inj {A} (x : A) a a' b b' :
  x ∉ a -> x ∉ a' -> a ++ x :: b = a' ++ x :: b' -> a = a' /\ b = b'.
Proof.
  revert a'. induction a as [|c a IH]; intros [|c' a'] Ha Ha' E; simplify_eq/=; try done.
  - set_solver.
  - set_solver.
  - destruct (IH a') as [-> ->]; set_solver.
Qed.

Lemma genesis_header_long eid wid from to fmt psize : 64 < length (genesis_header eid wid from to fmt psize).
Proof.
  unfold genesis_header. rewrite !length_app, !show_uuid_length.
  replace (length GENESIS_DOMAIN) with 28 by done. simpl. lia.
Qed.

Lemma LF_not_digits n : LF ∉ show_N n.
Proof. intros Hin. pose proof (show_N_digits n) as Hd. rewrite Forall_forall in Hd. by specialize (Hd _ Hin). Qed.

Lemma LF_not_format f : LF ∉ format_as_str f.
Proof. destruct f; cbn; set_solver. Qed.

Lemma genesis_header_inj eid wid from to fmt psize eid' wid' from' to' fmt' psize' :
  (forall t, LF ∉ manifest_instant t) ->
  (eid < 2 ^ 128)%N -> (wid < 2 ^ 128)%N -> (eid' < 2 ^ 128)%N -> (wid' < 2 ^ 128)%N ->
  genesis_header eid wid from to fmt psize = genesis_header eid' wid' from' to' fmt' psize' ->
  eid = eid' /\ wid = wid' /\ manifest_instant from = manifest_instant from'
  /\ manifest_instant to = manifest_instant to' /\ fmt = fmt' /\ psize = psize'.
Proof.
  intros Hlf ???? E. unfold genesis_header in E.
  apply app_inv_head, app_inv_head in E.
  apply app_inj_1 in E as [He E]; [|by rewrite !show_uuid_length].
  apply app_inv_head in E.
  apply app_inj_1 in E as [Hw E]; [|by rewrite !show_uuid_length].
  apply show_uuid_inj in He; [|done..]. apply show_uuid_inj in Hw; [|done..].
  apply app_inv_head in E. cbn [app] in E.
  apply app_sep_inj in E as [? E]; [|apply Hlf..].
  apply app_sep_inj in E as [? E]; [|apply Hlf..].
  apply app_sep_inj in E as [Hf E]; [|apply LF_not_format..].
  apply app_sep_inj in E as [?%show_N_inj _]; [|apply LF_not_digits..].
  repeat split; try done. by destruct fmt, fmt'.
Qed.

(** Lists with equal digests are equal, or there is a collision. *)
Lemma digests_inj (ps qs : list str) : sha256 <$> ps = sha256 <$> qs -> sha256_collision \/ ps = qs.
Proof.
  revert qs. induction ps as [|p ps IH]; intros [|q qs] E; csimpl in *; simplify_eq; try done; [by right|].
  destruct (sha256_eq p q) as [?| ->]; [done|by left|]. destruct (IH qs) as [?| ->]; [done|by left|by right].
Qed.

Lemma digests_len (ps : list str) : Forall (fun d => length d = 32) (sha256 <$> ps).
Proof. induction ps; csimpl; constructor; [apply sha256_len|done]. Qed.

(** The chain root identifies the export: if two exports verify, under any
    keys and with any manifests, and carry the same [chain_root], then either
    two different byte strings with one SHA-256 digest are at hand, or they
    have the same pages in the same order and the same export id, workspace,
    window, format and page size.  In particular pages cannot be altered,
    dropped, reordered or spliced in under one manifest. *)
Theorem chain_root_identifies mj sig pk pages m mj' sig' pk' pages' m' :
  (forall t, LF ∉ manifest_instant t) ->
  (m_total_pages m < 2 ^ 32)%N -> (m_total_pages m' < 2 ^ 32)%N ->
  (m_export_id m < 2 ^ 128)%N -> (m_workspace_id m < 2 ^ 128)%N ->
  (m_export_id m' < 2 ^ 128)%N -> (m_workspace_id m' < 2 ^ 128)%N ->
  verify_export mj sig pk pages = Ok m ->
  verify_export mj' sig' pk' pages' = Ok m' ->
  m_chain_root m = m_chain_root m' ->
  sha256_collision
  \/ (pages = pages' /\ m_export_id m = m_export_id m' /\ m_workspace_id m = m_workspace_id m'
      /\ manifest_instant (w_from (m_window m)) = manifest_instant (w_from (m_window m'))
      /\ manifest_instant (w_to (m_window m)) = manifest_instant (w_to (m_window m'))
      /\ format_parse (m_format m) = format_parse (m_format m')
      /\ m_page_size m = m_page_size m').
Proof.
  intros Hlf Ht Ht' He Hw He' Hw' Hv Hv' Hroot.
  apply verify_export_valid in Hv; [|done]. apply verify_export_valid in Hv'; [|done].
  destruct (ve_chain _ _ _ _ _ Hv) as (f & Hf & _ & _ & Hr).
  destruct (ve_chain _ _ _ _ _ Hv') as (f' & Hf' & _ & _ & Hr').
  rewrite Hr, Hr' in Hroot. apply to_hex_inj in Hroot. unfold genesis in Hroot.
  apply chain_of_inj in Hroot as [?|[Hh Hd]]; [by left|..|apply digests_len|apply digests_len];
    [|apply genesis_header_long..].
  destruct (digests_inj _ _ Hd) as [?|Hp]; [by left|]. right. split; [done|].
  apply genesis_header_inj in Hh as (?&?&?&?&?&?); [|done..]. repeat split; try done. congruence.
Qed.

(** ** Overflow and indexing *)

Lemma check_section_pages_total name last pg sr l :
  Forall (fun r => (r < 2 ^ 32)%N) (pe_rows <$> l) ->
  (sr + row_sum (pe_rows <$> l) < 2 ^ 64)%N -> check_section_pages name last pg sr l <> Panic.
Proof.
  revert pg sr. induction l as [|e l IH]; intros pg sr Hr Hs; cbn [check_section_pages]; case_match; try done.
  case_decide; [|done]. csimpl in *. apply Forall_cons in Hr as [? ?].
  rewrite u64_add_ok by lia. cbn [or_panic obind]. apply IH; [done|lia].
Qed.

Lemma row_sum_drop n l : (row_sum (drop n l) <= row_sum l)%N.
Proof. rewrite <- (take_drop n l) at 2. rewrite row_sum_app. lia. Qed.

Lemma check_sections_total pages index pg secs :
  Forall (fun r => (r < 2 ^ 32)%N) (pe_rows <$> pages) -> (N.of_nat (length pages) < 2 ^ 32)%N ->
  Forall (fun s => se_last_page s < 2 ^ 32)%N secs -> (1 <= pg)%N ->
  check_sections pages index pg secs <> Panic.
Proof.
  intros Hr Hn. revert index pg. induction secs as [|s secs IH]; intros index pg Hs Hpg; [done|].
  apply Forall_cons in Hs as [Hs Hss]. cbn [check_sections].
  assert (exists b, section_contiguous s pg = Some b) as [b Hb].
  { unfold section_contiguous, u32_sub, u32_add. case_match eqn:Ho; [by eexists|].
    apply orb_false_elim in Ho as [?%negb_false_iff%N.eqb_eq ?%N.ltb_ge].
    rewrite (proj2 (N.leb_le _ _)) by done. cbn [mbind option_bind].
    rewrite (proj2 (N.ltb_lt _ _)) by lia. by eexists. }
  rewrite Hb. cbn [or_panic obind]. destruct b; [|done]. cbn [negb].
  apply section_contiguous_inv in Hb as (Hf & _ & _). rewrite Hf.
  unfold u32_sub. rewrite (proj2 (N.leb_le 1 pg)) by done. cbn [or_panic obind].
  apply obind_not_panic.
  - apply check_section_pages_total.
    + rewrite fmap_drop. by apply Forall_drop.
    + rewrite fmap_drop, N.add_0_l. eapply N.le_lt_trans; [apply row_sum_drop|].
      apply row_sum_u64; [done|by rewrite length_fmap].
  - intros r _. case_match; [done|]. apply IH; [done|]. unfold u32_saturating_add, u32_max. lia.
Qed.

Lemma check_digests_total entries index pages :
  length pages <= length entries -> check_digests entries index pages <> Panic.
Proof.
  revert entries index. induction pages as [|b pages IH]; intros [|e entries] index Hl; simpl in Hl; try done; [lia|].
  cbn [check_digests]. case_match; [done|]. case_decide; [|done]. apply IH. lia.
Qed.

Lemma check_chain_total chain summed entries :
  (summed + row_sum (pe_rows <$> entries) < 2 ^ 64)%N -> check_chain chain summed entries <> Panic.
Proof.
  revert chain summed. induction entries as [|e entries IH]; intros chain summed Hs; [done|]. csimpl in *.
  apply obind_not_panic; [by destruct (from_hex _)|]. intros d _. case_decide; [|done].
  rewrite u64_add_ok by lia. cbn [or_panic obind]. apply IH. lia.
Qed.

Lemma ok_or_not_panic {E A} (o : option A) (e : E) : ok_or o e <> Panic.
Proof. by destruct o. Qed.
Lemma ensure_not_panic {E} b (e : E) : ensure b e <> Panic.
Proof. by destruct b. Qed.

(** [verify_export] has no panicking path on hostile input: for any
    manifest text, signature, key and up to [u32::MAX] pages, no addition
    overflows, no subtraction underflows and no index is out of range, even
    though the manifest's numbers are the attacker's. *)
Theorem verify_export_never_panics mj sig pk pages :
  (forall s m, manifest_from_str s = Some m -> manifest_typed m) ->
  (N.of_nat (length pages) <= u32_max)%N ->
  verify_export mj sig pk pages <> Panic.
Proof.
  intros Hty Hlen. unfold verify_export.
  apply obind_not_panic.
  { unfold verify_signature. repeat (apply obind_not_panic; [apply ok_or_not_panic|]; intros ? _).
    apply ensure_not_panic. }
  intros [] _. apply obind_not_panic.
  { unfold read_manifest. do 2 (apply obind_not_panic; [apply ok_or_not_panic|]; intros ? _).
    case_match; [done|]. apply obind_not_panic; [apply ok_or_not_panic|]; intros ? _.
    apply obind_not_panic; [apply ensure_not_panic|done]. }
  intros m (Hm & Hml & _)%read_manifest_inv. destruct (Hty _ _ Hm) as (Hr & Htp & Hs).
  assert (row_sum (pe_rows <$> m_pages m) < 2 ^ 64)%N as Hsum
    by (apply row_sum_u64; [done|rewrite length_fmap; lia]).
  apply obind_not_panic; [apply ok_or_not_panic|]; intros fmt _.
  apply obind_not_panic; [apply ensure_not_panic|]; intros _ _.
  apply obind_not_panic; [apply ensure_not_panic|]; intros _ Hgot%ensure_Ok%N.eqb_eq.
  apply obind_not_panic; [apply ensure_not_panic|]; intros _ _.
  apply obind_not_panic; [apply check_sections_total; [done|lia|done|done]|]; intros next _.
  apply obind_not_panic; [apply ensure_not_panic|]; intros _ _.
  apply obind_not_panic; [apply check_digests_total; unfold u32_of_len in Hgot; lia|]; intros _ _.
  apply obind_not_panic; [by apply check_chain_total|]; intros [chain summed] _.
  apply obind_not_panic; [apply ensure_not_panic|]; intros _ _.
  by apply obind_not_panic; [apply ensure_not_panic|].
Qed.
End laws.

(** ** Properties of the export's pages and retention verdicts

    A CSV page reads back, through an independent reader, to exactly the cells
    of its rows; JSON lines carry the same keys, in key order; the retention
    verdict is exact. *)

(** ** A reader for the CSV dialect

    A field is empty (NULL) or quoted with inner quotes doubled; fields are
    separated by commas; every record ends with LF. *)

Inductive reading : Type :=
  | AtStart
  | Inside (acc : str)
  | Closed (acc : str).

Definition comma : ascii := ","%char.

(** [record] and [records] are what was read of the current record and before
    it, last first. *)
Fixpoint csv_read (st : reading) (record : list (option str)) (records : list (list (option str)))
    (s : str) : option (list (list (option str))) :=
  match s with
  | [] => match st, record with AtStart, [] => Some (reverse records) | _, _ => None end
  | c :: s' =>
    let next_field v := csv_read AtStart (v :: record) records s' in
    let next_record v := csv_read AtStart [] (reverse (v :: record) :: records) s' in
    match st with
    | AtStart =>
      if decide (c = dquote) then csv_read (Inside []) record records s'
      else if decide (c = comma) then next_field None
      else if decide (c = LF) then next_record None
      else None
    | Inside acc =>
      if decide (c = dquote) then csv_read (Closed acc) record records s'
      else csv_read (Inside (acc ++ [c])) record records s'
    | Closed acc =>
      if decide (c = dquote) then csv_read (Inside (acc ++ [dquote])) record records s'
      else if decide (c = comma) then next_field (Some acc)
      else if decide (c = LF) then next_record (Some acc)
      else None
    end
  end.

Definition read_csv (s : str) : option (list (list (option str))) := csv_read AtStart [] [] s.

(** Replacing one byte by a string. *)
Lemma replace_byte s c to :
  replace s [c] to = concat ((fun x => if decide (x = c) then to else [x]) <$> s).
Proof.
  unfold replace. induction s as [|x s IH]; [done|]. csimpl. rewrite IH.
  destruct (decide (x = c)) as [->|Hne].
  - by rewrite decide_True.
  - by rewrite decide_False by congruence.
Qed.

(** Reading the inside of a quoted field. *)
Lemma csv_read_inside s acc rec recs rest :
  csv_read (Inside acc) rec recs (replace s [dquote] [dquote; dquote] ++ dquote :: rest)
  = csv_read (Closed (acc ++ s)) rec recs rest.
Proof.
  rewrite replace_byte. revert acc. induction s as [|c s IH]; intros acc; csimpl; [by rewrite app_nil_r|].
  destruct (decide (c = dquote)) as [->|Hne]; cbn [app csv_read].
  - rewrite !decide_True by done. rewrite IH. by rewrite <- app_assoc.
  - rewrite decide_False by done. rewrite IH. by rewrite <- app_assoc.
Qed.

Lemma csv_read_field v rec recs rest :
  csv_read AtStart rec recs (csv_field v ++ comma :: rest) = csv_read AtStart (v :: rec) recs rest.
Proof.
  destruct v as [s|]; [|done]. unfold csv_field. cbn [app]. rewrite <- app_assoc. cbn [csv_read].
  rewrite decide_True by done. cbn [app]. by rewrite csv_read_inside.
Qed.

Lemma csv_read_last v rec recs rest :
  csv_read AtStart rec recs (csv_field v ++ LF :: rest)
  = csv_read AtStart [] (reverse (v :: rec) :: recs) rest.
Proof.
  destruct v as [s|]; [|done]. unfold csv_field. cbn [app]. rewrite <- app_assoc. cbn [csv_read].
  rewrite decide_True by done. cbn [app]. by rewrite csv_read_inside.
Qed.

Lemma csv_read_line cells rec recs rest :
  cells <> [] ->
  csv_read AtStart rec recs (csv_line cells ++ rest)
  = csv_read AtStart [] ((reverse rec ++ cells) :: recs) rest.
Proof.
  unfold csv_line. revert rec. induction cells as [|v cells IH]; intros rec Hne; [done|].
  destruct cells as [|w cells].
  - cbn [fmap list_fmap join]. rewrite <- app_assoc. cbn [app]. rewrite csv_read_last. by rewrite reverse_cons.
  - change (join $"," (csv_field <$> v :: w :: cells))
      with (csv_field v ++ comma :: join $"," (csv_field <$> w :: cells)).
    rewrite <- !(app_assoc (csv_field v)). cbn [app]. rewrite csv_read_field, IH by done.
    by rewrite reverse_cons, <- app_assoc.
Qed.

Section render.
Context `{ExportEnv}.

(** A CSV page loses nothing: an independent reader of the dialect gets
    back the header's column names and, for every row, exactly the cells of
    its columns, with NULL kept apart from the empty string, whatever quotes,
    commas and line feeds the values contain. *)
Theorem csv_page_roundtrip {R} `{ExportRow R} (rows : list R) :
  columns R <> [] ->
  read_csv (render_page rows Csv)
  = Some (((fun col => Some col.1) <$> columns R) :: (row_cells <$> rows)).
Proof.
  intros Hne. unfold read_csv, render_page.
  rewrite csv_read_line by (by intros ?%fmap_nil_inv). cbn [reverse app].
  assert (forall recs, csv_read AtStart [] recs (concat ((fun row => csv_line (row_cells row)) <$> rows))
    = Some (reverse recs ++ (row_cells <$> rows))) as Hrows.
  { induction rows as [|row rows IH]; intros recs; csimpl; [by rewrite app_nil_r|].
    rewrite csv_read_line by (unfold row_cells; by intros ?%fmap_nil_inv). rewrite IH.
    by rewrite reverse_cons, <- app_assoc. }
  rewrite Hrows. done.
Qed.

(** The columns of [request_events] that hold prompt or response text. *)
Definition content_columns : list str :=
  [$"raw_prompt"; $"raw_response"; $"redacted_prompt"; $"restored_response"].

(** The two serialisations of a row have the same columns and none that
    holds content, but not the same order: a row's JSON object has exactly the
    documented column names as keys, in the byte order of the names, which is
    not the documented column order. *)
Theorem row_object_keys (r : AuditRow) (c : ControlRow) :
  (to_object r).*1 ≡ₚ (columns AuditRow).*1
  /\ (to_object c).*1 ≡ₚ (columns ControlRow).*1
  /\ Forall (fun k => k ∉ (columns AuditRow).*1 /\ k ∉ (columns ControlRow).*1) content_columns
  /\ StronglySorted (fun a b => str_ltb a b = true) (to_object r).*1
  /\ StronglySorted (fun a b => str_ltb a b = true) (to_object c).*1
  /\ (to_object r).*1 <> (columns AuditRow).*1
  /\ (to_object c).*1 <> (columns ControlRow).*1.
Proof.
  assert ((to_object r).*1 = sort_by str_ltb (columns AuditRow).*1) as Hr by (vm_compute; reflexivity).
  assert ((to_object c).*1 = sort_by str_ltb (columns ControlRow).*1) as Hc by (vm_compute; reflexivity).
  rewrite Hr, Hc. split; [apply sort_by_perm|]. split; [apply sort_by_perm|].
  split; [|split; [|split; [|split]]]; decide_compute.
Qed.

(** The retention verdict is exact: with the boundary ninety days before
    the export was generated, a non-empty window is reported wholly expired
    exactly when every instant of it is older than the boundary, within
    retention exactly when none is, and partially expired exactly when some
    are and some are not. *)
Theorem retention_verdict_exact from to gen :
  (from < to)%Z -> (min_instant <= gen - 90 * nanos_per_day)%Z ->
  exists r b, retention_for from to gen = Some r
    /\ sr_boundary r = Some b /\ b = (gen - 90 * nanos_per_day)%Z
    /\ (sr_window_status r = WHOLLY_EXPIRED <-> forall t, (from <= t < to)%Z -> (t < b)%Z)
    /\ (sr_window_status r = WITHIN_RETENTION <-> forall t, (from <= t < to)%Z -> (b <= t)%Z)
    /\ (sr_window_status r = PARTIALLY_EXPIRED <->
         (exists t, from <= t < to /\ t < b)%Z /\ (exists t, from <= t < to /\ b <= t)%Z).
Proof.
  intros Hft Hmin. unfold retention_for, minus_days, SOURCE_TTL_DAYS.
  rewrite (proj2 (Z.leb_le _ _)) by done. cbn [mbind option_bind].
  set (b := (gen - 90 * nanos_per_day)%Z).
  destruct (Z.leb_spec to b); [|destruct (Z.ltb_spec from b)]; eexists _, b;
    (split; [done|]); cbn [sr_boundary sr_window_status]; do 2 (split; [done|]).
  - split; [split; [intros; lia|done]|]. split; [split; [done|intros Hx; specialize (Hx from); lia]|].
    split; [done|]. intros [_ (t & ? & ?)]. lia.
  - split; [split; [done|intros Hx; specialize (Hx (to - 1)%Z); lia]|].
    split; [split; [done|intros Hx; specialize (Hx from); lia]|].
    split; [intros _|done]. split; [exists from; lia|exists (to - 1)%Z; lia].
  - split; [split; [done|intros Hx; specialize (Hx from); lia]|].
    split; [split; [intros; lia|done]|]. split; [done|]. intros [(t & ? & ?) _]. lia.
Qed.
End render.
