(* ===== verification/AuditExportRuns.v ===== *)
(** * Concrete audit exports

    An [ExportEnv] whose codecs are the identity, whose digest pads to 32
    bytes, whose signature is a constant of the key, and whose manifests are
    serialised by an injective numbering; the properties of the export at
    small concrete exports. *)

From Stdlib Require Import SpecFloat.
From S2P Require Import Prelude Rstr Json Types Providers AuditTexts AuditExport AuditExportSpec.

(** ** Manifests are countable *)

#[export] Instance source_retention_eq_dec : EqDecision SourceRetention.
Proof. solve_decision. Defined.
#[export] Instance column_doc_eq_dec : EqDecision ColumnDoc.
Proof. solve_decision. Defined.
#[export] Instance page_entry_eq_dec : EqDecision PageEntry.
Proof. solve_decision. Defined.
#[export] Instance section_entry_eq_dec : EqDecision SectionEntry.
Proof. solve_decision. Defined.
#[export] Instance window_eq_dec : EqDecision Window.
Proof. solve_decision. Defined.
#[export] Instance manifest_eq_dec : EqDecision Manifest.
Proof. solve_decision. Defined.

#[export] Instance source_retention_countable : Countable SourceRetention.
Proof.
  refine (inj_countable'
    (fun r => (sr_source_table r, sr_store r, sr_section r, sr_ttl_days r, sr_boundary r,
               sr_window_status r, sr_detail r, sr_excluded_rows r, sr_excluded_reason r))
    (fun '(a, b, c, d, e, f, g, h, i) => Build_SourceRetention a b c d e f g h i) _).
  by intros [].
Defined.
#[export] Instance column_doc_countable : Countable ColumnDoc.
Proof.
  refine (inj_countable' (fun c => (cd_name c, cd_meaning c)) (fun '(a, b) => Build_ColumnDoc a b) _).
  by intros [].
Defined.
#[export] Instance page_entry_countable : Countable PageEntry.
Proof.
  refine (inj_countable' (fun p => (pe_page p, pe_section p, pe_rows p, pe_sha256 p, pe_chain p))
    (fun '(a, b, c, d, e) => Build_PageEntry a b c d e) _).
  by intros [].
Defined.
#[export] Instance section_entry_countable : Countable SectionEntry.
Proof.
  refine (inj_countable'
    (fun s => (se_section s, se_plane s, se_description s, se_first_page s, se_last_page s,
               se_pages s, se_rows s, se_columns s, se_coverage s, se_sources s))
    (fun '(a, b, c, d, e, f, g, h, i, j) => Build_SectionEntry a b c d e f g h i j) _).
  by intros [].
Defined.
#[export] Instance window_countable : Countable Window.
Proof.
  refine (inj_countable' (fun w => (w_from w, w_to w, w_interpretation w))
    (fun '(a, b, c) => Build_Window a b c) _).
  by intros [].
Defined.
#[export] Instance manifest_countable : Countable Manifest.
Proof.
  refine (inj_countable'
    (fun m => (schema_version m, m_export_id m, m_workspace_id m, m_window m, m_format m,
               m_page_size m, m_total_rows m, m_total_pages m,
               (m_chain_genesis m, m_chain_root m, m_sections m, m_pages m, m_coverage m,
                m_signing_key_id m, m_generated_at m, m_verification m)))
    (fun '(a, b, c, d, e, f, g, h, (i, j, k, l, n, o, p, q)) =>
       Build_Manifest a b c d e f g h i j k l n o p q) _).
  by intros [].
Defined.

(** ** The environment *)

(** A positive as the bytes "0" and "1" of its binary digits. *)
Fixpoint bits_of (p : positive) : str :=
  match p with
  | xH => []
  | xO p' => "0"%char :: bits_of p'
  | xI p' => "1"%char :: bits_of p'
  end.

Fixpoint of_bits (s : str) : option positive :=
  match s with
  | [] => Some 1%positive
  | c :: s' =>
    p ← of_bits s';
    if decide (c = "0"%char) then Some (xO p)
    else if decide (c = "1"%char) then Some (xI p) else None
  end.

Lemma of_bits_of p : of_bits (bits_of p) = Some p.
Proof. induction p as [p IH|p IH|]; simpl; rewrite ?IH; done. Qed.

#[export] Instance manifest_typed_dec m : Decision (manifest_typed m).
Proof. unfold manifest_typed. apply _. Defined.

Definition demo_text (m : Manifest) : option str :=
  if decide (manifest_typed m) then Some (bits_of (encode m)) else None.
Definition demo_read (s : str) : option Manifest :=
  m ← of_bits s ≫= decode; if decide (manifest_typed m) then Some m else None.

Definition pad32 (b : str) : str := take 32 (b ++ repeat "0"%char 32).
Lemma pad32_length b : length (pad32 b) = 32.
Proof. unfold pad32. rewrite length_take, length_app, repeat_length. lia. Qed.

Definition demo_env : ExportEnv := {|
  sha256 := pad32;
  sha256_len := pad32_length;
  hex_encode b := b;
  hex_decode := Some;
  b64_encode b := b;
  b64_decode := Some;
  SigningKey := unit;
  VerifyingKey := unit;
  signing_key_from_bytes _ := tt;
  verifying_key _ := tt;
  vk_to_bytes _ := repeat "k"%char 32;
  vk_from_bytes _ := Some tt;
  ed_sign _ _ := repeat "s"%char 64;
  ed_verify _ _ s := bool_decide (s = repeat "s"%char 64);
  value_to_string _ := $"{}";
  number_to_string _ := $"0";
  value_from_str s :=
    m ← demo_read s; Some (Object [($"schema_version", Number (PosInt (schema_version m)))]);
  manifest_to_string := demo_text;
  manifest_from_str := demo_read;
  instant_text _ := $"t";
  instant_to_string _ := Some $"t";
  to_rfc3339 _ := $"t";
  min_instant := (-9000000000000000000)%Z;
|}.

Lemma demo_read_text m s : demo_text m = Some s -> demo_read s = Some m.
Proof.
  unfold demo_text, demo_read. case_decide as Ht; [|done]. intros [= <-].
  rewrite of_bits_of. cbn [mbind option_bind]. rewrite decode_encode. cbn [mbind option_bind].
  by rewrite decide_True.
Qed.

#[export] Instance demo_laws : @ExportLaws demo_env.
Proof.
  split; try done.
  - exact demo_read_text.
  - intros m s Hs. eexists. cbn. rewrite (demo_read_text _ _ Hs). done.
Qed.

Lemma demo_typed s m : @manifest_from_str demo_env s = Some m -> manifest_typed m.
Proof.
  cbn. unfold demo_read. intros (m' & _ & Hm)%bind_Some. case_decide; by simplify_eq.
Qed.

Lemma demo_instants t : LF ∉ @manifest_instant demo_env t.
Proof. vm_compute. intros Hin. inversion Hin as [|? ? ? Hin']; subst. inversion Hin'. Qed.

(** ** A two-page export *)

Definition demo_inputs : list SectionInput :=
  [request_section [$"requests"] [2%N] []; control_section [$"actions"] [0%N] []].

Definition demo_pages : list str := concat (si_pages <$> demo_inputs).

Definition demo_manifest : Manifest := @built_manifest demo_env 7 8 100 200 Csv 500 demo_inputs 300 tt.
Definition demo_json : str := bits_of (encode demo_manifest).

Lemma demo_inputs_ok : Forall input_ok demo_inputs.
Proof. repeat constructor; done. Qed.

Lemma demo_all_pages_ok : pages_ok (all_pages demo_inputs).
Proof. split; [repeat constructor|done]. Qed.

Lemma demo_serialised : @manifest_to_string demo_env demo_manifest = Some demo_json.
Proof.
  change (demo_text demo_manifest = Some demo_json). unfold demo_text, demo_json.
  rewrite decide_True; [reflexivity|].
  exact (@built_manifest_typed demo_env 7 8 100 200 Csv 500 demo_inputs 300 tt demo_all_pages_ok).
Qed.

Lemma demo_valid :
  @valid_export demo_env demo_json (repeat "s"%char 64) (repeat "k"%char 32) demo_pages demo_manifest.
Proof.
  exact (@built_manifest_valid demo_env demo_laws 7 8 100 200 Csv 500 demo_inputs 300 tt demo_json
    eq_refl demo_inputs_ok demo_all_pages_ok demo_serialised).
Qed.

Lemma demo_verifies :
  @verify_export demo_env demo_json (repeat "s"%char 64) (repeat "k"%char 32) demo_pages
  = Ok demo_manifest.
Proof.
  apply (@valid_export_verifies demo_env demo_laws); [exact demo_valid| |done].
  exact (@built_manifest_typed demo_env 7 8 100 200 Csv 500 demo_inputs 300 tt demo_all_pages_ok).
Qed.

Lemma export_verifies_witness :
  exists x m,
    @build_manifest demo_env 7 8 100 200 Csv 500 demo_inputs 300 tt = Ok x
    /\ @verify_export demo_env (x_manifest_json x) (x_signature_b64 x) (x_public_key_b64 x)
         demo_pages = Ok m
    /\ m_total_rows m = 2%N.
Proof.
  destruct (@export_verifies demo_env demo_laws 7 8 100 200 Csv 500 demo_inputs 300 tt)
    as (x & m & Hb & Hv & _ & _ & _ & _ & _ & _ & Hr & _).
  - reflexivity.
  - exact demo_inputs_ok.
  - repeat constructor.
  - reflexivity.
  - intros m Hm. cbn. unfold demo_text. rewrite decide_True by exact Hm. eexists. reflexivity.
  - exists x, m. split; [exact Hb|]. split; [exact Hv|]. rewrite Hr. reflexivity.
Defined.

Lemma verify_export_exact_witness :
  @verify_export demo_env demo_json (repeat "s"%char 64) (repeat "k"%char 32) demo_pages
    = Ok demo_manifest
  <-> @valid_export demo_env demo_json (repeat "s"%char 64) (repeat "k"%char 32) demo_pages
        demo_manifest.
Proof.
  apply (@verify_export_exact demo_env demo_laws); [exact demo_typed|reflexivity].
Defined.

Lemma chain_root_identifies_witness : @sha256_collision demo_env \/ demo_pages = demo_pages.
Proof.
  destruct (@chain_root_identifies demo_env demo_laws
    demo_json (repeat "s"%char 64) (repeat "k"%char 32) demo_pages demo_manifest
    demo_json (repeat "s"%char 64) (repeat "k"%char 32) demo_pages demo_manifest) as [Hc|[Hp _]].
  - exact demo_instants.
  - reflexivity.
  - reflexivity.
  - reflexivity.
  - reflexivity.
  - reflexivity.
  - reflexivity.
  - exact demo_verifies.
  - exact demo_verifies.
  - reflexivity.
  - left. exact Hc.
  - right. exact Hp.
Defined.

Lemma verify_export_never_panics_witness :
  @verify_export demo_env $"0110" [] [] [$"page"] <> Panic.
Proof.
  apply (@verify_export_never_panics demo_env); [exact demo_typed|].
  apply (bool_decide_unpack _). vm_compute. exact I.
Defined.

(** ** Pages and retention *)

Definition demo_row : AuditRow := {|
  ar_request_id := 1; ar_workspace_id := 8; ar_created_at := 150; ar_provider := $"echo";
  ar_model := [dquote; ","%char; LF]; ar_final_action := $"allow"; ar_input_tokens := None;
  ar_output_tokens := Some 3%N; ar_estimated_usage := false; ar_cost_usd := S754_zero false;
  ar_user_id := None; ar_api_key_id := None; ar_api_key_name := Some []; ar_ip_address := None;
  ar_user_agent := None; ar_floor_only := true; ar_engines := [] |}.

Lemma csv_page_roundtrip_witness :
  read_csv (@render_page demo_env AuditRow (@audit_row_export demo_env) [demo_row] Csv)
  = Some [(fun col => Some col.1) <$> REQUEST_COLUMNS;
          @row_cells demo_env AuditRow (@audit_row_export demo_env) demo_row].
Proof.
  apply (@csv_page_roundtrip demo_env AuditRow (@audit_row_export demo_env) [demo_row]). discriminate.
Defined.

Lemma retention_verdict_exact_witness :
  exists r, @retention_for demo_env 0 10 (91 * nanos_per_day) = Some r
    /\ sr_window_status r = WHOLLY_EXPIRED.
Proof.
  destruct (@retention_verdict_exact demo_env 0 10 (91 * nanos_per_day))
    as (r & b & Hr & _ & Hb & [_ Hw] & _); [reflexivity|discriminate|].
  exists r. split; [exact Hr|]. apply Hw. unfold nanos_per_day in *. lia.
Defined.
