(* ===== verification/Roles.v ===== *)
(** * Roles and privilege

    [UserRole] of http/middleware/jwt_auth.rs and the privilege ladder of
    http/routes/dashboard/role.rs. *)

From S2P Require Import Prelude Rstr Types.

Inductive UserRole : Type := Owner | Admin | Developer | Employee | Viewer.

#[export] Instance user_role_eq_dec : EqDecision UserRole.
Proof. solve_decision. Defined.

Definition role_as_db_str (r : UserRole) : str :=
  match r with
  | Owner => $"owner"
  | Admin => $"admin"
  | Developer => $"developer"
  | Employee => $"employee"
  | Viewer => $"viewer"
  end.

(** Rows written before migration 005 say [member]. *)
Definition role_from_db_str (value : str) : result UserRole :=
  if decide (value = $"owner") then Ok Owner
  else if decide (value = $"admin") then Ok Admin
  else if decide (value = $"developer") then Ok Developer
  else if decide (value = $"employee") then Ok Employee
  else if decide (value = $"member") then Ok Developer
  else if decide (value = $"viewer") then Ok Viewer
  else Err (Internal ($"unknown role: " ++ value)).

Definition can_write (r : UserRole) : bool :=
  match r with Owner | Admin => true | _ => false end.

Definition can_read_all_audit (r : UserRole) : bool :=
  match r with Owner | Admin | Developer => true | _ => false end.

Definition privilege_level (r : UserRole) : N :=
  match r with
  | Owner => 4
  | Admin => 3
  | Developer => 2
  | Employee | Viewer => 1
  end.

Definition require_role (role minimum : UserRole) : result unit :=
  if (privilege_level minimum <=? privilege_level role)%N then Ok tt
  else Err (Forbidden $"insufficient role").

(** A stored role reads back as itself. *)
Lemma role_roundtrip r : role_from_db_str (role_as_db_str r) = Ok r.
Proof. by destruct r. Qed.

(** Only the two administrative roles pass an [Admin] gate. *)
Lemma require_admin r : require_role r Admin = Ok tt <-> can_write r = true.
Proof. destruct r; vm_compute; split; congruence. Qed.
