(* ===== verification/License.v ===== *)
(** * Licensing

    license/mod.rs, license/freshness.rs, license/freshness_store.rs,
    license/revocation.rs, db/license_repo.rs, http/routes/license.rs,
    http/middleware/license_gate.rs and the re-verification task of main.rs.

    The vendor crate [sp_license] (tokens, assertions, key wrapping), base64,
    Ed25519, chrono's parser and UUID parsing are the class [LicenseEnv].
    Instants are epoch seconds in [Z].  The process is a step function over
    its shared state ([System]): the poller's ticks and replies, the periodic
    re-verification and the administrator's calls are events, and any
    interleaving of them is a list of events. *)

From S2P Require Import Prelude Rstr Json Types Sidecar Roles.

(** ** The vendor's token *)

Record License : Type := {
  lic_lic_id : str;
  lic_customer_name : str;
  lic_seats : N;
  lic_features : list str;
  lic_not_before : str;
  lic_expires_at : str;
  lic_revalidate_soft_secs : option Z;
  lic_revalidate_hard_secs : option Z;
  lic_wrapped_key : str;
  lic_wrapped_attestation_key : str;
  lic_image_digests : gmap str str;
}.

Record FreshnessAssertion : Type := { fa_status : str; fa_issued_at : str }.

Class LicenseEnv := {
  vendor_vk : Type;
  vk_of_bytes : str -> option vendor_vk;
  lic_b64_decode : str -> option str;
  decode_verified_token : str -> vendor_vk -> option License;
  parse_rfc3339 : str -> option Z;
  (** [chrono::DateTime::parse_from_rfc3339(..).timestamp()] *)
  chrono_rfc3339 : str -> option Z;
  assertion_from_value : Value -> option FreshnessAssertion;
  verify_assertion : vendor_vk -> FreshnessAssertion -> str -> bool;
  parse_uuid : str -> option Uuid;
  attest_key : Type;
  unwrap_key_with_aad : str -> str -> str -> option str;
  attest_key_from_bytes : str -> attest_key;
}.

(** ** Offline staleness ([license/freshness.rs]) *)

Inductive OfflineVerdict : Type := Fresh | SoftStale | HardStale.

#[export] Instance offline_verdict_eq_dec : EqDecision OfflineVerdict.
Proof. solve_decision. Defined.

Definition classify_offline (now highwater last_assertion_at not_before : Z)
    (soft hard : option Z) : OfflineVerdict :=
  match soft, hard with
  | Some soft, Some hard =>
    let perceived_now := Z.max now highwater in
    let last_good := Z.max last_assertion_at not_before in
    let offline := Z.max (i64_wrap (perceived_now - last_good)) 0 in
    if (hard <? offline)%Z then HardStale
    else if (soft <? offline)%Z then SoftStale
    else Fresh
  | _, _ => Fresh
  end.

(** ** Snapshots and the shared state ([license/mod.rs]) *)

Inductive LicenseStatus : Type := Valid | Grace | Unlicensed | Revoked.

#[export] Instance license_status_eq_dec : EqDecision LicenseStatus.
Proof. solve_decision. Defined.

Record LicenseSnapshot : Type := {
  status : LicenseStatus;
  snap_max_seats : option N;
  snap_features : list str;
  customer_name : option str;
  expires_at : option str;
  wrapped_model_key : option str;
  lic_id : option str;
  wrapped_attestation_key : option str;
  image_digests : gmap str str;
  revalidate_soft_secs : option Z;
  revalidate_hard_secs : option Z;
  not_before_epoch : option Z;
}.

Definition unlicensed : LicenseSnapshot := {|
  status := Unlicensed;
  snap_max_seats := None;
  snap_features := [];
  customer_name := None;
  expires_at := None;
  wrapped_model_key := None;
  lic_id := None;
  wrapped_attestation_key := None;
  image_digests := ∅;
  revalidate_soft_secs := None;
  revalidate_hard_secs := None;
  not_before_epoch := None;
|}.

Record LicenseState : Type := {
  inner : LicenseSnapshot;
  revoked : bool;
  revoked_lic_id : option str;
  last_assertion_at : Z;
  highwater_at : Z;
}.

Definition state_new (s : LicenseSnapshot) : LicenseState := {|
  inner := s; revoked := false; revoked_lic_id := None; last_assertion_at := 0; highwater_at := 0;
|}.

Definition snapshot (st : LicenseState) : LicenseSnapshot := inner st.

Definition state_set (st : LicenseState) (s : LicenseSnapshot) : LicenseState := {|
  inner := s;
  revoked := revoked st;
  revoked_lic_id := revoked_lic_id st;
  last_assertion_at := last_assertion_at st;
  highwater_at := highwater_at st;
|}.

Definition mark_revoked (st : LicenseState) (id : str) : LicenseState := {|
  inner := inner st;
  revoked := true;
  revoked_lic_id := Some id;
  last_assertion_at := last_assertion_at st;
  highwater_at := highwater_at st;
|}.

Definition is_revoked (st : LicenseState) : bool := revoked st.

Definition clear_revocation_if_superseded (st : LicenseState) (new_lic_id : str)
    : bool * LicenseState :=
  if negb (is_revoked st) then (false, st)
  else match revoked_lic_id st with
  | None => (false, st)
  | Some r =>
    if decide (r = new_lic_id) then (false, st)
    else (true, {|
      inner := inner st;
      revoked := false;
      revoked_lic_id := None;
      last_assertion_at := last_assertion_at st;
      highwater_at := highwater_at st |})
  end.

(** [bump_max] run without interference: the loop's first exchange succeeds. *)
Definition bump_max (cell v : Z) : Z := if (cell <? v)%Z then v else cell.

Definition observe_freshness (st : LicenseState) (last hw : Z) : LicenseState := {|
  inner := inner st;
  revoked := revoked st;
  revoked_lic_id := revoked_lic_id st;
  last_assertion_at := bump_max (last_assertion_at st) last;
  highwater_at := bump_max (highwater_at st) hw;
|}.

Definition observe_clock (st : LicenseState) (now : Z) : LicenseState := {|
  inner := inner st;
  revoked := revoked st;
  revoked_lic_id := revoked_lic_id st;
  last_assertion_at := last_assertion_at st;
  highwater_at := bump_max (highwater_at st) now;
|}.

Definition offline_verdict_at (st : LicenseState) (s : LicenseSnapshot) (now : Z) : OfflineVerdict :=
  classify_offline now (highwater_at st) (last_assertion_at st)
    (default 0%Z (not_before_epoch s)) (revalidate_soft_secs s) (revalidate_hard_secs s).

Definition effective_status (st : LicenseState) (now : Z) : LicenseStatus :=
  if is_revoked st then Revoked
  else
    let s := snapshot st in
    match status s with
    | Valid =>
      match offline_verdict_at st s now with
      | Fresh => Valid
      | SoftStale => Unlicensed
      | HardStale => Revoked
      end
    | other => other
    end.

Definition is_hard_stale (st : LicenseState) (now : Z) : bool :=
  if is_revoked st then false
  else
    let s := snapshot st in
    bool_decide (status s = Valid) && bool_decide (offline_verdict_at st s now = HardStale).

Definition raw_status (st : LicenseState) : LicenseStatus :=
  if is_revoked st then Revoked else status (snapshot st).

Definition max_seats (st : LicenseState) (now : Z) : option N :=
  match effective_status st now with Valid => snap_max_seats (snapshot st) | _ => None end.

Definition is_feature_enabled (st : LicenseState) (f : str) (now : Z) : bool :=
  match effective_status st now with
  | Valid => existsb (fun x => bool_decide (x = f)) (snap_features (snapshot st))
  | Grace | Unlicensed => true
  | Revoked => false
  end.

Definition tamper_check (pins : gmap str str) (component actual_digest : str) : option str :=
  if decide (actual_digest = []) then None
  else match pins !! component with
  | Some expected =>
    if decide (expected <> [] /\ expected <> actual_digest)
    then Some ($"image digest mismatch for " ++ component ++ $": licensed " ++ expected
               ++ $", running " ++ actual_digest)
    else None
  | None => None
  end.

Definition tamper_flags (st : LicenseState) (component actual : str) : list str :=
  match tamper_check (image_digests (snapshot st)) component actual with
  | Some f => [f]
  | None => []
  end.

(** [bump_max] under interference, one atomic operation at a time. *)
Inductive bump_pc : Type := BumpLoad | BumpLoop (cur : Z) | BumpDone.

Definition bump_tick (cell v : Z) (pc : bump_pc) : Z * bump_pc :=
  match pc with
  | BumpLoad => (cell, BumpLoop cell)
  | BumpLoop cur =>
    if (cur <? v)%Z then
      if (cell =? cur)%Z then (v, BumpDone)   (* compare_exchange succeeded *)
      else (cell, BumpLoop cell)              (* Err(actual) *)
    else (cell, BumpDone)
  | BumpDone => (cell, BumpDone)
  end.

Section license.
Context `{LicenseEnv}.

Definition snapshot_from (lic : License) (st : LicenseStatus) : LicenseSnapshot :=
  let valid := bool_decide (st = Valid) in {|
  status := st;
  snap_max_seats := Some (lic_seats lic);
  snap_features := lic_features lic;
  customer_name := Some (lic_customer_name lic);
  expires_at := Some (lic_expires_at lic);
  wrapped_model_key := if valid then Some (lic_wrapped_key lic) else None;
  lic_id := if valid then Some (lic_lic_id lic) else None;
  wrapped_attestation_key := if valid then Some (lic_wrapped_attestation_key lic) else None;
  image_digests := if valid then lic_image_digests lic else ∅;
  revalidate_soft_secs := i64_wrap <$> lic_revalidate_soft_secs lic;
  revalidate_hard_secs := i64_wrap <$> lic_revalidate_hard_secs lic;
  not_before_epoch := parse_rfc3339 (lic_not_before lic);
|}.

Definition unwrap_attestation_key (st : LicenseState) (kek : str) (now : Z) : option attest_key :=
  if decide (effective_status st now = Valid) then
    let s := snapshot st in
    wrapped ← wrapped_attestation_key s;
    id ← lic_id s;
    bytes ← unwrap_key_with_aad kek wrapped (id ++ $":attest");
    if decide (length bytes = 32) then Some (attest_key_from_bytes bytes) else None
  else None.

Definition parse_vendor_key (b64 : str) : option vendor_vk :=
  bytes ← lic_b64_decode (trim b64);
  if decide (length bytes = 32) then vk_of_bytes bytes else None.

Definition parse_kek (b64 : str) : option str :=
  bytes ← lic_b64_decode (trim b64);
  if decide (length bytes = 32) then Some bytes else None.

(** [pinned] is the build-time variable, if set. *)
Definition effective_vendor_pubkey (pinned : option str) (runtime_b64 : str) : str :=
  default runtime_b64 pinned.

(** [row] is the answer of [license_repo::get]. *)
Definition resolve_active_token (row : outcome unit (option str)) (env_token : str) : str :=
  match row with
  | Ok (Some token) => token
  | _ => env_token
  end.

Definition load_and_verify_token (token : str) (vk : vendor_vk) (now_epoch : Z) : LicenseSnapshot :=
  let trimmed := trim token in
  if decide (trimmed = []) then unlicensed
  else match decode_verified_token trimmed vk with
  | None => unlicensed
  | Some lic =>
    match parse_rfc3339 (lic_not_before lic), parse_rfc3339 (lic_expires_at lic) with
    | Some nb, Some exp =>
      if (nb <=? now_epoch)%Z && (now_epoch <=? exp)%Z then snapshot_from lic Valid
      else snapshot_from lic Grace
    | _, _ => unlicensed
    end
  end.

(** ** Freshness rows ([license/freshness_store.rs])

    The table maps a license UUID to [(last_assertion_at, highwater_at)].
    Epoch seconds pass through [f64] exactly at these magnitudes. *)

Abbreviation freshness_table := (gmap Uuid (Z * Z)).

Definition freshness_load (db : freshness_table) (id : str) : option (Z * Z) :=
  u ← parse_uuid id; db !! u.

Definition freshness_record (db : freshness_table) (id : str) (observed_assertion_at : option Z)
    (system_now : Z) : freshness_table :=
  match parse_uuid id with
  | None => db
  | Some u =>
    let assertion := default 0%Z observed_assertion_at in
    let hw_seed := Z.max assertion system_now in
    match db !! u with
    | None => <[u := (assertion, hw_seed)]> db
    | Some (l, h) => <[u := (Z.max l assertion, Z.max h hw_seed)]> db
    end
  end.

(** ** Revocation checks ([license/revocation.rs]) *)

Inductive RevocationVerdict : Type := VActive | VRevoked | VUnknown.

#[export] Instance revocation_verdict_eq_dec : EqDecision RevocationVerdict.
Proof. solve_decision. Defined.

(** What the GET came back with: no response, a status code, and a body if it
    parsed. *)
Inductive vendor_reply : Type :=
  | Unreachable
  | Reply (success : bool) (body : option Value).

Definition check (reply : vendor_reply) (vk : vendor_vk) : RevocationVerdict * option Z :=
  match reply with
  | Unreachable => (VUnknown, None)
  | Reply false _ => (VUnknown, None)
  | Reply true None => (VUnknown, None)
  | Reply true (Some body) =>
    match get body $"assertion", get body $"sig" ≫= as_str with
    | Some av, Some sig_str =>
      match assertion_from_value av with
      | None => (VUnknown, None)
      | Some assertion =>
        if negb (verify_assertion vk assertion sig_str) then (VUnknown, None)
        else if decide (fa_status assertion = $"revoked") then (VRevoked, None)
        else
          let issued_epoch :=
            match chrono_rfc3339 (fa_issued_at assertion) with
            | Some t => Some t
            | None => parse_rfc3339 (fa_issued_at assertion)
            end in
          match issued_epoch with
          | Some epoch => (VActive, Some epoch)
          | None => (VUnknown, None)
          end
      end
    | _, _ =>
      match get body $"status" ≫= as_str with
      | Some s => if decide (s = $"revoked") then (VRevoked, None) else (VActive, None)
      | None => (VUnknown, None)
      end
    end
  end.

Definition verdict_from_status (s : option str) : RevocationVerdict :=
  match s with
  | Some s => if decide (s = $"revoked") then VRevoked else VActive
  | None => VUnknown
  end.

Inductive IdleReason : Type := AlreadyRevoked | NoLicenseId.
Inductive PollTick : Type := Idle (r : IdleReason) | Check (id : str).

Definition poll_tick (rev : bool) (id : option str) : PollTick :=
  if rev then Idle AlreadyRevoked
  else match id with Some i => Check i | None => Idle NoLicenseId end.

Inductive VerdictAction : Type := MarkRevoked | RecordFreshness (at_ : option Z).

Definition verdict_action (v : RevocationVerdict) (issued_at : option Z) : VerdictAction :=
  match v with
  | VRevoked => MarkRevoked
  | VActive => RecordFreshness issued_at
  | VUnknown => RecordFreshness None
  end.

(** ** The process as a transition system *)

(** Where [run_poller] is: before its next tick, or waiting for the vendor's
    answer about a license. *)
Inductive poller_pc : Type := PollWait | PollAsked (id : str).

(** The [admin_audit] rows the license routes write. *)
Inductive license_audit : Type :=
  | AuditActivated (label : option str) (status : str) (expires_at : option str)
      (feature_count : nat) (source_before source_after : str)
  | AuditCleared (label : option str) (status_after source_after : str).

(** The process state, the two tables and the audit rows, and the wrapped
    model keys relayed to the sidecar with their license. *)
Record System : Type := {
  lstate : LicenseState;
  activation : option str;
  freshness : freshness_table;
  poller : poller_pc;
  audit : list license_audit;
  relayed : list (str * str);
}.

Definition with_state (s : System) (st : LicenseState) : System := {|
  lstate := st; activation := activation s; freshness := freshness s; poller := poller s;
  audit := audit s; relayed := relayed s |}.

(** The deployment's token and the secret shared with the sidecar. *)
Record LicenseConfig : Type := { cfg_license_token : str; cfg_internal_token : str }.

(** [LiveDeps::record_freshness]: the write's error is ignored; [None] when
    the read fails or finds nothing. *)
Definition record_freshness (db : freshness_table) (id : str) (assertion_at : option Z) (now : Z)
    (write_ok read_ok : bool) : freshness_table * option (Z * Z) :=
  let db' := if write_ok then freshness_record db id assertion_at now else db in
  (db', if read_ok then freshness_load db' id else None).

(** The top of the loop of [run_poller], up to [check_status]. *)
Definition poller_begin (s : System) : System :=
  match poll_tick (is_revoked (lstate s)) (lic_id (snapshot (lstate s))) with
  | Idle _ => s
  | Check id => {|
      lstate := lstate s; activation := activation s; freshness := freshness s;
      poller := PollAsked id; audit := audit s; relayed := relayed s |}
  end.

(** The rest of the loop's body, once the vendor has answered. *)
Definition poller_reply (s : System) (vk : vendor_vk) (reply : vendor_reply) (now : Z)
    (write_ok read_ok : bool) : System :=
  match poller s with
  | PollWait => s
  | PollAsked id =>
    let '(verdict, issued_at) := check reply vk in
    match verdict_action verdict issued_at with
    | MarkRevoked => {|
        lstate := mark_revoked (lstate s) id; activation := activation s;
        freshness := freshness s; poller := PollWait; audit := audit s; relayed := relayed s |}
    | RecordFreshness assertion_at =>
      let '(db', row) := record_freshness (freshness s) id assertion_at now write_ok read_ok in {|
        lstate := match row with
                  | Some (last, hw) => observe_freshness (lstate s) last hw
                  | None => lstate s
                  end;
        activation := activation s; freshness := db'; poller := PollWait;
        audit := audit s; relayed := relayed s |}
    end
  end.

(** [best_effort_push]: relay the wrapped key, if there is one and the two
    services share a secret; errors are ignored. *)
Definition best_effort_push (cfg : LicenseConfig) (st : LicenseState) : list (str * str) :=
  if decide (cfg_internal_token cfg = []) then []
  else match wrapped_model_key (snapshot st), lic_id (snapshot st) with
  | Some w, Some lic => [(w, lic)]
  | _, _ => []
  end.

(** One turn of the re-verification task of main.rs: [read_row] is whether the
    activation row could be read. *)
Definition recheck (s : System) (cfg : LicenseConfig) (vk : vendor_vk) (now now' : Z)
    (read_row write_ok read_ok : bool) : System :=
  let row := if read_row then Ok (activation s) else Err tt in
  let token := resolve_active_token row (cfg_license_token cfg) in
  let st := state_set (lstate s) (load_and_verify_token token vk now) in
  let '(db', st') :=
    match lic_id (snapshot st) with
    | Some id =>
      let '(db', r) := record_freshness (freshness s) id None now' write_ok read_ok in
      (db', match r with Some (last, hw) => observe_freshness st last hw | None => st end)
    | None => (freshness s, st)
    end in
  let st'' := observe_clock st' now' in {|
    lstate := st''; activation := activation s; freshness := db'; poller := poller s;
    audit := audit s; relayed := relayed s ++ best_effort_push cfg st'' |}.

(** ** The routes ([http/routes/license.rs]) *)

(** [row] is the answer of [license_repo::get]. *)
Definition resolve_source (row : outcome unit (option str)) (cfg : LicenseConfig) : str :=
  match row with
  | Ok (Some _) => $"db"
  | _ => if decide (cfg_license_token cfg = []) then $"none" else $"env"
  end.

Definition status_str (st : LicenseStatus) : str :=
  match st with
  | Valid => $"Valid"
  | Grace => $"Grace"
  | Unlicensed => $"Unlicensed"
  | Revoked => $"Revoked"
  end.

Record LicenseStatusResponse : Type := {
  lr_customer_name : option str;
  lr_lic_id : option str;
  lr_expires_at : option str;
  lr_features : list str;
  lr_status : str;
  lr_source : str;
}.

Definition build_response (st : LicenseState) (now : Z) (source : str) : LicenseStatusResponse :=
  let snap := snapshot st in {|
  lr_customer_name := customer_name snap;
  lr_lic_id := lic_id snap;
  lr_expires_at := expires_at snap;
  lr_features := snap_features snap;
  lr_status := status_str (effective_status st now);
  lr_source := source;
|}.

(** What the database answers a read of the activation row. *)
Definition read_activation (s : System) (ok : bool) : outcome unit (option str) :=
  if ok then Ok (activation s) else Err tt.

Definition get_license (s : System) (cfg : LicenseConfig) (role : UserRole) (now : Z) (read_row : bool)
    : result LicenseStatusResponse :=
  obind (require_role role Admin) (fun _ =>
  Ok (build_response (lstate s) now (resolve_source (read_activation s read_row) cfg))).

(** [PUT /v1/license]; [write_ok] is whether the audited upsert committed, the
    two reads of the activation row answer [read_before] and [read_after]. *)
Definition activate_license (s : System) (cfg : LicenseConfig) (role : UserRole)
    (vk : option vendor_vk) (token : str) (now : Z) (read_before write_ok read_after : bool)
    : result LicenseStatusResponse * System :=
  match require_role role Admin with
  | Ok _ =>
    match vk with
    | None => (Err (Internal $"vendor public key is not configured or invalid"), s)
    | Some vk =>
      match decode_verified_token (trim token) vk with
      | None => (Err (BadRequest $"invalid license signature"), s)
      | Some _ =>
        let snap := load_and_verify_token (trim token) vk now in
        let source_before := resolve_source (read_activation s read_before) cfg in
        let entry := AuditActivated (lic_id snap) (status_str (status snap)) (expires_at snap)
                       (length (snap_features snap)) source_before $"db" in
        if negb write_ok then (Err (Database []), s)
        else
          let st := state_set (lstate s) snap in
          let st' := match lic_id snap with
                     | Some id => (clear_revocation_if_superseded st id).2
                     | None => st
                     end in
          let s' := {| lstate := st'; activation := Some (trim token);
                       freshness := freshness s; poller := poller s;
                       audit := audit s ++ [entry];
                       relayed := relayed s ++ best_effort_push cfg st' |} in
          (Ok (build_response st' now (resolve_source (read_activation s' read_after) cfg)), s')
      end
    end
  | Err e => (Err e, s)
  | Panic => (Panic, s)
  end.

(** [DELETE /v1/license] *)
Definition delete_license (s : System) (cfg : LicenseConfig) (role : UserRole)
    (vk : option vendor_vk) (now : Z) (write_ok read_row read_after : bool)
    : result LicenseStatusResponse * System :=
  match require_role role Admin with
  | Ok _ =>
    let verify token := match vk with
                        | Some vk => load_and_verify_token token vk now
                        | None => unlicensed
                        end in
    let source_after := if decide (cfg_license_token cfg = []) then $"none" else $"env" in
    let entry := AuditCleared (lic_id (snapshot (lstate s)))
                   (status_str (status (verify (cfg_license_token cfg)))) source_after in
    if negb write_ok then (Err (Database []), s)
    else
      let s1 := {| lstate := lstate s; activation := None; freshness := freshness s;
                   poller := poller s; audit := audit s ++ [entry]; relayed := relayed s |} in
      let token := resolve_active_token (read_activation s1 read_row) (cfg_license_token cfg) in
      let st := state_set (lstate s) (verify token) in
      let s' := {| lstate := st; activation := None; freshness := freshness s;
                   poller := poller s; audit := audit s1;
                   relayed := relayed s ++ best_effort_push cfg st |} in
      (Ok (build_response st now (resolve_source (read_activation s' read_after) cfg)), s')
  | Err e => (Err e, s)
  | Panic => (Panic, s)
  end.

(** What can happen next, with the outside world's answers. *)
Inductive event : Type :=
  | EvPollBegin
  | EvPollReply (reply : vendor_reply) (now : Z) (write_ok read_ok : bool)
  | EvRecheck (now now' : Z) (read_row write_ok read_ok : bool)
  | EvActivate (role : UserRole) (token : str) (now : Z) (read_before write_ok read_after : bool)
  | EvDelete (role : UserRole) (now : Z) (write_ok read_row read_after : bool).

Definition step (vk : vendor_vk) (cfg : LicenseConfig) (s : System) (e : event) : System :=
  match e with
  | EvPollBegin => poller_begin s
  | EvPollReply reply now w r => poller_reply s vk reply now w r
  | EvRecheck now now' rr w r => recheck s cfg vk now now' rr w r
  | EvActivate role token now rb w ra => (activate_license s cfg role (Some vk) token now rb w ra).2
  | EvDelete role now w rr ra => (delete_license s cfg role (Some vk) now w rr ra).2
  end.

Definition run (vk : vendor_vk) (cfg : LicenseConfig) (s : System) (es : list event) : System :=
  fold_left (step vk cfg) es s.

(** The state main.rs starts from: the resolved token verified, the persisted
    freshness row observed.  (The relay of the model key at startup retries in
    a task of its own and changes nothing here.) *)
Definition boot (vk : vendor_vk) (cfg : LicenseConfig) (row : option str) (db : freshness_table)
    (now : Z) (read_row read_fresh : bool) : System :=
  let token := resolve_active_token (if read_row then Ok row else Err tt) (cfg_license_token cfg) in
  let st := state_new (load_and_verify_token token vk now) in
  let st' := match lic_id (snapshot st) with
             | Some id =>
               match (if read_fresh then freshness_load db id else None) with
               | Some (last, hw) => observe_freshness st last hw
               | None => st
               end
             | None => st
             end in
  {| lstate := st'; activation := row; freshness := db; poller := PollWait; audit := [];
     relayed := [] |}.
End license.

(** ** The gate ([http/middleware/license_gate.rs]) *)

Inductive LicenseOutage : Type := OutageRevoked | RevalidationLost.

Definition outage_as_str (o : LicenseOutage) : str :=
  match o with
  | OutageRevoked => $"license_revoked"
  | RevalidationLost => $"license_revalidation_lost"
  end.

Definition refusal (o : LicenseOutage) : str :=
  match o with
  | OutageRevoked => $"license revoked — contact your vendor"
  | RevalidationLost =>
    $"license requires revalidation — gateway could not reach the license server"
  end.

Inductive LicenseGate : Type :=
  | Proceed
  | GateBlock (o : LicenseOutage)
  | GateDegrade (o : LicenseOutage).

Definition RECOVERY_ALLOWLIST : list str :=
  [$"/health"; $"/metrics"; $"/openapi.json"; $"/v1/auth"; $"/internal"; $"/v1/license"].

(** [str::trim_end_matches('/')] *)
Definition trim_end_slashes (s : str) : str :=
  reverse (drop_while (fun c => bool_decide (c = "/"%char)) (reverse s)).

Definition is_under (path entry : str) : bool :=
  let base := trim_end_slashes entry in
  if starts_with path base then
    match drop (length base) path with
    | [] => true
    | c :: _ => bool_decide (c = "/"%char)
    end
  else false.

Definition is_allowlisted (path : str) : bool :=
  existsb (is_under path) RECOVERY_ALLOWLIST.

Definition license_gate (rev hard_stale : bool) (path : str) : LicenseGate :=
  if is_allowlisted path then Proceed
  else if rev then GateBlock OutageRevoked
  else if hard_stale then GateDegrade RevalidationLost
  else Proceed.

Definition LICENSE_DEGRADED_HEADER : str := $"x-secureprompt-license-degraded".
Definition ACTION_BLOCK : str := policy_as_str Block.
Definition ACTION_DEGRADE : str := policy_as_str DegradeWithAlert.

(** A response as far as the gate touches it: what the inner service returned,
    or an error, with the headers added on the way out. *)
Record gated (R : Type) : Type := {
  g_body : R + ApiError;
  g_headers : list (str * str);
  g_alerts : list (str * str);
}.
Arguments g_body {R} g.
Arguments g_headers {R} g.
Arguments g_alerts {R} g.

(** [next] is what the inner service answers, called at most once. *)
Definition enforce {R} (st : LicenseState) (now : Z) (path : str) (next : unit -> R) : gated R :=
  match license_gate (is_revoked st) (is_hard_stale st now) path with
  | Proceed => {| g_body := inl (next tt); g_headers := []; g_alerts := [] |}
  | GateBlock reason => {|
      g_body := inr (Forbidden (refusal reason));
      g_headers := [];
      g_alerts := [(outage_as_str reason, ACTION_BLOCK)] |}
  | GateDegrade reason => {|
      g_body := inl (next tt);
      g_headers := [(LICENSE_DEGRADED_HEADER, outage_as_str reason)];
      g_alerts := [(outage_as_str reason, ACTION_DEGRADE)] |}
  end.
