(* ===== verification/LicenseSpec.v ===== *)
(** * Properties of licensing

    Revocation sticks until an administrator installs a different valid
    license; the offline budget is enforced whatever unsigned replies, clock
    changes and re-verifications happen; the gate's decision is exact and its
    recovery paths are always open; the compare-exchange loop of [bump_max]
    implements an atomic maximum under every interleaving. *)

From S2P Require Import Prelude Rstr Json Types Sidecar Roles License.

(** ** [bump_max] *)

Lemma bump_max_is_max cell v : bump_max cell v = Z.max cell v.
Proof. unfold bump_max. destruct (Z.ltb_spec cell v); lia. Qed.

(** Threads [(v, pc)] running [bump_max] on one cell; a schedule picks who
    moves. *)
Abbreviation bump_threads := (list (Z * bump_pc)).

Definition bump_sched (i : nat) (s : Z * bump_threads) : Z * bump_threads :=
  match s.2 !! i with
  | Some (v, pc) => let '(cell', pc') := bump_tick s.1 v pc in (cell', <[i := (v, pc')]> s.2)
  | None => s
  end.

Definition bump_run (sched : list nat) (s : Z * bump_threads) : Z * bump_threads :=
  fold_left (fun s i => bump_sched i s) sched s.

(** What holds between atomic operations: the cell is the initial value or
    one of the values being written, at least the initial one and at least
    every finished thread's value; a loaded value was in the cell earlier. *)
Record bump_inv (init : Z) (vs : list Z) (s : Z * bump_threads) : Prop := {
  bi_values : s.2.*1 = vs;
  bi_from : s.1 = init \/ s.1 ∈ vs;
  bi_init : (init <= s.1)%Z;
  bi_done : forall i v, s.2 !! i = Some (v, BumpDone) -> (v <= s.1)%Z;
  bi_cur : forall i v cur, s.2 !! i = Some (v, BumpLoop cur) -> (cur <= s.1)%Z;
}.

Lemma bump_tick_mono cell v pc : (cell <= (bump_tick cell v pc).1)%Z.
Proof.
  destruct pc as [|cur|]; simpl; try lia.
  destruct (Z.ltb_spec cur v); simpl; [|lia]. destruct (Z.eqb_spec cell cur); simpl; lia.
Qed.

Lemma bump_tick_from cell v pc : (bump_tick cell v pc).1 = cell \/ (bump_tick cell v pc).1 = v.
Proof. destruct pc; simpl; auto. repeat case_match; simpl; auto. Qed.

Lemma bump_tick_pc cell v pc :
  (match pc with BumpLoop cur => cur <= cell | BumpDone => v <= cell | BumpLoad => True end)%Z ->
  (match (bump_tick cell v pc).2 with
   | BumpLoop cur => cur <= (bump_tick cell v pc).1
   | BumpDone => v <= (bump_tick cell v pc).1
   | BumpLoad => True end)%Z.
Proof.
  destruct pc as [|cur|]; simpl; intros; try lia.
  destruct (Z.ltb_spec cur v); simpl; [|lia]. destruct (Z.eqb_spec cell cur); simpl; lia.
Qed.

Lemma bump_sched_inv init vs s i : bump_inv init vs s -> bump_inv init vs (bump_sched i s).
Proof.
  intros [Hv Hf Hi Hd Hc]. unfold bump_sched. destruct s as [cell ths]. cbn [fst snd] in *.
  destruct (ths !! i) as [[v pc]|] eqn:Hth; [|by split].
  pose proof (bump_tick_mono cell v pc) as Hmono. pose proof (bump_tick_from cell v pc) as Hfrom.
  pose proof (bump_tick_pc cell v pc) as Hpc.
  destruct (bump_tick cell v pc) as [cell' pc'] eqn:Ht. cbn [fst snd] in *.
  assert (v ∈ vs) as Hin.
  { rewrite <- Hv. apply list_elem_of_fmap. exists (v, pc). split; [done|]. by eapply list_elem_of_lookup_2. }
  assert (i < length ths) as Hlt by (by eapply lookup_lt_Some).
  specialize (Hpc ltac:(destruct pc; eauto)). split; cbn [fst snd].
  - rewrite <- Hv. rewrite (list_fmap_insert fst). apply list_insert_id. by rewrite list_lookup_fmap, Hth.
  - destruct Hfrom as [-> | ->]; [done|by right].
  - lia.
  - intros j w Hj. apply list_lookup_insert_Some in Hj as [(-> & ? & _)|[_ Hj]]; simplify_eq; [done|].
    specialize (Hd _ _ Hj). lia.
  - intros j w cur Hj. apply list_lookup_insert_Some in Hj as [(-> & ? & _)|[_ Hj]]; simplify_eq; [done|].
    specialize (Hc _ _ _ Hj). lia.
Qed.

Lemma bump_run_inv init vs sched s : bump_inv init vs s -> bump_inv init vs (bump_run sched s).
Proof. revert s. induction sched; intros s Hs; [done|]. simpl. by apply IHsched, bump_sched_inv. Qed.

Lemma bump_start_inv init vs : bump_inv init vs (init, (fun v => (v, BumpLoad)) <$> vs).
Proof.
  split; cbn [fst snd].
  - rewrite <- list_fmap_compose. apply list_fmap_id.
  - by left.
  - lia.
  - intros i v Hi. apply list_lookup_fmap_Some in Hi as (? & ? & ?). simplify_eq.
  - intros i v cur Hi. apply list_lookup_fmap_Some in Hi as (? & ? & ?). simplify_eq.
Qed.

(** [bump_max] implements an atomic maximum: when any number of calls on
    one cell run interleaved, one atomic load or compare-exchange at a time,
    in any schedule, the cell never decreases, and once all calls have
    returned it holds the maximum of its initial value and all the values,
    as if the calls had run one after another. *)
Theorem bump_max_atomic (init : Z) (vs : list Z) (sched more : list nat) :
  let s := bump_run sched (init, (fun v => (v, BumpLoad)) <$> vs) in
  (s.1 <= (bump_run more s).1)%Z
  /\ (Forall (fun th => th.2 = BumpDone) s.2 -> s.1 = fold_left bump_max vs init).
Proof.
  intros s. pose proof (bump_run_inv init vs sched _ (bump_start_inv init vs)) as Hs. fold s in Hs. split.
  - clearbody s. clear Hs. revert s. induction more as [|i more IH]; intros s; [done|]. simpl.
    etrans; [|apply IH]. unfold bump_sched. destruct (s.2 !! i) as [[v pc]|]; [|done].
    pose proof (bump_tick_mono s.1 v pc). by destruct (bump_tick s.1 v pc).
  - intros Hdone. destruct Hs as [Hv Hf Hi Hd _].
    assert (Forall (fun v => (v <= s.1)%Z) vs) as Hall.
    { rewrite <- Hv, Forall_fmap, Forall_forall. intros [v pc] Hin. apply list_elem_of_lookup_1 in Hin as [i Hi'].
      rewrite Forall_lookup in Hdone. pose proof (Hdone _ _ Hi') as Hp. simpl in Hp. subst pc. by apply (Hd i). }
    clear Hv Hd Hdone. clearbody s. revert Hf Hi Hall. generalize (s.1). intros x. clear s.
    revert init. induction vs as [|v vs IH]; intros init Hf Hi Hall; simpl.
    + destruct Hf as [?|Hin]; [done|]. by apply elem_of_nil in Hin.
    + apply Forall_cons in Hall as [? ?]. rewrite bump_max_is_max. apply IH; [|lia|done].
      destruct Hf as [->|[->|?]%elem_of_cons]; [left; lia|left; lia|by right].
Qed.

(** ** Reachable states *)

Section system.
Context `{LicenseEnv}.
Variable vk : vendor_vk.
Variable cfg : LicenseConfig.

Inductive reachable : System -> Prop :=
  | reach_boot row db now read_row read_fresh :
    reachable (boot vk cfg row db now read_row read_fresh)
  | reach_step s e : reachable s -> reachable (step vk cfg s e).

Lemma reachable_run s es : reachable s -> reachable (run vk cfg s es).
Proof. revert s. induction es; intros s Hs; [done|]. simpl. by apply IHes, reach_step. Qed.

(** A recorded revocation names its license, and the poller is then not
    waiting for an answer. *)
Definition revocation_named (s : System) : Prop :=
  revoked (lstate s) = true -> poller s = PollWait /\ is_Some (revoked_lic_id (lstate s)).

Lemma observe_revoked st a b :
  revoked (observe_freshness st a b) = revoked st
  /\ revoked_lic_id (observe_freshness st a b) = revoked_lic_id st
  /\ inner (observe_freshness st a b) = inner st.
Proof. done. Qed.

(** The re-verification does not touch the revocation or the poller. *)
Lemma recheck_revoked s now now' rr w r :
  let s' := recheck s cfg vk now now' rr w r in
  revoked (lstate s') = revoked (lstate s)
  /\ revoked_lic_id (lstate s') = revoked_lic_id (lstate s) /\ poller s' = poller s.
Proof. unfold recheck, record_freshness. repeat case_match; simplify_eq; done. Qed.

Lemma delete_revoked s role now w rr ra :
  let s' := (delete_license s cfg role (Some vk) now w rr ra).2 in
  revoked (lstate s') = revoked (lstate s)
  /\ revoked_lic_id (lstate s') = revoked_lic_id (lstate s) /\ poller s' = poller s.
Proof. unfold delete_license. repeat case_match; done. Qed.

(** An activation either leaves the revocation alone or lifts it. *)
Lemma activate_revoked s role token now rb w ra :
  let s' := (activate_license s cfg role (Some vk) token now rb w ra).2 in
  poller s' = poller s /\
  ((revoked (lstate s') = revoked (lstate s)
    /\ revoked_lic_id (lstate s') = revoked_lic_id (lstate s))
   \/ (revoked (lstate s) = true /\ revoked (lstate s') = false
       /\ w = true /\ require_role role Admin = Ok tt
       /\ exists r id, revoked_lic_id (lstate s) = Some r
            /\ lic_id (load_and_verify_token (trim token) vk now) = Some id /\ id <> r)).
Proof.
  unfold activate_license. destruct (require_role role Admin) as [[]| |] eqn:Hr; [|by auto..].
  destruct (decode_verified_token (trim token) vk); [|by auto]. destruct w; [|by auto]. cbn [negb].
  destruct (lic_id _) as [id|] eqn:Hid; [|by auto]. cbn [snd]. split; [done|].
  unfold clear_revocation_if_superseded, state_set, is_revoked. cbn [revoked revoked_lic_id lstate].
  destruct (revoked (lstate s)) eqn:Hrev; cbn [negb]; [|by left].
  destruct (revoked_lic_id (lstate s)) as [r|] eqn:Hl; [|by left].
  case_decide; [by left|]. right. cbn. split; [done|]. split; [done|]. split; [done|]. split; [done|].
  exists r, id. auto.
Qed.

Lemma poller_begin_state s : lstate (poller_begin s) = lstate s.
Proof. unfold poller_begin. by case_match. Qed.

Lemma poller_begin_revoked s : revoked (lstate s) = true -> poller_begin s = s.
Proof. intros Hr. unfold poller_begin, is_revoked. by rewrite Hr. Qed.

Lemma poller_reply_wait s reply now w r : poller (poller_reply s vk reply now w r) = PollWait.
Proof. unfold poller_reply. repeat case_match; done. Qed.

Lemma reachable_named s : reachable s -> revocation_named s.
Proof.
  induction 1 as [row db now rr rf|s e _ IH].
  - intros Hr. exfalso. revert Hr. unfold boot. cbn [lstate]. repeat case_match; done.
  - destruct e as [|reply now w r|now now' rr w r|role token now rb w ra|role now w rr ra]; cbn [step]; intros Hr.
    + rewrite poller_begin_state in Hr |- *. destruct (IH Hr) as [Hp Hl].
      rewrite poller_begin_revoked by done. done.
    + split; [apply poller_reply_wait|]. revert Hr. unfold poller_reply.
      destruct (poller s) as [|id] eqn:Hp; [intros Hr; by apply IH|].
      destruct (check reply vk) as [v t]. destruct (verdict_action v t); cbn [lstate]; [by eexists|].
      destruct (record_freshness _ _ _ _ _ _) as [db' [[l h]|]]; cbn [lstate];
        rewrite ?(proj1 (observe_revoked _ _ _)); intros Hr; destruct (IH Hr); done.
    + destruct (recheck_revoked s now now' rr w r) as (Er & El & Ep). rewrite Er in Hr. rewrite El, Ep. by apply IH.
    + destruct (activate_revoked s role token now rb w ra) as (Ep & [[Er El]|(_ & Er & _)]); [|congruence].
      rewrite Er in Hr. rewrite El, Ep. by apply IH.
    + destruct (delete_revoked s role now w rr ra) as (Er & El & Ep). rewrite Er in Hr. rewrite El, Ep. by apply IH.
Qed.

(** An event that installs, as an administrator and with the write committed,
    a token that verifies to a valid license other than [r]. *)
Definition supersedes (r : str) (e : event) : Prop :=
  match e with
  | EvActivate role token now _ true _ =>
    require_role role Admin = Ok tt
    /\ exists id, lic_id (load_and_verify_token (trim token) vk now) = Some id /\ id <> r
  | _ => False
  end.

Lemma step_keeps_revocation s e r :
  reachable s -> revoked (lstate s) = true -> revoked_lic_id (lstate s) = Some r -> ~ supersedes r e ->
  let s' := step vk cfg s e in
  revoked (lstate s') = true /\ revoked_lic_id (lstate s') = Some r.
Proof.
  intros Hreach Hr Hl Hns. destruct (reachable_named s Hreach Hr) as [Hp _].
  destruct e as [|reply now w rd|now now' rr w rd|role token now rb w ra|role now w rr ra]; cbn [step].
  - by rewrite poller_begin_revoked.
  - unfold poller_reply. by rewrite Hp.
  - destruct (recheck_revoked s now now' rr w rd) as (-> & -> & _). done.
  - destruct (activate_revoked s role token now rb w ra) as (_ & [[-> ->]|(_ & _ & -> & Hadm & r' & id & Hr' & Hid & Hne)]);
      [done|]. destruct Hns. split; [done|]. exists id. split; [done|congruence].
  - destruct (delete_revoked s role now w rr ra) as (-> & -> & _). done.
Qed.

(** C22: A revocation sticks: in every reachable state with a recorded
    revocation, the revoked license is known, and until an administrator
    installs a different, currently valid, vendor-signed license, every
    sequence of polls, replies, re-verifications, activations and deletions
    leaves the gateway revoked, and every request off the recovery allowlist
    is refused. *)
Theorem revocation_sticks s :
  reachable s -> revoked (lstate s) = true ->
  exists r, revoked_lic_id (lstate s) = Some r /\
    forall es, Forall (fun e => ~ supersedes r e) es ->
    let s' := run vk cfg s es in
    revoked (lstate s') = true /\ revoked_lic_id (lstate s') = Some r
    /\ forall (R : Type) now path (next : unit -> R), is_allowlisted path = false ->
         g_body (enforce (lstate s') now path next) = inr (Forbidden (refusal OutageRevoked)).
Proof.
  intros Hreach Hr. destruct (reachable_named s Hreach Hr) as [_ [r Hl]]. exists r. split; [done|].
  intros es Hes. cbv zeta.
  assert (revoked (lstate (run vk cfg s es)) = true
    /\ revoked_lic_id (lstate (run vk cfg s es)) = Some r) as [Hr' Hl'].
  { revert s Hreach Hr Hl. induction Hes as [|e es He _ IH]; intros s Hreach Hr Hl; [done|]. simpl.
    destruct (step_keeps_revocation s e r) as [??]; [done..|]. apply IH; [by apply reach_step|done..]. }
  split; [done|]. split; [done|]. intros R now path next Hp.
  unfold enforce, license_gate, is_revoked. by rewrite Hp, Hr'.
Qed.

(** A superseding activation restores service at once: it lifts the
    revocation, makes the new license the active one, and an administrator's
    other activations do not (the revoked token pasted again, an expired or
    forged one, a write that failed). *)
Theorem supersession_lifts s role token now rb w ra r :
  revoked (lstate s) = true -> revoked_lic_id (lstate s) = Some r ->
  let '(res, s') := activate_license s cfg role (Some vk) token now rb w ra in
  (supersedes r (EvActivate role token now rb w ra) ->
     (exists resp, res = Ok resp) /\ revoked (lstate s') = false
     /\ snapshot (lstate s') = load_and_verify_token (trim token) vk now
     /\ activation s' = Some (trim token))
  /\ (~ supersedes r (EvActivate role token now rb w ra) ->
     revoked (lstate s') = true /\ revoked_lic_id (lstate s') = Some r).
Proof.
  intros Hr Hl. destruct (activate_license s cfg role (Some vk) token now rb w ra) as [res s'] eqn:Ha. split.
  - intros Hs. destruct w; [|done]. destruct Hs as (Hadm & id & Hid & Hne). revert Ha.
    unfold activate_license. rewrite Hadm.
    destruct (decode_verified_token (trim token) vk) as [lic|] eqn:Hd; cycle 1.
    { revert Hid. unfold load_and_verify_token. destruct (decide (trim (trim token) = [])); [done|]. intros Hid.
      exfalso. revert Hid. destruct (decode_verified_token (trim (trim token)) vk) eqn:Hd'; [|done].
      rewrite trim_trim in Hd'. congruence. }
    cbn [negb]. rewrite Hid. unfold clear_revocation_if_superseded, state_set, is_revoked.
    cbn [revoked revoked_lic_id]. rewrite Hr, Hl. cbn [negb]. rewrite decide_False by congruence.
    intros [= <- <-]. split; [by eexists|done].
  - intros Hns. destruct (activate_revoked s role token now rb w ra) as (_ & Hcase). rewrite Ha in Hcase. cbn [snd] in Hcase.
    destruct Hcase as [[-> ->]|(_ & _ & -> & Hadm & r' & id & Hr' & Hid & Hne)]; [done|].
    destruct Hns. split; [done|]. exists id. split; [done|congruence].
Qed.

(** ** The offline budget *)

(** The reply carries an assertion whose vendor signature verifies, that is
    not a revocation, issued at [t]. *)
Definition signed_at (reply : vendor_reply) (t : Z) : Prop :=
  exists body av sig a,
    reply = Reply true (Some body) /\ get body $"assertion" = Some av
    /\ get body $"sig" ≫= as_str = Some sig /\ assertion_from_value av = Some a
    /\ verify_assertion vk a sig = true /\ fa_status a <> $"revoked"
    /\ (chrono_rfc3339 (fa_issued_at a) = Some t
        \/ chrono_rfc3339 (fa_issued_at a) = None /\ parse_rfc3339 (fa_issued_at a) = Some t).

(** Freshness credit is given for such replies only. *)
Lemma check_credit reply v t : check reply vk = (v, Some t) -> v = VActive /\ signed_at reply t.
Proof.
  unfold check. destruct reply as [|[] [body|]]; try done.
  destruct (get body $"assertion") as [av|] eqn:Ha; [|by repeat case_match].
  destruct (get body $"sig" ≫= as_str) as [sig|] eqn:Hs; [|by repeat case_match].
  destruct (assertion_from_value av) as [a|] eqn:Hav; [|done].
  destruct (verify_assertion vk a sig) eqn:Hv; [|done]. cbn [negb]. case_decide; [done|].
  intros E. destruct (chrono_rfc3339 (fa_issued_at a)) as [e|] eqn:Hc;
    [|destruct (parse_rfc3339 (fa_issued_at a)) as [e|] eqn:Hp; [|done]];
    simplify_eq; (split; [done|]); exists body, av, sig, a; auto 10.
Qed.

(** No credit beyond [T], in memory or in the table. *)
Definition credit_le (T : Z) (s : System) : Prop :=
  (0 <= last_assertion_at (lstate s) <= T)%Z
  /\ forall u l h, freshness s !! u = Some (l, h) -> (l <= T)%Z.

Lemma record_credit T db id at_ now w r db' row :
  (0 <= T)%Z -> (forall t, at_ = Some t -> t <= T)%Z ->
  (forall u l h, db !! u = Some (l, h) -> l <= T)%Z ->
  record_freshness db id at_ now w r = (db', row) ->
  (forall u l h, db' !! u = Some (l, h) -> l <= T)%Z /\ (forall l h, row = Some (l, h) -> l <= T)%Z.
Proof.
  intros HT Hat Hdb. unfold record_freshness. intros [= <- <-].
  assert (forall u l h, (if w then freshness_record db id at_ now else db) !! u = Some (l, h) -> l <= T)%Z as Hdb'.
  { destruct w; [|done]. unfold freshness_record. destruct (parse_uuid id) as [u0|]; [|done].
    assert (default 0 at_ <= T)%Z by (destruct at_; simpl; auto).
    intros u l h. destruct (db !! u0) as [[l0 h0]|] eqn:Hu0; intros [[<- ?]|[_ ?]]%lookup_insert_Some;
      simplify_eq; eauto. specialize (Hdb _ _ _ Hu0). lia. }
  split; [done|]. intros l h. destruct r; [|done]. unfold freshness_load.
  intros (u & _ & Hu)%bind_Some. eauto.
Qed.

Lemma observe_credit T s l h :
  credit_le T s -> (l <= T)%Z ->
  (0 <= last_assertion_at (observe_freshness (lstate s) l h) <= T)%Z.
Proof. intros [? _] ?. cbn. rewrite bump_max_is_max. lia. Qed.

Lemma step_credit T s e :
  (0 <= T)%Z -> credit_le T s ->
  (forall reply n w r t, e = EvPollReply reply n w r -> signed_at reply t -> (t <= T)%Z) ->
  credit_le T (step vk cfg s e).
Proof.
  intros HT Hc He. destruct e as [|reply now w r|now now' rr w r|role token now rb w ra|role now w rr ra]; cbn [step].
  - unfold poller_begin. case_match; [done|]. exact Hc.
  - unfold poller_reply. destruct (poller s) as [|id]; [done|].
    destruct (check reply vk) as [v at_] eqn:Hchk. destruct (verdict_action v at_) as [|a'] eqn:Hv; [exact Hc|].
    destruct (record_freshness (freshness s) id a' now w r) as [db' row] eqn:Hrec.
    assert (forall t, a' = Some t -> t <= T)%Z as Ha.
    { intros t ->. destruct v; try done. simpl in Hv. injection Hv as ->.
      apply check_credit in Hchk as [_ Hs]. by eapply He. }
    destruct (record_credit T _ _ _ _ _ _ _ _ HT Ha (proj2 Hc) Hrec) as [Hdb Hrow].
    split; [|exact Hdb]. cbn [lstate]. destruct row as [[l h]|]; [|exact (proj1 Hc)].
    apply (observe_credit T s l h Hc). by eapply Hrow.
  - unfold recheck. set (snap := load_and_verify_token _ _ _).
    assert (credit_le T (with_state s (state_set (lstate s) snap))) as Hc' by exact Hc.
    destruct (lic_id (snapshot (state_set (lstate s) snap))) as [id|]; [|exact Hc].
    destruct (record_freshness (freshness s) id None now' w r) as [db' row] eqn:Hrec.
    destruct (record_credit T _ _ None _ _ _ _ _ HT ltac:(by intros t [=]) (proj2 Hc) Hrec) as [Hdb Hrow].
    split; [|exact Hdb]. destruct row as [[l h]|]; [|exact (proj1 Hc)].
    apply (observe_credit T _ l h Hc'). by eapply Hrow.
  - unfold activate_license, clear_revocation_if_superseded. repeat case_match; exact Hc.
  - unfold delete_license. repeat case_match; exact Hc.
Qed.

Lemma run_credit T s es :
  (0 <= T)%Z -> credit_le T s ->
  (forall reply n w r t, EvPollReply reply n w r ∈ es -> signed_at reply t -> (t <= T)%Z) ->
  credit_le T (run vk cfg s es).
Proof.
  intros HT. revert s. induction es as [|e es IH]; intros s Hc He; [done|]. simpl. apply IH.
  - apply step_credit; [done|done|]. intros reply n w r t ->. apply (He reply n w r). by constructor.
  - intros reply n w r t Hin. apply (He reply n w r). by constructor.
Qed.

Lemma classify_hard now hw last nb soft hard :
  (now < 2 ^ 63)%Z -> (hw < 2 ^ 63)%Z -> (0 <= last)%Z -> (Z.max last nb + hard < now)%Z ->
  classify_offline now hw last nb (Some soft) (Some hard) = HardStale \/ (hard < 0)%Z.
Proof.
  intros Hn Hh Hl Hb. destruct (Z.ltb_spec hard 0); [by right|]. left. unfold classify_offline.
  rewrite i64_wrap_id by lia. rewrite (proj2 (Z.ltb_lt _ _)); [done|lia].
Qed.

Lemma classify_negative now hw last nb soft hard :
  (hard < 0)%Z -> classify_offline now hw last nb (Some soft) (Some hard) = HardStale.
Proof. intros Hh. unfold classify_offline. rewrite (proj2 (Z.ltb_lt _ _)); [done|lia]. Qed.

(** The offline budget is enforced: if no signed, verified vendor
    assertion later than [T] reaches the gateway, then whatever unsigned or
    forged replies, re-verifications, database failures, clock rollbacks and
    administrator calls happen, more than [hard] seconds after [T] (and the
    license's start) no entitlement is left: the effective status is
    [Revoked], no feature is enabled, no seats and no attestation key are
    given out, and requests are refused or marked degraded. *)
Theorem offline_budget_enforced s es T now soft hard :
  (0 <= T)%Z -> credit_le T s ->
  (forall reply n w r t, EvPollReply reply n w r ∈ es -> signed_at reply t -> (t <= T)%Z) ->
  let st := lstate (run vk cfg s es) in
  status (snapshot st) = Valid ->
  revalidate_soft_secs (snapshot st) = Some soft -> revalidate_hard_secs (snapshot st) = Some hard ->
  (now < 2 ^ 63)%Z -> (highwater_at st < 2 ^ 63)%Z ->
  (Z.max T (default 0 (not_before_epoch (snapshot st))) + hard < now)%Z ->
  effective_status st now = Revoked
  /\ (forall f, is_feature_enabled st f now = false)
  /\ max_seats st now = None
  /\ (forall kek, unwrap_attestation_key st kek now = None)
  /\ (forall (R : Type) path (next : unit -> R), is_allowlisted path = false ->
        g_body (enforce st now path next) = inr (Forbidden (refusal OutageRevoked))
        \/ g_headers (enforce st now path next)
            = [(LICENSE_DEGRADED_HEADER, outage_as_str RevalidationLost)]).
Proof.
  intros HT Hc Hes st Hval Hsoft Hhard Hnow Hhw Hlate.
  destruct (run_credit T s es HT Hc Hes) as [[Hl0 HlT] _]. fold st in Hl0, HlT.
  assert (offline_verdict_at st (snapshot st) now = HardStale) as Hstale.
  { unfold offline_verdict_at. rewrite Hsoft, Hhard.
    edestruct (classify_hard now (highwater_at st) (last_assertion_at st)) as [E|E];
      [done|done|done| |exact E|by apply classify_negative]. lia. }
  assert (effective_status st now = Revoked) as Heff.
  { unfold effective_status. destruct (is_revoked st); [done|]. by rewrite Hval, Hstale. }
  split; [done|]. split; [intros f; unfold is_feature_enabled; by rewrite Heff|].
  split; [unfold max_seats; by rewrite Heff|].
  split; [intros kek; unfold unwrap_attestation_key; by rewrite Heff|].
  intros R path next Hp. unfold enforce, license_gate, is_hard_stale. rewrite Hp.
  destruct (is_revoked st) eqn:Hr; [by left|]. right.
  rewrite !bool_decide_true by done. done.
Qed.

(** The model key is relayed even without entitlement: a re-verification
    of a token inside its validity window sends the wrapped model key to the
    sidecar whatever the license state says, so also when the license is
    revoked or its offline budget is spent and the effective status is
    [Revoked]. *)
Theorem relay_ignores_revocation s now now' w r lic :
  cfg_internal_token cfg <> [] ->
  trim (resolve_active_token (Ok (activation s)) (cfg_license_token cfg)) <> [] ->
  decode_verified_token (trim (resolve_active_token (Ok (activation s)) (cfg_license_token cfg))) vk
    = Some lic ->
  (exists nb exp, parse_rfc3339 (lic_not_before lic) = Some nb
     /\ parse_rfc3339 (lic_expires_at lic) = Some exp /\ (nb <= now <= exp)%Z) ->
  let s' := recheck s cfg vk now now' true w r in
  relayed s' = relayed s ++ [(lic_wrapped_key lic, lic_lic_id lic)]
  /\ (revoked (lstate s) = true -> effective_status (lstate s') now' = Revoked).
Proof.
  intros Hi Ht Hd (nb & exp & Hnb & Hexp & Hin).
  assert (load_and_verify_token (resolve_active_token (Ok (activation s)) (cfg_license_token cfg)) vk now
    = snapshot_from lic Valid) as Hload.
  { unfold load_and_verify_token. rewrite decide_False, Hd, Hnb, Hexp by done.
    rewrite !(proj2 (Z.leb_le _ _)) by lia. done. }
  assert (snapshot (lstate (recheck s cfg vk now now' true w r)) = snapshot_from lic Valid) as Hsnap.
  { unfold recheck. rewrite Hload. unfold record_freshness. repeat case_match; simplify_eq; done. }
  split.
  - transitivity (relayed s ++ best_effort_push cfg (lstate (recheck s cfg vk now now' true w r))).
    + unfold recheck. rewrite Hload. unfold record_freshness. repeat case_match; simplify_eq; done.
    + unfold best_effort_push. rewrite Hsnap, decide_False by done. done.
  - intros Hr. destruct (recheck_revoked s now now' true w r) as (Er & _ & _).
    unfold effective_status, is_revoked. by rewrite Er, Hr.
Qed.

(** A verdict about a replaced license blocks its replacement: if the
    poller asked the vendor about license [a] and an administrator installs a
    valid license [b] before the answer arrives, a [revoked] answer about [a]
    makes the gateway refuse traffic although [b] is active and was never
    revoked, and the poller stops asking. *)
Theorem stale_verdict_blocks_replacement s a b role token now rb ra reply now' w r :
  poller s = PollAsked a -> revoked (lstate s) = false ->
  require_role role Admin = Ok tt -> is_Some (decode_verified_token (trim token) vk) ->
  lic_id (load_and_verify_token (trim token) vk now) = Some b -> b <> a ->
  (check reply vk).1 = VRevoked ->
  let s' := run vk cfg s [EvActivate role token now rb true ra; EvPollReply reply now' w r] in
  lic_id (snapshot (lstate s')) = Some b
  /\ revoked (lstate s') = true /\ revoked_lic_id (lstate s') = Some a
  /\ poller_begin s' = s'
  /\ (forall (R : Type) t path (next : unit -> R), is_allowlisted path = false ->
        g_body (enforce (lstate s') t path next) = inr (Forbidden (refusal OutageRevoked))).
Proof.
  intros Hp Hr Hadm [lic Hlic] Hb Hne Hv. unfold run. cbn [fold_left step].
  unfold activate_license. rewrite Hadm, Hlic. cbn [negb]. rewrite Hb. cbn [snd].
  unfold clear_revocation_if_superseded, is_revoked, state_set. cbn [revoked]. rewrite Hr. cbn [negb snd].
  unfold poller_reply. cbn [poller lstate activation freshness]. rewrite Hp.
  destruct (check reply vk) as [v t]. cbn [fst] in Hv. subst v. cbn [verdict_action].
  repeat split; try done. intros R t' path next Hpath. unfold enforce, license_gate. by rewrite Hpath.
Qed.
End system.

(** ** The gate *)

Lemma trim_end_slashes_id e : last e <> Some "/"%char -> trim_end_slashes e = e.
Proof.
  intros Hl. unfold trim_end_slashes. rewrite drop_while_id; [apply reverse_involutive|].
  intros x l E. rewrite bool_decide_eq_false. intros ->. apply Hl.
  rewrite <- (reverse_involutive e), E. simpl. by rewrite reverse_cons, last_snoc.
Qed.

Lemma is_under_iff path entry :
  last entry <> Some "/"%char ->
  is_under path entry = true <-> path = entry \/ exists rest, path = entry ++ $"/" ++ rest.
Proof.
  intros Hl. unfold is_under. rewrite trim_end_slashes_id by done. split.
  - destruct (starts_with path entry) eqn:E; [|done]. apply starts_with_spec in E as [t ->].
    rewrite drop_app_length. destruct t as [|c t]; [left; by rewrite app_nil_r|].
    intros ->%bool_decide_eq_true. right. by exists t.
  - intros [->|[rest ->]].
    + rewrite <- (app_nil_r entry) at 1. rewrite starts_with_app, drop_all. done.
    + rewrite starts_with_app, drop_app_length. done.
Qed.

(** The path is a recovery path or below one. *)
Definition recovery_path (path : str) : Prop :=
  exists entry, entry ∈ RECOVERY_ALLOWLIST /\ (path = entry \/ exists rest, path = entry ++ $"/" ++ rest).

Lemma is_allowlisted_iff path : is_allowlisted path = true <-> recovery_path path.
Proof.
  unfold is_allowlisted. rewrite existsb_exists. unfold recovery_path.
  assert (forall e, e ∈ RECOVERY_ALLOWLIST -> last e <> Some "/"%char) as Hslash.
  { apply (Forall_forall (fun e => last e <> Some "/"%char)). decide_compute. }
  split; intros (e & He & Hp); exists e; rewrite <- list_elem_of_In in *; (split; [done|]);
    by apply is_under_iff; auto.
Qed.

(** The license gate is exact: the recovery paths (and what lies below
    them at a segment boundary) are served in every license state; any other
    path is refused with 403 and an alert when the license is revoked, served
    with the degraded header and an alert when only the offline budget is
    spent, and served plainly otherwise. *)
Theorem license_gate_exact {R} (st : LicenseState) now path (next : unit -> R) :
  let g := enforce st now path next in
  (recovery_path path -> g = {| g_body := inl (next tt); g_headers := []; g_alerts := [] |})
  /\ (~ recovery_path path ->
      (revoked st = true ->
         g = {| g_body := inr (Forbidden (refusal OutageRevoked)); g_headers := [];
                g_alerts := [(outage_as_str OutageRevoked, ACTION_BLOCK)] |})
      /\ (revoked st = false -> is_hard_stale st now = true ->
         g = {| g_body := inl (next tt);
                g_headers := [(LICENSE_DEGRADED_HEADER, outage_as_str RevalidationLost)];
                g_alerts := [(outage_as_str RevalidationLost, ACTION_DEGRADE)] |})
      /\ (revoked st = false -> is_hard_stale st now = false ->
         g = {| g_body := inl (next tt); g_headers := []; g_alerts := [] |})).
Proof.
  cbv zeta. unfold enforce, license_gate, is_revoked. rewrite <- is_allowlisted_iff. split.
  - by intros ->.
  - intros Hp%not_true_is_false. rewrite Hp. split; [by intros ->|]. split; by intros -> ->.
Qed.

(** ** Concrete licensing runs *)

Definition demo_license (id : str) : License := {|
  lic_lic_id := id; lic_customer_name := $"acme"; lic_seats := 5; lic_features := [$"sso"];
  lic_not_before := $"start"; lic_expires_at := $"end";
  lic_revalidate_soft_secs := Some 50%Z; lic_revalidate_hard_secs := Some 90%Z;
  lic_wrapped_key := $"k"; lic_wrapped_attestation_key := $"w"; lic_image_digests := ∅ |}.

(** Tokens "A" and "B" are two vendor licenses, valid from 100 to 100000. *)
Definition demo_license_env : LicenseEnv := {|
  vendor_vk := unit;
  vk_of_bytes _ := Some tt;
  lic_b64_decode := Some;
  decode_verified_token t _ :=
    if decide (t = $"A" \/ t = $"B") then Some (demo_license t) else None;
  parse_rfc3339 s := if decide (s = $"start") then Some 100%Z else Some 100000%Z;
  chrono_rfc3339 _ := None;
  assertion_from_value _ := None;
  verify_assertion _ _ _ := false;
  parse_uuid _ := Some 1%N;
  attest_key := str;
  unwrap_key_with_aad _ _ _ := None;
  attest_key_from_bytes b := b;
|}.
#[local] Existing Instance demo_license_env.

Definition demo_vk : @vendor_vk demo_license_env := tt.

Definition demo_cfg : LicenseConfig := {| cfg_license_token := []; cfg_internal_token := $"s" |}.

Definition revoked_reply : vendor_reply := Reply true (Some (Object [($"status", VString $"revoked")])).

Definition booted : System := boot demo_vk demo_cfg (Some $"A") ∅ 200 true true.
Definition asked : System := run demo_vk demo_cfg booted [EvPollBegin].
Definition revoked_system : System := run demo_vk demo_cfg booted [EvPollBegin; EvPollReply revoked_reply 210 true true].

Lemma revocation_sticks_witness :
  revoked (lstate (run demo_vk demo_cfg revoked_system
    [EvRecheck 220 220 true true true; EvActivate Admin $"A" 230 true true true; EvDelete Owner 240 true true true]))
  = true.
Proof.
  destruct (revocation_sticks demo_vk demo_cfg revoked_system) as (r & Hr & Hall).
  - exact (reachable_run demo_vk demo_cfg _ _ (reach_boot demo_vk demo_cfg (Some $"A") ∅ 200 true true)).
  - vm_compute. reflexivity.
  - apply (Hall [EvRecheck 220 220 true true true; EvActivate Admin $"A" 230 true true true;
                 EvDelete Owner 240 true true true]).
    assert (r = $"A") as -> by (vm_compute in Hr; vm_compute; congruence).
    repeat constructor; try exact (fun x => x).
    intros (_ & id & Hid & Hne). apply Hne. vm_compute in Hid. vm_compute. congruence.
Defined.

Lemma supersession_lifts_witness :
  revoked (lstate (activate_license revoked_system demo_cfg Admin (Some demo_vk) $"B" 230 true true true).2) = false.
Proof.
  pose proof (supersession_lifts demo_vk demo_cfg revoked_system Admin $"B" 230 true true true $"A") as H.
  destruct (activate_license revoked_system demo_cfg Admin (Some demo_vk) $"B" 230 true true true) as [res s'].
  destruct H as [H _]; [vm_compute; reflexivity|vm_compute; reflexivity|].
  apply H. split; [reflexivity|]. exists $"B". split; [vm_compute; reflexivity|]. intros E. discriminate E.
Defined.

Lemma offline_budget_enforced_witness :
  effective_status (lstate (run demo_vk demo_cfg booted [EvRecheck 210 210 true true true;
    EvPollBegin; EvPollReply (Reply true (Some (Object [($"status", VString $"active")]))) 260 true true]))
    500 = Revoked.
Proof.
  apply (offline_budget_enforced demo_vk demo_cfg booted [EvRecheck 210 210 true true true;
    EvPollBegin; EvPollReply (Reply true (Some (Object [($"status", VString $"active")]))) 260 true true]
    0 500 50 90).
  - reflexivity.
  - split; [vm_compute; split; discriminate|]. intros u l h Hu. exfalso. revert Hu.
    change (freshness booted) with (∅ : gmap Uuid (Z * Z)). rewrite lookup_empty. discriminate.
  - intros reply n w r t _ (body & av & sig & a & _ & _ & _ & Ha & _). discriminate Ha.
  - vm_compute. reflexivity.
  - vm_compute. reflexivity.
  - vm_compute. reflexivity.
  - reflexivity.
  - vm_compute. reflexivity.
  - vm_compute. reflexivity.
Defined.

Lemma stale_verdict_blocks_replacement_witness :
  revoked (lstate (run demo_vk demo_cfg asked
    [EvActivate Admin $"B" 205 true true true; EvPollReply revoked_reply 210 true true])) = true.
Proof.
  apply (stale_verdict_blocks_replacement demo_vk demo_cfg asked $"A" $"B" Admin $"B" 205 true true revoked_reply 210 true true).
  - vm_compute. reflexivity.
  - vm_compute. reflexivity.
  - reflexivity.
  - eexists. vm_compute. reflexivity.
  - vm_compute. reflexivity.
  - discriminate.
  - vm_compute. reflexivity.
Defined.

Lemma relay_ignores_revocation_witness :
  relayed (recheck revoked_system demo_cfg demo_vk 220 220 true true true) = [($"k", $"A")].
Proof.
  destruct (relay_ignores_revocation demo_vk demo_cfg revoked_system 220 220 true true
    (demo_license $"A")) as [H _].
  - discriminate.
  - vm_compute. discriminate.
  - vm_compute. reflexivity.
  - exists 100%Z, 100000%Z. split; [reflexivity|]. split; [reflexivity|]. split; discriminate.
  - rewrite H. vm_compute. reflexivity.
Defined.

(** A license in good standing is served; a path that merely starts like a
    recovery path is not exempt. *)
Example gate_examples :
  let st := lstate booted in
  let rst := lstate revoked_system in
  (g_body (enforce st 200 $"/v1/chat/completions" (fun _ => tt)) = inl tt
   /\ g_body (enforce rst 220 $"/v1/license" (fun _ => tt)) = inl tt)
  /\ g_body (enforce rst 220 $"/v1/license-keys" (fun _ => tt))
     = inr (Forbidden (refusal OutageRevoked)).
Proof. vm_compute. repeat split. Qed.
