(* ===== verification/UrlGuard.v ===== *)
(** * The egress guard

    security/url_guard.rs: address classification, the structural URL checks
    and the validation of an outbound URL.

    An [Ipv4Addr] is a 32-bit and an [Ipv6Addr] a 128-bit number, with the
    octets and segments the standard library reads off them.  URL parsing and
    name resolution are the class [UrlEnv]. *)

From S2P Require Import Prelude Rstr.

(** ** Addresses *)

Inductive IpAddr : Type := V4 (v4 : N) | V6 (v6 : N).

#[export] Instance ip_addr_eq_dec : EqDecision IpAddr.
Proof. solve_decision. Defined.

Definition ip_wf (a : IpAddr) : Prop :=
  match a with V4 v => (v < 2 ^ 32)%N | V6 v => (v < 2 ^ 128)%N end.

(** [Ipv4Addr::octets()[i]], [Ipv6Addr::segments()[i]] *)
Definition octet (v : N) (i : N) : N := N.land (N.shiftr v (8 * (3 - i))) 255.
Definition segment (v : N) (i : N) : N := N.land (N.shiftr v (16 * (7 - i))) 65535.

(** [Ipv4Addr::new] *)
Definition ipv4_new (a b c d : N) : N :=
  N.lor (N.shiftl a 24) (N.lor (N.shiftl b 16) (N.lor (N.shiftl c 8) d)).

(** The predicates of [std::net]. *)
Definition v4_is_loopback (v : N) : bool := (octet v 0 =? 127)%N.
Definition v4_is_link_local (v : N) : bool := (octet v 0 =? 169)%N && (octet v 1 =? 254)%N.
Definition v4_is_broadcast (v : N) : bool := (v =? 2 ^ 32 - 1)%N.
Definition v4_is_multicast (v : N) : bool := (224 <=? octet v 0)%N && (octet v 0 <=? 239)%N.
Definition v4_is_unspecified (v : N) : bool := (v =? 0)%N.
Definition v4_is_private (v : N) : bool :=
  (octet v 0 =? 10)%N
  || ((octet v 0 =? 172)%N && (16 <=? octet v 1)%N && (octet v 1 <=? 31)%N)
  || ((octet v 0 =? 192)%N && (octet v 1 =? 168)%N).

Definition v6_is_loopback (v : N) : bool := (v =? 1)%N.
Definition v6_is_unspecified (v : N) : bool := (v =? 0)%N.
Definition v6_is_multicast (v : N) : bool := (N.land (segment v 0) 0xff00 =? 0xff00)%N.

(** [Ipv4Addr::new] of the bytes of the last two segments. *)
Definition v6_low_v4 (v : N) : N :=
  ipv4_new (N.shiftr (segment v 6) 8) (N.land (segment v 6) 0xff)
           (N.shiftr (segment v 7) 8) (N.land (segment v 7) 0xff).

(** [Ipv6Addr::to_ipv4_mapped] *)
Definition to_ipv4_mapped (v : N) : option N :=
  if forallb (fun i => segment v i =? 0)%N [0; 1; 2; 3; 4]%N && (segment v 5 =? 0xffff)%N
  then Some (v6_low_v4 v) else None.

(** ** Classification *)

Definition CLOUD_METADATA_V4 : N := ipv4_new 169 254 169 254.

Definition ALWAYS_DENIED_HOSTS : list str :=
  [$"metadata.google.internal"; $"metadata.goog"; $"instance-data"].

Definition is_cgnat_v4 (v : N) : bool :=
  (octet v 0 =? 100)%N && (64 <=? octet v 1)%N && (octet v 1 <=? 127)%N.

Definition is_v6_link_local (v : N) : bool := (N.land (segment v 0) 0xffc0 =? 0xfe80)%N.

Definition is_v6_unique_local (v : N) : bool := (N.land (segment v 0) 0xfe00 =? 0xfc00)%N.

Definition classify_v4 (v : N) (allow_private : bool) : option str :=
  if (v =? CLOUD_METADATA_V4)%N then Some $"cloud metadata endpoint"
  else if v4_is_loopback v then Some $"loopback"
  else if v4_is_link_local v then Some $"link-local"
  else if v4_is_broadcast v then Some $"broadcast"
  else if v4_is_multicast v then Some $"multicast"
  else if v4_is_unspecified v then Some $"unspecified"
  else if (octet v 0 =? 0)%N then Some $"this-network"
  else if is_cgnat_v4 v then Some $"CGNAT"
  else if v4_is_private v && negb allow_private then Some $"private range"
  else None.

Definition classify_ip (addr : IpAddr) (allow_private : bool) : option str :=
  match addr with
  | V4 v4 => classify_v4 v4 allow_private
  | V6 v6 =>
    match to_ipv4_mapped v6 with
    | Some v4 => classify_v4 v4 allow_private
    | None =>
      if v6_is_loopback v6 then Some $"loopback"
      else if v6_is_unspecified v6 then Some $"unspecified"
      else if forallb (fun i => segment v6 i =? 0)%N [0; 1; 2; 3; 4; 5]%N
      then classify_v4 (v6_low_v4 v6) allow_private
      else if v6_is_multicast v6 then Some $"multicast"
      else if is_v6_link_local v6 then Some $"link-local"
      else if is_v6_unique_local v6 && negb allow_private then Some $"unique-local"
      else None
    end
  end.

(** ** Policy and errors *)

Record EgressPolicy : Type := { allow_private_ranges : bool; extra_denied_hosts : list str }.

Definition deny_private : EgressPolicy := {| allow_private_ranges := false; extra_denied_hosts := [] |}.

Definition parse_flag (raw : option str) : bool :=
  match raw with
  | Some v => bool_decide (to_ascii_lowercase (trim v) ∈ [$"1"; $"true"; $"yes"; $"on"])
  | None => false
  end.

(** [env] is the environment's answer for
    [SECUREPROMPT_ALLOW_PRIVATE_PROVIDER_URLS]. *)
Definition policy_from_env (env : option str) : EgressPolicy := {|
  allow_private_ranges := parse_flag env; extra_denied_hosts := [] |}.

Inductive SsrfError : Type :=
  | InvalidUrl (e : str)
  | ForbiddenScheme (s : str)
  | CredentialsInUrl
  | MissingHost
  | DeniedHost (h : str)
  | DnsFailure (e : str)
  | BlockedAddress (host : str) (addr : IpAddr) (reason : str).

Class UrlEnv := {
  Url : Type;
  url_parse : str -> outcome str Url;
  url_scheme : Url -> str;
  url_username : Url -> str;
  url_password : Url -> option str;
  url_host_str : Url -> option str;
  url_port_or_known_default : Url -> option N;
  show_ip : IpAddr -> str;
}.

Section guard.
Context `{UrlEnv}.

(** [Display for SsrfError] *)
Definition ssrf_error_text (e : SsrfError) : str :=
  match e with
  | InvalidUrl e => $"invalid URL: " ++ e
  | ForbiddenScheme s => $"forbidden URL scheme: " ++ s
  | CredentialsInUrl => $"URL must not embed credentials"
  | MissingHost => $"URL has no host"
  | DeniedHost h => $"host is denied by policy: " ++ h
  | DnsFailure e => $"DNS resolution failed: " ++ e
  | BlockedAddress host addr reason =>
    $"host " ++ host ++ $" resolves to blocked address " ++ show_ip addr
    ++ $" (" ++ reason ++ $")"
  end.

Definition parse_and_check_url (raw : str) : outcome SsrfError Url :=
  match url_parse (trim raw) with
  | Err e => Err (InvalidUrl e)
  | Panic => Panic
  | Ok url =>
    if decide (url_scheme url = $"http" \/ url_scheme url = $"https") then
      if decide (url_username url <> [] \/ is_Some (url_password url)) then Err CredentialsInUrl
      else match url_host_str url with
      | None => Err MissingHost
      | Some _ => Ok url
      end
    else Err (ForbiddenScheme (url_scheme url))
  end.

Record ValidatedUrl : Type := {
  vu_url : Url;
  vu_host : str;
  vu_addrs : list (IpAddr * N);
}.

(** The first blocked address, with its reason. *)
Fixpoint first_blocked (addrs : list (IpAddr * N)) (allow_private : bool) : option (IpAddr * str) :=
  match addrs with
  | [] => None
  | sa :: addrs' =>
    match classify_ip sa.1 allow_private with
    | Some reason => Some (sa.1, reason)
    | None => first_blocked addrs' allow_private
    end
  end.

(** [lookup_host] is the resolver's answer for this host and port. *)
Definition validate_outbound_url (lookup_host : str -> N -> outcome str (list (IpAddr * N)))
    (raw : str) (policy : EgressPolicy) : outcome SsrfError ValidatedUrl :=
  obind (parse_and_check_url raw) (fun url =>
  obind (ok_or (url_host_str url) MissingHost) (fun host_str =>
  let host := to_ascii_lowercase host_str in
  if bool_decide (host ∈ ALWAYS_DENIED_HOSTS)
     || existsb (fun h => bool_decide (to_ascii_lowercase h = host)) (extra_denied_hosts policy)
  then Err (DeniedHost host)
  else
    let port := default 443%N (url_port_or_known_default url) in
    match lookup_host host port with
    | Err e => Err (DnsFailure e)
    | Panic => Panic
    | Ok [] => Err (DnsFailure (host ++ $" resolved to no addresses"))
    | Ok addrs =>
      match first_blocked addrs (allow_private_ranges policy) with
      | Some (addr, reason) => Err (BlockedAddress host addr reason)
      | None => Ok {| vu_url := url; vu_host := host; vu_addrs := addrs |}
      end
    end)).
End guard.

(** ** Address blocks, for reference *)

(** [addr] lies in the block of the first [len] of [width] bits of [base]. *)
Definition in_block (width len base addr : N) : bool :=
  (N.shiftr addr (width - len) =? N.shiftr base (width - len))%N.

(** A dotted quad. *)
Definition quad (a b c d : N) : N := (a * 2 ^ 24 + b * 2 ^ 16 + c * 2 ^ 8 + d)%N.

(** The IPv4 blocks that are never a provider's address: this network,
    loopback, link-local (with the metadata address), shared address space,
    multicast, broadcast. *)
Definition blocked_v4 : list (N * N) :=
  [(8, quad 0 0 0 0); (8, quad 127 0 0 0); (16, quad 169 254 0 0); (10, quad 100 64 0 0);
   (4, quad 224 0 0 0); (32, quad 255 255 255 255)]%N.

(** RFC 1918. *)
Definition private_v4 : list (N * N) :=
  [(8, quad 10 0 0 0); (12, quad 172 16 0 0); (16, quad 192 168 0 0)]%N.

Definition in_any (width addr : N) (blocks : list (N * N)) : bool :=
  existsb (fun b => in_block width b.1 b.2 addr) blocks.

Definition v4_refused (allow_private : bool) (v : N) : bool :=
  in_any 32 v blocked_v4 || (negb allow_private && in_any 32 v private_v4).

(** Multicast and link-local; unique-local. *)
Definition blocked_v6 : list (N * N) := [(8, 0xff00 * 2 ^ 112); (10, 0xfe80 * 2 ^ 112)]%N.
Definition private_v6 : list (N * N) := [(7, 0xfc00 * 2 ^ 112)]%N.

(** An IPv6 address that embeds an IPv4 one (mapped or compatible) is judged
    as that address. *)
Definition ip_refused (allow_private : bool) (a : IpAddr) : bool :=
  match a with
  | V4 v => v4_refused allow_private v
  | V6 v =>
    if in_block 128 96 (0xffff * 2 ^ 32) v || in_block 128 96 0 v
    then v4_refused allow_private (v mod 2 ^ 32)
    else in_any 128 v blocked_v6 || (negb allow_private && in_any 128 v private_v6)
  end.

(** ** Properties of the egress guard

    The classification is exactly membership in a list of address blocks, with
    embedded IPv4 addresses judged as such; a validated URL only has addresses
    outside them, and never the IPv4 metadata address. *)

(** ** Bits *)

Lemma land_low x k : N.land x (2 ^ k - 1) = (x mod 2 ^ k)%N.
Proof. rewrite <- N.pred_sub, <- N.ones_equiv. apply N.land_ones. Qed.

Lemma octet_div v i : octet v i = ((v / 2 ^ (8 * (3 - i))) mod 256)%N.
Proof. unfold octet. rewrite N.shiftr_div_pow2. apply (land_low _ 8). Qed.

Lemma segment_div v i : segment v i = ((v / 2 ^ (16 * (7 - i))) mod 65536)%N.
Proof. unfold segment. rewrite N.shiftr_div_pow2. apply (land_low _ 16). Qed.

(** A mask of leading ones keeps the quotient. *)
Lemma land_high x n k :
  (x < 2 ^ (n + k))%N -> N.land x ((2 ^ n - 1) * 2 ^ k) = ((x / 2 ^ k) * 2 ^ k)%N.
Proof.
  intros Hx. rewrite <- N.pred_sub, <- N.ones_equiv, <- !N.shiftl_mul_pow2, <- N.shiftr_div_pow2.
  apply N.bits_inj. intros i. rewrite N.land_spec.
  destruct (N.lt_ge_cases i k) as [Hi|Hi].
  - rewrite !N.shiftl_spec_low by done. apply andb_false_r.
  - rewrite !N.shiftl_spec_high' by done. rewrite N.shiftr_spec'.
    replace (i - k + k)%N with i by lia. destruct (N.lt_ge_cases (i - k) n) as [Hn|Hn].
    + rewrite N.ones_spec_low by done. apply andb_true_r.
    + rewrite N.ones_spec_high by done. rewrite andb_false_r. symmetry.
      destruct (N.eq_dec x 0%N) as [->|Hne]; [apply N.bits_0|].
      apply N.bits_above_log2. apply N.log2_lt_pow2; [lia|].
      eapply N.lt_le_trans; [exact Hx|]. apply N.pow_le_mono_r; lia.
Qed.

(** ** Each predicate as a block *)

Section v4_blocks.
Variable v : N.
Hypothesis Hv : (v < 2 ^ 32)%N.

(** The first two octets. *)
Lemma top_octets : (v / 2 ^ 16 = octet v 0 * 256 + octet v 1 /\ octet v 0 < 256 /\ octet v 1 < 256
  /\ v / 2 ^ 24 = octet v 0)%N.
Proof.
  rewrite !octet_div. change (2 ^ (8 * (3 - 0)))%N with 16777216%N.
  change (2 ^ (8 * (3 - 1)))%N with 65536%N. change (2 ^ 16)%N with 65536%N.
  change (2 ^ 24)%N with 16777216%N. change (2 ^ 32)%N with 4294967296%N in Hv.
  zify. Z.to_euclidean_division_equations. lia.
Qed.

(** A test on the leading bits is a test on the leading octets. *)
Ltac by_octets :=
  intros; destruct top_octets as (H16 & Ha & Hb & H24); apply eq_true_iff_eq;
  unfold in_block, v4_is_loopback, v4_is_link_local, v4_is_multicast, is_cgnat_v4;
  rewrite !N.shiftr_div_pow2;
  change (32 - 8)%N with 24%N; change (32 - 16)%N with 16%N; change (32 - 10)%N with (16 + 6)%N;
  change (32 - 4)%N with (24 + 4)%N; change (32 - 12)%N with (16 + 4)%N;
  rewrite ?N.pow_add_r, <- ?N.Div0.div_div, ?H16, ?H24;
  match goal with |- (_ =? ?c)%N = true <-> _ => let c' := eval vm_compute in c in change c with c' end;
  change (2 ^ 6)%N with 64%N; change (2 ^ 4)%N with 16%N;
  generalize dependent (octet v 0); generalize dependent (octet v 1); intros;
  rewrite ?andb_true_iff, ?orb_true_iff, ?N.eqb_eq, ?N.leb_le;
  zify; Z.to_euclidean_division_equations; lia.

Lemma block_this_network : in_block 32 8 (quad 0 0 0 0) v = (octet v 0 =? 0)%N.
Proof. by_octets. Qed.
Lemma block_loopback : in_block 32 8 (quad 127 0 0 0) v = v4_is_loopback v.
Proof. by_octets. Qed.
Lemma block_link_local : in_block 32 16 (quad 169 254 0 0) v = v4_is_link_local v.
Proof. by_octets. Qed.
Lemma block_cgnat : in_block 32 10 (quad 100 64 0 0) v = is_cgnat_v4 v.
Proof. by_octets. Qed.
Lemma block_multicast : in_block 32 4 (quad 224 0 0 0) v = v4_is_multicast v.
Proof. by_octets. Qed.
Lemma block_10 : in_block 32 8 (quad 10 0 0 0) v = (octet v 0 =? 10)%N.
Proof. by_octets. Qed.
Lemma block_172 :
  in_block 32 12 (quad 172 16 0 0) v = (octet v 0 =? 172)%N && (16 <=? octet v 1)%N && (octet v 1 <=? 31)%N.
Proof. by_octets. Qed.
Lemma block_192 : in_block 32 16 (quad 192 168 0 0) v = (octet v 0 =? 192)%N && (octet v 1 =? 168)%N.
Proof. by_octets. Qed.
Lemma block_broadcast : in_block 32 32 (quad 255 255 255 255) v = v4_is_broadcast v.
Proof. unfold in_block. change (32 - 32)%N with 0%N. by rewrite !N.shiftr_0_r. Qed.

(** The two single addresses tested first are in blocks tested later. *)
Lemma metadata_link_local : (v =? CLOUD_METADATA_V4)%N = true -> v4_is_link_local v = true.
Proof. intros ->%N.eqb_eq. by vm_compute. Qed.
Lemma unspecified_this_network : v4_is_unspecified v = true -> (octet v 0 =? 0)%N = true.
Proof. intros E. apply N.eqb_eq in E. rewrite E. by vm_compute. Qed.

Lemma classify_v4_refused allow : is_Some (classify_v4 v allow) <-> v4_refused allow v = true.
Proof.
  unfold v4_refused, in_any, blocked_v4, private_v4. cbn [existsb fst snd].
  rewrite block_this_network, block_loopback, block_link_local, block_cgnat, block_multicast,
    block_broadcast, block_10, block_172, block_192.
  pose proof metadata_link_local. pose proof unspecified_this_network.
  unfold classify_v4, v4_is_private.
  destruct (v =? CLOUD_METADATA_V4)%N, (v4_is_loopback v), (v4_is_link_local v), (v4_is_broadcast v),
    (v4_is_multicast v), (v4_is_unspecified v), (octet v 0 =? 0)%N, (is_cgnat_v4 v); cbn [orb andb negb];
    try (split; [done|by eexists]); try (by intuition congruence).
  rewrite orb_false_r, <- orb_assoc, andb_comm.
  case_match; split; (done || (by eexists) || (by intros [])).
Qed.
End v4_blocks.

(** ** IPv6 *)

Lemma lor_shiftl a b k : (b < 2 ^ k)%N -> N.lor (N.shiftl a k) b = (a * 2 ^ k + b)%N.
Proof.
  intros Hb. assert (N.land (N.shiftl a k) b = 0%N) as Hz.
  { destruct (N.eq_dec b 0%N) as [->|Hne]; [apply N.land_0_r|].
    apply N.bits_inj. intros i. rewrite N.land_spec, N.bits_0. destruct (N.lt_ge_cases i k) as [Hi|Hi].
    - by rewrite N.shiftl_spec_low.
    - rewrite (N.bits_above_log2 b); [apply andb_false_r|]. apply N.log2_lt_pow2; [lia|].
      eapply N.lt_le_trans; [exact Hb|]. apply N.pow_le_mono_r; lia. }
  rewrite <- N.shiftl_mul_pow2, N.add_nocarry_lxor by done. symmetry. by apply N.lxor_lor.
Qed.

Lemma ipv4_new_quad a b c d :
  (b < 256)%N -> (c < 256)%N -> (d < 256)%N -> ipv4_new a b c d = quad a b c d.
Proof.
  intros. unfold ipv4_new, quad.
  rewrite (lor_shiftl c d 8) by (simpl; lia). rewrite (lor_shiftl b _ 16) by (simpl; lia).
  rewrite (lor_shiftl a _ 24) by (simpl; lia). lia.
Qed.

Section v6_blocks.
Variable v : N.
Hypothesis Hv : (v < 2 ^ 128)%N.

(** The quotients by powers of 2^16, one segment at a time. *)
Lemma quotient_step k j j' :
  j = (16 * (7 - k))%N -> j' = (j + 16)%N -> (v / 2 ^ j = v / 2 ^ j' * 65536 + segment v k)%N.
Proof.
  intros -> ->. rewrite segment_div. rewrite N.pow_add_r, <- N.Div0.div_div. change (2 ^ 16)%N with 65536%N.
  rewrite (N.mul_comm _ 65536). apply N.div_mod'.
Qed.

Lemma segment_lt k : (segment v k < 65536)%N.
Proof. rewrite segment_div. by apply N.mod_lt. Qed.

Lemma top_segments :
  (v / 2 ^ 112 = segment v 0
   /\ v / 2 ^ 32 = ((((segment v 0 * 65536 + segment v 1) * 65536 + segment v 2) * 65536
        + segment v 3) * 65536 + segment v 4) * 65536 + segment v 5
   /\ v = v / 2 ^ 32 * 2 ^ 32 + segment v 6 * 65536 + segment v 7)%N.
Proof.
  pose proof (quotient_step 0 112 128 eq_refl eq_refl) as Q0.
  pose proof (quotient_step 1 96 112 eq_refl eq_refl) as Q1.
  pose proof (quotient_step 2 80 96 eq_refl eq_refl) as Q2.
  pose proof (quotient_step 3 64 80 eq_refl eq_refl) as Q3.
  pose proof (quotient_step 4 48 64 eq_refl eq_refl) as Q4.
  pose proof (quotient_step 5 32 48 eq_refl eq_refl) as Q5.
  pose proof (quotient_step 6 16 32 eq_refl eq_refl) as Q6.
  pose proof (quotient_step 7 0 16 eq_refl eq_refl) as Q7.
  rewrite (N.div_small v (2 ^ 128)) in Q0 by done. change (2 ^ 0)%N with 1%N in Q7. rewrite N.div_1_r in Q7.
  split; [lia|]. split; lia.
Qed.

Lemma low_v4 : v6_low_v4 v = (v mod 2 ^ 32)%N.
Proof.
  destruct top_segments as (_ & _ & Hlow). pose proof (segment_lt 6). pose proof (segment_lt 7).
  unfold v6_low_v4. rewrite !N.shiftr_div_pow2, !(land_low _ 8).
  rewrite ipv4_new_quad by (first [by apply N.mod_lt|apply N.Div0.div_lt_upper_bound; lia]).
  unfold quad. change (2 ^ 8)%N with 256%N.
  pose proof (N.div_mod' (segment v 6) 256) as E6. pose proof (N.div_mod' (segment v 7) 256) as E7.
  apply (N.mod_unique _ _ (v / 2 ^ 32)); lia.
Qed.

Lemma mapped_block : is_Some (to_ipv4_mapped v) <-> in_block 128 96 (0xffff * 2 ^ 32) v = true.
Proof.
  destruct top_segments as (_ & Htop & _).
  pose proof (segment_lt 0). pose proof (segment_lt 1). pose proof (segment_lt 2).
  pose proof (segment_lt 3). pose proof (segment_lt 4). pose proof (segment_lt 5).
  unfold to_ipv4_mapped, in_block. change (128 - 96)%N with 32%N. rewrite N.shiftr_div_pow2, Htop.
  change (N.shiftr _ 32) with 0xffff%N. cbn [forallb]. rewrite N.eqb_eq.
  split.
  - case_match eqn:E; [|by intros []]. intros _.
    rewrite !andb_true_iff, !N.eqb_eq in E. destruct E as [(-> & -> & -> & -> & -> & _) ->]. done.
  - intros E. assert (segment v 0 = 0 /\ segment v 1 = 0 /\ segment v 2 = 0 /\ segment v 3 = 0
      /\ segment v 4 = 0 /\ segment v 5 = 0xffff)%N as (-> & -> & -> & -> & -> & ->) by lia. by eexists.
Qed.

Lemma compatible_block :
  forallb (fun i => segment v i =? 0)%N [0; 1; 2; 3; 4; 5]%N = in_block 128 96 0 v.
Proof.
  destruct top_segments as (_ & Htop & _).
  unfold in_block. change (128 - 96)%N with 32%N. rewrite N.shiftr_div_pow2, Htop.
  change (N.shiftr 0 32) with 0%N. cbn [forallb]. apply eq_true_iff_eq.
  rewrite !andb_true_iff, !N.eqb_eq. split.
  - intros (-> & -> & -> & -> & -> & -> & _). done.
  - intros E. repeat split; lia.
Qed.

(** A mask of [n] ones tests the first [n] bits. *)
Lemma mask_block n s :
  (0 < n <= 16)%N -> (s mod 2 ^ (16 - n) = 0)%N ->
  (N.land (segment v 0) ((2 ^ n - 1) * 2 ^ (16 - n)) =? s)%N = in_block 128 n (s * 2 ^ 112) v.
Proof.
  intros Hn Hs. destruct top_segments as (Htop & _ & _). pose proof (segment_lt 0) as Hlt.
  rewrite land_high by (replace (n + (16 - n))%N with 16%N by lia; exact Hlt).
  unfold in_block. rewrite !N.shiftr_div_pow2.
  replace (128 - n)%N with (112 + (16 - n))%N by lia.
  rewrite N.pow_add_r, <- !N.Div0.div_div, N.div_mul, Htop by lia.
  apply eq_true_iff_eq. rewrite !N.eqb_eq.
  assert (2 ^ (16 - n) <> 0)%N by (apply N.pow_nonzero; lia).
  pose proof (N.div_mod' s (2 ^ (16 - n))) as Es. rewrite Hs in Es. split.
  - intros <-. by rewrite N.div_mul.
  - intros ->. lia.
Qed.

Lemma classify_v6_refused allow : is_Some (classify_ip (V6 v) allow) <-> ip_refused allow (V6 v) = true.
Proof.
  cbn [classify_ip ip_refused]. pose proof mapped_block as Hm.
  assert (v mod 2 ^ 32 < 2 ^ 32)%N as Hlow by (by apply N.mod_lt).
  destruct (to_ipv4_mapped v) as [v4|] eqn:E.
  - rewrite (proj1 Hm) by (by eexists). cbn [orb].
    assert (v4 = (v mod 2 ^ 32)%N) as ->.
    { unfold to_ipv4_mapped in E. rewrite low_v4 in E. by case_match; simplify_eq. }
    by apply classify_v4_refused.
  - assert (in_block 128 96 (0xffff * 2 ^ 32) v = false) as ->.
    { apply not_true_is_false. rewrite <- Hm. by intros []. }
    cbn [orb]. rewrite <- compatible_block, low_v4. unfold v6_is_loopback, v6_is_unspecified.
    destruct (N.eqb_spec v 1) as [->|]; [split; [by vm_compute|by eexists]|].
    destruct (N.eqb_spec v 0) as [->|]; [split; [by vm_compute|by eexists]|].
    destruct (forallb _ _); [by apply classify_v4_refused|].
    unfold in_any, blocked_v6, private_v6, v6_is_multicast, is_v6_link_local, is_v6_unique_local.
    cbn [existsb fst snd]. rewrite <- (mask_block 8 0xff00), <- (mask_block 10 0xfe80), <- (mask_block 7 0xfc00)
      by (done || (split; done)).
    change ((2 ^ 8 - 1) * 2 ^ (16 - 8))%N with 0xff00%N. change ((2 ^ 10 - 1) * 2 ^ (16 - 10))%N with 0xffc0%N.
    change ((2 ^ 7 - 1) * 2 ^ (16 - 7))%N with 0xfe00%N. rewrite !orb_false_r, (andb_comm (negb allow)).
    repeat case_match; cbn [orb]; split; (done || (by eexists) || (by intros [])).
Qed.
End v6_blocks.

Lemma classify_ip_refused a allow :
  ip_wf a -> is_Some (classify_ip a allow) <-> ip_refused allow a = true.
Proof. destruct a; intros Hwf; [by apply (classify_v4_refused _ Hwf)|by apply (classify_v6_refused _ Hwf)]. Qed.

(** Address classification is membership in the blocked address blocks:
    for every IPv4 and IPv6 address, [classify_ip] gives a reason exactly when
    the address (or the IPv4 address it embeds, mapped or compatible) lies in
    this-network, loopback, link-local, shared, multicast or broadcast space,
    or, unless the deployment allows it, in private space. *)
Theorem classify_ip_blocks (a : IpAddr) (allow : bool) :
  ip_wf a -> is_Some (classify_ip a allow) <-> ip_refused allow a = true.
Proof. apply classify_ip_refused. Qed.

(** The metadata address, in each of the forms the classification unwraps. *)
Definition metadata_forms : list IpAddr :=
  [V4 (quad 169 254 169 254); V6 (0xffff * 2 ^ 32 + quad 169 254 169 254)%N;
   V6 (quad 169 254 169 254)].

Lemma metadata_refused allow : Forall (fun a => ip_refused allow a = true) metadata_forms.
Proof. destruct allow; decide_compute. Qed.

Lemma first_blocked_None addrs allow :
  first_blocked addrs allow = None <-> Forall (fun sa => classify_ip sa.1 allow = None) addrs.
Proof.
  induction addrs as [|sa addrs IH]; [by split|]. cbn [first_blocked]. rewrite Forall_cons.
  destruct (classify_ip sa.1 allow); [|naive_solver]. split; [done|]. by intros [? _].
Qed.

Lemma classify_None_refused a allow :
  ip_wf a -> classify_ip a allow = None <-> ip_refused allow a = false.
Proof.
  intros Hwf. rewrite <- not_true_iff_false, <- classify_ip_refused by done.
  rewrite eq_None_not_Some. done.
Qed.

Section validate.
Context `{UrlEnv}.
Variable lookup_host : str -> N -> outcome str (list (IpAddr * N)).
Hypothesis lookup_wf : forall h p l, lookup_host h p = Ok l -> Forall (fun sa => ip_wf sa.1) l.

(** C24: What the guard lets out: an accepted URL parses as http or https
    without credentials and with a host that is not denied, the host resolved
    to at least one address, and every resolved address lies outside the
    blocked blocks; the accepted value carries exactly those addresses, and
    none of them is the IPv4 metadata address in any form, whatever the
    policy. *)
Theorem validate_outbound_url_sound raw policy v :
  validate_outbound_url lookup_host raw policy = Ok v ->
  (url_parse (trim raw) = Ok (vu_url v)
   /\ (url_scheme (vu_url v) = $"http" \/ url_scheme (vu_url v) = $"https")
   /\ url_username (vu_url v) = [] /\ url_password (vu_url v) = None
   /\ (to_ascii_lowercase <$> url_host_str (vu_url v)) = Some (vu_host v)
   /\ vu_host v ∉ ALWAYS_DENIED_HOSTS
   /\ Forall (fun h => to_ascii_lowercase h <> vu_host v) (extra_denied_hosts policy))
  /\ lookup_host (vu_host v) (default 443%N (url_port_or_known_default (vu_url v))) = Ok (vu_addrs v)
  /\ vu_addrs v <> []
  /\ Forall (fun sa => ip_refused (allow_private_ranges policy) sa.1 = false) (vu_addrs v)
  /\ Forall (fun sa => sa.1 ∉ metadata_forms) (vu_addrs v).
Proof.
  unfold validate_outbound_url, parse_and_check_url. intros Hval.
  apply obind_Ok in Hval as (url & Hurl & Hval).
  destruct (url_parse (trim raw)) as [u| |] eqn:Hp; [|done..].
  case_decide as Hsch; [|done]. case_decide as Hcred; [done|].
  destruct (url_host_str u) as [hs|] eqn:Hh; [|done]. injection Hurl as ->.
  rewrite Hh in Hval. cbn [ok_or obind] in Hval.
  destruct (bool_decide _ || _) eqn:Hden in Hval; [done|].
  apply orb_false_elim in Hden as [Hden%bool_decide_eq_false Hext].
  destruct (lookup_host _ _) as [addrs| |] eqn:Hl in Hval; [|done..].
  assert (addrs <> [] /\ first_blocked addrs (allow_private_ranges policy) = None
    /\ v = {| vu_url := url; vu_host := to_ascii_lowercase hs; vu_addrs := addrs |}) as (Hne & Hfb & ->).
  { destruct addrs as [|sa addrs]; [done|].
    destruct (first_blocked (sa :: addrs) _) as [[? ?]|] eqn:Hfb; [done|]. by simplify_eq. }
  cbn [vu_url vu_host vu_addrs].
  assert (Forall (fun sa => ip_refused (allow_private_ranges policy) sa.1 = false) addrs) as Hok.
  { apply first_blocked_None in Hfb. apply lookup_wf in Hl. rewrite Forall_forall in Hfb, Hl |- *.
    intros sa Hin. apply classify_None_refused; auto. }
  split; [|split; [done|split; [done|split; [done|]]]].
  - split; [done|]. split; [done|].
    split; [destruct (url_username url); [done|destruct Hcred; by left]|].
    split; [destruct (url_password url); [destruct Hcred; right; by eexists|done]|].
    split; [by rewrite Hh|]. split; [done|].
    apply Forall_forall. intros h Hin Heq. apply not_true_iff_false in Hext. apply Hext.
    apply existsb_exists. exists h. rewrite <- list_elem_of_In. split; [done|]. by apply bool_decide_eq_true.
  - eapply Forall_impl; [exact Hok|]. intros sa Hsa Hin.
    pose proof (metadata_refused (allow_private_ranges policy)) as Hm. rewrite Forall_forall in Hm.
    specialize (Hm _ Hin). simpl in Hsa, Hm. congruence.
Qed.
End validate.

(** The IPv6 metadata address of one provider, [fd00:ec2::254], lies in
    unique-local space, so a deployment that allows private ranges lets it
    out. *)
Example v6_metadata_allowed :
  classify_ip (V6 0xfd000ec2000000000000000000000254) false = Some $"unique-local"
  /\ classify_ip (V6 0xfd000ec2000000000000000000000254) true = None.
Proof. by vm_compute. Qed.

(** ** A concrete resolver *)

Definition demo_url_env : UrlEnv := {|
  Url := str;
  url_parse s := Ok s;
  url_scheme _ := $"https";
  url_username _ := [];
  url_password _ := None;
  url_host_str u := Some u;
  url_port_or_known_default _ := Some 443%N;
  show_ip _ := [];
|}.

Definition demo_lookup (h : str) (p : N) : outcome str (list (IpAddr * N)) :=
  Ok [(V4 (quad 8 8 8 8), p)].

Lemma validate_outbound_url_sound_witness :
  Forall (fun sa : IpAddr * N => sa.1 ∉ metadata_forms) [(V4 (quad 8 8 8 8), 443%N)].
Proof.
  destruct (@validate_outbound_url_sound demo_url_env demo_lookup) with
    (raw := $"api.example.com") (policy := deny_private)
    (v := @Build_ValidatedUrl demo_url_env $"api.example.com" $"api.example.com"
            [(V4 (quad 8 8 8 8), 443%N)]) as (_ & _ & _ & _ & H).
  - intros h p l [= <-]. repeat constructor.
  - vm_compute. reflexivity.
  - exact H.
Defined.

Lemma classify_ip_blocks_witness :
  is_Some (classify_ip (V6 (0xffff * 2 ^ 32 + quad 10 0 0 1)) false)
  <-> ip_refused false (V6 (0xffff * 2 ^ 32 + quad 10 0 0 1)) = true.
Proof. apply (classify_ip_blocks (V6 (0xffff * 2 ^ 32 + quad 10 0 0 1)) false). reflexivity. Defined.
