(* ===== verification/AdminAudit.v ===== *)
(** * The administrative audit trail ([db/admin_audit_repo.rs])

    The closed vocabulary of recorded actions, the actor and the entry, and
    the single writer of the [admin_audit] table.  The table is a list, oldest
    row first. *)

From S2P Require Import Prelude Rstr Json Types.

Definition TARGET_LABEL_MAX : nat := 200.

Inductive AdminAuditAction : Type :=
  | ApiKeyCreated
  | ApiKeyRevoked
  | ApiKeyRotated
  | ProviderCredentialCreated
  | ProviderCredentialUpdated
  | ProviderCredentialDeleted
  | PolicyRuleCreated
  | PolicyRuleUpdated
  | PolicyRuleDeleted
  | PolicyRuleEnabledChanged
  | PolicyRuleDryRunChanged
  | UserCreated
  | TwoFactorEnrollmentStarted
  | TwoFactorEnabled
  | TwoFactorDisabled
  | LicenseActivated
  | LicenseCleared
  | BudgetUpdated
  | SecureModeUpdated
  | SidecarPolicyUpdated
  | LoginSucceeded
  | SecondFactorVerified
  | FileScanRequested.

#[export] Instance admin_audit_action_eq_dec : EqDecision AdminAuditAction.
Proof. solve_decision. Defined.

Definition admin_action_as_str (a : AdminAuditAction) : str :=
  match a with
  | ApiKeyCreated => $"api_key.created"
  | ApiKeyRevoked => $"api_key.revoked"
  | ApiKeyRotated => $"api_key.rotated"
  | ProviderCredentialCreated => $"provider_credential.created"
  | ProviderCredentialUpdated => $"provider_credential.updated"
  | ProviderCredentialDeleted => $"provider_credential.deleted"
  | PolicyRuleCreated => $"policy_rule.created"
  | PolicyRuleUpdated => $"policy_rule.updated"
  | PolicyRuleDeleted => $"policy_rule.deleted"
  | PolicyRuleEnabledChanged => $"policy_rule.enabled_changed"
  | PolicyRuleDryRunChanged => $"policy_rule.dry_run_changed"
  | UserCreated => $"user.created"
  | TwoFactorEnrollmentStarted => $"two_factor.enrollment_started"
  | TwoFactorEnabled => $"two_factor.enabled"
  | TwoFactorDisabled => $"two_factor.disabled"
  | LicenseActivated => $"license.activated"
  | LicenseCleared => $"license.cleared"
  | BudgetUpdated => $"budget.updated"
  | SecureModeUpdated => $"secure_mode.updated"
  | SidecarPolicyUpdated => $"sidecar_policy.updated"
  | LoginSucceeded => $"auth.login_succeeded"
  | SecondFactorVerified => $"auth.second_factor_verified"
  | FileScanRequested => $"file_scan.requested"
  end.

Definition target_type (a : AdminAuditAction) : str :=
  match a with
  | ApiKeyCreated | ApiKeyRevoked | ApiKeyRotated => $"api_key"
  | ProviderCredentialCreated | ProviderCredentialUpdated | ProviderCredentialDeleted => $"provider"
  | PolicyRuleCreated | PolicyRuleUpdated | PolicyRuleDeleted
  | PolicyRuleEnabledChanged | PolicyRuleDryRunChanged => $"policy_rule"
  | UserCreated | TwoFactorEnrollmentStarted | TwoFactorEnabled | TwoFactorDisabled
  | LoginSucceeded | SecondFactorVerified => $"user"
  | LicenseActivated | LicenseCleared => $"license"
  | BudgetUpdated | SecureModeUpdated | SidecarPolicyUpdated => $"workspace"
  | FileScanRequested => $"file_scan"
  end.

Record AdminActor : Type := {
  aa_workspace_id : Uuid;
  aa_user_id : option Uuid;
  aa_email : option str;
  aa_role : option str;
}.

(** [AdminActor::resolve]: a failed lookup of the e-mail is no e-mail. *)
Definition AdminActor_resolve (lookup : result (option str)) (ws user : Uuid) (role : str)
    : AdminActor := {|
  aa_workspace_id := ws; aa_user_id := Some user;
  aa_email := match lookup with Ok e => e | _ => None end;
  aa_role := Some role;
|}.

Record AdminAuditEntry : Type := {
  ae_action : AdminAuditAction;
  ae_target_id : option Uuid;
  ae_target_label : option str;
  ae_target_user_id : option Uuid;
  ae_target_email : option str;
  ae_target_role : option str;
  ae_detail : Value;
}.

Definition on_object (action : AdminAuditAction) (target_id : Uuid) (label : option str)
    : AdminAuditEntry := {|
  ae_action := action; ae_target_id := Some target_id; ae_target_label := label;
  ae_target_user_id := None; ae_target_email := None; ae_target_role := None;
  ae_detail := Object [];
|}.

Definition on_named_object (action : AdminAuditAction) (label : option str) : AdminAuditEntry := {|
  ae_action := action; ae_target_id := None; ae_target_label := label;
  ae_target_user_id := None; ae_target_email := None; ae_target_role := None;
  ae_detail := Object [];
|}.

Definition with_detail (e : AdminAuditEntry) (detail : Value) : AdminAuditEntry := {|
  ae_action := ae_action e; ae_target_id := ae_target_id e; ae_target_label := ae_target_label e;
  ae_target_user_id := ae_target_user_id e; ae_target_email := ae_target_email e;
  ae_target_role := ae_target_role e; ae_detail := detail;
|}.

Definition targeting_user (e : AdminAuditEntry) (user_id : Uuid) (email role : str)
    : AdminAuditEntry := {|
  ae_action := ae_action e; ae_target_id := ae_target_id e; ae_target_label := ae_target_label e;
  ae_target_user_id := Some user_id; ae_target_email := Some email;
  ae_target_role := Some role; ae_detail := ae_detail e;
|}.

Definition on_own_account (action : AdminAuditAction) (user_id : Uuid) (email role : str)
    : AdminAuditEntry :=
  targeting_user (on_object action user_id None) user_id email role.

(** [label.chars().take(TARGET_LABEL_MAX)] *)
Definition bounded_label (label : option str) : option str :=
  (fun value => mjoin (take TARGET_LABEL_MAX (chars value))) <$> label.

Record AdminAuditRow : Type := {
  ar_workspace_id : Uuid;
  ar_action : str;
  ar_actor_user_id : option Uuid;
  ar_actor_email : option str;
  ar_actor_role : option str;
  ar_target_type : str;
  ar_target_id : option Uuid;
  ar_target_label : option str;
  ar_target_user_id : option Uuid;
  ar_target_email : option str;
  ar_target_role : option str;
  ar_detail : Value;
}.

Definition audit_row (actor : AdminActor) (e : AdminAuditEntry) : AdminAuditRow := {|
  ar_workspace_id := aa_workspace_id actor;
  ar_action := admin_action_as_str (ae_action e);
  ar_actor_user_id := aa_user_id actor;
  ar_actor_email := aa_email actor;
  ar_actor_role := aa_role actor;
  ar_target_type := target_type (ae_action e);
  ar_target_id := ae_target_id e;
  ar_target_label := bounded_label (ae_target_label e);
  ar_target_user_id := ae_target_user_id e;
  ar_target_email := ae_target_email e;
  ar_target_role := ae_target_role e;
  ar_detail := ae_detail e;
|}.

(** [write], inside the caller's transaction. *)
Definition audit_write (actor : AdminActor) (e : AdminAuditEntry) (table : list AdminAuditRow)
    : list AdminAuditRow := table ++ [audit_row actor e].

(** The movement of one field in a [detail.changed] object. *)
Definition changed_field (changed : list (str * Value)) (name : str) (before after : Value)
    : list (str * Value) :=
  if value_eqb before after then changed
  else obj_insert changed name (Object [($"before", before); ($"after", after)]).

(** Two actions never share a label. *)
Lemma admin_action_inj a b : admin_action_as_str a = admin_action_as_str b -> a = b.
Proof. destruct a, b; vm_compute; congruence. Qed.
