(* ===== verification/Limits.v ===== *)
(** * Rate and budget limits

    http/middleware/rate_limit.rs, the counters of redis/mod.rs,
    db/budget_repo.rs and the reconciliation of http/routes/openai.rs.

    [RateLimiter] is the in-memory sliding window; its mutex makes a call to
    [check] atomic, so concurrent callers are some sequence of calls.  Budget
    counters live in Redis: a key holds a signed 64-bit value and an optional
    expiry, and [INCRBY] is atomic.  The monotonic clock and Redis's clock are
    readings in nanoseconds and seconds passed to each call.  Formatting a date
    is chrono's. *)

From S2P Require Import Prelude Rstr Json Types AdminAudit.

(** ** The sliding window *)

Record RateLimiter : Type := {
  rl_window : Z;
  rl_max_requests : nat;
  rl_buckets : gmap str (list Z);
}.

Definition RateLimiter_new (max_requests : nat) (window_seconds : Z) : RateLimiter := {|
  rl_window := window_seconds * 10 ^ 9;
  rl_max_requests := max_requests;
  rl_buckets := ∅;
|}.

Definition with_buckets (rl : RateLimiter) (b : gmap str (list Z)) : RateLimiter := {|
  rl_window := rl_window rl; rl_max_requests := rl_max_requests rl; rl_buckets := b;
|}.

Definition BUCKET_CAP : nat := Pos.to_nat 100000.

(** Keep the instants at most a window old; [duration_since] saturates. *)
Definition retained (window now : Z) (entry : list Z) : list Z :=
  filter (fun instant => bool_decide (Z.max (now - instant) 0 <= window)%Z) entry.

Definition check (rl : RateLimiter) (key : str) (now : Z) : result unit * RateLimiter :=
  let trimmed := alter (retained (rl_window rl) now) key (rl_buckets rl) in
  if bool_decide (trimmed !! key = Some []) then
    (Ok tt, with_buckets rl (delete key trimmed))
  else if (BUCKET_CAP <? size trimmed)%nat then
    (Err (Forbidden $"rate limiter capacity exceeded"), with_buckets rl trimmed)
  else
    let entry := default [] (trimmed !! key) in
    if (rl_max_requests rl <=? length entry)%nat then
      (Err (Forbidden ($"rate limit exceeded for " ++ key)),
       with_buckets rl (<[key := entry]> trimmed))
    else (Ok tt, with_buckets rl (<[key := entry ++ [now]]> trimmed)).

(** The limiters of the process ([app_state.rs]). *)
Definition redis_rate_limiter : RateLimiter := RateLimiter_new 60 60.
Definition signup_rate_limiter : RateLimiter := RateLimiter_new 10 3600.

(** [enforce_rate_limit]: the key's bucket, then the workspace's.  A UUID is
    displayed by the uuid crate. *)
Definition enforce_rate_limit (show_uuid : Uuid -> str) (rl : RateLimiter)
    (api_key_id workspace_id : Uuid) (now1 now2 : Z) : result unit * RateLimiter :=
  match check rl ($"api_key:" ++ show_uuid api_key_id) now1 with
  | (Ok _, rl1) => check rl1 ($"workspace:" ++ show_uuid workspace_id) now2
  | r => r
  end.

(** ** Budget rows ([db/budget_repo.rs]) *)

Inductive BudgetBehavior : Type := BudgetBlock | BudgetWarn | BudgetFlag.

#[export] Instance budget_behavior_eq_dec : EqDecision BudgetBehavior.
Proof. solve_decision. Defined.

Definition behavior_as_db_str (b : BudgetBehavior) : str :=
  match b with
  | BudgetBlock => $"block"
  | BudgetWarn => $"warn"
  | BudgetFlag => $"flag"
  end.

Definition behavior_from_db_str (s : str) : result BudgetBehavior :=
  if decide (s = $"block") then Ok BudgetBlock
  else if decide (s = $"warn") then Ok BudgetWarn
  else if decide (s = $"flag") then Ok BudgetFlag
  else Err (Internal ($"unknown BudgetBehavior in DB: " ++ s)).

Record WorkspaceBudgetRow : Type := {
  wb_workspace_id : Uuid;
  wb_daily_token_limit : option Z;
  wb_monthly_token_limit : option Z;
  wb_behavior : BudgetBehavior;
}.

(** The stored row: its behaviour is text. *)
Record StoredBudget : Type := {
  sb_daily : option Z;
  sb_monthly : option Z;
  sb_behavior : str;
}.

Definition budget_row (ws : Uuid) (s : StoredBudget) : result WorkspaceBudgetRow :=
  obind (behavior_from_db_str (sb_behavior s)) (fun b => Ok {|
    wb_workspace_id := ws; wb_daily_token_limit := sb_daily s;
    wb_monthly_token_limit := sb_monthly s; wb_behavior := b |}).

(** [BudgetRepository::get], over the answer of its query. *)
Definition budget_get (ws : Uuid) (answer : result (option StoredBudget))
    : result (option WorkspaceBudgetRow) :=
  obind answer (fun row =>
    match row with
    | None => Ok None
    | Some s => obind (budget_row ws s) (fun b => Ok (Some b))
    end).

(** What [BudgetRepository::upsert] writes: the row and, when a field changed,
    the changed fields of the audit entry, in one transaction. *)
Definition json_opt (z : option Z) : Value :=
  match z with None => Null | Some z => Number (if (0 <=? z)%Z then PosInt (Z.to_N z) else NegInt z) end.

Definition budget_changes (before : option StoredBudget) (after : StoredBudget)
    : list (str * Value) :=
  let bd := match before with Some b => json_opt (sb_daily b) | None => Null end in
  let bm := match before with Some b => json_opt (sb_monthly b) | None => Null end in
  let bb := match before with Some b => VString (sb_behavior b) | None => Null end in
  let m1 := changed_field [] $"daily_token_limit" bd (json_opt (sb_daily after)) in
  let m2 := changed_field m1 $"monthly_token_limit" bm (json_opt (sb_monthly after)) in
  changed_field m2 $"behavior" bb (VString (sb_behavior after)).

Definition budget_upsert (ws : Uuid) (stored : option StoredBudget) (daily monthly : option Z)
    (behavior : BudgetBehavior) (tx : option ApiError)
    : result (WorkspaceBudgetRow * option (list (str * Value))) * option StoredBudget :=
  if bool_decide (default 0%Z daily < 0)%Z then
    (Err (BadRequest $"daily_token_limit must be >= 0"), stored)
  else if bool_decide (default 0%Z monthly < 0)%Z then
    (Err (BadRequest $"monthly_token_limit must be >= 0"), stored)
  else
    let after := {| sb_daily := daily; sb_monthly := monthly;
                    sb_behavior := behavior_as_db_str behavior |} in
    let changed := budget_changes stored after in
    match tx with
    | Some e => (Err e, stored)
    | None =>
      (obind (budget_row ws after) (fun row =>
         Ok (row, match changed with [] => None | _ => Some changed end)), Some after)
    end.

(** ** Redis counters ([redis/mod.rs]) *)

Abbreviation Counters := (gmap str (Z * option Z)).

Definition i64_max : Z := (2 ^ 63 - 1)%Z.
Definition in_i64 (z : Z) : bool := ((- 2 ^ 63 <=? z) && (z <=? i64_max))%Z.

(** A key past its expiry does not exist. *)
Definition live_counter (now : Z) (e : Z * option Z) : Prop :=
  match e.2 with None => True | Some at_ => (now < at_)%Z end.
#[export] Instance live_counter_dec now e : Decision (live_counter now e).
Proof. destruct e as [v [?|]]; unfold live_counter; simpl; apply _. Defined.

Definition read_counter (now : Z) (key : str) (c : Counters) : option (Z * option Z) :=
  e ← c !! key; if decide (live_counter now e) then Some e else None.

Record RedisIo : Type := {
  ri_now : Z;
  ri_incrby : option ApiError;   (* the checkout or the command failed *)
  ri_expire : bool;              (* the best-effort EXPIRE took effect *)
}.

(** [INCRBY], then [EXPIRE key ttl NX]. *)
Definition incr_and_get (io : RedisIo) (key : str) (delta ttl : Z) (c : Counters)
    : result Z * Counters :=
  match ri_incrby io with
  | Some e => (Err e, c)
  | None =>
    let cur := read_counter (ri_now io) key c in
    let v := (match cur with Some (v, _) => v | None => 0 end + delta)%Z in
    if in_i64 v then
      let exp := match cur with Some (_, exp) => exp | None => None end in
      let exp := match exp with
        | Some at_ => Some at_
        | None => if ri_expire io then Some (ri_now io + ttl)%Z else None
        end in
      (Ok v, <[key := (v, exp)]> c)
    else (Err (Internal $"redis: increment or decrement would overflow"), c)
  end.

Definition get_counter (now : Z) (fault : option ApiError) (key : str) (c : Counters) : result Z :=
  match fault with
  | Some e => Err e
  | None => Ok (match read_counter now key c with Some (v, _) => v | None => 0%Z end)
  end.

(** ** Budget enforcement *)

Inductive BudgetBucket : Type := Daily | Monthly.
Inductive BudgetOutcome : Type :=
  | Allow
  | Warn (b : BudgetBucket)
  | Flag (b : BudgetBucket)
  | Exceeded (b : BudgetBucket).
Inductive BudgetGate : Type := GatePass | GateWarn (b : BudgetBucket).

Inductive BudgetMetric : Type :=
  | BudgetEvent (behavior action : str)
  | BudgetRedisFailure.

Definition bucket_label (b : BudgetBucket) : str :=
  match b with Daily => $"daily" | Monthly => $"monthly" end.

Definition warning_bucket (g : BudgetGate) : option str :=
  match g with GateWarn b => Some (bucket_label b) | GatePass => None end.

Class BudgetKeys := {
  show_ws : Uuid -> str;
  fmt_day : Z -> str;      (* %Y%m%d *)
  fmt_month : Z -> str;    (* %Y%m *)
}.

Definition i64_of_u64 (n : N) : Z := Z.min (Z.of_N n) i64_max.

Definition daily_ttl : Z := (2 * 24 * 3600)%Z.
Definition monthly_ttl : Z := (32 * 24 * 3600)%Z.

Definition exceeded_bucket (b : WorkspaceBudgetRow) (daily_used monthly_used : Z)
    : option BudgetBucket :=
  if match wb_daily_token_limit b with Some l => (l <? daily_used)%Z | None => false end
  then Some Daily
  else if match wb_monthly_token_limit b with Some l => (l <? monthly_used)%Z | None => false end
  then Some Monthly
  else None.

Record BudgetIo : Type := {
  bi_row : result (option StoredBudget);
  bi_clock : Z;                (* Utc::now(), for the two key names *)
  bi_daily : RedisIo;
  bi_monthly : RedisIo;
}.

Section budget.
Context `{BudgetKeys}.

Definition budget_daily_key (clock : Z) (ws : Uuid) : str :=
  $"budget:" ++ show_ws ws ++ $":tokens:" ++ fmt_day clock.
Definition budget_monthly_key (clock : Z) (ws : Uuid) : str :=
  $"budget:" ++ show_ws ws ++ $":tokens:" ++ fmt_month clock.

(** The state is the counters and the metrics recorded. *)
Definition budget_check (io : BudgetIo) (ws : Uuid) (estimated : N) (c : Counters)
    : result BudgetOutcome * Counters * list BudgetMetric :=
  match budget_get ws (bi_row io) with
  | Err e => (Err e, c, [])
  | Panic => (Panic, c, [])
  | Ok None => (Ok Allow, c, [BudgetEvent $"none" $"allow"])
  | Ok (Some budget) =>
    let bs := behavior_as_db_str (wb_behavior budget) in
    let delta := i64_of_u64 estimated in
    let failed c := (Ok Allow, c, [BudgetRedisFailure; BudgetEvent bs $"allow"]) in
    match incr_and_get (bi_daily io) (budget_daily_key (bi_clock io) ws) delta daily_ttl c with
    | (Ok daily_used, c1) =>
      match incr_and_get (bi_monthly io) (budget_monthly_key (bi_clock io) ws) delta monthly_ttl c1 with
      | (Ok monthly_used, c2) =>
        match exceeded_bucket budget daily_used monthly_used with
        | None => (Ok Allow, c2, [BudgetEvent bs $"allow"])
        | Some bucket =>
          match wb_behavior budget with
          | BudgetBlock => (Ok (Exceeded bucket), c2, [BudgetEvent $"block" $"exceeded"])
          | BudgetWarn => (Ok (Warn bucket), c2, [BudgetEvent $"warn" $"warn"])
          | BudgetFlag => (Ok (Flag bucket), c2, [BudgetEvent $"flag" $"flag"])
          end
        end
      | (_, c2) => failed c2
      end
    | (_, c1) => failed c1
    end
  end.

Definition pre_check_budget (io : BudgetIo) (ws : Uuid) (estimated : N) (c : Counters)
    : result BudgetGate * Counters * list BudgetMetric :=
  let '(r, c', ms) := budget_check io ws estimated c in
  (match r with
   | Ok Allow | Ok (Flag _) => Ok GatePass
   | Ok (Warn b) => Ok (GateWarn b)
   | Ok (Exceeded b) => Err (BudgetExceeded (bucket_label b ++ $" token budget exceeded"))
   | Err e => Err e
   | Panic => Panic
   end, c', ms).

(** [adjust_workspace_tokens]: failures are counted, not reported. *)
Definition adjust_workspace_tokens (clock : Z) (io_d io_m : RedisIo) (ws : Uuid) (delta : Z)
    (c : Counters) : Counters * list BudgetMetric :=
  if (delta =? 0)%Z then (c, [])
  else
    let '(r1, c1) := incr_and_get io_d (budget_daily_key clock ws) delta daily_ttl c in
    let '(r2, c2) := incr_and_get io_m (budget_monthly_key clock ws) delta monthly_ttl c1 in
    (c2, (match r1 with Ok _ => [] | _ => [BudgetRedisFailure] end) ++
         (match r2 with Ok _ => [] | _ => [BudgetRedisFailure] end)).

(** ** Reconciliation ([http/routes/openai.rs]) *)

Definition total_tokens (usage : TokenUsage) : N :=
  (default 0 (input_tokens usage) + default 0 (output_tokens usage))%N.

Definition reconcile_workspace_tokens (clock : Z) (io_d io_m : RedisIo) (ws : Uuid)
    (usage : TokenUsage) (estimated : N) (c : Counters) : Counters * list BudgetMetric :=
  adjust_workspace_tokens clock io_d io_m ws
    (i64_of_u64 (total_tokens usage) - i64_of_u64 estimated) c.
End budget.

(** ~4 characters per token. *)
Definition estimate_tokens_from_text (text : str) : N :=
  ((N.of_nat (length (chars text)) + 3) / 4)%N.
