(* ===== verification/LimitsSpec.v ===== *)
(** * What the limits enforce

    The sliding window admits at most one request more than its limit in any
    window, and that one extra request is real; a blocking budget bounds the
    tokens of the requests it lets through. *)

From S2P Require Import Prelude Rstr Json Types Limits.

(** ** The sliding window *)

Definition is_ok {A} (r : result A) : bool := match r with Ok _ => true | _ => false end.

(** The calls of a limiter's life, with their verdicts. *)
Fixpoint run_checks (rl : RateLimiter) (calls : list (str * Z)) : list (str * Z * bool) :=
  match calls with
  | [] => []
  | (key, now) :: calls' =>
    let '(r, rl') := check rl key now in (key, now, is_ok r) :: run_checks rl' calls'
  end.

(** When the key's requests were let through. *)
Definition admitted (k : str) (tr : list (str * Z * bool)) : list Z :=
  omap (fun c : str * Z * bool => if decide (c.1.1 = k) then if c.2 then Some c.1.2 else None else None) tr.

Definition in_window (w a t : Z) : Prop := (a <= t <= a + w)%Z.
#[export] Instance in_window_dec w a t : Decision (in_window w a t).
Proof. unfold in_window; apply _. Defined.

Definition count_window (w a : Z) (ts : list Z) : nat := length (filter (in_window w a) ts).

Lemma count_window_app w a l1 l2 :
  count_window w a (l1 ++ l2) = (count_window w a l1 + count_window w a l2)%nat.
Proof. unfold count_window. by rewrite filter_app, length_app. Qed.

Lemma count_window_nil w a l : Forall (fun t => ~ in_window w a t) l -> count_window w a l = 0%nat.
Proof.
  unfold count_window. induction 1 as [|t l Ht _ IH]; [done|].
  by rewrite filter_cons_False.
Qed.

Lemma count_window_le w a l : (count_window w a l <= length l)%nat.
Proof. apply length_filter. Qed.

Lemma count_window_single w a t : count_window w a [t] = if decide (in_window w a t) then 1%nat else 0%nat.
Proof. unfold count_window. rewrite filter_cons, filter_nil. by case_decide. Qed.

(** The limiter's state for one key, against the key's history: the requests
    it recorded ([cs]) and those it let through without recording ([us]). *)
Record window_inv (rl : RateLimiter) (k : str) (now : Z) (cs us : list Z) : Prop := {
  wi_suffix : exists dropped, cs ≡ₚ dropped ++ default [] (rl_buckets rl !! k) /\
    Forall (fun t => rl_window rl < now - t)%Z dropped;
  wi_nonempty : rl_buckets rl !! k <> Some [];
  wi_after : forall u x, u ∈ us -> x ∈ default [] (rl_buckets rl !! k) -> (u <= x)%Z;
  wi_past : Forall (fun t => t <= now)%Z (cs ++ us);
  wi_counted : forall a, (count_window (rl_window rl) a cs <= rl_max_requests rl)%nat;
  wi_uncounted : forall a, (count_window (rl_window rl) a us <= 1)%nat;
}.

Lemma filter_split {A} (P : A -> bool) (l : list A) :
  l ≡ₚ filter (fun x => P x = false) l ++ filter P l.
Proof.
  induction l as [|x l IH]; [done|]. destruct (P x) eqn:E.
  - rewrite (filter_cons_False (fun x => P x = false)), (filter_cons_True P) by (rewrite E; done).
    by rewrite <-Permutation_middle, <-IH.
  - rewrite (filter_cons_True (fun x => P x = false)), (filter_cons_False P) by (rewrite E; auto).
    simpl. by rewrite <-IH.
Qed.

(** Trimming at [now] drops only what has left the window. *)
Lemma retained_spec w now b :
  (0 <= w)%Z -> exists old : list Z, b ≡ₚ old ++ retained w now b /\
    Forall (fun t => w < now - t)%Z old.
Proof.
  intros Hw.
  exists (filter (fun t => bool_decide (Z.max (now - t) 0 <= w)%Z = false) b). split.
  - apply (filter_split (fun t => bool_decide (Z.max (now - t) 0 <= w)%Z)).
  - apply Forall_forall. intros t [Hn _]%list_elem_of_filter.
    apply bool_decide_eq_false in Hn. lia.
Qed.

Lemma elem_of_retained w now b t :
  t ∈ retained w now b <-> t ∈ b /\ (Z.max (now - t) 0 <= w)%Z.
Proof.
  unfold retained. rewrite list_elem_of_filter, bool_decide_spec. tauto.
Qed.

Section window.
Context (k : str).

(** A call under another key leaves the key's bucket alone. *)
Lemma check_other rl key now r rl' :
  check rl key now = (r, rl') -> key <> k ->
  rl_window rl' = rl_window rl /\ rl_max_requests rl' = rl_max_requests rl /\
  rl_buckets rl' !! k = rl_buckets rl !! k.
Proof.
  unfold check. intros Hc Hne.
  repeat case_match; simplify_eq/=; split_and!; try done;
    rewrite ?lookup_delete_ne, ?lookup_insert_ne, ?lookup_alter_ne; done.
Qed.

(** A call under the key: its bucket is trimmed, then the request is
    refused, recorded, or let through unrecorded over an empty bucket. *)
Lemma check_same rl now r rl' :
  check rl k now = (r, rl') ->
  rl_window rl' = rl_window rl /\ rl_max_requests rl' = rl_max_requests rl /\
  let b := retained (rl_window rl) now <$> rl_buckets rl !! k in
  (b = Some [] /\ r = Ok tt /\ rl_buckets rl' !! k = None) \/
  (b <> Some [] /\ is_ok r = false /\
   (rl_buckets rl' !! k = b \/
    rl_buckets rl' !! k = Some (default [] b) /\ (rl_max_requests rl <= length (default [] b))%nat)) \/
  (b <> Some [] /\ r = Ok tt /\ (length (default [] b) < rl_max_requests rl)%nat /\
   rl_buckets rl' !! k = Some (default [] b ++ [now])).
Proof.
  unfold check. rewrite lookup_alter_eq. intros Hc.
  destruct (bool_decide _) eqn:Hb; [|destruct (_ <? _)%nat; [|destruct (_ <=? _)%nat eqn:Hl]];
    simplify_eq/=; (split; [done|]); (split; [done|]).
  - left. apply bool_decide_eq_true in Hb. by rewrite lookup_delete_eq.
  - right; left. apply bool_decide_eq_false in Hb. rewrite lookup_alter_eq. auto.
  - right; left. apply bool_decide_eq_false in Hb. rewrite lookup_insert_eq.
    apply Nat.leb_le in Hl. auto.
  - right; right. apply bool_decide_eq_false in Hb. rewrite lookup_insert_eq.
    apply Nat.leb_gt in Hl. auto.
Qed.

(** The invariant survives the passing of time alone ... *)
Lemma window_inv_later rl now now' cs us rl' :
  window_inv rl k now cs us -> (now <= now')%Z ->
  rl_window rl' = rl_window rl -> rl_max_requests rl' = rl_max_requests rl ->
  rl_buckets rl' !! k = rl_buckets rl !! k ->
  window_inv rl' k now' cs us.
Proof.
  intros [(d & Hcs & Hd) Hne Hafter Hpast Hc Hu] Hle Hw Hm Hb.
  split; rewrite ?Hw, ?Hm, ?Hb; auto.
  - exists d. split; [done|]. eapply Forall_impl; [exact Hd|]. simpl. lia.
  - eapply Forall_impl; [exact Hpast|]. simpl. lia.
Qed.

(** ... and trimming. *)
Lemma window_inv_trim rl now now' cs us :
  window_inv rl k now cs us -> (now <= now')%Z -> (0 <= rl_window rl)%Z ->
  let b := retained (rl_window rl) now' <$> rl_buckets rl !! k in
  (exists d : list Z, cs ≡ₚ d ++ default [] b /\ Forall (fun t => rl_window rl < now' - t)%Z d) /\
  (forall u x, u ∈ us -> x ∈ default [] b -> (u <= x)%Z).
Proof.
  intros [(d & Hcs & Hd) Hne Hafter Hpast Hc Hu] Hle Hw b.
  assert (Hb : default [] b = retained (rl_window rl) now' (default [] (rl_buckets rl !! k))).
  { unfold b. by destruct (rl_buckets rl !! k). }
  rewrite Hb. split.
  - destruct (retained_spec (rl_window rl) now' (default [] (rl_buckets rl !! k))) as (old & Hp & Ho);
      [done|].
    exists (d ++ old). split.
    + rewrite Hcs. rewrite <-(assoc_L (++)). by rewrite <-Hp.
    + apply Forall_app_2; [|done]. eapply Forall_impl; [exact Hd|]. simpl. lia.
  - intros u x Hux [Hx _]%elem_of_retained. eauto.
Qed.

(** Recording a request keeps every window within the limit. *)
Lemma window_inv_record rl rl' now now' cs us :
  window_inv rl k now cs us -> (now <= now')%Z -> (0 <= rl_window rl)%Z ->
  rl_window rl' = rl_window rl -> rl_max_requests rl' = rl_max_requests rl ->
  let b := retained (rl_window rl) now' <$> rl_buckets rl !! k in
  (length (default [] b) < rl_max_requests rl)%nat ->
  rl_buckets rl' !! k = Some (default [] b ++ [now']) ->
  window_inv rl' k now' (cs ++ [now']) us.
Proof.
  intros Hinv Hle Hw Hw' Hm b Hlt Hb.
  destruct (window_inv_trim _ _ _ _ _ Hinv Hle Hw) as [(d & Hcs & Hd) Hafter]. fold b in Hcs, Hafter.
  destruct Hinv as [_ _ _ Hpast Hc Hu]. apply Forall_app in Hpast as [Hp1 Hp2].
  split; rewrite ?Hw', ?Hm, ?Hb; simpl; auto.
  - exists d. split; [|done]. rewrite Hcs. by rewrite (assoc_L (++)).
  - by destruct (default [] b).
  - intros u x Hux [Hx| ->%list_elem_of_singleton]%elem_of_app; [eauto|].
    rewrite Forall_forall in Hp2. specialize (Hp2 u Hux). simpl in Hp2. lia.
  - apply Forall_app_2; [apply Forall_app_2|]; [| by repeat constructor|];
      eapply Forall_impl; try eassumption; simpl; lia.
  - intros a. rewrite count_window_app, count_window_single. case_decide as Hin;
      [|rewrite Nat.add_0_r; apply Hc].
    assert (count_window (rl_window rl) a cs = count_window (rl_window rl) a (default [] b)) as ->.
    { unfold count_window at 1. rewrite Hcs. rewrite filter_app, length_app.
      fold (count_window (rl_window rl) a d) (count_window (rl_window rl) a (default [] b)).
      rewrite count_window_nil; [done|]. eapply Forall_impl; [exact Hd|].
      unfold in_window in *. simpl. lia. }
    pose proof (count_window_le (rl_window rl) a (default [] b)). lia.
Qed.

(** Letting one through unrecorded happens at most once in a window. *)
Lemma window_inv_skip rl rl' now now' cs us :
  window_inv rl k now cs us -> (now <= now')%Z -> (0 <= rl_window rl)%Z ->
  rl_window rl' = rl_window rl -> rl_max_requests rl' = rl_max_requests rl ->
  retained (rl_window rl) now' <$> rl_buckets rl !! k = Some [] ->
  rl_buckets rl' !! k = None ->
  window_inv rl' k now' cs (us ++ [now']).
Proof.
  intros Hinv Hle Hw Hw' Hm Hempty Hb.
  destruct (window_inv_trim _ _ _ _ _ Hinv Hle Hw) as [(d & Hcs & Hd) _].
  rewrite Hempty in Hcs. simpl in Hcs.
  destruct Hinv as [_ Hne Hafter Hpast Hc Hu]. apply Forall_app in Hpast as [Hp1 Hp2].
  destruct (rl_buckets rl !! k) as [[|x b]|] eqn:Hbk; simplify_eq/=.
  assert (Hx : (rl_window rl < now' - x)%Z).
  { destruct (decide (Z.max (now' - x) 0 <= rl_window rl)%Z) as [Hin|Hout]; [|lia].
    assert (x ∈ retained (rl_window rl) now' (x :: b)) as Hbad
      by (apply elem_of_retained; split; [left|done]).
    rewrite Hempty in Hbad. by apply not_elem_of_nil in Hbad. }
  split; rewrite ?Hw', ?Hm, ?Hb; simpl; auto.
  - exists d. split; [done|]. eapply Forall_impl; [exact Hd|]. simpl. lia.
  - intros u y _ Hy. by apply not_elem_of_nil in Hy.
  - apply Forall_app_2; [|apply Forall_app_2]; [| |by repeat constructor];
      eapply Forall_impl; try eassumption; simpl; lia.
  - intros a. rewrite count_window_app, count_window_single. case_decide as Hin;
      [|rewrite Nat.add_0_r; apply Hu].
    rewrite count_window_nil; [done|]. apply Forall_forall. intros u Hux.
    specialize (Hafter u x Hux ltac:(left)). unfold in_window in *. lia.
Qed.

Lemma window_inv_refuse rl rl' now now' cs us :
  window_inv rl k now cs us -> (now <= now')%Z -> (0 <= rl_window rl)%Z ->
  rl_window rl' = rl_window rl -> rl_max_requests rl' = rl_max_requests rl ->
  let b := retained (rl_window rl) now' <$> rl_buckets rl !! k in
  default [] (rl_buckets rl' !! k) = default [] b -> rl_buckets rl' !! k <> Some [] ->
  window_inv rl' k now' cs us.
Proof.
  intros Hinv Hle Hw Hw' Hm b Hb Hne'.
  destruct (window_inv_trim _ _ _ _ _ Hinv Hle Hw) as [(d & Hcs & Hd) Hafter]. fold b in Hcs, Hafter.
  destruct Hinv as [_ _ _ Hpast Hc Hu].
  split; rewrite ?Hw', ?Hm, ?Hb; auto; [by exists d|].
  eapply Forall_impl; [exact Hpast|]. simpl. lia.
Qed.

(** One call, from the key's point of view. *)
Lemma check_step rl key now now' cs us r rl' :
  window_inv rl k now cs us -> (now <= now')%Z -> (0 <= rl_window rl)%Z ->
  (1 <= rl_max_requests rl)%nat -> check rl key now' = (r, rl') ->
  rl_window rl' = rl_window rl /\ rl_max_requests rl' = rl_max_requests rl /\
  exists cs' us', window_inv rl' k now' (cs ++ cs') (us ++ us') /\
    cs' ++ us' = admitted k [(key, now', is_ok r)].
Proof.
  intros Hinv Hle Hw Hmax Hc. unfold admitted. simpl.
  destruct (decide (key = k)) as [->|Hne].
  - destruct (check_same rl now' r rl' Hc) as (Hw' & Hm & Hcase). split; [done|]. split; [done|].
    destruct Hcase as [(He & -> & Hb)|[(He & Hr & Hb)|(He & -> & Hlt & Hb)]].
    + exists [], [now']. rewrite app_nil_r. split; [|done]. by eapply window_inv_skip.
    + exists [], []. rewrite !app_nil_r, Hr. split; [|done].
      eapply window_inv_refuse; eauto;
        destruct Hb as [Hb|[Hb Hlen]]; rewrite Hb; try done.
      intros [= Hnil]. rewrite Hnil in Hlen. simpl in Hlen. lia.
    + exists [now'], []. rewrite app_nil_r. split; [|done]. by eapply window_inv_record.
  - destruct (check_other rl key now' r rl' Hc Hne) as (Hw' & Hm & Hb). split; [done|]. split; [done|].
    exists [], []. rewrite !app_nil_r. split; [|done]. by eapply window_inv_later.
Qed.

Lemma run_checks_inv calls : forall rl now cs us,
  window_inv rl k now cs us -> (0 <= rl_window rl)%Z -> (1 <= rl_max_requests rl)%nat ->
  StronglySorted Z.le (now :: calls.*2) ->
  exists rl' now' cs' us', window_inv rl' k now' (cs ++ cs') (us ++ us') /\
    rl_window rl' = rl_window rl /\ rl_max_requests rl' = rl_max_requests rl /\
    admitted k (run_checks rl calls) ≡ₚ cs' ++ us'.
Proof.
  induction calls as [|[key t] calls IH]; intros rl now cs us Hinv Hw Hmax Hs; simpl.
  - exists rl, now, [], []. by rewrite !app_nil_r.
  - simpl in Hs. apply StronglySorted_inv in Hs as [Hs Hle].
    apply Forall_cons_1 in Hle as [Hle _].
    destruct (check rl key t) as [r rl1] eqn:Hc.
    destruct (check_step _ _ _ _ _ _ _ _ Hinv Hle Hw Hmax Hc) as (Hw1 & Hm1 & c1 & u1 & Hinv1 & Heq).
    destruct (IH rl1 t _ _ Hinv1) as (rl' & now' & c2 & u2 & Hinv2 & Hw2 & Hm2 & Hp);
      [by rewrite Hw1|by rewrite Hm1|done|].
    exists rl', now', (c1 ++ c2), (u1 ++ u2). rewrite !(assoc_L (++)). split; [done|].
    split; [congruence|]. split; [congruence|].
    change (admitted k ((key, t, is_ok r) :: run_checks rl1 calls))
      with (admitted k ([(key, t, is_ok r)] ++ run_checks rl1 calls)).
    unfold admitted in *. rewrite omap_app, <-Heq, Hp.
    rewrite <-!(assoc_L (++)). apply Permutation_app_head. rewrite Permutation_app_comm.
    rewrite <-(assoc_L (++)). apply Permutation_app_head. apply Permutation_app_comm.
Qed.
End window.

(** In any window the limiter lets through at most one request more than
    its limit under one key, whatever the other keys do. *)
Theorem limiter_window_bound max secs calls k a :
  (1 <= max)%nat -> (0 <= secs)%Z -> StronglySorted Z.le calls.*2 ->
  (count_window (secs * 10 ^ 9) a (admitted k (run_checks (RateLimiter_new max secs) calls))
   <= max + 1)%nat.
Proof.
  intros Hmax Hsecs Hs.
  destruct calls as [|[key t] calls]; [simpl; unfold count_window; simpl; lia|].
  destruct (run_checks_inv k ((key, t) :: calls) (RateLimiter_new max secs) t [] [])
    as (rl' & now' & cs & us & [_ _ _ _ Hc Hu] & Hw & Hm & Hp); simpl; try done; try lia.
  - split; simpl; rewrite ?lookup_empty; simpl; try done;
      [by exists []| |intros; unfold count_window; simpl; lia|intros; unfold count_window; simpl; lia].
    intros u x Hux. by apply not_elem_of_nil in Hux.
  - constructor; [done|]. simpl in Hs. apply StronglySorted_inv in Hs as [_ Hle].
    constructor; [lia|done].
  - rewrite Hw in Hc, Hu. rewrite Hm in Hc. simpl in Hc, Hu.
    unfold count_window. rewrite Hp, filter_app, length_app.
    specialize (Hc a). specialize (Hu a). unfold count_window in Hc, Hu. lia.
Qed.

Lemma limiter_window_bound_witness :
  (count_window (60 * 10 ^ 9) 0 (admitted $"k" (run_checks (RateLimiter_new 2 60)
     [($"k", 1%Z); ($"k", 2%Z); ($"j", 2%Z); ($"k", 3%Z)])) <= 2 + 1)%nat.
Proof.
  apply limiter_window_bound; [lia|lia|]. repeat constructor; simpl; lia.
Defined.

(** Requests at one instant are recorded one by one up to the limit. *)
Lemma run_checks_burst k t n : forall rl i,
  (0 <= rl_window rl)%Z -> (i + n <= rl_max_requests rl)%nat ->
  rl_buckets rl = match i with O => ∅ | _ => {[k := replicate i t]} end ->
  admitted k (run_checks rl (replicate n (k, t))) = replicate n t.
Proof.
  induction n as [|n IH]; intros rl i Hw Hle Hb; [done|].
  assert (Hc : check rl k t = (Ok tt, with_buckets rl {[k := replicate (S i) t]})).
  { assert (Hkeep : retained (rl_window rl) t (replicate i t) = replicate i t).
    { apply filter_all, Forall_replicate. apply bool_decide_spec. lia. }
    unfold check. rewrite Hb. destruct i as [|i].
    - rewrite alter_empty, lookup_empty, bool_decide_eq_false_2 by done.
      rewrite map_size_empty. simpl.
      destruct (rl_max_requests rl); [lia|]. by rewrite insert_empty.
    - rewrite alter_singleton_eq, Hkeep, lookup_singleton_eq, bool_decide_eq_false_2 by done.
      rewrite map_size_singleton.
    change (default [] (Some (replicate (S i) t))) with (replicate (S i) t).
    rewrite length_replicate.
      change (BUCKET_CAP <? 1)%nat with false.
      rewrite (proj2 (Nat.leb_gt _ _)) by lia. rewrite insert_singleton_eq.
      by rewrite <-replicate_S_end. }
  change (replicate (S n) (k, t)) with ((k, t) :: replicate n (k, t)).
  cbn [run_checks]. rewrite Hc. unfold admitted. simpl. rewrite decide_True by done.
  f_equal. apply (IH _ (S i)); simpl; [done|lia|done].
Qed.

(** The extra request is real: when a key's last recorded request has left
    the window, the next one is let through without being recorded, so a
    limiter of [max] admits [max + 1] requests at one instant. *)
Theorem limiter_admits_one_extra max secs k :
  (0 <= secs)%Z -> (1 <= max)%nat ->
  let t := (secs * 10 ^ 9 + 1)%Z in
  let calls := (k, 0%Z) :: replicate (S max) (k, t) in
  count_window (secs * 10 ^ 9) t (admitted k (run_checks (RateLimiter_new max secs) calls))
  = S max.
Proof.
  intros Hs Hmax t calls.
  assert (Ha : admitted k (run_checks (RateLimiter_new max secs) calls)
    = 0%Z :: t :: replicate max t).
  { unfold calls. change (replicate (S max) (k, t)) with ((k, t) :: replicate max (k, t)).
    cbn [run_checks]. unfold check at 1. cbn [RateLimiter_new rl_buckets rl_window rl_max_requests].
    rewrite alter_empty, lookup_empty, bool_decide_eq_false_2, map_size_empty by done.
    change (BUCKET_CAP <? 0)%nat with false.
    rewrite (proj2 (Nat.leb_gt _ _)) by (simpl; lia). rewrite insert_empty.
    unfold check at 1. cbn [with_buckets rl_buckets rl_window rl_max_requests default from_option app].
    rewrite alter_singleton_eq, lookup_singleton_eq.
    assert (retained (rl_window (RateLimiter_new max secs)) t [0%Z] = []) as ->.
    { unfold retained. rewrite filter_cons_False; [done|]. rewrite bool_decide_spec. simpl. lia. }
    rewrite bool_decide_eq_true_2, delete_singleton_eq by done.
    unfold admitted. simpl. rewrite !decide_True by done. do 2 f_equal.
    by apply (run_checks_burst k t max _ 0); simpl; [lia|lia|]. }
  rewrite Ha. unfold count_window. rewrite filter_cons_False by (unfold in_window; lia).
  change (t :: replicate max t) with (replicate (S max) t).
  assert (filter (in_window (secs * 10 ^ 9) t) (replicate (S max) t) = replicate (S max) t) as ->.
  { apply filter_all, Forall_replicate. unfold in_window. lia. }
  apply length_replicate.
Qed.

Lemma limiter_admits_one_extra_witness :
  count_window (60 * 10 ^ 9) (60 * 10 ^ 9 + 1) (admitted $"k" (run_checks (RateLimiter_new 2 60)
    [($"k", 0%Z); ($"k", 60 * 10 ^ 9 + 1)%Z; ($"k", 60 * 10 ^ 9 + 1)%Z; ($"k", 60 * 10 ^ 9 + 1)%Z])) = 3%nat.
Proof. apply (limiter_admits_one_extra 2 60 $"k"); lia. Defined.

(** ** The budget as a ledger

    What the Redis counters promise: a blocking budget keeps one running
    total, every charge is added to it whether or not the request is let
    through, and a request is let through exactly while the total stays within
    the limits. *)

Inductive ledger_op : Type :=
  | LCharge (estimated : N)
  | LAdjust (delta : Z).

Definition op_delta (op : ledger_op) : Z :=
  match op with LCharge est => Z.of_N est | LAdjust d => d end.

Definition within (limit : option Z) (total : Z) : bool :=
  match limit with Some l => (total <=? l)%Z | None => true end.

Fixpoint ledger (daily monthly : option Z) (total : Z) (ops : list ledger_op) : list bool :=
  match ops with
  | [] => []
  | op :: ops' =>
    let total' := (total + op_delta op)%Z in
    match op with
    | LCharge _ => (within daily total' && within monthly total') :: ledger daily monthly total' ops'
    | LAdjust _ => ledger daily monthly total' ops'
    end
  end.

Section budget_runs.
Context `{BudgetKeys}.

Fixpoint run_budget (ws : Uuid) (ops : list (BudgetIo * ledger_op)) (c : Counters) : list bool :=
  match ops with
  | [] => []
  | (io, LCharge est) :: ops' =>
    let '(r, c', _) := pre_check_budget io ws est c in is_ok r :: run_budget ws ops' c'
  | (io, LAdjust d) :: ops' =>
    let '(c', _) := adjust_workspace_tokens (bi_clock io) (bi_daily io) (bi_monthly io) ws d c in
    run_budget ws ops' c'
  end.

Context (ws : Uuid) (daily monthly : option Z) (day month : str) (t0 : Z).

(** A call of one day, with Redis and Postgres answering. *)
Definition healthy (io : BudgetIo) : Prop :=
  bi_row io = Ok (Some {| sb_daily := daily; sb_monthly := monthly; sb_behavior := $"block" |}) /\
  fmt_day (bi_clock io) = day /\ fmt_month (bi_clock io) = month /\
  ri_incrby (bi_daily io) = None /\ ri_incrby (bi_monthly io) = None /\
  (t0 <= ri_now (bi_daily io) < t0 + daily_ttl)%Z /\
  (t0 <= ri_now (bi_monthly io) < t0 + daily_ttl)%Z.

(** Throughout the day the key reads [total]. *)
Definition holds (key : str) (total : Z) (c : Counters) : Prop :=
  match c !! key with
  | Some (v, exp) => v = total /\ match exp with Some at_ => (t0 + daily_ttl <= at_)%Z | None => True end
  | None => total = 0%Z
  end.

Lemma incr_holds io key key' delta ttl total total' c :
  ri_incrby io = None -> (t0 <= ri_now io < t0 + daily_ttl)%Z -> (daily_ttl <= ttl)%Z ->
  (Z.abs (total + delta) <= i64_max)%Z ->
  holds key total c -> key' <> key -> holds key' total' c ->
  exists c', incr_and_get io key delta ttl c = (Ok (total + delta)%Z, c') /\
    holds key (total + delta) c' /\ holds key' total' c'.
Proof.
  unfold incr_and_get, holds, read_counter, live_counter. intros -> Hnow Httl Hi Hk Hne Hk'.
  assert (Hin : in_i64 (total + delta) = true).
  { unfold in_i64, i64_max in *. lia. }
  destruct (c !! key) as [[v exp]|] eqn:E; simpl.
  - destruct Hk as [-> Hexp].
    rewrite decide_True by (destruct exp; simpl; [lia|done]).
    rewrite Hin. eexists. split; [done|]. rewrite lookup_insert_eq, lookup_insert_ne by done.
    split; [|done]. split; [done|].
    destruct exp; [done|]. destruct (ri_expire io); [lia|done].
  - subst total. rewrite Hin. eexists. split; [done|].
    rewrite lookup_insert_eq, lookup_insert_ne by done. split; [|done]. split; [done|].
    destruct (ri_expire io); [lia|done].
Qed.

Lemma exceeded_within b d m :
  wb_daily_token_limit b = daily -> wb_monthly_token_limit b = monthly ->
  exceeded_bucket b d m = None <-> within daily d && within monthly m = true.
Proof.
  unfold exceeded_bucket, within. intros -> ->.
  destruct daily as [ld|], monthly as [lm|]; repeat case_match; split; intros; try done; lia.
Qed.

(** The magnitude of a history, which the counters must be able to hold. *)
Fixpoint magnitude (ops : list ledger_op) : Z :=
  match ops with [] => 0 | op :: ops' => Z.abs (op_delta op) + magnitude ops' end.

Lemma magnitude_nonneg ops : (0 <= magnitude ops)%Z.
Proof. induction ops; simpl; lia. Qed.

Definition kd : str := $"budget:" ++ show_ws ws ++ $":tokens:" ++ day.
Definition km : str := $"budget:" ++ show_ws ws ++ $":tokens:" ++ month.

(** Both counters take the same delta. *)
Definition answers (r : RedisIo) : Prop :=
  ri_incrby r = None /\ (t0 <= ri_now r < t0 + daily_ttl)%Z.

Lemma pair_incr io_d io_m delta total c :
  day <> month -> answers io_d -> answers io_m -> (Z.abs (total + delta) <= i64_max)%Z ->
  holds kd total c -> holds km total c ->
  exists c1 c2,
    incr_and_get io_d kd delta daily_ttl c = (Ok (total + delta)%Z, c1) /\
    incr_and_get io_m km delta monthly_ttl c1 = (Ok (total + delta)%Z, c2) /\
    holds kd (total + delta) c2 /\ holds km (total + delta) c2.
Proof.
  intros Hdm [Hid Htd] [Him Htm] Hi Hd Hm.
  assert (Hne : km <> kd).
  { unfold km, kd. intros Heq%(inj (app _))%(inj (app _))%(inj (app _)). congruence. }
  destruct (incr_holds io_d kd km delta daily_ttl total total c)
    as (c1 & E1 & H1 & H1'); try done; try lia.
  destruct (incr_holds io_m km kd delta monthly_ttl total (total + delta) c1)
    as (c2 & E2 & H2 & H2'); try done; try (unfold daily_ttl, monthly_ttl; lia).
  by exists c1, c2.
Qed.

Lemma both_incr io delta total c :
  day <> month -> healthy io -> (Z.abs (total + delta) <= i64_max)%Z ->
  holds kd total c -> holds km total c ->
  exists c1 c2,
    incr_and_get (bi_daily io) kd delta daily_ttl c = (Ok (total + delta)%Z, c1) /\
    incr_and_get (bi_monthly io) km delta monthly_ttl c1 = (Ok (total + delta)%Z, c2) /\
    holds kd (total + delta) c2 /\ holds km (total + delta) c2.
Proof. intros Hdm (_ & _ & _ & ? & ? & ? & ?). by apply pair_incr. Qed.

Lemma pre_check_charge io est total c :
  day <> month -> healthy io -> (Z.abs total + Z.of_N est <= i64_max)%Z ->
  holds kd total c -> holds km total c ->
  exists r c' ms, pre_check_budget io ws est c = (r, c', ms) /\
    is_ok r = within daily (total + Z.of_N est) && within monthly (total + Z.of_N est) /\
    holds kd (total + Z.of_N est) c' /\ holds km (total + Z.of_N est) c'.
Proof.
  intros Hdm Hh Hi Hd Hm.
  destruct (both_incr io (Z.of_N est) total c) as (c1 & c2 & E1 & E2 & H1 & H2); try done; try lia.
  destruct Hh as (Hrow & Hday & Hmonth & _).
  assert (Hest : i64_of_u64 est = Z.of_N est) by (unfold i64_of_u64; lia).
  set (b := {| wb_workspace_id := ws; wb_daily_token_limit := daily;
               wb_monthly_token_limit := monthly; wb_behavior := BudgetBlock |}).
  assert (Hget : budget_get ws (bi_row io) = Ok (Some b)) by (by rewrite Hrow).
  unfold pre_check_budget, budget_check, budget_daily_key, budget_monthly_key.
  rewrite Hget, Hday, Hmonth, Hest. fold kd km. rewrite E1, E2.
  pose proof (exceeded_within b (total + Z.of_N est) (total + Z.of_N est) eq_refl eq_refl) as Hx.
  destruct (exceeded_bucket b _ _) as [bk|]; cbn [wb_behavior b].
  - do 3 eexists. split; [done|]. split; [|done]. cbn [is_ok]. symmetry.
    apply not_true_is_false. intros Ew%Hx. discriminate.
  - do 3 eexists. split; [done|]. split; [|done]. cbn [is_ok]. symmetry. by apply Hx.
Qed.

Lemma run_budget_ledger ops : forall c total,
  day <> month -> Forall (fun op => healthy op.1) ops ->
  (Z.abs total + magnitude ops.*2 <= i64_max)%Z ->
  holds kd total c -> holds km total c ->
  run_budget ws ops c = ledger daily monthly total ops.*2.
Proof.
  induction ops as [|[io op] ops IH]; intros c total Hdm Hh Hsum Hd Hm; [done|].
  apply Forall_cons_1 in Hh as [Hio Hh]. simpl in Hio.
  pose proof (magnitude_nonneg ops.*2) as Hpos.
  rewrite fmap_cons in *. destruct op as [est|delta]; cbn [magnitude ledger run_budget op_delta snd] in *.
  - destruct (pre_check_charge io est total c) as (r & c' & ms & E & Hr & H1 & H2); try done; try lia.
    rewrite E, Hr. f_equal. apply IH; try done; lia.
  - unfold adjust_workspace_tokens. destruct (delta =? 0)%Z eqn:E0.
    + apply Z.eqb_eq in E0 as ->. rewrite Z.add_0_r. apply IH; try done; lia.
    + destruct (both_incr io delta total c) as (c1 & c2 & E1 & E2 & H1 & H2); try done; try lia.
      destruct Hio as (_ & Hday & Hmonth & _).
      unfold budget_daily_key, budget_monthly_key. rewrite Hday, Hmonth. fold kd km.
      rewrite E1, E2. apply IH; try done; lia.
Qed.
End budget_runs.

(** Without adjustments, what is let through adds up to at most the limit. *)
Fixpoint granted (verdicts : list bool) (ops : list ledger_op) : Z :=
  match verdicts, ops with
  | ok :: vs, op :: ops' => ((if ok : bool then op_delta op else 0) + granted vs ops')%Z
  | _, _ => 0%Z
  end.

Definition is_charge (op : ledger_op) : Prop := match op with LCharge _ => True | _ => False end.

Lemma ledger_grants l monthly ops : forall total,
  Forall is_charge ops -> (granted (ledger (Some l) monthly total ops) ops <= Z.max 0 (l - total))%Z.
Proof.
  induction ops as [|op ops IH]; intros total Hc; simpl; [lia|].
  apply Forall_cons_1 in Hc as [Ho Hc]. destruct op as [est|]; [|done]. simpl.
  specialize (IH (total + Z.of_N est)%Z Hc).
  destruct (_ <=? _)%Z eqn:El, (within monthly _); simpl; lia.
Qed.

(** With Redis answering, the gateway's budget decisions over a day are
    those of one running total: every estimate is charged, let through or not,
    every reconciliation is added, and a request passes exactly while the total
    is within both limits.  So the estimates let through between two
    reconciliations never exceed what the limit had left. *)
Theorem budget_is_ledger `{BudgetKeys} ws daily monthly day month t0
    (ops : list (BudgetIo * ledger_op)) :
  day <> month -> Forall (fun op => healthy daily monthly day month t0 op.1) ops ->
  (magnitude ops.*2 <= i64_max)%Z ->
  run_budget ws ops ∅ = ledger daily monthly 0 ops.*2 /\
  (forall l, daily = Some l -> Forall is_charge ops.*2 ->
   (granted (run_budget ws ops ∅) ops.*2 <= Z.max 0 l)%Z).
Proof.
  intros Hdm Hh Hmag.
  assert (Hrun : run_budget ws ops ∅ = ledger daily monthly 0 ops.*2).
  { eapply run_budget_ledger; try done. }
  split; [done|]. intros l -> Hc. rewrite Hrun.
  pose proof (ledger_grants l monthly ops.*2 0 Hc). by rewrite Z.sub_0_r in *.
Qed.

Definition demo_keys : BudgetKeys := {|
  show_ws := show_N; fmt_day := fun _ => $"20260101"; fmt_month := fun _ => $"202601" |}.
Definition demo_redis : RedisIo := {| ri_now := 5; ri_incrby := None; ri_expire := true |}.
Definition demo_budget_io : BudgetIo := {|
  bi_row := Ok (Some {| sb_daily := Some 10%Z; sb_monthly := None; sb_behavior := $"block" |});
  bi_clock := 0; bi_daily := demo_redis; bi_monthly := demo_redis |}.
Definition demo_ops : list (BudgetIo * ledger_op) :=
  [(demo_budget_io, LCharge 6); (demo_budget_io, LCharge 5); (demo_budget_io, LAdjust (-6));
   (demo_budget_io, LCharge 4)].

Lemma budget_is_ledger_witness :
  @run_budget demo_keys 7 demo_ops ∅ = [true; false; true].
Proof.
  destruct (@budget_is_ledger demo_keys 7 (Some 10%Z) None $"20260101" $"202601" 0 demo_ops)
    as [Hrun _].
  - discriminate.
  - repeat constructor; simpl; vm_compute; congruence.
  - vm_compute. congruence.
  - exact Hrun.
Defined.
