(* ===== verification/ApiKeys.v ===== *)
(** * API keys

    db/api_key_repo.rs, http/middleware/api_key_auth.rs and the handlers of
    http/routes/dashboard/keys.rs that change a key.

    The [api_keys] table is a list of rows; [KeyStore] adds the audit table the
    same transactions write.  SHA-256 is a parameter.  One clock, in
    milliseconds, serves the database and the gateway; [tx] is the failure of a
    call's transaction, which then leaves no trace.  Random draws (identifiers,
    key material) are arguments. *)

From S2P Require Import Prelude Rstr Json Types Providers Pipeline Roles AdminAudit.

Record ApiKeyRecord : Type := {
  ak_id : Uuid;
  ak_workspace_id : Uuid;
  ak_name : str;
  ak_key_hash : str;
  ak_created_at : N;
  ak_revoked_at : option N;
  ak_status : str;
  ak_rotated_at : option N;
  ak_rotation_grace_secs : N;
  ak_successor_key_hash : option str;
  ak_successor_key_prefix : option str;
  ak_assigned_user_id : option Uuid;
  ak_key_ciphertext : option str;
}.

Record KeyStore : Type := {
  ks_keys : list ApiKeyRecord;
  ks_audit : list AdminAuditRow;
}.

Class KeyHash := hash_api_key : str -> str.

(** The columns an INSERT leaves to their defaults. *)
Definition new_key (id ws : Uuid) (name hash : str) (now : N) (user : option Uuid)
    (ciphertext : option str) : ApiKeyRecord := {|
  ak_id := id; ak_workspace_id := ws; ak_name := name; ak_key_hash := hash;
  ak_created_at := now; ak_revoked_at := None; ak_status := $"active";
  ak_rotated_at := None; ak_rotation_grace_secs := 86400;
  ak_successor_key_hash := None; ak_successor_key_prefix := None;
  ak_assigned_user_id := user; ak_key_ciphertext := ciphertext;
|}.

Definition update_key (p : ApiKeyRecord -> bool) (f : ApiKeyRecord -> ApiKeyRecord)
    (keys : list ApiKeyRecord) : list ApiKeyRecord :=
  (fun r => if p r then f r else r) <$> keys.

Section keys.
Context `{KeyHash}.

(** ** Creation, revocation, rotation *)

Definition json_uuid (u : option Uuid) : Value :=
  match u with Some u => VString (show_uuid u) | None => Null end.

(** [create]: [kms] is the backend, when there is one, as its answer for the
    plaintext (its error text is dropped); [suffix] the 48 random characters. *)
Definition key_create (s : KeyStore) (now : N) (ws : Uuid) (name : str) (user : option Uuid)
    (kms : option (str -> option str)) (actor : AdminActor) (id : Uuid) (suffix : str)
    (tx : option ApiError) : result (ApiKeyRecord * str) * KeyStore :=
  let plaintext := $"sp_" ++ suffix in
  let ciphertext : result (option str) :=
    match user, kms with
    | Some _, Some encrypt =>
      match encrypt plaintext with
      | None => Err (Internal $"api key encrypt")
      | Some stored => if utf8_valid stored then Ok (Some stored)
                       else Err (Internal $"KMS ciphertext not UTF-8")
      end
    | Some _, None =>
      Err (Internal $"assigned API key requires kms backend for plaintext encryption")
    | None, _ => Ok None
    end in
  match ciphertext with
  | Err e => (Err e, s)
  | Panic => (Panic, s)
  | Ok ciphertext =>
    match tx with
    | Some e => (Err e, s)
    | None =>
      let row := new_key id ws name (hash_api_key plaintext) now user ciphertext in
      let entry := with_detail (on_object ApiKeyCreated id (Some name))
        (Object [($"assigned_user_id", json_uuid user)]) in
      (Ok (row, plaintext),
       {| ks_keys := ks_keys s ++ [row]; ks_audit := audit_write actor entry (ks_audit s) |})
    end
  end.

Definition live_status (r : ApiKeyRecord) : bool :=
  bool_decide (ak_status r = $"active") || bool_decide (ak_status r = $"rotating").

(** The row a statement [WHERE id = $1 AND workspace_id = $2 AND status IN
    ('active', 'rotating')] reaches. *)
Definition targets_key (ws key_id : Uuid) (r : ApiKeyRecord) : bool :=
  (ak_id r =? key_id)%N && (ak_workspace_id r =? ws)%N && live_status r.

Definition row_revoked (now : N) (r : ApiKeyRecord) : ApiKeyRecord := {|
  ak_id := ak_id r; ak_workspace_id := ak_workspace_id r; ak_name := ak_name r;
  ak_key_hash := ak_key_hash r; ak_created_at := ak_created_at r;
  ak_revoked_at := Some now; ak_status := $"revoked"; ak_rotated_at := ak_rotated_at r;
  ak_rotation_grace_secs := ak_rotation_grace_secs r;
  ak_successor_key_hash := ak_successor_key_hash r;
  ak_successor_key_prefix := ak_successor_key_prefix r;
  ak_assigned_user_id := ak_assigned_user_id r; ak_key_ciphertext := ak_key_ciphertext r;
|}.

Definition key_revoke (s : KeyStore) (now : N) (ws key_id : Uuid) (actor : AdminActor)
    (tx : option ApiError) : result unit * KeyStore :=
  match tx with
  | Some e => (Err e, s)
  | None =>
    match List.find (targets_key ws key_id) (ks_keys s) with
    | None => (Err (NotFound ($"api key " ++ show_uuid key_id ++ $" not found")), s)
    | Some r =>
      (Ok tt,
       {| ks_keys := update_key (targets_key ws key_id) (row_revoked now) (ks_keys s);
          ks_audit := audit_write actor (on_object ApiKeyRevoked key_id (Some (ak_name r)))
                        (ks_audit s) |})
    end
  end.

Definition mark_rotating (now : N) (hash prefix : str) (r : ApiKeyRecord) : ApiKeyRecord := {|
  ak_id := ak_id r; ak_workspace_id := ak_workspace_id r; ak_name := ak_name r;
  ak_key_hash := ak_key_hash r; ak_created_at := ak_created_at r;
  ak_revoked_at := ak_revoked_at r; ak_status := $"rotating"; ak_rotated_at := Some now;
  ak_rotation_grace_secs := ak_rotation_grace_secs r;
  ak_successor_key_hash := Some hash; ak_successor_key_prefix := Some prefix;
  ak_assigned_user_id := ak_assigned_user_id r; ak_key_ciphertext := ak_key_ciphertext r;
|}.

Definition grace_end (rotated_at grace_secs : N) : N := (rotated_at + grace_secs * 1000)%N.

(** [rotate]: the successor copies the workspace and the name of the old row.
    chrono renders the instant in the audit entry. *)
Definition key_rotate (show_time : N -> str) (s : KeyStore) (now : N) (ws key_id : Uuid)
    (actor : AdminActor) (new_id : Uuid) (suffix : str) (tx : option ApiError)
    : result (str * N) * KeyStore :=
  match tx with
  | Some e => (Err e, s)
  | None =>
    match List.find (targets_key ws key_id) (ks_keys s) with
    | None =>
      (Err (NotFound ($"api key " ++ show_uuid key_id ++ $" not found or already revoked")), s)
    | Some r =>
      if bool_decide (ak_status r = $"rotating") then
        match ak_rotated_at r with
        | None => (Panic, s)   (* [row.get] of a NULL into [DateTime<Utc>] *)
        | Some rotated_at =>
          (Ok (default [] (ak_successor_key_prefix r) ++ $"...",
               grace_end rotated_at (ak_rotation_grace_secs r)), s)
        end
      else
        let plaintext := $"sp_" ++ suffix in
        let hash := hash_api_key plaintext in
        let prefix := mjoin (take 12 (chars plaintext)) in
        let successor :=
          new_key new_id (ak_workspace_id r) (ak_name r ++ $" (rotated)") hash now None None in
        let grace := grace_end now (ak_rotation_grace_secs r) in
        let entry := with_detail (on_object ApiKeyRotated key_id (Some (ak_name r)))
          (Object [($"grace_expires_at", VString (show_time grace));
                   ($"grace_secs", Number (PosInt (ak_rotation_grace_secs r)))]) in
        (Ok (plaintext, grace),
         {| ks_keys := update_key (fun r => (ak_id r =? key_id)%N) (mark_rotating now hash prefix)
              (ks_keys s) ++ [successor];
            ks_audit := audit_write actor entry (ks_audit s) |})
    end
  end.

(** ** Authentication *)

Record AuthenticatedApiKey : Type := {
  auk_id : Uuid;
  auk_workspace_id : Uuid;
  auk_name : str;
  auk_assigned_user_id : option Uuid;
}.

(** The WHERE clause of [authenticate_api_key]; a NULL [rotated_at] makes the
    grace comparison NULL. *)
Definition accepts (now : N) (hash : str) (r : ApiKeyRecord) : bool :=
  bool_decide (ak_key_hash r = hash) && bool_decide (ak_revoked_at r = None) &&
  (bool_decide (ak_status r = $"active") ||
   (bool_decide (ak_status r = $"rotating") &&
    match ak_rotated_at r with
    | Some at_ => (now <? grace_end at_ (ak_rotation_grace_secs r))%N
    | None => false
    end)).

(** [ORDER BY created_at DESC LIMIT 1] *)
Fixpoint newest (l : list ApiKeyRecord) : option ApiKeyRecord :=
  match l with
  | [] => None
  | r :: l' =>
    match newest l' with
    | Some r' => Some (if (ak_created_at r <=? ak_created_at r')%N then r' else r)
    | None => Some r
    end
  end.

(** One turn of the loop over workspaces.  [rls] says whether the database
    role is subject to row-level security; a superuser is not, and then sees
    every tenant's rows. *)
Definition lookup_in (rls : bool) (now : N) (hash : str) (ws : Uuid) (keys : list ApiKeyRecord)
    : option ApiKeyRecord :=
  newest (filter (fun r => accepts now hash r &&
                           (negb rls || (ak_workspace_id r =? ws)%N)) keys).

Fixpoint auth_loop (rls : bool) (now : N) (hash : str) (workspaces : list (Uuid * option ApiError))
    (keys : list ApiKeyRecord) : result (option AuthenticatedApiKey) :=
  match workspaces with
  | [] => Ok None
  | (_, Some e) :: _ => Err e
  | (ws, None) :: rest =>
    match lookup_in rls now hash ws keys with
    | Some r => Ok (Some {| auk_id := ak_id r; auk_workspace_id := ak_workspace_id r;
                            auk_name := ak_name r; auk_assigned_user_id := ak_assigned_user_id r |})
    | None => auth_loop rls now hash rest keys
    end
  end.

(** [workspaces] is the answer of the first query, with the failure, if any,
    of each turn's transaction. *)
Definition authenticate_api_key (rls : bool) (now : N)
    (workspaces : result (list (Uuid * option ApiError))) (presented : str)
    (keys : list ApiKeyRecord) : result (option AuthenticatedApiKey) :=
  obind workspaces (fun ws => auth_loop rls now (hash_api_key presented) ws keys).

(** The [Authorization] header: absent, not text, or text. *)
Inductive HeaderValue : Type :=
  | HAbsent
  | HOpaque
  | HText (v : str).

Definition cache_api_key (now : N) (c : ConfigCache) (token : str) (a : AuthenticatedApiKey)
    : ConfigCache :=
  set_api_key c token {|
    ck_api_key_id := auk_id a; ck_workspace_id := auk_workspace_id a; ck_name := auk_name a;
    ck_assigned_user_id := auk_assigned_user_id a; ck_cached_at := now |}.

Definition authenticate_request (rls : bool) (now : N)
    (workspaces : result (list (Uuid * option ApiError))) (keys : list ApiKeyRecord)
    (header : HeaderValue) (c : ConfigCache) : result AuthContext * ConfigCache :=
  match header with
  | HAbsent => (Err (Unauthorized $"missing Authorization header"), c)
  | HOpaque => (Err (Unauthorized $"Authorization header must be valid UTF-8"), c)
  | HText v =>
    match strip_prefix v $"Bearer " with
    | None => (Err (Unauthorized $"expected Authorization: Bearer sp_..."), c)
    | Some token =>
      if negb (starts_with token $"sp_") then
        (Err (Unauthorized $"expected Authorization: Bearer sp_..."), c)
      else
        match get_api_key now c token with
        | Some cached =>
          (Ok {| au_api_key_id := ck_api_key_id cached; au_workspace_id := ck_workspace_id cached;
                 au_api_key_name := ck_name cached; au_user_id := ck_assigned_user_id cached |}, c)
        | None =>
          match authenticate_api_key rls now workspaces token keys with
          | Err e => (Err e, c)
          | Panic => (Panic, c)
          | Ok None => (Err (Unauthorized $"invalid or revoked API key"), c)
          | Ok (Some a) =>
            (Ok {| au_api_key_id := auk_id a; au_workspace_id := auk_workspace_id a;
                   au_api_key_name := auk_name a; au_user_id := auk_assigned_user_id a |},
             cache_api_key now c token a)
          end
        end
    end
  end.

(** ** The administrator's handlers ([dashboard/keys.rs]) *)

Record KeyAdmin : Type := {
  ka_user_id : Uuid;
  ka_workspace_id : Uuid;
  ka_role : UserRole;
  ka_email : result (option str);
}.

Definition key_actor (ctx : KeyAdmin) : AdminActor :=
  AdminActor_resolve (ka_email ctx) (ka_workspace_id ctx) (ka_user_id ctx)
    (role_as_db_str (ka_role ctx)).

(** The KMS backend is handed over only for an assigned key. *)
Definition create_key (kms : str -> option str) (s : KeyStore) (now : N) (ctx : KeyAdmin)
    (name : str) (user : option Uuid) (id : Uuid) (suffix : str) (tx : option ApiError)
    : result (ApiKeyRecord * str * str) * KeyStore :=
  match require_role (ka_role ctx) Admin with
  | Ok _ =>
    match key_create s now (ka_workspace_id ctx) name user
            (match user with Some _ => Some kms | None => None end)
            (key_actor ctx) id suffix tx with
    | (Ok (row, plaintext), s') => (Ok (row, plaintext, mjoin (take 8 (chars plaintext))), s')
    | (Err e, s') => (Err e, s')
    | (Panic, s') => (Panic, s')
    end
  | Err e => (Err e, s)
  | Panic => (Panic, s)
  end.

Definition revoke_key (s : KeyStore) (now : N) (ctx : KeyAdmin) (key_id : Uuid)
    (tx : option ApiError) : result unit * KeyStore :=
  match require_role (ka_role ctx) Admin with
  | Ok _ => key_revoke s now (ka_workspace_id ctx) key_id (key_actor ctx) tx
  | Err e => (Err e, s)
  | Panic => (Panic, s)
  end.

Definition rotate_key (show_time : N -> str) (s : KeyStore) (now : N) (ctx : KeyAdmin)
    (key_id new_id : Uuid) (suffix : str) (tx : option ApiError) : result (str * N) * KeyStore :=
  match require_role (ka_role ctx) Admin with
  | Ok _ => key_rotate show_time s now (ka_workspace_id ctx) key_id (key_actor ctx) new_id suffix tx
  | Err e => (Err e, s)
  | Panic => (Panic, s)
  end.

(** ** A process over the shared table *)

Record KeySystem : Type := { sy_store : KeyStore; sy_cache : ConfigCache }.

Inductive KeyEvent : Type :=
  | EvAuth (workspaces : result (list (Uuid * option ApiError))) (header : HeaderValue)
  | EvCreate (kms : str -> option str) (ctx : KeyAdmin) (name : str) (user : option Uuid)
      (id : Uuid) (suffix : str) (tx : option ApiError)
  | EvRevoke (ctx : KeyAdmin) (key_id : Uuid) (tx : option ApiError)
  | EvRotate (ctx : KeyAdmin) (key_id new_id : Uuid) (suffix : str) (tx : option ApiError).

Definition key_step (rls : bool) (show_time : N -> str) (now : N) (ev : KeyEvent) (y : KeySystem)
    : KeySystem :=
  match ev with
  | EvAuth workspaces header =>
    {| sy_store := sy_store y;
       sy_cache := (authenticate_request rls now workspaces (ks_keys (sy_store y)) header
                      (sy_cache y)).2 |}
  | EvCreate kms ctx name user id suffix tx =>
    {| sy_store := (create_key kms (sy_store y) now ctx name user id suffix tx).2;
       sy_cache := sy_cache y |}
  | EvRevoke ctx key_id tx =>
    {| sy_store := (revoke_key (sy_store y) now ctx key_id tx).2; sy_cache := sy_cache y |}
  | EvRotate ctx key_id new_id suffix tx =>
    {| sy_store := (rotate_key show_time (sy_store y) now ctx key_id new_id suffix tx).2;
       sy_cache := sy_cache y |}
  end.

Definition key_run (rls : bool) (show_time : N -> str) (evs : list (N * KeyEvent)) (y : KeySystem)
    : KeySystem :=
  foldl (fun y ev => key_step rls show_time ev.1 ev.2 y) y evs.
End keys.

(** ** What API keys promise

    A revoked key stops authenticating within the cache's lifetime, for good; a
    rotated key dies with its grace window; and rotation loses the member a key
    was issued to. *)

Section spec.
Context `{KeyHash} (rls : bool) (show_time : N -> str).

Lemma newest_elem l r : newest l = Some r -> r ∈ l.
Proof.
  revert r. induction l as [|x l IH]; intros r; simpl; [done|].
  destruct (newest l) as [r'|]; intros [= <-]; [|by left].
  destruct (_ <=? _)%N; [right; auto|left].
Qed.

Lemma auth_loop_sound now hash ws keys a :
  auth_loop rls now hash ws keys = Ok (Some a) ->
  exists r, r ∈ keys /\ accepts now hash r = true /\ auk_workspace_id a = ak_workspace_id r /\
    auk_id a = ak_id r /\ auk_assigned_user_id a = ak_assigned_user_id r.
Proof.
  induction ws as [|[w [e|]] ws IH]; simpl; [done..|].
  destruct (lookup_in rls now hash w keys) as [r|] eqn:E; [|done].
  intros [= <-]. apply newest_elem, list_elem_of_filter in E as [Hp Hin].
  apply Is_true_true, andb_true_iff in Hp as [Hp _]. by exists r.
Qed.

(** No row the query could accept bears the hash. *)
Definition dead (h : str) (keys : list ApiKeyRecord) : Prop :=
  Forall (fun r => ak_key_hash r = h -> ak_revoked_at r <> None) keys.

Lemma dead_refuses h now ws keys :
  dead h keys -> forall a, auth_loop rls now h ws keys <> Ok (Some a).
Proof.
  intros Hd a (r & Hin & Hacc & _)%auth_loop_sound.
  unfold dead in Hd. rewrite Forall_forall in Hd. specialize (Hd r Hin).
  unfold accepts in Hacc. rewrite !andb_true_iff, !bool_decide_eq_true in Hacc. naive_solver.
Qed.

Lemma dead_app h keys r : dead h keys -> ak_key_hash r <> h -> dead h (keys ++ [r]).
Proof. intros Hd Hr. apply Forall_app_2; [done|]. by repeat constructor. Qed.

Lemma dead_update h p f keys :
  (forall r, ak_key_hash (f r) = ak_key_hash r) ->
  (forall r, ak_revoked_at r <> None -> ak_revoked_at (f r) <> None) ->
  dead h keys -> dead h (update_key p f keys).
Proof.
  intros Hh Hr Hd. apply Forall_fmap. eapply Forall_impl; [exact Hd|].
  intros r Hrow. simpl. destruct (p r); [|done]. rewrite Hh. auto.
Qed.

(** The key material an event draws. *)
Definition draws (ev : KeyEvent) : list str :=
  match ev with
  | EvCreate _ _ _ _ _ suffix _ | EvRotate _ _ _ suffix _ => [hash_api_key ($"sp_" ++ suffix)]
  | _ => []
  end.

Lemma dead_step h now ev y :
  dead h (ks_keys (sy_store y)) -> h ∉ draws ev ->
  dead h (ks_keys (sy_store (key_step rls show_time now ev y))).
Proof.
  intros Hd Hfresh. destruct ev; simpl in *; [done|..].
  - apply not_elem_of_cons in Hfresh as [Hne _].
    unfold create_key, key_create. repeat case_match; simplify_eq/=; try done;
      apply dead_app; simpl; congruence.
  - unfold revoke_key, key_revoke. repeat case_match; simplify_eq/=; try done.
    by apply dead_update.
  - apply not_elem_of_cons in Hfresh as [Hne _].
    unfold rotate_key, key_rotate. repeat case_match; simplify_eq/=; try done.
    apply dead_app; [by apply dead_update|]. simpl. congruence.
Qed.

(** Cached answers for the hash are no younger than [t]. *)
Definition stale_cache (h : str) (t : N) (c : ConfigCache) : Prop :=
  forall token e, api_keys c !! token = Some e -> hash_api_key token = h -> (ck_cached_at e <= t)%N.

Lemma stale_step h t now ev y :
  dead h (ks_keys (sy_store y)) -> stale_cache h t (sy_cache y) ->
  stale_cache h t (sy_cache (key_step rls show_time now ev y)).
Proof.
  intros Hd Hs. destruct ev as [ws header| | |]; simpl; try done.
  unfold authenticate_request.
  destruct header as [| |v]; simpl; try done.
  destruct (strip_prefix v _) as [token|]; [|done].
  destruct (negb _); [done|]. destruct (get_api_key _ _ _); [done|].
  destruct (authenticate_api_key _ _ _ _ _) as [[a|]| |] eqn:Ea; try done.
  intros token' e Hl Hh. simpl in Hl.
  apply lookup_insert_Some in Hl as [[<- <-]|[_ Hl]]; [|by eapply Hs].
  exfalso. unfold authenticate_api_key in Ea. apply obind_Ok in Ea as (l & _ & Ea).
  rewrite Hh in Ea. by eapply dead_refuses.
Qed.

Lemma run_dead h t evs : forall y,
  dead h (ks_keys (sy_store y)) -> stale_cache h t (sy_cache y) ->
  Forall (fun ev => h ∉ draws ev.2) evs ->
  dead h (ks_keys (sy_store (key_run rls show_time evs y))) /\
  stale_cache h t (sy_cache (key_run rls show_time evs y)).
Proof.
  unfold key_run. induction evs as [|[now ev] evs IH]; intros y Hd Hs Hf; [done|].
  apply Forall_cons_1 in Hf as [Hf1 Hf]. simpl.
  apply IH; [by apply dead_step|by apply stale_step|done].
Qed.

Lemma find_none_no_row {A} (p : A -> bool) l x : List.find p l = None -> x ∈ l -> p x = false.
Proof. intros Hf Hin. by eapply List.find_none; [|apply list_elem_of_In]. Qed.

(** Revoking the only row with a hash kills the hash. *)
Lemma revoke_kills h now ws key_id actor s s' :
  key_revoke s now ws key_id actor None = (Ok tt, s') ->
  Forall (fun r => ak_key_hash r = h -> targets_key ws key_id r = true \/ ak_revoked_at r <> None)
    (ks_keys s) ->
  dead h (ks_keys s').
Proof.
  unfold key_revoke. intros Hr Hu. destruct (List.find _ _); [|done]. simplify_eq/=.
  apply Forall_fmap. eapply Forall_impl; [exact Hu|].
  intros r Hrow. simpl. destruct (targets_key ws key_id r) eqn:E; [done|].
  intros Hh. destruct (Hrow Hh); [congruence|done].
Qed.

(** C30: Once an administrator has revoked a key, then whatever happens next
    (other keys created, rotated or revoked, any traffic), the key stops
    authenticating for good at most 60 s later, when the last cached answer
    has expired. *)
Theorem revoked_key_refused ctx key_id now0 y s' evs token now ws :
  let h := hash_api_key token in
  Forall (fun r => ak_key_hash r = h -> targets_key (ka_workspace_id ctx) key_id r = true
                   \/ ak_revoked_at r <> None) (ks_keys (sy_store y)) ->
  stale_cache h now0 (sy_cache y) ->
  revoke_key (sy_store y) now0 ctx key_id None = (Ok tt, s') ->
  Forall (fun ev => h ∉ draws ev.2) evs ->
  (now0 + CACHE_TTL < now)%N ->
  let y' := key_run rls show_time evs {| sy_store := s'; sy_cache := sy_cache y |} in
  forall auth c, authenticate_request rls now ws (ks_keys (sy_store y'))
    (HText ($"Bearer " ++ token)) (sy_cache y') <> (Ok auth, c).
Proof.
  intros h Hu Hstale Hrev Hfresh Hlate y' auth c.
  unfold revoke_key in Hrev. destruct (require_role _ _); try done.
  assert (dead h (ks_keys s')) as Hd by (by eapply revoke_kills).
  destruct (run_dead h now0 evs {| sy_store := s'; sy_cache := sy_cache y |} Hd Hstale Hfresh)
    as [Hd' Hs'].
  unfold authenticate_request.
  assert (strip_prefix ($"Bearer " ++ token) $"Bearer " = Some token) as -> by done.
  destruct (negb _); [done|].
  destruct (get_api_key now _ token) as [e|] eqn:Eg.
  - unfold get_api_key in Eg. apply bind_Some in Eg as (e' & Hl & Hc).
    destruct (CACHE_TTL <? _)%N eqn:El; simplify_eq.
    specialize (Hs' token e Hl eq_refl). unfold saturating_sub in El. lia.
  - destruct (authenticate_api_key _ _ _ _ _) as [[auk|]| |] eqn:Ea; try done.
    exfalso. unfold authenticate_api_key in Ea. apply obind_Ok in Ea as (l & _ & Ea).
    by eapply dead_refuses.
Qed.

(** The lookup over the two rows a rotation leaves, when one of them is
    excluded. *)
Lemma lookup_left now h ws a b :
  ak_workspace_id a = ws -> accepts now h b = false ->
  lookup_in rls now h ws [a; b] = if accepts now h a then Some a else None.
Proof.
  intros <- Hb. unfold lookup_in. rewrite !filter_cons, filter_nil, Hb, N.eqb_refl, orb_true_r.
  rewrite andb_true_r. by destruct (accepts now h a).
Qed.

Lemma lookup_right now h ws a b :
  ak_workspace_id b = ws -> accepts now h a = false -> accepts now h b = true ->
  lookup_in rls now h ws [a; b] = Some b.
Proof.
  intros <- Ha Hb. unfold lookup_in.
  by rewrite !filter_cons, filter_nil, Ha, Hb, N.eqb_refl, orb_true_r.
Qed.

Lemma accepts_other now h r : ak_key_hash r <> h -> accepts now h r = false.
Proof. intros Hne. unfold accepts. by rewrite bool_decide_eq_false_2. Qed.

Lemma accepts_new now id ws name h t user ct : accepts now h (new_key id ws name h t user ct) = true.
Proof. unfold accepts, new_key. cbn. by rewrite bool_decide_eq_true_2. Qed.

Lemma accepts_rotating now now0 hash prefix r :
  ak_revoked_at r = None ->
  accepts now (ak_key_hash r) (mark_rotating now0 hash prefix r)
  = (now <? grace_end now0 (ak_rotation_grace_secs r))%N.
Proof.
  intros Hr. unfold accepts. cbn [mark_rotating ak_key_hash ak_revoked_at ak_status ak_rotated_at
    ak_rotation_grace_secs].
  by rewrite Hr, (bool_decide_eq_true_2 (ak_key_hash r = ak_key_hash r)).
Qed.

Lemma rotate_active s now0 ws key_id actor new_id suffix r :
  ks_keys s = [r] -> ak_status r = $"active" -> ak_id r = key_id -> ak_workspace_id r = ws ->
  let plain := $"sp_" ++ suffix in
  let prefix := mjoin (take 12 (chars plain)) in
  exists s', key_rotate show_time s now0 ws key_id actor new_id suffix None
    = (Ok (plain, grace_end now0 (ak_rotation_grace_secs r)), s') /\
    ks_keys s' = [mark_rotating now0 (hash_api_key plain) prefix r;
                  new_key new_id ws (ak_name r ++ $" (rotated)") (hash_api_key plain) now0 None None].
Proof.
  intros Hkeys Hact <- <- plain prefix. unfold key_rotate. rewrite Hkeys. cbn [List.find].
  assert (targets_key (ak_workspace_id r) (ak_id r) r = true) as ->.
  { unfold targets_key, live_status. by rewrite !N.eqb_refl, Hact. }
  rewrite bool_decide_eq_false_2 by (by rewrite Hact).
  eexists. split; [done|]. cbn [ks_keys]. unfold update_key. cbn [fmap list_fmap].
  by rewrite N.eqb_refl.
Qed.

(** Rotating an active key leaves it usable exactly until its grace window
    ends and issues a successor that authenticates at once, in the same
    workspace, but without the member the old key was issued to. *)
Theorem rotation_loses_owner s now0 ws key_id actor new_id suffix r now :
  let plain := $"sp_" ++ suffix in
  ks_keys s = [r] -> ak_status r = $"active" -> ak_id r = key_id -> ak_workspace_id r = ws ->
  ak_revoked_at r = None -> ak_key_hash r <> hash_api_key plain ->
  exists s', key_rotate show_time s now0 ws key_id actor new_id suffix None
    = (Ok (plain, grace_end now0 (ak_rotation_grace_secs r)), s') /\
  authenticate_api_key rls now (Ok [(ws, None)]) plain (ks_keys s') =
    Ok (Some {| auk_id := new_id; auk_workspace_id := ws;
                auk_name := ak_name r ++ $" (rotated)"; auk_assigned_user_id := None |}) /\
  (forall token, hash_api_key token = ak_key_hash r ->
   (authenticate_api_key rls now (Ok [(ws, None)]) token (ks_keys s') <> Ok None <->
    (now < grace_end now0 (ak_rotation_grace_secs r))%N)).
Proof.
  intros plain Hkeys Hact Hid Hws Hrev Hne.
  destruct (rotate_active s now0 ws key_id actor new_id suffix r) as (s' & Hrot & Hk); [done..|].
  exists s'. split; [exact Hrot|]. rewrite Hk. unfold authenticate_api_key. cbn [obind auth_loop].
  split.
  - rewrite lookup_right; [done|done|by apply accepts_other|apply accepts_new].
  - intros token Hh. rewrite Hh, lookup_left; [|done|by apply accepts_other].
    rewrite accepts_rotating by done. rewrite <-N.ltb_lt. by destruct (now <? _)%N.
Qed.
End spec.

(** ** A concrete deployment *)

Definition demo_hash : KeyHash := fun s => $"h:" ++ s.
Definition demo_admin : KeyAdmin := {|
  ka_user_id := 1; ka_workspace_id := 2; ka_role := Admin; ka_email := Ok None |}.
Definition demo_key : ApiKeyRecord :=
  new_key 3 2 $"ci" $"h:sp_old" 0 (Some 9%N) (Some $"ct").
Definition demo_store : KeyStore := {| ks_keys := [demo_key]; ks_audit := [] |}.
Definition demo_events : list (N * KeyEvent) :=
  [(20%N, EvAuth (Ok [(2%N, None)]) (HText $"Bearer sp_old"));
   (30%N, EvCreate (fun _ => None) demo_admin $"other" None 4 $"new" None)].

Lemma revoked_key_refused_witness :
  ~ exists auth c,
    let y' := @key_run demo_hash true show_N demo_events
      {| sy_store := (@revoke_key demo_store 10 demo_admin 3 None).2; sy_cache := ConfigCache_default |} in
    @authenticate_request demo_hash true 60011 (Ok [(2%N, None)]) (ks_keys (sy_store y'))
      (HText ($"Bearer " ++ $"sp_old")) (sy_cache y') = (Ok auth, c).
Proof.
  intros (auth & c & Hok). revert Hok.
  apply (@revoked_key_refused demo_hash true show_N demo_admin 3 10
    {| sy_store := demo_store; sy_cache := ConfigCache_default |}
    (@revoke_key demo_store 10 demo_admin 3 None).2 demo_events $"sp_old" 60011).
  - apply Forall_cons_2; [|apply Forall_nil_2]. intros _. left. reflexivity.
  - intros token e Hl. cbn in Hl. by rewrite lookup_empty in Hl.
  - reflexivity.
  - apply Forall_cons_2; [decide_compute|]. apply Forall_cons_2; [decide_compute|]. apply Forall_nil_2.
  - reflexivity.
Defined.

Lemma rotation_loses_owner_witness :
  exists s', @authenticate_api_key demo_hash true 50 (Ok [(2%N, None)]) $"sp_new" (ks_keys s')
  = Ok (Some {| auk_id := 7; auk_workspace_id := 2; auk_name := $"ci (rotated)";
                auk_assigned_user_id := None |}).
Proof.
  destruct (@rotation_loses_owner demo_hash true show_N demo_store 10 2 3
    (key_actor demo_admin) 7 $"new" demo_key 50) as (s' & _ & Hauth & _); try reflexivity.
  - vm_compute. congruence.
  - exists s'. exact Hauth.
Defined.
