(* ===== verification/OpenAi.v ===== *)
(** * The OpenAI-compatible routes ([http/routes/openai.rs])

    The three data-plane handlers, composed as the code composes them:
    authentication, rate limits, the device header, the budget reservation,
    model resolution, the pipeline, reconciliation, response shaping.

    [Front] is the process state the handlers share; [FrontIo] what one
    request's clocks, database and Redis answer.  [serde_json]'s rendering of a
    value and UUID parsing are parameters.  A server-sent event is its JSON
    data, or the terminal [DONE]. *)

From Stdlib Require Import SpecFloat.
From S2P Require Import Prelude Rstr Json Types Sidecar Streaming Providers SecureMode.
From S2P Require Import Pipeline Limits AdminAudit ApiKeys.

(** ** Requests *)

Record StreamOptions : Type := { include_usage : option bool }.

Record ChatCompletionsRequest : Type := {
  cc_model : str;
  cc_messages : list Message;
  cc_stream : bool;
  cc_stream_options : option StreamOptions;
  cc_extra : list (str * Value);
}.

Record CompletionRequest : Type := {
  cr_model : str;
  cr_prompt : Value;
  cr_stream : bool;
  cr_stream_options : option StreamOptions;
  cr_extra : list (str * Value);
}.

Record EmbeddingsRequest : Type := {
  em_model : str;
  em_input : Value;
  em_extra : list (str * Value);
}.

Record Headers : Type := {
  hd_authorization : HeaderValue;
  hd_device_mac : HeaderValue;
  hd_forwarded_for : HeaderValue;
  hd_real_ip : HeaderValue;
  hd_user_agent : HeaderValue;
  hd_request_id : HeaderValue;
}.

(** [headers.get(..).and_then(|v| v.to_str().ok())] *)
Definition header_text (h : HeaderValue) : option str :=
  match h with HText v => Some v | _ => None end.

(** ** Responses *)

Inductive SseEvent : Type := SseData (v : Value) | SseDone.
Inductive Body : Type := JsonBody (v : Value) | SseBody (events : list SseEvent).

Record HttpResponse : Type := {
  rs_body : Body;
  rs_budget_warning : option str;
  rs_sidecar_degraded : option str;
  rs_engines : option str;
  rs_no_buffering : bool;
}.

Definition plain_response (b : Body) : HttpResponse := {|
  rs_body := b; rs_budget_warning := None; rs_sidecar_degraded := None; rs_engines := None;
  rs_no_buffering := false;
|}.

Definition with_budget_warning (r : HttpResponse) (g : BudgetGate) : HttpResponse :=
  match warning_bucket g with
  | Some bucket => {| rs_body := rs_body r; rs_budget_warning := Some bucket;
      rs_sidecar_degraded := rs_sidecar_degraded r; rs_engines := rs_engines r;
      rs_no_buffering := rs_no_buffering r |}
  | None => r
  end.

Definition with_sidecar_degraded (r : HttpResponse) (reason : option CoverageLoss) : HttpResponse :=
  match reason with
  | Some reason => {| rs_body := rs_body r; rs_budget_warning := rs_budget_warning r;
      rs_sidecar_degraded := Some (CoverageLoss_as_str reason); rs_engines := rs_engines r;
      rs_no_buffering := rs_no_buffering r |}
  | None => r
  end.

Definition with_engines (r : HttpResponse) (e : DetectionEngines) : HttpResponse := {|
  rs_body := rs_body r; rs_budget_warning := rs_budget_warning r;
  rs_sidecar_degraded := rs_sidecar_degraded r;
  rs_engines := Some (engines_as_header_value e); rs_no_buffering := rs_no_buffering r;
|}.

(** ** JSON *)

Definition num (n : N) : Value := Number (PosInt n).
Definition int (z : Z) : Value :=
  Number (if (0 <=? z)%Z then PosInt (Z.to_N z) else NegInt z).

(** A non-finite float serialises as null. *)
Definition json_f32 (x : f32) : Value :=
  match x with
  | S754_infinity _ | S754_nan => Null
  | _ => Number (Float (f64_from x))
  end.

(** The sum is a [u32] addition, here with the wrap-around of a build without
    overflow checks. *)
Definition usage_value (u : TokenUsage) (estimated : bool) : Value :=
  let input := default 0%N (input_tokens u) in
  let output := default 0%N (output_tokens u) in
  Object [($"prompt_tokens", num input);
          ($"completion_tokens", num output);
          ($"total_tokens", num ((input + output) mod 2 ^ 32)%N);
          ($"reasoning_tokens", num (default 0%N (reasoning_tokens u)));
          ($"cache_read_tokens", num (default 0%N (cache_read_tokens u)));
          ($"cache_write_tokens", num (default 0%N (cache_write_tokens u)));
          ($"estimated", Bool estimated)].

Definition usage_json (x : PipelineExecution) : Value :=
  usage_value (px_usage x) (px_estimated_usage x).

Definition chunk_json (id object : str) (created : Z) (model : str) (choices : list Value)
    (usage : option Value) : Value :=
  Object ([($"id", VString id); ($"object", VString object); ($"created", int created);
           ($"model", VString model); ($"choices", Array choices)] ++
          match usage with Some u => [($"usage", u)] | None => [] end).

Definition chat_choice (chunk : str) : Value :=
  Object [($"index", num 0); ($"delta", Object [($"content", VString chunk)]); ($"finish_reason", Null)].
Definition text_choice (chunk : str) : Value :=
  Object [($"index", num 0); ($"text", VString chunk); ($"finish_reason", Null)].

(** The buffered streams: a chunk event each, the usage, the terminator. *)
Definition buffered_stream (object : str) (choice : str -> Value) (created : Z)
    (x : PipelineExecution) : HttpResponse :=
  let id := show_uuid (px_request_id x) in
  plain_response (SseBody (
    ((fun chunk => SseData (chunk_json id object created (px_model x) [choice chunk] None))
       <$> px_stream_chunks x)
    ++ [SseData (chunk_json id object created (px_model x) [] (Some (usage_json x))); SseDone])).

Definition stream_chat_response : Z -> PipelineExecution -> HttpResponse :=
  buffered_stream $"chat.completion.chunk" chat_choice.
Definition stream_completion_response : Z -> PipelineExecution -> HttpResponse :=
  buffered_stream $"text_completion" text_choice.

(** The live stream; [uuid] is the fresh identifier. *)
Definition stream_chat_response_live (created : Z) (uuid : Uuid) (items : list ChatStreamItem)
    (model : str) : HttpResponse :=
  let id := $"chatcmpl-" ++ hex_digits 32 uuid in
  {| rs_body := SseBody (
       ((fun item => SseData (match item with
          | Delta content => chunk_json id $"chat.completion.chunk" created model [chat_choice content] None
          | Done usage estimated done_model _ =>
            chunk_json id $"chat.completion.chunk" created done_model [] (Some (usage_value usage estimated))
          end)) <$> items) ++ [SseDone]);
     rs_budget_warning := None; rs_sidecar_degraded := None; rs_engines := None;
     rs_no_buffering := true |}.

Definition chat_body (created : Z) (x : PipelineExecution) : Value :=
  Object [($"id", VString (show_uuid (px_request_id x)));
          ($"object", VString $"chat.completion"); ($"created", int created);
          ($"model", VString (px_model x));
          ($"choices", Array [Object [($"index", num 0);
             ($"message", Object [($"role", VString $"assistant");
                                  ($"content", VString (default [] (px_content x)))]);
             ($"finish_reason", VString (default $"stop" (px_finish_reason x)))]]);
          ($"usage", usage_json x)].

Definition completion_body (created : Z) (x : PipelineExecution) : Value :=
  Object [($"id", VString (show_uuid (px_request_id x)));
          ($"object", VString $"text_completion"); ($"created", int created);
          ($"model", VString (px_model x));
          ($"choices", Array [Object [($"index", num 0);
             ($"text", VString (default [] (px_content x)));
             ($"finish_reason", VString (default $"stop" (px_finish_reason x)))]]);
          ($"usage", usage_json x)].

Definition embeddings_body (x : PipelineExecution) : Value :=
  Object [($"object", VString $"list");
          ($"data", Array [Object [($"object", VString $"embedding"); ($"index", num 0);
             ($"embedding", Array (json_f32 <$> default [] (px_embedding x)))]]);
          ($"model", VString (px_model x));
          ($"usage", usage_json x)].

(** ** Header helpers *)

(** [s.split(',').next()] *)
Definition first_field (s : str) : str := default [] (head (split_byte ","%char s)).

Definition client_ip_from_headers (h : Headers) : option str :=
  let real := s ← header_text (hd_real_ip h);
              let t := trim s in if bool_decide (t = []) then None else Some t in
  match first_field <$> header_text (hd_forwarded_for h) with
  | Some forwarded => let t := trim forwarded in if bool_decide (t = []) then real else Some t
  | None => real
  end.

Definition is_ascii_hexdigit (c : ascii) : bool :=
  is_ascii_digit c || in_range 65 70 c || in_range 97 102 c.

(** The normalised MAC address, when the header holds one. *)
Definition parse_device_mac (h : HeaderValue) : option str :=
  raw ← match h with HAbsent => None | HOpaque => Some [] | HText v => Some (trim v) end;
  if bool_decide (raw = []) || (64 <? slen raw)%N then None
  else
    let normalised := to_ascii_lowercase (replace raw $"-" $":") in
    let parts := split_byte ":"%char normalised in
    if bool_decide (length parts = 6%nat) &&
       forallb (fun p => bool_decide (length p = 2%nat) && forallb is_ascii_hexdigit p) parts
    then Some normalised else None.

(** ** The process and one request's world *)

Record Front : Type := {
  fr_cache : ConfigCache;
  fr_limiter : RateLimiter;
  fr_counters : Counters;
  fr_metrics : list BudgetMetric;
  fr_macs : gmap (Uuid * Uuid) (option str);    (* users.device_mac, by user and workspace *)
  fr_gateway : Gateway;
}.

Record FrontIo : Type := {
  fi_rls : bool;
  fi_workspaces : result (list (Uuid * option ApiError));
  fi_keys : list ApiKeyRecord;
  fi_auth_now : N;
  fi_limit_now1 : Z;
  fi_limit_now2 : Z;
  fi_mac_ok : bool;
  fi_budget : BudgetIo;
  fi_model_now : N;
  fi_targets : Uuid -> str -> result (list ModelTarget);
  fi_providers : Uuid -> result (list ProviderRow);
  fi_reconcile_clock : Z;
  fi_reconcile_daily : RedisIo;
  fi_reconcile_monthly : RedisIo;
  fi_created : Z;
  fi_stream_uuid : Uuid;
  fi_connect_ip : str;
}.

(** [persist_device_mac_header]: best effort; the row must exist. *)
Definition persist_device_mac_header (io : FrontIo) (auth : AuthContext) (h : Headers)
    (macs : gmap (Uuid * Uuid) (option str)) : gmap (Uuid * Uuid) (option str) :=
  match parse_device_mac (hd_device_mac h), au_user_id auth with
  | Some mac, Some user =>
    if fi_mac_ok io then alter (fun _ => Some mac) (user, au_workspace_id auth) macs else macs
  | _, _ => macs
  end.

Section routes.
Context `{CaseMap} `{HashOrder} `{KeyHash} `{BudgetKeys}.
Context (regex_new : str -> option (str -> bool)) (floor : floor_detector) (merge : merger).
Context (E : Env) (render_debug_payload : ModelTarget -> GatewayRequest -> str -> gmap str str -> str).
Context (json_display : Value -> str) (parse_uuid_text : str -> option Uuid).

Definition request_id_from_headers (h : Headers) : option RequestId :=
  header_text (hd_request_id h) ≫= parse_uuid_text.

Fixpoint value_to_string (v : Value) : str :=
  match v with
  | VString text => text
  | Array items => join [ascii_of_N 10] (value_to_string <$> items)
  | _ => json_display v
  end.

(** Everything before the pipeline: each refusal ends the request there. *)
Definition admission (io : FrontIo) (h : Headers) (estimated : N) (model : str) (f : Front)
    : result (AuthContext * BudgetGate * ResolvedModel) * Front :=
  let '(r1, cache1) :=
    authenticate_request (fi_rls io) (fi_auth_now io) (fi_workspaces io) (fi_keys io)
      (hd_authorization h) (fr_cache f) in
  let f1 := {| fr_cache := cache1; fr_limiter := fr_limiter f; fr_counters := fr_counters f;
               fr_metrics := fr_metrics f; fr_macs := fr_macs f; fr_gateway := fr_gateway f |} in
  match r1 with
  | Err e => (Err e, f1)
  | Panic => (Panic, f1)
  | Ok auth =>
    let '(r2, limiter2) :=
      enforce_rate_limit show_uuid (fr_limiter f1) (au_api_key_id auth) (au_workspace_id auth)
        (fi_limit_now1 io) (fi_limit_now2 io) in
    let f2 := {| fr_cache := cache1; fr_limiter := limiter2; fr_counters := fr_counters f;
                 fr_metrics := fr_metrics f; fr_macs := fr_macs f; fr_gateway := fr_gateway f |} in
    match r2 with
    | Err e => (Err e, f2)
    | Panic => (Panic, f2)
    | Ok _ =>
      let macs3 := persist_device_mac_header io auth h (fr_macs f) in
      let '(r3, counters3, ms) :=
        pre_check_budget (fi_budget io) (au_workspace_id auth) estimated (fr_counters f) in
      let f3 := {| fr_cache := cache1; fr_limiter := limiter2; fr_counters := counters3;
                   fr_metrics := fr_metrics f ++ ms; fr_macs := macs3;
                   fr_gateway := fr_gateway f |} in
      match r3 with
      | Err e => (Err e, f3)
      | Panic => (Panic, f3)
      | Ok gate =>
        let '(r4, cache4) :=
          resolve_model (fi_model_now io) cache1 (fi_targets io (au_workspace_id auth) model)
            (fi_providers io (au_workspace_id auth)) (au_workspace_id auth) model in
        let f4 := {| fr_cache := cache4; fr_limiter := limiter2; fr_counters := counters3;
                     fr_metrics := fr_metrics f ++ ms; fr_macs := macs3;
                     fr_gateway := fr_gateway f |} in
        match r4 with
        | Err e => (Err e, f4)
        | Panic => (Panic, f4)
        | Ok resolved => (Ok (auth, gate, resolved), f4)
        end
      end
    end
  end.

Definition set_gateway (f : Front) (g : Gateway) : Front := {|
  fr_cache := fr_cache f; fr_limiter := fr_limiter f; fr_counters := fr_counters f;
  fr_metrics := fr_metrics f; fr_macs := fr_macs f; fr_gateway := g;
|}.

Definition charge (f : Front) (cm : Counters * list BudgetMetric) : Front := {|
  fr_cache := fr_cache f; fr_limiter := fr_limiter f; fr_counters := cm.1;
  fr_metrics := fr_metrics f ++ cm.2; fr_macs := fr_macs f; fr_gateway := fr_gateway f;
|}.

(** The buffered pipeline and its reconciliation; an error is not
    reconciled. *)
Definition execute_and_reconcile (io : FrontIo) (auth : AuthContext) (resolved : ResolvedModel)
    (req : GatewayRequest) (estimated : N) (f : Front) : result PipelineExecution * Front :=
  let '(r, g) := execute regex_new floor merge E render_debug_payload auth resolved req (fr_gateway f) in
  let f' := set_gateway f g in
  match r with
  | Ok x => (Ok x, charge f' (reconcile_workspace_tokens (fi_reconcile_clock io)
      (fi_reconcile_daily io) (fi_reconcile_monthly io) (au_workspace_id auth) (px_usage x)
      estimated (fr_counters f')))
  | Err e => (Err e, f')
  | Panic => (Panic, f')
  end.

(** The stream reconciles itself: its [AdjustTokens] effects reach the
    counters. *)
Definition settle_stream (io : FrontIo) (auth : AuthContext) (before : Gateway) (f : Front) : Front :=
  foldl (fun f eff =>
    match eff with
    | AdjustTokens delta => charge f (adjust_workspace_tokens (fi_reconcile_clock io)
        (fi_reconcile_daily io) (fi_reconcile_monthly io) (au_workspace_id auth) delta (fr_counters f))
    | _ => f
    end) f (drop (length (g_trace before)) (g_trace (fr_gateway f))).

Definition decorate (r : HttpResponse) (gate : BudgetGate) (degraded : option CoverageLoss)
    (engines : DetectionEngines) : HttpResponse :=
  with_engines (with_sidecar_degraded (with_budget_warning r gate) degraded) engines.

Definition stream_params (stream : bool) (opts : option StreamOptions) (extra : list (str * Value))
    : Value :=
  let params := match opts with
    | Some o => obj_insert extra $"stream_options"
        (Object [($"include_usage", match include_usage o with Some b => Bool b | None => Null end)])
    | None => extra
    end in
  if stream then force_include_usage (Object params) else Object params.

Definition client_ip_of (io : FrontIo) (h : Headers) : option str :=
  match client_ip_from_headers h with Some ip => Some ip | None => Some (fi_connect_ip io) end.

Definition chat_completions (io : FrontIo) (h : Headers) (request : ChatCompletionsRequest)
    (f : Front) : result HttpResponse * Front :=
  let estimated := foldr (fun m s => (estimate_tokens_from_text (content m) + s)%N) 0%N
                     (cc_messages request) in
  match admission io h estimated (cc_model request) f with
  | (Err e, f1) => (Err e, f1)
  | (Panic, f1) => (Panic, f1)
  | (Ok (auth, gate, resolved), f1) =>
    let req := {| gr_public_model := cc_model request; gr_messages := cc_messages request;
      gr_stream := cc_stream request; gr_request_kind := Chat;
      gr_extra_params := stream_params (cc_stream request) (cc_stream_options request) (cc_extra request);
      gr_client_ip := client_ip_of io h; gr_user_agent := header_text (hd_user_agent h);
      gr_request_id := request_id_from_headers h |} in
    if cc_stream request && negb (chat_debug_mode E) then
      let '(r, g) := execute_stream regex_new floor merge E auth resolved req estimated (fr_gateway f1) in
      let f2 := settle_stream io auth (fr_gateway f1) (set_gateway f1 g) in
      match r with
      | Ok s => (Ok (decorate (stream_chat_response_live (fi_created io) (fi_stream_uuid io)
                       (sx_items s) (cc_model request)) gate (sx_degraded_reason s) (sx_engines s)), f2)
      | Err e => (Err e, f2)
      | Panic => (Panic, f2)
      end
    else
      match execute_and_reconcile io auth resolved req estimated f1 with
      | (Ok x, f2) =>
        let body := if cc_stream request then stream_chat_response (fi_created io) x
                    else plain_response (JsonBody (chat_body (fi_created io) x)) in
        (Ok (decorate body gate (px_degraded_reason x) (px_engines x)), f2)
      | (Err e, f2) => (Err e, f2)
      | (Panic, f2) => (Panic, f2)
      end
  end.

Definition user_message (text : str) : list Message := [{| role := $"user"; content := text |}].

Definition completions (io : FrontIo) (h : Headers) (request : CompletionRequest) (f : Front)
    : result HttpResponse * Front :=
  let prompt := value_to_string (cr_prompt request) in
  let estimated := estimate_tokens_from_text prompt in
  match admission io h estimated (cr_model request) f with
  | (Err e, f1) => (Err e, f1)
  | (Panic, f1) => (Panic, f1)
  | (Ok (auth, gate, resolved), f1) =>
    let req := {| gr_public_model := cr_model request; gr_messages := user_message prompt;
      gr_stream := cr_stream request; gr_request_kind := Completion;
      gr_extra_params := stream_params (cr_stream request) (cr_stream_options request) (cr_extra request);
      gr_client_ip := client_ip_of io h; gr_user_agent := header_text (hd_user_agent h);
      gr_request_id := request_id_from_headers h |} in
    match execute_and_reconcile io auth resolved req estimated f1 with
    | (Ok x, f2) =>
      let body := if cr_stream request then stream_completion_response (fi_created io) x
                  else plain_response (JsonBody (completion_body (fi_created io) x)) in
      (Ok (decorate body gate (px_degraded_reason x) (px_engines x)), f2)
    | (Err e, f2) => (Err e, f2)
    | (Panic, f2) => (Panic, f2)
    end
  end.

Definition embeddings (io : FrontIo) (h : Headers) (request : EmbeddingsRequest) (f : Front)
    : result HttpResponse * Front :=
  let input := value_to_string (em_input request) in
  let estimated := estimate_tokens_from_text input in
  match admission io h estimated (em_model request) f with
  | (Err e, f1) => (Err e, f1)
  | (Panic, f1) => (Panic, f1)
  | (Ok (auth, gate, resolved), f1) =>
    let req := {| gr_public_model := em_model request; gr_messages := user_message input;
      gr_stream := false; gr_request_kind := Embedding; gr_extra_params := Object (em_extra request);
      gr_client_ip := client_ip_of io h; gr_user_agent := header_text (hd_user_agent h);
      gr_request_id := request_id_from_headers h |} in
    match execute_and_reconcile io auth resolved req estimated f1 with
    | (Ok x, f2) =>
      (Ok (decorate (plain_response (JsonBody (embeddings_body x))) gate (px_degraded_reason x)
             (px_engines x)), f2)
    | (Err e, f2) => (Err e, f2)
    | (Panic, f2) => (Panic, f2)
    end
  end.
End routes.
