(* ===== verification/OpenAiSpec.v ===== *)
(** * What the data-plane routes promise

    Nothing of the pipeline runs before authentication, the rate limits, the
    budget and model resolution have all said yes; and a served request's net
    charge to the budget is what the provider reported, provided there was a
    budget to charge. *)

From S2P Require Import Prelude Rstr Json Types Sidecar Streaming Providers SecureMode.
From S2P Require Import Pipeline Limits LimitsSpec AdminAudit ApiKeys OpenAi.
From S2P Require Import ProvidersSpec SidecarSpec PipelineSpec GatewaySpec ReplySpec RedactionSpec PolicySpec AnalyticsSpec.

Section spec.
Context `{CaseMap} `{HashOrder} `{KeyHash} `{BudgetKeys}.
Context (regex_new : str -> option (str -> bool)) (floor : floor_detector) (merge : merger).
Context (E : Env) (render : ModelTarget -> GatewayRequest -> str -> gmap str str -> str).
Context (json_display : Value -> str) (parse_uuid_text : str -> option Uuid).

(** Every gate of [admission] was passed, in this order, for this request. *)
Record admitted_by (io : FrontIo) (h : Headers) (estimated : N) (model : str) (f : Front)
    (auth : AuthContext) (gate : BudgetGate) (resolved : ResolvedModel) : Prop := {
  ab_token : exists token, hd_authorization h = HText ($"Bearer " ++ token) /\
    starts_with token $"sp_" = true /\
    ((exists e, get_api_key (fi_auth_now io) (fr_cache f) token = Some e /\
        au_workspace_id auth = ck_workspace_id e /\ au_api_key_id auth = ck_api_key_id e) \/
     (exists r, r ∈ fi_keys io /\ accepts (fi_auth_now io) (hash_api_key token) r = true /\
        au_workspace_id auth = ak_workspace_id r /\ au_api_key_id auth = ak_id r));
  ab_limits : exists rl1 rl2,
    check (fr_limiter f) ($"api_key:" ++ show_uuid (au_api_key_id auth)) (fi_limit_now1 io) = (Ok tt, rl1) /\
    check rl1 ($"workspace:" ++ show_uuid (au_workspace_id auth)) (fi_limit_now2 io) = (Ok tt, rl2);
  ab_budget : (pre_check_budget (fi_budget io) (au_workspace_id auth) estimated (fr_counters f)).1.1
    = Ok gate;
  ab_model : exists cache, (resolve_model (fi_model_now io) cache
      (fi_targets io (au_workspace_id auth) model) (fi_providers io (au_workspace_id auth))
      (au_workspace_id auth) model).1 = Ok resolved;
}.

Lemma strip_prefix_Some v pat rest : strip_prefix v pat = Some rest -> v = pat ++ rest.
Proof.
  unfold strip_prefix. destruct (starts_with v pat) eqn:Hs; [|done]. intros [= <-].
  apply starts_with_spec in Hs as [t ->]. by rewrite drop_app_length.
Qed.

(** A successful authentication rests on a live cache entry or on a row the
    database accepts. *)
Lemma authenticate_request_sound rls now ws keys header c auth c' :
  authenticate_request rls now ws keys header c = (Ok auth, c') ->
  exists token, header = HText ($"Bearer " ++ token) /\ starts_with token $"sp_" = true /\
    ((exists e, get_api_key now c token = Some e /\
        au_workspace_id auth = ck_workspace_id e /\ au_api_key_id auth = ck_api_key_id e) \/
     (exists r, r ∈ keys /\ accepts now (hash_api_key token) r = true /\
        au_workspace_id auth = ak_workspace_id r /\ au_api_key_id auth = ak_id r)).
Proof.
  unfold authenticate_request. destruct header as [| |v]; [done..|].
  destruct (strip_prefix v _) as [token|] eqn:Hv; [|done].
  apply strip_prefix_Some in Hv as ->.
  destruct (starts_with token _) eqn:Hsp; [|done]. cbn [negb].
  intros Ha. exists token. split; [done|]. split; [done|].
  destruct (get_api_key now c token) as [e|] eqn:Hg.
  - left. exists e. injection Ha as <- <-. done.
  - right. destruct (authenticate_api_key _ _ _ _ _) as [[a|]| |] eqn:Hdb; try done.
    injection Ha as <- <-. unfold authenticate_api_key in Hdb.
    apply obind_Ok in Hdb as (l & _ & Hdb).
    apply auth_loop_sound in Hdb as (r & Hin & Hacc & Hw & Hid & _). by exists r.
Qed.

Lemma admit_Ok io h estimated model f auth gate resolved f1 :
  admission io h estimated model f = (Ok (auth, gate, resolved), f1) ->
  admitted_by io h estimated model f auth gate resolved /\
  fr_counters f1 = (pre_check_budget (fi_budget io) (au_workspace_id auth) estimated
                      (fr_counters f)).1.2.
Proof.
  unfold admission. intros Ha.
  destruct (authenticate_request _ _ _ _ _ _) as [r1 cache1] eqn:E1.
  destruct r1 as [a| |]; [|done..]. cbn [fr_limiter] in Ha.
  destruct (enforce_rate_limit _ _ _ _ _ _) as [r2 limiter2] eqn:E2.
  destruct r2 as [[]| |]; [|done..].
  destruct (pre_check_budget _ _ _ _) as [[r3 counters3] ms] eqn:E3.
  destruct r3 as [g| |]; [|done..].
  destruct (resolve_model _ _ _ _ _ _) as [r4 cache4] eqn:E4.
  destruct r4 as [m| |]; [|done..]. injection Ha as <- <- <- <-.
  split; [|by rewrite E3]. split.
  - by eapply authenticate_request_sound.
  - unfold enforce_rate_limit in E2. destruct (check _ _ _) as [[[]| |] rl1] eqn:Ec; [|done..].
    by exists rl1, limiter2.
  - by rewrite E3.
  - exists cache1. by rewrite E4.
Qed.

(** A refused request never reaches the pipeline. *)
Lemma admit_gateway io h estimated model f r f1 :
  admission io h estimated model f = (r, f1) -> fr_gateway f1 = fr_gateway f.
Proof.
  unfold admission. intros Ha. repeat case_match; simplify_eq/=; done.
Qed.

(** The three routes. *)
Inductive route : Type :=
  | RChat (r : ChatCompletionsRequest)
  | RCompletion (r : CompletionRequest)
  | REmbeddings (r : EmbeddingsRequest).

Definition route_model (r : route) : str :=
  match r with RChat r => cc_model r | RCompletion r => cr_model r | REmbeddings r => em_model r end.

Definition route_estimate (r : route) : N :=
  match r with
  | RChat r => foldr (fun m s => (estimate_tokens_from_text (content m) + s)%N) 0%N (cc_messages r)
  | RCompletion r => estimate_tokens_from_text (value_to_string json_display (cr_prompt r))
  | REmbeddings r => estimate_tokens_from_text (value_to_string json_display (em_input r))
  end.

Definition serve (io : FrontIo) (h : Headers) (r : route) (f : Front) : result HttpResponse * Front :=
  match r with
  | RChat r => chat_completions regex_new floor merge E render parse_uuid_text io h r f
  | RCompletion r => completions regex_new floor merge E render json_display parse_uuid_text io h r f
  | REmbeddings r => embeddings regex_new floor merge E render json_display parse_uuid_text io h r f
  end.

(** C14: On every data-plane route the pipeline runs (a scan, a provider call,
    an audit row) or an answer is served only for a request whose key is cached
    within its lifetime or accepted by the database, which both rate buckets
    let through, whose budget gate passed and whose model resolved in the key's
    own workspace. *)
Theorem route_guarded io h rt f resp f' :
  serve io h rt f = (resp, f') ->
  fr_gateway f' <> fr_gateway f \/ is_ok resp = true ->
  exists auth gate resolved,
    admitted_by io h (route_estimate rt) (route_model rt) f auth gate resolved.
Proof.
  intros Hs Hran.
  assert (Hadm : exists r f1, admission io h (route_estimate rt) (route_model rt) f = (r, f1) /\
    (is_ok r = false -> is_ok resp = false /\ fr_gateway f' = fr_gateway f1)).
  { destruct rt as [r|r|r]; cbn [serve route_estimate route_model] in *;
      unfold chat_completions, completions, embeddings in Hs;
      (destruct (admission _ _ _ _ _) as [[[[auth gate] resolved]| |] f1];
        [by do 2 eexists|injection Hs as <- <-; by do 2 eexists..]). }
  destruct Hadm as (r & f1 & Ha & Hno).
  destruct r as [[[auth gate] resolved]| |].
  - destruct (admit_Ok _ _ _ _ _ _ _ _ _ Ha) as [Hab _]. by exists auth, gate, resolved.
  - destruct (Hno eq_refl) as [Hn Hg]. rewrite (admit_gateway _ _ _ _ _ _ _ Ha) in Hg.
    destruct Hran; congruence.
  - destruct (Hno eq_refl) as [Hn Hg]. rewrite (admit_gateway _ _ _ _ _ _ _ Ha) in Hg.
    destruct Hran; congruence.
Qed.

End spec.

(** ** Accounting *)

Section accounting.
Context `{CaseMap} `{HashOrder} `{KeyHash} `{BudgetKeys}.
Context (regex_new : str -> option (str -> bool)) (floor : floor_detector) (merge : merger).
Context (E : Env) (render : ModelTarget -> GatewayRequest -> str -> gmap str str -> str).

(** A request whose budget queries and counters all answer, within one day. *)
Record settled (io : FrontIo) (stored : option StoredBudget) (day month : str) (t0 : Z) : Prop := {
  sd_row : bi_row (fi_budget io) = Ok stored;
  sd_parses : forall s, stored = Some s -> exists b, behavior_from_db_str (sb_behavior s) = Ok b;
  sd_day : fmt_day (bi_clock (fi_budget io)) = day /\ fmt_day (fi_reconcile_clock io) = day;
  sd_month : fmt_month (bi_clock (fi_budget io)) = month /\ fmt_month (fi_reconcile_clock io) = month;
  sd_redis : Forall (answers t0)
    [bi_daily (fi_budget io); bi_monthly (fi_budget io); fi_reconcile_daily io;
     fi_reconcile_monthly io];
  sd_differ : day <> month;
}.

Definition reads (ws : Uuid) (day month : str) (t0 total : Z) (c : Counters) : Prop :=
  holds t0 (kd ws day) total c /\ holds t0 (km ws month) total c.

(** What the reservation charges: the estimate when there is a budget row,
    nothing otherwise. *)
Lemma reservation_charges io ws stored day month t0 est total c :
  settled io stored day month t0 -> reads ws day month t0 total c ->
  (Z.abs total + Z.of_N est <= i64_max)%Z ->
  reads ws day month t0 (total + match stored with Some _ => Z.of_N est | None => 0 end)
    (pre_check_budget (fi_budget io) ws est c).1.2.
Proof.
  intros [Hrow Hparse [Hd _] [Hm _] Hredis Hne] [Hrd Hrm] Hi.
  unfold pre_check_budget, budget_check, budget_get. rewrite Hrow. cbn [obind].
  destruct stored as [s|]; [|simpl; by rewrite Z.add_0_r].
  destruct (Hparse s eq_refl) as [b Hb]. unfold budget_row. rewrite Hb. cbn [obind].
  inversion Hredis as [|? ? Ha Hrest]; subst. inversion Hrest as [|? ? Hb' _]; subst.
  unfold budget_daily_key, budget_monthly_key.
  assert (Hest : i64_of_u64 est = Z.of_N est) by (unfold i64_of_u64; lia).
  destruct (pair_incr ws (fmt_day (bi_clock (fi_budget io))) (fmt_month (bi_clock (fi_budget io))) t0
    (bi_daily (fi_budget io)) (bi_monthly (fi_budget io)) (Z.of_N est) total c)
    as (c1 & c2 & E1 & E2 & Hk1 & Hk2); try done; try lia.
  unfold kd, km in E1, E2. rewrite Hest, E1, E2.
  destruct (exceeded_bucket _ _ _); [destruct (wb_behavior _)|]; done.
Qed.

Lemma adjustment_charges io ws stored day month t0 delta total c :
  settled io stored day month t0 -> reads ws day month t0 total c ->
  (Z.abs total + Z.abs delta <= i64_max)%Z ->
  reads ws day month t0 (total + delta)
    (adjust_workspace_tokens (fi_reconcile_clock io) (fi_reconcile_daily io)
       (fi_reconcile_monthly io) ws delta c).1.
Proof.
  intros [_ _ [_ Hd] [_ Hm] Hredis Hne] [Hrd Hrm] Hi. unfold adjust_workspace_tokens.
  destruct (delta =? 0)%Z eqn:E0; [apply Z.eqb_eq in E0 as ->; by rewrite Z.add_0_r|].
  unfold budget_daily_key, budget_monthly_key. rewrite Hd, Hm.
  do 2 (apply Forall_cons_1 in Hredis as [_ Hredis]).
  apply Forall_cons_1 in Hredis as [Ha Hredis]. apply Forall_cons_1 in Hredis as [Hb _].
  destruct (pair_incr ws day month t0 (fi_reconcile_daily io) (fi_reconcile_monthly io) delta total c)
    as (c1 & c2 & E1 & E2 & Hk1 & Hk2); try done; try lia.
  unfold kd, km in E1, E2. by rewrite E1, E2.
Qed.

(** A buffered request that was served leaves the day's and the month's
    counters advanced by exactly the tokens the provider reported, whatever was
    estimated, when the workspace has a budget; when it has none the estimate
    is subtracted although it was never charged.  One that failed in the
    pipeline keeps its estimate charged. *)
Theorem served_request_accounting io h est model f auth gate resolved f1 req r f2
    stored day month t0 total :
  admission io h est model f = (Ok (auth, gate, resolved), f1) ->
  execute_and_reconcile regex_new floor merge E render io auth resolved req est f1 = (r, f2) ->
  settled io stored day month t0 ->
  reads (au_workspace_id auth) day month t0 total (fr_counters f) ->
  (Z.abs total + Z.of_N est <= 2 ^ 61)%Z ->
  match r with
  | Ok x => (Z.of_N (total_tokens (px_usage x)) <= 2 ^ 61)%Z ->
    reads (au_workspace_id auth) day month t0
      (total + Z.of_N (total_tokens (px_usage x)) -
       match stored with Some _ => 0 | None => Z.of_N est end) (fr_counters f2)
  | _ => reads (au_workspace_id auth) day month t0
      (total + match stored with Some _ => Z.of_N est | None => 0 end) (fr_counters f2)
  end.
Proof.
  intros Ha Hx Hset Hreads Hbound.
  destruct (admit_Ok _ _ _ _ _ _ _ _ _ Ha) as [_ Hc1].
  pose proof (reservation_charges io (au_workspace_id auth) stored day month t0 est total _
    Hset Hreads ltac:(unfold i64_max; lia)) as Hres. rewrite <-Hc1 in Hres.
  unfold execute_and_reconcile in Hx.
  destruct (execute _ _ _ _ _ _ _ _ _) as [[x| |] g]; injection Hx as <- <-; [|done..].
  intros Hu. cbn [charge fr_counters set_gateway fst].
  unfold reconcile_workspace_tokens.
  assert (i64_of_u64 est = Z.of_N est) as -> by (unfold i64_of_u64, i64_max; lia).
  assert (i64_of_u64 (total_tokens (px_usage x)) = Z.of_N (total_tokens (px_usage x))) as ->
    by (unfold i64_of_u64, i64_max; lia).
  replace (total + Z.of_N (total_tokens (px_usage x)) -
       match stored with Some _ => 0 | None => Z.of_N est end)%Z
    with ((total + match stored with Some _ => Z.of_N est | None => 0 end) +
          (Z.of_N (total_tokens (px_usage x)) - Z.of_N est))%Z by (destruct stored; lia).
  eapply adjustment_charges; [done|done|]. unfold i64_max. destruct stored; lia.
Qed.
End accounting.

(** ** A request through the front door

    The deployment of [GatewayRuns] behind its routes: one API key, a budget
    row, fresh limiters. *)

Definition front_key : ApiKeyRecord := new_key 3 1 $"ci" $"h:sp_live" 0 None None.

Definition front_headers : Headers := {|
  hd_authorization := HText $"Bearer sp_live"; hd_device_mac := HText $"AA-bb-00-11-22-33";
  hd_forwarded_for := HText $"203.0.113.7, 10.0.0.1"; hd_real_ip := HAbsent;
  hd_user_agent := HAbsent; hd_request_id := HAbsent |}.

Definition front_io (row : option StoredBudget) : FrontIo := {|
  fi_rls := true; fi_workspaces := Ok [(1%N, None)]; fi_keys := [front_key]; fi_auth_now := 1000;
  fi_limit_now1 := 1; fi_limit_now2 := 2; fi_mac_ok := true;
  fi_budget := {| bi_row := Ok row; bi_clock := 0; bi_daily := demo_redis; bi_monthly := demo_redis |};
  fi_model_now := 1000; fi_targets := fun _ _ => Ok [demo_target]; fi_providers := fun _ => Ok [];
  fi_reconcile_clock := 0; fi_reconcile_daily := demo_redis; fi_reconcile_monthly := demo_redis;
  fi_created := 0; fi_stream_uuid := 5; fi_connect_ip := $"127.0.0.1" |}.

Definition front_start : Front := {|
  fr_cache := ConfigCache_default; fr_limiter := redis_rate_limiter; fr_counters := ∅;
  fr_metrics := []; fr_macs := ∅; fr_gateway := idle |}.

Definition front_request : ChatCompletionsRequest := {|
  cc_model := $"gpt"; cc_messages := [{| role := $"user"; content := demo_prompt |}];
  cc_stream := false; cc_stream_options := None; cc_extra := [] |}.

Definition front_budget : StoredBudget :=
  {| sb_daily := Some 100%Z; sb_monthly := None; sb_behavior := $"block" |}.

Definition front_serve (row : option StoredBudget) : result HttpResponse * Front :=
  @serve ascii_case_map map_order demo_hash demo_keys literal_regex demo_floor demo_merge quiet_env
    no_debug (fun _ => []) (fun _ => None) (front_io row) front_headers (RChat front_request) front_start.

Lemma route_guarded_witness :
  is_ok (front_serve (Some front_budget)).1 = true /\
  exists auth gate resolved,
    @admitted_by demo_hash demo_keys (front_io (Some front_budget)) front_headers 4 $"gpt" front_start
      auth gate resolved.
Proof.
  assert (is_ok (front_serve (Some front_budget)).1 = true) as Hok by (vm_compute; reflexivity).
  split; [exact Hok|].
  destruct (front_serve (Some front_budget)) as [resp f'] eqn:E.
  refine (@route_guarded ascii_case_map map_order demo_hash demo_keys literal_regex demo_floor
    demo_merge quiet_env no_debug (fun _ => []) (fun _ => None) (front_io (Some front_budget)) front_headers
    (RChat front_request) front_start resp f' E (or_intror Hok)).
Defined.

Definition front_gateway_request : GatewayRequest := demo_request false.

(** A workspace with no budget row ends up with the estimate subtracted: the
    exchange cost 11 tokens, the counter reads 7. *)
Definition front_admitted : result (AuthContext * BudgetGate * ResolvedModel) * Front :=
  @admission demo_hash demo_keys (front_io None) front_headers 4 $"gpt" front_start.

Definition front_executed (auth : AuthContext) (resolved : ResolvedModel) (f1 : Front)
    : result PipelineExecution * Front :=
  @execute_and_reconcile ascii_case_map map_order demo_keys literal_regex demo_floor demo_merge
    quiet_env no_debug (front_io None) auth resolved (demo_request false) 4 f1.

Definition front_usage : option N :=
  match front_admitted with
  | (Ok (auth, _, resolved), f1) =>
    match front_executed auth resolved f1 with
    | (Ok x, _) => Some (total_tokens (px_usage x))
    | _ => None
    end
  | _ => None
  end.

Lemma front_settled : @settled demo_keys (front_io None) None $"20260101" $"202601" 0.
Proof.
  split; try done.
  - repeat constructor; simpl; unfold daily_ttl; lia.
Qed.

Lemma served_request_accounting_witness :
  exists f2, @reads demo_keys 1 $"20260101" $"202601" 0 7 (fr_counters f2).
Proof.
  destruct front_admitted as [[[[auth gate] resolved]| |] f1] eqn:Ha.
  - destruct (front_executed auth resolved f1) as [[x| |] f2] eqn:Hx.
    + assert (Hu : front_usage = Some (total_tokens (px_usage x))).
      { unfold front_usage. rewrite Ha, Hx. reflexivity. }
      assert (Hn : total_tokens (px_usage x) = 11%N).
      { assert (front_usage = Some 11%N) as H11 by (vm_compute; reflexivity). congruence. }
      assert (Hw : au_workspace_id auth = 1%N).
      { assert (match front_admitted with (Ok (a, _, _), _) => au_workspace_id a = 1%N | _ => True end)
          as Hall by (vm_compute; reflexivity).
        rewrite Ha in Hall. exact Hall. }
      exists f2.
      pose proof (@served_request_accounting ascii_case_map map_order demo_hash demo_keys literal_regex
        demo_floor demo_merge quiet_env no_debug (front_io None) front_headers 4 $"gpt" front_start
        auth gate resolved f1 (demo_request false) (Ok x) f2 None $"20260101" $"202601" 0 0
        Ha Hx front_settled) as Hacc.
      rewrite Hw, Hn in Hacc. apply Hacc; [split; exact eq_refl|lia|lia].
    + exfalso. assert (front_usage = None) as Hn by (unfold front_usage; rewrite Ha, Hx; reflexivity).
      vm_compute in Hn. discriminate Hn.
    + exfalso. assert (front_usage = None) as Hn by (unfold front_usage; rewrite Ha, Hx; reflexivity).
      vm_compute in Hn. discriminate Hn.
  - exfalso. assert (front_usage = None) as Hn by (unfold front_usage; rewrite Ha; reflexivity).
    vm_compute in Hn. discriminate Hn.
  - exfalso. assert (front_usage = None) as Hn by (unfold front_usage; rewrite Ha; reflexivity).
    vm_compute in Hn. discriminate Hn.
Defined.
