(* ===== verification/Sessions.v ===== *)
(** * Dashboard sessions

    http/middleware/jwt_auth.rs, the session keys of redis/mod.rs,
    db/refresh_token_repo.rs, db/session_repo.rs, db/session_revocation_repo.rs,
    db/user_repo.rs, http/routes/dashboard/auth.rs and
    http/routes/dashboard/users.rs.

    [World] holds what every pod shares (Redis keys with their expiry, the
    Postgres tables) and each pod's memory.  A handler is a computation over it
    in the monad [Sess]; [redis_io] and [db_io] consume the next entry of a fault
    schedule, so every call can fail, and a failed transaction leaves no trace.
    A [Moment] gives one request's clock readings: the gateway's and the
    database's (microseconds), Redis's (seconds), the pod and its monotonic
    clock.  Random draws are arguments.  HS256 tokens, Argon2 and SHA-256 are
    the class [AuthEnv]. *)

From S2P Require Import Prelude Rstr Json Types Providers Roles Limits AdminAudit ApiKeys.

(** ** Time *)

Abbreviation DateTime := Z.   (* microseconds since the epoch *)

Definition timestamp (t : DateTime) : Z := (t / 10 ^ 6)%Z.

(** [t + Duration::seconds(s)]: both the duration and the sum can be out of
    chrono's range, which panics. *)
Definition add_seconds (t : DateTime) (s : Z) : option DateTime :=
  let t' := (t + s * 10 ^ 6)%Z in
  if ((Z.abs s <=? (2 ^ 63 - 1) / 1000) && (-8334601228800 * 10 ^ 6 <=? t')
      && (t' <? 8210266876800 * 10 ^ 6))%Z
  then Some t' else None.

(** ** Tokens *)

Record Claims : Type := {
  sub : Uuid;
  cl_ws : Uuid;
  cl_role : str;
  iat : Z;
  exp : Z;
  jti : str;
  purpose : option str;
}.

(** [jsonwebtoken] with HS256: a token it issued decodes to its claims until
    [exp] plus the leeway, and nothing decodes later. *)
Class AuthEnv := {
  jwt_encode : Claims -> option str;
  jwt_decode : Z -> Z -> str -> option Claims;      (* leeway, now, token *)
  jwt_decode_encode c t leeway now :
    jwt_encode c = Some t -> (now <= exp c + leeway)%Z -> jwt_decode leeway now t = Some c;
  jwt_decode_live leeway now t c :
    jwt_decode leeway now t = Some c -> (now <= exp c + leeway)%Z;
  hash_password : N -> str -> option str;           (* salt, plaintext *)
  verify_password : str -> str -> bool;             (* hash, plaintext *)
  hash_refresh_token : str -> str;
}.

Record JwtConfig : Type := { access_ttl_secs : N; refresh_ttl_secs : N }.

Definition JWT_LEEWAY : Z := 60.

Definition is_access_claims (c : Claims) : bool := bool_decide (purpose c = None).

(** ** The session gates *)

Inductive SessionGate : Type := Proceed | RejectLoggedOut | RejectRevoked.

Definition session_gate (jti_blacklisted : bool) (revoked_before : option Z) (token_iat : Z)
    : SessionGate :=
  if jti_blacklisted then RejectLoggedOut
  else match revoked_before with
  | Some watermark => if (token_iat <=? watermark)%Z then RejectRevoked else Proceed
  | None => Proceed
  end.

Definition DEGRADED_AUTH_CACHE_TTL_SECS : Z := 60.

Definition cached_session_usable (age_secs : Z) : bool :=
  (age_secs <? DEGRADED_AUTH_CACHE_TTL_SECS)%Z.

Inductive AuthOutage : Type :=
  | RevokedDurably | SessionStoreLost | NoWarmSession | LogoutUnverifiable.

Definition auth_outage_as_str (o : AuthOutage) : str :=
  match o with
  | RevokedDurably => $"revoked_durably"
  | SessionStoreLost => $"session_store_lost"
  | NoWarmSession => $"no_warm_session"
  | LogoutUnverifiable => $"logout_unverifiable"
  end.

Definition invalid_credentials : ApiError := Unauthorized $"Invalid credentials".
Definition auth_unavailable : ApiError := ServiceUnavailable $"auth service temporarily unavailable".

Definition auth_refusal (o : AuthOutage) : ApiError :=
  match o with
  | RevokedDurably => invalid_credentials
  | SessionStoreLost | NoWarmSession | LogoutUnverifiable => auth_unavailable
  end.

Inductive AuthGate : Type := AuthBlock (o : AuthOutage) | AuthDegrade (o : AuthOutage).

Inductive DurableRevocation : Type := Known (watermark : option Z) | Unavailable.

Definition degraded_auth_gate (durable : DurableRevocation) (token_iat : Z)
    (cached_session_age_secs : option Z) : AuthGate :=
  match durable with
  | Unavailable => AuthBlock SessionStoreLost
  | Known watermark =>
    match session_gate false watermark token_iat with
    | RejectRevoked | RejectLoggedOut => AuthBlock RevokedDurably
    | Proceed =>
      match cached_session_age_secs with
      | Some age => if cached_session_usable age then AuthDegrade LogoutUnverifiable
                    else AuthBlock NoWarmSession
      | None => AuthBlock NoWarmSession
      end
    end
  end.

(** ** The world *)

Record RefreshTokenRow : Type := {
  rt_id : Uuid;
  rt_user_id : Uuid;
  rt_workspace_id : Uuid;
  rt_token_hash : str;
  rt_expires_at : DateTime;
  rt_revoked_at : option DateTime;
  rt_replaced_by : option Uuid;
  rt_created_at : DateTime;
  rt_session_id : Uuid;
  rt_access_jti : option str;
  rt_client_ip : option str;
  rt_client_descriptor : option str;
}.

Record RevocationRow : Type := {
  rv_workspace_id : Uuid;
  rv_actor_user_id : Uuid;
  rv_actor_email : option str;
  rv_actor_role : str;
  rv_target_user_id : Uuid;
  rv_target_email : str;
  rv_target_role : str;
  rv_revoked_before_unix : Z;
  rv_refresh_tokens_revoked : Z;
  rv_session_id : option Uuid;
}.

Record UserRow : Type := {
  us_workspace_id : Uuid;
  us_email : str;
  us_password_hash : str;
  us_role : str;
  us_totp_secret : option str;
  us_totp_confirmed_at : option DateTime;
  us_totp_last_timestep : option Z;
  us_totp_failed_attempts : Z;
  us_totp_locked_until : option DateTime;
}.

Record BackupCode : Type := {
  bc_id : Uuid;
  bc_user_id : Uuid;
  bc_code_hash : str;
  bc_used_at : option DateTime;
}.

Record CachedAuthEntry : Type := {
  ce_workspace_id : Uuid;
  ce_role : UserRole;
  ce_cached_at : Z;       (* nanoseconds of the pod's monotonic clock *)
}.

Record World : Type := {
  w_jti : gmap str Z;                           (* jti_blacklist:{jti}, by expiry *)
  w_watermark : gmap Uuid (Z * Z);              (* session_revoked:{user}, with expiry *)
  w_refresh : list RefreshTokenRow;
  w_revocations : list RevocationRow;
  w_users : gmap Uuid UserRow;
  w_backup : list BackupCode;
  w_audit : list AdminAuditRow;
  w_cache : gmap (N * Uuid) CachedAuthEntry;    (* per pod *)
  w_limiters : gmap N RateLimiter;              (* per pod *)
  w_alerts : list (AuthOutage * str);
  w_redis_faults : nat -> option ApiError;      (* the next calls' failures *)
  w_db_faults : nat -> option ApiError;
}.

Record Moment : Type := {
  mo_now : DateTime;
  mo_redis : Z;
  mo_pod : N;
  mo_mono : Z;
}.

Definition Sess (A : Type) : Type := World -> result A * World.

#[export] Instance Sess_ret : MRet Sess := fun A a w => (Ok a, w).
#[export] Instance Sess_bind : MBind Sess := fun A B k m w =>
  match m w with
  | (Ok a, w') => k a w'
  | (Err e, w') => (Err e, w')
  | (Panic, w') => (Panic, w')
  end.

Definition fail {A} (e : ApiError) : Sess A := fun w => (Err e, w).
Definition gets {A} (f : World -> A) : Sess A := fun w => (Ok (f w), w).
Definition modify (f : World -> World) : Sess unit := fun w => (Ok tt, f w).
Definition lift_r {A} (r : result A) : Sess A := fun w => (r, w).

(** Run [m] and carry on whatever it answered. *)
Definition attempt {A} (m : Sess A) : Sess (result A) := fun w => let '(r, w') := m w in (Ok r, w').

Definition set_redis_faults (l : nat -> option ApiError) (w : World) : World := {|
  w_jti := w_jti w; w_watermark := w_watermark w; w_refresh := w_refresh w;
  w_revocations := w_revocations w; w_users := w_users w; w_backup := w_backup w;
  w_audit := w_audit w; w_cache := w_cache w; w_limiters := w_limiters w; w_alerts := w_alerts w;
  w_redis_faults := l; w_db_faults := w_db_faults w |}.
Definition set_db_faults (l : nat -> option ApiError) (w : World) : World := {|
  w_jti := w_jti w; w_watermark := w_watermark w; w_refresh := w_refresh w;
  w_revocations := w_revocations w; w_users := w_users w; w_backup := w_backup w;
  w_audit := w_audit w; w_cache := w_cache w; w_limiters := w_limiters w; w_alerts := w_alerts w;
  w_redis_faults := w_redis_faults w; w_db_faults := l |}.
Definition set_jti (m : gmap str Z) (w : World) : World := {|
  w_jti := m; w_watermark := w_watermark w; w_refresh := w_refresh w;
  w_revocations := w_revocations w; w_users := w_users w; w_backup := w_backup w;
  w_audit := w_audit w; w_cache := w_cache w; w_limiters := w_limiters w; w_alerts := w_alerts w;
  w_redis_faults := w_redis_faults w; w_db_faults := w_db_faults w |}.
Definition set_watermark (m : gmap Uuid (Z * Z)) (w : World) : World := {|
  w_jti := w_jti w; w_watermark := m; w_refresh := w_refresh w;
  w_revocations := w_revocations w; w_users := w_users w; w_backup := w_backup w;
  w_audit := w_audit w; w_cache := w_cache w; w_limiters := w_limiters w; w_alerts := w_alerts w;
  w_redis_faults := w_redis_faults w; w_db_faults := w_db_faults w |}.
Definition set_refresh (l : list RefreshTokenRow) (w : World) : World := {|
  w_jti := w_jti w; w_watermark := w_watermark w; w_refresh := l;
  w_revocations := w_revocations w; w_users := w_users w; w_backup := w_backup w;
  w_audit := w_audit w; w_cache := w_cache w; w_limiters := w_limiters w; w_alerts := w_alerts w;
  w_redis_faults := w_redis_faults w; w_db_faults := w_db_faults w |}.
Definition set_revocations (l : list RevocationRow) (w : World) : World := {|
  w_jti := w_jti w; w_watermark := w_watermark w; w_refresh := w_refresh w;
  w_revocations := l; w_users := w_users w; w_backup := w_backup w;
  w_audit := w_audit w; w_cache := w_cache w; w_limiters := w_limiters w; w_alerts := w_alerts w;
  w_redis_faults := w_redis_faults w; w_db_faults := w_db_faults w |}.
Definition set_users (m : gmap Uuid UserRow) (w : World) : World := {|
  w_jti := w_jti w; w_watermark := w_watermark w; w_refresh := w_refresh w;
  w_revocations := w_revocations w; w_users := m; w_backup := w_backup w;
  w_audit := w_audit w; w_cache := w_cache w; w_limiters := w_limiters w; w_alerts := w_alerts w;
  w_redis_faults := w_redis_faults w; w_db_faults := w_db_faults w |}.
Definition set_backup (l : list BackupCode) (w : World) : World := {|
  w_jti := w_jti w; w_watermark := w_watermark w; w_refresh := w_refresh w;
  w_revocations := w_revocations w; w_users := w_users w; w_backup := l;
  w_audit := w_audit w; w_cache := w_cache w; w_limiters := w_limiters w; w_alerts := w_alerts w;
  w_redis_faults := w_redis_faults w; w_db_faults := w_db_faults w |}.
Definition set_audit (l : list AdminAuditRow) (w : World) : World := {|
  w_jti := w_jti w; w_watermark := w_watermark w; w_refresh := w_refresh w;
  w_revocations := w_revocations w; w_users := w_users w; w_backup := w_backup w;
  w_audit := l; w_cache := w_cache w; w_limiters := w_limiters w; w_alerts := w_alerts w;
  w_redis_faults := w_redis_faults w; w_db_faults := w_db_faults w |}.
Definition set_cache (m : gmap (N * Uuid) CachedAuthEntry) (w : World) : World := {|
  w_jti := w_jti w; w_watermark := w_watermark w; w_refresh := w_refresh w;
  w_revocations := w_revocations w; w_users := w_users w; w_backup := w_backup w;
  w_audit := w_audit w; w_cache := m; w_limiters := w_limiters w; w_alerts := w_alerts w;
  w_redis_faults := w_redis_faults w; w_db_faults := w_db_faults w |}.
Definition set_limiters (m : gmap N RateLimiter) (w : World) : World := {|
  w_jti := w_jti w; w_watermark := w_watermark w; w_refresh := w_refresh w;
  w_revocations := w_revocations w; w_users := w_users w; w_backup := w_backup w;
  w_audit := w_audit w; w_cache := w_cache w; w_limiters := m; w_alerts := w_alerts w;
  w_redis_faults := w_redis_faults w; w_db_faults := w_db_faults w |}.
Definition set_alerts (l : list (AuthOutage * str)) (w : World) : World := {|
  w_jti := w_jti w; w_watermark := w_watermark w; w_refresh := w_refresh w;
  w_revocations := w_revocations w; w_users := w_users w; w_backup := w_backup w;
  w_audit := w_audit w; w_cache := w_cache w; w_limiters := w_limiters w; w_alerts := l;
  w_redis_faults := w_redis_faults w; w_db_faults := w_db_faults w |}.

(** One call to Redis, one transaction. *)
Definition redis_io : Sess unit := fun w =>
  let f := w_redis_faults w in
  let w' := set_redis_faults (fun n => f (S n)) w in
  match f 0 with None => (Ok tt, w') | Some e => (Err e, w') end.
Definition db_io : Sess unit := fun w =>
  let f := w_db_faults w in
  let w' := set_db_faults (fun n => f (S n)) w in
  match f 0 with None => (Ok tt, w') | Some e => (Err e, w') end.

(** ** Redis ([redis/mod.rs]) *)

(** [SET key .. EX ttl]; Redis refuses a ttl that is not positive. *)
Definition valid_ttl (ttl : Z) : Sess unit :=
  if (0 <? ttl)%Z then mret tt else fail (Internal $"redis: invalid expire time").

Definition jti_blacklisted_at (now : Z) (jti : str) (w : World) : bool :=
  match w_jti w !! jti with Some e => (now <? e)%Z | None => false end.

Definition watermark_at (now : Z) (user : Uuid) (w : World) : option Z :=
  '(v, e) ← w_watermark w !! user; if (now <? e)%Z then Some v else None.

Definition jti_is_blacklisted (m : Moment) (jti : str) : Sess bool :=
  redis_io;; gets (jti_blacklisted_at (mo_redis m) jti).

Definition blacklist_jti (m : Moment) (jti : str) (ttl : Z) : Sess unit :=
  redis_io;; valid_ttl ttl;;
  modify (fun w => set_jti (<[jti := (mo_redis m + ttl)%Z]> (w_jti w)) w).

(** Both reads on one connection. *)
Definition session_gates (m : Moment) (jti : str) (user : Uuid) : Sess (bool * option Z) :=
  redis_io;; gets (fun w => (jti_blacklisted_at (mo_redis m) jti w, watermark_at (mo_redis m) user w)).

Definition revoke_sessions_before (m : Moment) (user : Uuid) (at_unix ttl : Z) : Sess unit :=
  redis_io;; valid_ttl ttl;;
  modify (fun w => set_watermark (<[user := (at_unix, mo_redis m + ttl)%Z]> (w_watermark w)) w).

(** A [u64] sum. *)
Definition revocation_watermark_ttl_secs (access_ttl : N) : Z :=
  Z.of_N ((access_ttl + 120) mod 2 ^ 64).

(** ** Refresh tokens ([db/refresh_token_repo.rs]) *)

Record NewSessionRow : Type := {
  ns_user_id : Uuid;
  ns_workspace_id : Uuid;
  ns_raw_token : str;
  ns_expires_at : DateTime;
  ns_session_id : Uuid;
  ns_access_jti : str;
  ns_client_ip : option str;
  ns_client_descriptor : option str;
}.

Inductive RotationOutcome : Type :=
  | Rotated (old_id new_id user_id workspace_id : Uuid)
  | ReplayDetected (user_id : Uuid)
  | RotRevoked
  | RotNotFound
  | RotExpired.

Definition close_row (now : DateTime) (replaced : option Uuid) (r : RefreshTokenRow)
    : RefreshTokenRow := {|
  rt_id := rt_id r; rt_user_id := rt_user_id r; rt_workspace_id := rt_workspace_id r;
  rt_token_hash := rt_token_hash r; rt_expires_at := rt_expires_at r;
  rt_revoked_at := Some now;
  rt_replaced_by := match replaced with Some i => Some i | None => rt_replaced_by r end;
  rt_created_at := rt_created_at r; rt_session_id := rt_session_id r;
  rt_access_jti := rt_access_jti r; rt_client_ip := rt_client_ip r;
  rt_client_descriptor := rt_client_descriptor r |}.

Definition is_live (r : RefreshTokenRow) : bool := bool_decide (rt_revoked_at r = None).

(** [UPDATE refresh_tokens SET revoked_at = NOW() [, replaced_by = ..] WHERE p
    AND revoked_at IS NULL], with the rows affected. *)
Definition close_where (now : DateTime) (replaced : option Uuid) (p : RefreshTokenRow -> bool)
    (t : list RefreshTokenRow) : list RefreshTokenRow :=
  (fun r => if p r && is_live r then close_row now replaced r else r) <$> t.
Definition closed_count (p : RefreshTokenRow -> bool) (t : list RefreshTokenRow) : nat :=
  length (filter (fun r => p r && is_live r) t).

Section handlers.
Context `{AuthEnv} (cfg : JwtConfig).

Definition rt_insert (m : Moment) (id : Uuid) (row : NewSessionRow) : Sess Uuid :=
  db_io;;
  modify (fun w => set_refresh (w_refresh w ++ [{|
    rt_id := id; rt_user_id := ns_user_id row; rt_workspace_id := ns_workspace_id row;
    rt_token_hash := hash_refresh_token (ns_raw_token row); rt_expires_at := ns_expires_at row;
    rt_revoked_at := None; rt_replaced_by := None; rt_created_at := mo_now m;
    rt_session_id := ns_session_id row; rt_access_jti := Some (ns_access_jti row);
    rt_client_ip := ns_client_ip row; rt_client_descriptor := ns_client_descriptor row |}]) w);;
  mret id.

Definition find_hash (hash : str) (t : list RefreshTokenRow) : option RefreshTokenRow :=
  List.find (fun r => bool_decide (rt_token_hash r = hash)) t.

(** The possession probe of [rotate]: what it decides on the row it read. *)
Definition rotate_probe (now : DateTime) (pre : option RefreshTokenRow)
    : RotationOutcome + RefreshTokenRow :=
  match pre with
  | None => inl RotNotFound
  | Some row =>
    if negb (is_live row) then
      inl (match rt_replaced_by row with
           | Some _ => ReplayDetected (rt_user_id row)
           | None => RotRevoked
           end)
    else if (rt_expires_at row <=? now)%Z then inl RotExpired
    else inr row
  end.

(** The write of [rotate], given the row the probe read: the successor and the
    conditional update commit together, or neither does. *)
Definition rotate_write (now : DateTime) (row : RefreshTokenRow) (new_raw new_jti : str)
    (new_expires : DateTime) (new_id : Uuid) (t : list RefreshTokenRow)
    : RotationOutcome * list RefreshTokenRow :=
  let successor := {|
    rt_id := new_id; rt_user_id := rt_user_id row; rt_workspace_id := rt_workspace_id row;
    rt_token_hash := hash_refresh_token new_raw; rt_expires_at := new_expires;
    rt_revoked_at := None; rt_replaced_by := None; rt_created_at := now;
    rt_session_id := rt_session_id row; rt_access_jti := Some new_jti;
    rt_client_ip := None; rt_client_descriptor := None |} in
  let inserted := t ++ [successor] in
  let p r := (rt_id r =? rt_id row)%N in
  if (closed_count p inserted =? 0)%nat then (ReplayDetected (rt_user_id row), t)
  else (Rotated (rt_id row) new_id (rt_user_id row) (rt_workspace_id row),
        close_where now (Some new_id) p inserted).

Definition rotate (m : Moment) (old_raw new_raw new_jti : str) (new_expires : DateTime) (new_id : Uuid)
    : Sess RotationOutcome :=
  db_io;;
  pre ← gets (fun w => find_hash (hash_refresh_token old_raw) (w_refresh w));
  match rotate_probe (mo_now m) pre with
  | inl outcome => mret outcome
  | inr row =>
    db_io;;
    t ← gets w_refresh;
    let '(outcome, t') := rotate_write (mo_now m) row new_raw new_jti new_expires new_id t in
    modify (set_refresh t');;
    mret outcome
  end.

Definition of_user (user : Uuid) (r : RefreshTokenRow) : bool := (rt_user_id r =? user)%N.

Definition revoke_all_for_user (m : Moment) (user : Uuid) : Sess unit :=
  db_io;;
  u ← gets (fun w => w_users w !! user);
  match u with
  | None => mret tt
  | Some _ =>
    db_io;;
    modify (fun w => set_refresh (close_where (mo_now m) None (of_user user) (w_refresh w)) w)
  end.

(** [find_active_by_hash] *)
Definition find_active_by_hash (m : Moment) (hash : str) : Sess (option RefreshTokenRow) :=
  db_io;;
  gets (fun w => List.find (fun r => bool_decide (rt_token_hash r = hash) && is_live r
                                    && (mo_now m <? rt_expires_at r)%Z) (w_refresh w)).

(** ** The audit of revocations ([db/session_revocation_repo.rs]) *)

Record RevocationTarget : Type := { tg_user_id : Uuid; tg_email : str; tg_role : str }.

Definition user_in (ws user : Uuid) (w : World) : option UserRow :=
  u ← w_users w !! user; if (us_workspace_id u =? ws)%N then Some u else None.

Definition find_target (ws user : Uuid) : Sess (option RevocationTarget) :=
  db_io;;
  gets (fun w => (fun u => {| tg_user_id := user; tg_email := us_email u; tg_role := us_role u |})
                   <$> user_in ws user w).

Definition max_opt (a : option Z) (z : Z) : option Z :=
  Some (match a with Some x => Z.max x z | None => z end).

(** [MAX(revoked_before_unix)] over the user-wide rows. *)
Definition durable_watermark (ws user : Uuid) (t : list RevocationRow) : option Z :=
  foldl (fun a r =>
    if (rv_target_user_id r =? user)%N && (rv_workspace_id r =? ws)%N &&
       bool_decide (rv_session_id r = None)
    then max_opt a (rv_revoked_before_unix r) else a) None t.

Definition latest_watermark (ws user : Uuid) : Sess (option Z) :=
  db_io;; gets (fun w => durable_watermark ws user (w_revocations w)).

Definition actor_email (ws user : Uuid) : Sess (option str) :=
  db_io;; gets (fun w => us_email <$> user_in ws user w).

Record RevocationRecord : Type := {
  rr_workspace_id : Uuid;
  rr_actor_user_id : Uuid;
  rr_actor_email : option str;
  rr_actor_role : str;
  rr_target : RevocationTarget;
  rr_revoked_before_unix : Z;
  rr_session_id : option Uuid;
}.

Definition write_audit (r : RevocationRecord) (count : Z) (t : list RevocationRow)
    : list RevocationRow :=
  t ++ [{| rv_workspace_id := rr_workspace_id r; rv_actor_user_id := rr_actor_user_id r;
           rv_actor_email := rr_actor_email r; rv_actor_role := rr_actor_role r;
           rv_target_user_id := tg_user_id (rr_target r); rv_target_email := tg_email (rr_target r);
           rv_target_role := tg_role (rr_target r);
           rv_revoked_before_unix := rr_revoked_before_unix r;
           rv_refresh_tokens_revoked := count; rv_session_id := rr_session_id r |}].

(** Close the rows and record it, in one transaction. *)
Definition revoke_where (m : Moment) (p : RefreshTokenRow -> bool) (r : RevocationRecord) : Sess Z :=
  db_io;;
  count ← gets (fun w => Z.min (Z.of_nat (closed_count p (w_refresh w))) i64_max);
  modify (fun w => set_revocations (write_audit r count (w_revocations w))
                     (set_refresh (close_where (mo_now m) None p (w_refresh w)) w));;
  mret count.

Definition revoke (m : Moment) (r : RevocationRecord) : Sess Z :=
  revoke_where m (fun t => (rt_user_id t =? tg_user_id (rr_target r))%N &&
                           (rt_workspace_id t =? rr_workspace_id r)%N) r.

Definition repo_revoke_one_session (m : Moment) (r : RevocationRecord) (session : Uuid) : Sess Z :=
  revoke_where m (fun t => (rt_user_id t =? tg_user_id (rr_target r))%N &&
                           (rt_workspace_id t =? rr_workspace_id r)%N &&
                           (rt_session_id t =? session)%N) r.

(** ** Sessions ([db/session_repo.rs]) *)

Record LiveSession : Type := { ls_session_id : Uuid; ls_revocable_jtis : list str }.

Definition find_live_session (m : Moment) (ws user session : Uuid) (minted_after : DateTime)
    : Sess (option LiveSession) :=
  db_io;;
  gets (fun w =>
    let rows := filter (fun r => (rt_user_id r =? user)%N && (rt_workspace_id r =? ws)%N &&
                                 (rt_session_id r =? session)%N) (w_refresh w) in
    if existsb (fun r => is_live r && (mo_now m <? rt_expires_at r)%Z) rows then
      Some {| ls_session_id := session;
              ls_revocable_jtis := omap (fun r =>
                if (minted_after <? rt_created_at r)%Z then rt_access_jti r else None) rows |}
    else None).

(** ** The middleware ([jwt_auth.rs]) *)

Record JwtAuthContext : Type := {
  jc_user_id : Uuid;
  jc_workspace_id : Uuid;
  jc_role : UserRole;
  jc_jti : str;
  jc_exp : Z;
}.

Definition extract_bearer (header : HeaderValue) : result str :=
  match header with
  | HText v => ok_or (strip_prefix v $"Bearer ") invalid_credentials
  | _ => Err invalid_credentials
  end.

(** The decoding every entry point shares: HS256, 60 s of leeway. *)
Definition decode_bearer_claims (m : Moment) (header : HeaderValue) : result Claims :=
  obind (extract_bearer header) (fun token =>
    ok_or (jwt_decode JWT_LEEWAY (timestamp (mo_now m)) token) invalid_credentials).

Definition AUTH_ACTION_BLOCK : str := $"block".
Definition AUTH_ACTION_DEGRADE : str := $"degrade_with_alert".

Definition alert (reason : AuthOutage) (action : str) : Sess unit :=
  modify (fun w => set_alerts (w_alerts w ++ [(reason, action)]) w).

Definition cached_age (m : Moment) (user : Uuid) (w : World) : option Z :=
  (fun e => Z.max (mo_mono m - ce_cached_at e) 0 / 10 ^ 9)%Z <$> w_cache w !! (mo_pod m, user).

Definition context_of (c : Claims) (r : UserRole) : JwtAuthContext := {|
  jc_user_id := sub c; jc_workspace_id := cl_ws c; jc_role := r; jc_jti := jti c; jc_exp := exp c |}.

Definition claims_role (c : Claims) : result UserRole :=
  match role_from_db_str (cl_role c) with Ok r => Ok r | _ => Err invalid_credentials end.

(** The handler runs with the context and, on the degraded path, the marker. *)
Definition serve_degraded (m : Moment) (c : Claims) : Sess (JwtAuthContext * option AuthOutage) :=
  r ← attempt (latest_watermark (cl_ws c) (sub c));
  let durable := match r with Ok w => Known w | _ => Unavailable end in
  age ← gets (cached_age m (sub c));
  match degraded_auth_gate durable (iat c) age with
  | AuthBlock reason => alert reason AUTH_ACTION_BLOCK;; fail (auth_refusal reason)
  | AuthDegrade reason =>
    alert reason AUTH_ACTION_DEGRADE;;
    role ← lift_r (claims_role c);
    mret (context_of c role, Some reason)
  end.

Definition require (m : Moment) (header : HeaderValue) : Sess (JwtAuthContext * option AuthOutage) :=
  c ← lift_r (decode_bearer_claims m header);
  if negb (is_access_claims c) then fail invalid_credentials
  else
    gates ← attempt (session_gates m (jti c) (sub c));
    match gates with
    | Ok (blacklisted, revoked_before) =>
      match session_gate blacklisted revoked_before (iat c) with
      | RejectLoggedOut | RejectRevoked => fail invalid_credentials
      | Proceed =>
        role ← lift_r (claims_role c);
        modify (fun w => set_cache (<[(mo_pod m, sub c) := {|
          ce_workspace_id := cl_ws c; ce_role := role; ce_cached_at := mo_mono m |}]> (w_cache w)) w);;
        mret (context_of c role, None)
      end
    | _ => serve_degraded m c
    end.
End handlers.
