(* ===== verification/Login.v ===== *)
(** * Signing in, staying in, being signed out

    The handlers of http/routes/dashboard/auth.rs and of
    http/routes/dashboard/users.rs that open, renew or end a session, and the
    device description of http/routes/dashboard/device.rs.

    [register] also creates a workspace and seeds its policy, which is not
    modelled; its input validation is.  Rendering a [DeviceContext]'s address
    is [std::net]'s, so the address is part of the request. *)

From S2P Require Import Prelude Rstr Json Types Providers Roles Limits AdminAudit ApiKeys Sessions.

(** ** Devices *)

Record DeviceContext : Type := { client_ip : option str; client_descriptor_of : option str }.

Definition BROWSERS : list (str * str) :=
  [($"Edg/", $"Edge"); ($"OPR/", $"Opera"); ($"Chrome/", $"Chrome"); ($"Firefox/", $"Firefox");
   ($"Safari/", $"Safari"); ($"curl/", $"curl")].
Definition PLATFORMS : list (str * str) :=
  [($"iPhone", $"iOS"); ($"iPad", $"iOS"); ($"Android", $"Android"); ($"CrOS", $"ChromeOS");
   ($"Windows", $"Windows"); ($"Mac OS X", $"macOS"); ($"Macintosh", $"macOS"); ($"Linux", $"Linux")].

Definition first_token (ua : str) (table : list (str * str)) : option str :=
  snd <$> List.find (fun e => contains ua e.1) table.

Definition client_descriptor (user_agent : str) : option str :=
  match first_token user_agent BROWSERS, first_token user_agent PLATFORMS with
  | Some browser, Some platform => Some (browser ++ $" on " ++ platform)
  | Some browser, None => Some browser
  | None, Some platform => Some platform
  | None, None => None
  end.

(** ** Two-factor decisions and the login record *)

Inductive TwoFaDecision : Type := TfAccess | TfChallenge | TfEnroll.

#[export] Instance two_fa_decision_eq_dec : EqDecision TwoFaDecision.
Proof. solve_decision. Defined.

Definition decide_2fa (role : UserRole) (totp_confirmed : bool) : TwoFaDecision :=
  if totp_confirmed then TfChallenge
  else match role with Owner | Admin => TfEnroll | _ => TfAccess end.

Inductive LoginMethod : Type := LmPassword | LmOidc.
Definition login_method_as_str (l : LoginMethod) : str :=
  match l with LmPassword => $"password" | LmOidc => $"oidc" end.

Definition login_outcome (d : TwoFaDecision) : str :=
  match d with
  | TfAccess => $"session_issued"
  | TfChallenge => $"second_factor_required"
  | TfEnroll => $"enrolment_required"
  end.

(** Audit rows of a user's own account, in a transaction of their own. *)
Definition write_own_audit (actor : AdminActor) (e : AdminAuditEntry) : Sess unit :=
  db_io;; modify (fun w => set_audit (audit_write actor e (w_audit w)) w).

Definition record_login (user ws : Uuid) (email role : str) (method : LoginMethod)
    (decision : TwoFaDecision) : Sess unit :=
  let actor := {| aa_workspace_id := ws; aa_user_id := Some user; aa_email := Some email;
                  aa_role := Some role |} in
  let entry := with_detail (on_own_account LoginSucceeded user email role)
    (Object [($"method", VString (login_method_as_str method));
             ($"outcome", VString (login_outcome decision))]) in
  write_own_audit actor entry.

(** ** Issuing tokens *)

Record TokenResponse : Type := {
  tr_access_token : str;
  tr_refresh_token : str;
  tr_user_id : Uuid;
  tr_email : str;
  tr_workspace_id : Uuid;
  tr_role : str;
  tr_access_expires_at : Z;
  tr_refresh_expires_at : Z;
}.

Inductive TokenOr2fa : Type :=
  | AccessPair (body : TokenResponse)
  | ChallengeToken (token : str)
  | EnrollToken (token : str).

Record Draw : Type := {
  dr_jti : str;
  dr_refresh : str;
  dr_row_id : Uuid;
  dr_session_id : Uuid;
}.

Definition expiry (t : DateTime) (ttl : N) : Sess DateTime :=
  lift_r (or_panic (add_seconds t (i64_wrap (Z.of_N ttl)))).

Section handlers.
Context `{AuthEnv} (cfg : JwtConfig).

Definition encode_access (c : Claims) : Sess str :=
  lift_r (ok_or (jwt_encode c) (Internal $"jwt encode failed")).

Definition build_token_pair_body (m : Moment) (d : Draw) (user ws : Uuid) (role email : str)
    (device : DeviceContext) : Sess TokenResponse :=
  let now := mo_now m in
  access_exp ← expiry now (access_ttl_secs cfg);
  refresh_exp ← expiry now (refresh_ttl_secs cfg);
  access_token ← encode_access {| sub := user; cl_ws := ws; cl_role := role; iat := timestamp now;
    exp := timestamp access_exp; jti := dr_jti d; purpose := None |};
  rt_insert m (dr_row_id d) {| ns_user_id := user; ns_workspace_id := ws; ns_raw_token := dr_refresh d;
    ns_expires_at := refresh_exp; ns_session_id := dr_session_id d; ns_access_jti := dr_jti d;
    ns_client_ip := client_ip device; ns_client_descriptor := client_descriptor_of device |};;
  mret {| tr_access_token := access_token; tr_refresh_token := dr_refresh d; tr_user_id := user;
          tr_email := email; tr_workspace_id := ws; tr_role := role;
          tr_access_expires_at := timestamp access_exp; tr_refresh_expires_at := timestamp refresh_exp |}.

Definition encode_purpose_token (m : Moment) (jti : str) (user ws : Uuid) (purpose : str) (ttl : Z)
    : Sess str :=
  e ← lift_r (or_panic (add_seconds (mo_now m) ttl));
  encode_access {| sub := user; cl_ws := ws; cl_role := []; iat := timestamp (mo_now m);
    exp := timestamp e; jti := jti; purpose := Some purpose |}.

Definition decode_purpose_token (m : Moment) (token expected : str) : result (Uuid * Uuid) :=
  obind (ok_or (jwt_decode JWT_LEEWAY (timestamp (mo_now m)) token) invalid_credentials) (fun c =>
    if decide (purpose c = Some expected) then Ok (sub c, cl_ws c) else Err invalid_credentials).

(** ** Sign-in *)

(** This pod's limiter. *)
Definition limit (m : Moment) (key : str) : Sess unit := fun w =>
  let '(r, rl) := check (default redis_rate_limiter (w_limiters w !! mo_pod m)) key (mo_mono m) in
  (r, set_limiters (<[mo_pod m := rl]> (w_limiters w)) w).

(** A refusal of the limiter is the generic 401. *)
Definition limit_401 (m : Moment) (key : str) : Sess unit :=
  r ← attempt (limit m key);
  match r with Ok _ => mret tt | _ => fail invalid_credentials end.

Definition client_ip_key (forwarded_for : HeaderValue) : str :=
  match forwarded_for with
  | HText s => trim (default [] (head (split_byte ","%char s)))
  | _ => $"unknown"
  end.

Definition find_by_email (email : str) (w : World) : option (Uuid * UserRow) :=
  List.find (fun p => bool_decide (us_email p.2 = email)) (map_to_list (w_users w)).

Definition token (m : Moment) (d : Draw) (forwarded_for : HeaderValue) (device : DeviceContext)
    (email password : str) : Sess TokenOr2fa :=
  let email_normalized := to_ascii_lowercase (trim email) in
  limit_401 m ($"auth_email:" ++ email_normalized);;
  limit_401 m ($"auth_ip:" ++ client_ip_key forwarded_for);;
  db_io;;
  creds ← gets (find_by_email email_normalized);
  match creds with
  | None => fail invalid_credentials
  | Some (user, u) =>
    if negb (verify_password (us_password_hash u) password) then fail invalid_credentials
    else
      role ← lift_r (role_from_db_str (us_role u));
      let decision := decide_2fa role (bool_decide (us_totp_confirmed_at u <> None)) in
      record_login user (us_workspace_id u) (us_email u) (us_role u) LmPassword decision;;
      match decision with
      | TfAccess =>
        body ← build_token_pair_body m d user (us_workspace_id u) (us_role u) (us_email u) device;
        mret (AccessPair body)
      | TfChallenge =>
        t ← encode_purpose_token m (dr_jti d) user (us_workspace_id u) $"2fa_challenge" 300;
        mret (ChallengeToken t)
      | TfEnroll =>
        t ← encode_purpose_token m (dr_jti d) user (us_workspace_id u) $"2fa_enroll" 300;
        mret (EnrollToken t)
      end
  end.

(** ** Renewal *)

Definition refresh (m : Moment) (d : Draw) (presented : str) : Sess TokenResponse :=
  let now := mo_now m in
  new_expires ← expiry now (refresh_ttl_secs cfg);
  outcome ← rotate m presented (dr_refresh d) (dr_jti d) new_expires (dr_row_id d);
  match outcome with
  | Rotated _ _ user ws =>
    db_io;;
    u ← gets (fun w => w_users w !! user);
    match u with
    | None => fail invalid_credentials
    | Some u =>
      access_exp ← expiry now (access_ttl_secs cfg);
      access_token ← encode_access {| sub := user; cl_ws := ws; cl_role := us_role u;
        iat := timestamp now; exp := timestamp access_exp; jti := dr_jti d; purpose := None |};
      mret {| tr_access_token := access_token; tr_refresh_token := dr_refresh d; tr_user_id := user;
              tr_email := us_email u; tr_workspace_id := ws; tr_role := us_role u;
              tr_access_expires_at := timestamp access_exp;
              tr_refresh_expires_at := timestamp new_expires |}
    end
  | ReplayDetected user =>
    attempt (revoke_all_for_user m user);; fail invalid_credentials
  | RotNotFound | RotExpired | RotRevoked => fail invalid_credentials
  end.

(** ** Sign-out *)

Definition logout (m : Moment) (ctx : JwtAuthContext) : Sess unit :=
  let remaining := Z.max (i64_wrap (jc_exp ctx - timestamp (mo_now m))) 1 in
  blacklist_jti m (jc_jti ctx) remaining;;
  modify (fun w => set_cache (delete (mo_pod m, jc_user_id ctx) (w_cache w)) w);;
  attempt (revoke_all_for_user m (jc_user_id ctx));;
  mret tt.

(** ** Registration's input *)

Definition validate_register_input (email password workspace_name : str) : result unit :=
  if bool_decide (email = []) || (255 <? slen email)%N || negb (contains email $"@") then
    Err (BadRequest $"email invalid")
  else if (slen password <? 8)%N || (128 <? slen password)%N then
    Err (BadRequest $"password must be 8–128 characters")
  else if bool_decide (workspace_name = []) || (100 <? length (chars workspace_name))%nat then
    Err (BadRequest $"workspace_name must be 1–100 characters")
  else Ok tt.

(** ** Administration ([dashboard/users.rs]) *)

Inductive RevokeDecision : Type := Allowed | ActorRoleTooLow | TargetOutranksActor.

Definition may_revoke (actor target : UserRole) : RevokeDecision :=
  if (privilege_level actor <? privilege_level Admin)%N then ActorRoleTooLow
  else if (privilege_level actor <? privilege_level target)%N then TargetOutranksActor
  else Allowed.

Definition may_manage_sessions (actor target : UserRole) (is_self : bool) : RevokeDecision :=
  if is_self then Allowed else may_revoke actor target.

Definition not_found_user : ApiError := NotFound $"user not found".
Definition insufficient_role : ApiError := Forbidden $"insufficient role".

Record RevokeSessionsResponse : Type := {
  rsp_user_id : Uuid;
  rsp_revoked_before : Z;
  rsp_refresh_tokens_revoked : Z;
}.

Definition revoke_sessions (m : Moment) (ctx : JwtAuthContext) (target_user : Uuid)
    : Sess RevokeSessionsResponse :=
  lift_r (require_role (jc_role ctx) Admin);;
  t ← find_target (jc_workspace_id ctx) target_user;
  match t with
  | None => fail not_found_user
  | Some target =>
    target_role ← lift_r (role_from_db_str (tg_role target));
    match may_revoke (jc_role ctx) target_role with
    | Allowed =>
      email ← actor_email (jc_workspace_id ctx) (jc_user_id ctx);
      let revoked_before := timestamp (mo_now m) in
      count ← revoke m {| rr_workspace_id := jc_workspace_id ctx; rr_actor_user_id := jc_user_id ctx;
        rr_actor_email := email; rr_actor_role := role_as_db_str (jc_role ctx); rr_target := target;
        rr_revoked_before_unix := revoked_before; rr_session_id := None |};
      revoke_sessions_before m (tg_user_id target) revoked_before
        (revocation_watermark_ttl_secs (access_ttl_secs cfg));;
      modify (fun w => set_cache (delete (mo_pod m, tg_user_id target) (w_cache w)) w);;
      mret {| rsp_user_id := tg_user_id target; rsp_revoked_before := revoked_before;
              rsp_refresh_tokens_revoked := count |}
    | _ => fail insufficient_role
    end
  end.

Definition resolve_subject (ctx : JwtAuthContext) (target_user : Uuid) : Sess RevocationTarget :=
  let is_self := (jc_user_id ctx =? target_user)%N in
  (if is_self then mret tt else lift_r (require_role (jc_role ctx) Admin));;
  t ← find_target (jc_workspace_id ctx) target_user;
  match t with
  | None => fail not_found_user
  | Some target =>
    target_role ← lift_r (role_from_db_str (tg_role target));
    match may_manage_sessions (jc_role ctx) target_role is_self with
    | Allowed => mret target
    | _ => fail insufficient_role
    end
  end.

Record EndSessionResponse : Type := {
  esp_user_id : Uuid;
  esp_session_id : Uuid;
  esp_refresh_tokens_revoked : Z;
  esp_access_tokens_blacklisted : nat;
}.

Fixpoint blacklist_all (m : Moment) (ttl : Z) (jtis : list str) : Sess unit :=
  match jtis with
  | [] => mret tt
  | j :: jtis' => blacklist_jti m j ttl;; blacklist_all m ttl jtis'
  end.

(** Redis first, Postgres second. *)
Definition revoke_one_session (m : Moment) (ctx : JwtAuthContext) (target_user session : Uuid)
    : Sess EndSessionResponse :=
  target ← resolve_subject ctx target_user;
  t1 ← lift_r (or_panic (add_seconds (mo_now m) (- Z.min (Z.of_N (access_ttl_secs cfg)) i64_max)));
  minted_after ← lift_r (or_panic (add_seconds t1 (- JWT_LEEWAY)));
  l ← find_live_session m (jc_workspace_id ctx) (tg_user_id target) session minted_after;
  match l with
  | None => fail (NotFound $"session not found")
  | Some live =>
    email ← actor_email (jc_workspace_id ctx) (jc_user_id ctx);
    blacklist_all m (revocation_watermark_ttl_secs (access_ttl_secs cfg)) (ls_revocable_jtis live);;
    count ← repo_revoke_one_session m {| rr_workspace_id := jc_workspace_id ctx;
      rr_actor_user_id := jc_user_id ctx; rr_actor_email := email;
      rr_actor_role := role_as_db_str (jc_role ctx); rr_target := target;
      rr_revoked_before_unix := timestamp (mo_now m); rr_session_id := Some (ls_session_id live) |}
      (ls_session_id live);
    mret {| esp_user_id := tg_user_id target; esp_session_id := ls_session_id live;
            esp_refresh_tokens_revoked := count;
            esp_access_tokens_blacklisted := length (ls_revocable_jtis live) |}
  end.

(** *** Creating a user *)

Definition VALID_ROLES : list str := [$"owner"; $"admin"; $"developer"; $"viewer"].

Definition new_user (ws : Uuid) (email hash role : str) : UserRow := {|
  us_workspace_id := ws; us_email := email; us_password_hash := hash; us_role := role;
  us_totp_secret := None; us_totp_confirmed_at := None; us_totp_last_timestep := None;
  us_totp_failed_attempts := 0; us_totp_locked_until := None |}.

(** [UserRepository::create_user]; e-mail addresses are unique. *)
Definition repo_create_user (ws : Uuid) (email password role : str) (actor : AdminActor)
    (id : Uuid) (salt : N) : Sess Uuid :=
  hash ← lift_r (ok_or (hash_password salt password) (Internal $"password hash failed"));
  db_io;;
  taken ← gets (find_by_email email);
  match taken with
  | Some _ => fail (Conflict $"email already in use")
  | None =>
    let entry := with_detail (targeting_user (on_object UserCreated id (Some email)) id email role)
      (Object [($"role_granted", VString role)]) in
    modify (fun w => set_audit (audit_write actor entry (w_audit w))
                       (set_users (<[id := new_user ws email hash role]> (w_users w)) w));;
    mret id
  end.

(** The seat limit is that of the license, when one is enforced. *)
Definition create_user (max_seats : option N) (ctx : JwtAuthContext) (email password role : str)
    (id : Uuid) (salt : N) : Sess (Uuid * str) :=
  lift_r (require_role (jc_role ctx) Admin);;
  (if bool_decide (role ∈ VALID_ROLES) then mret tt
   else fail (BadRequest ($"role must be one of: " ++ join $", " VALID_ROLES)));;
  match max_seats with
  | Some max =>
    db_io;;
    count ← gets (fun w => N.of_nat (size (w_users w)));
    if (max <=? count)%N
    then fail (Forbidden ($"license seat limit (" ++ show_N max ++ $") reached"))
    else mret tt
  | None => mret tt
  end;;
  actor_email_r ← attempt (actor_email (jc_workspace_id ctx) (jc_user_id ctx));
  let actor := AdminActor_resolve actor_email_r (jc_workspace_id ctx) (jc_user_id ctx)
                 (role_as_db_str (jc_role ctx)) in
  uid ← repo_create_user (jc_workspace_id ctx) email password role actor id salt;
  db_io;;
  r ← gets (fun w => us_role <$> w_users w !! uid);
  match r with
  | Some r => mret (uid, r)
  | None => fail (Database $"no rows returned")
  end.
End handlers.
