(* ===== verification/TwoFactor.v ===== *)
(** * Two-factor authentication

    auth/totp.rs, the TOTP operations of db/user_repo.rs and the handlers of
    http/routes/dashboard/twofactor.rs.

    The [totp_rs] crate and the KMS are the class [TotpEnv]; a secret it
    accepts gives a check of a code at an instant.  Everything else is the
    session [World]. *)

From S2P Require Import Prelude Rstr Json Types Providers Roles Limits AdminAudit ApiKeys Sessions Login.

Class TotpEnv := {
  build_totp : str -> option (str -> N -> bool);     (* secret; code, instant *)
  totp_url : str -> str -> str -> option str;        (* secret, account, issuer *)
  kms_encrypt : str -> option str;
  kms_decrypt : str -> option str;
}.

(** ** [auth/totp.rs] *)

Definition STEP_SECONDS : N := 30.

Inductive TotpError : Type := Invalid | Replayed.

Section totp.
Context `{TotpEnv}.

Fixpoint scan_steps (checks : str -> N -> bool) (code : str) (last : option N) (steps : list N)
    : outcome TotpError N :=
  match steps with
  | [] => Err Invalid
  | step :: steps' =>
    if checks code (step * STEP_SECONDS)%N then
      match last with
      | Some l => if (step <=? l)%N then Err Replayed else Ok step
      | None => Ok step
      end
    else scan_steps checks code last steps'
  end.

(** The previous, the current and the next step, in this order. *)
Definition verify_code (secret code : str) (last_timestep : option N) (now_unix : N)
    : outcome TotpError N :=
  match build_totp secret with
  | None => Err Invalid
  | Some checks =>
    let now_step := (now_unix / STEP_SECONDS)%N in
    scan_steps checks code last_timestep
      [saturating_sub now_step 1; now_step; (now_step + 1)%N]
  end.

(** Colons delimit the label of an [otpauth] URI. *)
Definition provisioning_uri (secret account issuer : str) : outcome TotpError str :=
  ok_or (totp_url secret (replace account $":" $"_") (replace issuer $":" $"_")) Invalid.
End totp.

(** ** Backup codes *)

Definition BACKUP_CODE_COUNT : nat := 10.
Definition BACKUP_CODE_RAW_LEN : nat := 10.
Definition BACKUP_CODE_ALPHABET : str := $"ABCDEFGHJKMNPQRSTUVWXYZ23456789".

(** A random byte picks a letter. *)
Definition backup_letter (b : ascii) : ascii :=
  nth (N.to_nat (byte_val b mod slen BACKUP_CODE_ALPHABET)) BACKUP_CODE_ALPHABET "A"%char.

Definition random_backup_code_raw (bytes : str) : str := backup_letter <$> bytes.

Definition format_backup_code (raw : str) : str :=
  let mid := (length raw / 2)%nat in take mid raw ++ $"-" ++ drop mid raw.

Definition strip_backup_code_format (code : str) : str :=
  filter (fun c => c <> "-"%char) code.

(** [draws]: ten random bytes for each of the ten codes. *)
Definition generate_backup_codes (draws : list str) : list str :=
  (fun bytes => format_backup_code (random_backup_code_raw bytes)) <$> draws.

(** ** The user's row ([db/user_repo.rs]) *)

Definition with_totp (u : UserRow) (secret : option str) (confirmed : option DateTime)
    (last : option Z) (failed : Z) (locked : option DateTime) : UserRow := {|
  us_workspace_id := us_workspace_id u; us_email := us_email u;
  us_password_hash := us_password_hash u; us_role := us_role u; us_totp_secret := secret;
  us_totp_confirmed_at := confirmed; us_totp_last_timestep := last;
  us_totp_failed_attempts := failed; us_totp_locked_until := locked |}.

Definition find_by_id (user : Uuid) : Sess (option UserRow) :=
  db_io;; gets (fun w => w_users w !! user).

Definition no_such_user (user : Uuid) : ApiError :=
  NotFound ($"user " ++ show_uuid user ++ $" not found").

(** [UPDATE users .. WHERE id = $1], which must match a row. *)
Definition update_user (user : Uuid) (f : UserRow -> UserRow) (also : World -> World) : Sess unit :=
  db_io;;
  u ← gets (fun w => w_users w !! user);
  match u with
  | None => fail (no_such_user user)
  | Some u => modify (fun w => also (set_users (<[user := f u]> (w_users w)) w))
  end.

Definition without_codes (user : Uuid) (l : list BackupCode) : list BackupCode :=
  filter (fun b => bc_user_id b <> user) l.

(** [codes]: the identifiers and hashes inserted. *)
Definition enroll_totp (user : Uuid) (ciphertext : str) (codes : list (Uuid * str))
    (actor : AdminActor) (entry : AdminAuditEntry) : Sess unit :=
  update_user user
    (fun u => with_totp u (Some ciphertext) None (us_totp_last_timestep u)
                (us_totp_failed_attempts u) (us_totp_locked_until u))
    (fun w => set_audit (audit_write actor entry (w_audit w))
      (set_backup (without_codes user (w_backup w) ++
        ((fun p => {| bc_id := p.1; bc_user_id := user; bc_code_hash := p.2; bc_used_at := None |})
           <$> codes)) w)).

Definition confirm_totp (m : Moment) (user : Uuid) (actor : AdminActor) (entry : AdminAuditEntry)
    : Sess unit :=
  update_user user
    (fun u => with_totp u (us_totp_secret u) (Some (mo_now m)) (us_totp_last_timestep u)
                (us_totp_failed_attempts u) (us_totp_locked_until u))
    (fun w => set_audit (audit_write actor entry (w_audit w)) w).

Definition disable_totp (user : Uuid) (actor : AdminActor) (entry : AdminAuditEntry) : Sess unit :=
  update_user user (fun u => with_totp u None None None 0 None)
    (fun w => set_audit (audit_write actor entry (w_audit w))
      (set_backup (without_codes user (w_backup w)) w)).

Definition record_totp_success (user : Uuid) (timestep : Z) : Sess unit :=
  update_user user (fun u => with_totp u (us_totp_secret u) (us_totp_confirmed_at u) (Some timestep)
                               0 None) (fun w => w).

Definition record_totp_failure (m : Moment) (user : Uuid) (lock_threshold lock_secs : Z) : Sess Z :=
  update_user user (fun u =>
    let n := (us_totp_failed_attempts u + 1)%Z in
    with_totp u (us_totp_secret u) (us_totp_confirmed_at u) (us_totp_last_timestep u) n
      (if (lock_threshold <=? n)%Z then Some (mo_now m + lock_secs * 10 ^ 6)%Z
       else us_totp_locked_until u)) (fun w => w);;
  gets (fun w => match w_users w !! user with Some u => us_totp_failed_attempts u | None => 0%Z end).

Definition use_code (now : DateTime) (id : Uuid) (l : list BackupCode) : list BackupCode :=
  (fun b => if (bc_id b =? id)%N && bool_decide (bc_used_at b = None)
            then {| bc_id := bc_id b; bc_user_id := bc_user_id b; bc_code_hash := bc_code_hash b;
                    bc_used_at := Some now |} else b) <$> l.

Section handlers.
Context `{AuthEnv} `{TotpEnv} (cfg : JwtConfig).

(** The loop over the candidates read; each matching one is claimed by a
    conditional update. *)
Fixpoint claim_code (m : Moment) (plain : str) (candidates : list BackupCode) : Sess bool :=
  match candidates with
  | [] => mret false
  | b :: rest =>
    if negb (verify_password (bc_code_hash b) plain) then claim_code m plain rest
    else
      db_io;;
      l ← gets w_backup;
      if existsb (fun b' => (bc_id b' =? bc_id b)%N && bool_decide (bc_used_at b' = None)) l then
        modify (set_backup (use_code (mo_now m) (bc_id b) l));; mret true
      else claim_code m plain rest
  end.

Definition consume_backup_code (m : Moment) (user : Uuid) (plain : str) : Sess bool :=
  db_io;;
  candidates ← gets (fun w => filter (fun b => bc_user_id b = user /\ bc_used_at b = None) (w_backup w));
  claim_code m plain candidates.

(** ** Which tokens the second-factor routes accept *)

Inductive BearerPurposeDecision : Type :=
  | AcceptEnrollmentToken | CheckAccessTokenBlacklist | BearerReject.

Definition classify_bearer_purpose (purpose : option str) : BearerPurposeDecision :=
  match purpose with
  | None => CheckAccessTokenBlacklist
  | Some p => if decide (p = $"2fa_enroll") then AcceptEnrollmentToken else BearerReject
  end.

Definition accept_enroll_or_access (m : Moment) (header : HeaderValue) : Sess (Uuid * Uuid) :=
  c ← lift_r (decode_bearer_claims m header);
  match classify_bearer_purpose (purpose c) with
  | AcceptEnrollmentToken => mret (sub c, cl_ws c)
  | CheckAccessTokenBlacklist =>
    r ← attempt (jti_is_blacklisted m (jti c));
    match r with
    | Ok true => fail invalid_credentials
    | Ok false => mret (sub c, cl_ws c)
    | _ => fail auth_unavailable
    end
  | BearerReject => fail invalid_credentials
  end.

Definition challenge_purpose_ok (purpose : option str) : bool :=
  bool_decide (purpose = Some $"2fa_challenge").

Definition accept_challenge (m : Moment) (header : HeaderValue) : Sess (Uuid * Uuid) :=
  c ← lift_r (decode_bearer_claims m header);
  if challenge_purpose_ok (purpose c) then mret (sub c, cl_ws c) else fail invalid_credentials.

(** ** Handlers *)

Definition self_actor (user ws : Uuid) (email : str) : Sess (AdminActor * str) :=
  db_io;;
  r ← gets (fun w => us_role <$> user_in ws user w);
  match r with
  | None => fail (Database $"no rows returned")
  | Some role =>
    mret ({| aa_workspace_id := ws; aa_user_id := Some user; aa_email := Some email;
             aa_role := Some role |}, role)
  end.

Definition the_user (user : Uuid) : Sess UserRow :=
  u ← find_by_id user;
  match u with Some u => mret u | None => fail invalid_credentials end.

(** chrono renders the instant of the message. *)
Definition check_lock (show_time : DateTime -> str) (m : Moment) (u : UserRow) : Sess unit :=
  match us_totp_locked_until u with
  | Some until =>
    if (mo_now m <? until)%Z
    then fail (TooManyRequests ($"too many attempts, locked until " ++ show_time until))
    else mret tt
  | None => mret tt
  end.

Record EnrollDraw : Type := {
  ed_secret : str;
  ed_code_bytes : list str;
  ed_code_ids : list Uuid;
  ed_salts : list N;
}.

Record EnrollResponse : Type := {
  er_provisioning_uri : str;
  er_secret_b32 : str;
  er_backup_codes : list str;
}.

Fixpoint hash_codes (codes : list str) (salts : list N) : result (list str) :=
  match codes, salts with
  | c :: cs, s :: ss =>
    obind (ok_or (hash_password s (strip_backup_code_format c)) (Internal $"password hash failed")) (fun h =>
    obind (hash_codes cs ss) (fun hs => Ok (h :: hs)))
  | _, _ => Ok []
  end.

Definition enroll (m : Moment) (d : EnrollDraw) (header : HeaderValue) : Sess EnrollResponse :=
  '(user, ws) ← accept_enroll_or_access m header;
  u ← the_user user;
  if bool_decide (us_totp_confirmed_at u <> None) then
    fail (Conflict $"2FA is already enabled; disable it first")
  else
    ciphertext ← lift_r (ok_or (kms_encrypt (ed_secret d)) (Internal $"totp secret encrypt failed"));
    let codes := generate_backup_codes (ed_code_bytes d) in
    hashes ← lift_r (hash_codes codes (ed_salts d));
    '(actor, role) ← self_actor user ws (us_email u);
    let entry := with_detail (on_own_account TwoFactorEnrollmentStarted user (us_email u) role)
      (Object [($"backup_codes_issued", Number (PosInt (N.of_nat (length codes))));
               ($"reenrollment", Bool (bool_decide (us_totp_secret u <> None)))]) in
    enroll_totp user ciphertext (zip (ed_code_ids d) hashes) actor entry;;
    match provisioning_uri (ed_secret d) (us_email u) $"SecurePrompt" with
    | Ok uri => mret {| er_provisioning_uri := uri; er_secret_b32 := ed_secret d; er_backup_codes := codes |}
    | _ => fail (Internal $"failed to build TOTP provisioning URI")
    end.

(** [u64::try_from(..).unwrap_or(0)] *)
Definition unix_now (m : Moment) : N := Z.to_N (timestamp (mo_now m)).
Definition last_step (u : UserRow) : option N := Z.to_N <$> us_totp_last_timestep u.
Definition step_i64 (step : N) : Z := Z.min (Z.of_N step) i64_max.

Definition decrypt_secret (u : UserRow) : option str :=
  ct ← us_totp_secret u; pt ← kms_decrypt ct; if utf8_valid pt then Some pt else None.

Definition LOCK_THRESHOLD : Z := 5.
Definition LOCK_SECS : Z := 900.

Definition reject_code (m : Moment) (user : Uuid) {A} : Sess A :=
  attempt (record_totp_failure m user LOCK_THRESHOLD LOCK_SECS);; fail invalid_credentials.

Definition verify (show_time : DateTime -> str) (m : Moment) (d : Draw) (header : HeaderValue)
    (device : DeviceContext) (code : str) : Sess TokenResponse :=
  '(user, ws) ← accept_enroll_or_access m header;
  u ← the_user user;
  check_lock show_time m u;;
  match decrypt_secret u with
  | None => fail invalid_credentials
  | Some secret =>
    match verify_code secret code (last_step u) (unix_now m) with
    | Ok step =>
      '(actor, role) ← self_actor user ws (us_email u);
      confirm_totp m user actor (on_own_account TwoFactorEnabled user (us_email u) role);;
      attempt (revoke_all_for_user m user);;
      record_totp_success user (step_i64 step);;
      build_token_pair_body cfg m d user ws role (us_email u) device
    | _ => reject_code m user
    end
  end.

Inductive TotpStepOutcome : Type := Matched (step : N) | NoMatch | SystemError.

Definition verify_totp_step (u : UserRow) (code : str) (now_unix : N) : TotpStepOutcome :=
  match decrypt_secret u with
  | None => SystemError
  | Some secret =>
    match verify_code secret code (last_step u) now_unix with
    | Ok step => Matched step
    | _ => NoMatch
    end
  end.

Definition twofa_unavailable : ApiError := ServiceUnavailable $"2fa verification temporarily unavailable".

(** TOTP first, then the same input as a backup code; the step to record and
    the factor that cleared the gate. *)
Definition second_factor (m : Moment) (user : Uuid) (u : UserRow) (code : str)
    : Sess (option (Z * str)) :=
  match verify_totp_step u code (unix_now m) with
  | Matched step => mret (Some (step_i64 step, $"totp"))
  | SystemError => fail twofa_unavailable
  | NoMatch =>
    ok ← consume_backup_code m user (strip_backup_code_format code);
    mret (if ok : bool then Some (step_i64 (unix_now m / 30), $"backup_code") else None)
  end.

Definition challenge (show_time : DateTime -> str) (m : Moment) (d : Draw) (header forwarded_for : HeaderValue)
    (device : DeviceContext) (code : str) : Sess TokenResponse :=
  '(user, ws) ← accept_challenge m header;
  u ← the_user user;
  check_lock show_time m u;;
  r ← attempt (limit m ($"2fa_challenge_ip:" ++ client_ip_key forwarded_for));
  match r with
  | Ok _ =>
    factor ← second_factor m user u code;
    match factor with
    | None => reject_code m user
    | Some (timestep, verified_with) =>
      record_totp_success user timestep;;
      '(actor, role) ← self_actor user ws (us_email u);
      let entry := with_detail (on_own_account SecondFactorVerified user (us_email u) role)
        (Object [($"verified_with", VString verified_with)]) in
      write_own_audit actor entry;;
      build_token_pair_body cfg m d user ws role (us_email u) device
    end
  | _ => fail (TooManyRequests $"rate limit exceeded for 2fa challenge")
  end.

(** Behind [require]: the context is that of a live session. *)
Definition disable (show_time : DateTime -> str) (m : Moment) (ctx : JwtAuthContext) (code : str)
    : Sess unit :=
  u ← the_user (jc_user_id ctx);
  if bool_decide (us_totp_confirmed_at u = None) then fail (BadRequest $"2FA is not enabled")
  else
    check_lock show_time m u;;
    factor ← second_factor m (jc_user_id ctx) u code;
    match factor with
    | None => reject_code m (jc_user_id ctx)
    | Some (_, verified_with) =>
      '(actor, role) ← self_actor (jc_user_id ctx) (jc_workspace_id ctx) (us_email u);
      let entry := with_detail (on_own_account TwoFactorDisabled (jc_user_id ctx) (us_email u) role)
        (Object [($"verified_with", VString verified_with)]) in
      disable_totp (jc_user_id ctx) actor entry;;
      attempt (revoke_all_for_user m (jc_user_id ctx));;
      mret tt
    end.
End handlers.
