(* ===== verification/SessionsSpec.v ===== *)
(** * What sessions promise

    Administrative revocation ends every token that existed, on every pod and
    through any outage; the degraded path serves only warm, unrevoked sessions
    and closes after a minute; a purpose token never authorizes.  And a gap: a
    logged-out token is accepted again during the leeway after its expiry. *)

From S2P Require Import Prelude Rstr Json Types Providers Roles Limits AdminAudit ApiKeys.
From S2P Require Import Sessions Login TwoFactor.

(** ** Reasoning about handlers *)

(** [R] relates the world before and after, whatever the answer. *)
Definition steps {A} (R : World -> World -> Prop) (x : Sess A) : Prop := forall w, R w (x w).2.

Section steps.
Context (R : World -> World -> Prop) `{!PreOrder R}.

Lemma steps_ret {A} (a : A) : steps R (mret a).
Proof. intros w. simpl. reflexivity. Qed.
Lemma steps_fail {A} e : steps R (@fail A e).
Proof. intros w. simpl. reflexivity. Qed.
Lemma steps_gets {A} (f : World -> A) : steps R (gets f).
Proof. intros w. simpl. reflexivity. Qed.
Lemma steps_lift {A} (r : result A) : steps R (lift_r r).
Proof. intros w. simpl. reflexivity. Qed.
Lemma steps_modify f : (forall w, R w (f w)) -> steps R (modify f).
Proof. intros Hf w. apply Hf. Qed.
Lemma steps_attempt {A} (x : Sess A) : steps R x -> steps R (attempt x).
Proof. intros Hx w. unfold attempt. specialize (Hx w). by destruct (x w). Qed.
Lemma steps_bind {A B} (x : Sess A) (k : A -> Sess B) :
  steps R x -> (forall a, steps R (k a)) -> steps R (x ≫= k).
Proof.
  intros Hx Hk w. unfold mbind, Sess_bind. specialize (Hx w).
  destruct (x w) as [[a| |] w']; [|done..]. simpl in Hx. etrans; [exact Hx|]. apply Hk.
Qed.
Lemma steps_redis : (forall f w, R w (set_redis_faults f w)) -> steps R redis_io.
Proof. intros Hf w. unfold redis_io. destruct (w_redis_faults w 0); apply Hf. Qed.
Lemma steps_db : (forall f w, R w (set_db_faults f w)) -> steps R db_io.
Proof. intros Hf w. unfold db_io. destruct (w_db_faults w 0); apply Hf. Qed.
End steps.

(** Walk through a handler: its primitives, its branches, the calls already
    known. *)
Ltac walk :=
  repeat first
    [ progress intros
    | match goal with
      | H : steps ?R ?x |- steps ?R ?x => exact H
      | |- PreOrder _ => assumption || typeclasses eauto
      | |- steps _ (mret _) => apply steps_ret
      | |- steps _ (fail _) => apply steps_fail
      | |- steps _ (gets _) => apply steps_gets
      | |- steps _ (lift_r _) => apply steps_lift
      | |- steps _ (attempt _) => apply steps_attempt
      | |- steps _ (_ ≫= _) => apply steps_bind
      end
    | solve [auto 2 with sess]
    | match goal with |- context [match ?x with _ => _ end] => destruct x end ].

Create HintDb sess discriminated.

(** ** A history of requests *)

Record Faults : Type := { fl_redis : nat -> option ApiError; fl_db : nat -> option ApiError }.

Inductive SessEvent : Type :=
  | SvRequire (header : HeaderValue)
  | SvToken (d : Draw) (forwarded_for : HeaderValue) (device : DeviceContext) (email password : str)
  | SvRefresh (d : Draw) (presented : str)
  | SvLogout (ctx : JwtAuthContext)
  | SvRevoke (ctx : JwtAuthContext) (target : Uuid)
  | SvRevokeOne (ctx : JwtAuthContext) (target session : Uuid)
  | SvCreateUser (seats : option N) (ctx : JwtAuthContext) (email password role : str) (id : Uuid) (salt : N)
  | SvEnroll (d : EnrollDraw) (header : HeaderValue)
  | SvVerify (d : Draw) (header : HeaderValue) (device : DeviceContext) (code : str)
  | SvChallenge (d : Draw) (header forwarded_for : HeaderValue) (device : DeviceContext) (code : str)
  | SvDisable (ctx : JwtAuthContext) (code : str).

Definition set_faults (f : Faults) (w : World) : World :=
  set_db_faults (fl_db f) (set_redis_faults (fl_redis f) w).

Section history.
Context `{AuthEnv} `{TotpEnv} (cfg : JwtConfig) (show_time : DateTime -> str).

Definition sess_step (m : Moment) (f : Faults) (ev : SessEvent) (w : World) : World :=
  let w := set_faults f w in
  match ev with
  | SvRequire h => (require m h w).2
  | SvToken d x dev e p => (token cfg m d x dev e p w).2
  | SvRefresh d t => (refresh cfg m d t w).2
  | SvLogout c => (logout m c w).2
  | SvRevoke c t => (revoke_sessions cfg m c t w).2
  | SvRevokeOne c t s => (revoke_one_session cfg m c t s w).2
  | SvCreateUser n c e p r i s => (create_user n c e p r i s w).2
  | SvEnroll d h => (enroll m d h w).2
  | SvVerify d h dev c => (verify cfg show_time m d h dev c w).2
  | SvChallenge d h x dev c => (challenge cfg show_time m d h x dev c w).2
  | SvDisable c code => (disable show_time m c code w).2
  end.

Definition sess_run (evs : list (Moment * Faults * SessEvent)) (w : World) : World :=
  foldl (fun w ev => sess_step ev.1.1 ev.1.2 ev.2 w) w evs.

(** ** Framing

    What every handler may do to the world at moment [m], as the closure of a
    few primitive changes: a relation closed under them relates the world
    before and after any request. *)

Record frame (m : Moment) (R : World -> World -> Prop) : Prop := {
  fr_pre : PreOrder R;
  fr_redis : steps R redis_io;
  fr_db : steps R db_io;
  fr_jti x w : R w (set_jti x w);
  fr_refresh x w : R w (set_refresh x w);
  fr_users x w : R w (set_users x w);
  fr_backup x w : R w (set_backup x w);
  fr_audit x w : R w (set_audit x w);
  fr_limiters x w : R w (set_limiters x w);
  fr_alerts x w : R w (set_alerts x w);
  fr_cache k w : R w (set_cache (delete k (w_cache w)) w);
  fr_watermark u w : R w (set_watermark (<[u := (timestamp (mo_now m),
    (mo_redis m + revocation_watermark_ttl_secs (access_ttl_secs cfg))%Z)]> (w_watermark w)) w);
  fr_revocations r w : R w (set_revocations (w_revocations w ++ [r]) w);
  fr_require h : steps R (require m h);
}.

Section framed.
Context (m : Moment) (R : World -> World -> Prop) (F : frame m R).
#[local] Instance R_pre : PreOrder R := fr_pre _ _ F.
#[local] Hint Extern 1 (R _ _) =>
  first [apply (fr_jti _ _ F) | apply (fr_refresh _ _ F) | apply (fr_users _ _ F)
        | apply (fr_backup _ _ F) | apply (fr_audit _ _ F) | apply (fr_limiters _ _ F)
        | apply (fr_alerts _ _ F) | apply (fr_cache _ _ F) | apply (fr_watermark _ _ F)
        | apply (fr_revocations _ _ F)] : sess.
#[local] Hint Extern 1 (steps R redis_io) => apply (fr_redis _ _ F) : sess.
#[local] Hint Extern 1 (steps R db_io) => apply (fr_db _ _ F) : sess.
#[local] Hint Extern 1 (steps R (require _ _)) => apply (fr_require _ _ F) : sess.
#[local] Hint Extern 2 (steps R (modify _)) => apply steps_modify; intros : sess.

Lemma fr_blacklist j ttl : steps R (blacklist_jti m j ttl).
Proof. unfold blacklist_jti, valid_ttl. walk. Qed.
#[local] Hint Resolve fr_blacklist : sess.

Lemma fr_blacklist_all ttl js : steps R (blacklist_all m ttl js).
Proof. induction js; simpl; walk. Qed.
#[local] Hint Resolve fr_blacklist_all : sess.

Lemma fr_revoke_before u :
  steps R (revoke_sessions_before m u (timestamp (mo_now m))
             (revocation_watermark_ttl_secs (access_ttl_secs cfg))).
Proof. unfold revoke_sessions_before, valid_ttl. walk. Qed.
#[local] Hint Resolve fr_revoke_before : sess.

Lemma fr_insert id row : steps R (rt_insert m id row).
Proof. unfold rt_insert. walk. Qed.
#[local] Hint Resolve fr_insert : sess.

Lemma fr_rotate o n j e i : steps R (rotate m o n j e i).
Proof. unfold rotate. walk. Qed.
#[local] Hint Resolve fr_rotate : sess.

Lemma fr_revoke_all u : steps R (revoke_all_for_user m u).
Proof. unfold revoke_all_for_user. walk. Qed.
#[local] Hint Resolve fr_revoke_all : sess.

Lemma fr_revoke_where p r : steps R (revoke_where m p r).
Proof.
  unfold revoke_where. walk. apply steps_modify. intros w.
  etrans; [apply (fr_refresh _ _ F)|].
  exact (fr_revocations _ _ F _ (set_refresh _ w)).
Qed.
#[local] Hint Resolve fr_revoke_where : sess.

Lemma fr_limit k : steps R (limit m k).
Proof. intros w. unfold limit. destruct (check _ _ _). simpl. eauto with sess. Qed.
#[local] Hint Resolve fr_limit : sess.

Lemma fr_write_own a e : steps R (write_own_audit a e).
Proof. unfold write_own_audit. walk. Qed.
#[local] Hint Resolve fr_write_own : sess.

Lemma fr_build d u ws r e dev : steps R (build_token_pair_body cfg m d u ws r e dev).
Proof. unfold build_token_pair_body, expiry, encode_access. walk. Qed.
#[local] Hint Resolve fr_build : sess.

Lemma fr_token d x dev e p : steps R (token cfg m d x dev e p).
Proof.
  unfold token, limit_401, record_login, encode_purpose_token, encode_access. walk.
Qed.

Lemma fr_refresh_handler d t : steps R (refresh cfg m d t).
Proof. unfold refresh, expiry, encode_access. walk. Qed.

Lemma fr_logout c : steps R (logout m c).
Proof. unfold logout. walk. Qed.

Lemma fr_revoke_sessions c t : steps R (revoke_sessions cfg m c t).
Proof. unfold revoke_sessions, find_target, actor_email, revoke. walk. Qed.

Lemma fr_revoke_one c t sid : steps R (revoke_one_session cfg m c t sid).
Proof.
  unfold revoke_one_session, resolve_subject, find_target, find_live_session, actor_email,
    repo_revoke_one_session. walk.
Qed.

Lemma fr_update_user u f (also : World -> World) :
  (forall w, R w (also w)) -> steps R (update_user u f also).
Proof.
  intros Ha. unfold update_user. walk. apply steps_modify. intros w.
  etrans; [apply (fr_users _ _ F)|apply Ha].
Qed.

Lemma fr_create_user n c e p r i sl : steps R (create_user n c e p r i sl).
Proof.
  unfold create_user, actor_email, repo_create_user. walk. apply steps_modify. intros w.
  etrans; [apply (fr_users _ _ F)|apply (fr_audit _ _ F)].
Qed.

Lemma fr_accept_enroll h : steps R (accept_enroll_or_access m h).
Proof. unfold accept_enroll_or_access, jti_is_blacklisted. walk. Qed.
#[local] Hint Resolve fr_accept_enroll : sess.

Lemma fr_enroll_totp u c cs a e : steps R (enroll_totp u c cs a e).
Proof.
  apply fr_update_user. intros w.
  etrans; [apply (fr_backup _ _ F)|apply (fr_audit _ _ F)].
Qed.
Lemma fr_confirm u a e : steps R (confirm_totp m u a e).
Proof. apply fr_update_user. intros w. apply (fr_audit _ _ F). Qed.
Lemma fr_disable_totp u a e : steps R (disable_totp u a e).
Proof.
  apply fr_update_user. intros w.
  etrans; [apply (fr_backup _ _ F)|apply (fr_audit _ _ F)].
Qed.
Lemma fr_success u t : steps R (record_totp_success u t).
Proof. apply fr_update_user. intros w. reflexivity. Qed.
Lemma fr_failure u a b : steps R (record_totp_failure m u a b).
Proof. unfold record_totp_failure. walk. apply fr_update_user. intros w. reflexivity. Qed.
#[local] Hint Resolve fr_enroll_totp fr_confirm fr_disable_totp fr_success fr_failure : sess.

Lemma fr_claim p l : steps R (claim_code m p l).
Proof. induction l; simpl; walk. Qed.
#[local] Hint Resolve fr_claim : sess.

Lemma fr_second u r c : steps R (second_factor m u r c).
Proof. unfold second_factor, consume_backup_code. walk. Qed.
#[local] Hint Resolve fr_second : sess.

Lemma fr_self_actor u ws e : steps R (self_actor u ws e).
Proof. unfold self_actor. walk. Qed.
Lemma fr_the_user u : steps R (the_user u).
Proof. unfold the_user, find_by_id. walk. Qed.
Lemma fr_check_lock u : steps R (check_lock show_time m u).
Proof. unfold check_lock. walk. Qed.
Lemma fr_reject u {A} : steps R (@reject_code m u A).
Proof. unfold reject_code. walk. Qed.
#[local] Hint Resolve fr_self_actor fr_the_user fr_check_lock fr_reject : sess.

Lemma fr_enroll d h : steps R (enroll m d h).
Proof. unfold enroll. walk. Qed.
Lemma fr_verify d h dev c : steps R (verify cfg show_time m d h dev c).
Proof. unfold verify. walk. Qed.
Lemma fr_challenge d h x dev c : steps R (challenge cfg show_time m d h x dev c).
Proof. unfold challenge, accept_challenge. walk. Qed.
Lemma fr_disable ctx c : steps R (disable show_time m ctx c).
Proof. unfold disable. walk. Qed.

Lemma frame_step f ev w : R (set_faults f w) (sess_step m f ev w).
Proof.
  unfold sess_step. destruct ev;
    [apply (fr_require _ _ F)|apply fr_token|apply fr_refresh_handler|apply fr_logout
    |apply fr_revoke_sessions|apply fr_revoke_one|apply fr_create_user|apply fr_enroll
    |apply fr_verify|apply fr_challenge|apply fr_disable].
Qed.
End framed.

(** ** Revocation is final

    What a request can do to the revocation state: append to the durable
    record, and move a user's watermark to its own instant. *)

Definition wm_rel (m : Moment) (w w' : World) : Prop :=
  w_revocations w `prefix_of` w_revocations w' /\
  forall u, w_watermark w' !! u = w_watermark w !! u \/
    w_watermark w' !! u = Some (timestamp (mo_now m),
      (mo_redis m + revocation_watermark_ttl_secs (access_ttl_secs cfg))%Z).

#[local] Instance wm_rel_pre m : PreOrder (wm_rel m).
Proof.
  split.
  - intros w. split; [done|by left].
  - intros x y z [P1 Q1] [P2 Q2]. split; [by etrans|].
    intros u. destruct (Q2 u) as [->| ->]; [apply Q1|by right].
Qed.

Lemma wm_same m w w' :
  w_revocations w' = w_revocations w -> w_watermark w' = w_watermark w -> wm_rel m w w'.
Proof. intros E1 E2. unfold wm_rel. rewrite E1, E2. split; [done|by left]. Qed.

Lemma require_wm m h : steps (wm_rel m) (require m h).
Proof.
  unfold require, serve_degraded, latest_watermark, session_gates, alert. walk.
  all: first [apply steps_redis|apply steps_db|apply steps_modify]; intros; by apply wm_same.
Qed.

Lemma wm_frame m : frame m (wm_rel m).
Proof.
  split; try (intros; by apply wm_same); [apply _|..].
  - apply steps_redis. intros. by apply wm_same.
  - apply steps_db. intros. by apply wm_same.
  - intros u w. split; [done|]. intros u'. simpl.
    destruct (decide (u' = u)) as [->|];
      [rewrite lookup_insert_eq; by right|rewrite lookup_insert_ne by done; by left].
  - intros r w. split; [by apply prefix_app_r|by left].
  - apply require_wm.
Qed.

(** Gateway and Redis agree on the passing of time up to half of the slack the
    watermark's life has over the leeway. *)
Definition synced (delta : Z) (m : Moment) : Prop :=
  (Z.abs (mo_redis m - timestamp (mo_now m) - delta) <= 29)%Z.

Definition Revoked (ws user : Uuid) (at_unix delta : Z) (w : World) : Prop :=
  (exists r, r ∈ w_revocations w /\ rv_target_user_id r = user /\ rv_workspace_id r = ws /\
     rv_session_id r = None /\ rv_revoked_before_unix r = at_unix) /\
  (exists v e, w_watermark w !! user = Some (v, e) /\ (at_unix <= v)%Z /\
     (at_unix + delta + Z.of_N (access_ttl_secs cfg) + 91 <= e)%Z).

Hypothesis ttl_fits : (access_ttl_secs cfg + 120 < 2 ^ 64)%N.

Lemma ttl_exact :
  revocation_watermark_ttl_secs (access_ttl_secs cfg) = (Z.of_N (access_ttl_secs cfg) + 120)%Z.
Proof. unfold revocation_watermark_ttl_secs. rewrite N.mod_small by done. lia. Qed.

Lemma timestamp_mono a b : (a <= b)%Z -> (timestamp a <= timestamp b)%Z.
Proof. intros. unfold timestamp. apply Z.div_le_mono; lia. Qed.

Lemma revoked_step ws u m0 delta m f ev w :
  (mo_now m0 <= mo_now m)%Z -> synced delta m ->
  Revoked ws u (timestamp (mo_now m0)) delta w ->
  Revoked ws u (timestamp (mo_now m0)) delta (sess_step m f ev w).
Proof.
  intros Hle Hs [(r & Hr & Hrest) (v & e & Hw & Hv & He)].
  destruct (frame_step _ _ (wm_frame m) f ev w) as [Hp Hq]. split.
  - exists r. split; [|done]. eapply elem_of_prefix; [exact Hr|exact Hp].
  - apply timestamp_mono in Hle. unfold synced in Hs.
    destruct (Hq u) as [E|E]; rewrite E.
    + exists v, e. done.
    + rewrite ttl_exact. do 2 eexists. split; [done|]. lia.
Qed.

Lemma revoked_run ws u m0 delta evs w :
  Forall (fun ev => (mo_now m0 <= mo_now ev.1.1)%Z /\ synced delta ev.1.1) evs ->
  Revoked ws u (timestamp (mo_now m0)) delta w ->
  Revoked ws u (timestamp (mo_now m0)) delta (sess_run evs w).
Proof.
  intros Hevs. revert w. induction Hevs as [|[[m f] ev] evs [Hle Hs] _ IH]; intros w Hw; [done|].
  apply IH. by apply revoked_step.
Qed.

Lemma max_opt_ge f (t : list RevocationRow) a z :
  (exists x, a = Some x /\ (z <= x)%Z) ->
  exists x, foldl (fun a r => if f r : bool then max_opt a (rv_revoked_before_unix r) else a) a t
            = Some x /\ (z <= x)%Z.
Proof.
  revert a. induction t as [|r t IH]; intros a Ha; [done|].
  apply IH. destruct Ha as (x & -> & Hx). destruct (f r); [|by exists x].
  eexists. split; [done|]. lia.
Qed.

Lemma durable_watermark_ge ws u t r :
  r ∈ t -> rv_target_user_id r = u -> rv_workspace_id r = ws -> rv_session_id r = None ->
  exists x, durable_watermark ws u t = Some x /\ (rv_revoked_before_unix r <= x)%Z.
Proof.
  intros [l1 [l2 ->]]%list_elem_of_split <- <- Hs. unfold durable_watermark.
  rewrite foldl_app. simpl. rewrite !N.eqb_refl, bool_decide_true by done. simpl.
  apply max_opt_ge. eexists. split; [done|]. destruct (foldl _ _ _); lia.
Qed.

Lemma revoked_require ws u m0 delta m h c w :
  Revoked ws u (timestamp (mo_now m0)) delta w -> synced delta m ->
  decode_bearer_claims m h = Ok c -> sub c = u -> cl_ws c = ws ->
  (iat c <= timestamp (mo_now m0))%Z -> (exp c <= iat c + Z.of_N (access_ttl_secs cfg))%Z ->
  exists e, (require m h w).1 = Err e /\ e ∈ [invalid_credentials; auth_unavailable].
Proof.
  intros [(r & Hr & Hu & Hws & Hses & Hbef) (v & e & Hw & Hv & He)] Hs Hdec <- <- Hiat Hexp.
  assert (Hlive : (timestamp (mo_now m) <= exp c + JWT_LEEWAY)%Z).
  { unfold decode_bearer_claims in Hdec. destruct (extract_bearer h) as [t| |]; [|done..].
    simpl in Hdec. destruct (jwt_decode _ _ t) eqn:E; [|done].
    injection Hdec as ->. by eapply jwt_decode_live. }
  unfold JWT_LEEWAY in Hlive. unfold synced in Hs.
  unfold require. unfold mbind at 1, Sess_bind at 1. simpl. rewrite Hdec.
  destruct (is_access_claims c); simpl; [|by eexists; split; [done|constructor]].
  unfold mbind at 1, Sess_bind at 1, attempt. unfold session_gates.
  unfold mbind at 1, Sess_bind at 1, redis_io at 1.
  destruct (w_redis_faults w 0) as [er|]; cbn.
  - unfold serve_degraded, attempt, latest_watermark, mbind, Sess_bind, db_io. simpl.
    destruct (w_db_faults w 0); simpl; [eexists; split; [done|set_solver]|].
    destruct (durable_watermark_ge (cl_ws c) (sub c) _ r Hr) as (x & -> & Hx); [done..|].
    simpl. rewrite (proj2 (Z.leb_le _ _)) by lia. simpl. eexists. split; [done|set_solver].
  - unfold watermark_at. simpl. rewrite Hw. simpl.
    rewrite (proj2 (Z.ltb_lt _ _)) by lia. unfold session_gate.
    destruct (jti_blacklisted_at _ _ _); simpl; [eexists; split; [done|set_solver]|].
    rewrite (proj2 (Z.leb_le _ _)) by lia. simpl. eexists. split; [done|set_solver].
Qed.

Lemma bind_ok {A B} (x : Sess A) (k : A -> Sess B) w b w' :
  (x ≫= k) w = (Ok b, w') -> exists a w1, x w = (Ok a, w1) /\ k a w1 = (Ok b, w').
Proof. unfold mbind, Sess_bind. destruct (x w) as [[a| |] w1]; naive_solver. Qed.

Lemma revoke_sessions_establishes m ctx target delta w r w' :
  synced delta m -> revoke_sessions cfg m ctx target w = (Ok r, w') ->
  Revoked (jc_workspace_id ctx) target (timestamp (mo_now m)) delta w'.
Proof.
  unfold revoke_sessions. intros Hs Hr.
  apply bind_ok in Hr as (? & w1 & _ & Hr).
  apply bind_ok in Hr as (t & w2 & Ht & Hr).
  destruct t as [t|]; [|done].
  assert (Htg : tg_user_id t = target).
  { unfold find_target in Ht. apply bind_ok in Ht as (? & w3 & _ & Ht).
    injection Ht as Ht _. by destruct (user_in _ _ _); simplify_eq/=. }
  apply bind_ok in Hr as (role & w3 & _ & Hr).
  destruct (may_revoke _ role); [|done..].
  apply bind_ok in Hr as (email & w4 & _ & Hr).
  apply bind_ok in Hr as (count & w5 & Hw5 & Hr).
  apply bind_ok in Hr as ([] & w6 & Hw6 & Hr).
  apply bind_ok in Hr as ([] & w7 & Hw7 & Hr).
  injection Hr as _ <-. injection Hw7 as <-.
  unfold revoke_sessions_before in Hw6. apply bind_ok in Hw6 as ([] & w8 & Hw8 & Hw6).
  apply bind_ok in Hw6 as ([] & w9 & Hw9 & Hw6). injection Hw6 as <-.
  unfold valid_ttl in Hw9. destruct (0 <? _)%Z; [|done]. injection Hw9 as <-.
  unfold redis_io in Hw8. destruct (w_redis_faults w5 0); [done|]. injection Hw8 as <-.
  unfold revoke, revoke_where in Hw5. apply bind_ok in Hw5 as ([] & w10 & _ & Hw5).
  apply bind_ok in Hw5 as (? & w11 & _ & Hw5). apply bind_ok in Hw5 as ([] & w12 & Hw12 & Hw5).
  injection Hw5 as _ <-. injection Hw12 as <-. split; simpl.
  - eexists. split; [apply elem_of_app; right; by left|]. simpl. by rewrite Htg.
  - rewrite Htg, lookup_insert_eq, ttl_exact. unfold synced in Hs.
    do 2 eexists. split; [done|]. lia.
Qed.
End history.

(** C11: When an administrator's revocation of a user answers with success, no
    access token of that user that existed is ever let through the session
    middleware, [require], again: whatever the requests that follow, on any
    pod, with any calls to Redis and Postgres failing, and whatever other
    revocations overwrite the watermark, the middleware refuses it with 401 or
    503 until the token itself has expired.  The clocks of the gateway and of
    Redis may drift by 29 seconds either way.  Routes that are not behind this
    middleware are not covered: the second-factor enrolment decodes tokens
    itself and accepts such a token ([revoked_token_enrolls],
    [revoked_token_returns]). *)
Theorem revoked_tokens_stay_dead `{AuthEnv} `{TotpEnv} (cfg : JwtConfig) show_time
    m0 ctx target delta w r w0 evs m h c :
  (access_ttl_secs cfg + 120 < 2 ^ 64)%N ->
  synced delta m0 ->
  revoke_sessions cfg m0 ctx target w = (Ok r, w0) ->
  Forall (fun ev => (mo_now m0 <= mo_now ev.1.1)%Z /\ synced delta ev.1.1) evs ->
  synced delta m ->
  decode_bearer_claims m h = Ok c ->
  sub c = target -> cl_ws c = jc_workspace_id ctx ->
  (iat c <= timestamp (mo_now m0))%Z ->
  (exp c <= iat c + Z.of_N (access_ttl_secs cfg))%Z ->
  forall f, exists e, (require m h (set_faults f (sess_run cfg show_time evs w0))).1 = Err e /\
    e ∈ [invalid_credentials; auth_unavailable].
Proof.
  intros Ht Hs Hr Hevs Hm Hdec Hsub Hws Hiat Hexp f.
  eapply (revoked_require cfg show_time Ht); [|exact Hm|exact Hdec|exact Hsub|exact Hws|exact Hiat|exact Hexp].
  eapply (revoked_run cfg show_time Ht) in Hevs; [|by eapply revoke_sessions_establishes].
  by destruct Hevs.
Qed.

(** ** The Redis outage *)

Definition redis_down (f : nat -> option ApiError) : Prop := forall n, f n <> None.

(** While Redis is down nothing enters a pod's session cache. *)
Definition cooling (w w' : World) : Prop :=
  redis_down (w_redis_faults w) -> redis_down (w_redis_faults w') /\ w_cache w' ⊆ w_cache w.

#[local] Instance cooling_pre : PreOrder cooling.
Proof.
  split; [by intros w|]. intros x y z Hxy Hyz Hx.
  destruct (Hxy Hx) as [Hy ?]. destruct (Hyz Hy) as [? ?]. split; [done|by etrans].
Qed.

Section outage.
Context `{AuthEnv} `{TotpEnv} (cfg : JwtConfig) (show_time : DateTime -> str).

Lemma cooling_redis : steps cooling redis_io.
Proof.
  intros w Hd. unfold redis_io. destruct (w_redis_faults w 0) eqn:E; simpl;
    (split; [intros n; apply Hd|done]).
Qed.

(** The middleware with Redis down is its degraded path. *)
Lemma require_down m h w :
  redis_down (w_redis_faults w) ->
  require m h w =
    match decode_bearer_claims m h with
    | Ok c => if is_access_claims c
              then serve_degraded m c (set_redis_faults (fun n => w_redis_faults w (S n)) w)
              else (Err invalid_credentials, w)
    | Err e => (Err e, w)
    | Panic => (Panic, w)
    end.
Proof.
  intros Hd. unfold require, mbind, Sess_bind, lift_r.
  destruct (decode_bearer_claims m h) as [c| |]; [|done..].
  destruct (is_access_claims c); [|done]. simpl.
  unfold attempt, session_gates, mbind, Sess_bind, redis_io.
  destruct (w_redis_faults w 0) eqn:E; [done|by destruct (Hd 0)].
Qed.

Lemma cooling_degraded m c : steps cooling (serve_degraded m c).
Proof.
  unfold serve_degraded, latest_watermark, alert. walk; try exact cooling_pre.
  all: first [apply steps_db|apply steps_modify]; intros; by intros ?.
Qed.

Lemma cooling_frame m : frame cfg m cooling.
Proof.
  split; try (intros; by intros ?).
  - apply _.
  - apply cooling_redis.
  - by apply steps_db.
  - intros k w Hd. split; [done|]. simpl. apply delete_subseteq.
  - intros h w Hd. rewrite require_down by done.
    destruct (decode_bearer_claims m h) as [c| |]; [|done..].
    destruct (is_access_claims c); [|done].
    refine (cooling_degraded m c (set_redis_faults _ w) _). intros n. apply Hd.
Qed.

Lemma cooling_run evs w :
  Forall (fun ev => redis_down (fl_redis ev.1.2)) evs -> w_cache (sess_run cfg show_time evs w) ⊆ w_cache w.
Proof.
  intros Hevs. revert w. induction Hevs as [|[[m f] ev] evs Hd _ IH]; intros w; [done|].
  etrans; [apply IH|].
  by destruct (frame_step cfg show_time m _ (cooling_frame m) f ev w).
Qed.

Lemma degraded_ok m c w ctx o w' :
  serve_degraded m c w = (Ok (ctx, o), w') ->
  o = Some LogoutUnverifiable /\ jc_user_id ctx = sub c /\
  (exists e, w_cache w !! (mo_pod m, sub c) = Some e /\ (mo_mono m < ce_cached_at e + 60 * 10 ^ 9)%Z) /\
  (forall wm, durable_watermark (cl_ws c) (sub c) (w_revocations w) = Some wm -> (wm < iat c)%Z) /\
  w_alerts w' = w_alerts w ++ [(LogoutUnverifiable, AUTH_ACTION_DEGRADE)].
Proof.
  unfold serve_degraded, attempt, latest_watermark, mbind, Sess_bind, db_io.
  destruct (w_db_faults w 0); simpl; [done|].
  set (dw := durable_watermark (cl_ws c) (sub c) (w_revocations w)).
  destruct (match dw with Some _ => _ | None => Proceed end) eqn:G; [|done..].
  unfold cached_age. simpl. destruct (w_cache w !! _) as [e|]; [|done]. simpl.
  destruct (cached_session_usable _) eqn:Hu; [|done].
  destruct (claims_role c) as [role| |]; [|done..].
  intros [= <- <- <-]. simpl. split; [done|]. split; [done|]. split; [|split; [|done]].
  - exists e. split; [done|]. unfold cached_session_usable in Hu. apply Z.ltb_lt in Hu.
    unfold DEGRADED_AUTH_CACHE_TTL_SECS in Hu.
    change (10 ^ 9)%Z with 1000000000%Z in *.
    pose proof (Z.mul_succ_div_gt (Z.max (mo_mono m - ce_cached_at e) 0) 1000000000). lia.
  - intros wm Hwm. rewrite Hwm in G. destruct (iat c <=? wm)%Z eqn:E; [done|]. lia.
Qed.
End outage.

(** C20: While Redis is down, the middleware admits a request only on a session
    this pod had verified before the outage, less than 60 seconds after that
    verification, with the durable revocation record read and no revocation of
    the user at or after the token's issue; and every such admission is marked
    and alerted.  No sequence of requests during the outage renews the
    allowance. *)
Theorem outage_admits_only_warm_sessions `{AuthEnv} `{TotpEnv} (cfg : JwtConfig) show_time
    evs w0 f m h ctx o w' :
  Forall (fun ev => redis_down (fl_redis ev.1.2)) evs ->
  redis_down (fl_redis f) ->
  require m h (set_faults f (sess_run cfg show_time evs w0)) = (Ok (ctx, o), w') ->
  o = Some LogoutUnverifiable /\
  (exists e, w_cache w0 !! (mo_pod m, jc_user_id ctx) = Some e /\
     (mo_mono m < ce_cached_at e + 60 * 10 ^ 9)%Z) /\
  (exists c, decode_bearer_claims m h = Ok c /\ purpose c = None /\ jc_user_id ctx = sub c /\
     forall wm, durable_watermark (cl_ws c) (sub c)
       (w_revocations (sess_run cfg show_time evs w0)) = Some wm -> (wm < iat c)%Z) /\
  w_alerts w' = w_alerts (sess_run cfg show_time evs w0) ++ [(LogoutUnverifiable, AUTH_ACTION_DEGRADE)].
Proof.
  intros Hevs Hf. pose proof (cooling_run cfg show_time evs w0 Hevs) as Hc.
  rewrite require_down by exact Hf.
  destruct (decode_bearer_claims m h) as [c| |]; [|done..].
  destruct (is_access_claims c) eqn:Ha; [|done]. intros Hok.
  apply (degraded_ok show_time) in Hok as (-> & Hu & (e & He & Ht) & Hwm & Hal).
  split; [done|]. split; [|split; [|exact Hal]].
  - exists e. rewrite Hu. split; [|done]. by eapply lookup_weaken.
  - exists c. split; [done|]. split; [|done].
    unfold is_access_claims in Ha. by apply bool_decide_eq_true in Ha.
Qed.

(** ** Logging out *)

Definition keeps {B} (f : World -> B) (w w' : World) : Prop := f w' = f w.
#[export] Instance keeps_pre {B} (f : World -> B) : PreOrder (keeps f).
Proof. split; [done|]. intros x y z Hxy Hyz. unfold keeps in *. congruence. Qed.

Lemma revoke_all_keeps_jti `{AuthEnv} m user : steps (keeps w_jti) (revoke_all_for_user m user).
Proof.
  unfold revoke_all_for_user. walk.
  all: first [by apply steps_db|by apply steps_modify].
Qed.

Lemma logout_blacklists `{AuthEnv} m ctx w u w' :
  logout m ctx w = (Ok u, w') ->
  w_jti w' = <[jc_jti ctx :=
    (mo_redis m + Z.max (i64_wrap (jc_exp ctx - timestamp (mo_now m))) 1)%Z]> (w_jti w).
Proof.
  unfold logout, blacklist_jti. intros Hx.
  apply bind_ok in Hx as ([] & w1 & Hb & Hx). apply bind_ok in Hb as ([] & w2 & Hr & Hb).
  apply bind_ok in Hb as ([] & w3 & Hv & Hb). injection Hb as <-.
  unfold valid_ttl in Hv. destruct (0 <? _)%Z; [|done]. injection Hv as <-.
  unfold redis_io in Hr. destruct (w_redis_faults w 0); [done|]. injection Hr as <-.
  apply bind_ok in Hx as ([] & w4 & Hm & Hx). injection Hm as <-.
  apply bind_ok in Hx as (r & w5 & Ha & Hx). injection Hx as _ <-.
  match type of Ha with attempt ?x ?w0 = _ =>
    pose proof (steps_attempt (keeps w_jti) x (revoke_all_keeps_jti m (jc_user_id ctx)) w0) as Hk end.
  rewrite Ha in Hk. exact Hk.
Qed.

(** Logging out does not outlive the leeway: the blacklist entry lasts for
    the token's remaining life, but tokens are accepted for 60 seconds more.
    From the token's expiry until the end of the leeway the middleware accepts
    the logged-out token again, as a fully verified session. *)
Theorem logged_out_token_revives `{AuthEnv} m ctx w u w1 m' h c role :
  logout m ctx w = (Ok u, w1) ->
  jc_jti ctx = jti c -> jc_exp ctx = exp c ->
  (0 < exp c - timestamp (mo_now m) < 2 ^ 63)%Z ->
  (mo_redis m + (exp c - timestamp (mo_now m)) <= mo_redis m')%Z ->
  decode_bearer_claims m' h = Ok c -> purpose c = None -> claims_role c = Ok role ->
  w_watermark w1 !! sub c = None -> w_redis_faults w1 0 = None ->
  (require m' h w1).1 = Ok (context_of c role, None).
Proof.
  intros Hj%logout_blacklists Ejti Eexp Hrange Hredis Hd Hp Hrole Hwm Hf.
  unfold require, mbind, Sess_bind, lift_r. rewrite Hd. unfold is_access_claims.
  rewrite bool_decide_true by done. simpl. unfold attempt, session_gates, mbind, Sess_bind, redis_io.
  rewrite Hf. simpl. unfold jti_blacklisted_at, watermark_at. simpl. rewrite Hj, <- Ejti, lookup_insert_eq, Hwm.
  rewrite Eexp, i64_wrap_id, Z.max_l by lia. rewrite (proj2 (Z.ltb_ge _ _)) by lia. simpl.
  by rewrite Hrole.
Qed.
