(* ===== verification/RefreshSpec.v ===== *)
(** * Refresh-token rotation under interleaving

    [rotate] reads the presented token's row in one transaction and writes the
    successor in another, so any number of requests can have read the same row
    before one of them writes.  [rt_step] interleaves those transactions with
    logins and administrative closures.  In every reachable table a session has
    at most one live row, a token is exchanged at most once, and presenting it
    again is recognised as a replay, which ends every session of the user.
    Fresh identifiers and hashes are the primary key and the unique constraint
    of the table. *)

From S2P Require Import Prelude Rstr Json Types Providers Roles Limits AdminAudit ApiKeys.
From S2P Require Import Sessions Login TwoFactor SessionsSpec.

Section rotation.
Context `{AuthEnv}.

(** The table, and the rows that requests in flight have read. *)
Abbreviation RtState := (list RefreshTokenRow * list RefreshTokenRow)%type.

Inductive RtLabel : Type :=
  | RtOpened (row : RefreshTokenRow)
  | RtProbed (row : RefreshTokenRow)
  | RtWrote (outcome : RotationOutcome)
  | RtClosed.

Definition fresh_for (t : list RefreshTokenRow) (id : Uuid) (hash : str) : Prop :=
  id ∉ rt_id <$> t /\ hash ∉ rt_token_hash <$> t.

Inductive rt_step : RtState -> RtLabel -> RtState -> Prop :=
  | step_open t pend row :
      is_live row = true -> rt_replaced_by row = None ->
      fresh_for t (rt_id row) (rt_token_hash row) -> rt_session_id row ∉ rt_session_id <$> t ->
      rt_step (t, pend) (RtOpened row) (t ++ [row], pend)
  | step_probe t pend now hash row :
      rotate_probe now (find_hash hash t) = inr row ->
      rt_step (t, pend) (RtProbed row) (t, row :: pend)
  | step_write t pend now row raw j expires id outcome t' :
      row ∈ pend -> fresh_for t id (hash_refresh_token raw) ->
      rotate_write now row raw j expires id t = (outcome, t') ->
      rt_step (t, pend) (RtWrote outcome) (t', pend)
  | step_close t pend now p :
      rt_step (t, pend) RtClosed (close_where now None p t, pend).

Inductive rt_run : RtState -> list RtLabel -> RtState -> Prop :=
  | run_nil s : rt_run s [] s
  | run_snoc s ls s1 l s2 : rt_run s ls s1 -> rt_step s1 l s2 -> rt_run s (ls ++ [l]) s2.

Definition rotated_id (l : RtLabel) : option Uuid :=
  match l with RtWrote (Rotated old _ _ _) => Some old | _ => None end.

(** ** Closing rows *)

Lemma close_where_id {B} (f : RefreshTokenRow -> B) now rep p t :
  (forall r, f (close_row now rep r) = f r) -> f <$> close_where now rep p t = f <$> t.
Proof.
  intros Hf. unfold close_where. rewrite <- list_fmap_compose. apply list_fmap_ext.
  intros _ r _. simpl. destruct (p r && is_live r); [apply Hf|done].
Qed.

Lemma elem_of_close r now rep p t :
  r ∈ close_where now rep p t ->
  exists r0, r0 ∈ t /\
    ((p r0 && is_live r0 = true /\ r = close_row now rep r0) \/ (p r0 && is_live r0 = false /\ r = r0)).
Proof.
  intros (r0 & -> & Hr0)%list_elem_of_fmap. exists r0. split; [done|].
  destruct (p r0 && is_live r0); auto.
Qed.

Lemma elem_of_close_2 r0 now rep p t :
  r0 ∈ t ->
  (if p r0 && is_live r0 then close_row now rep r0 else r0) ∈ close_where now rep p t.
Proof. intros Hr. apply list_elem_of_fmap. eauto. Qed.

Lemma close_row_dead now rep r : is_live (close_row now rep r) = false.
Proof. done. Qed.

Lemma NoDup_key {B} (f : RefreshTokenRow -> B) t r1 r2 :
  NoDup (f <$> t) -> r1 ∈ t -> r2 ∈ t -> f r1 = f r2 -> r1 = r2.
Proof.
  intros Hnd (i & Hi)%list_elem_of_lookup (j & Hj)%list_elem_of_lookup E.
  assert (i = j) as ->; [|congruence].
  eapply NoDup_lookup; [exact Hnd| |]; rewrite list_lookup_fmap; [by rewrite Hi|by rewrite Hj; simpl; rewrite E].
Qed.

Lemma closed_count_0 p t : closed_count p t = 0 <-> forall r, r ∈ t -> p r && is_live r = false.
Proof.
  unfold closed_count. split.
  - intros Hl%nil_length_inv r Hr. destruct (p r && is_live r) eqn:E; [|done].
    assert (r ∈ filter (fun r => p r && is_live r) t) as Hin by (apply list_elem_of_filter; by rewrite E).
    rewrite Hl in Hin. by apply elem_of_nil in Hin.
  - intros Hall. destruct (filter _ t) as [|r l] eqn:E; [done|].
    assert (r ∈ filter (fun r => p r && is_live r) t) as Hin by (rewrite E; left).
    apply list_elem_of_filter in Hin as [Ht Hin]. by rewrite (Hall r Hin) in Ht.
Qed.

(** ** The invariant *)

Record RtInv (t pend : list RefreshTokenRow) (gone : list Uuid) : Prop := {
  ri_ids : NoDup (rt_id <$> t);
  ri_hashes : NoDup (rt_token_hash <$> t);
  ri_live : forall r1 r2, r1 ∈ t -> r2 ∈ t -> is_live r1 = true -> is_live r2 = true ->
    rt_session_id r1 = rt_session_id r2 -> r1 = r2;
  ri_pend : forall row, row ∈ pend -> exists r, r ∈ t /\ rt_id r = rt_id row /\
    rt_session_id r = rt_session_id row /\ rt_user_id r = rt_user_id row;
  ri_gone : forall i, i ∈ gone <-> exists r, r ∈ t /\ rt_id r = i /\ rt_replaced_by r <> None;
  ri_replaced : forall r, r ∈ t -> rt_replaced_by r <> None -> is_live r = false;
  ri_nodup : NoDup gone;
}.

Lemma inv_append t pend gone row :
  RtInv t pend gone -> is_live row = true -> rt_replaced_by row = None ->
  fresh_for t (rt_id row) (rt_token_hash row) ->
  (forall r, r ∈ t -> is_live r = true -> rt_session_id r <> rt_session_id row) ->
  RtInv (t ++ [row]) pend gone.
Proof.
  intros [I1 I2 I3 I4 I5 I6 I7] Hl Hrep [Hid Hh] Hs. split.
  - rewrite fmap_app. apply NoDup_app. split; [done|]. split; [|apply NoDup_singleton].
    intros x Hx ->%list_elem_of_singleton. done.
  - rewrite fmap_app. apply NoDup_app. split; [done|]. split; [|apply NoDup_singleton].
    intros x Hx ->%list_elem_of_singleton. done.
  - intros r1 r2 [H1|H1%list_elem_of_singleton]%elem_of_app [H2|H2%list_elem_of_singleton]%elem_of_app;
      subst; intros L1 L2 E; [by apply I3|exfalso; by eapply Hs|exfalso; by eapply Hs|done].
  - intros q Hq. destruct (I4 q Hq) as (r & Hr & Hrest). exists r. split; [|done].
    apply elem_of_app. by left.
  - intros i. rewrite I5. split; intros (r & Hr & Hi & Hn); exists r; (split; [|done]).
    + apply elem_of_app. by left.
    + apply elem_of_app in Hr as [Hr|Hr%list_elem_of_singleton]; congruence.
  - intros r [Hr|Hr%list_elem_of_singleton]%elem_of_app Hn; [by apply I6|congruence].
  - done.
Qed.

(** Closing rows without a successor. *)
Lemma inv_close t pend gone now p :
  RtInv t pend gone -> RtInv (close_where now None p t) pend gone.
Proof.
  intros [I1 I2 I3 I4 I5 I6 I7]. split; [by rewrite close_where_id|by rewrite close_where_id|..]; try done.
  - intros r1 r2 (a & Ha & [[_ ->]|[_ ->]])%elem_of_close (b & Hb & [[_ ->]|[_ ->]])%elem_of_close;
      try done. by apply I3.
  - intros q Hq. destruct (I4 q Hq) as (r & Hr & Hrest). eexists. split; [by apply elem_of_close_2|].
    by destruct (p r && is_live r).
  - intros i. rewrite I5. split.
    + intros (r & Hr & Hi & Hn). eexists. split; [by apply elem_of_close_2|].
      by destruct (p r && is_live r).
    + intros (r & (a & Ha & [[_ ->]|[_ ->]])%elem_of_close & Hi & Hn); exists a; done.
  - intros r (a & Ha & [[_ ->]|[_ ->]])%elem_of_close; [done|by apply I6].
Qed.

(** Closing the one live row [r] in favour of [id]. *)
Lemma inv_replace t pend gone now id r :
  RtInv t pend gone -> r ∈ t -> is_live r = true ->
  RtInv (close_where now (Some id) (fun x => (rt_id x =? rt_id r)%N) t) pend (gone ++ [rt_id r]).
Proof.
  intros [I1 I2 I3 I4 I5 I6 I7] Hr Hl. set (p := fun x => (rt_id x =? rt_id r)%N).
  assert (Hp : forall a, a ∈ t -> p a && is_live a = true -> a = r).
  { intros a Ha [Hpa _]%andb_true_iff. apply (NoDup_key rt_id t); try done. by apply N.eqb_eq. }
  split; [by rewrite close_where_id|by rewrite close_where_id|..].
  - intros r1 r2 (a & Ha & [[_ ->]|[_ ->]])%elem_of_close (b & Hb & [[_ ->]|[_ ->]])%elem_of_close;
      try done. by apply I3.
  - intros q Hq. destruct (I4 q Hq) as (x & Hx & Hrest). eexists. split; [by apply elem_of_close_2|].
    by destruct (p x && is_live x).
  - intros i. rewrite elem_of_app, list_elem_of_singleton, I5. split.
    + intros [(x & Hx & Hi & Hn)|Hi].
      * eexists. split; [by apply elem_of_close_2|]. by destruct (p x && is_live x).
      * eexists. split; [by apply (elem_of_close_2 r)|].
        unfold p. by rewrite N.eqb_refl, Hl.
    + intros (x & (a & Ha & [[Hpa ->]|[_ ->]])%elem_of_close & Hi & Hn).
      * right. apply Hp in Hpa; [|done]. by subst.
      * left. by exists a.
  - intros x (a & Ha & [[_ ->]|[_ ->]])%elem_of_close; [done|by apply I6].
  - apply NoDup_app. split; [done|]. split; [|apply NoDup_singleton].
    intros x Hx ->%list_elem_of_singleton. apply I5 in Hx as (y & Hy & Ey & Hn).
    apply (NoDup_key rt_id t) in Ey; [|done..]. subst. rewrite I6 in Hl; done.
Qed.

Lemma rotate_write_cases t pend gone now row raw j expires id outcome t' :
  RtInv t pend gone -> row ∈ pend -> fresh_for t id (hash_refresh_token raw) ->
  rotate_write now row raw j expires id t = (outcome, t') ->
  (outcome = ReplayDetected (rt_user_id row) /\ t' = t) \/
  exists r succ, r ∈ t /\ is_live r = true /\ rt_id r = rt_id row /\
    outcome = Rotated (rt_id r) id (rt_user_id r) (rt_workspace_id row) /\
    rt_id succ = id /\ rt_token_hash succ = hash_refresh_token raw /\
    rt_session_id succ = rt_session_id r /\ is_live succ = true /\ rt_replaced_by succ = None /\
    t' = close_where now (Some id) (fun x => (rt_id x =? rt_id r)%N) t ++ [succ].
Proof.
  intros I Hrow [Hid Hh]. unfold rotate_write.
  destruct (ri_pend _ _ _ I row Hrow) as (r & Hr & Eid & Es & Eu).
  assert (Hne : id <> rt_id row).
  { intros ->. apply Hid. rewrite <- Eid. by apply list_elem_of_fmap_2. }
  match goal with |- context [t ++ [?x]] => set (succ := x) end.
  assert (Hsucc : (rt_id succ =? rt_id row)%N = false) by by apply N.eqb_neq.
  destruct (closed_count _ _ =? 0)%nat eqn:Hc.
  - intros [= <- <-]. by left.
  - intros [= <- <-]. right. exists r, succ.
    assert (Hl : is_live r = true).
    { apply Nat.eqb_neq in Hc. destruct (is_live r) eqn:El; [done|]. destruct Hc.
      apply closed_count_0. intros x [Hx|Hx%list_elem_of_singleton]%elem_of_app.
      - destruct (rt_id x =? rt_id row)%N eqn:Ex; [|done]. apply N.eqb_eq in Ex.
        assert (x = r) as -> by (eapply (NoDup_key rt_id); [apply I|done..|congruence]). done.
      - subst x. by rewrite Hsucc. }
    rewrite Eid, Eu, Es. do 9 (split; [done|]).
    unfold close_where. rewrite fmap_app. simpl. simpl in Hsucc. by rewrite Hsucc.
Qed.

Lemma inv_step t pend gone l s' :
  RtInv t pend gone -> rt_step (t, pend) l s' ->
  RtInv s'.1 s'.2 (gone ++ match rotated_id l with Some i => [i] | None => [] end).
Proof.
  intros I Hstep. inversion Hstep as
    [t0 p0 row Hl Hrep Hf Hs|t0 p0 now hash row Hp|t0 p0 now row raw j expires id outcome t' Hrow Hf Hw|];
    subst; simpl; rewrite ?app_nil_r.
  - apply inv_append; try done. intros r Hr _ E. apply Hs. rewrite <- E. by apply list_elem_of_fmap_2.
  - destruct I as [I1 I2 I3 I4 I5 I6 I7]. split; try done.
    intros q [->|Hq]%elem_of_cons; [|by apply I4].
    exists row. split; [|done]. unfold rotate_probe in *.
    destruct (find_hash hash t) as [x|] eqn:E; [|done].
    destruct (is_live x); simpl in *; [|done]. destruct (_ <=? _)%Z; [done|]. simplify_eq.
    apply find_some in E as [E _]. by apply list_elem_of_In.
  - destruct (rotate_write_cases _ _ _ _ _ _ _ _ _ _ _ I Hrow Hf Hw) as
      [[-> ->]|(r & succ & Hr & Hl & Ei & -> & Esi & Esh & Ess & Esl & Esr & ->)]; simpl.
    + by rewrite app_nil_r.
    + pose proof (inv_replace _ _ _ now id r I Hr Hl) as I'.
      apply inv_append; try done.
      * rewrite Esi, Esh. destruct Hf as [F1 F2]. split; by rewrite close_where_id.
      * intros x (a & Ha & [[_ ->]|[Hpa ->]])%elem_of_close Hxl Exs; [done|].
        rewrite Ess in Exs.
        assert (a = r) as -> by (by apply (ri_live _ _ _ I)).
        by rewrite N.eqb_refl, Hl in Hpa.
  - by apply inv_close.
Qed.

Lemma inv_run ls t pend :
  rt_run ([], []) ls (t, pend) -> RtInv t pend (omap rotated_id ls).
Proof.
  remember ([], []) as s0 eqn:E0. remember (t, pend) as s eqn:Es. intros Hrun. revert t pend Es.
  induction Hrun as [s|s ls [t1 p1] l s2 Hrun IH Hstep]; intros t pend ->.
  - simplify_eq. split; try constructor; try (intros; by match goal with Hx : _ ∈ [] |- _ =>
      apply elem_of_nil in Hx end); [by intros ?%elem_of_nil|intros (r & Hr & _); by apply elem_of_nil in Hr].
  - specialize (IH E0 t1 p1 eq_refl). apply (inv_step _ _ _ _ _ IH) in Hstep.
    rewrite omap_app. simpl. by destruct (rotated_id l).
Qed.
End rotation.

(** ** The promises *)

Lemma find_hash_unique t r :
  NoDup (rt_token_hash <$> t) -> r ∈ t -> find_hash (rt_token_hash r) t = Some r.
Proof.
  intros Hnd Hr. unfold find_hash. destruct (List.find _ t) as [x|] eqn:E.
  - apply find_some in E as [Hx Ex]. apply bool_decide_eq_true in Ex. f_equal.
    apply (NoDup_key rt_token_hash t); try done. by apply list_elem_of_In.
  - apply list_elem_of_In, (find_none _ _ E) in Hr. by rewrite bool_decide_true in Hr.
Qed.

(** C13: Whatever the interleaving of logins, refreshes (each a read of the
    presented token's row and a later write) and closures: a session has at
    most one live refresh token; no token is exchanged twice; and of a token
    that is presented afresh after the run and is no longer live, the read
    recognises a replay when it was exchanged, and refuses it without that
    accusation when it was closed.  Within the interleaving a closure that
    lands between a refresh's own read and write is still taken for a replay
    ([narrow_close_race]). *)
Theorem rotation_linear `{AuthEnv} ls t pend :
  rt_run ([], []) ls (t, pend) ->
  (forall r1 r2, r1 ∈ t -> r2 ∈ t -> is_live r1 = true -> is_live r2 = true ->
     rt_session_id r1 = rt_session_id r2 -> r1 = r2) /\
  NoDup (omap rotated_id ls) /\
  (forall r now, r ∈ t -> is_live r = false ->
     rotate_probe now (find_hash (rt_token_hash r) t) =
       inl (if bool_decide (rt_id r ∈ omap rotated_id ls)
            then ReplayDetected (rt_user_id r) else RotRevoked)).
Proof.
  intros I%inv_run. split; [apply I|]. split; [apply I|].
  intros r now Hr Hl. rewrite find_hash_unique by (done || apply I). simpl. rewrite Hl. simpl.
  do 2 f_equal. case_bool_decide as Hg.
  - apply (ri_gone _ _ _ I) in Hg as (x & Hx & Ex & Hn).
    apply (NoDup_key rt_id t) in Ex; [subst x|apply I|done..]. by destruct (rt_replaced_by r).
  - destruct (rt_replaced_by r) eqn:E; [|done]. destruct Hg.
    apply (ri_gone _ _ _ I). exists r. by rewrite E.
Qed.

Lemma close_user_all now u t r :
  r ∈ close_where now None (of_user u) t -> rt_user_id r = u -> is_live r = false.
Proof.
  intros (a & Ha & [[_ ->]|[Hp ->]])%elem_of_close Hu; [done|].
  apply andb_false_iff in Hp as [Hp|Hp]; [|done].
  unfold of_user in Hp. by rewrite Hu, N.eqb_refl in Hp.
Qed.

Lemma close_others now rep u t :
  filter (fun x => rt_user_id x <> u) (close_where now rep (of_user u) t) =
  filter (fun x => rt_user_id x <> u) t.
Proof.
  induction t as [|x t IH]; [done|]. unfold close_where in *. rewrite fmap_cons.
  unfold of_user at 1. destruct (N.eqb_spec (rt_user_id x) u) as [Ex|Ex]; simpl.
  - rewrite !filter_cons_False; [exact IH|by intros Hn|]. destruct (is_live x); by intros Hn.
  - rewrite !filter_cons_True by done. by rewrite IH.
Qed.

(** A replayed refresh token ends everything: the handler answers the
    generic 401, issues nothing, and leaves the user without a live refresh
    token on any device; other users' rows are untouched. *)
Theorem replay_ends_sessions `{AuthEnv} (cfg : JwtConfig) m d presented w r :
  (forall n, w_db_faults w n = None) ->
  (exists t, add_seconds (mo_now m) (i64_wrap (Z.of_N (refresh_ttl_secs cfg))) = Some t) ->
  find_hash (hash_refresh_token presented) (w_refresh w) = Some r ->
  is_live r = false -> rt_replaced_by r <> None ->
  w_users w !! rt_user_id r <> None ->
  let '(answer, w') := refresh cfg m d presented w in
  answer = Err invalid_credentials /\
  (forall x, x ∈ w_refresh w' -> rt_user_id x = rt_user_id r -> is_live x = false) /\
  filter (fun x => rt_user_id x <> rt_user_id r) (w_refresh w') =
    filter (fun x => rt_user_id x <> rt_user_id r) (w_refresh w).
Proof.
  intros Hdb [e He] Hf Hl Hrep Hu. unfold refresh, rotate, revoke_all_for_user, expiry, attempt.
  unfold mbind, Sess_bind, lift_r, db_io. rewrite He. simpl. rewrite !Hdb. simpl. rewrite Hf.
  unfold rotate_probe. rewrite Hl. simpl. destruct (rt_replaced_by r); [|done]. simpl.
  rewrite ?Hdb. simpl. destruct (w_users w !! rt_user_id r) eqn:E; [|done]. rewrite ?Hdb. simpl. rewrite ?Hdb. simpl.
  split; [done|]. split; [intros x Hx; by eapply close_user_all|].
  apply close_others.
Qed.

(** A closure that lands between a refresh's read and its write is taken for
    a replay: the row no longer matches, and why it was closed is not asked. *)
Lemma narrow_close_race `{AuthEnv} t pend gone now now' row raw j expires id p r :
  RtInv t pend gone -> row ∈ pend -> r ∈ t -> rt_id r = rt_id row -> p r = true ->
  fresh_for t id (hash_refresh_token raw) ->
  let closed := close_where now None p t in
  rotate_write now' row raw j expires id closed = (ReplayDetected (rt_user_id row), closed).
Proof.
  intros I Hrow Hr Eid Hp Hf closed.
  destruct (rotate_write now' row raw j expires id closed) as [o t'] eqn:E.
  assert (Hf' : fresh_for closed id (hash_refresh_token raw)).
  { destruct Hf. split; unfold closed; by rewrite close_where_id. }
  destruct (rotate_write_cases _ _ _ _ _ _ _ _ _ _ _ (inv_close _ _ _ now p I) Hrow Hf' E)
    as [[-> ->]|(x & succ & Hx & Hl & Ex & _)]; [done|].
  apply elem_of_close in Hx as (a & Ha & [[_ ->]|[Hpa ->]]); [done|].
  assert (a = r) as -> by (eapply (NoDup_key rt_id); [apply I|done..|congruence]).
  by rewrite Hp, Hl in Hpa.
Qed.
