(* ===== verification/TwoFactorSpec.v ===== *)
(** * What the second factor promises

    A challenge is cleared only by a code of a step not used before, within one
    step of the present, or by an unused backup code, which is spent; it is
    recorded before the session is issued; and a locked account answers 429
    without looking at the code.  And a gap: [record_totp_success] stores the
    current step for a backup code even when a later one was already used. *)

From S2P Require Import Prelude Rstr Json Types Providers Roles Limits AdminAudit ApiKeys.
From S2P Require Import Sessions Login TwoFactor SessionsSpec.

(** ** Codes *)

Lemma scan_steps_hit checks code last pre step post :
  Forall (fun s => checks code (s * 30)%N = false) pre -> checks code (step * 30)%N = true ->
  scan_steps checks code last (pre ++ step :: post) =
    match last with
    | Some l => if (step <=? l)%N then Err Replayed else Ok step
    | None => Ok step
    end.
Proof.
  induction 1 as [|s pre Hs _ IH]; intros Hc; simpl; unfold STEP_SECONDS; [by rewrite Hc|].
  rewrite Hs. by apply IH.
Qed.

Lemma scan_steps_ok checks code last steps step :
  scan_steps checks code last steps = Ok step ->
  exists pre post, steps = pre ++ step :: post /\
    Forall (fun s => checks code (s * 30)%N = false) pre /\ checks code (step * 30)%N = true /\
    forall l, last = Some l -> (l < step)%N.
Proof.
  induction steps as [|s steps IH]; simpl; [done|]. unfold STEP_SECONDS.
  destruct (checks code (s * 30)%N) eqn:E.
  - intros Hs. assert (s = step /\ forall l, last = Some l -> (l < step)%N) as [-> Hl].
    { destruct last as [l|]; [|by injection Hs as ->]. destruct (N.leb_spec s l); [done|].
      injection Hs as ->. split; [done|]. by intros ? [= ->]. }
    exists [], steps. by repeat split.
  - intros (pre & post & -> & Hp & ?)%IH. exists (s :: pre), post. by split; [|split; [constructor|]].
Qed.

(** A code is accepted for a step exactly when the secret gives it at that
    step, the first of the window to do so; the window is one step either
    side of the present, and the step is later than the last one used. *)
Lemma verify_code_exact `{TotpEnv} secret code last now step :
  verify_code secret code last now = Ok step <->
  exists checks, build_totp secret = Some checks /\ checks code (step * 30)%N = true /\
    (now / 30 <= step + 1 /\ step <= now / 30 + 1)%N /\
    (forall s, (now / 30 <= s + 1)%N -> (s < step)%N -> checks code (s * 30)%N = false) /\
    (forall l, last = Some l -> (l < step)%N).
Proof.
  unfold verify_code, STEP_SECONDS. set (n := (now / 30)%N).
  destruct (build_totp secret) as [checks|]; [|split; [done|by intros (? & ? & _)]].
  assert (forall s, (n <= s + 1)%N -> (s <= n + 1)%N -> s = saturating_sub n 1 \/ s = n \/ s = (n + 1)%N) as Hcases.
  { unfold saturating_sub. lia. }
  assert (saturating_sub n 1 <= n)%N as Hle by (unfold saturating_sub; lia). split.
  - intros (pre & post & Heq & Hp & Hc & Hl)%scan_steps_ok. exists checks. split; [done|]. split; [done|].
    split; [|split; [|done]].
    + assert (step ∈ [saturating_sub n 1; n; (n + 1)%N]) as Hin by (rewrite Heq; set_solver).
      unfold saturating_sub in Hin. set_unfold. lia.
    + rewrite Forall_forall in Hp. intros s Hs Hlt. apply Hp.
      destruct pre as [|a [|b [|c pre]]]; simplify_eq/=.
      * unfold saturating_sub in *. lia.
      * destruct (Hcases s); [done|lia|subst; by left|lia].
      * destruct (Hcases s) as [->|[->|]]; [done|lia|by left|right; by left|lia].
      * by destruct pre.
  - intros (checks' & [= <-] & Hc & [H1 H2] & Hfirst & Hl).
    assert (exists pre post, [saturating_sub n 1; n; (n + 1)%N] = pre ++ step :: post /\
      Forall (fun s => (n <= s + 1)%N /\ (s < step)%N) pre) as (pre & post & -> & Hp).
    { destruct (N.eq_dec step (saturating_sub n 1)) as [->|Hne]; [by exists [], [n; (n + 1)%N]|].
      assert (n <= saturating_sub n 1 + 1 /\ saturating_sub n 1 < step)%N as Ha
        by (unfold saturating_sub in *; lia).
      destruct (Hcases step H1 H2) as [->|[->| ->]]; [done| |].
      - exists [saturating_sub n 1], [(n + 1)%N]. split; [done|]. by apply Forall_singleton.
      - exists [saturating_sub n 1; n], []. split; [done|].
        apply Forall_cons. split; [split; [apply Ha|lia]|]. apply Forall_singleton. lia. }
    rewrite scan_steps_hit; [|eapply Forall_impl; [exact Hp|]; intros s [? ?]; by apply Hfirst|done].
    destruct last as [l|]; [|done]. by rewrite (proj2 (N.leb_gt _ _)) by (by apply Hl).
Qed.

(** *** Backup codes: what is shown is what is hashed *)

Lemma strip_app a b :
  strip_backup_code_format (a ++ b) = strip_backup_code_format a ++ strip_backup_code_format b.
Proof. apply filter_app. Qed.

Lemma strip_none s : Forall (fun c => c <> "-"%char) s -> strip_backup_code_format s = s.
Proof. induction 1; [done|]. unfold strip_backup_code_format in *. rewrite filter_cons_True; congruence. Qed.

Lemma strip_format raw :
  Forall (fun c => c <> "-"%char) raw -> strip_backup_code_format (format_backup_code raw) = raw.
Proof.
  intros Hr. unfold format_backup_code. rewrite !strip_app.
  rewrite <- (take_drop (length raw / 2) raw) in Hr. apply Forall_app in Hr as [H1 H2].
  rewrite (strip_none _ H1), (strip_none _ H2). simpl. apply take_drop.
Qed.

Lemma backup_letter_plain b : backup_letter b <> "-"%char.
Proof. destruct b as [[] [] [] [] [] [] [] []]; vm_compute; discriminate. Qed.

Lemma raw_plain bytes : Forall (fun c => c <> "-"%char) (random_backup_code_raw bytes).
Proof. apply Forall_fmap, Forall_true. intros b. apply backup_letter_plain. Qed.

(** A code as the user is shown it, typed with or without its dash, is checked
    against the letters that were hashed. *)
Lemma backup_code_presented bytes :
  strip_backup_code_format (format_backup_code (random_backup_code_raw bytes)) =
    strip_backup_code_format (random_backup_code_raw bytes).
Proof. rewrite strip_format by apply raw_plain. symmetry. apply strip_none, raw_plain. Qed.

(** ** The handlers' steps *)

Abbreviation data4 w := (w_users w, w_backup w, w_refresh w, w_audit w).

Lemma db_io_ok w u w' : db_io w = (Ok u, w') -> data4 w' = data4 w.
Proof. unfold db_io. destruct (w_db_faults w 0); [done|]. by intros [= _ <-]. Qed.

(** Read a successful run from left to right. *)
Ltac unbind Hx :=
  repeat match type of Hx with
  | (_ ≫= _) _ = (Ok _, _) =>
    let w := fresh "w" in let Hs := fresh "Hs" in let a := fresh "a" in
    apply bind_ok in Hx as (a & w & Hs & Hx)
  end.

Section second_factor.
Context `{AuthEnv} `{TotpEnv} (cfg : JwtConfig).

Lemma the_user_ok user w u w' :
  the_user user w = (Ok u, w') -> w_users w !! user = Some u /\ data4 w' = data4 w.
Proof.
  unfold the_user, find_by_id. intros Hx. apply bind_ok in Hx as (o & w1 & Hs & Hx).
  apply bind_ok in Hs as ([] & w2 & Hd & Hg). apply db_io_ok in Hd.
  injection Hg as <- <-. destruct (w_users w2 !! user) eqn:E; [|done].
  injection Hx as <- <-. split; [congruence|done].
Qed.

Definition locked_at (now : DateTime) (u : UserRow) : Prop :=
  exists until, us_totp_locked_until u = Some until /\ (now < until)%Z.

Lemma check_lock_ok show_time m u w a w' :
  check_lock show_time m u w = (Ok a, w') -> ~ locked_at (mo_now m) u /\ w' = w.
Proof.
  unfold check_lock, locked_at. destruct (us_totp_locked_until u) as [t|]; [|intros [= _ <-]; naive_solver].
  destruct (Z.ltb_spec (mo_now m) t); [done|]. intros [= _ <-]. split; [|done].
  intros (? & [= <-] & ?). lia.
Qed.

Lemma limit_ok m k w r w' : attempt (limit m k) w = (r, w') -> data4 w' = data4 w.
Proof. unfold attempt, limit. destruct (check _ _ _). by intros [= _ <-]. Qed.

(** *** Claiming a backup code *)

Definition spent (m : Moment) (user : Uuid) (plain : str) (w w' : World) : Prop :=
  exists b, b ∈ w_backup w /\ bc_user_id b = user /\ bc_used_at b = None /\
    verify_password (bc_code_hash b) plain = true /\
    data4 w' = (w_users w, use_code (mo_now m) (bc_id b) (w_backup w), w_refresh w, w_audit w).

Lemma claim_code_ok m user plain l w ok w' :
  Forall (fun b => b ∈ w_backup w /\ bc_user_id b = user /\ bc_used_at b = None) l ->
  claim_code m plain l w = (Ok ok, w') ->
  if ok then spent m user plain w w' else data4 w' = data4 w.
Proof.
  intros Hl. revert w Hl. induction l as [|b l IH]; intros w Hl Hx; [by injection Hx as <- <-|].
  apply Forall_cons_1 in Hl as [Hb Hl]. simpl in Hx.
  destruct (verify_password (bc_code_hash b) plain) eqn:Hv; simpl in Hx; [|by apply IH].
  apply bind_ok in Hx as ([] & w1 & Hd & Hx). apply db_io_ok in Hd.
  apply bind_ok in Hx as (l' & w2 & Hg & Hx). injection Hg as <- <-.
  destruct (existsb _ (w_backup w1)).
  - apply bind_ok in Hx as ([] & w3 & Hm & Hx). injection Hm as <-. injection Hx as <- <-.
    exists b. simpl. split; [apply Hb|]. split; [apply Hb|]. split; [apply Hb|]. split; [done|]. congruence.
  - apply IH in Hx; [|by replace (w_backup w1) with (w_backup w) by congruence].
    destruct ok; [|congruence]. destruct Hx as (b' & ? & ? & ? & ? & ?).
    exists b'. split; [congruence|]. split; [done|]. split; [done|]. split; [done|]. congruence.
Qed.

Lemma consume_ok m user plain w ok w' :
  consume_backup_code m user plain w = (Ok ok, w') ->
  if ok then spent m user plain w w' else data4 w' = data4 w.
Proof.
  unfold consume_backup_code. intros Hx.
  apply bind_ok in Hx as ([] & w1 & Hd & Hx). apply db_io_ok in Hd.
  apply bind_ok in Hx as (l & w2 & Hg & Hx). injection Hg as <- <-.
  apply (claim_code_ok m user) in Hx.
  - destruct ok; [|congruence]. destruct Hx as (b' & ? & ? & ? & ? & ?).
    exists b'. split; [congruence|]. split; [done|]. split; [done|]. split; [done|]. congruence.
  - apply Forall_forall. intros b [[? ?] ?]%list_elem_of_filter. done.
Qed.

(** What clears the gate, with the step that is recorded: a TOTP code that the
    account's decrypted secret gives at the start of a step, the first such
    step of those at most one away from the present, and later than the last
    recorded; or an unused backup code. *)
Inductive cleared (m : Moment) (user : Uuid) (u : UserRow) (code : str) (w w' : World) : Z -> str -> Prop :=
  | cleared_totp ciphertext secret checks step :
      us_totp_secret u = Some ciphertext -> kms_decrypt ciphertext = Some secret ->
      build_totp secret = Some checks -> checks code (step * 30)%N = true ->
      (unix_now m / 30 <= step + 1 /\ step <= unix_now m / 30 + 1)%N ->
      (forall s, (unix_now m / 30 <= s + 1)%N -> (s < step)%N -> checks code (s * 30)%N = false) ->
      (forall last, us_totp_last_timestep u = Some last -> (last < Z.of_N step)%Z) ->
      data4 w' = data4 w ->
      cleared m user u code w w' (step_i64 step) $"totp"
  | cleared_backup :
      spent m user (strip_backup_code_format code) w w' ->
      cleared m user u code w w' (step_i64 (unix_now m / 30)) $"backup_code".

Lemma matched_cleared m user u code w secret step :
  decrypt_secret u = Some secret ->
  verify_code secret code (last_step u) (unix_now m) = Ok step ->
  cleared m user u code w w (step_i64 step) $"totp".
Proof.
  unfold decrypt_secret. intros (ct & Hct & (pt & Hpt & Hs)%bind_Some)%bind_Some Hv.
  destruct (utf8_valid pt); [|done]. injection Hs as ->.
  apply verify_code_exact in Hv as (checks & Hb & Hc & Hw & Hf & Hl).
  apply (cleared_totp _ _ _ _ _ _ ct secret checks step); try done.
  intros last Hlast. specialize (Hl (Z.to_N last)). unfold last_step in Hl. rewrite Hlast in Hl.
  specialize (Hl eq_refl). lia.
Qed.

Lemma second_factor_ok m user u code w r w' :
  second_factor m user u code w = (Ok r, w') ->
  match r with
  | Some (step, how) => cleared m user u code w w' step how
  | None => data4 w' = data4 w
  end.
Proof.
  unfold second_factor, verify_totp_step. destruct (decrypt_secret u) as [secret|] eqn:Hd; [|done].
  destruct (verify_code secret code (last_step u) (unix_now m)) as [step| |] eqn:Hv;
    [intros [= <- <-]; by eapply matched_cleared|..]; intros Hx;
    apply bind_ok in Hx as (ok & w1 & Hc & Hx); injection Hx as <- <-; apply consume_ok in Hc;
    (destruct ok; [by constructor|done]).
Qed.

Lemma record_success_ok user step w a w' :
  record_totp_success user step w = (Ok a, w') ->
  exists u, w_users w !! user = Some u /\
    data4 w' = (<[user := with_totp u (us_totp_secret u) (us_totp_confirmed_at u) (Some step) 0 None]>
                  (w_users w), w_backup w, w_refresh w, w_audit w).
Proof.
  unfold record_totp_success, update_user. intros Hx.
  apply bind_ok in Hx as ([] & w1 & Hd & Hx). apply db_io_ok in Hd.
  apply bind_ok in Hx as (o & w2 & Hg & Hx). injection Hg as <- <-.
  destruct (w_users w1 !! user) as [u|] eqn:E; [|done]. injection Hx as <- <-.
  exists u. split; simpl; congruence.
Qed.

Lemma self_actor_ok user ws email w p w' :
  self_actor user ws email w = (Ok p, w') ->
  data4 w' = data4 w /\ aa_user_id p.1 = Some user.
Proof.
  unfold self_actor. intros Hx.
  apply bind_ok in Hx as ([] & w1 & Hd & Hx). apply db_io_ok in Hd.
  apply bind_ok in Hx as (o & w2 & Hg & Hx). injection Hg as <- <-.
  destruct (us_role <$> _); [|done]. by injection Hx as <- <-.
Qed.

Lemma write_own_ok actor e w a w' :
  write_own_audit actor e w = (Ok a, w') ->
  data4 w' = (w_users w, w_backup w, w_refresh w, audit_write actor e (w_audit w)).
Proof.
  unfold write_own_audit. intros Hx.
  apply bind_ok in Hx as ([] & w1 & Hd & Hx). apply db_io_ok in Hd.
  injection Hx as <- <-. simpl. congruence.
Qed.

Lemma build_ok m d user ws role email dev w body w' :
  build_token_pair_body cfg m d user ws role email dev w = (Ok body, w') ->
  tr_user_id body = user /\ tr_workspace_id body = ws /\
  (exists row, data4 w' = (w_users w, w_backup w, w_refresh w ++ [row], w_audit w) /\
     rt_user_id row = user /\ rt_token_hash row = hash_refresh_token (tr_refresh_token body) /\
     is_live row = true) /\
  exists c, jwt_encode c = Some (tr_access_token body) /\ sub c = user /\ cl_ws c = ws /\
    purpose c = None /\ iat c = timestamp (mo_now m).
Proof.
  unfold build_token_pair_body. intros Hx.
  apply bind_ok in Hx as (e1 & w1 & He1 & Hx). unfold expiry, lift_r in He1. injection He1 as _ <-.
  apply bind_ok in Hx as (e2 & w2 & He2 & Hx). unfold expiry, lift_r in He2. injection He2 as _ <-.
  apply bind_ok in Hx as (tok & w3 & He3 & Hx). unfold encode_access, lift_r in He3.
  injection He3 as Htok <-.
  apply bind_ok in Hx as (id & w4 & Hi & Hx). injection Hx as <- <-.
  unfold rt_insert in Hi. apply bind_ok in Hi as ([] & w5 & Hd & Hi). apply db_io_ok in Hd.
  apply bind_ok in Hi as ([] & w6 & Hm & Hi). injection Hm as <-. injection Hi as _ <-.
  split; [done|]. split; [done|]. split.
  - injection Hd as E1 E2 E3 E4. eexists. simpl. rewrite E1, E2, E3, E4. split; [reflexivity|done].
  - destruct (jwt_encode _) as [t|] eqn:E; [|done]. injection Htok as <-. by eexists.
Qed.
End second_factor.

Lemma challenge_run `{AuthEnv} `{TotpEnv} (cfg : JwtConfig) show_time m d h x dev code w body w' :
  challenge cfg show_time m d h x dev code w = (Ok body, w') ->
  exists c u step how w1 actor entry row u1,
    decode_bearer_claims m h = Ok c /\ purpose c = Some $"2fa_challenge" /\
    w_users w !! sub c = Some u /\ ~ locked_at (mo_now m) u /\
    cleared m (sub c) u code w w1 step how /\
    u1 = with_totp u (us_totp_secret u) (us_totp_confirmed_at u) (Some step) 0 None /\
    data4 w' = (<[sub c := u1]> (w_users w), w_backup w1, w_refresh w ++ [row],
                audit_write actor entry (w_audit w)) /\
    ae_action entry = SecondFactorVerified /\ aa_user_id actor = Some (sub c) /\
    rt_user_id row = sub c /\ tr_user_id body = sub c /\ tr_workspace_id body = cl_ws c.
Proof.
  unfold challenge, accept_challenge. intros Hx.
  apply bind_ok in Hx as ([user ws] & wa & Ha & Hx).
  apply bind_ok in Ha as (c & wb & Hc & Ha). unfold lift_r in Hc. injection Hc as Hc <-.
  destruct (challenge_purpose_ok (purpose c)) eqn:Hp; [|done]. injection Ha as <- <- <-.
  apply bool_decide_eq_true in Hp.
  apply bind_ok in Hx as (u & w1 & [Hu E1]%the_user_ok & Hx).
  apply bind_ok in Hx as (? & w2 & [Hl ->]%check_lock_ok & Hx).
  apply bind_ok in Hx as (r & w3 & E3%limit_ok & Hx).
  destruct r as [[]| |]; [|done..].
  apply bind_ok in Hx as (f & w4 & Hf%second_factor_ok & Hx).
  destruct f as [[step how]|]; [|by apply bind_ok in Hx as (? & ? & ? & Hx)].
  apply bind_ok in Hx as (? & w5 & (u0 & Hu0 & E5)%record_success_ok & Hx).
  apply bind_ok in Hx as ([actor role] & w6 & [E6 Hact]%self_actor_ok & Hx).
  apply bind_ok in Hx as (? & w7 & E7%write_own_ok & Hx).
  apply build_ok in Hx as (Hb1 & Hb2 & (row & E8 & Hrow & _) & _).
  assert (Hclr : cleared m (sub c) u code w w4 step how).
  { inversion Hf as [ct secret checks st Hct Hk Hb Hv Hwin Hfst Hlast Hw|Hsp]; subst.
    - econstructor; [done..|congruence].
    - constructor. destruct Hsp as (b & ? & ? & ? & ? & Hb). exists b.
      split; [congruence|]. do 3 (split; [done|]). congruence. }
  assert (E4 : (w_users w4, w_refresh w4, w_audit w4) = (w_users w, w_refresh w, w_audit w)).
  { inversion Hclr as [? ? ? ? ? ? ? ? ? ? ? Hw|(? & ? & ? & ? & ? & Hw)]; congruence. }
  assert (u0 = u) as -> by congruence.
  eexists c, u, step, how, w4, actor, _, row, _. split; [done|]. split; [done|]. split; [done|].
  split; [done|]. split; [done|]. split; [reflexivity|].
  injection E4 as F1 F2 F3. injection E5 as G1 G2 G3 G4. injection E6 as I1 I2 I3 I4.
  injection E7 as J1 J2 J3 J4. injection E8 as K1 K2 K3 K4.
  split; [rewrite K1, K2, K3, K4, J1, J2, J3, J4, I1, I2, I3, I4, G1, G2, G3, G4, F1, F2, F3; reflexivity|].
  by repeat split.
Qed.

(** C16: A challenge that issues a session was presented with a challenge token,
    for an account that is not locked, and cleared in one of two ways: the
    code is the one the account's stored secret gives at the start of a time
    step at most one away from the present, the first such step to give it,
    and later than the last step recorded for the account; or it is an unused
    backup code of that user, which is spent.  The cleared step (for a backup
    code, the present one) is recorded, the failure counter and the lock are
    reset, the success is in the administrative audit trail, and exactly one
    refresh row, of that user, is added. *)
Theorem challenge_exact `{AuthEnv} `{TotpEnv} (cfg : JwtConfig) show_time m d h x dev code w body w' :
  challenge cfg show_time m d h x dev code w = (Ok body, w') ->
  exists c u step how w1 actor entry row u1,
    decode_bearer_claims m h = Ok c /\ purpose c = Some $"2fa_challenge" /\
    w_users w !! sub c = Some u /\ ~ locked_at (mo_now m) u /\
    cleared m (sub c) u code w w1 step how /\
    u1 = with_totp u (us_totp_secret u) (us_totp_confirmed_at u) (Some step) 0 None /\
    data4 w' = (<[sub c := u1]> (w_users w), w_backup w1, w_refresh w ++ [row],
                audit_write actor entry (w_audit w)) /\
    ae_action entry = SecondFactorVerified /\ aa_user_id actor = Some (sub c) /\
    rt_user_id row = sub c /\ tr_user_id body = sub c /\ tr_workspace_id body = cl_ws c.
Proof. apply challenge_run. Qed.

(** ** Lockout *)

Definition calm (w : World) : Prop := forall n, w_db_faults w n = None.

Lemma db_io_calm w : calm w -> db_io w = (Ok tt, set_db_faults (fun n => w_db_faults w (S n)) w).
Proof. intros Hc. unfold db_io. by rewrite Hc. Qed.

Section lockout.
Context `{AuthEnv} `{TotpEnv} (cfg : JwtConfig) (show_time : DateTime -> str).

(** A refused code is counted, and the fifth locks the account for 900 s. *)
Lemma reject_code_counts {A} m user u w :
  calm w -> w_users w !! user = Some u ->
  exists w', @reject_code m user A w = (Err invalid_credentials, w') /\
    w_users w' !! user = Some (with_totp u (us_totp_secret u) (us_totp_confirmed_at u)
      (us_totp_last_timestep u) (us_totp_failed_attempts u + 1)
      (if (LOCK_THRESHOLD <=? us_totp_failed_attempts u + 1)%Z
       then Some (mo_now m + LOCK_SECS * 10 ^ 6)%Z else us_totp_locked_until u)).
Proof.
  intros Hc Hu. unfold reject_code, record_totp_failure, update_user, attempt, mbind, Sess_bind.
  rewrite db_io_calm by done. simpl. rewrite Hu. eexists. split; [reflexivity|].
  simpl. by rewrite lookup_insert_eq.
Qed.

Lemma the_user_calm user w u :
  calm w -> w_users w !! user = Some u ->
  the_user user w = (Ok u, set_db_faults (fun n => w_db_faults w (S n)) w).
Proof.
  intros Hc Hu. unfold the_user, find_by_id, mbind, Sess_bind. rewrite db_io_calm by done.
  simpl. by rewrite Hu.
Qed.

Definition lock_message (until : DateTime) : ApiError :=
  TooManyRequests ($"too many attempts, locked until " ++ show_time until).

Lemma check_lock_locked m u until w :
  us_totp_locked_until u = Some until -> (mo_now m < until)%Z ->
  check_lock show_time m u w = (Err (lock_message until), w).
Proof. intros Hu Ht. unfold check_lock. by rewrite Hu, (proj2 (Z.ltb_lt _ _) Ht). Qed.

Lemma accept_enroll_data m h w r w' :
  accept_enroll_or_access m h w = (r, w') ->
  data4 w' = data4 w /\ w_db_faults w' = w_db_faults w /\
  match r with
  | Ok (user, ws) => exists c, decode_bearer_claims m h = Ok c /\ sub c = user
  | _ => True
  end.
Proof.
  unfold accept_enroll_or_access, mbind, Sess_bind, lift_r.
  destruct (decode_bearer_claims m h) as [c| |]; [|by intros [= <- <-]..].
  destruct (classify_bearer_purpose (purpose c)); [|..|by intros [= <- <-]].
  - intros [= <- <-]. split; [done|]. split; [done|]. by exists c.
  - unfold attempt, jti_is_blacklisted, mbind, Sess_bind, redis_io.
    destruct (w_redis_faults w 0); simpl; [by intros [= <- <-]|].
    destruct (jti_blacklisted_at _ _ _); intros [= <- <-]; [done|]. simpl.
    split; [done|]. split; [done|]. by exists c.
Qed.

Section locked.
Context (m : Moment) (user : Uuid) (u : UserRow) (until : DateTime) (w : World).
Context (Hc : calm w) (Hu : w_users w !! user = Some u).
Context (Hl : us_totp_locked_until u = Some until) (Ht : (mo_now m < until)%Z).

Lemma challenge_locked d h x dev code c :
  decode_bearer_claims m h = Ok c -> purpose c = Some $"2fa_challenge" -> sub c = user ->
  (challenge cfg show_time m d h x dev code w).1 = Err (lock_message until) /\
  data4 (challenge cfg show_time m d h x dev code w).2 = data4 w.
Proof.
  intros Hd Hp <-. unfold challenge, accept_challenge, mbind, Sess_bind, lift_r. rewrite Hd, Hp.
  cbn [challenge_purpose_ok]. unfold challenge_purpose_ok. rewrite bool_decide_true by done.
  unfold mret, Sess_ret. rewrite (the_user_calm _ _ u) by done.
  by rewrite (check_lock_locked _ _ until).
Qed.

Lemma disable_locked ctx code :
  jc_user_id ctx = user -> us_totp_confirmed_at u <> None ->
  (disable show_time m ctx code w).1 = Err (lock_message until) /\
  data4 (disable show_time m ctx code w).2 = data4 w.
Proof.
  intros <- Hcf. unfold disable, mbind, Sess_bind. rewrite (the_user_calm _ _ u) by done.
  rewrite bool_decide_false by done. by rewrite (check_lock_locked _ _ until).
Qed.

Lemma verify_locked d h dev code c :
  decode_bearer_claims m h = Ok c -> sub c = user ->
  (forall b, (verify cfg show_time m d h dev code w).1 <> Ok b) /\
  data4 (verify cfg show_time m d h dev code w).2 = data4 w.
Proof.
  intros Hd <-. unfold verify, mbind, Sess_bind.
  destruct (accept_enroll_or_access m h w) as [r w1] eqn:E.
  apply accept_enroll_data in E as (E1 & E2 & E3).
  destruct r as [[us ws]| |]; [|by split..]. destruct E3 as (c' & Hd' & <-).
  assert (c' = c) as -> by congruence.
  rewrite (the_user_calm _ _ u); [|intros n; rewrite E2; apply Hc|congruence].
  rewrite (check_lock_locked _ _ until) by done. by split.
Qed.
End locked.
End lockout.

(** C39: Guessing is bounded.  When a code is refused and it is the fifth
    failure or a later one, then for the next fifteen minutes every challenge
    and every request to disable the second factor answers 429, and no
    enrolment check succeeds, whatever the code, without a code being compared,
    a backup code spent or anything written. *)
Theorem lockout_holds `{AuthEnv} `{TotpEnv} (cfg : JwtConfig) show_time {A} m user u w w' r m' :
  calm w -> w_users w !! user = Some u -> (4 <= us_totp_failed_attempts u)%Z ->
  @reject_code m user A w = (r, w') -> (mo_now m' < mo_now m + 900 * 10 ^ 6)%Z ->
  forall f, calm (set_faults f w') ->
  let refused {B} (a : result B * World) :=
    a.1 = Err (lock_message show_time (mo_now m + 900 * 10 ^ 6)) /\ data4 a.2 = data4 w' in
  r = Err invalid_credentials /\
  (forall d h x dev code c, decode_bearer_claims m' h = Ok c -> purpose c = Some $"2fa_challenge" ->
     sub c = user -> refused (challenge cfg show_time m' d h x dev code (set_faults f w'))) /\
  (forall ctx code, jc_user_id ctx = user -> us_totp_confirmed_at u <> None ->
     refused (disable show_time m' ctx code (set_faults f w'))) /\
  (forall d h dev code c, decode_bearer_claims m' h = Ok c -> sub c = user ->
     (forall b, (verify cfg show_time m' d h dev code (set_faults f w')).1 <> Ok b) /\
     data4 (verify cfg show_time m' d h dev code (set_faults f w')).2 = data4 w').
Proof.
  intros Hc Hu H4 Hr Ht f Hf refused.
  destruct (reject_code_counts (A := A) m user u w Hc Hu) as (w'' & Hr' & Hu').
  rewrite Hr in Hr'. injection Hr' as -> <-. split; [done|].
  rewrite (proj2 (Z.leb_le _ _)) in Hu' by (unfold LOCK_THRESHOLD; lia). unfold LOCK_SECS in Hu'.
  change (w_users w') with (w_users (set_faults f w')) in Hu'.
  split; [|split].
  - intros d h x dev code c Hd Hp Hs. exact (challenge_locked cfg show_time m' user _ _ (set_faults f w') Hf Hu' eq_refl Ht d h x dev code c Hd Hp Hs).
  - intros ctx code Hx Hcf. exact (disable_locked show_time m' user _ _ (set_faults f w') Hf Hu' eq_refl Ht ctx code Hx Hcf).
  - intros d h dev code c Hd Hs. exact (verify_locked cfg show_time m' user _ _ (set_faults f w') Hf Hu' eq_refl Ht d h dev code c Hd Hs).
Qed.

(** ** Where the second factor falls short *)

Lemma verify_step_sees `{TotpEnv} u u' secret checks code now n :
  decrypt_secret u = Some secret -> build_totp secret = Some checks ->
  (now / STEP_SECONDS = n)%N -> (1 <= n)%N ->
  checks code ((n - 1) * STEP_SECONDS)%N = false -> checks code (n * STEP_SECONDS)%N = false ->
  checks code ((n + 1) * STEP_SECONDS)%N = true ->
  us_totp_secret u' = us_totp_secret u -> last_step u = Some (n + 1)%N -> last_step u' = Some n ->
  verify_totp_step u code now = NoMatch /\ verify_totp_step u' code now = Matched (n + 1).
Proof.
  intros Hd Hb Hn H1 C1 C2 C3 Hs L L'. unfold verify_totp_step.
  replace (decrypt_secret u') with (decrypt_secret u) by (unfold decrypt_secret; by rewrite Hs).
  rewrite Hd, L, L'. unfold verify_code. rewrite Hb, Hn.
  replace (saturating_sub n 1) with (n - 1)%N by (unfold saturating_sub; lia).
  simpl. rewrite C1, C2, C3.
  rewrite (proj2 (N.leb_le _ _)) by lia. by rewrite (proj2 (N.leb_gt _ _)) by lia.
Qed.

(** A backup code reopens the replay window.  A user whose authenticator
    runs ahead has just used the code of the next step, n+1, so it is refused;
    after a challenge cleared by a backup code during step n, the step on record
    is n again, and that same one-time code clears a challenge once more. *)
Theorem backup_code_reopens_replay `{AuthEnv} `{TotpEnv} (cfg : JwtConfig) show_time
    m d h x dev bcode w body w' c u secret checks code n :
  challenge cfg show_time m d h x dev bcode w = (Ok body, w') ->
  decode_bearer_claims m h = Ok c -> w_users w !! sub c = Some u ->
  verify_totp_step u bcode (unix_now m) = NoMatch ->
  decrypt_secret u = Some secret -> build_totp secret = Some checks ->
  (unix_now m / STEP_SECONDS = n)%N -> (1 <= n < 2 ^ 63)%N -> last_step u = Some (n + 1)%N ->
  checks code ((n - 1) * STEP_SECONDS)%N = false -> checks code (n * STEP_SECONDS)%N = false ->
  checks code ((n + 1) * STEP_SECONDS)%N = true ->
  exists u', w_users w' !! sub c = Some u' /\
    verify_totp_step u code (unix_now m) = NoMatch /\
    verify_totp_step u' code (unix_now m) = Matched (n + 1).
Proof.
  intros Hx Hd Hu Hno Hsec Hb Hn Hr Hl C1 C2 C3. unfold STEP_SECONDS in Hn.
  apply challenge_run in Hx as (c' & u' & step & how & w1 & actor & entry & row & u1 &
    Hd' & _ & Hu' & _ & Hcl & -> & Hw & _).
  assert (c' = c) as -> by congruence. assert (u' = u) as -> by congruence.
  inversion Hcl as [ct pt checks' st Hct Hpt Hbt Hv Hwin Hfst Hlast _|]; subst step how.
  { unfold last_step in Hl. apply fmap_Some in Hl as (z & Hz & Hz').
    specialize (Hlast _ Hz). rewrite Hn in Hwin. lia. }
  eexists. split; [injection Hw as -> _ _ _; by rewrite lookup_insert_eq|].
  eapply (verify_step_sees _ _ secret checks); try done; [lia|].
  unfold last_step, step_i64. simpl. rewrite Hn. f_equal. unfold i64_max. lia.
Qed.

(** Revoking a user does not stop the enrolment routes: they consult the
    logout blacklist only.  An access token the middleware refuses because of
    an administrator's watermark is still accepted by [enroll] and [verify] (the
    run in AuthRuns obtains a fresh, unrevoked pair with it). *)
Theorem revoked_token_enrolls `{AuthEnv} m h c w v :
  decode_bearer_claims m h = Ok c -> purpose c = None ->
  watermark_at (mo_redis m) (sub c) w = Some v -> (iat c <= v)%Z ->
  jti_blacklisted_at (mo_redis m) (jti c) w = false -> w_redis_faults w 0 = None ->
  (require m h w).1 = Err invalid_credentials /\
  (accept_enroll_or_access m h w).1 = Ok (sub c, cl_ws c).
Proof.
  intros Hd Hp Hw Hi Hj Hf. split.
  - unfold require, mbind, Sess_bind, lift_r. rewrite Hd. unfold is_access_claims.
    rewrite bool_decide_true by done. simpl. unfold attempt, session_gates, mbind, Sess_bind, redis_io.
    rewrite Hf. simpl.
    replace (jti_blacklisted_at _ _ _) with false by (symmetry; exact Hj).
    replace (watermark_at _ _ _) with (Some v) by (symmetry; exact Hw).
    simpl. by rewrite (proj2 (Z.leb_le _ _)).
  - unfold accept_enroll_or_access, mbind, Sess_bind, lift_r. rewrite Hd, Hp. simpl.
    unfold attempt, jti_is_blacklisted, mbind, Sess_bind, redis_io. rewrite Hf. simpl.
    replace (jti_blacklisted_at _ _ _) with false by (symmetry; exact Hj). done.
Qed.
