(* ===== verification/LoginSpec.v ===== *)
(** * What signing in and being signed out promise

    A session is issued only for a verified password, after the login is
    recorded, and to no account that owes a second factor; ending one session
    blacklists its live access tokens before its refresh rows are closed, and
    touches no other session.  And a gap: an address stored with a capital
    letter can never sign in. *)

From S2P Require Import Prelude Rstr Json Types Providers Roles Limits AdminAudit ApiKeys.
From S2P Require Import Sessions Login TwoFactor SessionsSpec RefreshSpec TwoFactorSpec.

Section login.
Context `{AuthEnv} (cfg : JwtConfig).

Lemma find_by_email_ok email w user u :
  find_by_email email w = Some (user, u) -> w_users w !! user = Some u /\ us_email u = email.
Proof.
  unfold find_by_email. intros [Hin Hb]%find_some. apply bool_decide_eq_true in Hb.
  split; [|exact Hb]. apply list_elem_of_In in Hin. by apply elem_of_map_to_list in Hin.
Qed.

Lemma limit_401_ok m k w a w' : limit_401 m k w = (Ok a, w') -> data4 w' = data4 w.
Proof.
  unfold limit_401. intros Hx. apply bind_ok in Hx as (r & w1 & E%limit_ok & Hx).
  destruct r; [|done..]. by injection Hx as _ <-.
Qed.

Lemma record_login_ok user ws email role method dec w a w' :
  record_login user ws email role method dec w = (Ok a, w') ->
  exists actor entry, data4 w' = (w_users w, w_backup w, w_refresh w, audit_write actor entry (w_audit w)) /\
    ae_action entry = LoginSucceeded /\ aa_user_id actor = Some user.
Proof. unfold record_login. intros Hx%write_own_ok. by do 2 eexists. Qed.

Lemma purpose_token_ok m j user ws p ttl w t w' :
  encode_purpose_token m j user ws p ttl w = (Ok t, w') ->
  w' = w /\ exists c, jwt_encode c = Some t /\ sub c = user /\ cl_ws c = ws /\ purpose c = Some p.
Proof.
  unfold encode_purpose_token. intros Hx. apply bind_ok in Hx as (e & w1 & He & Hx).
  injection He as _ <-. unfold encode_access, lift_r in Hx. injection Hx as Hx <-.
  split; [done|]. destruct (jwt_encode _) as [t'|] eqn:E; [|done]. injection Hx as <-. by eexists.
Qed.

(** The tail the two ways of signing in share, here and in oidc.rs. *)
Definition sign_in (method : LoginMethod) (m : Moment) (d : Draw) (user : Uuid) (u : UserRow)
    (device : DeviceContext) : Sess TokenOr2fa :=
  role ← lift_r (role_from_db_str (us_role u));
  let decision := decide_2fa role (bool_decide (us_totp_confirmed_at u <> None)) in
  record_login user (us_workspace_id u) (us_email u) (us_role u) method decision;;
  match decision with
  | TfAccess =>
    body ← build_token_pair_body cfg m d user (us_workspace_id u) (us_role u) (us_email u) device;
    mret (AccessPair body)
  | TfChallenge =>
    t ← encode_purpose_token m (dr_jti d) user (us_workspace_id u) $"2fa_challenge" 300;
    mret (ChallengeToken t)
  | TfEnroll =>
    t ← encode_purpose_token m (dr_jti d) user (us_workspace_id u) $"2fa_enroll" 300;
    mret (EnrollToken t)
  end.

(** What a successful sign-in gives to the user it established. *)
Definition sign_in_outcome (user : Uuid) (u : UserRow) (r : TokenOr2fa) (w w' : World) : Prop :=
  exists role actor entry, role_from_db_str (us_role u) = Ok role /\
    w_audit w' = audit_write actor entry (w_audit w) /\
    ae_action entry = LoginSucceeded /\ aa_user_id actor = Some user /\ w_users w' = w_users w /\
    match r with
    | AccessPair body =>
        us_totp_confirmed_at u = None /\ can_write role = false /\ tr_user_id body = user /\
        exists row, w_refresh w' = w_refresh w ++ [row] /\ rt_user_id row = user
    | ChallengeToken t =>
        us_totp_confirmed_at u <> None /\ w_refresh w' = w_refresh w /\
        exists c, jwt_encode c = Some t /\ sub c = user /\ purpose c = Some $"2fa_challenge"
    | EnrollToken t =>
        us_totp_confirmed_at u = None /\ can_write role = true /\ w_refresh w' = w_refresh w /\
        exists c, jwt_encode c = Some t /\ sub c = user /\ purpose c = Some $"2fa_enroll"
    end.

Lemma sign_in_run method m d user u device w r w' :
  sign_in method m d user u device w = (Ok r, w') -> sign_in_outcome user u r w w'.
Proof.
  unfold sign_in. intros Hx. apply bind_ok in Hx as (role & w5 & Hr & Hx). injection Hr as Hr <-.
  apply bind_ok in Hx as (? & w6 & (actor & entry & E6 & Hact & Hwho)%record_login_ok & Hx).
  injection E6 as V1 V2 V3 V4. exists role, actor, entry. split; [done|].
  unfold decide_2fa in Hx. destruct (bool_decide (us_totp_confirmed_at u <> None)) eqn:Hc.
  - apply bool_decide_eq_true in Hc. apply bind_ok in Hx as (t & w7 & [-> Ht]%purpose_token_ok & Hx).
    injection Hx as <- <-. split_and!; [done..|]. destruct Ht as (c & ? & ? & ? & ?). by exists c.
  - apply bool_decide_eq_false, dec_stable in Hc.
    destruct role; apply bind_ok in Hx as (t & w7 & Ht & Hx); injection Hx as <- <-.
    1,2: apply purpose_token_ok in Ht as [-> Ht]; split_and!; [done..|];
         destruct Ht as (c & ? & ? & ? & ?); by exists c.
    all: apply build_ok in Ht as (Hb & _ & (row & Hrow & Hru & _) & _); injection Hrow as W1 W2 W3 W4;
         split_and!; [congruence|done|done|congruence|done|done|done|]; exists row; split; congruence.
Qed.
(** The whole of a successful sign-in. *)
Lemma token_run m d x dev email password w r w' :
  token cfg m d x dev email password w = (Ok r, w') ->
  exists user u role actor entry,
    w_users w !! user = Some u /\ us_email u = to_ascii_lowercase (trim email) /\
    verify_password (us_password_hash u) password = true /\ role_from_db_str (us_role u) = Ok role /\
    w_audit w' = audit_write actor entry (w_audit w) /\
    ae_action entry = LoginSucceeded /\ aa_user_id actor = Some user /\
    w_users w' = w_users w /\
    match r with
    | AccessPair body =>
        us_totp_confirmed_at u = None /\ can_write role = false /\ tr_user_id body = user /\
        exists row, w_refresh w' = w_refresh w ++ [row] /\ rt_user_id row = user
    | ChallengeToken t =>
        us_totp_confirmed_at u <> None /\ w_refresh w' = w_refresh w /\
        exists c, jwt_encode c = Some t /\ sub c = user /\ purpose c = Some $"2fa_challenge"
    | EnrollToken t =>
        us_totp_confirmed_at u = None /\ can_write role = true /\ w_refresh w' = w_refresh w /\
        exists c, jwt_encode c = Some t /\ sub c = user /\ purpose c = Some $"2fa_enroll"
    end.
Proof.
  unfold token. intros Hx.
  apply bind_ok in Hx as (? & w1 & E1%limit_401_ok & Hx).
  apply bind_ok in Hx as (? & w2 & E2%limit_401_ok & Hx).
  apply bind_ok in Hx as (? & w3 & E3%db_io_ok & Hx).
  apply bind_ok in Hx as (creds & w4 & Hg & Hx). injection Hg as Hg <-.
  destruct creds as [[user u]|]; [|done]. apply find_by_email_ok in Hg as [Hu Hem].
  destruct (verify_password (us_password_hash u) password) eqn:Hv; [|done]. simpl in Hx.
  change (sign_in LmPassword m d user u dev w3 = (Ok r, w')) in Hx.
  apply sign_in_run in Hx as (role & actor & entry & Hr & Ha & Hact & Hwho & Hus & Hm).
  assert (Eall : data4 w3 = data4 w) by congruence. injection Eall as U1 U2 U3 U4.
  exists user, u, role, actor, entry. rewrite <- U1, <- U3, <- U4.
  split_and!; done.
Qed.
End login.

(** Signing in with a password: whatever the answer, the address was found
    as stored and its password verified, and the login is in the administrative
    audit trail.  A session is issued only to an account without a confirmed
    second factor whose role does not demand one, and adds exactly one refresh
    row; an account with a confirmed factor gets a challenge token, an
    administrator without one an enrolment token, and neither opens a session. *)
Theorem login_exact `{AuthEnv} (cfg : JwtConfig) m d x dev email password w r w' :
  token cfg m d x dev email password w = (Ok r, w') ->
  exists user u role actor entry,
    w_users w !! user = Some u /\ us_email u = to_ascii_lowercase (trim email) /\
    verify_password (us_password_hash u) password = true /\ role_from_db_str (us_role u) = Ok role /\
    w_audit w' = audit_write actor entry (w_audit w) /\
    ae_action entry = LoginSucceeded /\ aa_user_id actor = Some user /\
    w_users w' = w_users w /\
    match r with
    | AccessPair body =>
        us_totp_confirmed_at u = None /\ can_write role = false /\ tr_user_id body = user /\
        exists row, w_refresh w' = w_refresh w ++ [row] /\ rt_user_id row = user
    | ChallengeToken t =>
        us_totp_confirmed_at u <> None /\ w_refresh w' = w_refresh w /\
        exists c, jwt_encode c = Some t /\ sub c = user /\ purpose c = Some $"2fa_challenge"
    | EnrollToken t =>
        us_totp_confirmed_at u = None /\ can_write role = true /\ w_refresh w' = w_refresh w /\
        exists c, jwt_encode c = Some t /\ sub c = user /\ purpose c = Some $"2fa_enroll"
    end.
Proof. apply token_run. Qed.

(** ** Addresses with capitals *)

Lemma lower_byte_not_upper c : is_ascii_uppercase (to_lower_byte c) = false.
Proof. destruct c as [[] [] [] [] [] [] [] []]; reflexivity. Qed.

Lemma lowercase_no_upper s : existsb is_ascii_uppercase (to_ascii_lowercase s) = false.
Proof.
  induction s as [|c s IH]; [done|]. unfold to_ascii_lowercase in *. rewrite fmap_cons. cbn [existsb].
  by rewrite lower_byte_not_upper, IH.
Qed.

(** Signing in looks the address up trimmed and lower-cased, and creating a
    user stores it as typed: a user created with a capital letter in the
    address can never sign in, whatever is typed and whatever the password. *)
Theorem mixed_case_user_locked_out `{AuthEnv} (cfg : JwtConfig)
    seats ctx email pw role id salt w r w1 m d x dev typed password w2 body w3 :
  create_user seats ctx email pw role id salt w = (Ok r, w1) ->
  existsb is_ascii_uppercase email = true ->
  w_users w2 = w_users w1 ->
  token cfg m d x dev typed password w2 = (Ok (AccessPair body), w3) ->
  tr_user_id body <> r.1.
Proof.
  intros Hcr Hup Hus Ht Hid. apply token_run in Ht as
    (user & u & ro & actor & entry & Hu & Hem & _ & _ & _ & _ & _ & _ & _ & _ & Hbody & _).
  rewrite Hus in Hu.
  assert (Hrow : exists hash, w_users w1 !! r.1 = Some (new_user (jc_workspace_id ctx) email hash role)).
  { unfold create_user in Hcr.
    apply bind_ok in Hcr as (? & ? & _ & Hcr). apply bind_ok in Hcr as (? & ? & _ & Hcr).
    apply bind_ok in Hcr as (? & ? & _ & Hcr). apply bind_ok in Hcr as (ar & wa & _ & Hcr).
    apply bind_ok in Hcr as (uid & wb & Hrep & Hcr).
    unfold repo_create_user in Hrep. apply bind_ok in Hrep as (hash & wc & _ & Hrep).
    apply bind_ok in Hrep as (? & wd & _ & Hrep). apply bind_ok in Hrep as (taken & we & _ & Hrep).
    destruct taken; [done|]. apply bind_ok in Hrep as ([] & wf & Hm & Hrep).
    injection Hm as <-. injection Hrep as <- <-.
    apply bind_ok in Hcr as (? & wg & E%db_io_ok & Hcr). injection E as E _ _ _.
    apply bind_ok in Hcr as (o & wh & Hg & Hcr). injection Hg as <- <-. simpl in E.
    rewrite E, lookup_insert_eq in Hcr. simpl in Hcr. injection Hcr as <- <-.
    exists hash. by rewrite E, lookup_insert_eq. }
  destruct Hrow as [hash Hrow]. rewrite <- Hid, Hbody, Hu in Hrow. injection Hrow as ->.
  simpl in Hem. rewrite Hem, lowercase_no_upper in Hup. done.
Qed.

(** ** Ending one session *)

Abbreviation tables w := (w_users w, w_refresh w, w_revocations w).

Lemma db_io_tables w a w' : db_io w = (Ok a, w') -> tables w' = tables w /\ w_jti w' = w_jti w.
Proof. unfold db_io. destruct (w_db_faults w 0); [done|]. by intros [= _ <-]. Qed.

Lemma blacklist_all_ok m ttl js w a w' :
  blacklist_all m ttl js w = (Ok a, w') ->
  tables w' = tables w /\
  (forall j, w_jti w' !! j = if decide (j ∈ js) then Some (mo_redis m + ttl)%Z else w_jti w !! j).
Proof.
  revert w. induction js as [|j js IH]; intros w Hx; simpl in Hx.
  { injection Hx as _ <-. split; [done|]. intros j. by rewrite decide_False by apply not_elem_of_nil. }
  apply bind_ok in Hx as ([] & w1 & Hb & Hx). apply IH in Hx as [E1 Hj]. unfold blacklist_jti in Hb.
  apply bind_ok in Hb as ([] & w2 & Hr & Hb). apply bind_ok in Hb as ([] & w3 & Hv & Hb).
  injection Hb as <-. unfold valid_ttl in Hv. destruct (0 <? ttl)%Z; [|done]. injection Hv as <-.
  unfold redis_io in Hr. destruct (w_redis_faults w 0); [done|]. injection Hr as <-.
  split; [exact E1|]. intros j'. rewrite Hj. simpl.
  destruct (decide (j' ∈ js)) as [Hin|Hin]; [by rewrite decide_True by (by right)|].
  destruct (decide (j' = j)) as [->|Hne].
  - rewrite decide_True by left. by rewrite lookup_insert_eq.
  - rewrite decide_False by (by rewrite not_elem_of_cons). by rewrite lookup_insert_ne by done.
Qed.

Lemma add_seconds_ok t s t' :
  @or_panic ApiError _ (add_seconds t s) = Ok t' -> t' = (t + s * 10 ^ 6)%Z.
Proof. unfold add_seconds. destruct (_ && _); [|done]. by intros [= <-]. Qed.

Section ending.
Context `{AuthEnv} (cfg : JwtConfig).

Definition in_session (user ws session : Uuid) (r : RefreshTokenRow) : bool :=
  (rt_user_id r =? user)%N && (rt_workspace_id r =? ws)%N && (rt_session_id r =? session)%N.

Lemma close_where_all now p t r : r ∈ close_where now None p t -> (forall x, p (close_row now None x) = p x) ->
  p r = true -> is_live r = false.
Proof.
  intros (a & Ha & [[_ ->]|[Hp ->]])%elem_of_close Hpc Hr; [done|].
  by rewrite Hr in Hp.
Qed.

Lemma close_where_others now p t :
  (forall x, p (close_row now None x) = p x) ->
  filter (fun r => p r = false) (close_where now None p t) = filter (fun r => p r = false) t.
Proof.
  intros Hpc. induction t as [|x t IH]; [done|]. unfold close_where in *. rewrite fmap_cons.
  destruct (p x) eqn:E; simpl.
  - rewrite !filter_cons_False; [exact IH|by rewrite E|]. destruct (is_live x); by rewrite ?Hpc, E.
  - rewrite !filter_cons_True by done. by rewrite IH.
Qed.

Lemma find_target_ok ws user w t w' :
  find_target ws user w = (Ok t, w') ->
  tables w' = tables w /\ w_jti w' = w_jti w /\
  match t with Some tg => tg_user_id tg = user /\ exists u, user_in ws user w = Some u /\ tg_role tg = us_role u
  | None => True end.
Proof.
  unfold find_target. intros Hx. apply bind_ok in Hx as ([] & w1 & [E1 E2]%db_io_tables & Hx).
  injection Hx as <- <-. split; [done|]. split; [done|].
  replace (user_in ws user w1) with (user_in ws user w) by (unfold user_in; congruence).
  destruct (user_in ws user w) as [u|]; simpl; [|done]. split; [done|]. by exists u.
Qed.

Lemma resolve_subject_ok ctx target w t w' :
  resolve_subject ctx target w = (Ok t, w') ->
  tables w' = tables w /\ w_jti w' = w_jti w /\ tg_user_id t = target /\
  exists u role, user_in (jc_workspace_id ctx) target w = Some u /\ role_from_db_str (us_role u) = Ok role /\
    may_manage_sessions (jc_role ctx) role (jc_user_id ctx =? target)%N = Allowed.
Proof.
  unfold resolve_subject. intros Hx. apply bind_ok in Hx as (a & w1 & Hr & Hx).
  assert (w1 = w) as ->.
  { destruct (jc_user_id ctx =? target)%N; [by injection Hr|]. by injection Hr. }
  apply bind_ok in Hx as (o & w2 & (E1 & E2 & Ho)%find_target_ok & Hx).
  destruct o as [tg|]; [|done]. destruct Ho as (Htg & u & Hu & Hrole).
  apply bind_ok in Hx as (role & w3 & Hro & Hx). injection Hro as Hro <-.
  destruct (may_manage_sessions _ _ _) eqn:Hm; [|done..]. injection Hx as <- <-.
  split; [done|]. split; [done|]. split; [done|]. exists u, role. split; [done|]. split; [congruence|done].
Qed.
End ending.

(** Ending one session: only the user, or an administrator of at least the
    target's rank, does it, and only in the workspace; afterwards the
    session has no live refresh row, every access token it minted that can
    still be valid is blacklisted beyond its leeway, the act is in the
    revocation record with its session, and every other row of the table is as
    it was. *)
Theorem end_session_exact `{AuthEnv} (cfg : JwtConfig) m ctx target session w r w' :
  revoke_one_session cfg m ctx target session w = (Ok r, w') ->
  let ws := jc_workspace_id ctx in
  let ours := in_session target ws session in
  (exists u role, user_in ws target w = Some u /\ role_from_db_str (us_role u) = Ok role /\
     may_manage_sessions (jc_role ctx) role (jc_user_id ctx =? target)%N = Allowed) /\
  (forall x, x ∈ w_refresh w' -> ours x = true -> is_live x = false) /\
  filter (fun x => ours x = false) (w_refresh w') = filter (fun x => ours x = false) (w_refresh w) /\
  (forall x j, x ∈ w_refresh w -> ours x = true -> rt_access_jti x = Some j ->
     (mo_now m - (Z.min (Z.of_N (access_ttl_secs cfg)) i64_max + JWT_LEEWAY) * 10 ^ 6 < rt_created_at x)%Z ->
     w_jti w' !! j = Some (mo_redis m + revocation_watermark_ttl_secs (access_ttl_secs cfg))%Z) /\
  exists rv, w_revocations w' = w_revocations w ++ [rv] /\ rv_target_user_id rv = target /\
    rv_session_id rv = Some session /\ rv_actor_user_id rv = jc_user_id ctx.
Proof.
  unfold revoke_one_session. intros Hx.
  apply bind_ok in Hx as (tg & w1 & (E1 & J1 & Htg & Hauth)%resolve_subject_ok & Hx).
  apply bind_ok in Hx as (t1 & w2 & Ht1 & Hx). injection Ht1 as Ht1 <-.
  apply bind_ok in Hx as (after & w3 & Hafter & Hx). injection Hafter as Hafter <-.
  apply bind_ok in Hx as (live & w4 & Hl & Hx).
  unfold find_live_session in Hl. apply bind_ok in Hl as ([] & w5 & [E5 J5]%db_io_tables & Hl).
  injection Hl as Hl <-. destruct live as [lv|]; [|done].
  apply bind_ok in Hx as (em & w6 & Hem & Hx). unfold actor_email in Hem.
  apply bind_ok in Hem as ([] & w7 & [E7 J7]%db_io_tables & Hem). injection Hem as _ <-.
  apply bind_ok in Hx as ([] & w8 & [E8 J8]%blacklist_all_ok & Hx).
  apply bind_ok in Hx as (n & w9 & Hrev & Hx). injection Hx as _ <-.
  unfold repo_revoke_one_session, revoke_where in Hrev.
  apply bind_ok in Hrev as ([] & w10 & [E10 J10]%db_io_tables & Hrev).
  apply bind_ok in Hrev as (n' & w11 & Hn & Hrev). injection Hn as _ <-.
  apply bind_ok in Hrev as ([] & w12 & Hm & Hrev). injection Hm as <-. injection Hrev as _ <-.
  assert (Et : tables w10 = tables w) by congruence. injection Et as U1 U2 U3.
  assert (Er5 : w_refresh w5 = w_refresh w) by congruence. rewrite Er5 in Hl. rewrite Htg in *.
  cbn zeta. unfold in_session.
  set (p := fun x => _ && _ && _) in *.
  destruct (existsb _ _) in Hl; [|done]. injection Hl as <-. simpl.
  split; [exact Hauth|]. rewrite U2, U3. split; [|split; [|split]].
  - intros x Hxin Hp. by eapply (close_where_all _ p).
  - by apply close_where_others.
  - intros x j Hxin Hp Hj Hc. rewrite J10, J8. rewrite decide_True; [done|].
    apply list_elem_of_omap. exists x. split; [by apply list_elem_of_filter; rewrite Hp|].
    apply add_seconds_ok in Ht1 as ->. apply add_seconds_ok in Hafter as ->.
    rewrite (proj2 (Z.ltb_lt _ _)); [done|]. lia.
  - eexists. split; [done|]. simpl. done.
Qed.
