(* ===== verification/AuthRuns.v ===== *)
(** * Sessions and the second factor, run

    A signing scheme and a one-time-password scheme that satisfy their classes,
    concrete histories on which the theorems of SessionsSpec, RefreshSpec,
    TwoFactorSpec and LoginSpec apply, and the runs behind the gaps they report. *)

From S2P Require Import Prelude Rstr Json Types Providers Roles Limits AdminAudit ApiKeys.
From S2P Require Import Sessions Login TwoFactor SessionsSpec RefreshSpec TwoFactorSpec LoginSpec.

(** ** A signing scheme: the key holder's list of claims, a token is a position *)

#[export] Instance claims_eq_dec : EqDecision Claims.
Proof. solve_decision. Defined.

Definition tally (n : nat) : str := replicate n "I"%char.

Definition toy_encode (cs : list Claims) (c : Claims) : option str :=
  (fun p => tally p.1) <$> list_find (fun c' => c' = c) cs.

Definition toy_decode (cs : list Claims) (leeway now : Z) (t : str) : option Claims :=
  c ← cs !! length t;
  if decide (t = tally (length t)) then
    if (now <=? exp c + leeway)%Z then Some c else None
  else None.

Lemma toy_decode_encode cs c t leeway now :
  toy_encode cs c = Some t -> (now <= exp c + leeway)%Z -> toy_decode cs leeway now t = Some c.
Proof.
  unfold toy_encode. intros Ht Hn. apply fmap_Some in Ht as ([i c'] & Hf & ->).
  apply list_find_Some in Hf as (Hi & -> & _). unfold toy_decode, tally. simpl.
  rewrite length_replicate, Hi. simpl. rewrite decide_True by done. by rewrite (proj2 (Z.leb_le _ _)).
Qed.

Lemma toy_decode_live cs leeway now t c :
  toy_decode cs leeway now t = Some c -> (now <= exp c + leeway)%Z.
Proof.
  unfold toy_decode. destruct (cs !! length t) as [c'|]; [|done]. simpl.
  destruct (decide _); [|done]. destruct (Z.leb_spec now (exp c' + leeway)); [|done]. by intros [= ->].
Qed.

Definition toy_env (cs : list Claims) : AuthEnv := {|
  jwt_encode := toy_encode cs;
  jwt_decode := toy_decode cs;
  jwt_decode_encode := toy_decode_encode cs;
  jwt_decode_live := toy_decode_live cs;
  hash_password := fun _ p => Some p;
  verify_password := fun h p => bool_decide (h = p);
  hash_refresh_token := fun t => t;
|}.

(** The code of a step is its number. *)
Definition toy_totp : TotpEnv := {|
  build_totp := fun _ => Some (fun code t => bool_decide (code = show_N (t / 30)));
  totp_url := fun s _ _ => Some s;
  kms_encrypt := Some;
  kms_decrypt := Some;
|}.

(** ** A workspace *)

Definition access (user : Uuid) (role : str) (at_ : Z) (j : str) : Claims := {|
  sub := user; cl_ws := 1%N; cl_role := role; iat := at_; exp := (at_ + 900)%Z; jti := j; purpose := None |}.
Definition challenge_claims (user : Uuid) (at_ : Z) : Claims := {|
  sub := user; cl_ws := 1%N; cl_role := []; iat := at_; exp := (at_ + 300)%Z; jti := $"c";
  purpose := Some $"2fa_challenge" |}.

Definition dev_claims : Claims := access 7 $"developer" 1000 $"a".
Definition fresh_claims : Claims := access 7 $"developer" 1130 $"b".
Definition dev_challenge : Claims := challenge_claims 7 1000.

Definition signer : AuthEnv :=
  toy_env [dev_claims; fresh_claims; dev_challenge; access 7 $"developer" 1020 $"b"].
#[local] Existing Instance signer.
#[local] Existing Instance toy_totp.

Definition bearer (n : nat) : HeaderValue := HText ($"Bearer " ++ tally n).

Definition jcfg : JwtConfig := {| access_ttl_secs := 900; refresh_ttl_secs := 86400 |}.

Definition at_time (s : Z) : Moment := {|
  mo_now := (s * 10 ^ 6)%Z; mo_redis := s; mo_pod := 0; mo_mono := (s * 10 ^ 9)%Z |}.

Definition no_faults : Faults := {| fl_redis := fun _ => None; fl_db := fun _ => None |}.
Definition no_redis : Faults := {| fl_redis := fun _ => Some auth_unavailable; fl_db := fun _ => None |}.

Definition row_of (email role : str) (secret : option str) (confirmed : option DateTime)
    (last : option Z) (failed : Z) : UserRow := {|
  us_workspace_id := 1%N; us_email := email; us_password_hash := $"pw"; us_role := role;
  us_totp_secret := secret; us_totp_confirmed_at := confirmed; us_totp_last_timestep := last;
  us_totp_failed_attempts := failed; us_totp_locked_until := None |}.

Definition world0 (u : UserRow) (backup : list BackupCode) : World := {|
  w_jti := ∅; w_watermark := ∅; w_refresh := []; w_revocations := [];
  w_users := {[7%N := u]}; w_backup := backup; w_audit := []; w_cache := ∅; w_limiters := ∅;
  w_alerts := []; w_redis_faults := fun _ => None; w_db_faults := fun _ => None |}.

Definition plain_dev : UserRow := row_of $"dev@x" $"developer" None None None 0.
Definition totp_dev (failed : Z) : UserRow :=
  row_of $"dev@x" $"developer" (Some $"s") (Some 0%Z) None failed.
Definition spare : BackupCode :=
  {| bc_id := 3; bc_user_id := 7; bc_code_hash := $"ABCDEFGHJK"; bc_used_at := None |}.

Definition owner_ctx : JwtAuthContext := {|
  jc_user_id := 9; jc_workspace_id := 1; jc_role := Owner; jc_jti := $"o"; jc_exp := 5000 |}.
Definition dev_ctx : JwtAuthContext := context_of dev_claims Developer.

Definition draw (j r : str) (id session : Uuid) : Draw :=
  {| dr_jti := j; dr_refresh := r; dr_row_id := id; dr_session_id := session |}.
Definition laptop : DeviceContext := {| client_ip := None; client_descriptor_of := None |}.
Definition clock (t : DateTime) : str := show_N (Z.to_N t).

Lemma answered {A B} (x : result A * B) r : x.1 = Ok r -> x = (Ok r, x.2).
Proof. destruct x. simpl. by intros ->. Qed.

(** ** Revocation *)

Definition revoked : World := (revoke_sessions jcfg (at_time 1100) owner_ctx 7 (world0 plain_dev [])).2.

Lemma revoked_tokens_stay_dead_witness :
  exists e, (require (at_time 1105) (bearer 0)
    (set_faults no_redis (sess_run jcfg clock [(at_time 1102, no_faults, SvRequire (bearer 0))] revoked))).1
      = Err e /\ e ∈ [invalid_credentials; auth_unavailable].
Proof.
  eapply (revoked_tokens_stay_dead jcfg clock (at_time 1100) owner_ctx 7 0 (world0 plain_dev [])
            {| rsp_user_id := 7; rsp_revoked_before := 1100; rsp_refresh_tokens_revoked := 0 |}
            revoked _ (at_time 1105) (bearer 0) dev_claims).
  - reflexivity.
  - vm_compute. discriminate.
  - apply (answered (revoke_sessions jcfg (at_time 1100) owner_ctx 7 (world0 plain_dev []))). vm_compute. reflexivity.
  - constructor; [|constructor]. split; vm_compute; discriminate.
  - vm_compute. discriminate.
  - vm_compute. reflexivity.
  - reflexivity.
  - reflexivity.
  - vm_compute. discriminate.
  - vm_compute. discriminate.
Defined.

(** ** The outage *)

Definition warm : World := (require (at_time 1010) (bearer 0) (world0 plain_dev [])).2.

Lemma outage_admits_only_warm_sessions_witness :
  exists ctx w', require (at_time 1040) (bearer 0)
      (set_faults no_redis (sess_run jcfg clock [(at_time 1030, no_redis, SvRequire (bearer 0))] warm)) =
    (Ok (ctx, Some LogoutUnverifiable), w') /\
    (mo_mono (at_time 1040) < 1010 * 10 ^ 9 + 60 * 10 ^ 9)%Z /\
    Some LogoutUnverifiable = Some LogoutUnverifiable.
Proof.
  exists dev_ctx, (require (at_time 1040) (bearer 0)
      (set_faults no_redis (sess_run jcfg clock [(at_time 1030, no_redis, SvRequire (bearer 0))] warm))).2.
  split; [apply answered; vm_compute; reflexivity|]. split; [reflexivity|].
  eapply (outage_admits_only_warm_sessions jcfg clock [(at_time 1030, no_redis, SvRequire (bearer 0))]
            warm no_redis (at_time 1040) (bearer 0) dev_ctx).
  - constructor; [|constructor]. intros n. vm_compute. discriminate.
  - intros n. vm_compute. discriminate.
  - apply answered. vm_compute. reflexivity.
Defined.

(** ** Logging out *)

Definition logged_out : World := (logout (at_time 1100) dev_ctx (world0 plain_dev [])).2.

Lemma logged_out_token_revives_witness :
  (require (at_time 1800) (bearer 0) logged_out).1 = Err invalid_credentials /\
  (require (at_time 1930) (bearer 0) logged_out).1 = Ok (dev_ctx, None).
Proof.
  split; [vm_compute; reflexivity|].
  eapply (logged_out_token_revives (at_time 1100) dev_ctx (world0 plain_dev []) tt logged_out
            (at_time 1930) (bearer 0) dev_claims Developer).
  - apply (answered (logout (at_time 1100) dev_ctx (world0 plain_dev []))). vm_compute. reflexivity.
  - reflexivity.
  - reflexivity.
  - split; vm_compute; reflexivity.
  - vm_compute. discriminate.
  - vm_compute. reflexivity.
  - reflexivity.
  - vm_compute. reflexivity.
  - vm_compute. reflexivity.
  - vm_compute. reflexivity.
Defined.

(** ** Refresh tokens *)

Definition rt_row (id : Uuid) (h : str) (revoked : option DateTime) (repl : option Uuid) (j : option str)
    : RefreshTokenRow := {|
  rt_id := id; rt_user_id := 7; rt_workspace_id := 1; rt_token_hash := h; rt_expires_at := 10 ^ 12;
  rt_revoked_at := revoked; rt_replaced_by := repl; rt_created_at := 5; rt_session_id := 1;
  rt_access_jti := j; rt_client_ip := None; rt_client_descriptor := None |}.

Definition first_row : RefreshTokenRow := rt_row 1 $"r1" None None None.
Definition spent_row : RefreshTokenRow := rt_row 1 $"r1" (Some 5%Z) (Some 2%N) None.
Definition second_row : RefreshTokenRow := rt_row 2 $"r2" None None (Some $"j").

(** Two requests read the same row before either writes. *)
Lemma rotation_linear_witness :
  rotate_probe 6 (find_hash $"r1" [spent_row; second_row]) = inl (ReplayDetected 7).
Proof.
  destruct (rotation_linear
    [RtOpened first_row; RtProbed first_row; RtProbed first_row; RtWrote (Rotated 1 2 7 1);
     RtWrote (ReplayDetected 7)] [spent_row; second_row] [first_row; first_row]) as (_ & _ & Hr).
  - change (rt_run ([], []) (((((([] ++ [RtOpened first_row]) ++ [RtProbed first_row]) ++
      [RtProbed first_row]) ++ [RtWrote (Rotated 1 2 7 1)]) ++ [RtWrote (ReplayDetected 7)]))
      ([spent_row; second_row], [first_row; first_row])).
    eapply run_snoc; [eapply run_snoc; [eapply run_snoc; [eapply run_snoc; [eapply run_snoc;
      [apply run_nil|]|]|]|]|].
    + apply step_open; [reflexivity|reflexivity|split; apply not_elem_of_nil|apply not_elem_of_nil].
    + eapply (step_probe _ _ 5 $"r1"). vm_compute. reflexivity.
    + eapply (step_probe _ _ 5 $"r1"). vm_compute. reflexivity.
    + eapply (step_write _ _ 5 first_row $"r2" $"j" (10 ^ 12) 2); [left| |vm_compute; reflexivity].
      split; apply (bool_decide_unpack _); vm_compute; exact I.
    + eapply (step_write _ _ 6 first_row $"r3" $"k" (10 ^ 12) 3); [left| |vm_compute; reflexivity].
      split; apply (bool_decide_unpack _); vm_compute; exact I.
  - exact (Hr spent_row 6%Z ltac:(left) eq_refl).
Defined.

Definition replayed : World := set_refresh [spent_row; second_row] (world0 plain_dev []).

Lemma replay_ends_sessions_witness :
  let '(answer, w') := refresh jcfg (at_time 6) (draw $"b" $"r9" 9 1) $"r1" replayed in
  answer = Err invalid_credentials /\
  (forall x, x ∈ w_refresh w' -> rt_user_id x = 7%N -> is_live x = false) /\
  filter (fun x => rt_user_id x <> 7%N) (w_refresh w') =
    filter (fun x => rt_user_id x <> 7%N) (w_refresh replayed).
Proof.
  apply (replay_ends_sessions jcfg (at_time 6) (draw $"b" $"r9" 9 1) $"r1" replayed spent_row).
  - intros n. reflexivity.
  - eexists. vm_compute. reflexivity.
  - vm_compute. reflexivity.
  - reflexivity.
  - discriminate.
  - vm_compute. discriminate.
Defined.

(** ** Challenges *)

Definition sign_in (t : Z) (code : str) (w : World) : result TokenResponse * World :=
  challenge jcfg clock (at_time t) (draw $"b" $"r" 20 20) (bearer 2) HAbsent laptop code w.

Definition guarded : World := world0 (totp_dev 0) [spare].

Lemma challenge_exact_witness :
  exists body w', sign_in 1020 $"34" guarded = (Ok body, w') /\ tr_user_id body = 7%N.
Proof.
  destruct ((sign_in 1020 $"34" guarded).1) as [body| |] eqn:E; [|vm_compute in E; discriminate E..].
  exists body, (sign_in 1020 $"34" guarded).2. split; [exact (answered _ _ E)|].
  destruct (challenge_exact jcfg clock _ _ _ _ _ _ _ _ _ (answered _ _ E)) as
    (c & u & step & how & w1 & actor & entry & row & u1 & Hd & _ & _ & _ & _ & _ & _ & _ & _ & _ & Hb & _).
  rewrite Hb. vm_compute in Hd. injection Hd as <-. reflexivity.
Defined.

Definition locked_out : World :=
  (@reject_code (at_time 1020) 7 unit (world0 (totp_dev 4) [spare])).2.

Lemma lockout_holds_witness :
  (challenge jcfg clock (at_time 1100) (draw $"b" $"r" 20 20) (bearer 2) HAbsent laptop $"36"
     (set_faults no_faults locked_out)).1 = Err (lock_message clock ((1020 + 900) * 10 ^ 6)).
Proof.
  destruct (lockout_holds jcfg clock (A := unit) (at_time 1020) 7 (totp_dev 4)
    (world0 (totp_dev 4) [spare]) locked_out (Err invalid_credentials) (at_time 1100)) with (f := no_faults)
    as (_ & Hch & _).
  - intros n. reflexivity.
  - vm_compute. reflexivity.
  - vm_compute. discriminate.
  - vm_compute. reflexivity.
  - vm_compute. reflexivity.
  - intros n. reflexivity.
  - apply (Hch (draw $"b" $"r" 20 20) (bearer 2) HAbsent laptop $"36" dev_challenge);
      [vm_compute; reflexivity|reflexivity|reflexivity].
Defined.

(** *** The reopened window: code 35 of the next step, a backup code, 35 again *)

Definition ahead : UserRow := row_of $"dev@x" $"developer" (Some $"s") (Some 0%Z) (Some 35%Z) 0.
Definition backup_sign_in : result TokenResponse * World :=
  sign_in 1020 $"ABCDE-FGHJK" (world0 ahead [spare]).

Example backup_replay_run :
  (sign_in 1020 $"35" (world0 ahead [spare])).1 = Err invalid_credentials /\
  (exists b, backup_sign_in.1 = Ok b) /\ (exists b, (sign_in 1020 $"35" backup_sign_in.2).1 = Ok b).
Proof.
  split; [vm_compute; reflexivity|]. split; eexists; vm_compute; reflexivity.
Qed.

Lemma backup_code_reopens_replay_witness :
  exists u', w_users backup_sign_in.2 !! 7%N = Some u' /\
    verify_totp_step ahead $"35" 1020 = NoMatch /\ verify_totp_step u' $"35" 1020 = Matched 35.
Proof.
  destruct (backup_sign_in.1) as [body| |] eqn:E; [|vm_compute in E; discriminate E..].
  apply (backup_code_reopens_replay jcfg clock (at_time 1020) (draw $"b" $"r" 20 20) (bearer 2) HAbsent
    laptop $"ABCDE-FGHJK" (world0 ahead [spare]) body backup_sign_in.2 dev_challenge ahead $"s"
    (fun code t => bool_decide (code = show_N (t / 30))) $"35" 34).
  - exact (answered backup_sign_in body E).
  - vm_compute. reflexivity.
  - vm_compute. reflexivity.
  - vm_compute. reflexivity.
  - vm_compute. reflexivity.
  - reflexivity.
  - vm_compute. reflexivity.
  - split; vm_compute; [discriminate|reflexivity].
  - reflexivity.
  - vm_compute. reflexivity.
  - vm_compute. reflexivity.
  - vm_compute. reflexivity.
Defined.

(** *** A revoked access token enrols and comes back *)

Lemma revoked_token_enrolls_witness :
  (require (at_time 1110) (bearer 0) revoked).1 = Err invalid_credentials /\
  (accept_enroll_or_access (at_time 1110) (bearer 0) revoked).1 = Ok (7%N, 1%N).
Proof.
  apply (revoked_token_enrolls (at_time 1110) (bearer 0) dev_claims revoked 1100).
  - vm_compute. reflexivity.
  - reflexivity.
  - vm_compute. reflexivity.
  - vm_compute. discriminate.
  - vm_compute. reflexivity.
  - reflexivity.
Defined.

Definition enrolled : result EnrollResponse * World :=
  enroll (at_time 1110) {| ed_secret := $"s"; ed_code_bytes := []; ed_code_ids := []; ed_salts := [] |}
    (bearer 0) revoked.
Definition returned : result TokenResponse * World :=
  verify jcfg clock (at_time 1130) (draw $"b" $"r" 20 20) (bearer 0) laptop $"37" enrolled.2.

(** The fresh pair's access token passes the middleware. *)
Example revoked_token_returns :
  (require (at_time 1110) (bearer 0) revoked).1 = Err invalid_credentials /\
  (exists b, returned.1 = Ok b /\ tr_access_token b = tally 1) /\
  (require (at_time 1131) (bearer 1) returned.2).1 = Ok (context_of fresh_claims Developer, None).
Proof.
  split; [vm_compute; reflexivity|]. split; [|vm_compute; reflexivity].
  destruct returned.1 as [b| |] eqn:E; vm_compute in E; [|discriminate E..].
  exists b. split; [done|]. injection E as <-. reflexivity.
Qed.

(** ** Signing in *)

Definition signed_in : result TokenOr2fa * World :=
  token jcfg (at_time 1130) (draw $"b" $"r" 20 20) HAbsent laptop $" Dev@X" $"pw" (world0 plain_dev []).

Lemma login_exact_witness :
  exists user u, w_users (world0 plain_dev []) !! user = Some u /\ us_email u = $"dev@x".
Proof.
  destruct (signed_in.1) as [body| |] eqn:E; [|vm_compute in E; discriminate E..].
  destruct (login_exact jcfg _ _ _ _ _ _ _ _ _ (answered signed_in body E)) as
    (user & u & ? & ? & ? & Hu & Hem & _).
  exists user, u. split; [exact Hu|]. rewrite Hem. vm_compute. reflexivity.
Defined.

Definition capital : result (Uuid * str) * World :=
  create_user None owner_ctx $"New@x" $"pw" $"developer" 8 0 (world0 plain_dev []).

Lemma mixed_case_user_locked_out_witness :
  (exists w1, capital = (Ok (8%N, $"developer"), w1)) /\
  forall body, signed_in.1 = Ok (AccessPair body) -> tr_user_id body <> 8%N.
Proof.
  split; [exists capital.2; apply (answered capital); vm_compute; reflexivity|].
  intros body Hb.
  apply (mixed_case_user_locked_out jcfg None owner_ctx $"New@x" $"pw" $"developer" 8 0 (world0 plain_dev [])
    (8%N, $"developer") capital.2 (at_time 1130) (draw $"b" $"r" 20 20) HAbsent laptop $" Dev@X" $"pw"
    (set_users (w_users capital.2) (world0 plain_dev [])) body
    (token jcfg (at_time 1130) (draw $"b" $"r" 20 20) HAbsent laptop $" Dev@X" $"pw"
      (set_users (w_users capital.2) (world0 plain_dev []))).2).
  - apply (answered capital). vm_compute. reflexivity.
  - vm_compute. reflexivity.
  - reflexivity.
  - apply answered. rewrite <- Hb. vm_compute. reflexivity.
Defined.

(** *** One session of two *)

Definition two_sessions : World :=
  set_refresh [{| rt_id := 1; rt_user_id := 7; rt_workspace_id := 1; rt_token_hash := $"r1";
                  rt_expires_at := 10 ^ 12; rt_revoked_at := None; rt_replaced_by := None;
                  rt_created_at := (1000 * 10 ^ 6)%Z; rt_session_id := 1; rt_access_jti := Some $"a";
                  rt_client_ip := None; rt_client_descriptor := None |};
               {| rt_id := 2; rt_user_id := 7; rt_workspace_id := 1; rt_token_hash := $"r2";
                  rt_expires_at := 10 ^ 12; rt_revoked_at := None; rt_replaced_by := None;
                  rt_created_at := (1000 * 10 ^ 6)%Z; rt_session_id := 2; rt_access_jti := Some $"z";
                  rt_client_ip := None; rt_client_descriptor := None |}] (world0 plain_dev []).
Definition one_ended : result EndSessionResponse * World :=
  revoke_one_session jcfg (at_time 1100) dev_ctx 7 1 two_sessions.

Lemma end_session_exact_witness :
  w_jti one_ended.2 !! $"a" = Some 2120%Z /\
  forall x, x ∈ w_refresh one_ended.2 -> in_session 7 1 1 x = true -> is_live x = false.
Proof.
  destruct (one_ended.1) as [r| |] eqn:E; [|vm_compute in E; discriminate E..].
  destruct (end_session_exact jcfg _ _ _ _ _ _ _ (answered one_ended r E)) as (_ & Hdead & _ & Hj & _).
  split; [|exact Hdead].
  eapply (Hj _ $"a" (list_elem_of_lookup_2 (w_refresh two_sessions) 0 _ eq_refl));
    [reflexivity|reflexivity|vm_compute; reflexivity].
Defined.
