(* ===== verification/WorkerDb.v ===== *)
(** * What the worker touches

    secureprompt-worker: tasks/workspace_enumeration.rs, and the ground the
    jobs of tasks/ and the export routes of the API stand on.

    [Db] is Postgres, ClickHouse and the Redis queues as the jobs see them, and
    what the environment decides.  [d_bypass] and [d_workspaces_armed] say
    whether the connection's role is subject to row-level security and whether
    [workspaces] has been put under it; [d_arming] says which scope a
    transaction ends up with after it asked for one; [d_stamps] are the fresh
    identifiers and the instants [NOW()] the next writes get; the fault
    schedules say which of the next calls fail.  A statement on a policed table
    sees the rows of its transaction's scope only, silently; a transaction that
    does not commit leaves no trace.  Instants are microseconds; captured
    content carries whole seconds. *)

From S2P Require Import Prelude Rstr Json Types Providers Roles Limits AdminAudit ApiKeys.
From S2P Require Import Sessions.

Record PurgeRecord : Type := {
  pr_scope : str;
  pr_workspace_id : option Uuid;
  pr_cutoff : DateTime;
  pr_rows_deleted : Z;
  pr_oldest_deleted : option DateTime;
  pr_newest_deleted : option DateTime;
  pr_rows_remaining : Z;
  pr_status : str;
  pr_error : option str;
  pr_started_at : DateTime;
}.

Record VaultEntry : Type := { ve_id : Uuid; ve_workspace_id : Uuid; ve_expires_at : DateTime }.
Record Capture : Type := { cp_request_id : Uuid; cp_workspace_id : Uuid; cp_created_at : Z }.

(** A row of [retention_purge_audit]. *)
Record PurgeAuditRow : Type := {
  pa_id : Uuid;
  pa_run_id : Uuid;
  pa_record : PurgeRecord;
  pa_completed_at : DateTime;
}.

(** *** The audit trail and the exports made of it *)

(** A row with the identifier and the instant its insertion gave it. *)
Record Stamped (A : Type) : Type := { st_id : Uuid; st_created_at : DateTime; st_row : A }.
Arguments st_id {A}. Arguments st_created_at {A}. Arguments st_row {A}.

Record RawCaptureAuditRow : Type := {
  rc_workspace_id : Uuid;
  rc_actor_user_id : option Uuid;
  rc_actor_email : option str;
  rc_enabled_before : bool;
  rc_enabled_after : bool;
  rc_retention_days_before : Z;
  rc_retention_days_after : Z;
}.

(** [request_events], the columns an export selects. *)
Record EventRow : Type := {
  ev_request_id : Uuid;
  ev_workspace_id : Uuid;
  ev_created_at_unix : N;
  ev_provider : str;
  ev_model : str;
  ev_final_action : str;
  ev_input_tokens : option N;
  ev_output_tokens : option N;
  ev_estimated_usage : bool;
  ev_cost_usd : f64;
  ev_user_id : option Uuid;
  ev_api_key_id : option Uuid;
  ev_api_key_name : option str;
  ev_ip_address : option str;
  ev_user_agent : option str;
  ev_floor_only : bool;
  ev_engines : list str;
}.

(** [audit_exports] *)
Record AuditExportRow : Type := {
  ax_id : Uuid;
  ax_workspace_id : Uuid;
  ax_requested_by : option Uuid;
  ax_window_from : DateTime;
  ax_window_to : DateTime;
  ax_format : str;
  ax_page_size : Z;
  ax_status : str;
  ax_total_rows : option Z;
  ax_total_pages : option Z;
  ax_manifest_json : option str;
  ax_signature_b64 : option str;
  ax_public_key_b64 : option str;
  ax_signing_key_id : option str;
  ax_error : option str;
  ax_created_at : DateTime;
  ax_started_at : option DateTime;
  ax_completed_at : option DateTime;
}.

(** [audit_export_pages]: keyed by export and page number, with a foreign key
    to the export. *)
Record ExportPageRow : Type := {
  px_export_id : Uuid;
  px_workspace_id : Uuid;
  px_page_number : Z;
  px_row_count : Z;
  px_sha256 : str;
  px_body : str;
}.

(** A point of the [policy_rag] collection. *)
Record PolicyPoint : Type := {
  pp_vector : list f64;       (* an [f32] is a binary float too *)
  pp_workspace_id : str;
  pp_doc_type : str;
  pp_rule_id : str;
}.

(** [t_events n] is [request_events] at the [n]-th reading from now: requests
    keep arriving while a job runs.  [t_embed n] is what the sidecar answers to
    the [n]-th /embed call from now. *)
Record ExportTables : Type := {
  t_exports : list AuditExportRow;
  t_pages : list ExportPageRow;
  t_raw_capture : list (Stamped RawCaptureAuditRow);
  t_revocations : list (Stamped RevocationRow);
  t_admin : list (Stamped AdminAuditRow);
  t_events : nat -> list EventRow;
  t_queues : gmap str (list str);
  t_points : gmap Uuid PolicyPoint;
  t_embed : nat -> str -> option (list f64);
  t_redis_faults : nat -> option str;
  t_qdrant_faults : nat -> option str;
}.

Definition with_events (f : nat -> list EventRow) (t : ExportTables) : ExportTables := {|
  t_exports := t_exports t; t_pages := t_pages t; t_raw_capture := t_raw_capture t;
  t_revocations := t_revocations t; t_admin := t_admin t; t_events := f; t_queues := t_queues t;
  t_points := t_points t; t_embed := t_embed t; t_redis_faults := t_redis_faults t;
  t_qdrant_faults := t_qdrant_faults t |}.
Definition set_exports (l : list AuditExportRow) (t : ExportTables) : ExportTables := {|
  t_exports := l; t_pages := t_pages t; t_raw_capture := t_raw_capture t;
  t_revocations := t_revocations t; t_admin := t_admin t; t_events := t_events t;
  t_queues := t_queues t; t_points := t_points t; t_embed := t_embed t;
  t_redis_faults := t_redis_faults t; t_qdrant_faults := t_qdrant_faults t |}.
Definition set_pages (l : list ExportPageRow) (t : ExportTables) : ExportTables := {|
  t_exports := t_exports t; t_pages := l; t_raw_capture := t_raw_capture t;
  t_revocations := t_revocations t; t_admin := t_admin t; t_events := t_events t;
  t_queues := t_queues t; t_points := t_points t; t_embed := t_embed t;
  t_redis_faults := t_redis_faults t; t_qdrant_faults := t_qdrant_faults t |}.
Definition set_queues (q : gmap str (list str)) (t : ExportTables) : ExportTables := {|
  t_exports := t_exports t; t_pages := t_pages t; t_raw_capture := t_raw_capture t;
  t_revocations := t_revocations t; t_admin := t_admin t; t_events := t_events t; t_queues := q;
  t_points := t_points t; t_embed := t_embed t; t_redis_faults := t_redis_faults t;
  t_qdrant_faults := t_qdrant_faults t |}.
Definition set_points (m : gmap Uuid PolicyPoint) (t : ExportTables) : ExportTables := {|
  t_exports := t_exports t; t_pages := t_pages t; t_raw_capture := t_raw_capture t;
  t_revocations := t_revocations t; t_admin := t_admin t; t_events := t_events t;
  t_queues := t_queues t; t_points := m; t_embed := t_embed t; t_redis_faults := t_redis_faults t;
  t_qdrant_faults := t_qdrant_faults t |}.
Definition with_replies (e : nat -> str -> option (list f64)) (r q : nat -> option str) (t : ExportTables) : ExportTables := {|
  t_exports := t_exports t; t_pages := t_pages t; t_raw_capture := t_raw_capture t;
  t_revocations := t_revocations t; t_admin := t_admin t; t_events := t_events t;
  t_queues := t_queues t; t_points := t_points t; t_embed := e; t_redis_faults := r;
  t_qdrant_faults := q |}.

Record Db : Type := {
  d_workspaces : list Uuid;
  d_vault : list VaultEntry;
  d_settings : gmap Uuid Z;  (* workspace_raw_capture.retention_days *)
  d_refresh : list RefreshTokenRow;
  d_keys : list ApiKeyRecord;
  d_captures : list Capture;
  d_audit : list PurgeAuditRow;
  d_export : ExportTables;
  d_bypass : bool;
  d_workspaces_armed : bool;
  d_stamps : nat -> Uuid * DateTime;
  d_arming : nat -> Uuid -> option Uuid;
  d_pg_faults : nat -> option str;
  d_ch_faults : nat -> option str;
}.

Definition with_env (arming : nat -> Uuid -> option Uuid) (pg ch : nat -> option str) (d : Db) : Db := {|
  d_workspaces := d_workspaces d; d_vault := d_vault d; d_settings := d_settings d;
  d_refresh := d_refresh d; d_keys := d_keys d; d_captures := d_captures d; d_audit := d_audit d;
  d_export := d_export d; d_bypass := d_bypass d; d_workspaces_armed := d_workspaces_armed d;
  d_stamps := d_stamps d; d_arming := arming; d_pg_faults := pg; d_ch_faults := ch |}.
Definition set_vault (l : list VaultEntry) (d : Db) : Db := {|
  d_workspaces := d_workspaces d; d_vault := l; d_settings := d_settings d;
  d_refresh := d_refresh d; d_keys := d_keys d; d_captures := d_captures d; d_audit := d_audit d;
  d_export := d_export d; d_bypass := d_bypass d; d_workspaces_armed := d_workspaces_armed d;
  d_stamps := d_stamps d; d_arming := d_arming d; d_pg_faults := d_pg_faults d;
  d_ch_faults := d_ch_faults d |}.
Definition set_tokens (l : list RefreshTokenRow) (d : Db) : Db := {|
  d_workspaces := d_workspaces d; d_vault := d_vault d; d_settings := d_settings d;
  d_refresh := l; d_keys := d_keys d; d_captures := d_captures d; d_audit := d_audit d;
  d_export := d_export d; d_bypass := d_bypass d; d_workspaces_armed := d_workspaces_armed d;
  d_stamps := d_stamps d; d_arming := d_arming d; d_pg_faults := d_pg_faults d;
  d_ch_faults := d_ch_faults d |}.
Definition set_keys (l : list ApiKeyRecord) (d : Db) : Db := {|
  d_workspaces := d_workspaces d; d_vault := d_vault d; d_settings := d_settings d;
  d_refresh := d_refresh d; d_keys := l; d_captures := d_captures d; d_audit := d_audit d;
  d_export := d_export d; d_bypass := d_bypass d; d_workspaces_armed := d_workspaces_armed d;
  d_stamps := d_stamps d; d_arming := d_arming d; d_pg_faults := d_pg_faults d;
  d_ch_faults := d_ch_faults d |}.
Definition set_captures (l : list Capture) (d : Db) : Db := {|
  d_workspaces := d_workspaces d; d_vault := d_vault d; d_settings := d_settings d;
  d_refresh := d_refresh d; d_keys := d_keys d; d_captures := l; d_audit := d_audit d;
  d_export := d_export d; d_bypass := d_bypass d; d_workspaces_armed := d_workspaces_armed d;
  d_stamps := d_stamps d; d_arming := d_arming d; d_pg_faults := d_pg_faults d;
  d_ch_faults := d_ch_faults d |}.
Definition set_purge_audit (l : list PurgeAuditRow) (d : Db) : Db := {|
  d_workspaces := d_workspaces d; d_vault := d_vault d; d_settings := d_settings d;
  d_refresh := d_refresh d; d_keys := d_keys d; d_captures := d_captures d; d_audit := l;
  d_export := d_export d; d_bypass := d_bypass d; d_workspaces_armed := d_workspaces_armed d;
  d_stamps := d_stamps d; d_arming := d_arming d; d_pg_faults := d_pg_faults d;
  d_ch_faults := d_ch_faults d |}.
Definition set_export (t : ExportTables) (d : Db) : Db := {|
  d_workspaces := d_workspaces d; d_vault := d_vault d; d_settings := d_settings d;
  d_refresh := d_refresh d; d_keys := d_keys d; d_captures := d_captures d; d_audit := d_audit d;
  d_export := t; d_bypass := d_bypass d; d_workspaces_armed := d_workspaces_armed d;
  d_stamps := d_stamps d; d_arming := d_arming d; d_pg_faults := d_pg_faults d;
  d_ch_faults := d_ch_faults d |}.
Definition next_stamp (d : Db) : Db := {|
  d_workspaces := d_workspaces d; d_vault := d_vault d; d_settings := d_settings d;
  d_refresh := d_refresh d; d_keys := d_keys d; d_captures := d_captures d; d_audit := d_audit d;
  d_export := d_export d; d_bypass := d_bypass d; d_workspaces_armed := d_workspaces_armed d;
  d_stamps := fun n => d_stamps d (S n); d_arming := d_arming d; d_pg_faults := d_pg_faults d;
  d_ch_faults := d_ch_faults d |}.

(** ** Jobs: computations that fail with the text of a database error *)

Definition Job (A : Type) : Type := Db -> (A + str) * Db.

#[export] Instance Job_ret : MRet Job := fun A a d => (inl a, d).
#[export] Instance Job_bind : MBind Job := fun A B k x d =>
  match x d with
  | (inl a, d') => k a d'
  | (inr e, d') => (inr e, d')
  end.

Definition raise {A} (e : str) : Job A := fun d => (inr e, d).
Definition look {A} (f : Db -> A) : Job A := fun d => (inl (f d), d).
Definition store (f : Db -> Db) : Job unit := fun d => (inl tt, f d).
Definition total {A} (f : Db -> A * Db) : Job A := fun d => let '(a, d') := f d in (inl a, d').
Definition try {A} (x : Job A) : Job (A + str) := fun d => let '(r, d') := x d in (inl r, d').

Definition pg_io : Job unit := fun d =>
  let f := d_pg_faults d in
  let d' := with_env (d_arming d) (fun n => f (S n)) (d_ch_faults d) d in
  match f 0 with None => (inl tt, d') | Some e => (inr e, d') end.
Definition ch_io : Job unit := fun d =>
  let f := d_ch_faults d in
  let d' := with_env (d_arming d) (d_pg_faults d) (fun n => f (S n)) d in
  match f 0 with None => (inl tt, d') | Some e => (inr e, d') end.

(** ** [workspace_enumeration.rs] *)

Definition WORKSPACES_ARE_POLICED : str :=
  $"row security is active on `workspaces` for this connection, so enumerating it would return a filtered list and any sweep built on it would silently skip every workspace it cannot see".

Definition row_security_active (d : Db) : bool := d_workspaces_armed d && negb (d_bypass d).

(** A policed [workspaces] answers nothing on a bare connection. *)
Definition enumerate_workspaces : Job (list Uuid) :=
  pg_io;;
  policed ← look row_security_active;
  if policed : bool then raise WORKSPACES_ARE_POLICED
  else
    pg_io;;
    look (fun d => if row_security_active d then [] else d_workspaces d).

(** [set_config]: the scope the transaction has after it. *)
Definition set_scope (workspace_id : Uuid) (d : Db) : option Uuid * Db :=
  (d_arming d 0 workspace_id,
   with_env (fun n => d_arming d (S n)) (d_pg_faults d) (d_ch_faults d) d).

(** A transaction whose scope is read back; the answer is the scope. *)
Definition begin_armed (workspace_id : Uuid) (not_armed : str) : Job (option Uuid) :=
  pg_io;;
  pg_io;;
  scope ← total (set_scope workspace_id);
  pg_io;;
  if decide (scope = Some workspace_id) then mret scope else raise not_armed.

(** What row-level security lets a statement under [scope] see. *)
Definition visible (scope : option Uuid) (row_workspace : Uuid) (d : Db) : bool :=
  d_bypass d || bool_decide (scope = Some row_workspace).

(** ** Reasoning about jobs

    A weakest precondition for computations on [Db] that may fail, with the
    rules for the calls every job makes. *)

(** ** Running a job *)

Definition wp {A} (x : Job A) (d : Db) (Q : A -> Db -> Prop) (E : Db -> Prop) : Prop :=
  match x d with (inl a, d') => Q a d' | (inr _, d') => E d' end.

Lemma wp_bind {A B} (x : Job A) (k : A -> Job B) d Q E :
  wp x d (fun a d' => wp (k a) d' Q E) E -> wp (x ≫= k) d Q E.
Proof. unfold wp, mbind, Job_bind. by destruct (x d) as [[a|e] d']. Qed.

Lemma wp_mono {A} (x : Job A) d (Q Q' : A -> Db -> Prop) (E E' : Db -> Prop) :
  wp x d Q E -> (forall a d', Q a d' -> Q' a d') -> (forall d', E d' -> E' d') -> wp x d Q' E'.
Proof. unfold wp. destruct (x d) as [[a|e] d']; auto. Qed.

(** [try] never fails. *)
Lemma wp_try {A} (x : Job A) d (Q : A + str -> Db -> Prop) E :
  wp x d (fun a d' => Q (inl a) d') (fun d' => forall e, Q (inr e) d') -> wp (try x) d Q E.
Proof. unfold wp, try. by destruct (x d) as [[a|e] d']. Qed.

Lemma wp_ret {A} (a : A) d Q E : Q a d -> wp (mret a) d Q E.
Proof. done. Qed.
Lemma wp_look {A} (f : Db -> A) d Q E : Q (f d) d -> wp (look f) d Q E.
Proof. done. Qed.
Lemma wp_store f d (Q : unit -> Db -> Prop) E : Q tt (f d) -> wp (store f) d Q E.
Proof. done. Qed.
Lemma wp_raise {A} e d (Q : A -> Db -> Prop) (E : Db -> Prop) : E d -> wp (raise e) d Q E.
Proof. done. Qed.

(** Only the schedules moved. *)
Definition same (d d' : Db) : Prop := exists a p c, d' = with_env a p c d.

#[export] Instance same_pre : PreOrder same.
Proof.
  split; [intros d; by exists (d_arming d), (d_pg_faults d), (d_ch_faults d); destruct d|].
  intros x y z (a & p & c & ->) (a' & p' & c' & ->). by exists a', p', c'.
Qed.

(** Chains of such steps. *)
Ltac sames := first
  [ eassumption | reflexivity
  | match goal with S : same ?a ?b |- same ?a _ => transitivity b; [exact S|sames] end ].

Lemma wp_pg d (Q : unit -> Db -> Prop) (E : Db -> Prop) :
  (forall d', same d d' -> Q tt d') -> (forall d', same d d' -> E d') -> wp pg_io d Q E.
Proof.
  intros HQ HE. unfold wp, pg_io. destruct (d_pg_faults d 0); [apply HE|apply HQ]; by do 3 eexists.
Qed.
Lemma wp_ch d (Q : unit -> Db -> Prop) (E : Db -> Prop) :
  (forall d', same d d' -> Q tt d') -> (forall d', same d d' -> E d') -> wp ch_io d Q E.
Proof.
  intros HQ HE. unfold wp, ch_io. destruct (d_ch_faults d 0); [apply HE|apply HQ]; by do 3 eexists.
Qed.

(** A scope that did not take is an error, so the transaction one is handed is
    in the scope one asked for. *)
Lemma wp_begin ws na d (Q : option Uuid -> Db -> Prop) (E : Db -> Prop) :
  (forall d', same d d' -> Q (Some ws) d') -> (forall d', same d d' -> E d') ->
  wp (begin_armed ws na) d Q E.
Proof.
  intros HQ HE. unfold begin_armed.
  apply wp_bind, wp_pg; [intros d1 S1|exact HE].
  apply wp_bind, wp_pg; [intros d2 S2|intros d2 S2; apply HE; sames].
  apply wp_bind. unfold wp at 1.
  assert (S3 : same d2 (with_env (fun n => d_arming d2 (S n)) (d_pg_faults d2) (d_ch_faults d2) d2))
    by by do 3 eexists.
  apply wp_bind, wp_pg; [intros d4 S4|intros d4 S4; apply HE; sames].
  assert (same d d4) by (sames).
  case_decide as Hs; [rewrite Hs; by apply wp_ret, HQ|by apply wp_raise, HE].
Qed.

(** The enumeration answers with every workspace or not at all. *)
Lemma wp_enumerate d (Q : list Uuid -> Db -> Prop) (E : Db -> Prop) :
  (forall d', same d d' -> Q (d_workspaces d) d') -> (forall d', same d d' -> E d') ->
  wp enumerate_workspaces d Q E.
Proof.
  intros HQ HE. unfold enumerate_workspaces.
  apply wp_bind, wp_pg; [intros d1 S1|exact HE]. apply wp_bind, wp_look.
  destruct (row_security_active d1) eqn:Hr; [by apply wp_raise, HE|].
  apply wp_bind, wp_pg; [intros d2 S2|intros d2 S2; apply HE; sames]. apply wp_look.
  assert (same d d2) by sames.
  destruct S1 as (? & ? & ? & ->), S2 as (? & ? & ? & ->).
  change (row_security_active _) with (row_security_active d) in Hr |- *. rewrite Hr. by apply HQ.
Qed.
