(* ===== verification/Sweeps.v ===== *)
(** * The worker's nightly sweeps

    secureprompt-worker: tasks/retention_purge.rs and
    tasks/api_key_rotation.rs, over the state of WorkerDb. *)

From S2P Require Import Prelude Rstr Json Types Providers Roles Limits AdminAudit ApiKeys.
From S2P Require Import Sessions WorkerDb.

Definition SCOPE_TOKEN_VAULT : str := $"token_vault_entries".
Definition SCOPE_CONTENT_CAPTURES : str := $"request_content_captures".
Definition SCOPE_SESSION_DEVICE_CONTEXT : str := $"refresh_tokens.device_context".

(** ** [retention_purge.rs] *)

Definition failure (scope : str) (ws : option Uuid) (cutoff started_at : DateTime) (error : str)
    : PurgeRecord := {|
  pr_scope := scope; pr_workspace_id := ws; pr_cutoff := cutoff; pr_rows_deleted := 0;
  pr_oldest_deleted := None; pr_newest_deleted := None; pr_rows_remaining := -1;
  pr_status := $"error"; pr_error := Some error; pr_started_at := started_at |}.

Definition success (scope : str) (ws : option Uuid) (cutoff started_at : DateTime) (deleted : Z)
    (oldest newest : option DateTime) (remaining : Z) : PurgeRecord := {|
  pr_scope := scope; pr_workspace_id := ws; pr_cutoff := cutoff; pr_rows_deleted := deleted;
  pr_oldest_deleted := oldest; pr_newest_deleted := newest; pr_rows_remaining := remaining;
  pr_status := $"ok"; pr_error := None; pr_started_at := started_at |}.

Record PurgeOutcome : Type := { po_run_id : Uuid; po_records : list PurgeRecord }.

Definition total_deleted (o : PurgeOutcome) : Z := foldr Z.add 0%Z (pr_rows_deleted <$> po_records o).
Definition all_ok (o : PurgeOutcome) : bool :=
  forallb (fun r => bool_decide (pr_status r = $"ok")) (po_records o).

(** SQL's MIN and MAX. *)
Definition min_of (l : list Z) : option Z :=
  foldr (fun z a => Some (match a with Some x => Z.min z x | None => z end)) None l.
Definition max_of (l : list Z) : option Z :=
  foldr (fun z a => Some (match a with Some x => Z.max z x | None => z end)) None l.

Section purge.
Context (started_at : DateTime).

(** *** The token vault, on the bare pool: it is under no policy *)

Definition expired (now : DateTime) (e : VaultEntry) : bool := (ve_expires_at e <=? now)%Z.

Definition purge_token_vault (now : DateTime) : Job PurgeRecord :=
  deleted ← try (pg_io;;
    gone ← look (fun d => filter (fun e => expired now e = true) (d_vault d));
    store (fun d => set_vault (filter (fun e => expired now e = false) (d_vault d)) d);;
    mret gone);
  match deleted with
  | inr e => mret (failure SCOPE_TOKEN_VAULT None now started_at e)
  | inl gone =>
    remaining ← try (pg_io;;
      look (fun d => Z.of_nat (length (filter (fun e => expired now e = true) (d_vault d)))));
    mret (match remaining with
          | inl n => success SCOPE_TOKEN_VAULT None now started_at (Z.of_nat (length gone))
                       (min_of (ve_expires_at <$> gone)) (max_of (ve_expires_at <$> gone)) n
          | inr e => failure SCOPE_TOKEN_VAULT None now started_at e
          end)
  end.

(** *** The census *)

Record SweepCensus : Type := {
  sc_scope : str;
  sc_consequence : str;
  sc_enumerated : nat;
  sc_unreadable : nat;
}.

Definition CAPTURES_CONSEQUENCE : str := $"their captured content was not purged".
Definition DEVICE_CONTEXT_CONSEQUENCE : str :=
  $"the IP addresses on their ended sessions were not erased".
Definition SETTINGS_SCOPE_NOT_ARMED : str :=
  $"the retention-settings transaction could not be scoped to this workspace, so its captured content was not purged".
Definition DEVICE_CONTEXT_SCOPE_NOT_ARMED : str :=
  $"the device-context transaction could not be scoped to this workspace, so the IP addresses on its ended sessions were not erased".

Definition census_record (census : SweepCensus) (now : DateTime) (enumeration_error : option str)
    : PurgeRecord :=
  match enumeration_error with
  | Some error => failure (sc_scope census) None now started_at error
  | None =>
    if (0 <? sc_unreadable census)%nat then
      failure (sc_scope census) None now started_at
        (show_N (N.of_nat (sc_unreadable census)) ++ $" of " ++ show_N (N.of_nat (sc_enumerated census))
         ++ $" workspaces could not be swept, so " ++ sc_consequence census)
    else success (sc_scope census) None now started_at 0 None None 0
  end.

(** *** Device context of ended sessions *)

Definition has_context (r : RefreshTokenRow) : bool :=
  bool_decide (rt_client_ip r <> None) || bool_decide (rt_client_descriptor r <> None).

(** A live row of the same chain. *)
Definition chain_live (now : DateTime) (vis : Uuid -> bool) (t : list RefreshTokenRow)
    (r : RefreshTokenRow) : bool :=
  existsb (fun live => vis (rt_workspace_id live) && (rt_session_id live =? rt_session_id r)%N
    && (rt_workspace_id live =? rt_workspace_id r)%N && is_live live
    && (now <? rt_expires_at live)%Z) t.

Definition scrubbable (now : DateTime) (ws : Uuid) (vis : Uuid -> bool) (t : list RefreshTokenRow)
    (r : RefreshTokenRow) : bool :=
  vis (rt_workspace_id r) && (rt_workspace_id r =? ws)%N && has_context r
  && negb (chain_live now vis t r).

Definition erase_context (r : RefreshTokenRow) : RefreshTokenRow := {|
  rt_id := rt_id r; rt_user_id := rt_user_id r; rt_workspace_id := rt_workspace_id r;
  rt_token_hash := rt_token_hash r; rt_expires_at := rt_expires_at r;
  rt_revoked_at := rt_revoked_at r; rt_replaced_by := rt_replaced_by r;
  rt_created_at := rt_created_at r; rt_session_id := rt_session_id r;
  rt_access_jti := rt_access_jti r; rt_client_ip := None; rt_client_descriptor := None |}.

Definition scrub_rows (now : DateTime) (ws : Uuid) (vis : Uuid -> bool) (t : list RefreshTokenRow)
    : list RefreshTokenRow :=
  (fun r => if scrubbable now ws vis t r then erase_context r else r) <$> t.

Definition scrub_one_workspace_device_context (ws : Uuid) (now : DateTime) : Job PurgeRecord :=
  scope ← begin_armed ws DEVICE_CONTEXT_SCOPE_NOT_ARMED;
  pg_io;;
  gone ← look (fun d => filter (fun r => scrubbable now ws (fun w => visible scope w d) (d_refresh d) r = true)
                          (d_refresh d));
  pg_io;;   (* commit *)
  store (fun d => set_tokens (scrub_rows now ws (fun w => visible scope w d) (d_refresh d)) d);;
  scope ← begin_armed ws DEVICE_CONTEXT_SCOPE_NOT_ARMED;
  pg_io;;
  remaining ← look (fun d => Z.of_nat (length
    (filter (fun r => scrubbable now ws (fun w => visible scope w d) (d_refresh d) r = true) (d_refresh d))));
  pg_io;;
  mret (success SCOPE_SESSION_DEVICE_CONTEXT (Some ws) now started_at (Z.of_nat (length gone))
          (min_of (rt_created_at <$> gone)) (max_of (rt_created_at <$> gone)) remaining).

Fixpoint scrub_loop (now : DateTime) (workspaces : list Uuid) (unreadable : nat)
    (records : list PurgeRecord) : Job (nat * list PurgeRecord) :=
  match workspaces with
  | [] => mret (unreadable, records)
  | ws :: rest =>
    r ← try (scrub_one_workspace_device_context ws now);
    match r with
    | inl record =>
      scrub_loop now rest unreadable
        (if ((0 <? pr_rows_deleted record) || (0 <? pr_rows_remaining record))%Z
         then records ++ [record] else records)
    | inr e =>
      scrub_loop now rest (S unreadable)
        (records ++ [failure SCOPE_SESSION_DEVICE_CONTEXT (Some ws) now started_at e])
    end
  end.

Definition census_of (scope consequence : str) (enumerated unreadable : nat) : SweepCensus := {|
  sc_scope := scope; sc_consequence := consequence; sc_enumerated := enumerated;
  sc_unreadable := unreadable |}.

Definition scrub_session_device_context (now : DateTime) : Job (list PurgeRecord) :=
  let census := census_of SCOPE_SESSION_DEVICE_CONTEXT DEVICE_CONTEXT_CONSEQUENCE in
  l ← try enumerate_workspaces;
  match l with
  | inr e => mret [census_record (census 0 0) now (Some e)]
  | inl workspaces =>
    '(unreadable, records) ← scrub_loop now workspaces 0 [];
    mret (records ++ [census_record (census (length workspaces) unreadable) now None])
  end.

(** *** Captured content *)

(** [Ok(None)] means the row is absent. *)
Definition read_capture_retention (ws : Uuid) : Job (option Z) :=
  scope ← begin_armed ws SETTINGS_SCOPE_NOT_ARMED;
  pg_io;;
  days ← look (fun d => if visible scope ws d then d_settings d !! ws else None);
  pg_io;;
  mret days.

(** [now - Duration::days(n)], which the database's bound on retention keeps in
    range. *)
Definition cutoff_of (now : DateTime) (days : Z) : DateTime := (now - days * 86400 * 10 ^ 6)%Z.

Definition past_cutoff (ws : Uuid) (cutoff : DateTime) (c : Capture) : bool :=
  (cp_workspace_id c =? ws)%N && (cp_created_at c <? timestamp cutoff)%Z.

Definition unix_to_utc (secs : Z) : DateTime := (secs * 10 ^ 6)%Z.

Definition purge_one_workspace_captures (ws : Uuid) (retention_days : Z) (now : DateTime)
    : Job PurgeRecord :=
  let cutoff := cutoff_of now retention_days in
  let due d := filter (fun c => past_cutoff ws cutoff c = true) (d_captures d) in
  r ← try (
    ch_io;;
    stats ← look due;
    ch_io;;
    store (fun d => set_captures (filter (fun c => past_cutoff ws cutoff c = false) (d_captures d)) d);;
    ch_io;;
    n ← look (fun d => Z.of_nat (length (due d)));
    mret (success SCOPE_CONTENT_CAPTURES (Some ws) cutoff started_at
            (Z.min (Z.of_nat (length stats)) i64_max)
            (unix_to_utc <$> min_of (cp_created_at <$> stats))
            (unix_to_utc <$> max_of (cp_created_at <$> stats)) (Z.min n i64_max)));
  mret (match r with
        | inl record => record
        | inr e => failure SCOPE_CONTENT_CAPTURES (Some ws) cutoff started_at e
        end).

Fixpoint captures_loop (now : DateTime) (workspaces : list Uuid) (unreadable : nat)
    (records : list PurgeRecord) : Job (nat * list PurgeRecord) :=
  match workspaces with
  | [] => mret (unreadable, records)
  | ws :: rest =>
    days ← try (read_capture_retention ws);
    match days with
    | inl None => captures_loop now rest unreadable records
    | inl (Some days) =>
      record ← purge_one_workspace_captures ws days now;
      captures_loop now rest unreadable (records ++ [record])
    | inr e =>
      captures_loop now rest (S unreadable)
        (records ++ [failure SCOPE_CONTENT_CAPTURES (Some ws) now started_at e])
    end
  end.

Definition purge_content_captures (now : DateTime) : Job (list PurgeRecord) :=
  let census := census_of SCOPE_CONTENT_CAPTURES CAPTURES_CONSEQUENCE in
  l ← try enumerate_workspaces;
  match l with
  | inr e => mret [census_record (census 0 0) now (Some e)]
  | inl workspaces =>
    '(unreadable, records) ← captures_loop now workspaces 0 [];
    mret (records ++ [census_record (census (length workspaces) unreadable) now None])
  end.

(** *** Proof of purge *)

Definition PURGE_SCOPE_NOT_ARMED : str :=
  $"the proof-of-purge transaction could not be scoped to the record's workspace, so nothing was written".

Definition insert_audit_row (run_id : Uuid) (record : PurgeRecord) : Db -> Db := fun d =>
  let '(id, now) := d_stamps d 0 in
  next_stamp (set_purge_audit (d_audit d ++
    [{| pa_id := id; pa_run_id := run_id; pa_record := record; pa_completed_at := now |}]) d).

Definition purge_write_audit (run_id : Uuid) (record : PurgeRecord) : Job unit :=
  match pr_workspace_id record with
  | None => pg_io;; store (insert_audit_row run_id record)
  | Some ws =>
    begin_armed ws PURGE_SCOPE_NOT_ARMED;;
    pg_io;;
    pg_io;;   (* commit *)
    store (insert_audit_row run_id record)
  end.

(** A record that cannot be written is logged. *)
Fixpoint write_audits (run_id : Uuid) (records : list PurgeRecord) : Job unit :=
  match records with
  | [] => mret tt
  | r :: rest => try (purge_write_audit run_id r);; write_audits run_id rest
  end.

Definition run_purge (run_id : Uuid) (now : DateTime) : Job PurgeOutcome :=
  vault ← purge_token_vault now;
  captures ← purge_content_captures now;
  devices ← scrub_session_device_context now;
  let records := vault :: captures ++ devices in
  write_audits run_id records;;
  mret {| po_run_id := run_id; po_records := records |}.
End purge.

(** ** [api_key_rotation.rs] *)

Definition SWEEP_SCOPE_NOT_ARMED : str :=
  $"the rotation-cleanup transaction could not be scoped to this workspace, so no key was revoked in it".

Record SweepOutcome : Type := {
  so_keys_revoked : N;
  so_enumerated : nat;
  so_workspaces_swept : nat;
  so_failures : nat;
}.

Definition sweep_ok (o : SweepOutcome) : bool :=
  (so_failures o =? 0)%nat && (so_workspaces_swept o =? so_enumerated o)%nat.

(** The WHERE clause of [SWEEP_SQL], but for the workspace. *)
Definition grace_over (now : N) (r : ApiKeyRecord) : bool :=
  bool_decide (ak_status r = $"rotating") &&
  match ak_rotated_at r with
  | Some at_ => (grace_end at_ (ak_rotation_grace_secs r) <=? now)%N
  | None => false
  end.

Definition sweep_one (now : N) (ws : Uuid) : Job N :=
  scope ← begin_armed ws SWEEP_SCOPE_NOT_ARMED;
  pg_io;;
  let hit d r := visible scope (ak_workspace_id r) d && (ak_workspace_id r =? ws)%N && grace_over now r in
  n ← look (fun d => N.of_nat (length (filter (fun r => hit d r = true) (d_keys d))));
  pg_io;;   (* commit *)
  store (fun d => set_keys (update_key (hit d) (row_revoked now) (d_keys d)) d);;
  mret n.

Fixpoint sweep_loop (now : N) (workspaces : list Uuid) (o : SweepOutcome) : Job SweepOutcome :=
  match workspaces with
  | [] => mret o
  | ws :: rest =>
    r ← try (sweep_one now ws);
    sweep_loop now rest
      (match r with
       | inl n => {| so_keys_revoked := so_keys_revoked o + n; so_enumerated := so_enumerated o;
                     so_workspaces_swept := S (so_workspaces_swept o); so_failures := so_failures o |}
       | inr _ => {| so_keys_revoked := so_keys_revoked o; so_enumerated := so_enumerated o;
                     so_workspaces_swept := so_workspaces_swept o; so_failures := S (so_failures o) |}
       end)
  end.

Definition run_rotation (now : N) : Job SweepOutcome :=
  l ← try enumerate_workspaces;
  match l with
  | inr _ => mret {| so_keys_revoked := 0; so_enumerated := 0; so_workspaces_swept := 0; so_failures := 1 |}
  | inl workspaces =>
    sweep_loop now workspaces {| so_keys_revoked := 0; so_enumerated := length workspaces;
                                 so_workspaces_swept := 0; so_failures := 0 |}
  end.
