(* ===== verification/SweepsSpec.v ===== *)
(** * What the nightly sweeps promise

    Under any role, any arming of the scopes and any failing calls: a run that
    calls itself successful has left nothing behind that the retention rules
    say must go, in every workspace; no run ever removes anything else; and
    every scope is in the record of every run. *)

From S2P Require Import Prelude Rstr Json Types Providers Roles Limits AdminAudit ApiKeys.
From S2P Require Import Sessions WorkerDb Sweeps.

(** ** What a purge may do

    [progress now d d']: the only difference a purge at [now] makes is that
    some of what is due is gone. *)

Definition due_capture (now : DateTime) (d : Db) (c : Capture) : bool :=
  match d_settings d !! cp_workspace_id c with
  | Some days => past_cutoff (cp_workspace_id c) (cutoff_of now days) c
  | None => false
  end.

Definition everywhere : Uuid -> bool := fun _ => true.

Definition erased (now : DateTime) (t : list RefreshTokenRow) (r r' : RefreshTokenRow) : Prop :=
  r' = r \/ (r' = erase_context r /\ chain_live now everywhere t r = false).

Record progress (now : DateTime) (d d' : Db) : Prop := {
  pg_workspaces : d_workspaces d' = d_workspaces d;
  pg_settings : d_settings d' = d_settings d;
  pg_keys : d_keys d' = d_keys d;
  pg_export : d_export d' = d_export d;
  pg_vault_sub : d_vault d' ⊆ d_vault d;
  pg_vault : filter (fun e => expired now e = false) (d_vault d') =
             filter (fun e => expired now e = false) (d_vault d);
  pg_captures_sub : d_captures d' ⊆ d_captures d;
  pg_captures : filter (fun c => due_capture now d c = false) (d_captures d') =
                filter (fun c => due_capture now d c = false) (d_captures d);
  pg_refresh : Forall2 (erased now (d_refresh d)) (d_refresh d) (d_refresh d');
}.

(** Liveness of a chain does not look at the device context. *)
Lemma chain_live_erased now t t' r r' :
  Forall2 (fun a b => b = a \/ b = erase_context a) t t' -> (r' = r \/ r' = erase_context r) ->
  chain_live now everywhere t' r' = chain_live now everywhere t r.
Proof.
  intros Ht Hr. unfold chain_live.
  assert (rt_session_id r' = rt_session_id r /\ rt_workspace_id r' = rt_workspace_id r) as [-> ->]
    by (by destruct Hr as [->| ->]).
  induction Ht as [|a b t t' Hab _ IH]; [done|]. cbn [existsb]. rewrite IH. f_equal.
  by destruct Hab as [->| ->].
Qed.

Lemma filter_false_ext {A} (f g : A -> bool) (l : list A) :
  (forall a, f a = g a) -> filter (fun a => f a = false) l = filter (fun a => g a = false) l.
Proof. intros Hfg. apply list_filter_iff. intros a. by rewrite Hfg. Qed.

Lemma erased_weak now t0 t t' :
  Forall2 (erased now t0) t t' -> Forall2 (fun a b => b = a \/ b = erase_context a) t t'.
Proof. intros Ht. eapply Forall2_impl; [exact Ht|]. intros a b [->|[-> _]]; auto. Qed.

#[export] Instance progress_pre now : PreOrder (progress now).
Proof.
  split.
  - intros d. split; try done. apply Forall2_same_length_lookup_2; [done|].
    intros i x y Hx Hy. left. congruence.
  - intros x y z [W1 S1 K1 X1 V1 V1' C1 C1' R1] [W2 S2 K2 X2 V2 V2' C2 C2' R2].
    assert (Hdue : forall c, due_capture now y c = due_capture now x c)
      by (intros c; unfold due_capture; by rewrite S1).
    split; [congruence..|by etrans|congruence|by etrans| |].
    + rewrite <- C1', !(filter_false_ext _ _ _ (fun c => eq_sym (Hdue c))). exact C2'.
    + pose proof (erased_weak _ _ _ _ R1) as Hw. apply Forall2_same_length_lookup.
      apply Forall2_same_length_lookup in R1 as [L1 R1]. apply Forall2_same_length_lookup in R2 as [L2 R2].
      split; [congruence|]. intros i a c Ha Hc.
      destruct (lookup_lt_is_Some_2 (d_refresh y) i) as [b Hb]; [rewrite <- L1; by eapply lookup_lt_Some|].
      destruct (R1 i a b Ha Hb) as [->|[-> Hl]]; [|right];
        destruct (R2 i _ c Hb Hc) as [->|[-> Hl2]]; try (by left); try done.
      right. split; [done|]. rewrite <- Hl2. symmetry. apply chain_live_erased; auto.
Qed.

Lemma same_progress now d d' : same d d' -> progress now d d'.
Proof. intros (a & p & c & ->). by destruct (progress_pre now) as [Hr _]; destruct (Hr d). Qed.

(** ** Nothing due is left *)

Definition clean_vault (now : DateTime) (d : Db) : Prop :=
  forall e, e ∈ d_vault d -> expired now e = false.
Definition clean_captures (now : DateTime) (ws : Uuid) (d : Db) : Prop :=
  forall days c, d_settings d !! ws = Some days -> c ∈ d_captures d ->
    past_cutoff ws (cutoff_of now days) c = false.
Definition clean_devices (now : DateTime) (ws : Uuid) (d : Db) : Prop :=
  forall r, r ∈ d_refresh d -> rt_workspace_id r = ws -> has_context r = true ->
    chain_live now everywhere (d_refresh d) r = true.

Section stable.
Context (now : DateTime) (d d' : Db) (P : progress now d d').

Lemma clean_vault_stable : clean_vault now d -> clean_vault now d'.
Proof. intros Hc e He. apply Hc, (pg_vault_sub _ _ _ P e He). Qed.
Lemma clean_captures_stable ws : clean_captures now ws d -> clean_captures now ws d'.
Proof.
  intros Hc days c Hs Hin. rewrite (pg_settings _ _ _ P) in Hs.
  by apply (Hc days c Hs), (pg_captures_sub _ _ _ P c Hin).
Qed.
Lemma clean_devices_stable ws : clean_devices now ws d -> clean_devices now ws d'.
Proof.
  intros Hc r' Hr' Hws Hctx. pose proof (pg_refresh _ _ _ P) as R.
  apply list_elem_of_lookup in Hr' as [i Hi].
  destruct (Forall2_lookup_r _ _ _ _ _ R Hi) as (r & Hr & [->|[-> _]]); [|done].
  apply list_elem_of_lookup_2 in Hr. rewrite <- (Hc r Hr Hws Hctx).
  apply chain_live_erased; [by eapply erased_weak|by left].
Qed.
End stable.

Definition record_ok (r : PurgeRecord) : bool := bool_decide (pr_status r = $"ok").

Lemma failure_not_ok sc ws c st e : record_ok (failure sc ws c st e) = false.
Proof. reflexivity. Qed.

(** ** The vault and the captures *)

Section sweeps.
Context (started now : DateTime).

Lemma due_filter_due (d : Db) ws days :
  d_settings d !! ws = Some days ->
  filter (fun c => due_capture now d c = false)
    (filter (fun c => past_cutoff ws (cutoff_of now days) c = false) (d_captures d)) =
  filter (fun c => due_capture now d c = false) (d_captures d).
Proof.
  intros Hs. rewrite list_filter_filter. apply list_filter_iff. intros c. split; [by intros [? ?]|].
  intros Hd. split; [done|]. unfold due_capture in Hd.
  destruct (past_cutoff ws _ c) eqn:E; [|done].
  assert (cp_workspace_id c = ws) as Hws by (unfold past_cutoff in E; lia).
  by rewrite Hws, Hs, E in Hd.
Qed.

Lemma vault_spec d :
  wp (purge_token_vault started now) d (fun r d' => progress now d d' /\
    pr_scope r = SCOPE_TOKEN_VAULT /\ pr_workspace_id r = None /\ (record_ok r = true -> clean_vault now d'))
    (fun _ => False).
Proof.
  unfold purge_token_vault. apply wp_bind, wp_try, wp_bind, wp_pg.
  - intros d1 S1. apply wp_bind, wp_look, wp_bind, wp_store, wp_ret.
    assert (P : progress now d (set_vault (filter (fun e => expired now e = false) (d_vault d1)) d1)).
    { etrans; [by apply same_progress|]. destruct (progress_pre now) as [Hr _]. destruct (Hr d1).
      split; try done; simpl.
      - intros e. by intros [_ ?]%list_elem_of_filter.
      - rewrite list_filter_filter. apply list_filter_iff. naive_solver. }
    apply wp_bind, wp_try, wp_bind, wp_pg; intros d2 S2.
    + apply wp_look, wp_ret. split; [etrans; [exact P|by apply same_progress]|]. split; [done|].
      split; [done|]. intros _. eapply clean_vault_stable; [by apply same_progress|].
      intros e. by intros [? _]%list_elem_of_filter.
    + intros e. apply wp_ret. split; [etrans; [exact P|by apply same_progress]|]. done.
  - intros d1 S1 e. apply wp_ret. by split; [apply same_progress|].
Qed.

Lemma one_capture_spec ws days d :
  d_settings d !! ws = Some days ->
  wp (purge_one_workspace_captures started ws days now) d (fun r d' => progress now d d' /\
    (record_ok r = true -> clean_captures now ws d')) (fun _ => False).
Proof.
  intros Hs. unfold purge_one_workspace_captures.
  apply wp_bind, wp_try, wp_bind, wp_ch.
  2:{ intros d1 S1 e. apply wp_ret. by split; [apply same_progress|]. }
  intros d1 S1. apply wp_bind, wp_look, wp_bind, wp_ch.
  2:{ intros d2 S2 e. apply wp_ret. split; [|done]. apply same_progress. by etrans. }
  intros d2 S2. apply wp_bind, wp_store.
  assert (P2 : progress now d d2) by (apply same_progress; sames).
  assert (Hs2 : d_settings d2 !! ws = Some days) by by rewrite (pg_settings _ _ _ P2).
  set (d3 := set_captures _ d2).
  assert (P : progress now d d3).
  { etrans; [exact P2|]. destruct (progress_pre now) as [Hr _]. destruct (Hr d2). split; try done; simpl.
    - intros c. by intros [_ ?]%list_elem_of_filter.
    - by apply due_filter_due. }
  assert (C : clean_captures now ws d3).
  { intros days' c Hd. change (d_settings d3) with (d_settings d2) in Hd.
    assert (days' = days) as -> by congruence. by intros [? _]%list_elem_of_filter. }
  apply wp_bind, wp_ch; intros d4 S4.
  - apply wp_bind, wp_look, wp_ret, wp_ret. split; [etrans; [exact P|by apply same_progress]|].
    intros _. eapply clean_captures_stable; [by apply same_progress|done].
  - intros e. apply wp_ret. split; [etrans; [exact P|by apply same_progress]|done].
Qed.

Lemma retention_spec ws d (Q : option Z -> Db -> Prop) (E : Db -> Prop) :
  (forall d', same d d' -> Q (d_settings d !! ws) d') -> (forall d', same d d' -> E d') ->
  wp (read_capture_retention ws) d Q E.
Proof.
  intros HQ HE. unfold read_capture_retention.
  apply wp_bind, wp_begin; [intros d1 S1|exact HE].
  apply wp_bind, wp_pg; [intros d2 S2|intros d2 S2; apply HE; sames].
  apply wp_bind, wp_look.
  unfold visible at 1. rewrite bool_decide_true by done. rewrite orb_true_r.
  apply wp_bind, wp_pg; intros d3 S3.
  - apply wp_ret. replace (d_settings d2 !! ws) with (d_settings d !! ws).
    + apply HQ. sames.
    + by destruct S1 as (? & ? & ? & ->), S2 as (? & ? & ? & ->).
  - apply HE. sames.
Qed.

Lemma captures_loop_spec wss : forall n recs d,
  wp (captures_loop started now wss n recs) d (fun p d' => progress now d d' /\
    exists extra, p.2 = recs ++ extra /\ (n <= p.1)%nat /\
      (p.1 = n -> forallb record_ok extra = true -> forall ws, ws ∈ wss -> clean_captures now ws d'))
    (fun _ => False).
Proof.
  induction wss as [|ws wss IH]; intros n recs d; simpl.
  { apply wp_ret. split; [done|]. exists []. rewrite app_nil_r. split; [done|]. split; [done|].
    intros _ _ ws Hws. by apply elem_of_nil in Hws. }
  apply wp_bind, wp_try, retention_spec.
  - intros d1 S1. destruct (d_settings d !! ws) as [days|] eqn:Hs.
    + apply wp_bind. eapply wp_mono; [apply one_capture_spec; by destruct S1 as (? & ? & ? & ->)| |done].
      intros r d2 [P2 C2]. eapply wp_mono; [apply IH| |done].
      intros [n' recs'] d3 [P3 (extra & -> & Hn & Hx)].
      split; [etrans; [by apply same_progress|by etrans]|].
      exists (r :: extra). rewrite <- app_assoc. split; [done|]. split; [done|].
      intros En [Hr Hextra]%andb_true_iff ws' [->|Hin]%elem_of_cons; [|by apply Hx].
      eapply clean_captures_stable; [exact P3|by apply C2].
    + eapply wp_mono; [apply IH| |done]. intros [n' recs'] d3 [P3 (extra & -> & Hn & Hx)].
      split; [etrans; [by apply same_progress|done]|]. exists extra. split; [done|]. split; [done|].
      intros En Hextra ws' [->|Hin]%elem_of_cons; [|by apply Hx].
      intros days c Hd. rewrite (pg_settings _ _ _ P3) in Hd.
      destruct S1 as (? & ? & ? & ->). simpl in Hd. congruence.
  - intros d1 S1 e. eapply wp_mono; [apply IH| |done].
    intros [n' recs'] d3 [P3 (extra & -> & Hn & Hx)].
    split; [etrans; [by apply same_progress|done]|]. eexists (_ :: extra). rewrite <- app_assoc.
    split; [done|]. split; [simpl in *; lia|]. intros En. simpl in *. lia.
Qed.

(** A sweep that calls itself successful visited every workspace and left it
    clean; it always says something about its scope as a whole. *)
Definition swept (scope : str) (clean : Uuid -> Db -> Prop) (d : Db) (recs : list PurgeRecord) (d' : Db)
    : Prop :=
  progress now d d' /\
  (exists r, r ∈ recs /\ pr_scope r = scope /\ pr_workspace_id r = None) /\
  (forallb record_ok recs = true -> forall ws, ws ∈ d_workspaces d -> clean ws d').

Lemma census_scope c e : pr_scope (census_record started c now e) = sc_scope c /\
  pr_workspace_id (census_record started c now e) = None.
Proof. unfold census_record. destruct e; [done|]. by destruct (0 <? _)%nat. Qed.

Lemma census_ok c : record_ok (census_record started c now None) = true -> sc_unreadable c = 0%nat.
Proof. unfold census_record. destruct (Nat.ltb_spec 0 (sc_unreadable c)); [done|lia]. Qed.

Lemma captures_spec d :
  wp (purge_content_captures started now) d (swept SCOPE_CONTENT_CAPTURES (clean_captures now) d)
    (fun _ => False).
Proof.
  unfold purge_content_captures. apply wp_bind, wp_try, wp_enumerate; intros d1 S1.
  - apply wp_bind. eapply wp_mono; [apply captures_loop_spec| |done].
    intros [n recs] d2 [P2 (extra & E & _ & Hx)]. simpl in E. subst recs. apply wp_ret.
    split; [etrans; [by apply same_progress|done]|]. split.
    + eexists. split; [apply elem_of_app; right; by left|]. apply census_scope.
    + rewrite forallb_app. cbn [forallb]. rewrite andb_true_r. intros [Ho Hc%census_ok]%andb_true_iff ws Hws.
      by apply Hx.
  - intros e. apply wp_ret. split; [by apply same_progress|]. split; [|done].
    eexists. split; [by left|]. apply census_scope.
Qed.
End sweeps.

(** ** Device context *)

Section devices.
Context (started now : DateTime).

(** Within its workspace an armed statement sees what there is to see. *)
Lemma scrubbable_visible d t ws r :
  scrubbable now ws (fun w => visible (Some ws) w d) t r = scrubbable now ws everywhere t r.
Proof.
  unfold scrubbable. destruct (N.eqb_spec (rt_workspace_id r) ws) as [Hw|]; [|by rewrite !andb_false_r].
  assert (visible (Some ws) (rt_workspace_id r) d = true) as ->
    by (unfold visible; rewrite bool_decide_true by congruence; apply orb_true_r).
  simpl. f_equal. f_equal. unfold chain_live. induction t as [|a t IH]; [done|]. cbn [existsb].
  rewrite IH. f_equal. destruct (N.eqb_spec (rt_workspace_id a) (rt_workspace_id r)) as [Ha|];
    [|by rewrite !andb_false_r].
  assert (visible (Some ws) (rt_workspace_id a) d = true) as ->; [|done].
  unfold visible. rewrite bool_decide_true by congruence. apply orb_true_r.
Qed.

Lemma scrub_visible d t ws :
  scrub_rows now ws (fun w => visible (Some ws) w d) t = scrub_rows now ws everywhere t.
Proof. unfold scrub_rows. apply list_fmap_ext. intros _ r _. by rewrite scrubbable_visible. Qed.

Lemma scrub_erased ws t : Forall2 (erased now t) t (scrub_rows now ws everywhere t).
Proof.
  apply Forall2_same_length_lookup. unfold scrub_rows. rewrite length_fmap. split; [done|].
  intros i r r' Hr Hr'. rewrite list_lookup_fmap, Hr in Hr'. injection Hr' as <-.
  destruct (scrubbable _ _ _ _ r) eqn:E; [right|by left]. split; [done|].
  unfold scrubbable in E. by apply andb_true_iff in E as [_ E%negb_true_iff].
Qed.

Lemma scrub_progress ws d : progress now d (set_tokens (scrub_rows now ws everywhere (d_refresh d)) d).
Proof.
  destruct (progress_pre now) as [Hr _]. destruct (Hr d). split; try done. apply scrub_erased.
Qed.

Lemma scrub_clean ws d : clean_devices now ws (set_tokens (scrub_rows now ws everywhere (d_refresh d)) d).
Proof.
  intros r' Hr' Hws Hctx. cbn [d_refresh set_tokens] in *.
  pose proof (erased_weak _ _ _ _ (scrub_erased ws (d_refresh d))) as Hw.
  apply list_elem_of_fmap in Hr' as (r & -> & Hr).
  rewrite (chain_live_erased now (d_refresh d) _ r _ Hw).
  2:{ destruct (scrubbable _ _ _ _ r); auto. }
  destruct (scrubbable now ws everywhere (d_refresh d) r) eqn:E; [done|].
  unfold scrubbable in E. rewrite Hws, N.eqb_refl, Hctx in E. simpl in E. by apply negb_false_iff in E.
Qed.

Lemma scrub_one_spec ws d :
  wp (scrub_one_workspace_device_context started ws now) d
    (fun r d' => progress now d d' /\ clean_devices now ws d' /\ record_ok r = true) (progress now d).
Proof.
  unfold scrub_one_workspace_device_context.
  apply wp_bind, wp_begin; intros d1 S1; [|by apply same_progress].
  apply wp_bind, wp_pg; intros d2 S2; [|apply same_progress; sames].
  apply wp_bind, wp_look, wp_bind, wp_pg; intros d3 S3;
    [|apply same_progress; sames].
  apply wp_bind, wp_store. rewrite scrub_visible.
  assert (P3 : progress now d d3) by (apply same_progress; sames).
  set (d4 := set_tokens _ d3).
  assert (P4 : progress now d d4) by (etrans; [exact P3|apply scrub_progress]).
  apply wp_bind, wp_begin; intros d5 S5; [|etrans; [exact P4|by apply same_progress]].
  apply wp_bind, wp_pg; intros d6 S6; [|etrans; [exact P4|apply same_progress; sames]].
  apply wp_bind, wp_look, wp_bind, wp_pg; intros d7 S7;
    [|etrans; [exact P4|apply same_progress; sames]].
  apply wp_ret.
  assert (P7 : progress now d4 d7) by (apply same_progress; sames).
  split; [by etrans|]. split; [|done]. eapply clean_devices_stable; [exact P7|apply scrub_clean].
Qed.

Lemma scrub_loop_spec wss : forall n recs d,
  wp (scrub_loop started now wss n recs) d (fun p d' => progress now d d' /\
    (n <= p.1)%nat /\ (p.1 = n -> forall ws, ws ∈ wss -> clean_devices now ws d'))
    (fun _ => False).
Proof.
  induction wss as [|ws wss IH]; intros n recs d; simpl.
  { apply wp_ret. split; [done|]. split; [done|]. intros _ ws Hws. by apply elem_of_nil in Hws. }
  apply wp_bind, wp_try. eapply wp_mono; [apply scrub_one_spec| |].
  - intros r d1 (P1 & C1 & _). eapply wp_mono; [apply IH| |done].
    intros [n' recs'] d3 (P3 & Hn & Hx). split; [by etrans|]. split; [done|].
    intros En ws' [->|Hin]%elem_of_cons; [|by apply Hx]. by eapply clean_devices_stable.
  - intros d1 P1 e. eapply wp_mono; [apply IH| |done].
    intros [n' recs'] d3 (P3 & Hn & Hx). split; [by etrans|]. simpl in *. split; [lia|]. lia.
Qed.

Lemma devices_spec d :
  wp (scrub_session_device_context started now) d
    (swept now SCOPE_SESSION_DEVICE_CONTEXT (clean_devices now) d) (fun _ => False).
Proof.
  unfold scrub_session_device_context. apply wp_bind, wp_try, wp_enumerate; intros d1 S1.
  - apply wp_bind. eapply wp_mono; [apply scrub_loop_spec| |done].
    intros [n recs] d2 (P2 & _ & Hx). apply wp_ret.
    split; [etrans; [by apply same_progress|done]|]. split.
    + eexists. split; [apply elem_of_app; right; by left|]. apply census_scope.
    + rewrite forallb_app. cbn [forallb]. rewrite andb_true_r.
      intros [_ Hc%census_ok]%andb_true_iff ws Hws. by apply Hx.
  - intros e. apply wp_ret. split; [by apply same_progress|]. split; [|done].
    eexists. split; [by left|]. apply census_scope.
Qed.

(** ** The run *)

Lemma write_audits_spec run_id recs : forall d,
  wp (write_audits run_id recs) d (fun _ d' => progress now d d') (fun _ => False).
Proof.
  assert (Hins : forall d r, progress now d (insert_audit_row run_id r d)).
  { intros d r. unfold insert_audit_row. destruct (d_stamps d 0).
    destruct (progress_pre now) as [Hr _]. by destruct (Hr d). }
  induction recs as [|r recs IH]; intros d; simpl; [by apply wp_ret|].
  apply wp_bind, wp_try.
  assert (Hw : wp (purge_write_audit run_id r) d (fun _ => progress now d) (progress now d)).
  { unfold purge_write_audit. destruct (pr_workspace_id r) as [ws|].
    - apply wp_bind, wp_begin; intros d1 S1; [|by apply same_progress].
      apply wp_bind, wp_pg; intros d2 S2; [|apply same_progress; sames].
      apply wp_bind, wp_pg; intros d3 S3; [|apply same_progress; sames].
      apply wp_store. etrans; [|apply Hins]. apply same_progress. sames.
    - apply wp_bind, wp_pg; intros d1 S1; [|by apply same_progress].
      apply wp_store. etrans; [|apply Hins]. by apply same_progress. }
  eapply wp_mono; [exact Hw| |]; intros; (eapply wp_mono; [apply IH| |done]); intros; cbn beta in *; (etrans; eassumption).
Qed.

Lemma run_purge_spec run_id d :
  wp (run_purge started run_id now) d (fun o d' => progress now d d' /\
    Forall (fun scope => exists r, r ∈ po_records o /\ pr_scope r = scope /\ pr_workspace_id r = None)
      [SCOPE_TOKEN_VAULT; SCOPE_CONTENT_CAPTURES; SCOPE_SESSION_DEVICE_CONTEXT] /\
    (all_ok o = true -> clean_vault now d' /\
       forall ws, ws ∈ d_workspaces d' -> clean_captures now ws d' /\ clean_devices now ws d'))
    (fun _ => False).
Proof.
  unfold run_purge.
  apply wp_bind. eapply wp_mono; [apply vault_spec| |done]. intros rv d1 (P1 & V1 & V1' & C1).
  apply wp_bind. eapply wp_mono; [apply captures_spec| |done]. intros rc d2 (P2 & (r2 & Hr2 & T2) & C2).
  apply wp_bind. eapply wp_mono; [apply devices_spec| |done]. intros rd d3 (P3 & (r3 & Hr3 & T3) & C3).
  apply wp_bind. eapply wp_mono; [apply write_audits_spec| |done]. intros [] d4 P4. apply wp_ret.
  assert (P24 : progress now d2 d4) by by etrans. assert (P14 : progress now d1 d4) by by etrans.
  split; [by etrans|]. split.
  - simpl. repeat apply Forall_cons_2; [|..|apply Forall_nil_2].
    + exists rv. split; [by left|done].
    + exists r2. split; [|done]. right. apply elem_of_app. by left.
    + exists r3. split; [|done]. right. apply elem_of_app. by right.
  - unfold all_ok. cbn [po_records forallb]. rewrite forallb_app.
    intros [Ho1 [Ho2 Ho3]%andb_true_iff]%andb_true_iff. split; [by eapply clean_vault_stable, C1|].
    intros ws Hws. rewrite (pg_workspaces _ _ _ P14) in Hws. split.
    + eapply clean_captures_stable; [exact P24|]. by apply C2.
    + eapply clean_devices_stable; [exact P4|]. apply C3; [done|].
      by rewrite (pg_workspaces _ _ _ P2).
Qed.
End devices.

(** A purge that reports success is one: whatever the role, the arming of
    the scopes and the calls that failed, if every record of a run says ok then
    no expired vault entry is left, and in every workspace there is (a run
    cannot be blind) no captured content older than the workspace's current
    retention and no device context on an ended session.  Every run, successful
    or not, ends and records each of its three scopes. *)
Theorem purge_success_is_true started run_id now d :
  exists o d', run_purge started run_id now d = (inl o, d') /\
    Forall (fun scope => exists r, r ∈ po_records o /\ pr_scope r = scope /\ pr_workspace_id r = None)
      [SCOPE_TOKEN_VAULT; SCOPE_CONTENT_CAPTURES; SCOPE_SESSION_DEVICE_CONTEXT] /\
    (all_ok o = true -> clean_vault now d' /\
       forall ws, ws ∈ d_workspaces d' -> clean_captures now ws d' /\ clean_devices now ws d').
Proof.
  pose proof (run_purge_spec started now run_id d) as Hs. unfold wp in Hs.
  destruct (run_purge started run_id now d) as [[o|e] d'] eqn:E; [|done].
  exists o, d'. by destruct Hs as (_ & ? & ?).
Qed.

(** A purge never removes what the rules keep: after any run, whatever
    failed, every unexpired vault entry and every capture that is not past its
    workspace's current retention (all of them where no retention is readable)
    is still there in order, and no refresh row is gone; the only change to one
    is that its device context was erased after its session had ended. *)
Theorem purge_keeps_the_rest started run_id now d :
  progress now d (run_purge started run_id now d).2.
Proof.
  pose proof (run_purge_spec started now run_id d) as Hs. unfold wp in Hs.
  destruct (run_purge started run_id now d) as [[o|e] d']; [|done]. by destruct Hs.
Qed.

(** ** The rotation sweep *)

Definition swept_key (now : N) (r r' : ApiKeyRecord) : Prop :=
  r' = r \/ (r' = row_revoked now r /\ grace_over now r = true).

Lemma grace_over_revoked now r : grace_over now (row_revoked now r) = false.
Proof. reflexivity. Qed.

(** A row the sweep retires has stopped authenticating already. *)
Lemma grace_over_dead now now' hash r :
  grace_over now r = true -> (now <= now')%N -> accepts now' hash r = false.
Proof.
  unfold grace_over, accepts. intros [Hs Hg]%andb_true_iff Hle. apply bool_decide_eq_true in Hs.
  rewrite Hs. change (bool_decide ($"rotating" = $"active")) with false. rewrite orb_false_l.
  destruct (ak_rotated_at r) as [t|]; [|done]. apply N.leb_le in Hg.
  assert ((now' <? grace_end t (ak_rotation_grace_secs r))%N = false) as -> by (apply N.ltb_ge; lia).
  by rewrite !andb_false_r.
Qed.

Section rotation.
Context (now : N).

Definition key_progress (d d' : Db) : Prop :=
  d_workspaces d' = d_workspaces d /\ Forall2 (swept_key now) (d_keys d) (d_keys d').

#[local] Instance key_progress_pre : PreOrder key_progress.
Proof.
  split.
  - intros d. split; [done|]. apply Forall2_same_length_lookup_2; [done|].
    intros i x y Hx Hy. left. congruence.
  - intros x y z [W1 R1] [W2 R2]. split; [congruence|].
    apply Forall2_same_length_lookup in R1 as [L1 R1]. apply Forall2_same_length_lookup in R2 as [L2 R2].
    apply Forall2_same_length_lookup. split; [congruence|]. intros i a c Ha Hc.
    destruct (lookup_lt_is_Some_2 (d_keys y) i) as [b Hb]; [rewrite <- L1; by eapply lookup_lt_Some|].
    destruct (R1 i a b Ha Hb) as [->|[-> Hg]]; [exact (R2 i _ c Hb Hc)|].
    destruct (R2 i _ c Hb Hc) as [->|[_ Hg2]]; [by right|]. by rewrite grace_over_revoked in Hg2.
Qed.

Lemma same_key_progress d d' : same d d' -> key_progress d d'.
Proof. intros (a & p & c & ->). exact (@PreOrder_Reflexive _ _ key_progress_pre d). Qed.

Definition retired (ws : Uuid) (d : Db) : Prop :=
  forall r, r ∈ d_keys d -> ak_workspace_id r = ws -> grace_over now r = false.

Lemma retired_stable ws d d' : key_progress d d' -> retired ws d -> retired ws d'.
Proof.
  intros [_ R] Hc r' [i Hi]%list_elem_of_lookup Hws.
  destruct (Forall2_lookup_r _ _ _ _ _ R Hi) as (r & Hr & [->|[-> _]]); [|done].
  apply Hc; [by eapply list_elem_of_lookup_2|done].
Qed.

Lemma sweep_one_spec ws d :
  wp (sweep_one now ws) d (fun _ d' => key_progress d d' /\ retired ws d') (key_progress d).
Proof.
  unfold sweep_one.
  apply wp_bind, wp_begin; intros d1 S1; [|by apply same_key_progress].
  apply wp_bind, wp_pg; intros d2 S2; [|apply same_key_progress; sames].
  apply wp_bind, wp_look, wp_bind, wp_pg; intros d3 S3;
    [|apply same_key_progress; sames].
  apply wp_bind, wp_store, wp_ret.
  assert (P3 : key_progress d d3) by (apply same_key_progress; sames).
  unfold update_key. set (hit := fun r => visible (Some ws) (ak_workspace_id r) d3 && (ak_workspace_id r =? ws)%N && grace_over now r). split.
  - etrans; [exact P3|]. split; [done|]. simpl. apply Forall2_same_length_lookup.
    rewrite length_fmap. split; [done|]. intros i r r' Hr Hr'. rewrite list_lookup_fmap, Hr in Hr'.
    injection Hr' as <-. change (swept_key now r (if hit r then row_revoked now r else r)).
    destruct (hit r) eqn:E; [right|by left]. split; [done|]. by apply andb_true_iff in E as [_ E].
  - intros r' Hr' Hws. simpl in Hr'. apply list_elem_of_fmap in Hr' as (r & E & _).
    change (r' = if hit r then row_revoked now r else r) in E. destruct (hit r) eqn:Eh; subst r'; [done|]. unfold hit in Eh. rewrite Hws, N.eqb_refl in Eh.
    assert (visible (Some ws) ws d3 = true) as Hv
      by (unfold visible; rewrite bool_decide_true by done; apply orb_true_r).
    by rewrite Hv in Eh.
Qed.

Lemma sweep_loop_spec wss : forall o d,
  wp (sweep_loop now wss o) d (fun o' d' => key_progress d d' /\
    so_enumerated o' = so_enumerated o /\ (so_failures o <= so_failures o')%nat /\
    (so_failures o' = so_failures o -> forall ws, ws ∈ wss -> retired ws d')) (fun _ => False).
Proof.
  induction wss as [|ws wss IH]; intros o d; simpl.
  { apply wp_ret. split; [done|]. split; [done|]. split; [done|].
    intros _ ws Hws. by apply elem_of_nil in Hws. }
  apply wp_bind, wp_try. eapply wp_mono; [apply sweep_one_spec| |].
  - intros n d1 [P1 C1]. eapply wp_mono; [apply IH| |done].
    intros o' d' (P & En & Hf & Hc). simpl in *. split; [by etrans|]. split; [done|]. split; [done|].
    intros Ef ws' [->|Hin]%elem_of_cons; [|by apply Hc]. by eapply retired_stable.
  - intros d1 P1 e. eapply wp_mono; [apply IH| |done].
    intros o' d' (P & En & Hf & Hc). simpl in *. split; [by etrans|]. split; [done|]. split; lia.
Qed.

Lemma run_rotation_spec d :
  wp (run_rotation now) d (fun o d' => key_progress d d' /\
    (sweep_ok o = true -> forall ws, ws ∈ d_workspaces d' -> retired ws d')) (fun _ => False).
Proof.
  unfold run_rotation. apply wp_bind, wp_try, wp_enumerate; intros d1 S1.
  - eapply wp_mono; [apply sweep_loop_spec| |done]. intros o d' (P & _ & _ & Hc).
    assert (P' : key_progress d d') by (etrans; [by apply same_key_progress|done]).
    split; [done|]. intros [Hf _]%andb_true_iff ws Hws. apply Nat.eqb_eq in Hf.
    apply Hc; [done|]. by rewrite <- (proj1 P').
  - intros e. apply wp_ret. by split; [apply same_key_progress|].
Qed.
End rotation.

(** The rotation sweep: a run always ends; one that reports success left no
    key in its grace window's past unretired in any workspace; and no run ever
    retires a key that [authenticate_api_key] would still accept, then or
    later, or changes a key otherwise. *)
Theorem rotation_sweep_exact now d :
  exists o d', run_rotation now d = (inl o, d') /\
    (sweep_ok o = true -> forall r, r ∈ d_keys d' -> ak_workspace_id r ∈ d_workspaces d' ->
       grace_over now r = false) /\
    Forall2 (fun r r' => r' = r \/
      (r' = row_revoked now r /\ forall hash now', (now <= now')%N -> accepts now' hash r = false))
      (d_keys d) (d_keys d').
Proof.
  pose proof (run_rotation_spec now d) as Hs. unfold wp in Hs.
  destruct (run_rotation now d) as [[o|e] d']; [|done]. destruct Hs as [[_ P] Hc].
  exists o, d'. split; [done|]. split.
  - intros Ho r Hr Hws. by apply (Hc Ho (ak_workspace_id r) Hws).
  - eapply Forall2_impl; [exact P|]. intros r r' [->|[-> Hg]]; [by left|right].
    split; [done|]. intros hash now' Hn. by eapply grace_over_dead.
Qed.

(** ** A run *)

Definition demo_row (id : Uuid) (session ws : Uuid) (live : bool) : RefreshTokenRow := {|
  rt_id := id; rt_user_id := 1; rt_workspace_id := ws; rt_token_hash := [];
  rt_expires_at := (10 ^ 15)%Z; rt_revoked_at := if live then None else Some 0%Z;
  rt_replaced_by := None; rt_created_at := 0%Z; rt_session_id := session; rt_access_jti := None;
  rt_client_ip := Some $"192.0.2.1"; rt_client_descriptor := None |}.

Definition no_exports : ExportTables := {|
  t_exports := []; t_pages := []; t_raw_capture := []; t_revocations := []; t_admin := [];
  t_events := fun _ => []; t_queues := ∅;
  t_points := ∅; t_embed := fun _ _ => None; t_redis_faults := fun _ => None;
  t_qdrant_faults := fun _ => None |}.

Definition demo_db (bypass : bool) (arming : nat -> Uuid -> option Uuid) : Db := {|
  d_workspaces := [1%N; 2%N];
  d_vault := [{| ve_id := 1; ve_workspace_id := 1; ve_expires_at := 5 |}];
  d_settings := {[1%N := 30%Z]};
  d_refresh := [demo_row 1 1 1 false; demo_row 2 2 1 true; demo_row 3 3 2 false];
  d_keys := [];
  d_captures := [{| cp_request_id := 1; cp_workspace_id := 1; cp_created_at := 5 |};
                 {| cp_request_id := 2; cp_workspace_id := 2; cp_created_at := 5 |}];
  d_audit := []; d_export := no_exports; d_stamps := fun n => (N.of_nat n, 0%Z); d_bypass := bypass; d_workspaces_armed := false; d_arming := arming;
  d_pg_faults := fun _ => None; d_ch_faults := fun _ => None |}.

Definition demo_now : DateTime := (40 * 86400 * 10 ^ 6)%Z.

(** Armed, the run succeeds and erases what is due; with a scope that does not
    take, it keeps the rows and says so. *)
Example demo_purge :
  let '(r, d) := run_purge 0 9 demo_now (demo_db false (fun _ ws => Some ws)) in
  (match r with inl o => all_ok o | inr _ => false end) = true /\
  length (d_vault d) = 0 /\ length (d_captures d) = 1 /\
  (rt_client_ip <$> d_refresh d) = [None; Some $"192.0.2.1"; None].
Proof. vm_compute. repeat split. Qed.

Example demo_purge_unarmed :
  let '(r, d) := run_purge 0 9 demo_now (demo_db false (fun _ _ => None)) in
  (match r with inl o => all_ok o | inr _ => true end) = false /\ length (d_captures d) = 2.
Proof. vm_compute. repeat split. Qed.
