(* ===== verification/ExportJob.v ===== *)
(** * The audit-export job

    secureprompt-worker/src/tasks/audit_export.rs and the queue drain of
    main.rs, with the envelope of secureprompt-common/src/tasks.rs.

    A run reads two stores, renders and signs what it read (AuditExport) and
    stores the pages with the manifest in one transaction.  Instants of
    Postgres rows are microseconds, those of [request_events] seconds and those
    of the request and the manifest nanoseconds. *)

From S2P Require Import Prelude Rstr Json Types Providers AuditTexts AuditExport.
From S2P Require Import Roles Limits Sessions WorkerDb Sweeps.
From S2P Require AdminAudit.

(** ** [common/src/tasks.rs] *)

Definition QUEUE_ANALYTICS : str := $"queue:analytics".
Definition QUEUE_AUDIT_EXPORT : str := $"queue:audit_export".
Definition QUEUE_RETENTION : str := $"queue:retention".
Definition QUEUE_POLICY_INDEX : str := $"queue:policy_index".
Definition ALL_QUEUES : list str :=
  [QUEUE_ANALYTICS; QUEUE_AUDIT_EXPORT; QUEUE_RETENTION; QUEUE_POLICY_INDEX].

Record TaskEnvelope : Type := {
  te_task_type : str;
  te_payload : Value;
  te_workspace_id : Uuid;
  te_created_at : DateTime;
  te_retry_count : N;
}.

Definition TaskEnvelope_new (task_type : str) (payload : Value) (ws : Uuid) (now : DateTime)
    : TaskEnvelope := {|
  te_task_type := task_type; te_payload := payload; te_workspace_id := ws;
  te_created_at := now; te_retry_count := 0 |}.

(** [u8::saturating_add] *)
Definition with_retry (e : TaskEnvelope) : TaskEnvelope := {|
  te_task_type := te_task_type e; te_payload := te_payload e;
  te_workspace_id := te_workspace_id e; te_created_at := te_created_at e;
  te_retry_count := N.min (te_retry_count e + 1) 255 |}.

Definition ANALYTICS_FLUSH : str := $"analytics.flush".
Definition AUDIT_EXPORT : str := $"audit.export".
Definition RETENTION_PURGE : str := $"retention.purge".
Definition API_KEY_ROTATION_CLEANUP : str := $"api_key.rotation_cleanup".
Definition INDEX_POLICY_RULE : str := $"policy.index_rule".

(** What the job calls outside the repository: the text forms of a [Uuid], an
    instant and an envelope; the instant a [TIMESTAMPTZ] parameter carries, in
    microseconds; ClickHouse's [toDateTime] of a signed number and its order of
    [UUID]s; [String::from_utf8_lossy]. *)
Class JobEnv := {
  uuid_from_text : str -> option Uuid;
  instant_from_text : str -> option DateTime;
  envelope_to_string : TaskEnvelope -> str;
  envelope_from_str : str -> option TaskEnvelope;
  pg_instant : DateTime -> DateTime;
  to_date_time : Z -> Z;
  ch_uuid_key : Uuid -> N;
  from_utf8_lossy : str -> str;
}.

(** ** The request *)

Definition DEFAULT_PAGE_SIZE : N := 5000.
Definition MIN_PAGE_SIZE : N := 1.
Definition MAX_PAGE_SIZE : N := 50000.
Definition MAX_EXPORT_ROWS : N := 500000.

Definition STATUS_RUNNING : str := $"running".
Definition STATUS_COMPLETE : str := $"complete".
Definition STATUS_FAILED : str := $"failed".

Record ExportRequest : Type := {
  q_export_id : Uuid;
  q_workspace_id : Uuid;
  q_from : DateTime;
  q_to : DateTime;
  q_format : ExportFormat;
  q_page_size : N;
}.

Inductive RequestError : Type :=
  | RequestMalformed
  | UnknownFormat
  | PageSizeOutOfRange
  | WindowInverted.

Definition request_error_text (e : RequestError) : str :=
  match e with
  | RequestMalformed => $"export task payload is not a well-formed audit-export request"
  | UnknownFormat => $"export format must be `csv` or `jsonl`"
  | PageSizeOutOfRange => $"page_size is outside the permitted range for an audit export"
  | WindowInverted => $"export window must have `from` strictly before `to`"
  end.

Record RawPayload : Type := {
  rp_export_id : Uuid;
  rp_from : DateTime;
  rp_to : DateTime;
  rp_format : str;
  rp_page_size : option N;
}.

(** A page size in range and a window the right way round. *)
Definition page_size_ok (n : N) : bool := (MIN_PAGE_SIZE <=? n)%N && (n <=? MAX_PAGE_SIZE)%N.

(** [total_pages] and [total_rows] as the outcome carries them. *)
Record ExportOutcome : Type := {
  xo_export_id : option Uuid;
  xo_status : str;
  xo_total_rows : N;
  xo_total_pages : N;
}.

Definition export_ok (o : ExportOutcome) : bool := bool_decide (xo_status o = STATUS_COMPLETE).

Section job.
Context `{ExportEnv} `{JobEnv}.

(** The fields of the payload: an object's, or a sequence's in order. *)
Definition payload_fields (v : Value) : option (Value * Value * Value * Value * option Value) :=
  match v with
  | Object m =>
    e ← obj_get m $"export_id"; f ← obj_get m $"from"; t ← obj_get m $"to";
    fmt ← obj_get m $"format"; Some (e, f, t, fmt, obj_get m $"page_size")
  | Array [e; f; t; fmt; p] => Some (e, f, t, fmt, Some p)
  | _ => None
  end.

Definition raw_payload (v : Value) : option RawPayload :=
  '(e, f, t, fmt, p) ← payload_fields v;
  export_id ← as_str e ≫= uuid_from_text;
  from ← as_str f ≫= instant_from_text;
  to ← as_str t ≫= instant_from_text;
  format ← as_str fmt;
  page_size ← match p with
              | None | Some Null => Some None
              | Some v => Some <$> as_u32 v
              end;
  Some {| rp_export_id := export_id; rp_from := from; rp_to := to; rp_format := format;
          rp_page_size := page_size |}.

Definition parse_request (envelope : TaskEnvelope) : ExportRequest + RequestError :=
  match raw_payload (te_payload envelope) with
  | None => inr RequestMalformed
  | Some raw =>
    match format_parse (rp_format raw) with
    | None => inr UnknownFormat
    | Some format =>
      let page_size := default DEFAULT_PAGE_SIZE (rp_page_size raw) in
      if negb (page_size_ok page_size) then inr PageSizeOutOfRange
      else if (rp_to raw <=? rp_from raw)%Z then inr WindowInverted
      else inl {| q_export_id := rp_export_id raw; q_workspace_id := te_workspace_id envelope;
                  q_from := rp_from raw; q_to := rp_to raw; q_format := format;
                  q_page_size := page_size |}
    end
  end.

(** ** The request log *)

(** [DateTime::timestamp], of nanoseconds. *)
Definition unix_of (t : DateTime) : Z := (t / 10 ^ 9)%Z.

Definition into_audit_row (e : EventRow) : AuditRow := {|
  ar_request_id := ev_request_id e;
  ar_workspace_id := ev_workspace_id e;
  ar_created_at := (Z.of_N (ev_created_at_unix e) * 10 ^ 9)%Z;
  ar_provider := ev_provider e;
  ar_model := ev_model e;
  ar_final_action := ev_final_action e;
  ar_input_tokens := ev_input_tokens e;
  ar_output_tokens := ev_output_tokens e;
  ar_estimated_usage := ev_estimated_usage e;
  ar_cost_usd := ev_cost_usd e;
  ar_user_id := ev_user_id e;
  ar_api_key_id := ev_api_key_id e;
  ar_api_key_name := ev_api_key_name e;
  ar_ip_address := ev_ip_address e;
  ar_user_agent := ev_user_agent e;
  ar_floor_only := ev_floor_only e;
  ar_engines := ev_engines e |}.

(** [SCOPE] *)
Definition in_scope (req : ExportRequest) (e : EventRow) : bool :=
  (ev_workspace_id e =? q_workspace_id req)%N
  && (to_date_time (unix_of (q_from req)) <=? Z.of_N (ev_created_at_unix e))%Z
  && (Z.of_N (ev_created_at_unix e) <? to_date_time (unix_of (q_to req)))%Z.

(** [ORDER_BY] *)
Definition event_le (a b : EventRow) : Prop :=
  (ev_created_at_unix a < ev_created_at_unix b)%N
  \/ (ev_created_at_unix a = ev_created_at_unix b
      /\ (ch_uuid_key (ev_request_id a) <= ch_uuid_key (ev_request_id b))%N).
#[export] Instance event_le_dec : RelDecision event_le.
Proof. intros a b. unfold event_le. apply _. Defined.

(** One reading of the table. *)
Definition read_events : Job (list EventRow) :=
  ch_io;;
  l ← look (fun d => t_events (d_export d) 0);
  store (fun d => set_export (with_events (fun n => t_events (d_export d) (S n)) (d_export d)) d);;
  mret l.

Definition count_rows (req : ExportRequest) : Job N :=
  l ← read_events; mret (N.of_nat (length (filter (fun e => in_scope req e = true) l))).

Definition fetch_rows (req : ExportRequest) : Job (list AuditRow) :=
  l ← read_events;
  mret (into_audit_row <$> merge_sort event_le (filter (fun e => in_scope req e = true) l)).

(** ** The control plane *)

Definition CONTROL_TIME_COLUMNS : list (str * str) :=
  [($"raw_capture_audit", $"created_at"); ($"retention_purge_audit", $"completed_at");
   ($"session_revocation_audit", $"created_at"); ($"admin_audit", $"created_at")].

Definition control_le (a b : ControlRow) : Prop :=
  (cr_occurred_at a < cr_occurred_at b)%Z
  \/ (cr_occurred_at a = cr_occurred_at b
      /\ (str_ltb (cr_source_table a) (cr_source_table b) = true
          \/ (cr_source_table a = cr_source_table b /\ (cr_event_id a <= cr_event_id b)%N))).
#[export] Instance control_le_dec : RelDecision control_le.
Proof. intros a b. unfold control_le. apply _. Defined.

(** [created_at >= $2 AND created_at < $3] *)
Definition in_window (req : ExportRequest) (at_ : DateTime) : bool :=
  (pg_instant (q_from req) <=? at_)%Z && (at_ <? pg_instant (q_to req))%Z.

(** A stored instant, in the model's nanoseconds. *)
Definition instant_of_pg (t : DateTime) : DateTime := (t * 1000)%Z.
Definition pg_instant_value (t : DateTime) : Value := VString (instant_text (instant_of_pg t)).
Definition int_value (z : Z) : Value :=
  Number (if (0 <=? z)%Z then PosInt (Z.to_N z) else NegInt z).

(** The answer of a SELECT: the rows the transaction's scope shows that satisfy
    the predicate. *)
Definition rows_where {A} (scope : option Uuid) (l : Db -> list (Stamped A)) (ws : A -> Uuid)
    (req : ExportRequest) : Job (list (Stamped A)) :=
  pg_io;;
  look (fun d => filter (fun r => visible scope (ws (st_row r)) d
      && (ws (st_row r) =? q_workspace_id req)%N
      && in_window req (st_created_at r) = true) (l d)).

Definition raw_capture_control (req : ExportRequest) (r : Stamped RawCaptureAuditRow) : ControlRow := {|
  cr_event_id := st_id r;
  cr_workspace_id := q_workspace_id req;
  cr_occurred_at := instant_of_pg (st_created_at r);
  cr_event_type := EVENT_RAW_CAPTURE_CHANGED;
  cr_source_table := $"raw_capture_audit";
  cr_actor_user_id := rc_actor_user_id (st_row r);
  cr_actor_email := rc_actor_email (st_row r);
  cr_actor_role := None;
  cr_target_user_id := None;
  cr_target_email := None;
  cr_target_role := None;
  cr_detail := Object (struct_object [
    ($"enabled_before", Bool (rc_enabled_before (st_row r)));
    ($"enabled_after", Bool (rc_enabled_after (st_row r)));
    ($"retention_days_before", int_value (rc_retention_days_before (st_row r)));
    ($"retention_days_after", int_value (rc_retention_days_after (st_row r)))]) |}.

Definition purge_control (req : ExportRequest) (r : PurgeAuditRow) : ControlRow :=
  let p := pa_record r in {|
  cr_event_id := pa_id r;
  cr_workspace_id := q_workspace_id req;
  cr_occurred_at := instant_of_pg (pa_completed_at r);
  cr_event_type := EVENT_RETENTION_PURGE;
  cr_source_table := $"retention_purge_audit";
  cr_actor_user_id := None;
  cr_actor_email := None;
  cr_actor_role := None;
  cr_target_user_id := None;
  cr_target_email := None;
  cr_target_role := None;
  cr_detail := Object (struct_object [
    ($"run_id", uuid_value (pa_run_id r));
    ($"scope", VString (pr_scope p));
    ($"cutoff", pg_instant_value (pr_cutoff p));
    ($"rows_deleted", int_value (pr_rows_deleted p));
    ($"oldest_deleted", of_option pg_instant_value (pr_oldest_deleted p));
    ($"newest_deleted", of_option pg_instant_value (pr_newest_deleted p));
    ($"rows_remaining_past_cutoff", int_value (pr_rows_remaining p));
    ($"status", VString (pr_status p));
    ($"error_present", Bool (bool_decide (pr_error p <> None)));
    ($"started_at", pg_instant_value (pr_started_at p))]) |}.

Definition revocation_control (req : ExportRequest) (r : Stamped RevocationRow) : ControlRow := {|
  cr_event_id := st_id r;
  cr_workspace_id := q_workspace_id req;
  cr_occurred_at := instant_of_pg (st_created_at r);
  cr_event_type := EVENT_SESSION_REVOKED;
  cr_source_table := $"session_revocation_audit";
  cr_actor_user_id := Some (rv_actor_user_id (st_row r));
  cr_actor_email := rv_actor_email (st_row r);
  cr_actor_role := Some (rv_actor_role (st_row r));
  cr_target_user_id := Some (rv_target_user_id (st_row r));
  cr_target_email := Some (rv_target_email (st_row r));
  cr_target_role := Some (rv_target_role (st_row r));
  cr_detail := Object (struct_object [
    ($"revoked_before_unix", int_value (rv_revoked_before_unix (st_row r)));
    ($"refresh_tokens_revoked", int_value (rv_refresh_tokens_revoked (st_row r)))]) |}.

(** The stored detail, read back as a map, with the object's identity merged
    in. *)
Definition merged_detail (r : AdminAudit.AdminAuditRow) : Value :=
  match AdminAudit.ar_detail r with
  | Object m => Object (
      btree_insert (btree_insert (btree_insert (struct_object m)
        $"target_type" (VString (AdminAudit.ar_target_type r)))
        $"target_id" (of_option uuid_value (AdminAudit.ar_target_id r)))
        $"target_label" (of_option VString (AdminAudit.ar_target_label r)))
  | v => v
  end.

Definition admin_control (req : ExportRequest) (r : Stamped AdminAudit.AdminAuditRow) : ControlRow := {|
  cr_event_id := st_id r;
  cr_workspace_id := q_workspace_id req;
  cr_occurred_at := instant_of_pg (st_created_at r);
  cr_event_type := AdminAudit.ar_action (st_row r);
  cr_source_table := $"admin_audit";
  cr_actor_user_id := AdminAudit.ar_actor_user_id (st_row r);
  cr_actor_email := AdminAudit.ar_actor_email (st_row r);
  cr_actor_role := AdminAudit.ar_actor_role (st_row r);
  cr_target_user_id := AdminAudit.ar_target_user_id (st_row r);
  cr_target_email := AdminAudit.ar_target_email (st_row r);
  cr_target_role := AdminAudit.ar_target_role (st_row r);
  cr_detail := merged_detail (st_row r) |}.

Definition EXPORT_SCOPE_NOT_ARMED : str :=
  $"the export transaction could not be scoped to your workspace, so nothing was read and nothing was signed".

(** [begin_scoped] and [scope_is_armed]. *)
Definition export_begin_scoped (ws : Uuid) : Job (option Uuid) := begin_armed ws EXPORT_SCOPE_NOT_ARMED.

(** The policy on [retention_purge_audit] also admits the global rows. *)
Definition purge_rows (scope : option Uuid) (req : ExportRequest) : Job (list PurgeAuditRow) :=
  pg_io;;
  look (fun d => filter (fun r =>
      match pr_workspace_id (pa_record r) with
      | Some ws => visible scope ws d && (ws =? q_workspace_id req)%N
      | None => false
      end && in_window req (pa_completed_at r) = true) (d_audit d)).

Definition global_purge_rows (req : ExportRequest) : Job (list PurgeAuditRow) :=
  pg_io;;
  look (fun d => filter (fun r => bool_decide (pr_workspace_id (pa_record r) = None)
      && in_window req (pa_completed_at r) = true) (d_audit d)).

(** The rows of the four tables come in no order; they are sorted at the end. *)
Definition fetch_control_rows (req : ExportRequest) : Job (list ControlRow * N) :=
  scope ← export_begin_scoped (q_workspace_id req);
  captures ← rows_where scope (fun d => t_raw_capture (d_export d)) rc_workspace_id req;
  purges ← purge_rows scope req;
  revocations ← rows_where scope (fun d => t_revocations (d_export d)) rv_workspace_id req;
  admin ← rows_where scope (fun d => t_admin (d_export d)) AdminAudit.ar_workspace_id req;
  excluded ← global_purge_rows req;
  pg_io;;   (* commit *)
  mret (merge_sort control_le
          ((raw_capture_control req <$> captures) ++ (purge_control req <$> purges)
           ++ (revocation_control req <$> revocations) ++ (admin_control req <$> admin)),
        N.of_nat (length excluded)).

(** ** The sources *)

Definition EXCLUDED_REASON : str :=
  $"Rows whose `workspace_id` IS NULL are purge scopes that are not " ++
  $"per-workspace — the token vault, for instance — and are not this " ++
  $"tenant's records, so they are not exported. This is the number of " ++
  $"them that fell in the window, reported so their exclusion is " ++
  $"visible rather than silent.".

Definition control_sources (excluded_global_purge_rows : N) : list SourceRetention :=
  (fun '(table, _) =>
     let source := no_expiry_for table in
     if decide (table = $"retention_purge_audit") then {|
       sr_source_table := sr_source_table source; sr_store := sr_store source;
       sr_section := sr_section source; sr_ttl_days := sr_ttl_days source;
       sr_boundary := sr_boundary source; sr_window_status := sr_window_status source;
       sr_detail := sr_detail source; sr_excluded_rows := excluded_global_purge_rows;
       sr_excluded_reason := Some EXCLUDED_REASON |}
     else source) <$> CONTROL_TIME_COLUMNS.

(** ** Production *)

(** [slice::chunks], for a size above zero; one turn per row is enough. *)
Fixpoint chunks_fuel {A} (fuel n : nat) (l : list A) : list (list A) :=
  match fuel, l with
  | S fuel', _ :: _ => take n l :: chunks_fuel fuel' n (drop n l)
  | _, _ => []
  end.
Definition chunks {A} (n : nat) (l : list A) : list (list A) := chunks_fuel (length l) n l.

(** [None]: [chunks] panics on size zero. *)
Definition paginate {R} `{ExportRow R} (rows : list R) (page_size : N) (format : ExportFormat)
    : option (list str * list N) :=
  match (match rows with
         | [] => Some [[]]
         | _ => if (page_size =? 0)%N then None else Some (chunks (N.to_nat page_size) rows)
         end) with
  | None => None
  | Some cs => Some ((fun c => render_page c format) <$> cs, (fun c => u32_of_len (length c)) <$> cs)
  end.

Definition produce (req : ExportRequest) (rows : list AuditRow) (control : list ControlRow)
    (excluded_global_purge_rows : N) (generated_at : DateTime) (key : SigningKey)
    : outcome BuildError (list str * SignedExport) :=
  obind (or_panic (paginate rows (q_page_size req) (q_format req)))
    (fun '(data_pages, data_rows_per_page) =>
  obind (or_panic (paginate control (q_page_size req) (q_format req)))
    (fun '(control_pages, control_rows_per_page) =>
  obind (or_panic (retention_for (q_from req) (q_to req) generated_at)) (fun retention =>
  obind (build_manifest (q_export_id req) (q_workspace_id req) (q_from req) (q_to req)
           (q_format req) (q_page_size req)
           [request_section data_pages data_rows_per_page [retention];
            control_section control_pages control_rows_per_page
              (control_sources excluded_global_purge_rows)]
           generated_at key) (fun signed =>
  Ok (data_pages ++ control_pages, signed))))).

(** ** Persistence *)



(** [UPDATE audit_exports SET ... WHERE id = $1 AND workspace_id = $n] *)
Definition is_export (id ws : Uuid) (e : AuditExportRow) : bool :=
  (ax_id e =? id)%N && (ax_workspace_id e =? ws)%N.
Definition update_exports (id ws : Uuid) (f : AuditExportRow -> AuditExportRow)
    (l : list AuditExportRow) : list AuditExportRow :=
  (fun e => if is_export id ws e then f e else e) <$> l.

Definition row_running (now : DateTime) (e : AuditExportRow) : AuditExportRow := {|
  ax_id := ax_id e; ax_workspace_id := ax_workspace_id e; ax_requested_by := ax_requested_by e;
  ax_window_from := ax_window_from e; ax_window_to := ax_window_to e; ax_format := ax_format e;
  ax_page_size := ax_page_size e; ax_status := STATUS_RUNNING; ax_total_rows := ax_total_rows e;
  ax_total_pages := ax_total_pages e; ax_manifest_json := ax_manifest_json e;
  ax_signature_b64 := ax_signature_b64 e; ax_public_key_b64 := ax_public_key_b64 e;
  ax_signing_key_id := ax_signing_key_id e; ax_error := ax_error e; ax_created_at := ax_created_at e;
  ax_started_at := Some now; ax_completed_at := ax_completed_at e |}.

Definition row_failed (reason : str) (now : DateTime) (e : AuditExportRow) : AuditExportRow := {|
  ax_id := ax_id e; ax_workspace_id := ax_workspace_id e; ax_requested_by := ax_requested_by e;
  ax_window_from := ax_window_from e; ax_window_to := ax_window_to e; ax_format := ax_format e;
  ax_page_size := ax_page_size e; ax_status := STATUS_FAILED; ax_total_rows := ax_total_rows e;
  ax_total_pages := ax_total_pages e; ax_manifest_json := ax_manifest_json e;
  ax_signature_b64 := ax_signature_b64 e; ax_public_key_b64 := ax_public_key_b64 e;
  ax_signing_key_id := ax_signing_key_id e; ax_error := Some reason; ax_created_at := ax_created_at e;
  ax_started_at := ax_started_at e; ax_completed_at := Some now |}.

Definition i64_of (n : N) : Z := Z.min (Z.of_N n) i64_max.
Definition i32_max : Z := (2 ^ 31 - 1)%Z.
Definition i32_of (n : N) : Z := Z.min (Z.of_N n) i32_max.

Definition row_complete (signed : SignedExport) (now : DateTime) (e : AuditExportRow)
    : AuditExportRow := {|
  ax_id := ax_id e; ax_workspace_id := ax_workspace_id e; ax_requested_by := ax_requested_by e;
  ax_window_from := ax_window_from e; ax_window_to := ax_window_to e; ax_format := ax_format e;
  ax_page_size := ax_page_size e; ax_status := STATUS_COMPLETE;
  ax_total_rows := Some (i64_of (x_total_rows signed));
  ax_total_pages := Some (i32_of (x_total_pages signed));
  ax_manifest_json := Some (x_manifest_json signed);
  ax_signature_b64 := Some (x_signature_b64 signed);
  ax_public_key_b64 := Some (x_public_key_b64 signed);
  ax_signing_key_id := Some (x_signing_key_id signed); ax_error := None;
  ax_created_at := ax_created_at e; ax_started_at := ax_started_at e; ax_completed_at := Some now |}.

(** One transaction that ends in an update of the export's row. *)
Definition commit_update (id ws : Uuid) (f : DateTime -> AuditExportRow -> AuditExportRow) (d : Db) : Db :=
  next_stamp (set_export (set_exports (update_exports id ws (f (d_stamps d 0).2)
    (t_exports (d_export d))) (d_export d)) d).

Definition mark_running (req : ExportRequest) : Job unit :=
  export_begin_scoped (q_workspace_id req);;
  pg_io;;
  pg_io;;   (* commit *)
  store (commit_update (q_export_id req) (q_workspace_id req) row_running).

(** A failure to record the failure is logged. *)
Definition mark_failed (export_id workspace_id : Uuid) (reason : str) : Job unit :=
  try (export_begin_scoped workspace_id;;
       pg_io;;
       pg_io;;   (* commit *)
       store (commit_update export_id workspace_id (row_failed reason)));;
  mret tt.

Definition is_page_of (id ws : Uuid) (p : ExportPageRow) : bool :=
  (px_export_id p =? id)%N && (px_workspace_id p =? ws)%N.

Definition page_row (req : ExportRequest) (signed : SignedExport) (index : nat) (body : str)
    : ExportPageRow := {|
  px_export_id := q_export_id req; px_workspace_id := q_workspace_id req;
  px_page_number := Z.min (i32_of (N.of_nat index) + 1) i32_max;
  px_row_count := i32_of (default 0%N (x_rows_per_page signed !! index));
  px_sha256 := default [] (x_page_digests signed !! index);
  px_body := from_utf8_lossy body |}.

Definition FOREIGN_KEY_VIOLATION : str := $"violates foreign key constraint".
Definition UNIQUE_VIOLATION : str := $"duplicate key value violates unique constraint".

Definition has_export (id : Uuid) (l : list AuditExportRow) : bool :=
  existsb (fun e => ax_id e =? id)%N l.
Definition has_page (p : ExportPageRow) (l : list ExportPageRow) : bool :=
  existsb (fun q => (px_export_id q =? px_export_id p)%N && (px_page_number q =? px_page_number p)%Z) l.

(** The INSERTs, over the transaction's own view [table] of the pages. *)
Fixpoint insert_pages (req : ExportRequest) (signed : SignedExport) (index : nat) (pages : list str)
    (table : list ExportPageRow) : Job (list ExportPageRow) :=
  match pages with
  | [] => mret table
  | body :: rest =>
    pg_io;;
    exports ← look (fun d => t_exports (d_export d));
    let row := page_row req signed index body in
    if negb (has_export (px_export_id row) exports) then raise FOREIGN_KEY_VIOLATION
    else if has_page row table then raise UNIQUE_VIOLATION
    else insert_pages req signed (S index) rest (table ++ [row])
  end.

Definition persist (req : ExportRequest) (pages : list str) (signed : SignedExport) : Job unit :=
  scope ← export_begin_scoped (q_workspace_id req);
  pg_io;;
  kept ← look (fun d => filter (fun p =>
      visible scope (px_workspace_id p) d && is_page_of (q_export_id req) (q_workspace_id req) p = false)
      (t_pages (d_export d)));
  table ← insert_pages req signed 0 pages kept;
  pg_io;;
  pg_io;;   (* commit *)
  store (fun d => commit_update (q_export_id req) (q_workspace_id req) (row_complete signed)
                    (set_export (set_pages table (d_export d)) d)).

(** ** The run *)

Definition CONTROL_UNREADABLE : str :=
  $"the control-plane audit trail could not be read, so no export was produced " ++
  $"rather than one covering gateway traffic alone. An export that carried only " ++
  $"the request log would look complete and would not be. The store's own error " ++
  $"message is in the gateway log.".
Definition COUNT_UNANSWERED : str :=
  $"the analytics store did not answer, so no export was produced rather than an " ++
  $"empty one. An empty export is a factual claim that the window held no traffic, " ++
  $"and this run could not establish that. The store's own error message is in the " ++
  $"gateway log.".
Definition FETCH_UNANSWERED : str :=
  $"the analytics store did not answer, so no export was produced rather than a " ++
  $"partial one. The store's own error message is in the gateway log.".
Definition BUILD_FAILED : str :=
  $"the export manifest could not be built, so nothing was published.".
Definition PERSIST_FAILED : str :=
  $"the export was produced but could not be stored, so nothing was published.".
Definition over_cap_text (count max_export_rows : N) : str :=
  $"this window selects " ++ show_N count ++ $" rows, over the " ++ show_N max_export_rows ++
  $"-row export cap. The export was REFUSED rather than truncated, because a truncated " ++
  $"export carrying a valid signature would look complete. Narrow the window " ++
  $"and request again.".

Definition outcome_failed (id : option Uuid) : ExportOutcome := {|
  xo_export_id := id; xo_status := STATUS_FAILED; xo_total_rows := 0; xo_total_pages := 0 |}.

(** A refusal, recorded on the export's row. *)
Definition refuse (req : ExportRequest) (reason : str) : Job (option ExportOutcome) :=
  mark_failed (q_export_id req) (q_workspace_id req) reason;;
  mret (Some (outcome_failed (Some (q_export_id req)))).

Definition u64_saturating_add (a b : N) : N := N.min (a + b) (2 ^ 64 - 1).

(** The end of [run_with]: produce and store.  [None] is a panic. *)
Definition publish (req : ExportRequest) (rows : list AuditRow) (control : list ControlRow)
    (excluded : N) (generated_at : DateTime) (key : SigningKey) : Job (option ExportOutcome) :=
  match produce req rows control excluded generated_at key with
  | Panic => mret None
  | Err _ => refuse req BUILD_FAILED
  | Ok (pages, signed) =>
    stored ← try (persist req pages signed);
    match stored with
    | inr _ => refuse req PERSIST_FAILED
    | inl _ => mret (Some {| xo_export_id := Some (q_export_id req); xo_status := STATUS_COMPLETE;
                             xo_total_rows := x_total_rows signed;
                             xo_total_pages := x_total_pages signed |})
    end
  end.

Definition run_with (envelope : TaskEnvelope) (key : outcome KeyError SigningKey)
    (max_export_rows : N) (generated_at : DateTime) : Job (option ExportOutcome) :=
  match parse_request envelope with
  | inr _ => mret (Some (outcome_failed None))
  | inl req =>
    started ← try (mark_running req);
    match started, key with
    | inr _, _ => mret (Some (outcome_failed (Some (q_export_id req))))
    | _, Panic => mret None
    | _, Err e => refuse req (key_error_text e)
    | _, Ok key =>
      found ← try (fetch_control_rows req);
      match found with
      | inr _ => refuse req CONTROL_UNREADABLE
      | inl (control, excluded) =>
        count ← try (count_rows req);
        match count with
        | inr _ => refuse req COUNT_UNANSWERED
        | inl n =>
          let count := u64_saturating_add n (N.of_nat (length control)) in
          if (max_export_rows <? count)%N then refuse req (over_cap_text count max_export_rows)
          else
            rows ← try (fetch_rows req);
            match rows with
            | inr _ => refuse req FETCH_UNANSWERED
            | inl rows => publish req rows control excluded generated_at key
            end
        end
      end
    end
  end.

(** [run], with the process environment's answer for the key and the clock. *)
Definition run_export (env : str -> option str) (now : DateTime) (envelope : TaskEnvelope)
    : Job (option ExportOutcome) :=
  run_with envelope (signing_key_from_env env) MAX_EXPORT_ROWS now.
End job.
