(* ===== verification/QueueDrain.v ===== *)
(** * The queue drain

    secureprompt-worker/src/main.rs, [run_queue_drain] and [dispatch_task], and
    tasks/index_policy_rule.rs. *)

From S2P Require Import Prelude Rstr Json Types Providers AuditTexts AuditExport.
From S2P Require Import Limits Sessions WorkerDb Sweeps ExportJob.

Section drain.
Context `{ExportEnv} `{JobEnv}.

Definition redis_io : Job unit := fun d =>
  let t := d_export d in
  let f := t_redis_faults t in
  let d' := set_export (with_replies (t_embed t) (fun n => f (S n)) (t_qdrant_faults t) t) d in
  match f 0 with None => (inl tt, d') | Some e => (inr e, d') end.
Definition qdrant_io : Job unit := fun d =>
  let t := d_export d in
  let f := t_qdrant_faults t in
  let d' := set_export (with_replies (t_embed t) (t_redis_faults t) (fun n => f (S n)) t) d in
  match f 0 with None => (inl tt, d') | Some e => (inr e, d') end.

(** ** [index_policy_rule.rs] *)

Definition context {A} (o : option A) (message : str) : Job A :=
  match o with Some a => mret a | None => raise message end.

(** The sidecar's /embed. *)
Definition embed (text : str) : Job (list f64) := fun d =>
  let t := d_export d in
  let d' := set_export (with_replies (fun n => t_embed t (S n)) (t_redis_faults t)
                          (t_qdrant_faults t) t) d in
  match t_embed t 0 text with
  | Some v => (inl v, d')
  | None => (inr $"IndexPolicyRule: failed to call ML sidecar /embed", d')
  end.

Definition index_policy_rule (task : TaskEnvelope) : Job unit :=
  rule_id ← context (get (te_payload task) $"rule_id" ≫= as_str)
              $"IndexPolicyRule: missing rule_id in payload";
  condition_text ← context (get (te_payload task) $"condition_text" ≫= as_str)
              $"IndexPolicyRule: missing condition_text in payload";
  vector ← embed condition_text;
  point ← context (uuid_from_text rule_id) $"IndexPolicyRule: rule_id is not a valid UUID";
  qdrant_io;;
  store (fun d => set_export (set_points (<[point := {|
    pp_vector := vector; pp_workspace_id := show_uuid (te_workspace_id task);
    pp_doc_type := $"policy_rule"; pp_rule_id := rule_id |}]> (t_points (d_export d)))
    (d_export d)) d).

Definition handle_index_policy_rule (task : TaskEnvelope) : Job bool :=
  r ← try (index_policy_rule task); mret (match r with inl _ => true | inr _ => false end).

(** ** [main.rs] *)

(** What one turn of the loop recorded; [Died]: the loop's task panicked. *)
Inductive Drained : Type :=
  | Idle
  | DrainError
  | Task (task_type result : str)
  | Died.

Definition ok_or_error (ok : bool) : str := if ok then $"ok" else $"error".

Definition dispatch_task (env : str -> option str) (now : DateTime) (run_id : Uuid)
    (task : TaskEnvelope) : Job Drained :=
  if decide (te_task_type task = ANALYTICS_FLUSH) then mret (Task ANALYTICS_FLUSH $"stub")
  else if decide (te_task_type task = AUDIT_EXPORT) then
    o ← run_export env now task;
    mret (match o with
          | None => Died
          | Some o => Task AUDIT_EXPORT (ok_or_error (export_ok o))
          end)
  else if decide (te_task_type task = RETENTION_PURGE) then
    o ← run_purge (now / 1000)%Z run_id (now / 1000)%Z;
    mret (Task RETENTION_PURGE (ok_or_error (all_ok o)))
  else if decide (te_task_type task = API_KEY_ROTATION_CLEANUP) then
    mret (Task API_KEY_ROTATION_CLEANUP $"stub")
  else if decide (te_task_type task = INDEX_POLICY_RULE) then
    ok ← handle_index_policy_rule task; mret (Task INDEX_POLICY_RULE (ok_or_error ok))
  else mret (Task $"unknown" $"unknown").

(** BLPOP: the head of the first queue that has one. *)
Fixpoint blpop (names : list str) (q : gmap str (list str)) : option (str * gmap str (list str)) :=
  match names with
  | [] => None
  | name :: names' =>
    match q !! name with
    | Some (x :: l) => Some (x, <[name := l]> q)
    | _ => blpop names' q
    end
  end.

Definition pop : Job (option str) :=
  redis_io;;
  r ← look (fun d => blpop ALL_QUEUES (t_queues (d_export d)));
  match r with
  | None => mret None
  | Some (x, q) => store (fun d => set_export (set_queues q (d_export d)) d);; mret (Some x)
  end.

(** [&json[..json.len().min(200)]] *)
Definition body_preview (json : str) : option str := slice_to json (N.min (slen json) 200).

(** One turn of the loop: a checkout, a BLPOP whose error reads as nothing, and
    the task. *)
Definition run_queue_drain (env : str -> option str) (now : DateTime) (run_id : Uuid) : Job Drained :=
  conn ← try redis_io;
  match conn with
  | inr _ => mret DrainError
  | inl _ =>
    result ← try pop;
    match result with
    | inr _ | inl None => mret Idle
    | inl (Some json) =>
      match envelope_from_str json with
      | Some task => dispatch_task env now run_id task
      | None => match body_preview json with None => mret Died | Some _ => mret DrainError end
      end
    end
  end.
End drain.
