(* ===== verification/ExportRoutes.v ===== *)
(** * The audit-export routes

    secureprompt-api/src/http/routes/dashboard/audit_export.rs, with
    db/scope.rs and [enqueue_task] of redis/mod.rs. *)

From S2P Require Import Prelude Rstr Json Types Providers AuditTexts AuditExport.
From S2P Require Import Roles Limits Sessions WorkerDb ExportJob QueueDrain.

Definition MAX_WINDOW_DAYS : Z := 366.
Definition STATUS_QUEUED : str := $"queued".

Record CreateExportRequest : Type := {
  ce_from : DateTime;
  ce_to : DateTime;
  ce_format : str;
  ce_page_size : option N;
}.

Record CreateExportResponse : Type := {
  cx_export_id : Uuid;
  cx_status : str;
  cx_status_url : str;
}.

Record ExportSummary : Type := {
  es_export_id : Uuid;
  es_status : str;
  es_format : str;
  es_window_from : DateTime;
  es_window_to : DateTime;
  es_total_rows : option Z;
  es_total_pages : option Z;
  es_created_at : DateTime;
  es_completed_at : option DateTime;
}.

Record ExportDetail : Type := {
  ed_export_id : Uuid;
  ed_workspace_id : Uuid;
  ed_status : str;
  ed_format : str;
  ed_page_size : Z;
  ed_window_from : DateTime;
  ed_window_to : DateTime;
  ed_total_rows : option Z;
  ed_total_pages : option Z;
  ed_manifest_json : option str;
  ed_signature_b64 : option str;
  ed_public_key_b64 : option str;
  ed_signing_key_id : option str;
  ed_error : option str;
  ed_created_at : DateTime;
  ed_completed_at : option DateTime;
  ed_page_url_template : option str;
}.

Record PageResponse : Type := {
  pg_content_type : str;
  pg_content_disposition : str;
  pg_etag : str;
  pg_body : str;
}.

(** ** Handlers: computations that fail with an [ApiError] *)

Definition Api (A : Type) : Type := Db -> result A * Db.

#[export] Instance Api_ret : MRet Api := fun A a d => (Ok a, d).
#[export] Instance Api_bind : MBind Api := fun A B k x d =>
  match x d with
  | (Ok a, d') => k a d'
  | (Err e, d') => (Err e, d')
  | (Panic, d') => (Panic, d')
  end.

Definition of_result {A} (r : result A) : Api A := fun d => (r, d).
Definition api_total {A} (f : Db -> A * Db) : Api A := fun d => let '(a, d') := f d in (Ok a, d').
Definition api_store (f : Db -> Db) : Api unit := fun d => (Ok tt, f d).

Definition store_unavailable (context : str) : ApiError :=
  Internal ($"the audit-export store did not answer while " ++ context ++
    $". Its own error message is in the gateway log, not in this response, because a database " ++
    $"exception quotes the statement that provoked it.").

(** [.map_err(|e| store_unavailable(context, &e))] *)
Definition while_ {A} (context : str) (x : Job A) : Api A := fun d =>
  match x d with
  | (inl a, d') => (Ok a, d')
  | (inr _, d') => (Err (store_unavailable context), d')
  end.

(** [.await.is_ok()] and the like *)
Definition attempt {A} (x : Api A) : Api (result A) := fun d => let '(r, d') := x d in (Ok r, d').

Definition API_SCOPE_NOT_ARMED : str :=
  $"app.current_workspace_id was not armed for this transaction; refusing to " ++
  $"run a row-level-security-protected query that would silently return no rows".

Definition arm_scope (ws : Uuid) : Api (option Uuid) :=
  while_ $"scoping the transaction to your workspace" pg_io;;
  scope ← api_total (set_scope ws);
  while_ $"scoping the transaction to your workspace" pg_io;;
  if decide (scope = Some ws) then mret scope else of_result (Err (Internal API_SCOPE_NOT_ARMED)).

Definition api_begin_scoped (ws : Uuid) : Api (option Uuid) :=
  while_ $"opening a transaction" pg_io;; arm_scope ws.

(** [enqueue_task]: a checkout and an RPUSH. *)
Definition enqueue_task (queue payload : str) : Job unit :=
  redis_io;;
  redis_io;;
  store (fun d => set_export (set_queues
    (<[queue := default [] (t_queues (d_export d) !! queue) ++ [payload]]> (t_queues (d_export d)))
    (d_export d)) d).

(** [num_days] truncates. *)
Definition num_days (span : Z) : Z := (span ÷ nanos_per_day)%Z.

Definition validate (req : CreateExportRequest) : result (ExportFormat * N) :=
  obind (ok_or (format_parse (ce_format req)) (BadRequest $"format must be `csv` or `jsonl`")) (fun format =>
  if (ce_to req <=? ce_from req)%Z then
    Err (BadRequest ($"invalid window: `from` must be strictly before `to` (the window is " ++
      $"half-open, so `from == to` selects nothing)"))
  else
    let span := num_days (ce_to req - ce_from req) in
    if (MAX_WINDOW_DAYS <? span)%Z then
      Err (BadRequest ($"window too large: " ++ show_N (Z.to_N span) ++ $" days (max 366)"))
    else
      let page_size := default DEFAULT_PAGE_SIZE (ce_page_size req) in
      if negb (page_size_ok page_size) then
        Err (BadRequest $"page_size must be between 1 and 50000")
      else Ok (format, page_size)).

Section routes.
Context `{ExportEnv} `{JobEnv}.

Definition key_configured (env : str -> option str) : bool :=
  match env SIGNING_KEY_ENV with
  | Some v => bool_decide (trim v <> [])
  | None => false
  end.

Definition NO_KEY : ApiError := ServiceUnavailable (
  $"no audit-export signing key is configured, so no signed export can be " ++
  $"produced. An UNSIGNED export is not offered as a fallback: it would be " ++
  $"indistinguishable from one an auditor fabricated. Set " ++ SIGNING_KEY_ENV ++
  $" on the gateway and the worker.").

Definition new_export (ctx : JwtAuthContext) (body : CreateExportRequest) (format : ExportFormat)
    (page_size : N) (id : Uuid) (now : DateTime) : AuditExportRow := {|
  ax_id := id; ax_workspace_id := jc_workspace_id ctx; ax_requested_by := Some (jc_user_id ctx);
  ax_window_from := pg_instant (ce_from body); ax_window_to := pg_instant (ce_to body);
  ax_format := format_as_str format; ax_page_size := i32_of page_size; ax_status := STATUS_QUEUED;
  ax_total_rows := None; ax_total_pages := None; ax_manifest_json := None; ax_signature_b64 := None;
  ax_public_key_b64 := None; ax_signing_key_id := None; ax_error := None; ax_created_at := now;
  ax_started_at := None; ax_completed_at := None |}.

(** The INSERT: the identifier is the table's primary key. *)
Definition insert_export (row : AuditExportRow) : Job unit :=
  pg_io;;
  exports ← look (fun d => t_exports (d_export d));
  if has_export (ax_id row) exports then raise UNIQUE_VIOLATION else mret tt.

Definition export_payload (id : Uuid) (body : CreateExportRequest) (format : ExportFormat)
    (page_size : N) : Value :=
  Object (struct_object [
    ($"export_id", uuid_value id); ($"from", VString (instant_text (ce_from body)));
    ($"to", VString (instant_text (ce_to body))); ($"format", VString (format_as_str format));
    ($"page_size", u32_value page_size)]).

Definition ENQUEUE_FAILED : str :=
  $"the export task could not be placed on the worker queue, so no export " ++
  $"was produced. Nothing partial was published.".

Definition mark_enqueue_failed (id ws : Uuid) : Api unit :=
  api_begin_scoped ws;;
  while_ $"recording the queueing failure" pg_io;;
  while_ $"committing the queueing failure" pg_io;;
  api_store (commit_update id ws (row_failed ENQUEUE_FAILED)).

(** [id] is [Uuid::new_v4]'s and [now] the clock's (nanoseconds). *)
Definition create_export (env : str -> option str) (id : Uuid) (now : DateTime)
    (ctx : JwtAuthContext) (body : CreateExportRequest) : Api CreateExportResponse :=
  of_result (require_role (jc_role ctx) Admin);;
  let ws := jc_workspace_id ctx in
  '(format, page_size) ← of_result (validate body);
  if negb (key_configured env) then of_result (Err NO_KEY) else
  api_begin_scoped ws;;
  stamp ← api_total (fun d => ((d_stamps d 0).2, d));
  let row := new_export ctx body format page_size id stamp in
  while_ $"recording the export request" (insert_export row);;
  while_ $"committing the export request" pg_io;;
  api_store (fun d => next_stamp (set_export
    (set_exports (t_exports (d_export d) ++ [row]) (d_export d)) d));;
  let envelope := TaskEnvelope_new AUDIT_EXPORT (export_payload id body format page_size) ws now in
  queued ← attempt (while_ $"queueing the task" (enqueue_task QUEUE_AUDIT_EXPORT (envelope_to_string envelope)));
  match queued with
  | Ok _ => mret {| cx_export_id := id; cx_status := STATUS_QUEUED;
                    cx_status_url := $"/v1/audit-exports/" ++ show_uuid id |}
  | _ =>
    attempt (mark_enqueue_failed id ws);;
    of_result (Err (ServiceUnavailable (
      $"the export could not be queued, so it will not be produced. The " ++
      $"request has been recorded as failed rather than left pending.")))
  end.

(** A read in a scoped transaction of its own. *)
Definition scoped_read {A} (ws : Uuid) (reading closing : str) (f : option Uuid -> Db -> A) : Api A :=
  scope ← api_begin_scoped ws;
  a ← while_ reading (pg_io;; look (f scope));
  while_ closing pg_io;;
  mret a.

Definition summary (e : AuditExportRow) : ExportSummary := {|
  es_export_id := ax_id e; es_status := ax_status e; es_format := ax_format e;
  es_window_from := ax_window_from e; es_window_to := ax_window_to e;
  es_total_rows := ax_total_rows e; es_total_pages := ax_total_pages e;
  es_created_at := ax_created_at e; es_completed_at := ax_completed_at e |}.

(** [ORDER BY created_at DESC] *)
Definition newer (a b : AuditExportRow) : Prop := (ax_created_at b <= ax_created_at a)%Z.
#[export] Instance newer_dec : RelDecision newer.
Proof. intros a b. unfold newer. apply _. Defined.

Definition list_limit (limit : option Z) : Z := Z.max 1 (Z.min (default 50%Z limit) 200).

Definition list_exports (ctx : JwtAuthContext) (limit : option Z) : Api (list ExportSummary) :=
  of_result (require_role (jc_role ctx) Admin);;
  let ws := jc_workspace_id ctx in
  rows ← scoped_read ws $"listing exports" $"closing the list read" (fun scope d =>
    take (Z.to_nat (list_limit limit)) (merge_sort newer
      (filter (fun e => visible scope (ax_workspace_id e) d && (ax_workspace_id e =? ws)%N = true)
        (t_exports (d_export d)))));
  mret (summary <$> rows).

Definition detail (id : Uuid) (e : AuditExportRow) : ExportDetail := {|
  ed_export_id := ax_id e; ed_workspace_id := ax_workspace_id e; ed_status := ax_status e;
  ed_format := ax_format e; ed_page_size := ax_page_size e; ed_window_from := ax_window_from e;
  ed_window_to := ax_window_to e; ed_total_rows := ax_total_rows e;
  ed_total_pages := ax_total_pages e; ed_manifest_json := ax_manifest_json e;
  ed_signature_b64 := ax_signature_b64 e; ed_public_key_b64 := ax_public_key_b64 e;
  ed_signing_key_id := ax_signing_key_id e; ed_error := ax_error e; ed_created_at := ax_created_at e;
  ed_completed_at := ax_completed_at e;
  ed_page_url_template :=
    if decide (ax_status e = STATUS_COMPLETE)
    then Some ($"/v1/audit-exports/" ++ show_uuid id ++ $"/pages/{page}") else None |}.

Definition get_export (ctx : JwtAuthContext) (id : Uuid) : Api ExportDetail :=
  of_result (require_role (jc_role ctx) Admin);;
  let ws := jc_workspace_id ctx in
  row ← scoped_read ws $"reading the export" $"closing the export read" (fun scope d =>
    List.find (fun e => visible scope (ax_workspace_id e) d && is_export id ws e) (t_exports (d_export d)));
  match row with
  | None => of_result (Err (NotFound $"export not found"))
  | Some e => mret (detail id e)
  end.

(** The join of pages and exports. *)
Definition find_page (scope : option Uuid) (id ws : Uuid) (page : Z) (d : Db)
    : option (ExportPageRow * AuditExportRow) :=
  List.find (fun '(p, e) =>
      visible scope (px_workspace_id p) d && visible scope (ax_workspace_id e) d
      && (ax_id e =? px_export_id p)%N && is_page_of id ws p && (px_page_number p =? page)%Z
      && (ax_workspace_id e =? ws)%N)
    (list_prod (t_pages (d_export d)) (t_exports (d_export d))).

Definition page_response (show_page : str) (id : Uuid) (p : ExportPageRow) (e : AuditExportRow)
    : PageResponse := {|
  pg_content_type := match format_parse (ax_format e) with
                     | Some f => format_content_type f
                     | None => $"application/octet-stream"
                     end;
  pg_content_disposition := $"attachment; filename=" ++ [dquote] ++ $"audit-export-" ++ show_uuid id
    ++ $"-page-" ++ show_page ++ $"."
    ++ (if decide (ax_format e = $"csv") then $"csv" else $"jsonl") ++ [dquote];
  pg_etag := [dquote] ++ $"sha256:" ++ px_sha256 p ++ [dquote];
  pg_body := px_body p |}.

(** [Display] of an [i32]. *)
Definition show_i32 (z : Z) : str := if (z <? 0)%Z then $"-" ++ show_N (Z.to_N (- z)) else show_N (Z.to_N z).

Definition get_export_page (ctx : JwtAuthContext) (id : Uuid) (page : Z) : Api PageResponse :=
  of_result (require_role (jc_role ctx) Admin);;
  let ws := jc_workspace_id ctx in
  row ← scoped_read ws $"reading the export page" $"closing the page read"
          (fun scope d => find_page scope id ws page d);
  match row with
  | None => of_result (Err (NotFound (
      $"export page not found — the export may still be running, may have " ++
      $"failed, or may have fewer pages than you asked for")))
  | Some (p, e) => mret (page_response (show_i32 page) id p e)
  end.
End routes.
