(* ===== verification/ExportSpec.v ===== *)
(** * What the export job promises

    Pages cut and rendered from the rows that were read, signed; what
    [produce] returns verifies. *)

From S2P Require Import Prelude Rstr Json Types Providers ProvidersSpec AuditTexts AuditExport.
From S2P Require Import AuditExportSpec Roles Limits Sessions WorkerDb ExportJob.

(** ** Chunks *)

Section chunks.
Context {A : Type} (n : nat) (Hn : (0 < n)%nat).

Lemma chunks_fuel_spec fuel (l : list A) :
  (length l <= fuel)%nat ->
  concat (chunks_fuel fuel n l) = l /\ Forall (fun c => 0 < length c <= n)%nat (chunks_fuel fuel n l)
  /\ (length (chunks_fuel fuel n l) <= length l)%nat.
Proof using Hn.
  revert l. induction fuel as [|fuel IH]; intros [|a l] Hl; simpl in Hl; try (split; [|split]; done || lia).
  cbn [chunks_fuel concat length].
  destruct (IH (drop n (a :: l))) as (Hc & Hf & Hle).
  { rewrite length_drop. simpl. lia. }
  rewrite Hc, take_drop. split; [done|]. split.
  - constructor; [|done]. rewrite length_take. simpl. lia.
  - rewrite length_drop in Hle. simpl in Hle. lia.
Qed.
End chunks.

(** ** UTF-8 *)

(** What follows a valid string is judged on its own. *)
Lemma utf8_valid_app a b : utf8_valid a = true -> utf8_valid (a ++ b) = utf8_valid b.
Proof.
  remember (length a) as n eqn:Hn. apply eq_sym, Nat.eq_le_incl in Hn. revert a Hn.
  induction n as [|n IH]; intros [|c a] Hn; simpl in Hn; try lia; try done.
  cbn [utf8_valid app]. destruct (byte_val c <? 128)%N; [apply IH; lia|].
  destruct a as [|d a]; [done|]. cbn [app]. simpl in Hn.
  destruct (in_range 194 223 c).
  { intros [-> Hv]%andb_true_iff. cbn [andb]. apply IH; [lia|done]. }
  destruct a as [|e a]; [done|]. cbn [app]. simpl in Hn.
  destruct (in_range 224 239 c).
  { intros [Hc Hv]%andb_true_iff. rewrite Hc. cbn [andb]. apply IH; [lia|done]. }
  destruct a as [|f a]; [done|]. cbn [app]. simpl in Hn.
  intros [Hc Hv]%andb_true_iff. rewrite Hc. cbn [andb]. apply IH; [lia|done].
Qed.

Section spec.
Context `{ExportEnv} `{JobEnv}.

(** The pages and row counts of the chunks [cs]. *)
Definition rendered {R} `{ExportRow R} (cs : list (list R)) (format : ExportFormat) : list str :=
  (fun c => render_page c format) <$> cs.
Definition counts {R} (cs : list (list R)) : list N := (fun c => u32_of_len (length c)) <$> cs.

Record cut {R} (cs : list (list R)) (rows : list R) (page_size : N) : Prop := {
  cut_concat : concat cs = rows;
  cut_nonempty : cs <> [];
  cut_size : Forall (fun c => (N.of_nat (length c) <= page_size)%N) cs;
  cut_length : (length cs <= S (length rows))%nat;
}.

Lemma paginate_Some {R} `{ExportRow R} (rows : list R) ps fmt pages ns :
  paginate rows ps fmt = Some (pages, ns) ->
  exists cs, cut cs rows ps /\ pages = rendered cs fmt /\ ns = counts cs.
Proof.
  unfold paginate. destruct rows as [|r rows].
  - intros [= <- <-]. exists [[]]. split; [|done]. split; [done|done| |simpl; lia].
    constructor; [simpl; lia|done].
  - destruct (N.eqb_spec ps 0) as [|Hps]; [done|]. intros [= <- <-].
    exists (chunks (N.to_nat ps) (r :: rows)). split; [|done]. unfold chunks.
    destruct (chunks_fuel_spec (N.to_nat ps) ltac:(lia) (length (r :: rows)) (r :: rows)) as (Hc & Hf & Hl);
      [done|].
    split; [done| | |lia].
    + intros E. by rewrite E in Hc.
    + eapply Forall_impl; [exact Hf|]. simpl. intros c Hlen. lia.
Qed.

Lemma paginate_total {R} `{ExportRow R} (rows : list R) ps fmt :
  (ps <> 0)%N -> is_Some (paginate rows ps fmt).
Proof.
  intros Hps. unfold paginate. destruct rows; [done|]. by rewrite (proj2 (N.eqb_neq _ _)).
Qed.

Lemma counts_sum {R} (cs : list (list R)) :
  (N.of_nat (length (concat cs)) < 2 ^ 32)%N ->
  row_sum (counts cs) = N.of_nat (length (concat cs)) /\ Forall (fun r => (r < 2 ^ 32)%N) (counts cs).
Proof.
  induction cs as [|c cs IH]; intros Hl; [done|]. csimpl in *. rewrite length_app in *.
  destruct IH as [-> IH]; [lia|]. unfold counts. csimpl. rewrite u32_of_len_small by lia. split; [lia|].
  constructor; [lia|exact IH].
Qed.

(** A row whose own page is text; every row made of Rust strings is one. *)
Definition printable {R} `{ExportRow R} (row : R) : Prop :=
  forall format, utf8_valid (render_page [row] format) = true.


Lemma render_utf8 {R} `{ExportRow R} (rows : list R) format :
  utf8_valid (render_page (R:=R) [] Csv) = true -> Forall printable rows ->
  utf8_valid (render_page rows format) = true.
Proof.
  intros Hh Hr. destruct format; cbn [render_page] in *.
  - cbn [fmap list_fmap concat] in Hh. rewrite app_nil_r in Hh. rewrite (utf8_valid_app _ _ Hh).
    induction Hr as [|row rows Hrow _ IH]; [done|]. csimpl. rewrite utf8_valid_app; [done|].
    specialize (Hrow Csv). cbn [render_page fmap list_fmap concat] in Hrow.
    rewrite (utf8_valid_app _ _ Hh), app_nil_r in Hrow. exact Hrow.
  - induction Hr as [|row rows Hrow _ IH]; [done|]. csimpl. rewrite utf8_valid_app; [done|].
    specialize (Hrow Jsonl). cbn [render_page fmap list_fmap concat] in Hrow.
    rewrite app_nil_r in Hrow. exact Hrow.
Qed.

Lemma audit_header_utf8 : utf8_valid (render_page (R:=AuditRow) [] Csv) = true.
Proof. vm_compute. reflexivity. Qed.
Lemma control_header_utf8 : utf8_valid (render_page (R:=ControlRow) [] Csv) = true.
Proof. vm_compute. reflexivity. Qed.

Lemma rendered_utf8 {R} `{ExportRow R} (cs : list (list R)) format :
  utf8_valid (render_page (R:=R) [] Csv) = true -> Forall printable (concat cs) ->
  Forall (fun p => utf8_valid p = true) (rendered cs format).
Proof.
  intros Hh. induction cs as [|c cs IH]; csimpl; [constructor|].
  rewrite Forall_app. intros [Hc Hcs]. constructor; [by apply render_utf8|by apply IH].
Qed.

(** ** Production *)

Section produce.
Context (req : ExportRequest) (rows : list AuditRow) (control : list ControlRow) (excluded : N)
  (generated_at : DateTime) (key : SigningKey).

Definition export_inputs (dcs : list (list AuditRow)) (ccs : list (list ControlRow))
    (retention : SourceRetention) : list SectionInput :=
  [request_section (rendered dcs (q_format req)) (counts dcs) [retention];
   control_section (rendered ccs (q_format req)) (counts ccs) (control_sources excluded)].

Definition export_manifest dcs ccs retention : Manifest :=
  built_manifest (q_export_id req) (q_workspace_id req) (q_from req) (q_to req) (q_format req)
    (q_page_size req) (export_inputs dcs ccs retention) generated_at key.

(** What [produce] gives: the rows of both planes, all of them and in order,
    cut into pages, and the signed manifest of those pages. *)
Record produced (pages : list str) (signed : SignedExport) (m : Manifest) : Prop := {
  pd_pages : exists dcs ccs retention,
    cut dcs rows (q_page_size req) /\ cut ccs control (q_page_size req)
    /\ retention_for (q_from req) (q_to req) generated_at = Some retention
    /\ pages = rendered dcs (q_format req) ++ rendered ccs (q_format req)
    /\ m = export_manifest dcs ccs retention
    /\ x_rows_per_page signed = counts dcs ++ counts ccs;
  pd_valid : valid_export (x_manifest_json signed) (x_signature_b64 signed) (x_public_key_b64 signed) pages m;
  pd_typed : manifest_typed m;
  pd_key : x_public_key_b64 signed = b64_encode (vk_to_bytes (verifying_key key));
  pd_rows : x_total_rows signed = N.of_nat (length rows + length control);
  pd_total : m_total_rows m = x_total_rows signed;
  pd_length : x_total_pages signed = N.of_nat (length pages);
  pd_digests : x_page_digests signed = (fun b => to_hex (sha256 b)) <$> pages;
}.

Definition small : Prop := (N.of_nat (length rows + length control) < 2 ^ 31 - 2)%N.

Context `{!ExportLaws}.

Lemma inputs_ok dcs ccs retention :
  cut dcs rows (q_page_size req) -> cut ccs control (q_page_size req) -> small ->
  Forall input_ok (export_inputs dcs ccs retention) /\ pages_ok (all_pages (export_inputs dcs ccs retention))
  /\ row_sum (pg_rows <$> all_pages (export_inputs dcs ccs retention))
     = N.of_nat (length rows + length control)
  /\ pg_rows <$> all_pages (export_inputs dcs ccs retention) = counts dcs ++ counts ccs.
Proof.
  intros [D1 D2 D3 D4] [C1 C2 C3 C4] Hs. unfold small in Hs.
  assert (Hin : Forall input_ok (export_inputs dcs ccs retention)).
  { repeat constructor; cbn [si_pages si_rows_per_page request_section control_section];
      unfold rendered, counts; rewrite ?length_fmap; try done; by intros ?%fmap_nil_inv. }
  assert (Hr : pg_rows <$> all_pages (export_inputs dcs ccs retention) = counts dcs ++ counts ccs).
  { rewrite (all_pages_rows _ Hin). cbn. by rewrite app_nil_r. }
  destruct (counts_sum dcs) as [Sd Fd]; [rewrite D1; lia|].
  destruct (counts_sum ccs) as [Sc Fc]; [rewrite C1; lia|].
  split; [done|]. split; [split|split; [|done]].
  - rewrite Hr. by apply Forall_app.
  - rewrite <- (length_fmap pg_rows), Hr, length_app. unfold counts. rewrite !length_fmap. lia.
  - rewrite Hr, row_sum_app, Sd, Sc, D1, C1. lia.
Qed.

Lemma produce_cases :
  small -> (q_page_size req <> 0)%N -> is_Some (retention_for (q_from req) (q_to req) generated_at) ->
  produce req rows control excluded generated_at key = Err ManifestSerialization \/
  exists pages signed m, produce req rows control excluded generated_at key = Ok (pages, signed)
    /\ produced pages signed m.
Proof.
  intros Hs Hps [retention Hret]. unfold produce.
  destruct (paginate_total rows _ (q_format req) Hps) as [[dp dr] Hd].
  destruct (paginate_total control _ (q_format req) Hps) as [[cp cr] Hc].
  rewrite Hd, Hc, Hret. cbn [or_panic obind].
  destruct (paginate_Some _ _ _ _ _ Hd) as (dcs & Cd & -> & ->).
  destruct (paginate_Some _ _ _ _ _ Hc) as (ccs & Cc & -> & ->).
  destruct (inputs_ok dcs ccs retention Cd Cc Hs) as (Hin & Hok & Hsum & Hcounts).
  fold (export_inputs dcs ccs retention).
  set (m := export_manifest dcs ccs retention).
  assert (Hnames : si_section <$> export_inputs dcs ccs retention = REQUIRED_SECTIONS) by reflexivity.
  destruct (manifest_to_string m) as [mj|] eqn:Hmj; [right|left].
  - rewrite (build_manifest_ok _ _ _ _ _ _ _ _ _ _ Hnames Hin Hok Hmj). cbn [obind].
    pose proof (built_manifest_valid _ _ _ _ _ _ _ _ _ _ Hnames Hin Hok Hmj) as Hv.
    cbn [concat fmap list_fmap si_pages export_inputs request_section control_section] in Hv.
    rewrite app_nil_r in Hv.
    eexists _, _, m. split; [reflexivity|].
    split; cbn [x_manifest_json x_signature_b64 x_public_key_b64 x_total_rows x_total_pages x_page_digests
                x_rows_per_page].
    + exists dcs, ccs, retention. by rewrite Hcounts.
    + exact Hv.
    + by apply built_manifest_typed.
    + done.
    + exact Hsum.
    + done.
    + exact (ve_total_pages _ _ _ _ _ Hv).
    + pose proof (all_pages_bytes _ Hin) as Hb.
      cbn [concat fmap list_fmap si_pages export_inputs request_section control_section] in Hb.
      rewrite app_nil_r in Hb. rewrite <- Hb. unfold page_digests. by rewrite <- !list_fmap_compose.
  - unfold build_manifest. rewrite (proj2 (sections_required_iff _)), check_inputs_ok by done.
    cbn [negb]. cbv zeta.
    pose proof (build_sections_spec (export_inputs dcs ccs retention)
      (genesis (q_export_id req) (q_workspace_id req) (q_from req) (q_to req) (q_format req) (q_page_size req))
      [] [] Hin Hok) as Hb.
    cbn [build_state page_digests page_entries fmap list_fmap chain_of fold_left length row_sum foldr app] in Hb.
    unfold build_state in Hb. cbn [page_digests page_entries fmap list_fmap length row_sum foldr app] in Hb.
    unfold chain_of at 1 in Hb. cbn [fold_left] in Hb. rewrite Hb.
    cbn [or_panic obind b_chain b_entries b_digests b_rows b_sections b_all_pages b_total_rows].
    unfold m, export_manifest, built_manifest in Hmj. cbn [app] in Hmj |- *. by rewrite Hmj.
Qed.

Lemma produce_Ok pages signed :
  small -> (q_page_size req <> 0)%N ->
  produce req rows control excluded generated_at key = Ok (pages, signed) ->
  exists m, produced pages signed m.
Proof.
  intros Hs Hps Hp.
  destruct (retention_for (q_from req) (q_to req) generated_at) as [r|] eqn:Hr.
  - destruct (produce_cases Hs Hps) as [E|(pages' & signed' & m & E & Hm)]; [by eexists|congruence|].
    rewrite E in Hp. injection Hp as -> ->. by exists m.
  - exfalso. unfold produce in Hp. apply obind_Ok in Hp as ([] & _ & Hp).
    apply obind_Ok in Hp as ([] & _ & Hp). by rewrite Hr in Hp.
Qed.

Lemma produced_utf8 pages signed m :
  Forall printable rows -> Forall printable control -> produced pages signed m ->
  Forall (fun p => utf8_valid p = true) pages.
Proof using.
  intros Hr Hc [(dcs & ccs & r & [D1 _ _ _] & [C1 _ _ _] & _ & -> & _) _ _ _ _ _ _ _].
  apply Forall_app. rewrite <- D1 in Hr. rewrite <- C1 in Hc.
  split; apply rendered_utf8; auto using audit_header_utf8, control_header_utf8.
Qed.

Lemma produced_length pages signed m : small -> produced pages signed m -> (N.of_nat (length pages) < 2 ^ 31)%N.
Proof using.
  intros Hs [(dcs & ccs & r & [D1 D2 D3 D4] & [C1 C2 C3 C4] & _ & -> & _) _ _ _ _ _ _ _].
  unfold small in Hs. rewrite length_app. unfold rendered. rewrite !length_fmap. lia.
Qed.
End produce.

Lemma parse_request_page_size envelope req :
  parse_request envelope = inl req -> (1 <= q_page_size req <= MAX_PAGE_SIZE)%N.
Proof.
  unfold parse_request. destruct (raw_payload _) as [raw|]; [|done]. destruct (format_parse _); [|done].
  destruct (page_size_ok _) eqn:Hp; [|done]. cbn [negb]. destruct (_ <=? _)%Z; [done|].
  intros [= <-]. cbn [q_page_size]. unfold page_size_ok, MIN_PAGE_SIZE in Hp. lia.
Qed.
End spec.
