(* ===== verification/ExportTx.v ===== *)
(** * The transactions on the exports

    Everything that ever writes [audit_exports] or [audit_export_pages] is one
    of a few transactions ([tx]); the jobs and routes are sequences of them
    (ExportRefine).  Whatever their interleaving, an export whose row says
    complete has all its pages stored and verifies ([published]). *)

From S2P Require Import Prelude Rstr Json Types Providers ProvidersSpec AuditTexts AuditExport.
From S2P Require Import AuditExportSpec Roles Limits Sessions WorkerDb ExportJob.
From S2P Require Import QueueDrain ExportRoutes ExportSpec.

(** An object of strings and unsigned integers, in key order. *)
Definition plain (v : Value) : Prop :=
  exists m, v = Object m /\ StronglySorted (fun a b => str_ltb a.1 b.1 = true) m
    /\ Forall (fun kv => match kv.2 with
                         | VString _ => True
                         | Number (PosInt n) => (n < 2 ^ 64)%N
                         | _ => False
                         end) m.
(** What the job relies on of the libraries. *)
Class JobLaws `{ExportEnv} `{JobEnv} : Prop := {
  lossy_valid : forall s, utf8_valid s = true -> from_utf8_lossy s = s;
  uuid_from_show : forall u, (u < 2 ^ 128)%N -> uuid_from_text (show_uuid u) = Some u;
  instant_from_shown : forall t, instant_from_text (instant_text t) = Some t;
  envelope_from_to : forall e, plain (te_payload e) -> (te_retry_count e < 256)%N ->
    envelope_from_str (envelope_to_string e) = Some e;
}.

(** ** Filters that keep nothing or everything *)

Section filters.
Context {A : Type} (P : A -> Prop) `{forall x, Decision (P x)}.

Lemma filter_keep_none (l : list A) : (forall x, x ∈ l -> ~ P x) -> filter P l = [].
Proof.
  induction l as [|x l IH]; intros Hl; [done|]. rewrite filter_cons, decide_False.
  - apply IH. intros y Hy. apply Hl. by right.
  - apply Hl. by left.
Qed.
Lemma filter_keep_all (l : list A) : (forall x, x ∈ l -> P x) -> filter P l = l.
Proof.
  induction l as [|x l IH]; intros Hl; [done|]. rewrite filter_cons, decide_True by (apply Hl; by left).
  f_equal. apply IH. intros y Hy. apply Hl. by right.
Qed.
End filters.

Section tx.
Context `{ExportEnv} `{JobEnv}.

(** ** Inserting the pages *)

Fixpoint inserted (req : ExportRequest) (signed : SignedExport) (exports : list AuditExportRow)
    (index : nat) (pages : list str) (table : list ExportPageRow) : option (list ExportPageRow) :=
  match pages with
  | [] => Some table
  | body :: rest =>
    let row := page_row req signed index body in
    if negb (has_export (px_export_id row) exports) || has_page row table then None
    else inserted req signed exports (S index) rest (table ++ [row])
  end.

Definition page_key (p : ExportPageRow) : Uuid * Z := (px_export_id p, px_page_number p).

Lemma has_page_false p l : has_page p l = false -> page_key p ∉ page_key <$> l.
Proof.
  unfold has_page. intros Hh (q & E & Hq)%list_elem_of_fmap. unfold page_key in E. simplify_eq.
  rewrite <- not_true_iff_false in Hh. apply Hh, existsb_exists. exists q.
  split; [by apply list_elem_of_In|]. lia.
Qed.

Lemma inserted_spec req signed exports index pages table table' :
  inserted req signed exports index pages table = Some table' ->
  table' = table ++ imap (fun i b => page_row req signed (index + i) b) pages
  /\ (NoDup (page_key <$> table) -> NoDup (page_key <$> table'))
  /\ (pages <> [] -> has_export (q_export_id req) exports = true).
Proof.
  revert index table. induction pages as [|b pages IH]; intros index table; cbn [inserted].
  - intros [= ->]. by rewrite app_nil_r.
  - destruct (has_export _ _) eqn:He; [|done]. cbn [negb orb]. destruct (has_page _ _) eqn:Hp; [done|].
    intros (-> & Hnd & _)%IH. split; [|split; [|done]].
    + rewrite <- app_assoc. cbn [imap app]. rewrite Nat.add_0_r. do 2 f_equal.
      apply imap_ext. intros i x _. cbn. f_equal. lia.
    + intros Ht. apply Hnd. rewrite fmap_app. apply NoDup_app. split; [done|]. split; [|apply NoDup_singleton].
      intros k Hk ->%list_elem_of_singleton. by apply (has_page_false _ _ Hp).
Qed.

(** ** The transactions *)

(** The pages a re-run starts from. *)
Definition wiped (req : ExportRequest) (l : list ExportPageRow) : list ExportPageRow :=
  filter (fun p => is_page_of (q_export_id req) (q_workspace_id req) p = false) l.

Definition exports_of (d : Db) : list AuditExportRow := t_exports (d_export d).
Definition pages_of (d : Db) : list ExportPageRow := t_pages (d_export d).

Inductive tx (d d' : Db) : Prop :=
  | tx_other :
      exports_of d' = exports_of d -> pages_of d' = pages_of d -> tx d d'
  | tx_create ctx body format page_size id now :
      has_export id (exports_of d) = false ->
      exports_of d' = exports_of d ++ [new_export ctx body format page_size id now] ->
      pages_of d' = pages_of d -> tx d d'
  | tx_running id ws now :
      exports_of d' = update_exports id ws (row_running now) (exports_of d) ->
      pages_of d' = pages_of d -> tx d d'
  | tx_failed id ws reason now :
      exports_of d' = update_exports id ws (row_failed reason now) (exports_of d) ->
      pages_of d' = pages_of d -> tx d d'
  | tx_complete envelope req rows control excluded generated_at key pages signed now :
      parse_request envelope = inl req -> small rows control -> Forall (fun p => utf8_valid p = true) pages ->
      produce req rows control excluded generated_at key = Ok (pages, signed) ->
      inserted req signed (exports_of d) 0 pages (wiped req (pages_of d)) = Some (pages_of d') ->
      exports_of d' = update_exports (q_export_id req) (q_workspace_id req) (row_complete signed now)
        (exports_of d) ->
      tx d d'.

(** ** The invariant *)

(** The pages [ps] are those of the export [e], and verify. *)
Definition verifiable (e : AuditExportRow) (ps : list ExportPageRow) : Prop :=
  exists mj sig pk m bodies,
    ax_manifest_json e = Some mj /\ ax_signature_b64 e = Some sig /\ ax_public_key_b64 e = Some pk
    /\ ax_total_pages e = Some (Z.of_nat (length bodies))
    /\ ax_total_rows e = Some (Z.of_N (m_total_rows m))
    /\ (N.of_nat (length bodies) < 2 ^ 31)%N
    /\ valid_export mj sig pk bodies m /\ manifest_typed m
    /\ m_export_id m = ax_id e /\ m_workspace_id m = ax_workspace_id e
    /\ px_body <$> ps = bodies
    /\ px_page_number <$> ps = Z.of_nat <$> seq 1 (length bodies)
    /\ px_sha256 <$> ps = (fun b => to_hex (sha256 b)) <$> bodies.

Definition pages_of_export (e : AuditExportRow) (l : list ExportPageRow) : list ExportPageRow :=
  filter (fun p => is_page_of (ax_id e) (ax_workspace_id e) p = true) l.

Record published (d : Db) : Prop := {
  pb_exports : NoDup (ax_id <$> exports_of d);
  pb_pages : NoDup (page_key <$> pages_of d);
  pb_complete : forall e, e ∈ exports_of d -> ax_status e = STATUS_COMPLETE ->
    verifiable e (pages_of_export e (pages_of d));
}.

Lemma published_ext d d' :
  exports_of d' = exports_of d -> pages_of d' = pages_of d -> published d -> published d'.
Proof. intros E P [I1 I2 I3]. split; by rewrite ?E, ?P. Qed.

Lemma has_export_false id l : has_export id l = false -> id ∉ ax_id <$> l.
Proof.
  unfold has_export. intros Hh (e & -> & He)%list_elem_of_fmap. rewrite <- not_true_iff_false in Hh.
  apply Hh, existsb_exists. exists e. split; [by apply list_elem_of_In|]. lia.
Qed.

(** Updates keep identifiers and, when they do not complete the export, leave
    the complete ones as they were. *)
Lemma update_ids id ws f l :
  (forall e, ax_id (f e) = ax_id e) -> ax_id <$> update_exports id ws f l = ax_id <$> l.
Proof.
  intros Hf. unfold update_exports. rewrite <- list_fmap_compose. apply list_fmap_ext.
  intros _ e _. unfold compose. by destruct (is_export id ws e).
Qed.

Lemma update_other id ws f l e :
  e ∈ update_exports id ws f l -> (forall x, ax_status (f x) <> STATUS_COMPLETE) ->
  ax_status e = STATUS_COMPLETE -> e ∈ l.
Proof.
  intros (x & -> & Hx)%list_elem_of_fmap Hf Hs. destruct (is_export id ws x); [|done]. by destruct (Hf x).
Qed.

Lemma published_update d d' id ws f :
  published d -> (forall e, ax_id (f e) = ax_id e) -> (forall e, ax_status (f e) <> STATUS_COMPLETE) ->
  exports_of d' = update_exports id ws f (exports_of d) -> pages_of d' = pages_of d -> published d'.
Proof.
  intros [I1 I2 I3] Hid Hst E P. split; rewrite ?E, ?P; [by rewrite update_ids|done|].
  intros e He Hs. apply I3; [|done]. by eapply update_other.
Qed.

Lemma published_create d d' row :
  published d -> has_export (ax_id row) (exports_of d) = false -> ax_status row <> STATUS_COMPLETE ->
  exports_of d' = exports_of d ++ [row] -> pages_of d' = pages_of d -> published d'.
Proof.
  intros [I1 I2 I3] Hf Hst E P. split; rewrite ?E, ?P; [|done|].
  - rewrite fmap_app. apply NoDup_app. split; [done|]. split; [|apply NoDup_singleton].
    intros k Hk ->%list_elem_of_singleton. by apply (has_export_false _ _ Hf).
  - intros e [He| ->%list_elem_of_singleton]%elem_of_app Hs; [by apply I3|done].
Qed.

(** ** Completing an export *)

Context `{!ExportLaws} `{!JobLaws}.

Lemma wiped_pages req e l :
  is_export (q_export_id req) (q_workspace_id req) e = false ->
  pages_of_export e (wiped req l) = pages_of_export e l.
Proof.
  intros He. unfold pages_of_export, wiped. rewrite list_filter_filter. apply list_filter_iff.
  intros p. split; [by intros [? ?]|]. intros Hp. split; [done|].
  unfold is_export in He. unfold is_page_of in *. lia.
Qed.

Lemma wiped_own req e l :
  is_export (q_export_id req) (q_workspace_id req) e = true -> pages_of_export e (wiped req l) = [].
Proof.
  intros He. unfold pages_of_export, wiped. apply filter_keep_none. intros p [Hp _]%list_elem_of_filter.
  unfold is_export in He. unfold is_page_of in *. lia.
Qed.

(** The pages a completed run writes. *)
Definition written (req : ExportRequest) (signed : SignedExport) (pages : list str) : list ExportPageRow :=
  imap (fun i b => page_row req signed i b) pages.

Lemma written_lookup req signed pages i p :
  written req signed pages !! i = Some p <-> exists b, pages !! i = Some b /\ p = page_row req signed i b.
Proof.
  unfold written. rewrite list_lookup_imap. destruct (pages !! i) as [b|]; simpl; [|naive_solver].
  split; [intros [= <-]; eauto|]. by intros (b' & [= <-] & ->).
Qed.

Lemma written_own req signed pages e :
  pages_of_export e (written req signed pages)
  = if is_export (q_export_id req) (q_workspace_id req) e then written req signed pages else [].
Proof.
  unfold pages_of_export. destruct (is_export _ _ e) eqn:He; unfold is_export in He.
  - apply filter_keep_all. intros p (i & (b & _ & ->)%written_lookup)%list_elem_of_lookup.
    unfold is_page_of. cbn. lia.
  - apply filter_keep_none. intros p (i & (b & _ & ->)%written_lookup)%list_elem_of_lookup.
    unfold is_page_of. cbn. lia.
Qed.

Lemma written_columns req signed pages :
  Forall (fun p => utf8_valid p = true) pages -> (N.of_nat (length pages) < 2 ^ 31)%N ->
  x_page_digests signed = (fun b => to_hex (sha256 b)) <$> pages ->
  px_body <$> written req signed pages = pages
  /\ px_page_number <$> written req signed pages = Z.of_nat <$> seq 1 (length pages)
  /\ px_sha256 <$> written req signed pages = (fun b => to_hex (sha256 b)) <$> pages.
Proof.
  intros Hu Hl Hd. unfold written. rewrite !fmap_imap. unfold compose. cbn [px_body px_page_number px_sha256 page_row].
  split; [|split]; apply list_eq; intros i; rewrite list_lookup_imap.
  - destruct (pages !! i) as [b|] eqn:Hb; [|done]. cbn. f_equal. apply lossy_valid.
    eapply Forall_lookup_1 in Hu; [|exact Hb]. done.
  - rewrite list_lookup_fmap. destruct (pages !! i) as [b|] eqn:Hb.
    + pose proof (lookup_lt_Some _ _ _ Hb). rewrite lookup_seq_lt by done. cbn. f_equal.
      unfold i32_of, i32_max. lia.
    + apply lookup_ge_None in Hb. rewrite lookup_seq_ge by done. done.
  - rewrite list_lookup_fmap. destruct (pages !! i) as [b|] eqn:Hb; [|done]. cbn.
    by rewrite Hd, list_lookup_fmap, Hb.
Qed.

Lemma published_complete d d' envelope req rows control excluded gen key pages signed now :
  published d ->
  parse_request envelope = inl req -> small rows control -> Forall (fun p => utf8_valid p = true) pages ->
  produce req rows control excluded gen key = Ok (pages, signed) ->
  inserted req signed (exports_of d) 0 pages (wiped req (pages_of d)) = Some (pages_of d') ->
  exports_of d' = update_exports (q_export_id req) (q_workspace_id req) (row_complete signed now) (exports_of d) ->
  published d'.
Proof.
  intros [I1 I2 I3] Hreq%parse_request_page_size Hs Hu Hp (Hpages & Hnd & _)%inserted_spec He.
  assert (q_page_size req <> 0)%N as Hps by lia.
  destruct (produce_Ok _ _ _ _ _ _ _ _ Hs Hps Hp) as (m & Hm).
  pose proof (produced_length _ _ _ _ _ _ _ _ _ Hs Hm) as Hlen.
  change (imap _ pages) with (written req signed pages) in Hpages.
  split.
  - by rewrite He, update_ids.
  - apply Hnd. eapply sublist_NoDup; [exact I2|]. apply fmap_sublist, sublist_filter.
  - intros e Hin Hst. rewrite Hpages. unfold pages_of_export at 1. rewrite filter_app.
    change (filter _ (written req signed pages)) with (pages_of_export e (written req signed pages)).
    change (filter _ (wiped req (pages_of d))) with (pages_of_export e (wiped req (pages_of d))).
    rewrite written_own. rewrite He in Hin. apply list_elem_of_fmap in Hin as (x & Ex & Hx).
    destruct (is_export _ _ x) eqn:Eo; subst e.
    + assert (is_export (q_export_id req) (q_workspace_id req) (row_complete signed now x) = true) as Eo'
        by exact Eo.
      rewrite Eo', wiped_own by done. cbn [app].
      destruct (written_columns req signed pages Hu Hlen (pd_digests _ _ _ _ _ _ _ _ _ Hm)) as (Cb & Cn & Cs).
      destruct Hm as [(dcs & ccs & r & _ & _ & _ & _ & Em & _) Hv Hty _ Hrows Htot Htp _].
      unfold is_export in Eo. exists (x_manifest_json signed), (x_signature_b64 signed), (x_public_key_b64 signed), m, pages.
      cbn [row_complete ax_manifest_json ax_signature_b64 ax_public_key_b64 ax_total_pages ax_total_rows
           ax_id ax_workspace_id].
      split_and!; try done.
      * f_equal. unfold i32_of, i32_max. rewrite Htp. lia.
      * f_equal. unfold i64_of, i64_max. rewrite Htot. unfold small in Hs. lia.
      * subst m. cbn. lia.
      * subst m. cbn. lia.
    + rewrite Eo, app_nil_r, wiped_pages by done. by apply I3.
Qed.

Lemma tx_published d d' : tx d d' -> published d -> published d'.
Proof.
  intros [E P|ctx body fmt ps id now Hf E P|id ws now E P|id ws reason now E P|] Hd.
  - by eapply published_ext.
  - by apply (published_create _ _ (new_export ctx body fmt ps id now) Hd).
  - by eapply published_update; [exact Hd|..|exact E|exact P].
  - by eapply published_update; [exact Hd|..|exact E|exact P].
  - by eapply published_complete.
Qed.

Lemma published_reachable d d' : rtc tx d d' -> published d -> published d'.
Proof. induction 1 as [|x y z Hxy _ IH]; eauto using tx_published. Qed.
End tx.
