(* ===== verification/ExportRefine.v ===== *)
(** * The export job, call by call

    What every part of a run does to the state, whatever calls fail: apart
    from the transaction that stores the pages, a run changes no page and at
    most the status of its own export. *)

From S2P Require Import Prelude Rstr Json Types Providers ProvidersSpec AuditTexts AuditExport.
From S2P Require Import AuditExportSpec Roles Limits Sessions WorkerDb ExportJob.
From S2P Require Import QueueDrain ExportRoutes ExportSpec ExportTx.
From S2P Require AdminAudit.

(** ** What a quiet stretch leaves alone *)

(** A row given another status, other than complete. *)
Definition with_status (status : str) (error : option str) (started completed : option DateTime)
    (e : AuditExportRow) : AuditExportRow := {|
  ax_id := ax_id e; ax_workspace_id := ax_workspace_id e; ax_requested_by := ax_requested_by e;
  ax_window_from := ax_window_from e; ax_window_to := ax_window_to e; ax_format := ax_format e;
  ax_page_size := ax_page_size e; ax_status := status; ax_total_rows := ax_total_rows e;
  ax_total_pages := ax_total_pages e; ax_manifest_json := ax_manifest_json e;
  ax_signature_b64 := ax_signature_b64 e; ax_public_key_b64 := ax_public_key_b64 e;
  ax_signing_key_id := ax_signing_key_id e; ax_error := error; ax_created_at := ax_created_at e;
  ax_started_at := started; ax_completed_at := completed |}.

Definition demoted (e e' : AuditExportRow) : Prop :=
  exists status error started completed,
    status <> STATUS_COMPLETE /\ e' = with_status status error started completed e.

Lemma demoted_trans a b c : demoted a b -> demoted b c -> demoted a c.
Proof. intros (? & ? & ? & ? & _ & ->) (s & er & sa & co & Hs & ->). by exists s, er, sa, co. Qed.
Lemma running_demoted now e : demoted e (row_running now e).
Proof. by exists STATUS_RUNNING, (ax_error e), (Some now), (ax_completed_at e). Qed.
Lemma failed_demoted reason now e : demoted e (row_failed reason now e).
Proof. by exists STATUS_FAILED, (Some reason), (ax_started_at e), (Some now). Qed.

(** The audit trail an export is made of. *)
Definition sources (d : Db) :=
  (d_audit d, t_raw_capture (d_export d), t_revocations (d_export d), t_admin (d_export d)).

Section refine.
Context `{ExportEnv} `{JobEnv}.

(** [k] readings of the request log, and no more than a demotion of the
    export [id] of [ws]. *)
Record quiet (id ws : Uuid) (k : nat) (d d' : Db) : Prop := {
  qt_tx : rtc tx d d';
  qt_sources : sources d' = sources d;
  qt_events : forall n, t_events (d_export d') n = t_events (d_export d) (k + n);
  qt_pages : pages_of d' = pages_of d;
  qt_exports : Forall2 (fun e e' => e' = e \/ (is_export id ws e = true /\ demoted e e'))
    (exports_of d) (exports_of d');
}.

Section quiet.
Context (id ws : Uuid).

Lemma kept_refl (l : list AuditExportRow) :
  Forall2 (fun e e' => e' = e \/ (is_export id ws e = true /\ demoted e e')) l l.
Proof. induction l; constructor; auto. Qed.

Lemma same_quiet d d' : same d d' -> quiet id ws 0 d d'.
Proof. intros (a & p & c & ->). split; try done; [by apply rtc_once, tx_other|apply kept_refl]. Qed.

Lemma quiet_refl d : quiet id ws 0 d d.
Proof. apply same_quiet. by apply same_pre. Qed.

Lemma quiet_trans k1 k2 d1 d2 d3 :
  quiet id ws k1 d1 d2 -> quiet id ws k2 d2 d3 -> quiet id ws (k1 + k2) d1 d3.
Proof.
  intros [T1 S1 E1 P1 X1] [T2 S2 E2 P2 X2]. split; [by etrans|congruence| |congruence|].
  - intros n. rewrite E2, E1. f_equal. lia.
  - apply Forall2_same_length_lookup in X1 as [L1 X1]. apply Forall2_same_length_lookup in X2 as [L2 X2].
    apply Forall2_same_length_lookup. split; [congruence|]. intros i a c Ha Hc.
    destruct (lookup_lt_is_Some_2 (exports_of d2) i) as [b Hb]; [rewrite <- L1; by eapply lookup_lt_Some|].
    destruct (X1 i a b Ha Hb) as [->|[Ho Hd]]; [exact (X2 i a c Hb Hc)|].
    destruct (X2 i b c Hb Hc) as [->|[_ Hd2]]; [by right|]. right. eauto using demoted_trans.
Qed.

Lemma quiet_same k d1 d2 d3 : quiet id ws k d1 d2 -> same d2 d3 -> quiet id ws k d1 d3.
Proof. intros Q S. replace k with (k + 0) by lia. eapply quiet_trans; [exact Q|by apply same_quiet]. Qed.

Lemma commit_update_quiet f d :
  (forall now e, demoted e (f now e)) ->
  tx d (commit_update id ws f d) -> quiet id ws 0 d (commit_update id ws f d).
Proof.
  intros Hf Ht. split; try done; [by apply rtc_once|]. unfold commit_update, exports_of. cbn.
  unfold update_exports. apply Forall2_same_length_lookup. rewrite length_fmap. split; [done|].
  intros i e e' He He'. rewrite list_lookup_fmap, He in He'. injection He' as <-.
  destruct (is_export id ws e) eqn:E; [right|left]; auto.
Qed.

Lemma running_quiet d : quiet id ws 0 d (commit_update id ws row_running d).
Proof. apply commit_update_quiet; [apply running_demoted|]. by eapply tx_running. Qed.
Lemma failed_quiet reason d : quiet id ws 0 d (commit_update id ws (row_failed reason) d).
Proof. apply commit_update_quiet; [apply failed_demoted|]. by eapply tx_failed. Qed.
End quiet.

(** One scoped statement and its commit. *)
Lemma scoped_update_spec id ws na f d :
  (forall d', quiet id ws 0 d' (f d')) ->
  wp (begin_armed ws na;; pg_io;; pg_io;; store f) d (fun _ => quiet id ws 0 d) (quiet id ws 0 d).
Proof.
  intros Hf. apply wp_bind, wp_begin; intros d1 S1; [|by apply same_quiet].
  apply wp_bind, wp_pg; intros d2 S2; [|apply same_quiet; sames].
  apply wp_bind, wp_pg; intros d3 S3; [|apply same_quiet; sames].
  apply wp_store. replace 0 with (0 + 0) by lia. eapply quiet_trans; [|apply Hf].
  apply same_quiet. sames.
Qed.

Lemma mark_running_spec req d :
  wp (mark_running req) d (fun _ => quiet (q_export_id req) (q_workspace_id req) 0 d)
    (quiet (q_export_id req) (q_workspace_id req) 0 d).
Proof. apply scoped_update_spec. intros d'. apply running_quiet. Qed.

Lemma mark_failed_spec id ws reason d :
  wp (mark_failed id ws reason) d (fun _ => quiet id ws 0 d) (fun _ => False).
Proof.
  unfold mark_failed. apply wp_bind, wp_try.
  eapply wp_mono; [apply (scoped_update_spec id ws); intros d'; apply failed_quiet| |].
  - intros [] d' Q. by apply wp_ret.
  - intros d' Q e. by apply wp_ret.
Qed.

(** ** Reading *)

Section read.
Context (req : ExportRequest).

Definition mine {A} (ws : A -> Uuid) (r : Stamped A) : bool :=
  (ws (st_row r) =? q_workspace_id req)%N && in_window req (st_created_at r).
Definition purge_mine (r : PurgeAuditRow) : bool :=
  bool_decide (pr_workspace_id (pa_record r) = Some (q_workspace_id req)) && in_window req (pa_completed_at r).
Definition purge_global (r : PurgeAuditRow) : bool :=
  bool_decide (pr_workspace_id (pa_record r) = None) && in_window req (pa_completed_at r).

(** The audited administrative actions of the request's workspace and window. *)
Definition control_of (d : Db) : list ControlRow :=
  (raw_capture_control req <$> filter (fun r => mine rc_workspace_id r = true) (t_raw_capture (d_export d)))
  ++ (purge_control req <$> filter (fun r => purge_mine r = true) (d_audit d))
  ++ (revocation_control req <$> filter (fun r => mine rv_workspace_id r = true) (t_revocations (d_export d)))
  ++ (admin_control req <$> filter (fun r => mine AdminAudit.ar_workspace_id r = true) (t_admin (d_export d))).

Definition excluded_of (d : Db) : N :=
  N.of_nat (length (filter (fun r => purge_global r = true) (d_audit d))).

(** The requests of the workspace and window at the [n]-th reading. *)
Definition events_of (n : nat) (d : Db) : list EventRow :=
  filter (fun e => in_scope req e = true) (t_events (d_export d) n).

Lemma visible_armed ws ws' d : (ws =? ws')%N = true -> visible (Some ws') ws d = true.
Proof.
  intros ->%N.eqb_eq. unfold visible. rewrite bool_decide_true by done. apply orb_true_r.
Qed.

Lemma visible_drop {A} (wsf : A -> Uuid) d (l : list (Stamped A)) :
  filter (fun r => visible (Some (q_workspace_id req)) (wsf (st_row r)) d
    && (wsf (st_row r) =? q_workspace_id req)%N && in_window req (st_created_at r) = true) l
  = filter (fun r => mine wsf r = true) l.
Proof.
  apply list_filter_iff. intros r. unfold mine. destruct (_ =? _)%N eqn:E.
  - by rewrite visible_armed.
  - by rewrite andb_false_r.
Qed.

Lemma rows_where_spec {A} (l : Db -> list (Stamped A)) wsf d Q (E : Db -> Prop) :
  (forall d', same d d' -> l d' = l d) ->
  (forall d', same d d' -> Q (filter (fun r => mine wsf r = true) (l d)) d') ->
  (forall d', same d d' -> E d') ->
  wp (rows_where (Some (q_workspace_id req)) l wsf req) d Q E.
Proof.
  intros Hl HQ HE. unfold rows_where. apply wp_bind, wp_pg; intros d1 S1; [|by apply HE].
  apply wp_look. rewrite visible_drop, Hl by done. by apply HQ.
Qed.

Lemma purge_rows_spec d (Q : list PurgeAuditRow -> Db -> Prop) (E : Db -> Prop) :
  (forall d', same d d' -> Q (filter (fun r => purge_mine r = true) (d_audit d)) d') ->
  (forall d', same d d' -> E d') ->
  wp (purge_rows (Some (q_workspace_id req)) req) d Q E.
Proof.
  intros HQ HE. unfold purge_rows. apply wp_bind, wp_pg; intros d1 S1; [|by apply HE].
  apply wp_look. replace (filter _ (d_audit d1)) with (filter (fun r => purge_mine r = true) (d_audit d));
    [by apply HQ|].
  destruct S1 as (? & ? & ? & ->). apply list_filter_iff. intros r. unfold purge_mine.
  destruct (pr_workspace_id (pa_record r)) as [ws|]; [|done].
  destruct (N.eqb_spec ws (q_workspace_id req)) as [->|Hne].
  - rewrite visible_armed by apply N.eqb_refl. by rewrite bool_decide_true.
  - rewrite andb_false_r, bool_decide_false by congruence. done.
Qed.

Lemma fetch_control_spec d (Q : list ControlRow * N -> Db -> Prop) (E : Db -> Prop) :
  (forall d', same d d' -> Q (merge_sort control_le (control_of d), excluded_of d) d') ->
  (forall d', same d d' -> E d') -> wp (fetch_control_rows req) d Q E.
Proof.
  intros HQ HE. unfold fetch_control_rows, export_begin_scoped.
  assert (HS : forall a b c, same a b -> same b c -> same a c) by (intros ? ? ? ? ?; by etrans).
  apply wp_bind, wp_begin; intros d1 S1; [|by apply HE].
  apply wp_bind, rows_where_spec; [by intros ? (? & ? & ? & ->)| |intros; apply HE; by eauto].
  intros d2 S2. assert (T2 : same d d2) by eauto.
  apply wp_bind, purge_rows_spec; [|intros; apply HE; by eauto]. intros d3 S3. assert (T3 : same d d3) by eauto.
  apply wp_bind, rows_where_spec; [by intros ? (? & ? & ? & ->)| |intros; apply HE; by eauto].
  intros d4 S4. assert (T4 : same d d4) by eauto.
  apply wp_bind, rows_where_spec; [by intros ? (? & ? & ? & ->)| |intros; apply HE; by eauto].
  intros d5 S5. assert (T5 : same d d5) by eauto.
  unfold global_purge_rows. apply wp_bind, wp_bind, wp_pg; [|intros; apply HE; by eauto].
  intros d6 S6. assert (T6 : same d d6) by eauto. apply wp_look.
  apply wp_bind, wp_pg; [|intros; apply HE; by eauto]. intros d7 S7. assert (T7 : same d d7) by eauto.
  apply wp_ret.
  enough (E1 : Q (merge_sort control_le (control_of d), excluded_of d) d7).
  { destruct S1 as (? & ? & ? & ->), T2 as (? & ? & ? & ->), T3 as (? & ? & ? & ->), T4 as (? & ? & ? & ->),
      T5 as (? & ? & ? & ->), T6 as (? & ? & ? & ->). exact E1. }
  by apply HQ.
Qed.

Lemma read_events_spec id ws d Q (E : Db -> Prop) :
  (forall d', quiet id ws 1 d d' -> Q (t_events (d_export d) 0) d') ->
  (forall d', quiet id ws 0 d d' -> E d') -> wp read_events d Q E.
Proof.
  intros HQ HE. unfold read_events. apply wp_bind, wp_ch; intros d1 S1; [|by apply HE, same_quiet].
  apply wp_bind, wp_look, wp_bind, wp_store, wp_ret.
  replace (t_events (d_export d1) 0) with (t_events (d_export d) 0) by (by destruct S1 as (? & ? & ? & ->)).
  apply HQ. replace 1 with (0 + 1) by lia. eapply quiet_trans; [by apply same_quiet|].
  split; try done; [by apply rtc_once, tx_other|]. apply kept_refl.
Qed.
End read.

(** ** Writing *)

Lemma insert_pages_spec req signed pages : forall index table d,
  wp (insert_pages req signed index pages table) d
    (fun table' d' => same d d' /\ inserted req signed (exports_of d) index pages table = Some table')
    (same d).
Proof.
  induction pages as [|b pages IH]; intros index table d; cbn [insert_pages inserted];
    [by apply wp_ret|].
  apply wp_bind, wp_pg; intros d1 S1; [|done]. apply wp_bind, wp_look.
  replace (t_exports (d_export d1)) with (exports_of d) by (by destruct S1 as (? & ? & ? & ->)).
  destruct (has_export _ _); cbn [negb orb]; [|by apply wp_raise].
  destruct (has_page _ _); [by apply wp_raise|].
  eapply wp_mono; [apply IH| |].
  - intros t d2 [S2 Hi]. split; [by etrans|].
    rewrite <- Hi. f_equal. by destruct S1 as (? & ? & ? & ->).
  - intros d2 S2. by etrans.
Qed.

Lemma wipe_visible req d l :
  filter (fun p => visible (Some (q_workspace_id req)) (px_workspace_id p) d
    && is_page_of (q_export_id req) (q_workspace_id req) p = false) l = wiped req l.
Proof.
  apply list_filter_iff. intros p. destruct (is_page_of _ _ p) eqn:E; [|by rewrite andb_false_r].
  rewrite visible_armed; [done|]. unfold is_page_of in E. lia.
Qed.

(** The transaction that stores an export. *)
Definition stored (req : ExportRequest) (pages : list str) (signed : SignedExport) (d d' : Db) : Prop :=
  sources d' = sources d /\ (forall n, t_events (d_export d') n = t_events (d_export d) n)
  /\ inserted req signed (exports_of d) 0 pages (wiped req (pages_of d)) = Some (pages_of d')
  /\ exists now, exports_of d' =
       update_exports (q_export_id req) (q_workspace_id req) (row_complete signed now) (exports_of d).

Lemma persist_spec req pages signed d :
  wp (persist req pages signed) d (fun _ => stored req pages signed d) (same d).
Proof.
  unfold persist, export_begin_scoped. apply wp_bind, wp_begin; intros d1 S1; [|done].
  apply wp_bind, wp_pg; intros d2 S2; [|by etrans].
  assert (T2 : same d d2) by sames. apply wp_bind, wp_look. rewrite wipe_visible.
  apply wp_bind. eapply wp_mono; [apply insert_pages_spec| |].
  2:{ intros d3 S3. by etrans. }
  intros table d3 [S3 Hi]. apply wp_bind, wp_pg; [|intros; sames].
  intros d4 S4. apply wp_bind, wp_pg; [|intros; sames].
  intros d5 S5. apply wp_store.
  assert (T : same d d5) by sames.
  destruct T2 as (? & ? & ? & ->), T as (? & ? & ? & ->). split; [done|]. split; [done|].
  split; [exact Hi|]. by eexists.
Qed.

(** ** The run *)

(** What a run can read: tables that fit in memory, rows that are text. *)
Record readable (d : Db) : Prop := {
  rd_small : forall req n,
    (N.of_nat (length (events_of req n d) + length (control_of req d)) < 2 ^ 31 - 2)%N;
  rd_events : forall n e, e ∈ t_events (d_export d) n -> printable (into_audit_row e);
  rd_control : forall req c, c ∈ control_of req d -> printable c;
}.

Lemma control_of_sources req d d' : sources d' = sources d -> control_of req d' = control_of req d.
Proof. unfold sources, control_of. by intros [= -> -> -> ->]. Qed.
Lemma excluded_of_sources req d d' : sources d' = sources d -> excluded_of req d' = excluded_of req d.
Proof. unfold sources, excluded_of. by intros [= -> _ _ _]. Qed.

Lemma readable_quiet id ws k d d' : quiet id ws k d d' -> readable d -> readable d'.
Proof.
  intros [_ S E _ _] [R1 R2 R3]. split.
  - intros req n. rewrite (control_of_sources _ _ _ S). unfold events_of. rewrite E. apply R1.
  - intros n e. rewrite E. apply R2.
  - intros req c. rewrite (control_of_sources _ _ _ S). apply R3.
Qed.

Context `{!ExportLaws} `{!JobLaws}.

Section run.
Context (envelope : TaskEnvelope) (max_export_rows : N) (generated_at : DateTime) (key : SigningKey).
Context (Hclock : is_Some (minus_days generated_at SOURCE_TTL_DAYS)).

(** A run that ended with its export stored: [d1] is the state the last
    transaction found. *)
Record finished (req : ExportRequest) (d d' : Db) : Prop := {
  fn_data : exists evs control signed m pages d1,
    evs ≡ₚ events_of req 1 d /\ Sorted event_le evs
    /\ control ≡ₚ control_of req d /\ Sorted control_le control
    /\ (N.of_nat (length (events_of req 0 d) + length control) <= max_export_rows)%N
    /\ produced req (into_audit_row <$> evs) control (excluded_of req d) generated_at key pages signed m
    /\ quiet (q_export_id req) (q_workspace_id req) 2 d d1 /\ stored req pages signed d1 d';
  fn_tx : rtc tx d d';
}.

(** How a run ends. *)
Definition ends (d : Db) (o : option ExportOutcome) (d' : Db) : Prop :=
  exists out, o = Some out /\
  match parse_request envelope with
  | inr _ => out = outcome_failed None /\ d' = d
  | inl req =>
    xo_export_id out = Some (q_export_id req) /\
    ((xo_status out = STATUS_COMPLETE /\ finished req d d') \/
     (xo_status out = STATUS_FAILED /\ exists k, quiet (q_export_id req) (q_workspace_id req) k d d'))
  end.

Section request.
Context (req : ExportRequest) (Hreq : parse_request envelope = inl req).

Lemma refuse_spec reason k d d1 :
  quiet (q_export_id req) (q_workspace_id req) k d d1 ->
  wp (refuse req reason) d1 (ends d) (fun _ => False).
Proof.
  intros Q. unfold refuse. apply wp_bind. eapply wp_mono; [apply mark_failed_spec| |done].
  intros [] d2 Q2. apply wp_ret. eexists. split; [done|]. rewrite Hreq. split; [done|]. right.
  split; [done|]. eexists. eapply quiet_trans; [exact Q|exact Q2].
Qed.

#[local] Instance event_le_total : Total event_le.
Proof. intros a b. unfold event_le. lia. Qed.
#[local] Instance control_le_total : Total control_le.
Proof.
  intros a b. unfold control_le. destruct (str_ltb_total (cr_source_table a) (cr_source_table b)) as [E|[E|E]];
    [rewrite E|rewrite E..]; destruct (Z.lt_trichotomy (cr_occurred_at a) (cr_occurred_at b)) as [?|[?|?]];
    auto 10; try lia.
  destruct (N.le_ge_cases (cr_event_id a) (cr_event_id b)); auto 10.
Qed.

Lemma publish_spec evs d d1 control :
  quiet (q_export_id req) (q_workspace_id req) 2 d d1 -> readable d ->
  evs = merge_sort event_le (events_of req 1 d) -> control = merge_sort control_le (control_of req d) ->
  (N.of_nat (length (events_of req 0 d) + length control) <= max_export_rows)%N ->
  wp (publish req (into_audit_row <$> evs) control (excluded_of req d) generated_at key) d1 (ends d)
    (fun _ => False).
Proof.
  intros Q R Hevs Hcontrol Hcap.
  assert (Pe : evs ≡ₚ events_of req 1 d) by (subst; apply merge_sort_Permutation).
  assert (Pc : control ≡ₚ control_of req d) by (subst; apply merge_sort_Permutation).
  assert (Hs : small (into_audit_row <$> evs) control).
  { unfold small. rewrite length_fmap, Pe, Pc. apply (rd_small _ R). }
  assert (Hps : (q_page_size req <> 0)%N) by (apply parse_request_page_size in Hreq; lia).
  assert (Hret : is_Some (retention_for (q_from req) (q_to req) generated_at)).
  { unfold retention_for. destruct Hclock as [b ->]. cbn [mbind option_bind]. by repeat case_match. }
  unfold publish. destruct (produce_cases req (into_audit_row <$> evs) control (excluded_of req d)
    generated_at key Hs Hps Hret) as [->|(pages & signed & m & E & Hp)]; [by eapply refuse_spec|].
  rewrite E. apply wp_bind, wp_try. eapply wp_mono; [apply persist_spec| |].
  - intros [] d2 S2. apply wp_ret. eexists. split; [done|]. rewrite Hreq. split; [done|]. left.
    split; [done|]. split.
    + exists evs, control, signed, m, pages, d1. split; [done|].
      split; [subst evs; apply Sorted_merge_sort; apply _|]. split; [done|].
      split; [subst control; apply Sorted_merge_sort; apply _|]. done.
    + etrans; [exact (qt_tx _ _ _ _ _ Q)|]. apply rtc_once. destruct S2 as (_ & _ & Hi & now & He).
      apply (tx_complete d1 d2 envelope req (into_audit_row <$> evs) control (excluded_of req d)
        generated_at key pages signed now); try done. eapply produced_utf8; [| |exact Hp].
      * apply Forall_fmap. rewrite Pe. apply Forall_forall. intros e [_ He']%list_elem_of_filter.
        by apply (rd_events _ R 1).
      * rewrite Pc. apply Forall_forall. apply (rd_control _ R).
  - intros d2 S2 e. eapply refuse_spec. eapply quiet_same; [exact Q|exact S2].
Qed.
End request.

Lemma run_with_spec d :
  readable d -> wp (run_with envelope (Ok key) max_export_rows generated_at) d (ends d) (fun _ => False).
Proof.
  intros R. unfold run_with. destruct (parse_request envelope) as [req|e] eqn:Hreq.
  2:{ apply wp_ret. eexists. split; [done|]. by rewrite Hreq. }
  apply wp_bind, wp_try. eapply wp_mono; [apply mark_running_spec| |].
  2:{ intros d1 Q e. apply wp_ret. eexists. split; [done|]. rewrite Hreq. split; [done|]. right. eauto. }
  intros [] d1 Q1. apply wp_bind, wp_try, fetch_control_spec.
  2:{ intros d2 S2 e. eapply refuse_spec; [done|]. eapply quiet_same; [exact Q1|exact S2]. }
  intros d2 S2. assert (Q2 : quiet (q_export_id req) (q_workspace_id req) 0 d d2) by (by eapply quiet_same).
  rewrite (control_of_sources _ _ _ (qt_sources _ _ _ _ _ Q1)), (excluded_of_sources _ _ _ (qt_sources _ _ _ _ _ Q1)).
  unfold count_rows. apply wp_bind, wp_try, wp_bind.
  eapply (read_events_spec (q_export_id req) (q_workspace_id req)).
  2:{ intros d3 Q3 e. eapply refuse_spec; [done|]. eapply quiet_trans; [exact Q2|exact Q3]. }
  intros d3 Q3. apply wp_ret. rewrite (qt_events _ _ _ _ _ Q2). cbn [Nat.add].
  change (filter _ (t_events (d_export d) 0)) with (events_of req 0 d).
  assert (Q03 : quiet (q_export_id req) (q_workspace_id req) 1 d d3)
    by (replace 1 with (0 + 1) by lia; eapply quiet_trans; [exact Q2|exact Q3]).
  destruct (N.ltb_spec max_export_rows (u64_saturating_add (N.of_nat (length (events_of req 0 d)))
    (N.of_nat (length (merge_sort control_le (control_of req d)))))) as [|Hcap];
    [by eapply refuse_spec|].
  unfold fetch_rows. apply wp_bind, wp_try, wp_bind.
  eapply (read_events_spec (q_export_id req) (q_workspace_id req)).
  2:{ intros d4 Q4 e. eapply refuse_spec; [done|]. eapply quiet_trans; [exact Q03|exact Q4]. }
  intros d4 Q4. apply wp_ret. rewrite (qt_events _ _ _ _ _ Q03). cbn [Nat.add].
  change (filter _ (t_events (d_export d) 1)) with (events_of req 1 d).
  eapply publish_spec; try done.
  - replace 2 with (1 + 1) by lia. eapply quiet_trans; [exact Q03|exact Q4].
  - unfold u64_saturating_add in Hcap. pose proof (rd_small _ R req 0).
    rewrite merge_sort_Permutation in Hcap |- *. lia.
Qed.
End run.

(** Without a usable key the run ends after its first transaction. *)
Lemma run_refused_spec envelope e cap now d :
  wp (run_with envelope (Err e) cap now) d (fun o d' => exists out, o = Some out /\
    match parse_request envelope with
    | inr _ => out = outcome_failed None /\ d' = d
    | inl req => xo_export_id out = Some (q_export_id req) /\ xo_status out = STATUS_FAILED
                 /\ exists k, quiet (q_export_id req) (q_workspace_id req) k d d'
    end) (fun _ => False).
Proof.
  unfold run_with. destruct (parse_request envelope) as [req|err]; [|apply wp_ret; by eexists].
  apply wp_bind, wp_try. eapply wp_mono; [apply mark_running_spec| |].
  - intros [] d1 Q1. unfold refuse. apply wp_bind. eapply wp_mono; [apply mark_failed_spec| |done].
    intros [] d2 Q2. apply wp_ret. eexists. split; [done|]. split; [done|]. split; [done|].
    eexists. eapply quiet_trans; [exact Q1|exact Q2].
  - intros d1 Q err. apply wp_ret. eexists. split; [done|]. split; [done|]. split; [done|]. eauto.
Qed.

Lemma parse_request_workspace envelope req :
  parse_request envelope = inl req -> q_workspace_id req = te_workspace_id envelope.
Proof using.
  unfold parse_request. destruct (raw_payload _); [|done]. destruct (format_parse _); [|done].
  destruct (negb _); [done|]. destruct (_ <=? _)%Z; [done|]. by intros [= <-].
Qed.
End refine.
