(* ===== verification/ExportClaims.v ===== *)
(** * What an auditor and an operator can rely on

    The properties of the export as a whole: the routes, the queue and the
    worker over one database. *)

From S2P Require Import Prelude Rstr Json Types Providers ProvidersSpec AuditTexts AuditExport.
From S2P Require Import AuditExportSpec Roles Limits Sessions WorkerDb Sweeps SweepsSpec.
From S2P Require Import ExportJob QueueDrain ExportRoutes ExportSpec ExportTx ExportRefine.

Section claims.
Context `{ExportEnv} `{JobEnv}.

(** ** The routes' reads *)

Definition same_tables (d d' : Db) : Prop := exports_of d' = exports_of d /\ pages_of d' = pages_of d.

Lemma same_same_tables d d' : same d d' -> same_tables d d'.
Proof. by intros (? & ? & ? & ->). Qed.

Lemma require_role_cases r m :
  require_role r m = Ok tt \/ exists e, require_role r m = Err e.
Proof. unfold require_role. destruct (_ <=? _)%N; eauto. Qed.

Lemma validate_cases body :
  (exists f n, validate body = Ok (f, n)) \/ exists e, validate body = Err e.
Proof.
  unfold validate. destruct (format_parse _); cbn [ok_or obind]; [|eauto]. destruct (_ <=? _)%Z; [eauto|].
  destruct (_ <? _)%Z; [eauto|]. destruct (negb _); eauto.
Qed.

(** A handler's answer, case by case: like [wp], for [Api]. *)
Definition awp {A} (x : Api A) (d : Db) (Q : A -> Db -> Prop) (E : ApiError -> Db -> Prop) : Prop :=
  match x d with (Ok a, d') => Q a d' | (Err e, d') => E e d' | (Panic, _) => False end.

Lemma awp_bind {A B} (x : Api A) (k : A -> Api B) d Q E :
  awp x d (fun a d' => awp (k a) d' Q E) E -> awp (x ≫= k) d Q E.
Proof. unfold awp, mbind, Api_bind. by destruct (x d) as [[a|e|] d']. Qed.
Lemma awp_mono {A} (x : Api A) d (Q Q' : A -> Db -> Prop) (E E' : ApiError -> Db -> Prop) :
  awp x d Q E -> (forall a d', Q a d' -> Q' a d') -> (forall e d', E e d' -> E' e d') -> awp x d Q' E'.
Proof. unfold awp. destruct (x d) as [[a|e|] d']; auto. Qed.
Lemma awp_while {A} context (x : Job A) d (Q : A -> Db -> Prop) (E : ApiError -> Db -> Prop) :
  wp x d Q (E (store_unavailable context)) -> awp (while_ context x) d Q E.
Proof. unfold awp, while_, wp. by destruct (x d) as [[a|e] d']. Qed.
Lemma awp_attempt {A} (x : Api A) d (Q : result A -> Db -> Prop) E :
  awp x d (fun a => Q (Ok a)) (fun e => Q (Err e)) -> awp (attempt x) d Q E.
Proof. unfold awp, attempt. by destruct (x d) as [[a|e|] d']. Qed.

Lemma awp_result {A} (r : result A) d (Q : A -> Db -> Prop) (E : ApiError -> Db -> Prop) :
  match r with Ok a => Q a d | Err e => E e d | Panic => False end -> awp (of_result r) d Q E.
Proof. done. Qed.
Lemma awp_ret {A} (a : A) d (Q : A -> Db -> Prop) (E : ApiError -> Db -> Prop) : Q a d -> awp (mret a) d Q E.
Proof. done. Qed.
Lemma awp_store f d (Q : unit -> Db -> Prop) (E : ApiError -> Db -> Prop) :
  Q tt (f d) -> awp (api_store f) d Q E.
Proof. done. Qed.
Lemma awp_total {A} (f : Db -> A * Db) d (Q : A -> Db -> Prop) (E : ApiError -> Db -> Prop) :
  Q (f d).1 (f d).2 -> awp (api_total f) d Q E.
Proof. unfold awp, api_total. by destruct (f d). Qed.

Definition internal (e : ApiError) : Prop := exists m, e = Internal m.

Lemma api_begin_spec ws d (Q : option Uuid -> Db -> Prop) (E : ApiError -> Db -> Prop) :
  (forall d', same d d' -> Q (Some ws) d') -> (forall e d', internal e -> same d d' -> E e d') ->
  awp (api_begin_scoped ws) d Q E.
Proof.
  intros HQ HE. unfold api_begin_scoped, arm_scope.
  apply awp_bind, awp_while, wp_pg; intros d1 S1; [|apply HE; [by eexists|done]].
  apply awp_bind, awp_while, wp_pg; intros d2 S2; [|apply HE; [by eexists|sames]].
  apply awp_bind, awp_total. unfold set_scope. cbn [fst snd].
  set (d3 := with_env _ _ _ d2). assert (S3 : same d2 d3) by by do 3 eexists.
  apply awp_bind, awp_while, wp_pg; intros d4 S4;
    [|apply HE; [by eexists|sames]].
  assert (S : same d d4) by sames.
  case_decide as Hs; [rewrite Hs; by apply HQ|]. apply HE; [by eexists|done].
Qed.

Lemma scoped_read_spec {A} ws reading closing (f : option Uuid -> Db -> A) d
    (Q : A -> Db -> Prop) (E : ApiError -> Db -> Prop) :
  (forall d0 d', same d d0 -> same d d' -> Q (f (Some ws) d0) d') ->
  (forall e d', internal e -> same d d' -> E e d') ->
  awp (scoped_read ws reading closing f) d Q E.
Proof.
  intros HQ HE. unfold scoped_read. apply awp_bind, api_begin_spec; [|done]. intros d1 S1.
  apply awp_bind, awp_while, wp_bind, wp_pg; intros d2 S2; [|apply HE; [by eexists|sames]].
  apply wp_look. apply awp_bind, awp_while, wp_pg; intros d3 S3.
  - apply awp_ret, HQ; sames.
  - apply HE; [by eexists|sames].
Qed.

(** ** Finding what was published *)

Lemma nodup_key {A B} (key : A -> B) (l : list A) x y :
  NoDup (key <$> l) -> x ∈ l -> y ∈ l -> key x = key y -> x = y.
Proof.
  intros Hnd [i Hi]%list_elem_of_lookup [j Hj]%list_elem_of_lookup Hk.
  assert (i = j) as ->; [|congruence]. eapply (NoDup_lookup (key <$> l)); [done| |].
  - by rewrite list_lookup_fmap, Hi.
  - by rewrite list_lookup_fmap, Hj, Hk.
Qed.

Lemma find_page_unique ws id n d d0 p e :
  published d -> same_tables d d0 -> p ∈ pages_of d -> e ∈ exports_of d -> is_export id ws e = true ->
  is_page_of id ws p = true -> px_page_number p = n -> find_page (Some ws) id ws n d0 = Some (p, e).
Proof.
  intros [I1 I2 _] [Te Tp] Hp He Ho Hi Hn. unfold find_page. unfold exports_of, pages_of in *. rewrite Te, Tp.
  assert (Hv : forall w, (w =? ws)%N = true -> visible (Some ws) w d0 = true) by (intros; by apply visible_armed).
  unfold is_export, is_page_of in *. destruct_and?.
  match goal with |- List.find ?q _ = _ => set (test := q) end.
  assert (Ht : forall p' e', test (p', e') = true -> page_key p' = (id, n) /\ ax_id e' = id).
  { intros p' e' Hx. unfold test, is_page_of in Hx. unfold page_key. split; [f_equal|]; lia. }
  destruct (List.find test _) as [[p' e']|] eqn:Hf.
  - apply find_some in Hf as [Hin Hx]. apply in_prod_iff in Hin as [Hp'%list_elem_of_In He'%list_elem_of_In].
    destruct (Ht _ _ Hx) as [Kp Ke]. f_equal. f_equal.
    + eapply (nodup_key page_key); [exact I2|done..|]. rewrite Kp. unfold page_key. f_equal; lia.
    + eapply (nodup_key ax_id); [exact I1|done..|]. lia.
  - exfalso. assert (Hin : In (p, e) (list_prod (t_pages (d_export d)) (t_exports (d_export d)))).
    { apply in_prod_iff. by rewrite <- !list_elem_of_In. }
    apply (find_none _ _ Hf) in Hin. unfold test, is_page_of in Hin. rewrite !Hv in Hin by lia. lia.
Qed.

Lemma get_export_spec ctx id d (Q : ExportDetail -> Db -> Prop) (E : ApiError -> Db -> Prop) :
  (forall e d', require_role (jc_role ctx) Admin = Ok tt -> e ∈ exports_of d ->
     is_export id (jc_workspace_id ctx) e = true -> same d d' -> Q (detail id e) d') ->
  (forall e d', same d d' -> E e d') -> awp (get_export ctx id) d Q E.
Proof.
  intros HQ HE. unfold get_export. apply awp_bind, awp_result.
  destruct (require_role_cases (jc_role ctx) Admin) as [Hrole|[m Hrole]]; rewrite Hrole; [|by apply HE].
  apply awp_bind, scoped_read_spec; [|intros; by apply HE]. intros d0 d1 S0 S1.
  destruct (List.find _ _) as [e|] eqn:Hf; [|by apply HE].
  apply find_some in Hf as [He%list_elem_of_In [_ Ho]%andb_true_iff]. apply HQ; [done| |done|done].
  by destruct S0 as (? & ? & ? & ->).
Qed.

Lemma get_export_page_spec ctx id n d p e (Q : PageResponse -> Db -> Prop) (E : ApiError -> Db -> Prop) :
  published d -> p ∈ pages_of d -> e ∈ exports_of d -> is_export id (jc_workspace_id ctx) e = true ->
  is_page_of id (jc_workspace_id ctx) p = true -> px_page_number p = n -> require_role (jc_role ctx) Admin = Ok tt ->
  (forall d', same d d' -> Q (page_response (show_i32 n) id p e) d') ->
  (forall e d', internal e -> same d d' -> E e d') -> awp (get_export_page ctx id n) d Q E.
Proof.
  intros Hd Hp He Ho Hi Hn Hrole HQ HE. unfold get_export_page. apply awp_bind.
  apply awp_result. rewrite Hrole. apply awp_bind, scoped_read_spec; [|done].
  intros d0 d1 S0 S1.
  rewrite (find_page_unique _ id n d d0 p e Hd (same_same_tables _ _ S0) Hp He Ho Hi Hn). by apply HQ.
Qed.

Context `{!ExportLaws} `{!JobLaws}.

Lemma verifiable_pages e ps : verifiable e ps ->
  exists mj sig pk m bodies,
    ax_manifest_json e = Some mj /\ ax_signature_b64 e = Some sig /\ ax_public_key_b64 e = Some pk
    /\ ax_total_pages e = Some (Z.of_nat (length bodies))
    /\ ax_total_rows e = Some (Z.of_N (m_total_rows m))
    /\ verify_export mj sig pk bodies = Ok m
    /\ m_export_id m = ax_id e /\ m_workspace_id m = ax_workspace_id e
    /\ forall i body, bodies !! i = Some body -> exists p, p ∈ ps /\ px_body p = body
         /\ px_page_number p = Z.of_nat (S i) /\ px_sha256 p = to_hex (sha256 body).
Proof.
  intros (mj & sig & pk & m & bodies & Hmj & Hsig & Hpk & Htp & Htr & Hl & Hv & Hty & Hid & Hws & Hb & Hn & Hs).
  exists mj, sig, pk, m, bodies. split_and!; try done.
  { apply valid_export_verifies; [done|done|]. unfold u32_max. lia. }
  intros i body Hi. pose proof (lookup_lt_Some _ _ _ Hi) as Hlt.
  assert (exists p, ps !! i = Some p /\ px_body p = body) as (p & Hp & Hpb).
  { rewrite <- Hb, list_lookup_fmap in Hi. apply fmap_Some in Hi as (p & Hp & ->). eauto. }
  exists p. split; [by eapply list_elem_of_lookup_2|]. split; [done|].
  apply (f_equal (fun l => l !! i)) in Hn. apply (f_equal (fun l => l !! i)) in Hs.
  rewrite !list_lookup_fmap, Hp in Hn. rewrite lookup_seq_lt in Hn by done.
  rewrite !list_lookup_fmap, Hp, Hi in Hs. cbn in Hn, Hs. split; congruence.
Qed.

(** C15: An export shown complete verifies: start from empty export tables and
    let any transactions of the routes and of any number of workers interleave,
    whatever envelopes are on the queue and whatever calls fail.  If
    [get_export] shows an administrator an export as complete, it carries a
    manifest, a signature and a key, and [get_export_page] serves exactly the
    announced number of pages (or fails as a whole, never a wrong page or a
    missing one); [verify_export] accepts them and its manifest names this
    export and this workspace. *)
Theorem published_exports_verify d0 d ctx id det d1 :
  exports_of d0 = [] -> pages_of d0 = [] -> rtc tx d0 d ->
  get_export ctx id d = (Ok det, d1) -> ed_status det = STATUS_COMPLETE ->
  exists mj sig pk m bodies,
    ed_manifest_json det = Some mj /\ ed_signature_b64 det = Some sig /\ ed_public_key_b64 det = Some pk
    /\ ed_total_pages det = Some (Z.of_nat (length bodies))
    /\ ed_total_rows det = Some (Z.of_N (m_total_rows m))
    /\ verify_export mj sig pk bodies = Ok m
    /\ m_export_id m = id /\ m_workspace_id m = jc_workspace_id ctx
    /\ forall i body, bodies !! i = Some body -> forall d2 r d3, same_tables d d2 ->
         get_export_page ctx id (Z.of_nat (S i)) d2 = (r, d3) ->
         (exists page, r = Ok page /\ pg_body page = body /\
            pg_etag page = [dquote] ++ $"sha256:" ++ to_hex (sha256 body) ++ [dquote])
         \/ exists message, r = Err (Internal message).
Proof.
  intros He0 Hp0 Hr Hg Hst.
  assert (Hd : published d).
  { eapply published_reachable; [exact Hr|]. split; rewrite ?He0, ?Hp0; simpl; [constructor..|].
    intros e He. by apply elem_of_nil in He. }
  assert (exists e, det = detail id e /\ require_role (jc_role ctx) Admin = Ok tt /\ e ∈ exports_of d
    /\ is_export id (jc_workspace_id ctx) e = true) as (e & -> & Hrole & He & Ho).
  { pose proof (get_export_spec ctx id d (fun det' _ => exists e, det' = detail id e
      /\ require_role (jc_role ctx) Admin = Ok tt /\ e ∈ exports_of d
      /\ is_export id (jc_workspace_id ctx) e = true) (fun _ _ => True)) as Hs.
    unfold awp in Hs. rewrite Hg in Hs. apply Hs; eauto 10. }
  assert (ax_id e = id /\ ax_workspace_id e = jc_workspace_id ctx) as [Eid Ews] by (unfold is_export in Ho; lia).
  destruct (verifiable_pages e _ (pb_complete _ Hd e He Hst))
    as (mj & sig & pk & m & bodies & Hmj & Hsig & Hpk & Htp & Htr & Hv & Hmid & Hmws & Hpages).
  exists mj, sig, pk, m, bodies. split_and!; try done; [congruence..|].
  intros i body Hi d2 r d3 Ht Hr2. destruct (Hpages i body Hi) as (p & Hp & Hb & Hn & Hsha).
  apply list_elem_of_filter in Hp as [Hown Hp]. rewrite Eid, Ews in Hown.
  assert (Hd2 : published d2) by (destruct Ht; by eapply published_ext).
  destruct Ht as [Te Tp].
  pose proof (get_export_page_spec ctx id (Z.of_nat (S i)) d2 p e
    (fun page _ => pg_body page = body /\ pg_etag page = [dquote] ++ $"sha256:" ++ to_hex (sha256 body) ++ [dquote])
    (fun err _ => internal err) Hd2) as Hs.
  rewrite Te, Tp in Hs. specialize (Hs Hp He Ho Hown Hn Hrole). unfold awp in Hs. rewrite Hr2 in Hs.
  destruct r as [page|err|].
  - left. exists page. split; [done|]. apply Hs; [|done]. intros _ _. cbn. by rewrite Hsha.
  - right. assert (internal err) as [msg ->]; [|by exists msg]. apply Hs; [|done]. intros _ _. cbn. by rewrite Hsha.
  - exfalso. apply Hs; [|done]. intros _ _. cbn. by rewrite Hsha.
Qed.

(** ** One run of the job *)

(** What a record must hold, row by row: the requests of the workspace whose
    second of arrival is inside the window, and the administrative actions of
    the workspace whose instant is. *)
Definition requested (req : ExportRequest) (e : EventRow) : Prop :=
  ev_workspace_id e = q_workspace_id req
  /\ (to_date_time (unix_of (q_from req)) <= Z.of_N (ev_created_at_unix e))%Z
  /\ (Z.of_N (ev_created_at_unix e) < to_date_time (unix_of (q_to req)))%Z.
Definition between (req : ExportRequest) (at_ : DateTime) : Prop :=
  (pg_instant (q_from req) <= at_)%Z /\ (at_ < pg_instant (q_to req))%Z.
Definition acted {A} (req : ExportRequest) (ws : A -> Uuid) (r : Stamped A) : Prop :=
  ws (st_row r) = q_workspace_id req /\ between req (st_created_at r).
Definition purged_in (req : ExportRequest) (ws : option Uuid) (r : PurgeAuditRow) : Prop :=
  pr_workspace_id (pa_record r) = ws /\ between req (pa_completed_at r).

#[export] Instance requested_dec req e : Decision (requested req e).
Proof. unfold requested. apply _. Defined.
#[export] Instance acted_dec {A} req (ws : A -> Uuid) r : Decision (acted req ws r).
Proof. unfold acted, between. apply _. Defined.
#[export] Instance purged_in_dec req ws r : Decision (purged_in req ws r).
Proof. unfold purged_in, between. apply _. Defined.

Definition exported_events (req : ExportRequest) (n : nat) (d : Db) : list EventRow :=
  filter (requested req) (t_events (d_export d) n).
Definition exported_control (req : ExportRequest) (d : Db) : list ControlRow :=
  (raw_capture_control req <$> filter (acted req rc_workspace_id) (t_raw_capture (d_export d)))
  ++ (purge_control req <$> filter (purged_in req (Some (q_workspace_id req))) (d_audit d))
  ++ (revocation_control req <$> filter (acted req rv_workspace_id) (t_revocations (d_export d)))
  ++ (admin_control req <$> filter (acted req AdminAudit.ar_workspace_id) (t_admin (d_export d))).
Definition left_out (req : ExportRequest) (d : Db) : N :=
  N.of_nat (length (filter (purged_in req None) (d_audit d))).

Lemma events_of_exported req n d : events_of req n d = exported_events req n d.
Proof. apply list_filter_iff. intros e. unfold in_scope, requested. lia. Qed.

Lemma between_window req at_ : in_window req at_ = true <-> between req at_.
Proof. unfold in_window, between. lia. Qed.

Lemma mine_acted {A} req (ws : A -> Uuid) (l : list (Stamped A)) :
  filter (fun r => mine req ws r = true) l = filter (acted req ws) l.
Proof.
  apply list_filter_iff. intros r. unfold mine, acted. rewrite <- between_window, andb_true_iff, N.eqb_eq. done.
Qed.

Lemma control_of_exported req d : control_of req d = exported_control req d.
Proof.
  unfold control_of, exported_control. rewrite !mine_acted. do 2 f_equal. f_equal. apply list_filter_iff.
  intros r. unfold purge_mine, purged_in. by rewrite <- between_window, andb_true_iff, bool_decide_eq_true.
Qed.

Lemma excluded_of_left_out req d : excluded_of req d = left_out req d.
Proof.
  unfold excluded_of, left_out. do 2 f_equal. apply list_filter_iff.
  intros r. unfold purge_global, purged_in. by rewrite <- between_window, andb_true_iff, bool_decide_eq_true.
Qed.

(** C17: A run that says complete exported exactly the record: every request of
    the envelope's workspace and window at its reading of the log, the
    window's bounds cut to whole seconds for the requests (the manifest states
    them uncut, [window_by_seconds]), and every audited administrative action
    of that workspace and of the window as stated, each once, in
    order, cut into pages of at most the requested size; nothing of another
    workspace, nothing truncated, at most the cap at the count.  The manifest
    counts them, counts the global purge rows left out, and verifies over the
    pages it stored; only this export's row and pages changed. *)
Theorem export_run_exact envelope cap now key d out d' :
  is_Some (minus_days now SOURCE_TTL_DAYS) -> readable d ->
  run_with envelope (Ok key) cap now d = (inl (Some out), d') -> xo_status out = STATUS_COMPLETE ->
  exists req evs control signed m pages,
    parse_request envelope = inl req /\ xo_export_id out = Some (q_export_id req)
    /\ evs ≡ₚ exported_events req 1 d /\ Sorted event_le evs
    /\ control ≡ₚ exported_control req d /\ Sorted control_le control
    /\ (N.of_nat (length (exported_events req 0 d) + length control) <= cap)%N
    /\ produced req (into_audit_row <$> evs) control (left_out req d) now key pages signed m
    /\ verify_export (x_manifest_json signed) (x_signature_b64 signed) (x_public_key_b64 signed) pages = Ok m
    /\ (forall e, e ∈ exports_of d -> is_export (q_export_id req) (q_workspace_id req) e = false -> e ∈ exports_of d')
    /\ (forall p, p ∈ pages_of d -> is_page_of (q_export_id req) (q_workspace_id req) p = false -> p ∈ pages_of d')
    /\ pages_of d' = wiped req (pages_of d) ++ written req signed pages.
Proof.
  intros Hclock R Hrun Hst. pose proof (run_with_spec envelope cap now key Hclock d R) as Hs.
  unfold wp in Hs. rewrite Hrun in Hs. destruct Hs as (o & [= <-] & Hs).
  destruct (parse_request envelope) as [req|e] eqn:Hreq.
  2:{ destruct Hs as [-> _]. done. }
  destruct Hs as (Hid & [[_ [(evs & control & signed & m & pages & d1 & Pe & Oe & Pc & Oc & Hcap & Hp & Q & S) _]]|[Hf _]]);
    [|by rewrite Hst in Hf].
  rewrite events_of_exported in Pe, Hcap. rewrite control_of_exported in Pc. rewrite excluded_of_left_out in Hp.
  exists req, evs, control, signed, m, pages. destruct S as (_ & _ & Hi & t & He).
  apply inserted_spec in Hi as (Hpages & _ & _). rewrite (qt_pages _ _ _ _ _ Q) in Hpages.
  split_and!; try done.
  - apply valid_export_verifies; [exact (pd_valid _ _ _ _ _ _ _ _ _ Hp)|exact (pd_typed _ _ _ _ _ _ _ _ _ Hp)|].
    assert (Hsm : small (into_audit_row <$> evs) control).
    { unfold small. rewrite length_fmap, Pe, Pc, <- events_of_exported, <- control_of_exported. apply (rd_small _ R). }
    pose proof (produced_length _ _ _ _ _ _ _ _ _ Hsm Hp). unfold u32_max. lia.
  - intros e Hin Ho. rewrite He. apply list_elem_of_lookup in Hin as [i Hi].
    apply (list_elem_of_lookup_2 _ i). unfold update_exports. rewrite list_lookup_fmap.
    destruct (Forall2_lookup_l _ _ _ _ _ (qt_exports _ _ _ _ _ Q) Hi) as (e' & He' & [->|[Hx _]]); [|congruence].
    rewrite He'. cbn. by rewrite Ho.
  - intros p Hin Ho. rewrite Hpages. apply elem_of_app. left. by apply list_elem_of_filter.
Qed.

(** C35: A run always ends with an answer and never panics, whatever the
    envelope, the key and the calls that fail: it is complete, or failed; and
    unless it is complete it published nothing: no page changed, no export's
    manifest, signature or totals changed, no export became complete, and only
    the export it was asked for can have lost its status. *)
Theorem export_run_total envelope key cap now d :
  is_Some (minus_days now SOURCE_TTL_DAYS) -> readable d -> key <> Panic ->
  exists out d', run_with envelope key cap now d = (inl (Some out), d') /\
    (xo_status out = STATUS_COMPLETE \/
     (xo_status out = STATUS_FAILED /\ pages_of d' = pages_of d /\
      Forall2 (fun e e' => e' = e \/ (xo_export_id out = Some (ax_id e) /\
          ax_workspace_id e = te_workspace_id envelope /\ demoted e e')) (exports_of d) (exports_of d'))).
Proof.
  intros Hclock R Hkey.
  assert (Hq : forall req k d', parse_request envelope = inl req ->
    quiet (q_export_id req) (q_workspace_id req) k d d' -> forall out, xo_export_id out = Some (q_export_id req) ->
    pages_of d' = pages_of d /\
      Forall2 (fun e e' => e' = e \/ (xo_export_id out = Some (ax_id e) /\
          ax_workspace_id e = te_workspace_id envelope /\ demoted e e')) (exports_of d) (exports_of d')).
  { intros req k d' Hreq Q out Ho. split; [exact (qt_pages _ _ _ _ _ Q)|].
    eapply Forall2_impl; [exact (qt_exports _ _ _ _ _ Q)|]. intros e e' [->|[Hx Hd]]; [by left|right].
    apply parse_request_workspace in Hreq. rewrite Ho. unfold is_export in Hx. split; [f_equal; lia|].
    split; [lia|done]. }
  destruct key as [key|e|]; [| |done].
  - pose proof (run_with_spec envelope cap now key Hclock d R) as Hs. unfold wp in Hs.
    destruct (run_with envelope (Ok key) cap now d) as [[o|err] d']; [|done].
    destruct Hs as (out & -> & Hs). exists out, d'. split; [done|].
    destruct (parse_request envelope) as [req|e] eqn:Hreq.
    + destruct Hs as (Hid & [[Hc _]|[Hf [k Q]]]); [by left|right]. split; [done|]. by eapply Hq.
    + destruct Hs as [-> ->]. right. split; [done|]. split; [done|].
      apply Forall2_same_length_lookup_2; [done|]. intros i x y Hx Hy. left. congruence.
  - pose proof (run_refused_spec envelope e cap now d) as Hs. unfold wp in Hs.
    destruct (run_with envelope (Err e) cap now d) as [[o|err] d']; [|done].
    destruct Hs as (out & -> & Hs). exists out, d'. split; [done|]. right.
    destruct (parse_request envelope) as [req|err] eqn:Hreq.
    + destruct Hs as (Hid & Hf & k & Q). split; [done|]. by eapply Hq.
    + destruct Hs as [-> ->]. split; [done|]. split; [done|].
      apply Forall2_same_length_lookup_2; [done|]. intros i x y Hx Hy. left. congruence.
Qed.

(** ** Every handler is a sequence of transactions *)

(** Only queues, policy points and answers still to come differ. *)
Definition beside (d d' : Db) : Prop :=
  rtc tx d d' /\ sources d' = sources d /\ forall n, t_events (d_export d') n = t_events (d_export d) n.

#[export] Instance beside_pre : PreOrder beside.
Proof.
  split; [done|]. intros x y z (T1 & S1 & E1) (T2 & S2 & E2). split; [by etrans|]. split; [congruence|].
  intros n. by rewrite E2, E1.
Qed.

Lemma beside_other d d' :
  exports_of d' = exports_of d -> pages_of d' = pages_of d -> sources d' = sources d ->
  (forall n, t_events (d_export d') n = t_events (d_export d) n) -> beside d d'.
Proof. intros E P S Ev. split; [by apply rtc_once, tx_other|done]. Qed.

Lemma same_beside d d' : same d d' -> beside d d'.
Proof. intros (? & ? & ? & ->). by apply beside_other. Qed.

Lemma readable_ext d d' :
  sources d' = sources d -> (forall n, t_events (d_export d') n = t_events (d_export d) n) ->
  readable d -> readable d'.
Proof.
  intros S E [R1 R2 R3]. split.
  - intros req n. rewrite (control_of_sources _ _ _ S). unfold events_of. rewrite E. apply R1.
  - intros n e. rewrite E. apply R2.
  - intros req c. rewrite (control_of_sources _ _ _ S). apply R3.
Qed.

Lemma readable_beside d d' : beside d d' -> readable d -> readable d'.
Proof. intros (_ & S & E). by apply readable_ext. Qed.

Lemma wp_redis d (Q : unit -> Db -> Prop) (E : Db -> Prop) :
  (forall d', beside d d' -> Q tt d') -> (forall d', beside d d' -> E d') -> wp redis_io d Q E.
Proof.
  intros HQ HE. unfold wp, redis_io. destruct (t_redis_faults (d_export d) 0); [apply HE|apply HQ];
    by apply beside_other.
Qed.

Lemma index_policy_rule_tx task d :
  wp (index_policy_rule task) d (fun _ => beside d) (beside d).
Proof.
  assert (Hc : forall A (o : option A) m d0 (Q : A -> Db -> Prop), beside d d0 ->
    (forall a, Q a d0) -> wp (context o m) d0 Q (beside d)).
  { intros A [a|] m d0 Q Hb HQ; [by apply wp_ret|by apply wp_raise]. }
  unfold index_policy_rule. apply wp_bind, Hc; [done|]. intros rule. apply wp_bind, Hc; [done|]. intros text.
  apply wp_bind. unfold wp at 1, embed. set (d1 := set_export _ d).
  assert (B1 : beside d d1) by by apply beside_other.
  destruct (t_embed _ _ _) as [v|]; [|done]. apply wp_bind, Hc; [done|]. intros point.
  apply wp_bind. unfold wp at 1, qdrant_io. set (d2 := set_export _ d1).
  assert (B2 : beside d d2) by (etrans; [exact B1|by apply beside_other]).
  destruct (t_qdrant_faults _ _); [done|]. apply wp_store. etrans; [exact B2|by apply beside_other].
Qed.

Lemma run_export_tx env now task d :
  is_Some (minus_days now SOURCE_TTL_DAYS) -> readable d ->
  wp (run_export env now task) d (fun _ => rtc tx d) (fun _ => False).
Proof.
  intros Hclock R. unfold run_export. destruct (signing_key_from_env env) as [key|e|].
  - eapply wp_mono; [by apply run_with_spec| |done]. intros o d' (out & _ & Hs).
    destruct (parse_request task); [|by destruct Hs as [_ ->]].
    destruct Hs as (_ & [[_ Hf]|[_ [k Q]]]); [exact (fn_tx _ _ _ _ _ _ Hf)|exact (qt_tx _ _ _ _ _ Q)].
  - eapply wp_mono; [by apply run_refused_spec| |done]. intros o d' (out & _ & Hs).
    destruct (parse_request task); [|by destruct Hs as [_ ->]].
    destruct Hs as (_ & _ & k & Q). exact (qt_tx _ _ _ _ _ Q).
  - unfold run_with. destruct (parse_request task) as [req|]; [|by apply wp_ret].
    apply wp_bind, wp_try. eapply wp_mono; [apply mark_running_spec| |].
    + intros [] d' Q. apply wp_ret. exact (qt_tx _ _ _ _ _ Q).
    + intros d' Q e. apply wp_ret. exact (qt_tx _ _ _ _ _ Q).
Qed.

Lemma dispatch_tx env now run_id task d :
  is_Some (minus_days now SOURCE_TTL_DAYS) -> readable d ->
  wp (dispatch_task env now run_id task) d (fun _ => rtc tx d) (fun _ => False).
Proof.
  intros Hclock R. unfold dispatch_task. case_decide; [by apply wp_ret|].
  case_decide; [apply wp_bind; eapply wp_mono; [by apply run_export_tx|done|done]|].
  case_decide.
  { apply wp_bind. eapply wp_mono; [apply run_purge_spec| |done]. intros o d' [P _]. apply wp_ret.
    apply rtc_once, tx_other; unfold exports_of, pages_of; by rewrite (pg_export _ _ _ P). }
  case_decide; [by apply wp_ret|]. case_decide; [|by apply wp_ret].
  unfold handle_index_policy_rule. apply wp_bind, wp_bind, wp_try.
  eapply wp_mono; [apply index_policy_rule_tx| |].
  - intros [] d' [T _]. by apply wp_ret, wp_ret.
  - intros d' [T _] e. by apply wp_ret, wp_ret.
Qed.

Lemma drain_tx env now run_id d :
  is_Some (minus_days now SOURCE_TTL_DAYS) -> readable d ->
  wp (run_queue_drain env now run_id) d (fun _ => rtc tx d) (fun _ => False).
Proof.
  intros Hclock R. unfold run_queue_drain. apply wp_bind, wp_try, wp_redis.
  2:{ intros d1 [T _] e. by apply wp_ret. }
  intros d1 B1. unfold pop. apply wp_bind, wp_try, wp_bind, wp_redis.
  2:{ intros d2 [T _] e. apply wp_ret. destruct B1 as [T1 _]. by etrans. }
  intros d2 B2. assert (B : beside d d2) by by etrans. apply wp_bind, wp_look.
  destruct (blpop ALL_QUEUES _) as [[json q]|]; [|apply wp_ret, wp_ret; apply B].
  apply wp_bind, wp_store, wp_ret. set (d3 := set_export _ d2).
  assert (B3 : beside d d3) by (etrans; [exact B|by apply beside_other]).
  destruct (envelope_from_str json) as [task|].
  - eapply wp_mono; [apply dispatch_tx; [done|by eapply readable_beside]| |done].
    intros r d4 T4. destruct B3 as [T3 _]. by etrans.
  - destruct (body_preview json); apply wp_ret; apply B3.
Qed.

Lemma mark_enqueue_failed_tx id ws d :
  awp (mark_enqueue_failed id ws) d (fun _ => rtc tx d) (fun _ => rtc tx d).
Proof.
  assert (Hs : forall d', same d d' -> rtc tx d d') by (intros d' S; apply (same_quiet 0 0 _ _ S)).
  unfold mark_enqueue_failed. apply awp_bind, api_begin_spec; [|auto]. intros d1 S1.
  apply awp_bind, awp_while, wp_pg; intros d2 S2; [|apply Hs; sames].
  apply awp_bind, awp_while, wp_pg; intros d3 S3; [|apply Hs; sames].
  apply awp_store. etrans; [apply (Hs d3); sames|].
  exact (qt_tx _ _ _ _ _ (failed_quiet id ws ENQUEUE_FAILED d3)).
Qed.

Lemma create_export_tx env id now ctx body d :
  awp (create_export env id now ctx body) d (fun _ => rtc tx d) (fun _ => rtc tx d).
Proof.
  assert (Hs : forall d', same d d' -> rtc tx d d') by (intros d' S; apply (same_quiet 0 0 _ _ S)).
  unfold create_export. apply awp_bind, awp_result.
  destruct (require_role_cases (jc_role ctx) Admin) as [Hr|[e Hr]]; rewrite Hr; [|done].
  apply awp_bind, awp_result. destruct (validate_cases body) as [(f & n & Hv)|[e Hv]]; rewrite Hv; [|done].
  destruct (negb (key_configured env)); [by apply awp_result|].
  apply awp_bind, api_begin_spec; [|auto]. intros d1 S1.
  apply awp_bind, awp_total. cbn [fst snd].
  apply awp_bind, awp_while. unfold insert_export. apply wp_bind, wp_pg; intros d2 S2; [|apply Hs; sames].
  apply wp_bind, wp_look. destruct (has_export _ _) eqn:Hx; [apply wp_raise, Hs; sames|]. apply wp_ret.
  apply awp_bind, awp_while, wp_pg; intros d3 S3; [|apply Hs; sames].
  apply awp_bind, awp_store. set (d4 := next_stamp _).
  assert (T4 : rtc tx d d4).
  { etrans; [apply (Hs d3); sames|]. apply rtc_once. eapply (tx_create _ _ ctx body f n id); [|done|done].
    destruct S3 as (? & ? & ? & ->). exact Hx. }
  apply awp_bind, awp_attempt, awp_while. unfold enqueue_task. apply wp_bind, wp_redis.
  2:{ intros d5 [T5 _]. apply awp_bind, awp_attempt. eapply awp_mono; [apply mark_enqueue_failed_tx| |];
      intros ? d6 T6; apply awp_result; (etrans; [exact T4|]); (etrans; [exact T5|exact T6]). }
  intros d5 [T5 _]. apply wp_bind, wp_redis.
  2:{ intros d6 [T6 _]. apply awp_bind, awp_attempt. eapply awp_mono; [apply mark_enqueue_failed_tx| |];
      intros ? d7 T7; apply awp_result; (etrans; [exact T4|]); (etrans; [exact T5|]);
      (etrans; [exact T6|exact T7]). }
  intros d6 [T6 _]. apply wp_store. unfold awp, mret, Api_ret.
  etrans; [exact T4|]. etrans; [exact T5|]. etrans; [exact T6|]. by apply rtc_once, tx_other.
Qed.

(** After a failed push the answer is an error, whatever else fails. *)
Lemma awp_failed {A} id ws e d (Q : A -> Db -> Prop) :
  awp (attempt (mark_enqueue_failed id ws);; of_result (Err e)) d Q (fun _ _ => True).
Proof.
  apply awp_bind, awp_attempt. eapply awp_mono; [apply mark_enqueue_failed_tx| |];
    intros; by apply awp_result.
Qed.

Lemma list_exports_tx ctx limit d :
  awp (list_exports ctx limit) d (fun _ => rtc tx d) (fun _ => rtc tx d).
Proof.
  assert (Hs : forall d', same d d' -> rtc tx d d') by (intros d' S; apply (same_quiet 0 0 _ _ S)).
  unfold list_exports. apply awp_bind, awp_result.
  destruct (require_role_cases (jc_role ctx) Admin) as [Hr|[e Hr]]; rewrite Hr; [|done].
  apply awp_bind, scoped_read_spec; [|auto]. intros d0 d1 _ S. apply awp_ret. auto.
Qed.

Lemma get_export_page_tx ctx id n d :
  awp (get_export_page ctx id n) d (fun _ => rtc tx d) (fun _ => rtc tx d).
Proof.
  assert (Hs : forall d', same d d' -> rtc tx d d') by (intros d' S; apply (same_quiet 0 0 _ _ S)).
  unfold get_export_page. apply awp_bind, awp_result.
  destruct (require_role_cases (jc_role ctx) Admin) as [Hr|[e Hr]]; rewrite Hr; [|done].
  apply awp_bind, scoped_read_spec; [|auto]. intros d0 d1 _ S.
  destruct (find_page _ _ _ _ _) as [[p e]|]; [apply awp_ret|apply awp_result]; auto.
Qed.

Lemma create_reaches env id now ctx body d : rtc tx d (create_export env id now ctx body d).2.
Proof.
  pose proof (create_export_tx env id now ctx body d) as Hs. unfold awp in Hs.
  by destruct (create_export env id now ctx body d) as [[] ?].
Qed.

Lemma drain_reaches env now run_id d :
  is_Some (minus_days now SOURCE_TTL_DAYS) -> readable d -> rtc tx d (run_queue_drain env now run_id d).2.
Proof.
  intros Hclock R. pose proof (drain_tx env now run_id d Hclock R) as Hs. unfold wp in Hs.
  by destruct (run_queue_drain env now run_id d) as [[] ?].
Qed.

(** A handler of the API or a turn of the worker's drain, run from [d] to
    [d']. *)
Inductive handled (env : str -> option str) (d d' : Db) : Prop :=
  | handled_create id now ctx body r : create_export env id now ctx body d = (r, d') -> handled env d d'
  | handled_list ctx limit r : list_exports ctx limit d = (r, d') -> handled env d d'
  | handled_get ctx id r : get_export ctx id d = (r, d') -> handled env d d'
  | handled_page ctx id n r : get_export_page ctx id n d = (r, d') -> handled env d d'
  | handled_drain now run_id r :
      is_Some (minus_days now SOURCE_TTL_DAYS) -> readable d ->
      run_queue_drain env now run_id d = (r, d') -> handled env d d'.

(** C19: The handlers implement the transactions: whatever a route of the
    export API or a turn of the queue drain does (a queued export, a purge, a
    policy rule, an envelope that does not parse), however its calls fail, the
    state it leaves is reached from the one it found by transactions of [tx]. *)
Theorem handlers_refine_tx env d d' : handled env d d' -> rtc tx d d'.
Proof.
  intros [id now ctx body r Hr|ctx limit r Hr|ctx id r Hr|ctx id n r Hr|now run_id r Hclock R Hr].
  - pose proof (create_export_tx env id now ctx body d) as Hs. unfold awp in Hs. rewrite Hr in Hs.
    by destruct r.
  - pose proof (list_exports_tx ctx limit d) as Hs. unfold awp in Hs. rewrite Hr in Hs. by destruct r.
  - pose proof (get_export_spec ctx id d (fun _ => rtc tx d) (fun _ => rtc tx d)
      (fun e d1 _ _ _ S => qt_tx _ _ _ _ _ (same_quiet 0 0 _ _ S))
      (fun e d1 S => qt_tx _ _ _ _ _ (same_quiet 0 0 _ _ S))) as Hs.
    unfold awp in Hs. rewrite Hr in Hs. by destruct r.
  - pose proof (get_export_page_tx ctx id n d) as Hs. unfold awp in Hs. rewrite Hr in Hs. by destruct r.
  - pose proof (drain_tx env now run_id d Hclock R) as Hs. unfold wp in Hs. rewrite Hr in Hs. by destruct r.
Qed.

(** ** From the route to the worker *)

Lemma export_payload_plain id body format ps : (ps < 2 ^ 64)%N -> plain (export_payload id body format ps).
Proof.
  intros Hps. eexists. split; [reflexivity|]. split.
  - repeat (constructor; [|repeat (constructor; [vm_compute; reflexivity|]); constructor]). constructor.
  - repeat constructor; cbn; done.
Qed.

Lemma validate_Ok body format ps :
  validate body = Ok (format, ps) ->
  format_parse (ce_format body) = Some format /\ (ce_from body < ce_to body)%Z /\ page_size_ok ps = true
  /\ ps = default DEFAULT_PAGE_SIZE (ce_page_size body).
Proof.
  unfold validate. destruct (format_parse _) as [f|]; cbn [ok_or obind]; [|done].
  destruct (Z.leb_spec (ce_to body) (ce_from body)); [done|]. destruct (_ <? _)%Z; [done|].
  destruct (page_size_ok _) eqn:Hp; cbn [negb]; [|done]. intros [= -> <-]. auto.
Qed.

Lemma payload_fields_of (e f t fmt p : Value) :
  payload_fields (Object (struct_object [($"export_id", e); ($"from", f); ($"to", t); ($"format", fmt);
    ($"page_size", p)])) = Some (e, f, t, fmt, Some p).
Proof. vm_compute. reflexivity. Qed.

Lemma parse_created id body format ps ws now :
  (id < 2 ^ 128)%N -> validate body = Ok (format, ps) ->
  parse_request (TaskEnvelope_new AUDIT_EXPORT (export_payload id body format ps) ws now)
  = inl {| q_export_id := id; q_workspace_id := ws; q_from := ce_from body; q_to := ce_to body;
           q_format := format; q_page_size := ps |}.
Proof.
  intros Hid (_ & Hw & Hps & _)%validate_Ok. unfold parse_request, raw_payload. cbn [te_payload TaskEnvelope_new].
  unfold export_payload. rewrite payload_fields_of.
  assert (ps <= u32_max)%N by (unfold page_size_ok, MAX_PAGE_SIZE in Hps; unfold u32_max; lia).
  cbn [mbind option_bind uuid_value as_str]. rewrite uuid_from_show, !instant_from_shown by done.
  cbn [mbind option_bind u32_value as_u32]. replace (ps <=? u32_max)%N with true by lia.
  cbn [fmap option_fmap option_map mbind option_bind rp_format rp_page_size rp_from rp_to default].
  unfold Datatypes.id. rewrite format_parse_as_str, Hps. cbn [negb].
  replace (ce_to body <=? ce_from body)%Z with false by lia. done.
Qed.

Definition queue_of (d : Db) : list str := default [] (t_queues (d_export d) !! QUEUE_AUDIT_EXPORT).

(** What a route accepts is what a worker runs: when [create_export]
    answers, an export with the answered identifier is recorded as queued and
    one text was appended to the queue; the worker reads it as an export task
    and parses it to exactly the workspace of the administrator's token and
    the window, format and page size that were asked for. *)
Theorem created_export_roundtrip env id now ctx body d resp d' :
  (id < 2 ^ 128)%N -> create_export env id now ctx body d = (Ok resp, d') ->
  exists text task req e,
    cx_export_id resp = id /\ queue_of d' = queue_of d ++ [text]
    /\ envelope_from_str text = Some task /\ te_task_type task = AUDIT_EXPORT
    /\ parse_request task = inl req
    /\ q_export_id req = id /\ q_workspace_id req = jc_workspace_id ctx
    /\ q_from req = ce_from body /\ q_to req = ce_to body
    /\ format_parse (ce_format body) = Some (q_format req)
    /\ q_page_size req = default DEFAULT_PAGE_SIZE (ce_page_size body)
    /\ e ∈ exports_of d' /\ is_export id (jc_workspace_id ctx) e = true /\ ax_status e = STATUS_QUEUED.
Proof.
  intros Hid Hc.
  assert (Hs : awp (create_export env id now ctx body) d (fun resp d' => exists format ps e,
    validate body = Ok (format, ps) /\ cx_export_id resp = id
    /\ queue_of d' = queue_of d ++ [envelope_to_string (TaskEnvelope_new AUDIT_EXPORT
         (export_payload id body format ps) (jc_workspace_id ctx) now)]
    /\ e ∈ exports_of d' /\ is_export id (jc_workspace_id ctx) e = true /\ ax_status e = STATUS_QUEUED)
    (fun _ _ => True)).
  { clear Hc. unfold create_export. apply awp_bind, awp_result.
    destruct (require_role_cases (jc_role ctx) Admin) as [Hr|[e Hr]]; rewrite Hr; [|done].
    apply awp_bind, awp_result. destruct (validate_cases body) as [(f & n & Hv)|[e Hv]]; rewrite Hv; [|done].
    destruct (negb (key_configured env)); [by apply awp_result|].
    apply awp_bind, api_begin_spec; [|done]. intros d1 S1. apply awp_bind, awp_total. cbn [fst snd].
    apply awp_bind, awp_while. unfold insert_export. apply wp_bind, wp_pg; intros d2 S2; [|done].
    apply wp_bind, wp_look. destruct (has_export _ _) eqn:Hx; [by apply wp_raise|]. apply wp_ret.
    apply awp_bind, awp_while, wp_pg; intros d3 S3; [|done]. apply awp_bind, awp_store.
    assert (S : same d d3) by sames. set (row := new_export _ _ _ _ _ _). set (d4 := next_stamp _).
    assert (Hq4 : queue_of d4 = queue_of d) by (by destruct S as (? & ? & ? & ->)).
    assert (Hr4 : row ∈ exports_of d4) by (unfold exports_of; cbn; apply elem_of_app; right; by left).
    apply awp_bind, awp_attempt, awp_while. unfold enqueue_task, redis_io. apply wp_bind.
    unfold wp at 1. destruct (t_redis_faults _ _); [apply awp_failed|].
    apply wp_bind. unfold wp at 1. destruct (t_redis_faults _ _); [apply awp_failed|].
    apply wp_store, awp_ret. exists f, n, row. split_and!; try done.
    - unfold queue_of at 1. cbn. rewrite lookup_insert_eq. cbn. f_equal. exact Hq4.
    - unfold is_export. cbn. by rewrite !N.eqb_refl. }
  unfold awp in Hs. rewrite Hc in Hs. destruct Hs as (f & n & e & Hv & Hresp & Hq & He & Ho & Hst).
  eexists _, _, _, e. split; [exact Hresp|]. split; [exact Hq|].
  destruct (validate_Ok _ _ _ Hv) as (Hf & Hw & Hps & Hd).
  split; [apply envelope_from_to; [apply export_payload_plain|done]|].
  { unfold page_size_ok, MAX_PAGE_SIZE in Hps. lia. }
  split; [done|]. split; [by apply parse_created|]. cbn. by split_and!.
Qed.
End claims.
