(* ===== verification/ExportRuns.v ===== *)
(** * Concrete runs of the export

    Library instances with the laws the export relies on, and one export from
    the route to the auditor. *)

From Stdlib Require Import SpecFloat.
From S2P Require Import Prelude Rstr Json Types Providers ProvidersSpec AuditTexts AuditExport.
From S2P Require Import AuditExportSpec AuditExportRuns Roles Limits Sessions WorkerDb.
From S2P Require Import Sweeps ExportJob QueueDrain ExportRoutes ExportSpec ExportTx.
From S2P Require Import ExportRefine ExportClaims.
From S2P Require AdminAudit.

(** ** Text forms that read back *)

Definition text_of {A} `{Countable A} (a : A) : str := bits_of (encode a).
Definition of_text {A} `{Countable A} (s : str) : option A := of_bits s ≫= decode.
Lemma of_text_of {A} `{Countable A} (a : A) : of_text (text_of a) = Some a.
Proof. unfold of_text, text_of. rewrite of_bits_of. apply decode_encode. Qed.

Lemma bits_of_ascii p : forallb (fun c => (byte_val c <? 128)%N) (bits_of p) = true.
Proof. induction p; simpl; rewrite ?IHp; done. Qed.

(** Hexadecimal. *)
Definition hex_val (c : ascii) : N := let n := byte_val c in (if n <? 58 then n - 48 else n - 87)%N.
Definition hex_value (s : str) : N := fold_left (fun a c => a * 16 + hex_val c)%N s 0%N.

Lemma hex_val_digit n : (n < 16)%N -> hex_val (hex_digit n) = n.
Proof. intros Hn. destruct n as [|p]; [done|]. do 4 (destruct p as [p|p|]; try lia; try done). Qed.

Lemma hex_value_digits k n : (n < 16 ^ N.of_nat k)%N -> hex_value (hex_digits k n) = n.
Proof.
  revert n. induction k as [|k IH]; intros n Hn; [change (n < 1)%N in Hn; cbn; lia|].
  rewrite Nat2N.inj_succ, N.pow_succ_r' in Hn. cbn [hex_digits]. unfold hex_value.
  rewrite fold_left_app. fold (hex_value (hex_digits k (n / 16))). cbn [fold_left].
  rewrite IH by (apply N.Div0.div_lt_upper_bound; lia). rewrite hex_val_digit by (apply N.mod_lt; lia).
  pose proof (N.div_mod' n 16). lia.
Qed.

Definition demo_uuid (s : str) : option Uuid :=
  Some (hex_value (take 8 s ++ take 4 (drop 9 s) ++ take 4 (drop 14 s) ++ take 4 (drop 19 s) ++ drop 24 s)).

Lemma demo_uuid_show u : (u < 2 ^ 128)%N -> demo_uuid (show_uuid u) = Some u.
Proof.
  intros Hu. unfold demo_uuid, show_uuid. f_equal.
  transitivity (hex_value (hex_digits 32 u)); [reflexivity|by apply hex_value_digits].
Qed.

(** Strings in a row: each byte marked, each end marked. *)
Definition frame (s : str) : str := concat ((fun c => ["1"%char; c]) <$> s) ++ ["0"%char].
Definition frames (l : list str) : str := concat (frame <$> l).

Fixpoint unframe (acc : str) (s : str) : list str :=
  match s with
  | m :: s' =>
    if decide (m = "1"%char) then
      match s' with c :: s'' => unframe (acc ++ [c]) s'' | [] => [] end
    else acc :: unframe [] s'
  | [] => []
  end.

Lemma unframe_frame acc s rest : unframe acc (frame s ++ rest) = (acc ++ s) :: unframe [] rest.
Proof.
  revert acc. induction s as [|c s IH]; intros acc; [by rewrite app_nil_r|].
  change (frame (c :: s)) with ("1"%char :: c :: frame s). cbn [app unframe].
  rewrite decide_True by done. rewrite IH. by rewrite <- app_assoc.
Qed.

Lemma unframe_frames l : unframe [] (frames l) = l.
Proof.
  induction l as [|s l IH]; [done|]. change (frames (s :: l)) with (frame s ++ frames l).
  rewrite unframe_frame, IH. done.
Qed.

(** ** The instances *)

(** The libraries but for the manifest's text. *)
Definition base_env : ExportEnv := {|
  sha256 := pad32; sha256_len := pad32_length; hex_encode b := b; hex_decode := Some;
  b64_encode b := b; b64_decode := Some; SigningKey := unit; VerifyingKey := unit;
  signing_key_from_bytes _ := tt; verifying_key _ := tt; vk_to_bytes _ := repeat "k"%char 32;
  vk_from_bytes _ := Some tt; ed_sign _ _ := repeat "s"%char 64;
  ed_verify _ _ s := bool_decide (s = repeat "s"%char 64);
  value_to_string _ := $"{}"; number_to_string _ := $"0"; value_from_str _ := None;
  manifest_to_string _ := None; manifest_from_str _ := None;
  instant_text := text_of; instant_to_string t := Some (text_of t); to_rfc3339 := text_of;
  min_instant := (-9000000000000000000)%Z |}.

(** An envelope with a plain payload, as strings. *)
Definition field_text (v : Value) : str :=
  match v with
  | VString s => "s"%char :: s
  | Number (PosInt n) => "n"%char :: text_of n
  | _ => []
  end.
Definition text_field (s : str) : Value :=
  match s with
  | c :: s' => if decide (c = "s"%char) then VString s' else Number (PosInt (default 0%N (of_text s')))
  | [] => Null
  end.
Definition payload_text (v : Value) : str :=
  match v with Object m => frames ((fun kv => frames [kv.1; field_text kv.2]) <$> m) | _ => [] end.
Definition text_payload (s : str) : Value :=
  Object ((fun f => match unframe [] f with [k; v] => (k, text_field v) | _ => ([], Null) end) <$> unframe [] s).

Lemma payload_text_reads v : plain v -> text_payload (payload_text v) = v.
Proof.
  intros (m & -> & _ & Hm). unfold text_payload, payload_text. f_equal. rewrite unframe_frames.
  rewrite <- list_fmap_compose.
  induction Hm as [|[k v] m Hv _ IH]; [done|]. csimpl. rewrite IH. f_equal. unfold compose.
  rewrite unframe_frames. cbn [fst snd] in *. f_equal.
  destruct v as [| |[n| |]|s| |]; try done. cbn [field_text text_field]. rewrite decide_False by done.
  by rewrite of_text_of.
Qed.

Definition envelope_text (e : TaskEnvelope) : str :=
  frames [te_task_type e; payload_text (te_payload e); text_of (te_workspace_id e);
          text_of (te_created_at e); text_of (te_retry_count e)].
Definition text_envelope (s : str) : option TaskEnvelope :=
  match unframe [] s with
  | [t; p; w; c; r] =>
    w ← of_text w; c ← of_text c; r ← of_text r;
    Some {| te_task_type := t; te_payload := text_payload p; te_workspace_id := w; te_created_at := c;
            te_retry_count := r |}
  | _ => None
  end.

#[local] Instance runs_job_env : JobEnv := {|
  uuid_from_text := demo_uuid;
  instant_from_text := of_text;
  envelope_to_string := envelope_text;
  envelope_from_str := text_envelope;
  pg_instant t := (t / 1000)%Z;
  to_date_time z := z;
  ch_uuid_key u := u;
  from_utf8_lossy s := s |}.

(** ** The export that will be made *)

Definition demo_event (id ws at_ : N) : EventRow := {|
  ev_request_id := id; ev_workspace_id := ws; ev_created_at_unix := at_; ev_provider := $"echo";
  ev_model := $"m"; ev_final_action := $"allow"; ev_input_tokens := None; ev_output_tokens := Some 3%N;
  ev_estimated_usage := false; ev_cost_usd := S754_zero false; ev_user_id := None; ev_api_key_id := None;
  ev_api_key_name := None; ev_ip_address := None; ev_user_agent := None; ev_floor_only := true;
  ev_engines := [] |}.

Definition demo_revocation (ws : Uuid) : RevocationRow := {|
  rv_workspace_id := ws; rv_actor_user_id := 5; rv_actor_email := None; rv_actor_role := $"admin";
  rv_target_user_id := 6; rv_target_email := $"a@b"; rv_target_role := $"member";
  rv_revoked_before_unix := 7; rv_refresh_tokens_revoked := 1; rv_session_id := None |}.

Definition demo_events : list EventRow := [demo_event 2 8 30; demo_event 1 8 20; demo_event 3 9 25].

Definition runs_now : DateTime := (10 ^ 15)%Z.
Definition runs_request : ExportRequest := {|
  q_export_id := 77; q_workspace_id := 8; q_from := 10 * 10 ^ 9; q_to := 40 * 10 ^ 9; q_format := Csv;
  q_page_size := 1 |}.

Definition runs_rows : list AuditRow := into_audit_row <$> [demo_event 1 8 20; demo_event 2 8 30].
Definition runs_control : list ControlRow :=
  [revocation_control runs_request {| st_id := 50; st_created_at := 22000000; st_row := demo_revocation 8 |}].

Definition runs_manifest : Manifest :=
  match @retention_for base_env (10 * 10 ^ 9) (40 * 10 ^ 9) runs_now with
  | Some r => @export_manifest base_env runs_request 1 runs_now tt (chunks 1 runs_rows) (chunks 1 runs_control) r
  | None => demo_manifest
  end.

(** Its text; no other manifest is ever made. *)
Definition runs_text : str := $"manifest".

#[local] Instance runs_env : ExportEnv := {|
  sha256 := pad32; sha256_len := pad32_length; hex_encode b := b; hex_decode := Some;
  b64_encode b := b; b64_decode := Some; SigningKey := unit; VerifyingKey := unit;
  signing_key_from_bytes _ := tt; verifying_key _ := tt; vk_to_bytes _ := repeat "k"%char 32;
  vk_from_bytes _ := Some tt; ed_sign _ _ := repeat "s"%char 64;
  ed_verify _ _ s := bool_decide (s = repeat "s"%char 64);
  value_to_string _ := $"{}"; number_to_string _ := $"0";
  value_from_str s := if decide (s = runs_text)
    then Some (Object [($"schema_version", Number (PosInt (schema_version runs_manifest)))]) else None;
  manifest_to_string m := if decide (m = runs_manifest) then Some runs_text else None;
  manifest_from_str s := if decide (s = runs_text) then Some runs_manifest else None;
  instant_text := text_of; instant_to_string t := Some (text_of t); to_rfc3339 := text_of;
  min_instant := (-9000000000000000000)%Z |}.

#[local] Instance runs_laws : ExportLaws.
Proof.
  split; try done.
  - intros m s. cbn [manifest_to_string manifest_from_str runs_env]. case_decide as Hm; [|done].
    intros [= <-]. rewrite decide_True by done. by rewrite Hm.
  - intros m s. cbn [manifest_to_string value_from_str runs_env]. case_decide as Hm; [|done].
    intros [= <-]. rewrite decide_True by done. eexists. split; [done|]. by rewrite Hm.
Qed.

#[local] Instance runs_job_laws : JobLaws.
Proof.
  split; try done.
  - exact demo_uuid_show.
  - intros t. apply of_text_of.
  - intros e He _. cbn [envelope_from_str envelope_to_string runs_job_env]. unfold envelope_text, text_envelope.
    rewrite unframe_frames, !of_text_of. cbn [mbind option_bind]. rewrite payload_text_reads by done.
    by destruct e.
Qed.

(** ** A database *)

Definition admin_ctx : JwtAuthContext := {|
  jc_user_id := 5; jc_workspace_id := 8; jc_role := Admin; jc_jti := []; jc_exp := 0 |}.

Definition runs_db (pg_faults : nat -> option str) : Db := {|
  d_workspaces := [8%N; 9%N]; d_vault := []; d_settings := ∅; d_refresh := []; d_keys := [];
  d_captures := [];
  d_audit := [{| pa_id := 40; pa_run_id := 41; pa_completed_at := 21000000;
    pa_record := success SCOPE_TOKEN_VAULT None 0 0 1 None None 0 |}];
  d_export := {|
    t_exports := []; t_pages := []; t_raw_capture := [];
    t_revocations := [{| st_id := 50; st_created_at := 22000000; st_row := demo_revocation 8 |};
                      {| st_id := 51; st_created_at := 22000000; st_row := demo_revocation 9 |}];
    t_admin := []; t_events := fun _ => demo_events; t_queues := ∅; t_points := ∅;
    t_embed := fun _ _ => None; t_redis_faults := fun _ => None; t_qdrant_faults := fun _ => None |};
  d_bypass := false; d_workspaces_armed := true; d_stamps := fun n => (N.of_nat n, 99%Z);
  d_arming := fun _ ws => Some ws; d_pg_faults := pg_faults; d_ch_faults := fun _ => None |}.

Definition no_faults : nat -> option str := fun _ => None.
Definition runs_key (name : str) : option str := Some (repeat "k"%char 32).

Definition runs_body : CreateExportRequest := {|
  ce_from := 10 * 10 ^ 9; ce_to := 40 * 10 ^ 9; ce_format := $"csv"; ce_page_size := Some 1%N |}.

(** The request is queued, a worker takes it, and the export is there. *)
Definition after_create (d : Db) : Db := (create_export runs_key 77 runs_now admin_ctx runs_body d).2.
Definition after_drain (d : Db) : Db := (run_queue_drain runs_key runs_now 78 (after_create d)).2.

Definition shows_complete (d : Db) : bool :=
  match (get_export admin_ctx 77 d).1 with
  | Ok det => bool_decide (ed_status det = STATUS_COMPLETE) && bool_decide (ed_total_pages det = Some 3%Z)
              && bool_decide (ed_total_rows det = Some 3%Z)
  | _ => false
  end.

Example demo_export_run : shows_complete (after_drain (runs_db no_faults)) = true.
Proof. vm_compute. reflexivity. Qed.

(** ** The database can be read *)

Definition revocation_row (id ws : Uuid) : Stamped RevocationRow :=
  {| st_id := id; st_created_at := 22000000; st_row := demo_revocation ws |}.

Lemma runs_control_mine req c f :
  c ∈ control_of req (runs_db f) ->
  (q_workspace_id req = 8%N /\ c = revocation_control req (revocation_row 50 8)) \/
  (q_workspace_id req = 9%N /\ c = revocation_control req (revocation_row 51 9)).
Proof.
  unfold control_of. cbn [runs_db d_export d_audit t_raw_capture t_revocations t_admin].
  rewrite !filter_nil, !elem_of_app. intros [Hc|[Hc|[Hc|Hc]]].
  - by apply elem_of_nil in Hc.
  - apply list_elem_of_fmap in Hc as (r & _ & Hr). apply list_elem_of_filter in Hr as [Hm Hr].
    by apply list_elem_of_singleton in Hr as ->.
  - apply list_elem_of_fmap in Hc as (r & -> & Hr). apply list_elem_of_filter in Hr as [Hm Hr].
    unfold mine in Hm. apply andb_true_iff in Hm as [Hws%N.eqb_eq _].
    apply elem_of_cons in Hr as [->|Hr]; [by left|].
    apply elem_of_cons in Hr as [->|Hr]; [by right|]. by apply elem_of_nil in Hr.
  - by apply elem_of_nil in Hc.
Qed.

Lemma runs_readable f : readable (runs_db f).
Proof.
  split.
  - intros req n. unfold control_of. cbn [runs_db d_export d_audit t_raw_capture t_revocations t_admin].
    unfold events_of. rewrite !length_app, !length_fmap.
    repeat match goal with |- context [filter ?P ?l] =>
      pose proof (length_filter P l); generalize dependent (filter P l); intros end.
    cbn in *. lia.
  - intros n e He format. cbn in He. unfold demo_events in He.
    apply elem_of_cons in He as [->|He]; [destruct format; vm_compute; reflexivity|].
    apply elem_of_cons in He as [->|He]; [destruct format; vm_compute; reflexivity|].
    apply elem_of_cons in He as [->|He]; [destruct format; vm_compute; reflexivity|].
    by apply elem_of_nil in He.
  - intros req c [[Hws ->]|[Hws ->]]%runs_control_mine format; unfold revocation_control;
      rewrite Hws; destruct format; vm_compute; reflexivity.
Qed.

Lemma runs_clock : is_Some (minus_days runs_now SOURCE_TTL_DAYS).
Proof. eexists. vm_compute. reflexivity. Qed.

Lemma queued_readable : readable (after_create (runs_db no_faults)).
Proof.
  apply (readable_ext (runs_db no_faults)); [| |apply runs_readable].
  - vm_compute. reflexivity.
  - intros n. vm_compute. reflexivity.
Qed.

Lemma runs_reached : rtc tx (runs_db no_faults) (after_drain (runs_db no_faults)).
Proof.
  apply (transitivity (y := after_create (runs_db no_faults))).
  - exact (create_reaches runs_key 77 runs_now admin_ctx runs_body (runs_db no_faults)).
  - exact (drain_reaches runs_key runs_now 78 (after_create (runs_db no_faults)) runs_clock queued_readable).
Qed.

(** ** The properties at this export *)

Lemma shows_complete_inv d :
  shows_complete d = true -> exists det d1, get_export admin_ctx 77 d = (Ok det, d1)
    /\ ed_status det = STATUS_COMPLETE /\ ed_total_pages det = Some 3%Z.
Proof.
  unfold shows_complete. destruct (get_export admin_ctx 77 d) as [[det| |] d1]; try done. cbn [fst].
  intros [[?%bool_decide_eq_true ?%bool_decide_eq_true]%andb_true_iff _]%andb_true_iff. eauto.
Qed.

Lemma published_exports_verify_witness :
  exists mj sig pk m bodies,
    verify_export mj sig pk bodies = Ok m /\ m_export_id m = 77%N /\ length bodies = 3.
Proof.
  destruct (shows_complete_inv _ demo_export_run) as (det & d1 & Hg & Hst & Htp).
  destruct (published_exports_verify (runs_db no_faults) (after_drain (runs_db no_faults)) admin_ctx 77 det d1)
    as (mj & sig & pk & m & bodies & _ & _ & _ & Hl & _ & Hv & Hid & _).
  - reflexivity.
  - reflexivity.
  - exact runs_reached.
  - exact Hg.
  - exact Hst.
  - exists mj, sig, pk, m, bodies. split; [exact Hv|]. split; [exact Hid|].
    rewrite Htp in Hl. injection Hl as Hl. lia.
Defined.

Definition runs_envelope : TaskEnvelope :=
  TaskEnvelope_new AUDIT_EXPORT (export_payload 77 runs_body Csv 1) 8 runs_now.

(** A run over the queued export. *)
Definition runs_signing_key : SigningKey := tt.
Definition runs_state (f : nat -> option str) : Db :=
  with_env (fun _ ws => Some ws) f (fun _ => None) (after_create (runs_db no_faults)).
Abbreviation runs_run f :=
  (run_with runs_envelope (Ok runs_signing_key) MAX_EXPORT_ROWS runs_now (runs_state f)).

Definition run_status (r : (option ExportOutcome + str) * Db) : option str :=
  match r.1 with inl (Some o) => Some (xo_status o) | _ => None end.

Lemma run_status_inv r st :
  run_status r = Some st -> exists out d', r = (inl (Some out), d') /\ xo_status out = st.
Proof. destruct r as [[[out|]|e] d']; cbn; try done. intros [= <-]. eauto. Qed.

Example run_completes : run_status (runs_run no_faults) = Some STATUS_COMPLETE.
Proof. vm_compute. reflexivity. Qed.

(** The seventh database call, in the reading of the control plane, fails. *)
Definition seventh (n : nat) : option str := if decide (n = 6) then Some $"down" else None.

Example run_fails : run_status (runs_run seventh) = Some STATUS_FAILED.
Proof. vm_compute. reflexivity. Qed.

Lemma readable_env a p c d : readable d -> readable (with_env a p c d).
Proof. by apply (readable_ext d). Qed.

Lemma run_readable f : readable (runs_state f).
Proof. exact (readable_env _ _ _ _ queued_readable). Qed.

Lemma runs_parsed : parse_request runs_envelope = inl runs_request.
Proof. vm_compute. reflexivity. Qed.

Lemma runs_counts :
  let d := runs_state no_faults in
  N.of_nat (length (exported_events runs_request 1 d) + length (exported_control runs_request d)) = 3%N.
Proof. vm_compute. reflexivity. Qed.

Lemma export_run_exact_witness :
  exists mj sig pk pages m, verify_export mj sig pk pages = Ok m /\ m_total_rows m = 3%N.
Proof.
  destruct (run_status_inv _ _ run_completes) as (out & d' & Hrun & Hst).
  destruct (export_run_exact (H := runs_env) runs_envelope MAX_EXPORT_ROWS runs_now runs_signing_key
    (runs_state no_faults) out d')
    as (req & evs & control & signed & m & pages & Hreq & _ & Pe & _ & Pc & _ & _ & Hp & Hv & _).
  - exact runs_clock.
  - exact (run_readable no_faults).
  - exact Hrun.
  - exact Hst.
  - exists (x_manifest_json signed), (x_signature_b64 signed), (x_public_key_b64 signed), pages, m.
    split; [exact Hv|].
    rewrite (pd_total _ _ _ _ _ _ _ _ _ Hp), (pd_rows _ _ _ _ _ _ _ _ _ Hp), length_fmap, Pe, Pc.
    rewrite runs_parsed in Hreq. injection Hreq as <-. exact runs_counts.
Defined.

Lemma created_no_pages :
  pages_of (runs_state seventh) = [].
Proof. vm_compute. reflexivity. Qed.

Lemma export_run_total_witness :
  exists out d', runs_run seventh = (inl (Some out), d') /\ xo_status out = STATUS_FAILED
    /\ pages_of d' = [].
Proof.
  destruct (run_status_inv _ _ run_fails) as (out0 & d0 & Hrun0 & Hst).
  destruct (export_run_total (H := runs_env) runs_envelope (Ok runs_signing_key) MAX_EXPORT_ROWS runs_now
    (runs_state seventh))
    as (out & d' & Hrun & Hcases).
  - exact runs_clock.
  - exact (run_readable seventh).
  - discriminate.
  - assert (inl (Some out0) = inl (Some out) :> (option ExportOutcome + str) /\ d0 = d') as [Eo ->]
      by (split; [exact (f_equal fst (eq_trans (eq_sym Hrun0) Hrun))|exact (f_equal snd (eq_trans (eq_sym Hrun0) Hrun))]).
    injection Eo as ->. exists out, d'. split; [exact Hrun0|]. split; [exact Hst|].
    destruct Hcases as [Hc|(_ & Hp & _)]; [rewrite Hst in Hc; discriminate Hc|]. rewrite Hp.
    exact created_no_pages.
Defined.

Lemma created_handled d : handled runs_key d (after_create d).
Proof.
  apply (handled_create runs_key _ _ 77 runs_now admin_ctx runs_body
    (create_export runs_key 77 runs_now admin_ctx runs_body d).1).
  unfold after_create. by destruct (create_export _ _ _ _ _ _).
Qed.

Lemma handlers_refine_tx_witness : rtc tx (runs_db no_faults) (after_create (runs_db no_faults)).
Proof.
  apply (handlers_refine_tx runs_key). apply created_handled.
Defined.

Definition create_ok (d : Db) : bool :=
  match (create_export runs_key 77 runs_now admin_ctx runs_body d).1 with Ok _ => true | _ => false end.

Example demo_create_ok : create_ok (runs_db no_faults) = true.
Proof. vm_compute. reflexivity. Qed.

Lemma create_ok_inv d :
  create_ok d = true -> exists resp, create_export runs_key 77 runs_now admin_ctx runs_body d = (Ok resp, after_create d).
Proof.
  unfold create_ok, after_create. destruct (create_export _ _ _ _ _ d) as [[resp| |] d']; try done. eauto.
Qed.

Lemma created_export_roundtrip_witness :
  exists text task req, queue_of (after_create (runs_db no_faults)) = queue_of (runs_db no_faults) ++ [text]
    /\ envelope_from_str text = Some task /\ parse_request task = inl req /\ q_export_id req = 77%N.
Proof.
  destruct (create_ok_inv _ demo_create_ok) as (resp & E).
  destruct (created_export_roundtrip runs_key 77 runs_now admin_ctx runs_body (runs_db no_faults) resp
    (after_create (runs_db no_faults))) as (text & task & req & e & _ & Hq & He & _ & Hp & Hid & _).
  - reflexivity.
  - exact E.
  - exists text, task, req. split; [exact Hq|]. split; [exact He|]. split; [exact Hp|exact Hid].
Defined.

(** ** Corner cases *)

(** A queued text that is no envelope and has a character across its byte 200
    kills the drain. *)
Definition bad_text : str := repeat "x"%char 199 ++ ["195"%char; "169"%char].

Example bad_text_utf8 : utf8_valid bad_text = true.
Proof. reflexivity. Qed.

Example drain_dies :
  (run_queue_drain runs_key runs_now 78
    (set_export (set_queues {[QUEUE_ANALYTICS := [bad_text]]} (d_export (runs_db no_faults)))
      (runs_db no_faults))).1 = inl Died.
Proof. vm_compute. reflexivity. Qed.

(** Requests that arrive between the count and the fetch are exported over the
    cap. *)
Example cap_race :
  let d := after_create (runs_db no_faults) in
  let growing n := match n with 0 => [demo_event 1 8 20] | S _ => demo_events end in
  match (run_with runs_envelope (Ok runs_signing_key) 2 runs_now
          (set_export (with_events growing (d_export d)) d)).1 with
  | inl (Some o) => (xo_status o, xo_total_rows o) = (STATUS_COMPLETE, 3%N)
  | _ => False
  end.
Proof. vm_compute. reflexivity. Qed.

(** The log is selected by whole seconds: a request before [from] in [from]'s
    second is exported. *)
Example window_by_seconds :
  let req := {| q_export_id := 77; q_workspace_id := 8; q_from := 10 * 10 ^ 9 + 1; q_to := 40 * 10 ^ 9;
                q_format := Csv; q_page_size := 1 |} in
  in_scope req (demo_event 1 8 10) = true /\ (ar_created_at (into_audit_row (demo_event 1 8 10)) < q_from req)%Z.
Proof. split; reflexivity. Qed.
