(* ===== verification/HttpProviders.v ===== *)
(** * The HTTP provider adapters

    providers/openai_compat.rs (OpenAI, Google, Bedrock), providers/vertex.rs,
    the deadlines of providers/upstream.rs and the registry of
    providers/mod.rs.

    The HTTP client is the class [HttpEnv]: what the [n]-th call answers to a
    request.  A response's body is the pieces it arrives in and, when reading
    it fails, the error that ends it.  [serde_json]'s reader is a parameter
    that returns the text's tree, with repeated members kept in order; what the
    code's own types make of a tree is written out. *)

From S2P Require Import Prelude Rstr Json Types Providers UrlGuard.

(** ** The HTTP client *)

Record HttpRequest : Type := {
  hq_method : str;
  hq_url : str;
  hq_headers : list (str * str);
  hq_json : option Value;
  hq_timeout_ms : option N;
}.

Record HttpResponse : Type := {
  rs_status : N;
  rs_pieces : list str;
  rs_read_error : option str;
}.

Class HttpEnv := {
  (** [inr] is the client's error, as text. *)
  send : nat -> HttpRequest -> HttpResponse + str;
  (** [Display] of a status code, with its reason phrase. *)
  status_display : N -> str;
  (** [Response::text], which decodes the declared character set. *)
  response_text : HttpResponse -> option str;
  json_parse : str -> option Value;
  (** The text of [serde_json]'s error on a body. *)
  json_error : str -> str;
  (** Milliseconds from sending the [n]-th call to its first byte or token. *)
  elapsed_ms : nat -> N;
}.

Definition is_success (status : N) : bool := (200 <=? status)%N && (status <? 300)%N.
Definition is_server_error (status : N) : bool := (500 <=? status)%N && (status <? 600)%N.

Definition failure (message : str) (retryable : bool) : ProviderFailure :=
  {| pf_message := message; pf_retryable := retryable |}.

(** ** Deadlines ([providers/upstream.rs]), in milliseconds *)

Definition DEFAULT_CONNECT_TIMEOUT_MS : N := 10000.
Definition DEFAULT_READ_TIMEOUT_MS : N := 120000.
Definition DEFAULT_TOTAL_TIMEOUT_MS : N := 120000.
Definition CONNECT_ENV : str := $"SECUREPROMPT_UPSTREAM_CONNECT_TIMEOUT_MS".
Definition READ_ENV : str := $"SECUREPROMPT_UPSTREAM_READ_TIMEOUT_MS".
Definition TOTAL_ENV : str := $"SECUREPROMPT_UPSTREAM_TOTAL_TIMEOUT_MS".

Record UpstreamDeadline : Type := { dl_connect : N; dl_read_idle : N; dl_total : N }.

Definition UpstreamDeadline_default : UpstreamDeadline := {|
  dl_connect := DEFAULT_CONNECT_TIMEOUT_MS; dl_read_idle := DEFAULT_READ_TIMEOUT_MS;
  dl_total := DEFAULT_TOTAL_TIMEOUT_MS |}.

Definition positive_millis (raw : option str) : option N :=
  raw ← raw;
  millis ← parse_u64 (trim raw);
  if (0 <? millis)%N then Some millis else None.

Definition UpstreamDeadline_parse (connect_ms read_idle_ms total_ms : option str) : UpstreamDeadline := {|
  dl_connect := default (dl_connect UpstreamDeadline_default) (positive_millis connect_ms);
  dl_read_idle := default (dl_read_idle UpstreamDeadline_default) (positive_millis read_idle_ms);
  dl_total := default (dl_total UpstreamDeadline_default) (positive_millis total_ms) |}.

Definition UpstreamDeadline_from_env (env : str -> option str) : UpstreamDeadline :=
  UpstreamDeadline_parse (env CONNECT_ENV) (env READ_ENV) (env TOTAL_ENV).

(** ** Reading JSON into the adapter's types *)

(** [serde_json]'s maps keep the last of repeated members. *)
Definition last_member (v : Value) (k : str) : option Value :=
  match v with Object m => obj_get (reverse m) k | _ => None end.

(** The derived [Deserialize] of a struct reads a map in which no field of the
    struct is repeated, ignoring other members, or the sequence of its fields.
    Each field comes with whether it has a default. *)
Definition struct_fields (fields : list (str * bool)) (v : Value) : option (list (option Value)) :=
  match v with
  | Object m =>
      if forallb (fun f => length (List.filter (fun kv => bool_decide (kv.1 = f.1)) m) <=? 1) fields
      then Some ((fun f => obj_get m f.1) <$> fields) else None
  | Array l =>
      if (length l <=? length fields) && forallb snd (drop (length l) fields)
      then Some ((fun i => l !! i) <$> seq 0 (length fields)) else None
  | _ => None
  end.

(** [Option<T>]: absent and null are [None]. *)
Definition opt_field {A} (dec : Value -> option A) (o : option Value) : option (option A) :=
  match o with
  | None | Some Null => Some None
  | Some v => Some <$> dec v
  end.

(** [#[serde(default)]] *)
Definition default_field {A} (dec : Value -> option A) (d : A) (o : option Value) : option A :=
  match o with None => Some d | Some v => dec v end.

Definition dec_vec {A} (dec : Value -> option A) (v : Value) : option (list A) :=
  match v with Array l => mapM dec l | _ => None end.

Definition dec_u32 (v : Value) : option N :=
  n ← as_u64 v; if (n <? 2 ^ 32)%N then Some n else None.

Record UsageBody : Type := { ub_prompt_tokens : option N; ub_completion_tokens : option N }.

Definition dec_usage (v : Value) : option UsageBody :=
  fs ← struct_fields [($"prompt_tokens", true); ($"completion_tokens", true)] v;
  match fs with
  | [p; c] => p ← opt_field dec_u32 p; c ← opt_field dec_u32 c;
              Some {| ub_prompt_tokens := p; ub_completion_tokens := c |}
  | _ => None
  end.

Record StreamDelta : Type := { sd_content : option str }.

Definition dec_stream_delta (v : Value) : option StreamDelta :=
  fs ← struct_fields [($"content", true)] v;
  match fs with
  | [c] => c ← opt_field as_str c; Some {| sd_content := c |}
  | _ => None
  end.

Record StreamChoice : Type := { sc_delta : StreamDelta; sc_finish_reason : option str }.

Definition dec_stream_choice (v : Value) : option StreamChoice :=
  fs ← struct_fields [($"delta", true); ($"finish_reason", true)] v;
  match fs with
  | [d; f] => d ← default_field dec_stream_delta {| sd_content := None |} d; f ← opt_field as_str f;
              Some {| sc_delta := d; sc_finish_reason := f |}
  | _ => None
  end.

Record StreamChunk : Type := {
  sk_choices : list StreamChoice;
  sk_usage : option UsageBody;
  sk_model : option str;
}.

Definition dec_stream_chunk (v : Value) : option StreamChunk :=
  fs ← struct_fields [($"choices", true); ($"usage", true); ($"model", true)] v;
  match fs with
  | [c; u; m] => c ← default_field (dec_vec dec_stream_choice) [] c; u ← opt_field dec_usage u;
                 m ← opt_field as_str m;
                 Some {| sk_choices := c; sk_usage := u; sk_model := m |}
  | _ => None
  end.

Record MessageBody : Type := { mb_content : option str }.

Definition dec_message_body (v : Value) : option MessageBody :=
  fs ← struct_fields [($"content", true)] v;
  match fs with
  | [c] => c ← opt_field as_str c; Some {| mb_content := c |}
  | _ => None
  end.

Record Choice : Type := { ch_message : option MessageBody; ch_finish_reason : option str }.

Definition dec_choice (v : Value) : option Choice :=
  fs ← struct_fields [($"message", false); ($"finish_reason", true)] v;
  match fs with
  | [m; f] => m ← opt_field dec_message_body m; f ← opt_field as_str f;
              Some {| ch_message := m; ch_finish_reason := f |}
  | _ => None
  end.

Record ChatResponse : Type := {
  chr_choices : list Choice;
  chr_usage : option UsageBody;
  chr_model : option str;
}.

Definition dec_chat_response (v : Value) : option ChatResponse :=
  fs ← struct_fields [($"choices", true); ($"usage", true); ($"model", true)] v;
  match fs with
  | [c; u; m] => c ← default_field (dec_vec dec_choice) [] c; u ← opt_field dec_usage u;
                 m ← opt_field as_str m;
                 Some {| chr_choices := c; chr_usage := u; chr_model := m |}
  | _ => None
  end.

Definition token_usage (u : UsageBody) : TokenUsage := {|
  input_tokens := ub_prompt_tokens u; output_tokens := ub_completion_tokens u;
  reasoning_tokens := None; cache_read_tokens := None; cache_write_tokens := None |}.

(** ** The OpenAI-compatible adapter ([providers/openai_compat.rs]) *)

Record OpenAiCompatAdapter : Type := { oa_provider_type : str; oa_default_base_url : str }.

Definition OpenAiCompat_openai : OpenAiCompatAdapter := {|
  oa_provider_type := $"openai"; oa_default_base_url := $"https://api.openai.com/v1" |}.
Definition OpenAiCompat_google : OpenAiCompatAdapter := {|
  oa_provider_type := $"google";
  oa_default_base_url := $"https://generativelanguage.googleapis.com/v1beta/openai" |}.
Definition OpenAiCompat_bedrock : OpenAiCompatAdapter := {|
  oa_provider_type := $"bedrock"; oa_default_base_url := [] |}.

(** [.map(str::trim).filter(|s| !s.is_empty())] *)
Definition nonblank (s : option str) : option str :=
  s ← s; match trim s with [] => None | t => Some t end.

Section adapters.
Context `{UrlEnv} `{HttpEnv}.

Definition resolve_base_url (a : OpenAiCompatAdapter) (target : ModelTarget)
    : outcome ProviderFailure str :=
  let raw :=
    match nonblank (get_str (mt_config target) $"base_url") with
    | Some url => Some url
    | None => match oa_default_base_url a with [] => None | url => Some url end
    end in
  match raw with
  | None =>
      Err (failure (oa_provider_type a ++ $": no base_url configured — set `base_url` in the "
        ++ $"provider's config (e.g. https://bedrock-mantle.<region>.api.aws/v1)") false)
  | Some raw =>
      match parse_and_check_url raw with
      | Panic => Panic
      | Err e => Err (failure (oa_provider_type a ++ $": refusing base_url — " ++ ssrf_error_text e) false)
      | Ok _ => Ok (trim_end_byte "/" raw)
      end
  end.

Definition bearer (a : OpenAiCompatAdapter) (i : ProviderInvocation) : outcome ProviderFailure str :=
  ok_or (in_decrypted_credential i) (failure (oa_provider_type a ++ $": no credential configured") false).

Definition completions_url (base : str) : str := base ++ $"/chat/completions".

(** [ChatRequest]: the flattened parameters follow the named fields, whatever
    their names. *)
Definition chat_message (m : Message) : Value :=
  Object [($"role", VString (role m)); ($"content", VString (content m))].

Definition extra_map (v : Value) : list (str * Value) :=
  match v with Object m => m | _ => [] end.

Definition chat_request_body (model : str) (i : ProviderInvocation) (stream : option bool) : Value :=
  Object ([($"model", VString model); ($"messages", Array (chat_message <$> in_messages i))]
    ++ match stream with Some b => [($"stream", Bool b)] | None => [] end
    ++ extra_map (in_extra_params i)).

Definition chat_http_request (url bearer model : str) (i : ProviderInvocation) (stream : option bool)
    (timeout : option N) : HttpRequest := {|
  hq_method := $"POST"; hq_url := url;
  hq_headers := [($"authorization", $"Bearer " ++ bearer)];
  hq_json := Some (chat_request_body model i stream);
  hq_timeout_ms := timeout |}.

Definition first_chars (n : nat) (s : str) : str := mjoin (take n (chars s)).

Definition http_failure (provider_type : str) (r : HttpResponse) : ProviderFailure :=
  failure (provider_type ++ $": HTTP " ++ status_display (rs_status r) ++ $": "
    ++ first_chars 500 (default [] (response_text r))) (is_server_error (rs_status r)).

(** [Response::json] as the type [dec] reads: the error is the read's or
    [serde_json]'s. *)
Definition response_json {A} (dec : Value -> option A) (r : HttpResponse) : A + str :=
  match rs_read_error r with
  | Some e => inr e
  | None =>
      let body := mjoin (rs_pieces r) in
      match json_parse body ≫= dec with
      | Some a => inl a
      | None => inr (json_error body)
      end
  end.

Definition ttft_sample (n : nat) : N := N.min (elapsed_ms n) (2 ^ 32 - 1).

(** What [invoke] makes of the client's answer. *)
Definition chat_answer (provider_type : str) (i : ProviderInvocation) (streaming : bool) (n : nat)
    (answer : HttpResponse + str) : outcome ProviderFailure ProviderOutput :=
  match answer with
  | inr e => Err (failure (provider_type ++ $": HTTP request failed: " ++ e) true)
  | inl response =>
      if negb (is_success (rs_status response)) then Err (http_failure provider_type response)
      else match response_json dec_chat_response response with
      | inr e => Err (failure (provider_type ++ $": invalid JSON response: " ++ e) false)
      | inl parsed =>
          let first := head (chr_choices parsed) in
          let text := default [] (c ← first; m ← ch_message c; mb_content m) in
          Ok {| out_content := text;
                out_model := default (in_model i) (chr_model parsed);
                out_usage := token_usage <$> chr_usage parsed;
                out_embedding := None;
                out_stream_chunks := if streaming then [text] else [];
                out_finish_reason := first ≫= ch_finish_reason;
                out_ttft_ms := Some (ttft_sample n) |}
      end
  end.

(** [total] is the buffered call's deadline. *)
Definition invoke (total : N) (provider_type url bearer model : str) (i : ProviderInvocation)
    (streaming : bool) (n : nat) : outcome ProviderFailure ProviderOutput :=
  chat_answer provider_type i streaming n
    (send n (chat_http_request url bearer model i (if streaming then Some false else None) (Some total))).

(** ** Server-sent events *)

Definition find_subslice (haystack needle : str) : option nat :=
  if bool_decide (needle = []) || (length haystack <? length needle) then None
  else find haystack needle.

(** What the reader keeps between events. *)
Record SseState : Type := {
  ss_finish_reason : option str;
  ss_usage : option TokenUsage;
  ss_model : option str;
  ss_ttft_ms : option N;
}.

Definition sse_start : SseState := {|
  ss_finish_reason := None; ss_usage := None; ss_model := None; ss_ttft_ms := None |}.

Definition BLANK_LINE : str := newline ++ newline.

(** One decoded frame. *)
Definition sse_frame (n : nat) (chunk : StreamChunk) (st : SseState) : SseState * list str :=
  let choice := head (sk_choices chunk) in
  let token :=
    match choice ≫= (fun c => sd_content (sc_delta c)) with
    | None | Some [] => None
    | Some t => Some t
    end in
  ({| ss_finish_reason :=
        match choice ≫= sc_finish_reason with Some f => Some f | None => ss_finish_reason st end;
      ss_usage := match sk_usage chunk with Some u => Some (token_usage u) | None => ss_usage st end;
      ss_model := match ss_model st with Some m => Some m | None => sk_model chunk end;
      ss_ttft_ms :=
        match token, ss_ttft_ms st with
        | Some _, None => Some (ttft_sample n)
        | _, t => t
        end |},
   match token with Some t => [t] | None => [] end).

(** The payload of a [data:] line, if it has one. *)
Definition sse_payload (line : str) : option str :=
  payload ← strip_prefix (trim_start line) $"data:";
  match trim payload with [] => None | p => Some p end.

(** The lines of one event: the state, the tokens, and whether [[DONE]] was
    met. *)
Fixpoint sse_lines (n : nat) (ls : list str) (st : SseState) : SseState * list str * bool :=
  match ls with
  | [] => (st, [], false)
  | line :: ls' =>
      match sse_payload line with
      | None => sse_lines n ls' st
      | Some payload =>
          if decide (payload = $"[DONE]") then (st, [], true)
          else match json_parse payload ≫= dec_stream_chunk with
          | None => sse_lines n ls' st
          | Some chunk =>
              let '(st1, tokens) := sse_frame n chunk st in
              let '(st2, tokens', done_) := sse_lines n ls' st1 in
              (st2, tokens ++ tokens', done_)
          end
      end
  end.

(** The inner loop: every complete event of the buffer.  A round takes at
    least the two bytes of the delimiter, so the buffer's length is fuel
    enough. *)
Fixpoint sse_drain (fuel : nat) (n : nat) (buf : str) (st : SseState)
    : str * SseState * list str * bool :=
  match fuel with
  | 0 => (buf, st, [], false)
  | S fuel' =>
      match find_subslice buf BLANK_LINE with
      | None => (buf, st, [], false)
      | Some pos =>
          let '(st1, tokens, done_) := sse_lines n (lines (utf8_lossy (take (pos + 2) buf))) st in
          if done_ then (drop (pos + 2) buf, st1, tokens, true)
          else
            let '(buf', st2, tokens', done_') := sse_drain fuel' n (drop (pos + 2) buf) st1 in
            (buf', st2, tokens ++ tokens', done_')
      end
  end.

Definition sse_tokens (tokens : list str) : ProviderEventStream := (fun t => Ok (Token t)) <$> tokens.

Definition sse_done (st : SseState) : ProviderEventStream :=
  [Ok (EvDone (ss_usage st) (ss_finish_reason st) (ss_model st) (ss_ttft_ms st))].

(** The outer loop, over the pieces of the body as they arrive. *)
Fixpoint sse_read (provider_type : str) (n : nat) (pieces : list str) (read_error : option str)
    (buf : str) (st : SseState) : ProviderEventStream :=
  match pieces with
  | [] =>
      match read_error with
      | Some e => [Err (failure (provider_type ++ $": stream read error: " ++ e) true)]
      | None => sse_done st
      end
  | bytes :: pieces' =>
      let '(buf', st', tokens, done_) := sse_drain (length (buf ++ bytes)) n (buf ++ bytes) st in
      sse_tokens tokens ++
        (if done_ then sse_done st' else sse_read provider_type n pieces' read_error buf' st')
  end.

Definition stream_answer (provider_type : str) (n : nat) (answer : HttpResponse + str)
    : outcome ProviderFailure ProviderEventStream :=
  match answer with
  | inr e => Err (failure (provider_type ++ $": HTTP request failed: " ++ e) true)
  | inl response =>
      if negb (is_success (rs_status response)) then Err (http_failure provider_type response)
      else Ok (sse_read provider_type n (rs_pieces response) (rs_read_error response) [] sse_start)
  end.

Definition invoke_stream (provider_type url bearer model : str) (i : ProviderInvocation) (n : nat)
    : outcome ProviderFailure ProviderEventStream :=
  stream_answer provider_type n (send n (chat_http_request url bearer model i (Some true) None)).

(** [complete], [stream] and [stream_events]: the credential and the address
    before the call. *)
Definition compat_call {A} (a : OpenAiCompatAdapter)
    (call : str -> str -> str -> ProviderInvocation -> nat -> outcome ProviderFailure A)
    (n : nat) (target : ModelTarget) (i : ProviderInvocation) : outcome ProviderFailure A :=
  obind (bearer a i) (fun token =>
  obind (resolve_base_url a target) (fun base =>
  call (completions_url base) token (in_model i) i n)).

Definition compat_adapter (total : N) (a : OpenAiCompatAdapter) : ProviderAdapter := {|
  ad_complete := compat_call a (fun url token model i n =>
    invoke total (oa_provider_type a) url token model i false n);
  ad_stream := compat_call a (fun url token model i n =>
    invoke total (oa_provider_type a) url token model i true n);
  ad_stream_events := compat_call a (fun url token model i n =>
    invoke_stream (oa_provider_type a) url token model i n) |}.
End adapters.

(** ** The Vertex AI adapter and the registry

    providers/vertex.rs and [ProviderCatalog] of providers/mod.rs.  The adapter
    keeps one token provider per credential fingerprint; the map is passed
    explicitly.  The gcp_auth crate is the class [GcpAuth]; SHA-256 (in hex) is
    a parameter. *)

Definition vertex_host (region : str) : str :=
  if decide (region = $"global") then $"aiplatform.googleapis.com"
  else region ++ $"-aiplatform.googleapis.com".

Definition vertex_completions_url (region project : str) : str :=
  $"https://" ++ vertex_host region ++ $"/v1/projects/" ++ project ++ $"/locations/" ++ region
  ++ $"/endpoints/openapi/chat/completions".

Definition google_prefixed (model : str) : str :=
  if starts_with model $"google/" then model else $"google/" ++ model.

Record VertexConfig : Type := { vx_region : option str; vx_project : option str }.

Definition dec_vertex_config (v : Value) : option VertexConfig :=
  fs ← struct_fields [($"region", false); ($"project", false)] v;
  match fs with
  | [r; p] => r ← opt_field as_str r; p ← opt_field as_str p;
              Some {| vx_region := r; vx_project := p |}
  | _ => None
  end.

Definition VertexConfig_from_value (v : Value) : VertexConfig :=
  default {| vx_region := None; vx_project := None |} (dec_vertex_config v).

Definition DEFAULT_REGION : str := $"us-central1".
Definition CLOUD_PLATFORM_SCOPE : str := $"https://www.googleapis.com/auth/cloud-platform".

Class GcpAuth := {
  Account : Type;
  (** [CustomServiceAccount::from_json] *)
  account_from_json : str -> Account + str;
  (** [gcp_auth::provider], at the [n]-th call. *)
  default_account : nat -> Account + str;
  (** [TokenProvider::token], at the [n]-th call. *)
  mint : nat -> Account -> str -> str + str;
  sha256_hex : str -> str;
}.

Definition nonempty (s : option str) : option str :=
  match s with Some [] => None | _ => s end.

Section vertex.
Context `{UrlEnv} `{HttpEnv} `{GcpAuth}.

Definition credential_fingerprint (credential : option str) : str :=
  match credential with
  | Some json => $"sa:" ++ sha256_hex json
  | None => $"adc"
  end.

Abbreviation Cache := (gmap str Account).

Definition token_provider (cache : Cache) (credential : option str) (n : nat)
    : (outcome ProviderFailure Account) * Cache :=
  let key := credential_fingerprint credential in
  match cache !! key with
  | Some p => (Ok p, cache)
  | None =>
      let provider :=
        match credential with
        | Some sa_json =>
            match account_from_json sa_json with
            | inl account => Ok account
            | inr e => Err (failure ($"vertex: invalid service-account JSON: " ++ e) false)
            end
        | None =>
            match default_account n with
            | inl account => Ok account
            | inr e => Err (failure ($"vertex: no Application Default Credentials available: " ++ e) false)
            end
        end in
      match provider with
      | Ok p => (Ok p, <[key := p]> cache)
      | r => (r, cache)
      end
  end.

Definition access_token (cache : Cache) (credential : option str) (n : nat)
    : (outcome ProviderFailure str) * Cache :=
  let '(provider, cache') := token_provider cache credential n in
  (obind provider (fun p =>
     match mint n p CLOUD_PLATFORM_SCOPE with
     | inl token => Ok token
     | inr e => Err (failure ($"vertex: failed to mint access token: " ++ e) false)
     end), cache').

Definition sa_project_id (credential : option str) : option str :=
  json ← credential;
  v ← json_parse json;
  last_member v $"project_id" ≫= as_str.

(** [google_cloud_project] is the environment's [GOOGLE_CLOUD_PROJECT]. *)
Definition resolve_target (google_cloud_project : option str) (target : ModelTarget)
    (credential : option str) : outcome ProviderFailure (str * str) :=
  let cfg := VertexConfig_from_value (mt_config target) in
  let region := default DEFAULT_REGION (nonempty (vx_region cfg)) in
  let project :=
    match nonempty (vx_project cfg) with
    | Some p => Some p
    | None => match sa_project_id credential with
              | Some p => Some p
              | None => google_cloud_project
              end
    end in
  match project with
  | Some p => Ok (region, p)
  | None => Err (failure ($"vertex: no project configured (set the provider's project, or use an SA "
              ++ $"key / GOOGLE_CLOUD_PROJECT)") false)
  end.

(** The three methods differ in the call they end with. *)
Definition vertex_call {A} (google_cloud_project : option str)
    (call : str -> str -> str -> ProviderInvocation -> nat -> outcome ProviderFailure A)
    (cache : Cache) (n : nat) (target : ModelTarget) (i : ProviderInvocation)
    : (outcome ProviderFailure A) * Cache :=
  let cred := in_decrypted_credential i in
  match resolve_target google_cloud_project target cred with
  | Err e => (Err e, cache)
  | Panic => (Panic, cache)
  | Ok (region, project) =>
      let '(token, cache') := access_token cache cred n in
      (obind token (fun token =>
         call (vertex_completions_url region project) token (google_prefixed (in_model i)) i n),
       cache')
  end.

Definition vertex_complete (total : N) (gcp : option str) := vertex_call gcp (fun url token model i n =>
  invoke total $"vertex" url token model i false n).
Definition vertex_stream (total : N) (gcp : option str) := vertex_call gcp (fun url token model i n =>
  invoke total $"vertex" url token model i true n).
Definition vertex_stream_events (gcp : option str) := vertex_call gcp (fun url token model i n =>
  invoke_stream $"vertex" url token model i n).

(** The adapter as a request finds it. *)
Definition vertex_adapter (total : N) (gcp : option str) (cache : Cache) : ProviderAdapter := {|
  ad_complete n t i := (vertex_complete total gcp cache n t i).1;
  ad_stream n t i := (vertex_stream total gcp cache n t i).1;
  ad_stream_events n t i := (vertex_stream_events gcp cache n t i).1 |}.

(** [ProviderCatalog::with_defaults] and [adapter_for] *)
Definition adapters_with_defaults (total : N) (gcp : option str) (cache : Cache)
    : gmap str ProviderAdapter :=
  list_to_map [
    ($"openai", compat_adapter total OpenAiCompat_openai);
    ($"google", compat_adapter total OpenAiCompat_google);
    ($"bedrock", compat_adapter total OpenAiCompat_bedrock);
    ($"vertex", vertex_adapter total gcp cache);
    ($"anthropic", echo_adapter $"anthropic");
    ($"ollama", echo_adapter $"ollama");
    ($"vllm", echo_adapter $"vllm")].

Definition catalog_adapter_for (total : N) (gcp : option str) (cache : Cache) (provider_type : str)
    : option ProviderAdapter := adapters_with_defaults total gcp cache !! provider_type.
End vertex.
