(* ===== verification/HttpProvidersSpec.v ===== *)
(** * What the HTTP adapters promise

    Reading an event stream does not depend on how its bytes arrive; what a
    call sends is determined by the target, the credential and the invocation;
    deadlines are never absent. *)

From S2P Require Import Prelude Rstr Json Types Providers UrlGuard HttpProviders.

(** ** Cutting a body into events *)

Fixpoint split_events (fuel : nat) (s : str) : list str * str :=
  match fuel with
  | 0 => ([], s)
  | S fuel' =>
      match find_subslice s BLANK_LINE with
      | None => ([], s)
      | Some pos =>
          let '(events, rest) := split_events fuel' (drop (pos + 2) s) in
          (take (pos + 2) s :: events, rest)
      end
  end.

(** The complete events of a text and what follows the last of them. *)
Definition events_of_text (s : str) : list str * str := split_events (length s) s.

Lemma starts_with_app_short s t pat :
  length pat <= length s -> starts_with (s ++ t) pat = starts_with s pat.
Proof.
  revert s. induction pat as [|p pat IH]; intros [|c s]; cbn [starts_with app length]; [done..|lia|].
  intros Hl. destruct (decide (p = c)); [|done]. apply IH. lia.
Qed.

Lemma find_length s pat i : find s pat = Some i -> i + length pat <= length s.
Proof.
  intros Hf. apply find_Some in Hf as (t & Hs & Hi). apply (f_equal length) in Hs.
  rewrite !length_app, length_take in Hs. lia.
Qed.

Lemma find_app_l s t pat i : find s pat = Some i -> find (s ++ t) pat = Some i.
Proof.
  revert i. induction s as [|c s IH]; intros i; cbn [find app].
  - destruct pat; [|done]. intros [= <-]. by destruct t.
  - intros Hf. change (c :: s ++ t) with ((c :: s) ++ t). pose proof (find_length (c :: s) pat i) as Hl.
    cbn [find] in Hl. rewrite starts_with_app_short by (specialize (Hl Hf); lia).
    destruct (starts_with (c :: s) pat); [done|]. apply fmap_Some in Hf as (j & Hj & ->).
    by rewrite (IH _ Hj).
Qed.

Lemma find_subslice_blank s i :
  find_subslice s BLANK_LINE = Some i -> find s BLANK_LINE = Some i /\ i + 2 <= length s.
Proof.
  unfold find_subslice. rewrite bool_decide_eq_false_2 by done. cbn [orb].
  destruct (length s <? length BLANK_LINE); [done|]. intros Hf. split; [done|].
  by apply find_length in Hf.
Qed.

Lemma find_subslice_app s t i :
  find_subslice s BLANK_LINE = Some i -> find_subslice (s ++ t) BLANK_LINE = Some i.
Proof.
  intros [Hf Hl]%find_subslice_blank. unfold find_subslice. rewrite bool_decide_eq_false_2 by done.
  cbn [orb]. rewrite length_app. change (length BLANK_LINE) with 2.
  destruct (Nat.ltb_spec (length s + length t) 2); [lia|]. by apply find_app_l.
Qed.

Lemma split_events_fuel f f' s :
  length s <= f -> length s <= f' -> split_events f s = split_events f' s.
Proof.
  revert f' s. induction f as [|f IH]; intros [|f'] s Hf Hf'; cbn [split_events]; [done|..].
  - by destruct s; simpl in *; [|lia].
  - by destruct s; simpl in *; [|lia].
  - destruct (find_subslice s BLANK_LINE) as [pos|] eqn:Hp; [|done].
    apply find_subslice_blank in Hp as [_ Hp]. rewrite (IH f'); [done|..]; rewrite length_drop; lia.
Qed.

Lemma events_of_text_unfold s :
  events_of_text s =
  match find_subslice s BLANK_LINE with
  | None => ([], s)
  | Some pos => let '(es, rest) := events_of_text (drop (pos + 2) s) in (take (pos + 2) s :: es, rest)
  end.
Proof.
  unfold events_of_text. destruct s as [|c s]; [done|]. cbn [split_events length].
  destruct (find_subslice (c :: s) BLANK_LINE) as [pos|] eqn:Hp; [|done].
  apply find_subslice_blank in Hp as [_ Hp]. cbn [length] in Hp.
  rewrite (split_events_fuel (length s) (length (drop (pos + 2) (c :: s)))); [done|..];
    rewrite ?length_drop; cbn [length]; lia.
Qed.

(** Bytes that arrive later leave the complete events alone. *)
Lemma events_of_text_app s t :
  events_of_text (s ++ t) =
  ((events_of_text s).1 ++ (events_of_text ((events_of_text s).2 ++ t)).1,
   (events_of_text ((events_of_text s).2 ++ t)).2).
Proof.
  induction s as [s IH] using (induction_ltof1 _ length); unfold ltof in IH.
  rewrite (events_of_text_unfold s). destruct (find_subslice s BLANK_LINE) as [pos|] eqn:Hp.
  - rewrite (events_of_text_unfold (s ++ t)), (find_subslice_app _ _ _ Hp).
    apply find_subslice_blank in Hp as [_ Hp]. rewrite drop_app_le, take_app_le by lia.
    rewrite IH by (rewrite length_drop; lia). by destruct (events_of_text (drop (pos + 2) s)).
  - cbn [fst snd app]. by destruct (events_of_text (s ++ t)).
Qed.

Section spec.
Context `{UrlEnv} `{HttpEnv}.

(** ** The reader against its reference *)

Definition event_lines (es : list str) : list str := es ≫= (fun e => lines (utf8_lossy e)).

Lemma event_lines_cons e es : event_lines (e :: es) = lines (utf8_lossy e) ++ event_lines es.
Proof. done. Qed.
Lemma event_lines_app l1 l2 : event_lines (l1 ++ l2) = event_lines l1 ++ event_lines l2.
Proof. apply bind_app. Qed.

(** What a body says: the frames of its complete events, in order, up to the
    end marker. *)
Definition sse_reference (provider_type : str) (n : nat) (body : str) (read_error : option str)
    : ProviderEventStream :=
  let '(st, tokens, done_) := sse_lines n (event_lines (events_of_text body).1) sse_start in
  sse_tokens tokens ++
    match done_, read_error with
    | false, Some e => [Err (failure (provider_type ++ $": stream read error: " ++ e) true)]
    | _, _ => sse_done st
    end.

Lemma sse_lines_app n l1 l2 st :
  sse_lines n (l1 ++ l2) st =
  let '(st1, t1, d1) := sse_lines n l1 st in
  if d1 then (st1, t1, true) else let '(st2, t2, d2) := sse_lines n l2 st1 in (st2, t1 ++ t2, d2).
Proof.
  revert st. induction l1 as [|line l1 IH]; intros st; cbn [sse_lines app].
  - by destruct (sse_lines n l2 st) as [[] ?].
  - destruct (sse_payload line) as [payload|]; [|apply IH]. destruct (decide _); [done|].
    destruct (_ ≫= _) as [chunk|]; [|apply IH]. destruct (sse_frame n chunk st) as [st1 tokens].
    rewrite IH. destruct (sse_lines n l1 st1) as [[st2 t2] d2]. destruct d2; [done|].
    destruct (sse_lines n l2 st2) as [[st3 t3] d3]. by rewrite app_assoc.
Qed.

Lemma sse_drain_spec fuel n buf st :
  length buf <= fuel ->
  exists buf', sse_drain fuel n buf st =
    (let '(st', tokens, d) := sse_lines n (event_lines (events_of_text buf).1) st in (buf', st', tokens, d))
    /\ ((sse_lines n (event_lines (events_of_text buf).1) st).2 = false -> buf' = (events_of_text buf).2).
Proof.
  revert buf st. induction fuel as [|fuel IH]; intros buf st Hl.
  - destruct buf; [|simpl in Hl; lia]. exists []. done.
  - cbn [sse_drain]. rewrite events_of_text_unfold.
    destruct (find_subslice buf BLANK_LINE) as [pos|] eqn:Hp; [|by exists buf].
    apply find_subslice_blank in Hp as [_ Hp].
    destruct (events_of_text (drop (pos + 2) buf)) as [es rest] eqn:Hes.
    cbn [fst snd]. rewrite event_lines_cons, sse_lines_app.
    destruct (sse_lines n (lines (utf8_lossy (take (pos + 2) buf))) st) as [[st1 t1] d1].
    destruct d1; [by eexists|].
    destruct (IH (drop (pos + 2) buf) st1) as (buf' & Hd & Hb); [rewrite length_drop; lia|].
    rewrite Hes in Hd, Hb. cbn [fst snd] in Hd, Hb. exists buf'. rewrite Hd.
    destruct (sse_lines n (event_lines es) st1) as [[st2 t2] d2]. split; [done|]. exact Hb.
Qed.

Lemma sse_tokens_app l1 l2 : sse_tokens (l1 ++ l2) = sse_tokens l1 ++ sse_tokens l2.
Proof. apply fmap_app. Qed.

Lemma sse_read_spec provider_type n pieces err buf st :
  (events_of_text buf).1 = [] ->
  sse_read provider_type n pieces err buf st =
  (let '(st', tokens, d) := sse_lines n (event_lines (events_of_text (buf ++ mjoin pieces)).1) st in
   sse_tokens tokens ++
     match d, err with
     | false, Some e => [Err (failure (provider_type ++ $": stream read error: " ++ e) true)]
     | _, _ => sse_done st'
     end).
Proof.
  revert buf st. induction pieces as [|piece pieces IH]; intros buf st Hbuf.
  - change (mjoin []) with ([] : str). rewrite app_nil_r, Hbuf. by destruct err.
  - cbn [sse_read]. change (mjoin (piece :: pieces)) with (piece ++ mjoin pieces). rewrite app_assoc.
    destruct (sse_drain_spec (length (buf ++ piece)) n (buf ++ piece) st) as (buf' & Hd & Hb); [done|].
    rewrite Hd. rewrite (events_of_text_app (buf ++ piece)). cbn [fst].
    rewrite event_lines_app, sse_lines_app.
    destruct (sse_lines n (event_lines (events_of_text (buf ++ piece)).1) st) as [[st1 t1] d1].
    destruct d1; [by destruct err|]. specialize (Hb eq_refl) as ->.
    assert (Hrest : (events_of_text (events_of_text (buf ++ piece)).2).1 = []).
    { pose proof (events_of_text_app (buf ++ piece) []) as Ha. rewrite !app_nil_r in Ha.
      destruct (events_of_text (buf ++ piece)) as [es rest]. cbn [fst snd] in *.
      injection Ha as Ha _. apply (f_equal length) in Ha. rewrite length_app in Ha.
      apply nil_length_inv. lia. }
    rewrite IH by done.
    destruct (sse_lines n _ st1) as [[st2 t2] d2]. by rewrite sse_tokens_app, app_assoc.
Qed.
End spec.

(** ** The stream as the pipeline sees it *)

Section stream.
Context `{UrlEnv} `{HttpEnv}.

Lemma sse_frame_nonempty n chunk st : Forall (fun t => t <> []) (sse_frame n chunk st).2.
Proof.
  unfold sse_frame. cbn [snd]. destruct (_ ≫= _) as [[|c s]|]; repeat constructor. done.
Qed.

Lemma sse_lines_nonempty n ls st : Forall (fun t => t <> []) (sse_lines n ls st).1.2.
Proof.
  revert st. induction ls as [|line ls IH]; intros st; cbn [sse_lines]; [constructor|].
  destruct (sse_payload line); [|apply IH]. destruct (decide _); [constructor|].
  destruct (_ ≫= _) as [chunk|]; [|apply IH]. pose proof (sse_frame_nonempty n chunk st) as Hf.
  destruct (sse_frame n chunk st) as [st1 t1]. specialize (IH st1).
  destruct (sse_lines n ls st1) as [[st2 t2] d2]. by apply Forall_app.
Qed.

(** The lines of a shorter body are the first lines of a longer one. *)
Lemma events_of_text_take k s : exists more, (events_of_text s).1 = (events_of_text (take k s)).1 ++ more.
Proof.
  pose proof (events_of_text_app (take k s) (drop k s)) as Ha. rewrite take_drop in Ha. rewrite Ha. by eexists.
Qed.

Lemma sse_lines_prefix n l1 l2 st : (sse_lines n l1 st).1.2 `prefix_of` (sse_lines n (l1 ++ l2) st).1.2.
Proof.
  rewrite sse_lines_app. destruct (sse_lines n l1 st) as [[st1 t1] d1]. destruct d1; [done|].
  destruct (sse_lines n l2 st1) as [[st2 t2] d2]. by eexists.
Qed.

(** C23: What a provider's reply says does not depend on the network: for every
    way of cutting the body into pieces, in the middle of an event, a line or
    a character, the events the pipeline receives are those of the reference
    reading of the whole body; they are non-empty tokens followed by exactly
    one end, a [Done] or a retryable failure. *)
Theorem stream_is_reference provider_type url token model i n response :
  send n (chat_http_request url token model i (Some true) None) = inl response ->
  is_success (rs_status response) = true ->
  let events := sse_reference provider_type n (mjoin (rs_pieces response)) (rs_read_error response) in
  invoke_stream provider_type url token model i n = Ok events /\
  exists tokens last, events = sse_tokens tokens ++ [last] /\ Forall (fun t => t <> []) tokens /\
    ((exists u f m d, last = Ok (EvDone u f m d)) \/ (exists f, last = Err f /\ pf_retryable f = true)).
Proof.
  intros Hs Hok events. split.
  - unfold invoke_stream, stream_answer. rewrite Hs, Hok. cbn [negb]. f_equal. by rewrite sse_read_spec.
  - subst events. unfold sse_reference.
    pose proof (sse_lines_nonempty n (event_lines (events_of_text (mjoin (rs_pieces response))).1) sse_start) as Hn.
    destruct (sse_lines n _ sse_start) as [[st tokens] d]. cbn [fst snd] in Hn.
    destruct d; [|destruct (rs_read_error response) as [e|]];
      eexists tokens, _; (split; [reflexivity|]); (split; [exact Hn|]); [left| right | left]; eauto 10.
Qed.

(** A reply cut short at an event boundary, or anywhere, is not told from a
    complete one: its tokens are the first tokens of the whole reply and it
    ends in [Done], not in a failure. *)
Lemma truncated_reply_looks_complete provider_type n body k :
  exists tokens st whole last,
    sse_reference provider_type n (take k body) None = sse_tokens tokens ++ sse_done st
    /\ sse_reference provider_type n body None = sse_tokens whole ++ last
    /\ tokens `prefix_of` whole.
Proof.
  unfold sse_reference. destruct (events_of_text_take k body) as [more ->].
  rewrite event_lines_app.
  pose proof (sse_lines_prefix n (event_lines (events_of_text (take k body)).1) (event_lines more) sse_start) as Hp.
  destruct (sse_lines n (event_lines (events_of_text (take k body)).1) sse_start) as [[st t] d].
  destruct (sse_lines n (_ ++ _) sse_start) as [[st' t'] d'].
  exists t, st, t', (sse_done st'). split_and!; [by destruct d|by destruct d'|exact Hp].
Qed.

(** A body that never holds two adjacent line feeds, as one whose lines end in
    CRLF, yields an empty reply. *)
Lemma crlf_reply_is_empty provider_type n body :
  find_subslice body BLANK_LINE = None ->
  sse_reference provider_type n body None = sse_done sse_start.
Proof. intros Hb. unfold sse_reference. by rewrite events_of_text_unfold, Hb. Qed.

(** ** Deadlines *)

Lemma positive_millis_pos raw m : positive_millis raw = Some m -> (0 < m)%N.
Proof.
  unfold positive_millis. destruct raw as [raw|]; [|done]. cbn [mbind option_bind].
  destruct (parse_u64 (trim raw)) as [k|]; [|done]. cbn [mbind option_bind].
  destruct (N.ltb_spec 0 k); [|done]. by intros [= <-].
Qed.

(** No configuration removes a deadline. *)
Lemma deadlines_positive connect read_idle total :
  let d := UpstreamDeadline_parse connect read_idle total in
  (0 < dl_connect d /\ 0 < dl_read_idle d /\ 0 < dl_total d)%N.
Proof.
  assert (Hd : forall raw k, (0 < k)%N -> (0 < default k (positive_millis raw))%N).
  { intros raw k Hk. destruct (positive_millis raw) as [m|] eqn:Hm; [|done]. by apply positive_millis_pos in Hm. }
  cbn. split_and!; apply Hd; done.
Qed.
End stream.

(** ** Vertex tokens *)

Section vertex_tokens.
Context `{UrlEnv} `{HttpEnv} `{GcpAuth}.

(** An account made from this credential. *)
Definition account_for (credential : option str) (a : Account) : Prop :=
  match credential with
  | Some json => account_from_json json = inl a
  | None => exists n, default_account n = inl a
  end.

Definition cache_ok (cache : gmap str Account) : Prop :=
  forall key a, cache !! key = Some a ->
    exists credential, credential_fingerprint credential = key /\ account_for credential a.

Lemma token_provider_ok cache credential n :
  cache_ok cache ->
  cache_ok (token_provider cache credential n).2 /\
  forall a, (token_provider cache credential n).1 = Ok a ->
    exists c, credential_fingerprint c = credential_fingerprint credential /\ account_for c a.
Proof.
  intros Hc. unfold token_provider.
  destruct (cache !! credential_fingerprint credential) as [p|] eqn:Hp.
  { split; [done|]. intros a [= <-]. by apply Hc. }
  assert (Hnew : forall p, account_for credential p ->
    cache_ok (<[credential_fingerprint credential := p]> cache)).
  { intros p Ha key a. destruct (decide (credential_fingerprint credential = key)) as [<-|Hne].
    - rewrite lookup_insert_eq. intros [= <-]. by exists credential.
    - rewrite lookup_insert_ne by done. apply Hc. }
  destruct credential as [json|].
  - destruct (account_from_json json) as [p|e] eqn:Hj; [|by split].
    split; [by apply Hnew|]. intros a [= <-]. by exists (Some json).
  - destruct (default_account n) as [p|e] eqn:Hj; [|by split].
    split; [apply Hnew; by exists n|]. intros a [= <-]. exists None. split; [done|by exists n].
Qed.

(** Calls of the adapter, one after another: the target, the invocation and
    which of its methods. *)
Fixpoint vertex_history (gcp : option str) (calls : list (nat * ModelTarget * ProviderInvocation))
    (cache : gmap str Account) : gmap str Account :=
  match calls with
  | [] => cache
  | (n, t, i) :: calls' =>
      vertex_history gcp calls' (vertex_call gcp (fun _ _ _ _ _ => Ok tt) cache n t i).2
  end.

Lemma vertex_call_ok {A} gcp call cache n t i :
  cache_ok cache -> cache_ok (vertex_call (A := A) gcp call cache n t i).2.
Proof.
  intros Hc. unfold vertex_call. destruct (resolve_target _ _ _) as [[region project]|e|]; [|done..].
  unfold access_token. destruct (token_provider_ok cache (in_decrypted_credential i) n Hc) as [Hk _].
  by destruct (token_provider cache (in_decrypted_credential i) n).
Qed.

Lemma vertex_history_ok gcp calls cache : cache_ok cache -> cache_ok (vertex_history gcp calls cache).
Proof.
  revert cache. induction calls as [|[[n t] i] calls IH]; intros cache Hc; cbn [vertex_history]; [done|].
  by apply IH, vertex_call_ok.
Qed.

(** A Vertex call is authorised by its own credential: after any history of
    calls for any workspaces, the token a call goes out with was minted, for
    the cloud-platform scope, from an account made from that call's
    credential (or from the deployment's default when it has none), unless two
    credentials have one SHA-256. *)
Theorem vertex_token_own_credential gcp calls n t i url token model :
  (forall a b, sha256_hex a = sha256_hex b -> a = b) ->
  (vertex_call gcp (fun url token model _ _ => Ok (url, token, model))
     (vertex_history gcp calls ∅) n t i).1 = Ok (url, token, model) ->
  exists a, account_for (in_decrypted_credential i) a /\ mint n a CLOUD_PLATFORM_SCOPE = inl token.
Proof.
  intros Hinj. assert (Hc : cache_ok (vertex_history gcp calls ∅)).
  { apply vertex_history_ok. intros key a. by rewrite lookup_empty. }
  unfold vertex_call. destruct (resolve_target _ _ _) as [[region project]|e|]; [|done..].
  unfold access_token. destruct (token_provider_ok _ (in_decrypted_credential i) n Hc) as [_ Hp].
  destruct (token_provider _ _ n) as [[a|e|] cache']; cbn [fst obind]; [|done..].
  destruct (Hp a eq_refl) as (c & Hk & Ha). destruct (mint n a CLOUD_PLATFORM_SCOPE) as [tok|e] eqn:Hm; [|done].
  cbn [obind]. intros [= _ <- _]. exists a. split; [|done].
  destruct c as [x|], (in_decrypted_credential i) as [y|]; cbn in Hk.
  - injection Hk as Hk%Hinj. by subst.
  - discriminate Hk.
  - discriminate Hk.
  - done.
Qed.

(** The region is pasted into the host: one that holds a slash moves the call,
    its token and its prompt, to another host. *)
Lemma region_names_the_host host project :
  exists rest, vertex_completions_url (host ++ $"/") project = $"https://" ++ host ++ $"/" ++ rest.
Proof.
  unfold vertex_completions_url, vertex_host. rewrite decide_False.
  - eexists. by rewrite <- !app_assoc.
  - change ($"/") with ["/"%char]. intros Hg. apply (f_equal last) in Hg. by rewrite last_snoc in Hg.
Qed.
End vertex_tokens.
