(* ===== verification/WireSpec.v ===== *)
(** * What leaves the gateway

    The HTTP request a contacted provider receives, from the client's request
    through the pipeline to the adapter. *)

From S2P Require Import Prelude Rstr Json Types Placeholders Redaction RedactionSpec Streaming.
From S2P Require Import Sidecar SidecarSpec Analytics AnalyticsSpec Providers ProvidersSpec Policy PolicySpec.
From S2P Require Import SecureMode Pipeline PipelineSpec GatewaySpec ReplySpec OpenAi.
From S2P Require Import UrlGuard HttpProviders.
From S2P Require Import HttpProvidersSpec.

(** ** Members of the body *)

Definition members (rq : HttpRequest) : list (str * Value) :=
  match hq_json rq with Some (Object m) => m | _ => [] end.

Lemma elem_obj_remove {A} (m : list (str * A)) k kv : kv ∈ obj_remove m k <-> kv ∈ m /\ kv.1 <> k.
Proof.
  induction m as [|[k' v'] m IH]; cbn [obj_remove]; [set_solver|].
  destruct (decide (k = k')) as [<-|Hne]; rewrite ?elem_of_cons, IH.
  - split; [tauto|]. intros [[->|?] ?]; done.
  - split; [intros [->|]; naive_solver|]. tauto.
Qed.

Lemma elem_obj_insert {A} (m : list (str * A)) k v kv :
  kv.1 <> k -> kv ∈ obj_insert m k v <-> kv ∈ m.
Proof.
  intros Hk. induction m as [|[k' v'] m IH]; cbn [obj_insert]; [set_solver|].
  destruct (decide (k = k')) as [<-|Hne]; rewrite !elem_of_cons; [|by rewrite IH].
  split; intros [->|]; auto; done.
Qed.

Lemma obj_get_elem {A} (m : list (str * A)) k v : obj_get m k = Some v -> (k, v) ∈ m.
Proof.
  induction m as [|[k' v'] m IH]; cbn [obj_get]; [done|]. destruct (decide (k = k')) as [<-|].
  - intros [= <-]. by left.
  - intros Hg. right. auto.
Qed.

Lemma elem_obj_get {A} (m : list (str * A)) k v : (k, v) ∈ m -> exists v', obj_get m k = Some v'.
Proof.
  induction m as [|[k' v'] m IH]; [by intros ?%elem_of_nil|].
  cbn [obj_get]. destruct (decide (k = k')) as [<-|Hne]; [by eexists|].
  intros [[= -> ->]|Hin]%elem_of_cons; [done|auto].
Qed.

Lemma obj_get_app {A} (m1 m2 : list (str * A)) k :
  obj_get (m1 ++ m2) k = match obj_get m1 k with Some v => Some v | None => obj_get m2 k end.
Proof. induction m1 as [|[k' v'] m1 IH]; cbn [obj_get app]; [done|]. by destruct (decide (k = k')). Qed.

(** Neither the pipeline nor the routes touch a parameter other than the two
    they strip and [stream_options]. *)
Lemma sanitize_member v kv :
  kv.1 <> $"omit_usage" -> kv.1 <> $"force_provider_failure" ->
  kv ∈ extra_map (sanitize_extra_params v) <-> kv ∈ extra_map v.
Proof. intros H1 H2. destruct v; try done. cbn. rewrite !elem_obj_remove. tauto. Qed.

Lemma stream_params_member s o extra kv :
  kv.1 <> $"stream_options" -> kv ∈ extra_map (stream_params s o extra) <-> kv ∈ extra.
Proof.
  intros Hk. unfold stream_params. set (params := match o with Some _ => _ | None => extra end).
  assert (Hp : kv ∈ params <-> kv ∈ extra) by (subst params; destruct o; [by apply elem_obj_insert|done]).
  destruct s; [|done]. rewrite <- Hp. unfold force_include_usage.
  cbn [get]. repeat (case_match; try done); cbn [extra_map]; by rewrite ?elem_obj_insert.
Qed.

(** ** The request a call sends *)

Section wire.
Context `{UrlEnv} `{HttpEnv}.

(** The adapter's call with the sending left out. *)
Definition wire_of (a : OpenAiCompatAdapter) (stream : option bool) (timeout : option N) (n : nat)
    (t : ModelTarget) (i : ProviderInvocation) : outcome ProviderFailure HttpRequest :=
  compat_call a (fun url token model i _ => Ok (chat_http_request url token model i stream timeout)) n t i.

(** Every method answers from what the client answered to that request. *)
Lemma complete_sends total a n t i :
  ad_complete (compat_adapter total a) n t i =
  obind (wire_of a None (Some total) n t i) (fun rq => chat_answer (oa_provider_type a) i false n (send n rq)).
Proof.
  cbn. unfold wire_of, compat_call. destruct (bearer a i); cbn [obind]; [|done..].
  by destruct (resolve_base_url a t).
Qed.
Lemma stream_sends total a n t i :
  ad_stream (compat_adapter total a) n t i =
  obind (wire_of a (Some false) (Some total) n t i)
    (fun rq => chat_answer (oa_provider_type a) i true n (send n rq)).
Proof.
  cbn. unfold wire_of, compat_call. destruct (bearer a i); cbn [obind]; [|done..].
  by destruct (resolve_base_url a t).
Qed.
Lemma stream_events_sends total a n t i :
  ad_stream_events (compat_adapter total a) n t i =
  obind (wire_of a (Some true) None n t i) (fun rq => stream_answer (oa_provider_type a) n (send n rq)).
Proof.
  cbn. unfold wire_of, compat_call. destruct (bearer a i); cbn [obind]; [|done..].
  by destruct (resolve_base_url a t).
Qed.

Lemma wire_of_Ok a stream timeout n t i rq :
  wire_of a stream timeout n t i = Ok rq ->
  exists token base, in_decrypted_credential i = Some token /\ resolve_base_url a t = Ok base
    /\ rq = chat_http_request (completions_url base) token (in_model i) i stream timeout.
Proof.
  unfold wire_of, compat_call, bearer. destruct (in_decrypted_credential i) as [token|]; [|done].
  cbn [ok_or obind]. destruct (resolve_base_url a t) as [base| |]; [|done..]. cbn [obind].
  intros [= <-]. eauto.
Qed.

(** The address was checked: it is the row's, or the adapter's own when the row
    has none. *)
Lemma resolve_base_url_Ok a t base :
  resolve_base_url a t = Ok base ->
  exists raw u, base = trim_end_byte "/" raw /\ parse_and_check_url raw = Ok u /\
    (nonblank (get_str (mt_config t) $"base_url") = Some raw \/
     (nonblank (get_str (mt_config t) $"base_url") = None /\ raw = oa_default_base_url a)).
Proof.
  unfold resolve_base_url. destruct (nonblank _) as [raw|] eqn:Hn.
  - destruct (parse_and_check_url raw) as [u| |] eqn:Hu; [|done..]. intros [= <-]. eauto 10.
  - destruct (oa_default_base_url a) as [|c s] eqn:Ha; [done|].
    destruct (parse_and_check_url _) as [u| |] eqn:Hu; [|done..]. intros [= <-]. eauto 10.
Qed.

Lemma chat_members url token i stream timeout :
  members (chat_http_request url token (in_model i) i stream timeout) =
  [($"model", VString (in_model i)); ($"messages", Array (chat_message <$> in_messages i))]
  ++ match stream with Some b => [($"stream", Bool b)] | None => [] end ++ extra_map (in_extra_params i).
Proof. done. Qed.

Section gateway.
Context `{CaseMap} `{HashOrder}.
Context (regex_new : str -> option (str -> bool)) (detect_content : floor_detector)
  (merge_detections : merger) (E : Env).
Context (render_debug : ModelTarget -> GatewayRequest -> str -> gmap str str -> str).
Context (auth : AuthContext) (resolved : ResolvedModel) (request : GatewayRequest).

Abbreviation effects_of g es :=
  (path_effects regex_new detect_content merge_detections E render_debug auth resolved request g es).
Abbreviation redacted_prompt g :=
  (woven (prompt_of E request) (prompt_detections detect_content merge_detections E g request)).

(** C18: The HTTP request of a redacting deployment.  When redaction is the
    deployment's default, no matching policy rule decided something other than
    redaction, and the client named no [messages] parameter of its own, every
    provider the pipeline contacts through an OpenAI-compatible adapter
    receives a POST, at a structurally checked address and with the target's
    credential, of a body whose every [messages] member is one user message: the
    prompt with its detections woven out.  All that is not the model, the
    messages or the stream flag is the client's own parameters, as sent. *)
Theorem chat_wire_redacted g es t i a stream timeout n rq :
  redact_when_no_rules E = true ->
  (forall rows, e_rules E = Ok rows ->
     redaction_not_waived regex_new (policy_input detect_content merge_detections E auth resolved request g)
       (List.filter enabled rows)) ->
  (forall v, ($"messages", v) ∉ extra_map (gr_extra_params request)) ->
  effects_of g es -> ProviderCall t i ∈ es -> wire_of a stream timeout n t i = Ok rq ->
  (exists base u token, hq_method rq = $"POST" /\ hq_url rq = base ++ $"/chat/completions" /\
     (exists raw, base = trim_end_byte "/" raw /\ parse_and_check_url raw = Ok u) /\
     in_decrypted_credential i = Some token /\ hq_headers rq = [($"authorization", $"Bearer " ++ token)]) /\
  (forall v, ($"messages", v) ∈ members rq <->
     v = Array [chat_message {| role := $"user"; content := redacted_prompt g |}]) /\
  (forall kv, kv ∈ members rq -> kv.1 ∉ [$"model"; $"messages"; $"stream"] ->
     kv ∈ extra_map (gr_extra_params request)).
Proof.
  intros Hfc Hw Hno Hes Hin Hrq.
  destruct (contact_woven _ _ _ _ _ _ _ _ _ _ _ _ Hfc Hw Hes Hin) as (Hp & Hm & Hx).
  apply wire_of_Ok in Hrq as (token & base & Htok & Hbase & ->).
  apply resolve_base_url_Ok in Hbase as (raw & u & -> & Hu & _).
  split; [|split].
  - exists (trim_end_byte "/" raw), u, token. split_and!; eauto.
  - intros v. rewrite chat_members, Hm, Hx, Hp, !elem_of_app, sanitize_member by done.
    cbn [fmap list_fmap]. split; [|intros ->; left; right; by left].
    intros [Hv|[Hv|Hv]].
    + apply elem_of_cons in Hv as [Hv|Hv]; [by apply (f_equal fst) in Hv|].
      apply list_elem_of_singleton in Hv. by injection Hv as ->.
    + destruct stream; [by apply list_elem_of_singleton in Hv|by apply elem_of_nil in Hv].
    + by apply Hno in Hv.
  - intros [k v] Hkv Hk. cbn [fst] in Hk. rewrite chat_members, Hx, !elem_of_app in Hkv.
    destruct Hkv as [Hv|[Hv|Hv]].
    + exfalso. apply Hk. set_solver.
    + exfalso. apply Hk. destruct stream; set_solver.
    + destruct (gr_extra_params request); try done. cbn in Hv. by rewrite !elem_obj_remove in Hv; destruct Hv as [[Hv _] _].
Qed.

(** A completion request carries unscanned messages past the gateway.  The
    completions route scans and redacts [prompt]; a [messages] member of the
    same body is an extra parameter, and reaches every contacted provider
    after the redacted one, under the same name: a reader that keeps the last
    of repeated members, as most do, is given the client's own text, whatever
    it holds and whatever policy, secure mode or sidecar decided. *)
Theorem completion_smuggles_messages (c : CompletionRequest) g es t i a stream timeout n rq v :
  gr_extra_params request = stream_params (OpenAi.cr_stream c) (cr_stream_options c) (cr_extra c) ->
  ($"messages", v) ∈ cr_extra c ->
  effects_of g es -> ProviderCall t i ∈ es -> wire_of a stream timeout n t i = Ok rq ->
  exists body v', hq_json rq = Some body /\ last_member body $"messages" = Some v' /\
    ($"messages", v') ∈ cr_extra c.
Proof.
  intros Hgr Hv Hes Hin Hrq.
  destruct (contact_shows_decision _ _ _ _ _ _ _ _ _ _ _ _ Hes Hin) as (p & _ & _ & _ & _ & _ & Hx).
  apply wire_of_Ok in Hrq as (token & base & _ & _ & ->).
  exists (chat_request_body (in_model i) i stream). cbn [hq_json chat_http_request].
  unfold chat_request_body, last_member. rewrite !reverse_app, !obj_get_app, Hx, Hgr.
  assert (Hm : forall w, ($"messages", w) ∈ extra_map (sanitize_extra_params
    (stream_params (OpenAi.cr_stream c) (cr_stream_options c) (cr_extra c))) <-> ($"messages", w) ∈ cr_extra c).
  { intros w. by rewrite sanitize_member, stream_params_member. }
  destruct (elem_obj_get (reverse (extra_map (sanitize_extra_params (stream_params (OpenAi.cr_stream c)
    (cr_stream_options c) (cr_extra c))))) $"messages" v) as [v' Hv']; [by rewrite elem_of_reverse, Hm|].
  exists v'. rewrite Hv'. split_and!; [done|done|]. apply Hm, elem_of_reverse, (obj_get_elem _ _ _ Hv').
Qed.
End gateway.
End wire.

(** ** Concrete calls to providers

    An upstream that streams a reply in pieces cut anywhere, a completion
    request that carries its own [messages], and two service accounts. *)

(** ** An upstream *)

Definition frame_tree (content : option str) (finish : option str) : Value :=
  Object [($"model", VString $"gpt-4o");
    ($"choices", Array [Object [
      ($"delta", Object (match content with Some c => [($"content", VString c)] | None => [] end));
      ($"finish_reason", match finish with Some f => VString f | None => Null end)]])].

(** A reader that knows three texts. *)
Definition demo_parse (text : str) : option Value :=
  if decide (text = $"{1}") then Some (frame_tree (Some $"Hel") None)
  else if decide (text = $"{2}") then Some (frame_tree (Some $"lo") (Some $"stop"))
  else if decide (text = $"{account}") then Some (Object [($"project_id", VString $"p-1")])
  else None.

Definition demo_http (response : HttpResponse) : HttpEnv := {|
  send _ _ := inl response;
  status_display n := show_N n;
  response_text r := Some (mjoin (rs_pieces r));
  json_parse := demo_parse;
  json_error _ := $"expected value";
  elapsed_ms _ := 42%N |}.

Definition demo_invocation : ProviderInvocation := {|
  in_request_id := 1%N; in_model := $"gpt-4o"; in_prompt := $"Hi"; in_messages := [{| role := $"user"; content := $"Hi" |}];
  in_extra_params := Object [($"temperature", Number (PosInt 1))]; in_stream := true; in_kind := KChat;
  in_decrypted_credential := Some $"sk-1" |}.

(** The reply, with a comment line and the end marker, cut inside a frame, a
    delimiter and the marker. *)
Definition cut_reply : HttpResponse := {|
  rs_status := 200%N;
  rs_pieces := [$"data: {1"; $"}" ++ newline; newline ++ $": keep-alive" ++ newline ++ $"data:{2}" ++ newline;
                newline ++ $"data: [DO"; $"NE]" ++ newline ++ newline ++ $"data: {1}" ++ BLANK_LINE];
  rs_read_error := None |}.

Lemma stream_is_reference_witness :
  @invoke_stream (demo_http cut_reply) $"openai" $"https://api" $"sk-1" $"gpt-4o" demo_invocation 0
  = Ok [Ok (Token $"Hel"); Ok (Token $"lo"); Ok (EvDone None (Some $"stop") (Some $"gpt-4o") (Some 42%N))].
Proof.
  destruct (@stream_is_reference (demo_http cut_reply) $"openai" $"https://api" $"sk-1" $"gpt-4o"
    demo_invocation 0 cut_reply eq_refl eq_refl) as [Hs _].
  rewrite Hs. vm_compute. reflexivity.
Defined.

(** The same reply with CRLF line ends arrives empty. *)
Definition crlf : str := ["013"%char; "010"%char].
Example crlf_reply :
  @invoke_stream (demo_http {| rs_status := 200%N; rs_pieces := [$"data: {1}" ++ crlf ++ crlf ++ $"data: [DONE]" ++ crlf ++ crlf];
                               rs_read_error := None |})
    $"openai" $"https://api" $"sk-1" $"gpt-4o" demo_invocation 0
  = Ok [Ok (EvDone None None None None)].
Proof. vm_compute. reflexivity. Qed.

(** ** A redacting deployment *)

Definition keyed_target : ModelTarget := {|
  model_id := 5; mt_workspace_id := 1; mt_provider_id := 2; mt_provider_name := $"primary";
  mt_provider_type := $"openai"; mt_model_name := $"gpt"; mt_encrypted_credential := Some $"sk-1";
  mt_config := Null |}.

Definition keyed_resolved : ResolvedModel := {| public_model := $"gpt"; targets := [keyed_target] |}.

Definition keyed_request (extra : Value) : GatewayRequest := {|
  gr_public_model := $"gpt"; gr_messages := [{| role := $"user"; content := demo_prompt |}];
  gr_stream := false; gr_request_kind := Completion; gr_extra_params := extra;
  gr_client_ip := None; gr_user_agent := None; gr_request_id := None |}.

Definition keyed_effects (extra : Value) : list Effect :=
  new_effects (@execute ascii_case_map map_order literal_regex demo_floor demo_merge quiet_env no_debug
    demo_auth keyed_resolved (keyed_request extra)) idle.

Definition plain_params : Value := Object [($"temperature", Number (PosInt 0))].

Definition keyed_wire (i : ProviderInvocation) : outcome ProviderFailure HttpRequest :=
  @wire_of demo_url_env OpenAiCompat_openai None (Some 120000%N) 0 keyed_target i.

Lemma keyed_call extra i :
  first_call (keyed_effects extra) = Some (keyed_target, i) -> ProviderCall keyed_target i ∈ keyed_effects extra.
Proof. apply first_call_in. Qed.

Lemma chat_wire_redacted_witness :
  exists rq, (first_call (keyed_effects plain_params) ≫= fun ti =>
      match keyed_wire ti.2 with Ok rq => Some rq | _ => None end) = Some rq /\
    hq_url rq = $"https://api.openai.com/v1/chat/completions" /\
    ($"messages", Array [chat_message {| role := $"user"; content := $"Please call {{Person_1}}" |}]) ∈ members rq.
Proof.
  destruct (first_call (keyed_effects plain_params)) as [[t i]|] eqn:Hc; [|vm_compute in Hc; discriminate].
  assert (t = keyed_target) as -> by (vm_compute in Hc; by injection Hc).
  cbn [mbind option_bind snd]. destruct (keyed_wire i) as [rq|e|] eqn:Hrq;
    [|vm_compute in Hc; injection Hc as <-; vm_compute in Hrq; discriminate..].
  exists rq. split; [done|].
  destruct (@chat_wire_redacted demo_url_env ascii_case_map map_order literal_regex demo_floor demo_merge
    quiet_env no_debug demo_auth keyed_resolved (keyed_request plain_params) idle (keyed_effects plain_params)
    keyed_target i OpenAiCompat_openai None (Some 120000%N) 0 rq) as (_ & Hm & _).
  - reflexivity.
  - intros rows [= <-]. left. constructor.
  - intros v Hv. cbn in Hv. apply list_elem_of_singleton in Hv. by apply (f_equal fst) in Hv.
  - left. reflexivity.
  - exact (keyed_call _ _ Hc).
  - exact Hrq.
  - split.
    + vm_compute in Hc. injection Hc as <-. vm_compute in Hrq. injection Hrq as <-. vm_compute. reflexivity.
    + apply Hm. vm_compute. reflexivity.
Defined.

(** ** A smuggled conversation *)

Definition SECRET : Value :=
  Array [Object [($"role", VString $"user"); ($"content", VString $"Anna's password is hunter2")]].

Definition smuggling : CompletionRequest := {|
  OpenAi.cr_model := $"gpt"; cr_prompt := VString demo_prompt; OpenAi.cr_stream := false;
  cr_stream_options := None; cr_extra := [($"messages", SECRET)] |}.

Definition smuggled_params : Value := stream_params false None (cr_extra smuggling).

Lemma completion_smuggles_messages_witness :
  exists body, (first_call (keyed_effects smuggled_params) ≫= fun ti =>
      match keyed_wire ti.2 with Ok rq => hq_json rq | _ => None end) = Some body /\
    last_member body $"messages" = Some SECRET.
Proof.
  destruct (first_call (keyed_effects smuggled_params)) as [[t i]|] eqn:Hc; [|vm_compute in Hc; discriminate].
  assert (t = keyed_target) as -> by (vm_compute in Hc; by injection Hc).
  cbn [mbind option_bind snd]. destruct (keyed_wire i) as [rq|e|] eqn:Hrq;
    [|vm_compute in Hc; injection Hc as <-; vm_compute in Hrq; discriminate..].
  destruct (@completion_smuggles_messages demo_url_env ascii_case_map map_order literal_regex demo_floor
    demo_merge quiet_env no_debug demo_auth keyed_resolved (keyed_request smuggled_params) smuggling idle
    (keyed_effects smuggled_params) keyed_target i OpenAiCompat_openai None (Some 120000%N) 0 rq SECRET)
    as (body & v' & Hb & Hl & Hin).
  - reflexivity.
  - by left.
  - left. reflexivity.
  - exact (keyed_call _ _ Hc).
  - exact Hrq.
  - exists body. rewrite Hl. split; [exact Hb|]. cbn in Hin. apply list_elem_of_singleton in Hin.
    by injection Hin as ->.
Defined.

(** ** Two service accounts *)

Definition demo_gcp : GcpAuth := {|
  Account := str;
  account_from_json json := inl json;
  default_account _ := inr $"no credentials";
  mint _ account _ := inl ($"ya29." ++ account);
  sha256_hex s := s |}.

Definition vertex_target : ModelTarget := {|
  model_id := 5; mt_workspace_id := 1; mt_provider_id := 2; mt_provider_name := $"v";
  mt_provider_type := $"vertex"; mt_model_name := $"gemini"; mt_encrypted_credential := None;
  mt_config := Object [($"project", VString $"p-1")] |}.

Definition as_account (json : str) : ProviderInvocation := with_credential demo_invocation (Some json).

Lemma vertex_token_own_credential_witness :
  exists a, @account_for demo_gcp (Some $"alice") a /\
    @mint demo_gcp 1 a CLOUD_PLATFORM_SCOPE = inl $"ya29.alice".
Proof.
  apply (@vertex_token_own_credential (demo_http cut_reply) demo_gcp None [(0, vertex_target, as_account $"bob")]
    1 vertex_target (as_account $"alice") (vertex_completions_url $"us-central1" $"p-1") $"ya29.alice" $"google/gpt-4o").
  - done.
  - vm_compute. reflexivity.
Defined.

(** A region that names a host sends the token there. *)
Example region_moves_the_host :
  vertex_completions_url $"evil.example/" $"p-1"
  = $"https://evil.example/-aiplatform.googleapis.com/v1/projects/p-1/locations/evil.example//endpoints/openapi/chat/completions".
Proof. vm_compute. reflexivity. Qed.

(** An embedding request is sent as a chat completion, and has no embedding. *)
Example embedding_is_a_chat :
  match @ad_complete (@compat_adapter demo_url_env (demo_http {| rs_status := 200%N; rs_pieces := [$"{1}"];
      rs_read_error := None |}) 120000 OpenAiCompat_openai) 0 keyed_target demo_invocation with
  | Ok out => out_embedding out = None
  | _ => False
  end.
Proof. vm_compute. reflexivity. Qed.
