(* ===== verification/CredentialTest.v ===== *)
(** * Probing an upstream

    providers/credential_test.rs: the "test connection" probe, the model
    listing of the sync, and what they accept.  Each function returns its
    answer and the calls it made, with the addresses the client was pinned to
    when it was built for a screened URL. *)

From S2P Require Import Prelude Rstr Json Types Providers UrlGuard HttpProviders.

Record TestResult : Type := {
  tr_success : bool;
  tr_model_count : option N;
  tr_error : option str;
}.

Definition TestResult_ok (model_count : N) : TestResult :=
  {| tr_success := true; tr_model_count := Some model_count; tr_error := None |}.
Definition TestResult_err (msg : str) : TestResult :=
  {| tr_success := false; tr_model_count := None; tr_error := Some msg |}.

(** A required field of a derived [Deserialize]. *)
Definition req_field {A} (dec : Value -> option A) (o : option Value) : option A := o ≫= dec.

Definition dec_model_entry (v : Value) : option str :=
  fs ← struct_fields [($"id", false)] v;
  match fs with [i] => req_field as_str i | _ => None end.

Definition dec_models_list (v : Value) : option (list str) :=
  fs ← struct_fields [($"data", false)] v;
  match fs with [d] => req_field (dec_vec dec_model_entry) d | _ => None end.

Definition is_region_char (ch : str) : bool :=
  match ch with
  | [c] => is_ascii_lowercase c || is_ascii_digit c || bool_decide (c = "-"%char)
  | _ => false
  end.

Definition validate_vertex_region (region : str) : bool :=
  bool_decide (region <> []) && (length region <=? 40) && forallb is_region_char (chars region).

Definition validate_vertex_project (project : str) : bool :=
  bool_decide (project <> []) && (length project <=? 40) && forallb is_region_char (chars project).

Definition normalize_model_id (id : str) : str := default id (strip_prefix id $"models/").

(** [Vec::dedup] *)
Fixpoint dedup (l : list str) : list str :=
  match l with
  | [] => []
  | x :: l' => match dedup l' with
               | y :: l'' => if decide (x = y) then y :: l'' else x :: y :: l''
               | [] => [x]
               end
  end.

Definition str_leb (a b : str) : bool := negb (str_ltb b a).

Record Outbound (V : Type) : Type := {
  ob_request : HttpRequest;
  ob_pinned : option V;
  ob_deadline_ms : N;
}.
Arguments ob_request {V}. Arguments ob_pinned {V}. Arguments ob_deadline_ms {V}.

(** What a probe's environment answers: the resolver, the process environment
    and whether an HTTP client can be built ([Some e] when it cannot). *)
Class ProbeEnv := {
  lookup_host : str -> N -> outcome str (list (IpAddr * N));
  allow_private_env : option str;
  client_error : option str;
}.

Section probe.
Context `{UrlEnv} `{HttpEnv} `{GcpAuth} `{ProbeEnv} `{CaseMap}.

Abbreviation Calls := (list (Outbound ValidatedUrl)).

Definition default_base_url (provider_type : str) : str :=
  let t := to_lowercase provider_type in
  if decide (t = $"openai") then $"https://api.openai.com/v1"
  else if decide (t = $"google") then $"https://generativelanguage.googleapis.com/v1beta/openai"
  else if decide (t = $"anthropic") then $"https://api.anthropic.com"
  else [].

Definition is_chat_capable (provider_type id : str) : bool :=
  let lower := to_lowercase id in
  if existsb (contains lower) [$"embedding"; $"text-embedding"; $"whisper"; $"tts-"; $"dall-e"; $"image-"]
     || starts_with lower $"image-"
     || existsb (contains lower) [$"moderation"; $"babbage"; $"davinci-"; $"ada-"]
  then false
  else if decide (provider_type = $"google") then
    negb (existsb (contains lower) [$"aqa"; $"imagen"; $"veo"; $"text-bison"; $"chat-bison"])
  else true.

Definition get_request (url : str) (headers : list (str * str)) (timeout : N) : HttpRequest := {|
  hq_method := $"GET"; hq_url := url; hq_headers := headers; hq_json := None;
  hq_timeout_ms := Some timeout |}.

(** The shared end of both listings. *)
Definition fetch_models (what : str) (url : str) (headers : list (str * str)) (pinned : option ValidatedUrl)
    (timeout : N) (n : nat) : (list str + str) * Calls :=
  let rq := get_request url headers timeout in
  (match send n rq with
   | inr e => inr ($"connection failed to " ++ url ++ $": " ++ e)
   | inl resp =>
       if negb (is_success (rs_status resp)) then
         inr ($"HTTP " ++ status_display (rs_status resp) ++ $" from " ++ url ++ $": "
              ++ default [] (first_chars 200 <$> response_text resp))
       else match response_json dec_models_list resp with
            | inl ids => inl ids
            | inr e => inr ($"invalid " ++ what ++ e)
            end
   end,
   [{| ob_request := rq; ob_pinned := pinned; ob_deadline_ms := timeout |}]).

Definition fetch_openai_compat_models (pinned : option ValidatedUrl) (timeout : N) (base_url api_key : str)
    (n : nat) : (list str + str) * Calls :=
  fetch_models $"/models response shape: " (base_url ++ $"/models")
    [($"authorization", $"Bearer " ++ api_key)] pinned timeout n.

Definition fetch_anthropic_models (pinned : option ValidatedUrl) (timeout : N) (base_url api_key : str)
    (n : nat) : (list str + str) * Calls :=
  fetch_models $"Anthropic /models response: " (trim_end_byte "/" base_url ++ $"/v1/models")
    [($"x-api-key", api_key); ($"anthropic-version", $"2023-06-01")] pinned timeout n.

Definition probe_result (r : (list str + str) * Calls) : TestResult * Calls :=
  (match r.1 with
   | inl models => TestResult_ok (u32_of (N.of_nat (length models)))
   | inr e => TestResult_err e
   end, r.2).

Definition mint_access_token (credential : option str) (n : nat) : str + str :=
  let provider :=
    match credential with
    | Some sa_json =>
        match account_from_json sa_json with
        | inl a => inl a
        | inr e => inr ($"invalid service-account JSON: " ++ e)
        end
    | None =>
        match default_account n with
        | inl a => inl a
        | inr e => inr ($"no Application Default Credentials: " ++ e)
        end
    end in
  match provider with
  | inr e => inr e
  | inl a => match mint n a CLOUD_PLATFORM_SCOPE with
             | inl token => inl token
             | inr e => inr ($"failed to mint access token: " ++ e)
             end
  end.

Definition publishers_url (region project : str) : str :=
  $"https://" ++ vertex_host region ++ $"/v1/projects/" ++ project ++ $"/locations/" ++ region
  ++ $"/publishers/google/models".

Definition probe_vertex (credential : str) (region project : option str) (n : nat) : TestResult * Calls :=
  let cred := match trim credential with [] => None | _ => Some credential end in
  match mint_access_token cred n with
  | inr e => (TestResult_err ($"vertex auth failed: " ++ e), [])
  | inl token =>
      let region := default $"us-central1" (nonempty region) in
      match (match nonempty project with Some p => Some p | None => sa_project_id cred end) with
      | None => (TestResult_err $"vertex: project required (set project or use an SA key)", [])
      | Some project =>
          if negb (validate_vertex_region region) then (TestResult_err $"vertex: invalid region format", [])
          else if negb (validate_vertex_project project) then (TestResult_err $"vertex: invalid project format", [])
          else match client_error with
          | Some e => (TestResult_err ($"http client: " ++ e), [])
          | None =>
              let rq := get_request (publishers_url region project)
                          [($"authorization", $"Bearer " ++ token)] 10000 in
              (match send n rq with
               | inl resp => if is_success (rs_status resp) then TestResult_ok 0
                             else TestResult_err ($"vertex HTTP " ++ status_display (rs_status resp))
               | inr e => TestResult_err ($"vertex request failed: " ++ e)
               end,
               [{| ob_request := rq; ob_pinned := None; ob_deadline_ms := 10000 |}])
          end
      end
  end.

(** [base_url.map(trim_end_matches).filter(non-empty).unwrap_or(default)] *)
Definition resolved_base (provider_type : str) (base_url : option str) : str :=
  match trim_end_byte "/" <$> base_url with
  | None | Some [] => default_base_url provider_type
  | Some b => b
  end.

Definition no_default (provider_type : str) : str :=
  $"no default base_url for provider_type=" ++ provider_type ++ $"; supply one explicitly".

Definition test_connection (provider_type api_key : str) (base_url region project : option str) (n : nat)
    : option TestResult * Calls :=
  let answer r := (Some r.1, r.2) in
  if eq_ignore_ascii_case provider_type $"vertex" then answer (probe_vertex api_key region project n)
  else if bool_decide (trim api_key = []) then (Some (TestResult_err $"api_key is empty"), [])
  else
    let base := resolved_base provider_type base_url in
    if bool_decide (base = []) then (Some (TestResult_err (no_default provider_type)), [])
    else match validate_outbound_url lookup_host base (policy_from_env allow_private_env) with
    | Panic => (None, [])
    | Err e => (Some (TestResult_err ($"base_url rejected: " ++ ssrf_error_text e)), [])
    | Ok validated =>
        match client_error with
        | Some e => (Some (TestResult_err ($"failed to build HTTP client: " ++ e)), [])
        | None =>
            if decide (to_lowercase provider_type = $"anthropic")
            then answer (probe_result (fetch_anthropic_models (Some validated) 10000 base api_key n))
            else answer (probe_result (fetch_openai_compat_models (Some validated) 10000 base api_key n))
        end
    end.

Definition list_upstream_models (provider_type api_key : str) (base_url : option str) (n : nat)
    : (list str + str) * Calls :=
  if bool_decide (trim api_key = []) then (inr $"api_key is empty", [])
  else match client_error with
  | Some e => (inr ($"failed to build HTTP client: " ++ e), [])
  | None =>
      let base := resolved_base provider_type base_url in
      if bool_decide (base = []) then (inr (no_default provider_type), [])
      else
        let '(raw_ids, calls) :=
          if decide (to_lowercase provider_type = $"anthropic")
          then fetch_anthropic_models None 15000 base api_key n
          else fetch_openai_compat_models None 15000 base api_key n in
        (match raw_ids with
         | inr e => inr e
         | inl ids =>
             inl (dedup (sort_by str_leb
               (List.filter (is_chat_capable (to_lowercase provider_type)) (normalize_model_id <$> ids))))
         end, calls)
  end.
End probe.
