(* ===== verification/AdminTx.v ===== *)
(** * Administrative handlers over one database

    What the dashboard's administrative handlers share: a world with the
    tables they read and write, one transaction per repository call, external
    calls numbered in order, and a trace of what leaves the process; and a
    small logic for such handlers.

    A repository call is one transaction: it answers with the failure the
    class [AdminEnv] gives for that call, or commits; an error inside rolls
    back. *)

From S2P Require Import Prelude Rstr Json Types Roles AdminAudit Sessions.

Class AdminEnv := {
  (** The failure of the [n]-th call, if it is a transaction that fails. *)
  tx_failure : nat -> option ApiError;
  fresh_id : nat -> Uuid;
  now_at : nat -> Z;
  (** [AdminActor::resolve]'s lookup. *)
  actor_email : Uuid -> Uuid -> result (option str);
}.

(** The KMS at the [n]-th call: [inr] is its error. *)
Class KmsEnv := {
  kms_seal : nat -> str -> str + str;
  kms_open : nat -> str -> str + str;
  utf8_error : str -> str;
}.

(** The tables, the number of external calls made and what they sent. *)
Record AdminWorld (S T : Type) : Type := {
  aw_state : S;
  aw_calls : nat;
  aw_sent : list T;
}.
Arguments aw_state {S T}. Arguments aw_calls {S T}. Arguments aw_sent {S T}.

Section world.
Context {S T : Type}.

Definition set_state (s : S) (w : AdminWorld S T) : AdminWorld S T :=
  {| aw_state := s; aw_calls := aw_calls w; aw_sent := aw_sent w |}.
Definition bump (w : AdminWorld S T) : AdminWorld S T :=
  {| aw_state := aw_state w; aw_calls := Datatypes.S (aw_calls w); aw_sent := aw_sent w |}.
Definition sent (calls : list T) (w : AdminWorld S T) : AdminWorld S T :=
  {| aw_state := aw_state w; aw_calls := aw_calls w; aw_sent := aw_sent w ++ calls |}.
End world.

Definition AdmM (S T A : Type) : Type := AdminWorld S T -> result A * AdminWorld S T.

#[export] Instance AdmM_ret S T : MRet (AdmM S T) := fun A a w => (Ok a, w).
#[export] Instance AdmM_bind S T : MBind (AdmM S T) := fun A B k x w =>
  match x w with
  | (Ok a, w') => k a w'
  | (Err e, w') => (Err e, w')
  | (Panic, w') => (Panic, w')
  end.

Definition adm_result {S T A} (r : result A) : AdmM S T A := fun w => (r, w).

(** [if let Err(e) = ...] and the like *)
Definition adm_attempt {S T A} (x : AdmM S T A) : AdmM S T (result A) :=
  fun w => let '(r, w') := x w in (Ok r, w').

(** A call outside the database that cannot fail as a transaction. *)
Definition numbered {S T A} (f : nat -> A) : AdmM S T A := fun w => (Ok (f (aw_calls w)), bump w).

(** A call whose messages are on the trace whatever it answers. *)
Definition outbound {S T A} (f : nat -> A * list T) : AdmM S T A := fun w =>
  let '(a, calls) := f (aw_calls w) in (Ok a, sent calls (bump w)).

Definition forget {S T A} (x : AdmM S T A) : AdmM S T unit := _ ← x; mret tt.

Section tx.
Context `{AdminEnv} {S T : Type}.

(** [begin_scoped ... commit] *)
Definition transaction {A} (body : nat -> S -> result A * S) : AdmM S T A := fun w =>
  let n := aw_calls w in
  match tx_failure n with
  | Some e => (Err e, bump w)
  | None =>
      match body n (aw_state w) with
      | (Ok a, s) => (Ok a, bump (set_state s w))
      | (r, _) => (r, bump w)
      end
  end.

(** A transaction that only reads. *)
Definition reading {A} (f : S -> A) : AdmM S T A := transaction (fun _ s => (Ok (f s), s)).

Definition actor_of (ctx : JwtAuthContext) : AdminActor :=
  AdminActor_resolve (actor_email (jc_workspace_id ctx) (jc_user_id ctx)) (jc_workspace_id ctx)
    (jc_user_id ctx) (role_as_db_str (jc_role ctx)).

Definition admin_only (ctx : JwtAuthContext) : AdmM S T unit :=
  adm_result (require_role (jc_role ctx) Admin).
End tx.

(** ** A logic for handlers *)

Section logic.
Context {S T : Type}.
Implicit Types (P E : AdminWorld S T -> Prop).

(** From a world where [P] holds a computation answers [a] in a world where
    [Q a] holds, or fails in one where [E] does. *)
Definition runs {A} P (x : AdmM S T A) (Q : A -> AdminWorld S T -> Prop) E : Prop :=
  forall w, P w -> match x w with (Ok a, w') => Q a w' | (_, w') => E w' end.

(** [x] keeps [P], whatever it answers. *)
Definition keeps {A} P (x : AdmM S T A) : Prop := runs P x (fun _ => P) P.

Lemma runs_bind {A B} (x : AdmM S T A) (k : A -> AdmM S T B) P R Q E :
  runs P x R E -> (forall a, runs (R a) (k a) Q E) -> runs P (x ≫= k) Q E.
Proof.
  intros Hx Hk w Hw. unfold mbind, AdmM_bind. specialize (Hx w Hw).
  destruct (x w) as [[a|e|] w']; [by apply Hk|done..].
Qed.
Lemma runs_weaken {A} (x : AdmM S T A) P P' (Q Q' : A -> AdminWorld S T -> Prop) E E' :
  runs P x Q E -> (forall w, P' w -> P w) -> (forall a w, Q a w -> Q' a w) -> (forall w, E w -> E' w) ->
  runs P' x Q' E'.
Proof.
  intros Hx HP HQ HE w Hw. specialize (Hx w (HP w Hw)). destruct (x w) as [[a|e|] w']; auto.
Qed.
Lemma keeps_bind {A B} (x : AdmM S T A) (k : A -> AdmM S T B) P :
  keeps P x -> (forall a, keeps P (k a)) -> keeps P (x ≫= k).
Proof. intros Hx Hk. by eapply runs_bind. Qed.
Lemma keeps_ret {A} (a : A) P : keeps P (mret a).
Proof. by intros w Hw. Qed.
Lemma keeps_result {A} (r : result A) P : keeps P (adm_result r).
Proof. intros w Hw. by destruct r. Qed.
Lemma runs_result {A} (r : result A) P (Q : A -> AdminWorld S T -> Prop) :
  (forall a w, r = Ok a -> P w -> Q a w) -> runs P (adm_result r) Q P.
Proof. intros Hr w Hw. cbn. destruct r; auto. Qed.
Lemma keeps_attempt {A} (x : AdmM S T A) P : keeps P x -> keeps P (adm_attempt x).
Proof. intros Hx w Hw. unfold adm_attempt. specialize (Hx w Hw). by destruct (x w) as [[] ?]. Qed.
Lemma keeps_forget {A} (x : AdmM S T A) P : keeps P x -> keeps P (forget x).
Proof. intros Hx. apply keeps_bind; [done|]. intros. apply keeps_ret. Qed.
Lemma forget_world {A} (x : AdmM S T A) w : (forget x w).2 = (x w).2.
Proof. unfold forget, mbind, AdmM_bind. by destruct (x w) as [[] w']. Qed.

(** A property that does not look at the number of calls made, and one that
    looks at the tables and the calls still to come only. *)
Class Quiet P : Prop := stable_bump : forall w, P w -> P (bump w).
Class Stable P : Prop := {
  stable_quiet :: Quiet P;
  stable_sent : forall w calls, P w -> P (sent calls w) }.

Lemma keeps_numbered {A} (f : nat -> A) P `{!Quiet P} : keeps P (numbered f).
Proof. intros w Hw. by apply stable_bump. Qed.
Lemma keeps_outbound {A} (f : nat -> A * list T) P `{!Stable P} : keeps P (outbound f).
Proof. intros w Hw. unfold outbound. destruct (f _). by apply stable_sent, stable_bump. Qed.

Lemma runs_transaction `{AdminEnv} {A} (body : nat -> S -> result A * S) P `{!Quiet P} Q :
  (forall w a s, P w -> body (aw_calls w) (aw_state w) = (Ok a, s) -> Q a (bump (set_state s w))) ->
  runs P (transaction body) Q P.
Proof.
  intros Hb w Hw. unfold transaction. destruct (tx_failure _); [by apply stable_bump|].
  destruct (body _ _) as [[a|e|] s] eqn:Hs; [by apply Hb|by apply stable_bump..].
Qed.

(** A property of the tables only. *)
Definition on_state (I : S -> Prop) (w : AdminWorld S T) : Prop := I (aw_state w).

#[export] Instance on_state_stable I : Stable (on_state I).
Proof. by split; [intros w Hw|intros w calls Hw]. Qed.

Lemma keeps_transaction `{AdminEnv} {A} (body : nat -> S -> result A * S) (I : S -> Prop) :
  (forall n s a s', I s -> body n s = (Ok a, s') -> I s') -> keeps (on_state I) (transaction body).
Proof. intros Hb. apply runs_transaction; [apply _|]. intros w a s Hw Hs. by eapply Hb. Qed.

Lemma runs_reading `{AdminEnv} {A} (f : S -> A) P `{!Quiet P} :
  runs P (reading f) (fun a w => P w /\ a = f (aw_state w)) P.
Proof.
  apply runs_transaction; [done|]. intros w a s Hw [= <- <-]. split; [|done].
  apply stable_bump. by destruct w.
Qed.
Lemma keeps_reading `{AdminEnv} {A} (f : S -> A) P `{!Quiet P} : keeps P (reading f).
Proof. eapply runs_weaken; [by apply runs_reading|done|by intros a w []|done]. Qed.
End logic.

(** ** Identifiers *)

Section ids.
Context `{AdminEnv} (fresh_inj : forall j k, fresh_id j = fresh_id k -> j = k) {A : Type} (key : A -> Uuid).

(** Distinct, and none is one still to be drawn. *)
Definition ids_ok (k : nat) (l : list A) : Prop :=
  NoDup (key <$> l) /\ forall x j, x ∈ l -> k <= j -> fresh_id j <> key x.

Lemma ids_ok_mono k k' l : k <= k' -> ids_ok k l -> ids_ok k' l.
Proof using Type. intros Hk [Hn Hf]. split; [done|]. intros x j Hx Hj. apply Hf; [done|lia]. Qed.

Lemma ids_ok_fmap k f l : (forall x, x ∈ l -> key (f x) = key x) -> ids_ok k l -> ids_ok k (f <$> l).
Proof using Type.
  intros Hf [Hn Hfr]. assert (He : key <$> (f <$> l) = key <$> l).
  { rewrite <- list_fmap_compose. apply list_fmap_ext. intros i x Hx. apply Hf. by eapply list_elem_of_lookup_2. }
  split; [by rewrite He|].
  intros x j (x' & -> & Hx)%list_elem_of_fmap Hj. rewrite (Hf _ Hx). by apply Hfr.
Qed.

Lemma ids_ok_filter k p l : ids_ok k l -> ids_ok k (List.filter p l).
Proof using Type.
  intros [Hn Hfr]. split.
  - induction l as [|x l IH]; [done|]. cbn. apply NoDup_cons in Hn as [Hx Hn].
    assert (Hs : NoDup (key <$> List.filter p l)) by (apply IH; [done|]; intros; apply Hfr; [by right|done]).
    destruct (p x); [|done]. cbn. apply NoDup_cons. split; [|done].
    intros (x' & He & [Hin _]%list_elem_of_In%filter_In)%list_elem_of_fmap. apply Hx.
    apply list_elem_of_fmap. exists x'. by rewrite list_elem_of_In.
  - intros x j [Hx _]%list_elem_of_In%filter_In Hj. apply Hfr; [by apply list_elem_of_In|done].
Qed.

Lemma ids_ok_add k l x : key x = fresh_id k -> ids_ok k l -> ids_ok (S k) (l ++ [x]).
Proof using fresh_inj.
  intros Hr [Hn Hfr]. split.
  - rewrite fmap_app. apply NoDup_app. split_and!; [done| |apply NoDup_singleton].
    intros y (x' & -> & Hx)%list_elem_of_fmap Hy%list_elem_of_singleton. apply (Hfr x' k Hx); [done|congruence].
  - intros y j [Hy| ->%list_elem_of_singleton]%elem_of_app Hj; [apply Hfr; [done|lia]|].
    rewrite Hr. intros ?%fresh_inj. lia.
Qed.

Lemma ids_ok_inj k l x y : ids_ok k l -> x ∈ l -> y ∈ l -> key x = key y -> x = y.
Proof using Type.
  intros [Hn _] [i Hi]%list_elem_of_lookup [j Hj]%list_elem_of_lookup He.
  assert (i = j) as ->; [|congruence].
  eapply (NoDup_lookup (key <$> l)); [done|rewrite list_lookup_fmap, Hi; done|].
  rewrite list_lookup_fmap, Hj. cbn. by rewrite He.
Qed.
End ids.

Lemma find_elem {A} (p : A -> bool) l x : List.find p l = Some x -> x ∈ l /\ p x = true.
Proof. intros [Hx Hp]%find_some. by rewrite list_elem_of_In. Qed.
