(* ===== verification/ProviderAdmin.v ===== *)
(** * Providers and their models

    db/provider_repo.rs and http/routes/dashboard/providers.rs: the catalogue
    of providers with their encrypted credentials, the models registered for
    them, and the routes that change and probe them.

    The tables are lists, and every handler runs in the world of [AdminTx]. *)

From S2P Require Import Prelude Rstr Json Types Providers UrlGuard HttpProviders CredentialTest.
From S2P Require Import Roles AdminAudit Sessions AdminTx.

Record ProviderRecord : Type := {
  pv_id : Uuid;
  pv_workspace_id : Uuid;
  pv_name : str;
  pv_provider_type : str;
  pv_encrypted_credential : option str;
  pv_created_at : Z;
  pv_updated_at : Z;
  pv_config : Value;
}.

Record ModelRecord : Type := {
  md_id : Uuid;
  md_workspace_id : Uuid;
  md_provider_id : Uuid;
  md_name : str;
  md_created_at : Z;
  md_excluded : bool;
}.

Record Catalogue : Type := {
  ct_providers : list ProviderRecord;
  ct_models : list ModelRecord;
  ct_audit : list AdminAuditRow;
}.

(** The base64 crate, URL-safe alphabet. *)
Class Base64Env := {
  b64url : str -> str;
  b64url_decode : str -> str + str;
}.

Definition set_models (ms : list ModelRecord) (c : Catalogue) : Catalogue :=
  {| ct_providers := ct_providers c; ct_models := ms; ct_audit := ct_audit c |}.

(** ** Rows *)

Definition own_provider (ws id : Uuid) (p : ProviderRecord) : bool :=
  (pv_id p =? id)%N && (pv_workspace_id p =? ws)%N.
Definition of_provider (ws provider : Uuid) (m : ModelRecord) : bool :=
  (md_workspace_id m =? ws)%N && (md_provider_id m =? provider)%N.
Definition named (ws provider : Uuid) (name : str) (m : ModelRecord) : bool :=
  of_provider ws provider m && bool_decide (md_name m = name).

Definition with_excluded (b : bool) (m : ModelRecord) : ModelRecord := {|
  md_id := md_id m; md_workspace_id := md_workspace_id m; md_provider_id := md_provider_id m;
  md_name := md_name m; md_created_at := md_created_at m; md_excluded := b |}.

(** [UPDATE models SET excluded = b WHERE p], with the number of rows. *)
Definition update_models (p : ModelRecord -> bool) (b : bool) (ms : list ModelRecord)
    : list ModelRecord * nat :=
  ((fun m => if p m then with_excluded b m else m) <$> ms, length (List.filter p ms)).

(** [ORDER BY ... DESC / ASC] *)
Definition newest_first (ps : list ProviderRecord) : list ProviderRecord :=
  sort_by (fun a b => (pv_created_at b <=? pv_created_at a)%Z) ps.
Definition by_name (ms : list ModelRecord) : list ModelRecord :=
  sort_by (fun a b => str_leb (md_name a) (md_name b)) ms.

Definition not_found_provider (id : Uuid) : ApiError := NotFound ($"provider " ++ show_uuid id ++ $" not found").

Section admin.
Context `{UrlEnv} `{HttpEnv} `{GcpAuth} `{ProbeEnv} `{CaseMap} `{AdminEnv} `{KmsEnv} `{Base64Env}.

Abbreviation Adm := (AdmM Catalogue (Outbound ValidatedUrl)).

(** ** The repository *)

Definition list_providers (ws : Uuid) : Adm (list ProviderRecord) := reading (fun c =>
  newest_first (List.filter (fun p => (pv_workspace_id p =? ws)%N) (ct_providers c))).

Definition repo_create_provider (ws : Uuid) (name provider_type : str) (credential : option str)
    (config : Value) (actor : AdminActor) : Adm ProviderRecord := transaction (fun n c =>
  let row := {| pv_id := fresh_id n; pv_workspace_id := ws; pv_name := name;
                pv_provider_type := provider_type; pv_encrypted_credential := credential;
                pv_created_at := now_at n; pv_updated_at := now_at n; pv_config := config |} in
  let entry := with_detail (on_object ProviderCredentialCreated (pv_id row) (Some name))
    (Object [($"provider_type", VString provider_type);
             ($"credential_present", Bool (bool_decide (is_Some credential)))]) in
  (Ok row, {| ct_providers := ct_providers c ++ [row]; ct_models := ct_models c;
              ct_audit := audit_write actor entry (ct_audit c) |})).

Definition updated_provider (now : Z) (name provider_type : option str) (credential : option (option str))
    (config : option Value) (p : ProviderRecord) : ProviderRecord := {|
  pv_id := pv_id p; pv_workspace_id := pv_workspace_id p;
  pv_name := default (pv_name p) name;
  pv_provider_type := default (pv_provider_type p) provider_type;
  pv_encrypted_credential := default (pv_encrypted_credential p) credential;
  pv_created_at := pv_created_at p; pv_updated_at := now;
  pv_config := default (pv_config p) config |}.

Definition update_entry (old new : ProviderRecord) (credential : option (option str)) : AdminAuditEntry :=
  with_detail (on_object ProviderCredentialUpdated (pv_id old) (Some (pv_name new)))
    (Object [
      ($"changed", Object (changed_field (changed_field [] $"name" (VString (pv_name old)) (VString (pv_name new)))
         $"provider_type" (VString (pv_provider_type old)) (VString (pv_provider_type new))));
      ($"credential_replaced", Bool (match credential with Some (Some _) => true | _ => false end));
      ($"credential_cleared", Bool (match credential with Some None => true | _ => false end));
      ($"config_changed", Bool (negb (value_eqb (pv_config old) (pv_config new))))]).

Definition repo_update_provider (ws id : Uuid) (name provider_type : option str)
    (credential : option (option str)) (config : option Value) (actor : AdminActor)
    : Adm ProviderRecord := transaction (fun n c =>
  match List.find (own_provider ws id) (ct_providers c) with
  | None => (Err (not_found_provider id), c)
  | Some current =>
      let row := updated_provider (now_at n) name provider_type credential config current in
      (Ok row,
       {| ct_providers := (fun p => if own_provider ws id p then row else p) <$> ct_providers c;
          ct_models := ct_models c;
          ct_audit := audit_write actor (update_entry current row credential) (ct_audit c) |})
  end).

(** The foreign key of [models] cascades. *)
Definition repo_delete_provider (ws id : Uuid) (actor : AdminActor) : Adm unit := transaction (fun _ c =>
  match List.find (own_provider ws id) (ct_providers c) with
  | None => (Err (not_found_provider id), c)
  | Some p =>
      let entry := with_detail (on_object ProviderCredentialDeleted id (Some (pv_name p)))
        (Object [($"provider_type", VString (pv_provider_type p))]) in
      (Ok tt,
       {| ct_providers := List.filter (fun p => negb (own_provider ws id p)) (ct_providers c);
          ct_models := List.filter (fun m => negb (md_provider_id m =? id)%N) (ct_models c);
          ct_audit := audit_write actor entry (ct_audit c) |})
  end).

Definition list_models_for_provider (ws provider : Uuid) : Adm (list ModelRecord) := reading (fun c =>
  by_name (List.filter (fun m => of_provider ws provider m && negb (md_excluded m)) (ct_models c))).

Definition list_excluded_model_names (ws provider : Uuid) : Adm (list str) := reading (fun c =>
  md_name <$> List.filter (fun m => of_provider ws provider m && md_excluded m) (ct_models c)).

Definition create_model (ws provider : Uuid) (name : str) : Adm ModelRecord := transaction (fun n c =>
  if negb (existsb (own_provider ws provider) (ct_providers c)) then
    (Err (NotFound ($"provider " ++ show_uuid provider ++ $" not found in workspace")), c)
  else match List.find (named ws provider name) (ct_models c) with
  | Some row =>
      (Ok row, if md_excluded row
               then set_models (update_models (fun m => (md_id m =? md_id row)%N) false (ct_models c)).1 c
               else c)
  | None =>
      let row := {| md_id := fresh_id n; md_workspace_id := ws; md_provider_id := provider;
                    md_name := name; md_created_at := now_at n; md_excluded := false |} in
      (Ok row, set_models (ct_models c ++ [row]) c)
  end).

Definition delete_model (ws provider : Uuid) (name : str) : Adm unit :=
  affected ← transaction (fun _ c =>
    let '(ms, k) := update_models (fun m => named ws provider name m && negb (md_excluded m)) true (ct_models c) in
    (Ok k, set_models ms c));
  if (affected =? 0)%nat
  then adm_result (Err (NotFound ($"model " ++ name ++ $" not found for provider " ++ show_uuid provider)))
  else mret tt.

Definition bulk_exclude_models (ws provider : Uuid) (names : list str) : Adm nat :=
  match names with
  | [] => mret 0
  | _ => transaction (fun _ c =>
      let '(ms, k) := update_models (fun m => of_provider ws provider m && bool_decide (md_name m ∈ names)
                        && negb (md_excluded m)) true (ct_models c) in
      (Ok k, set_models ms c))
  end.

Definition list_models (ws : Uuid) : Adm (list ModelRecord) := reading (fun c =>
  sort_by (fun a b => (md_created_at b <=? md_created_at a)%Z)
    (List.filter (fun m => (md_workspace_id m =? ws)%N && negb (md_excluded m)) (ct_models c))).

(** The JOIN of [models] with [providers], oldest model first, then oldest
    provider. *)
Definition resolve_model_targets (ws : Uuid) (model_name : str) : Adm (list ModelTarget) :=
  reading (fun c =>
    let rows := List.filter (fun '(m, p) => (pv_id p =? md_provider_id m)%N && (md_workspace_id m =? ws)%N
                  && (pv_workspace_id p =? ws)%N && bool_decide (md_name m = model_name))
                  (list_prod (ct_models c) (ct_providers c)) in
    let ordered := sort_by (fun a b =>
      (md_created_at a.1 <? md_created_at b.1)%Z
      || ((md_created_at a.1 =? md_created_at b.1)%Z && (pv_created_at a.2 <=? pv_created_at b.2)%Z)) rows in
    (fun mp => {| model_id := md_id mp.1; mt_workspace_id := md_workspace_id mp.1;
                   mt_provider_id := pv_id mp.2; mt_provider_name := pv_name mp.2;
                   mt_provider_type := pv_provider_type mp.2; mt_model_name := md_name mp.1;
                   mt_encrypted_credential := pv_encrypted_credential mp.2;
                   mt_config := pv_config mp.2 |}) <$> ordered).

(** ** The handlers *)

Record ModelSummary : Type := { ms_id : Uuid; ms_name : str }.

Record ProviderResponse : Type := {
  pr_id : Uuid;
  pr_name : str;
  pr_provider_type : str;
  pr_has_credential : bool;
  pr_last_rotated_at : Z;
  pr_created_at : Z;
  pr_config : Value;
  pr_models : list ModelSummary;
}.

Record CreateProviderRequest : Type := {
  cp_name : str;
  cp_provider_type : str;
  cp_credential : option str;
  cp_config : option Value;
}.

Record UpdateProviderRequest : Type := {
  up_name : option str;
  up_provider_type : option str;
  up_credential : option str;
  up_config : option Value;
}.

Record TestConnectionRequest : Type := {
  tc_provider_type : str;
  tc_credential : str;
  tc_base_url : option str;
  tc_config : option Value;
}.

Record SyncModelsResponse : Type := { sy_added : list str; sy_kept : list str; sy_total : N }.

Definition summary (m : ModelRecord) : ModelSummary := {| ms_id := md_id m; ms_name := md_name m |}.

Definition provider_response (p : ProviderRecord) (models : list ModelSummary) : ProviderResponse := {|
  pr_id := pv_id p; pr_name := pv_name p; pr_provider_type := pv_provider_type p;
  pr_has_credential := bool_decide (is_Some (pv_encrypted_credential p));
  pr_last_rotated_at := pv_updated_at p; pr_created_at := pv_created_at p;
  pr_config := pv_config p; pr_models := models |}.

Definition encrypt_credential (plaintext : option str) : Adm (option str) :=
  match plaintext with
  | None => mret None
  | Some text =>
      sealed ← numbered (fun n => kms_seal n text);
      match sealed with
      | inl ciphertext => mret (Some (b64url ciphertext))
      | inr e => adm_result (Err (Internal ($"credential encryption failed: " ++ e)))
      end
  end.

Definition decrypt_stored_credential (stored : str) : Adm str :=
  match b64url_decode stored with
  | inr e => adm_result (Err (Internal ($"credential decode failed: " ++ e)))
  | inl raw =>
      opened ← numbered (fun n => kms_open n raw);
      match opened with
      | inr e => adm_result (Err (Internal ($"credential decryption failed: " ++ e)))
      | inl plaintext =>
          if utf8_valid plaintext then mret plaintext
          else adm_result (Err (Internal ($"credential not valid UTF-8: " ++ utf8_error plaintext)))
      end
  end.

Definition config_base_url (config : Value) : option str := nonblank (get_str config $"base_url").

(** [trimmed.len() > 200] is in bytes. *)
Definition acceptable_name (trimmed : str) : bool :=
  bool_decide (trimmed <> []) && (length trimmed <=? 200).

(** The loop over the upstream's names. *)
Fixpoint sync_names (ws provider : Uuid) (existing excluded : list str) (ids : list str)
    (added kept : list str) : Adm (list str * list str) :=
  match ids with
  | [] => mret (added, kept)
  | id :: ids' =>
      let trimmed := trim id in
      if negb (acceptable_name trimmed) || bool_decide (trimmed ∈ excluded)
      then sync_names ws provider existing excluded ids' added kept
      else if bool_decide (trimmed ∈ existing)
      then sync_names ws provider existing excluded ids' added (kept ++ [trimmed])
      else
        created ← adm_attempt (create_model ws provider trimmed);
        match created with
        | Ok _ => sync_names ws provider existing excluded ids' (added ++ [trimmed]) kept
        | _ => sync_names ws provider existing excluded ids' added kept
        end
  end.

Definition persist_synced_models (ws provider : Uuid) (upstream_ids : list str) : Adm SyncModelsResponse :=
  existing ← list_models_for_provider ws provider;
  excluded ← list_excluded_model_names ws provider;
  '(added, kept) ← sync_names ws provider (md_name <$> existing) excluded upstream_ids [] [];
  mret {| sy_added := added; sy_kept := kept;
          sy_total := u32_of (N.of_nat (length added + length kept)) |}.

Definition auto_sync_models (ws provider : Uuid) (provider_type credential : str) (base_url : option str)
    : Adm unit :=
  listed ← outbound (list_upstream_models provider_type credential base_url);
  match listed with
  | inr _ => mret tt
  | inl ids => _ ← adm_attempt (persist_synced_models ws provider ids); mret tt
  end.

Definition response_for (ws : Uuid) (p : ProviderRecord) : Adm ProviderResponse :=
  models ← list_models_for_provider ws (pv_id p);
  mret (provider_response p (summary <$> models)).

Fixpoint responses_for (ws : Uuid) (rows : list ProviderRecord) : Adm (list ProviderResponse) :=
  match rows with
  | [] => mret []
  | r :: rows' => item ← response_for ws r; items ← responses_for ws rows'; mret (item :: items)
  end.

Definition get_providers (ctx : JwtAuthContext) : Adm (list ProviderResponse) :=
  rows ← list_providers (jc_workspace_id ctx);
  responses_for (jc_workspace_id ctx) rows.

Definition create_provider (ctx : JwtAuthContext) (body : CreateProviderRequest) : Adm ProviderResponse :=
  admin_only ctx;;
  encrypted ← encrypt_credential (cp_credential body);
  let ws := jc_workspace_id ctx in
  record ← repo_create_provider ws (cp_name body) (cp_provider_type body) encrypted
             (default (Object []) (cp_config body)) (actor_of ctx);
  match cp_credential body with
  | Some plaintext =>
      auto_sync_models ws (pv_id record) (pv_provider_type record) plaintext
        (config_base_url (pv_config record))
  | None => mret tt
  end;;
  response_for ws record.

Definition update_provider (ctx : JwtAuthContext) (id : Uuid) (body : UpdateProviderRequest)
    : Adm ProviderResponse :=
  admin_only ctx;;
  encrypted ← match up_credential body with
              | Some _ => sealed ← encrypt_credential (up_credential body); mret (Some sealed)
              | None => mret None
              end;
  let ws := jc_workspace_id ctx in
  record ← repo_update_provider ws id (up_name body) (up_provider_type body) encrypted (up_config body)
             (actor_of ctx);
  match up_credential body with
  | Some plaintext =>
      auto_sync_models ws (pv_id record) (pv_provider_type record) plaintext
        (config_base_url (pv_config record))
  | None => mret tt
  end;;
  response_for ws record.

Definition delete_provider (ctx : JwtAuthContext) (id : Uuid) : Adm unit :=
  admin_only ctx;; repo_delete_provider (jc_workspace_id ctx) id (actor_of ctx).

Definition list_provider_models (ctx : JwtAuthContext) (id : Uuid) : Adm (list ModelSummary) :=
  rows ← list_models_for_provider (jc_workspace_id ctx) id; mret (summary <$> rows).

Definition add_provider_model (ctx : JwtAuthContext) (id : Uuid) (name : str) : Adm ModelSummary :=
  admin_only ctx;;
  let trimmed := trim name in
  if bool_decide (trimmed = []) then adm_result (Err (BadRequest $"model name must not be empty"))
  else if (200 <? length trimmed)%nat then
    adm_result (Err (BadRequest $"model name too long (>200 chars)"))
  else row ← create_model (jc_workspace_id ctx) id trimmed; mret (summary row).

Definition delete_provider_model (ctx : JwtAuthContext) (id : Uuid) (name : str) : Adm unit :=
  admin_only ctx;; delete_model (jc_workspace_id ctx) id name.

Definition bulk_delete_provider_models (ctx : JwtAuthContext) (id : Uuid) (names : list str) : Adm nat :=
  admin_only ctx;; bulk_exclude_models (jc_workspace_id ctx) id names.

Definition probe (f : nat -> option TestResult * list (Outbound ValidatedUrl)) : Adm TestResult :=
  r ← outbound f; match r with Some t => mret t | None => adm_result Panic end.

Definition test_connection_unsaved (ctx : JwtAuthContext) (body : TestConnectionRequest) : Adm TestResult :=
  admin_only ctx;;
  let cfg := match tc_config body with
             | Some v => VertexConfig_from_value v
             | None => {| vx_region := None; vx_project := None |}
             end in
  probe (test_connection (tc_provider_type body) (tc_credential body) (tc_base_url body)
    (vx_region cfg) (vx_project cfg)).

(** The provider and the stored credential both stored-credential routes start
    from. *)
Definition stored_provider (ctx : JwtAuthContext) (id : Uuid) (purpose : str) : Adm (ProviderRecord * str) :=
  admin_only ctx;;
  providers ← list_providers (jc_workspace_id ctx);
  match List.find (fun p => (pv_id p =? id)%N) providers with
  | None => adm_result (Err (not_found_provider id))
  | Some target =>
      match pv_encrypted_credential target with
      | None => adm_result (Err (BadRequest ($"provider has no stored credential to " ++ purpose)))
      | Some stored => plaintext ← decrypt_stored_credential stored; mret (target, plaintext)
      end
  end.

Definition test_connection_stored (ctx : JwtAuthContext) (id : Uuid) : Adm TestResult :=
  '(target, plaintext) ← stored_provider ctx id $"test";
  let cfg := VertexConfig_from_value (pv_config target) in
  probe (test_connection (pv_provider_type target) plaintext None (vx_region cfg) (vx_project cfg)).

Definition sync_provider_models (ctx : JwtAuthContext) (id : Uuid) : Adm SyncModelsResponse :=
  '(target, plaintext) ← stored_provider ctx id $"sync";
  listed ← outbound (list_upstream_models (pv_provider_type target) plaintext
             (config_base_url (pv_config target)));
  match listed with
  | inr e => adm_result (Err (BadRequest ($"upstream model sync failed: " ++ e)))
  | inl ids => persist_synced_models (jc_workspace_id ctx) (pv_id target) ids
  end.
End admin.
