(* ===== verification/ProviderAdminSpec.v ===== *)
(** * What the provider routes guarantee *)

From S2P Require Import Prelude Rstr Json Types Providers UrlGuard HttpProviders CredentialTest.
From S2P Require Import Roles AdminAudit Sessions AdminTx ProviderAdmin.
From S2P Require Import WireSpec.

Section spec.
Context `{UrlEnv} `{HttpEnv} `{GcpAuth} `{ProbeEnv} `{CaseMap} `{AdminEnv} `{KmsEnv} `{Base64Env}.

(** ** Requests and a logic for handlers *)

Inductive AdminRequest : Type :=
  | AGet (ctx : JwtAuthContext)
  | ACreate (ctx : JwtAuthContext) (body : CreateProviderRequest)
  | AUpdate (ctx : JwtAuthContext) (id : Uuid) (body : UpdateProviderRequest)
  | ADelete (ctx : JwtAuthContext) (id : Uuid)
  | AListModels (ctx : JwtAuthContext) (id : Uuid)
  | AAddModel (ctx : JwtAuthContext) (id : Uuid) (name : str)
  | ADeleteModel (ctx : JwtAuthContext) (id : Uuid) (name : str)
  | ABulkDelete (ctx : JwtAuthContext) (id : Uuid) (names : list str)
  | ATest (ctx : JwtAuthContext) (body : TestConnectionRequest)
  | ATestStored (ctx : JwtAuthContext) (id : Uuid)
  | ASync (ctx : JwtAuthContext) (id : Uuid).

#[local] Abbreviation Adm := (AdmM Catalogue (Outbound ValidatedUrl)).

Definition handle (r : AdminRequest) : Adm unit :=
  match r with
  | AGet ctx => forget (get_providers ctx)
  | ACreate ctx body => forget (create_provider ctx body)
  | AUpdate ctx id body => forget (update_provider ctx id body)
  | ADelete ctx id => delete_provider ctx id
  | AListModels ctx id => forget (list_provider_models ctx id)
  | AAddModel ctx id name => forget (add_provider_model ctx id name)
  | ADeleteModel ctx id name => delete_provider_model ctx id name
  | ABulkDelete ctx id names => forget (bulk_delete_provider_models ctx id names)
  | ATest ctx body => forget (test_connection_unsaved ctx body)
  | ATestStored ctx id => forget (test_connection_stored ctx id)
  | ASync ctx id => forget (sync_provider_models ctx id)
  end.

#[local] Abbreviation World := (AdminWorld Catalogue (Outbound ValidatedUrl)).

Lemma decrypt_keeps P `{!Quiet P} c : keeps P (decrypt_stored_credential c).
Proof.
  unfold decrypt_stored_credential. destruct (b64url_decode c); [|apply keeps_result].
  apply keeps_bind; [apply keeps_numbered, _|]. intros [plain|]; [|apply keeps_result].
  destruct (utf8_valid plain); [apply keeps_ret|apply keeps_result].
Qed.

(** ** Handlers keep what the repository keeps *)

(** What every repository call must keep for a handler of [ws] to keep it; a
    model is created only under a name that is [free]. *)
Record repo_keeps (P : World -> Prop) (ws : Uuid) (free : Uuid -> str -> Prop) (doomed : Uuid -> Prop) : Prop := {
  rk_create : forall name ty cred cfg actor, aa_workspace_id actor = ws ->
    keeps P (repo_create_provider ws name ty cred cfg actor);
  rk_update : forall id name ty cred cfg actor, aa_workspace_id actor = ws ->
    keeps P (repo_update_provider ws id name ty cred cfg actor);
  rk_delete : forall id actor, ~ doomed id -> aa_workspace_id actor = ws ->
    keeps P (repo_delete_provider ws id actor);
  rk_model : forall id name, free id name -> keeps P (create_model ws id name);
  rk_exclude : forall id name, keeps P (delete_model ws id name);
  rk_bulk : forall id names, keeps P (bulk_exclude_models ws id names);
  (** The names read as excluded are not free, unless every name is. *)
  rk_excluded : forall id, runs P (list_excluded_model_names ws id)
    (fun ex w => P w /\ forall name, name ∉ ex -> free id name) P }.

Section keeps.
Context (P : World -> Prop) `{!Stable P} (ws : Uuid) (free : Uuid -> str -> Prop) (doomed : Uuid -> Prop).
Context (R : repo_keeps P ws free doomed).

Lemma list_providers_keeps : keeps P (list_providers ws).
Proof. apply keeps_reading, _. Qed.
Lemma list_models_for_provider_keeps id : keeps P (list_models_for_provider ws id).
Proof. apply keeps_reading, _. Qed.

Lemma sync_names_keeps id existing excluded ids added kept :
  (forall name, name ∉ excluded -> free id name) ->
  keeps P (sync_names ws id existing excluded ids added kept).
Proof.
  intros Hf. revert added kept. induction ids as [|x ids IH]; intros added kept; cbn [sync_names].
  - apply keeps_ret.
  - case_bool_decide as Hx; [rewrite orb_true_r; apply IH|]. rewrite orb_false_r.
    destruct (negb _); [apply IH|]. destruct (bool_decide (_ ∈ existing)); [apply IH|].
    apply keeps_bind; [apply keeps_attempt, (rk_model _ _ _ _ R), Hf, Hx|]. intros []; apply IH.
Qed.

Lemma persist_keeps id ids : keeps P (persist_synced_models ws id ids).
Proof.
  apply keeps_bind; [apply list_models_for_provider_keeps|]. intros existing.
  eapply runs_bind; [apply (rk_excluded _ _ _ _ R)|]. intros ex w [Hw Hf]. revert w Hw.
  apply keeps_bind; [by apply sync_names_keeps|]. intros []. apply keeps_ret.
Qed.

Lemma auto_sync_keeps id ty cred url : keeps P (auto_sync_models ws id ty cred url).
Proof.
  apply keeps_bind; [by apply keeps_outbound|]. intros [ids|e]; [|apply keeps_ret].
  apply keeps_bind; [apply keeps_attempt, persist_keeps|]. intros. apply keeps_ret.
Qed.

Lemma response_keeps p : keeps P (response_for ws p).
Proof. apply keeps_bind; [apply list_models_for_provider_keeps|]. intros. apply keeps_ret. Qed.

Lemma responses_keeps rows : keeps P (responses_for ws rows).
Proof.
  induction rows as [|r rows IH]; cbn [responses_for]; [apply keeps_ret|].
  apply keeps_bind; [apply response_keeps|]. intros. apply keeps_bind; [done|]. intros. apply keeps_ret.
Qed.

Lemma encrypt_keeps c : keeps P (encrypt_credential c).
Proof.
  destruct c as [text|]; [|apply keeps_ret]. apply keeps_bind; [apply keeps_numbered, _|].
  intros []; [apply keeps_ret|apply keeps_result].
Qed.

Lemma stored_provider_keeps ctx id purpose :
  jc_workspace_id ctx = ws -> keeps P (stored_provider ctx id purpose).
Proof.
  intros Hws. apply keeps_bind; [apply keeps_result|]. intros _. rewrite Hws.
  apply keeps_bind; [apply list_providers_keeps|]. intros rows.
  destruct (List.find _ rows) as [p|]; [|apply keeps_result].
  destruct (pv_encrypted_credential p); [|apply keeps_result].
  apply keeps_bind; [apply decrypt_keeps, _|]. intros. apply keeps_ret.
Qed.

Lemma probe_keeps f : keeps P (probe f).
Proof.
  apply keeps_bind; [by apply keeps_outbound|]. intros []; [apply keeps_ret|apply keeps_result].
Qed.

Definition ctx_of (r : AdminRequest) : JwtAuthContext :=
  match r with
  | AGet ctx | ACreate ctx _ | AUpdate ctx _ _ | ADelete ctx _ | AListModels ctx _ | AAddModel ctx _ _
  | ADeleteModel ctx _ _ | ABulkDelete ctx _ _ | ATest ctx _ | ATestStored ctx _ | ASync ctx _ => ctx
  end.

Lemma handle_keeps r :
  jc_workspace_id (ctx_of r) = ws ->
  match r with AAddModel _ id name => free id (trim name) | ADelete _ id => ~ doomed id | _ => True end ->
  keeps P (handle r).
Proof.
  destruct r as [ctx|ctx body|ctx id body|ctx id|ctx id|ctx id name|ctx id name|ctx id names|ctx body|ctx id|ctx id];
    cbn [ctx_of handle]; intros Hws Hr; try apply keeps_forget;
    unfold get_providers, create_provider, update_provider, delete_provider, list_provider_models,
      add_provider_model, delete_provider_model, bulk_delete_provider_models, test_connection_unsaved,
      test_connection_stored, sync_provider_models; rewrite ?Hws.
  - apply keeps_bind; [apply list_providers_keeps|]. apply responses_keeps.
  - apply keeps_bind; [apply keeps_result|]. intros _. apply keeps_bind; [apply encrypt_keeps|]. intros enc.
    apply keeps_bind; [by apply (rk_create _ _ _ _ R)|]. intros row.
    apply keeps_bind; [|intros; apply response_keeps].
    destruct (cp_credential body); [apply auto_sync_keeps|apply keeps_ret].
  - apply keeps_bind; [apply keeps_result|]. intros _. apply keeps_bind.
    { destruct (up_credential body); [|apply keeps_ret]. apply keeps_bind; [apply encrypt_keeps|].
      intros. apply keeps_ret. }
    intros enc. apply keeps_bind; [by apply (rk_update _ _ _ _ R)|]. intros row.
    apply keeps_bind; [|intros; apply response_keeps].
    destruct (up_credential body); [apply auto_sync_keeps|apply keeps_ret].
  - apply keeps_bind; [apply keeps_result|]. intros _. by apply (rk_delete _ _ _ _ R).
  - apply keeps_bind; [apply list_models_for_provider_keeps|]. intros. apply keeps_ret.
  - apply keeps_bind; [apply keeps_result|]. intros _. case_bool_decide; [apply keeps_result|].
    destruct (200 <? _); [apply keeps_result|].
    apply keeps_bind; [by apply (rk_model _ _ _ _ R)|]. intros. apply keeps_ret.
  - apply keeps_bind; [apply keeps_result|]. intros _. apply (rk_exclude _ _ _ _ R).
  - apply keeps_bind; [apply keeps_result|]. intros _. apply (rk_bulk _ _ _ _ R).
  - apply keeps_bind; [apply keeps_result|]. intros _. apply probe_keeps.
  - apply keeps_bind; [by apply stored_provider_keeps|]. intros [p plain]. apply probe_keeps.
  - apply keeps_bind; [by apply stored_provider_keeps|]. intros [p plain].
    apply keeps_bind; [by apply keeps_outbound|]. intros [ids|e]; [apply persist_keeps|apply keeps_result].
Qed.
End keeps.

(** ** Identifiers of models *)

Context (fresh_inj : forall j k, fresh_id j = fresh_id k -> j = k).

(** ** What was removed stays removed *)

Definition excluded (ws p : Uuid) (name : str) (ms : list ModelRecord) : Prop :=
  (exists m, m ∈ ms /\ named ws p name m = true)
  /\ forall m, m ∈ ms -> named ws p name m = true -> md_excluded m = true.

Definition still_excluded (ws p : Uuid) (name : str) (w : World) : Prop :=
  ids_ok md_id (aw_calls w) (ct_models (aw_state w)) /\ excluded ws p name (ct_models (aw_state w)).

#[local] Instance still_excluded_stable ws p name : Stable (still_excluded ws p name).
Proof.
  split; intros w; [|intros calls]; intros [Hi He]; split; try done. cbn. eapply ids_ok_mono; [|done]. lia.
Qed.

Lemma named_inv ws p name m :
  named ws p name m = true -> md_workspace_id m = ws /\ md_provider_id m = p /\ md_name m = name.
Proof.
  unfold named, of_provider. intros [[Hw Hp]%andb_true_iff Hn%bool_decide_eq_true]%andb_true_iff. split_and!; [lia|lia|done].
Qed.

Lemma named_with_excluded ws p name b m : named ws p name (with_excluded b m) = named ws p name m.
Proof. done. Qed.

Lemma excluded_update ws p name q ms :
  excluded ws p name ms -> excluded ws p name (update_models q true ms).1.
Proof.
  intros [(m & Hm & Hn) Ha]. split.
  - exists (if q m then with_excluded true m else m). split; [|by destruct (q m)].
    by apply (list_elem_of_fmap_2 (fun m => if q m then with_excluded true m else m)).
  - intros m' (x & -> & Hx)%list_elem_of_fmap. destruct (q x); [done|by apply Ha].
Qed.

(** One transaction that changes the models, or not. *)
Lemma still_excluded_write ws p name w c k :
  ids_ok md_id k (ct_models c) -> k <= S (aw_calls w) -> excluded ws p name (ct_models c) ->
  still_excluded ws p name (bump (set_state c w)).
Proof. intros Hi Hk He. split; [|done]. by eapply ids_ok_mono. Qed.

Lemma update_models_ids k q b ms : ids_ok md_id k ms -> ids_ok md_id k (update_models q b ms).1.
Proof. intros Hi. apply ids_ok_fmap; [|done]. intros m _. by destruct (q m). Qed.

Lemma create_model_excluded ws p name ws' p' name' :
  (ws', p', name') <> (ws, p, name) -> keeps (still_excluded ws p name) (create_model ws' p' name').
Proof.
  intros Hne. apply runs_transaction; [apply _|]. intros w a c [Hi [(m0 & Hm0 & Hn0) Ha]].
  destruct (negb _); [done|]. destruct (List.find _ _) as [row|] eqn:Hf.
  - apply find_elem in Hf as [Hin Hrow]. intros [= _ <-].
    destruct (md_excluded row).
    2: { apply (still_excluded_write _ _ _ _ _ (aw_calls w)); [exact Hi|lia|]. split; [by exists m0|done]. }
    apply (still_excluded_write _ _ _ _ _ (aw_calls w)); [apply update_models_ids, Hi|lia|]. split.
    + set (f := fun m => if (md_id m =? md_id row)%N then with_excluded false m else m).
      exists (f m0). split; [by apply (list_elem_of_fmap_2 f)|]. unfold f. by destruct (_ =? _)%N.
    + intros m (x & -> & Hx)%list_elem_of_fmap. destruct (N.eqb_spec (md_id x) (md_id row)) as [He|]; [|by apply Ha].
      apply (ids_ok_inj _ _ _ _ _ Hi Hx Hin) in He as ->. rewrite named_with_excluded. intros Hn.
      apply named_inv in Hn as (<- & <- & <-), Hrow as (<- & <- & <-). done.
  - intros [= _ <-]. apply (still_excluded_write _ _ _ _ _ (S (aw_calls w))); [by apply ids_ok_add|lia|]. split.
    + exists m0. split; [apply elem_of_app; by left|done].
    + intros m [Hm| ->%list_elem_of_singleton]%elem_of_app; [by apply Ha|]. intros Hn. exfalso. apply Hne.
      by apply named_inv in Hn as (<- & <- & <-).
Qed.

Lemma excluded_repo ws p name ws' :
  repo_keeps (still_excluded ws p name) ws' (fun id n => (ws', id, n) <> (ws, p, name)) (fun id => id = p).
Proof.
  split.
  - intros. apply runs_transaction; [apply _|]. intros w a c [Hi He] [= _ <-].
    apply (still_excluded_write _ _ _ _ _ (aw_calls w)); [exact Hi|lia|done].
  - intros. apply runs_transaction; [apply _|]. intros w a c [Hi He].
    destruct (List.find _ _); [|done]. intros [= _ <-]. apply (still_excluded_write _ _ _ _ _ (aw_calls w)); [exact Hi|lia|done].
  - intros id actor Hid _. apply runs_transaction; [apply _|]. intros w a c [Hi [(m & Hm & Hn) Ha]].
    destruct (List.find _ _); [|done]. intros [= _ <-].
    apply (still_excluded_write _ _ _ _ _ (aw_calls w)); [apply ids_ok_filter, Hi|lia|]. split.
    + exists m. split; [|done]. apply list_elem_of_In, filter_In. split; [by apply list_elem_of_In|].
      apply named_inv in Hn as (_ & <- & _). apply negb_true_iff, N.eqb_neq. congruence.
    + intros m' [Hm' _]%list_elem_of_In%filter_In. apply Ha. by apply list_elem_of_In.
  - intros id n Hf. by apply create_model_excluded.
  - intros id n. apply keeps_bind.
    + apply runs_transaction; [apply _|]. intros w a c [Hi He].
      destruct (update_models _ _ _) as [ms k] eqn:Hu. intros [= _ <-].
      apply (f_equal fst) in Hu. cbn in Hu. subst ms.
      apply (still_excluded_write _ _ _ _ _ (aw_calls w)); [apply update_models_ids, Hi|lia|by apply excluded_update].
    + intros k. destruct (k =? 0); [apply keeps_result|apply keeps_ret].
  - intros id names. destruct names as [|n names]; [apply keeps_ret|].
    apply runs_transaction; [apply _|]. intros w a c [Hi He].
    destruct (update_models _ _ _) as [ms k] eqn:Hu. intros [= _ <-].
    apply (f_equal fst) in Hu. cbn in Hu. subst ms.
    apply (still_excluded_write _ _ _ _ _ (aw_calls w)); [apply update_models_ids, Hi|lia|by apply excluded_update].
  - intros id. apply runs_transaction; [apply _|]. intros w ex c Hw [= <- <-].
    split; [apply stable_bump; by destruct w|]. intros n Hn [= -> -> ->]. apply Hn.
    destruct Hw as [_ [(m & Hm & Hnm) Ha]]. apply list_elem_of_fmap. exists m.
    pose proof (Ha m Hm Hnm) as Hx. unfold named in Hnm. apply andb_true_iff in Hnm as [Ho Hnm].
    case_bool_decide; [|done]. split; [done|]. apply list_elem_of_In, filter_In.
    split; [by apply list_elem_of_In|]. by rewrite Ho, Hx.
Qed.

(** A request that may bring the model back, or remove its provider. *)
Definition may_revive (ws p : Uuid) (name : str) (r : AdminRequest) : Prop :=
  match r with
  | AAddModel ctx id n => (jc_workspace_id ctx, id, trim n) = (ws, p, name)
  | ADelete _ id => id = p
  | _ => False
  end.

Fixpoint run_requests (rs : list AdminRequest) (w : World) : World :=
  match rs with [] => w | r :: rs' => run_requests rs' (handle r w).2 end.

Lemma run_requests_excluded ws p name rs w :
  Forall (fun r => ~ may_revive ws p name r) rs ->
  still_excluded ws p name w -> still_excluded ws p name (run_requests rs w).
Proof.
  intros Hrs. revert w. induction Hrs as [|r rs Hr Hrs IH]; intros w Hw; cbn [run_requests]; [done|].
  apply IH. assert (Hk : keeps (still_excluded ws p name) (handle r)).
  { eapply (handle_keeps _ (jc_workspace_id (ctx_of r))); [apply excluded_repo|done|]. destruct r; try done. }
  specialize (Hk w Hw). by destruct (handle r w) as [[] w'].
Qed.

(** C21: A model an administrator removed stays removed.  Whatever requests of
    whatever workspaces follow (credential rotations with their automatic
    sync, explicit syncs, other deletions), whatever the upstream lists and
    whichever calls fail, a removed model is listed again only after someone
    adds it by name to that provider, or the provider itself is deleted. *)
Theorem removed_models_stay_removed ws p name rs w l w' :
  ids_ok md_id (aw_calls w) (ct_models (aw_state w)) ->
  excluded ws p name (ct_models (aw_state w)) ->
  Forall (fun r => ~ may_revive ws p name r) rs ->
  list_models_for_provider ws p (run_requests rs w) = (Ok l, w') ->
  excluded ws p name (ct_models (aw_state (run_requests rs w))) /\ name ∉ md_name <$> l.
Proof.
  intros Hi He Hrs Hl. destruct (run_requests_excluded ws p name rs w Hrs (conj Hi He)) as [_ He'].
  split; [done|]. unfold list_models_for_provider, reading, transaction in Hl.
  destruct (tx_failure _); [done|]. injection Hl as <- _. destruct He' as [_ Ha].
  intros (m & -> & Hm)%list_elem_of_fmap. unfold by_name in Hm. rewrite sort_by_perm in Hm.
  apply list_elem_of_In, filter_In in Hm as [Hm [Ho Hx]%andb_true_iff].
  rewrite (Ha m) in Hx; [done|by apply list_elem_of_In|]. unfold named. rewrite Ho. by rewrite bool_decide_eq_true_2.
Qed.

(** ** Every change of a provider is on record *)

(** A provider without its credential, of which only the presence is left. *)
Definition hide (p : ProviderRecord) : ProviderRecord := {|
  pv_id := pv_id p; pv_workspace_id := pv_workspace_id p; pv_name := pv_name p;
  pv_provider_type := pv_provider_type p;
  pv_encrypted_credential := option_map (fun _ => []) (pv_encrypted_credential p);
  pv_created_at := pv_created_at p; pv_updated_at := pv_updated_at p; pv_config := pv_config p |}.
Definition hide_change (c : option (option str)) : option (option str) :=
  option_map (option_map (fun _ : str => [] : str)) c.

Definition created_entry (p : ProviderRecord) : AdminAuditEntry :=
  with_detail (on_object ProviderCredentialCreated (pv_id p) (Some (pv_name p)))
    (Object [($"provider_type", VString (pv_provider_type p));
             ($"credential_present", Bool (bool_decide (is_Some (pv_encrypted_credential p))))]).
Definition deleted_entry (p : ProviderRecord) : AdminAuditEntry :=
  with_detail (on_object ProviderCredentialDeleted (pv_id p) (Some (pv_name p)))
    (Object [($"provider_type", VString (pv_provider_type p))]).

(** What one transaction of a workspace may do to the catalogue. *)
Inductive catalogue_step (ws : Uuid) (c : Catalogue) : Catalogue -> Prop :=
  | step_created p actor :
      aa_workspace_id actor = ws -> pv_workspace_id p = ws ->
      catalogue_step ws c {|
        ct_providers := ct_providers c ++ [p]; ct_models := ct_models c;
        ct_audit := ct_audit c ++ [audit_row actor (created_entry (hide p))] |}
  | step_updated old new change actor :
      aa_workspace_id actor = ws -> old ∈ ct_providers c -> own_provider ws (pv_id old) old = true ->
      pv_id new = pv_id old -> pv_workspace_id new = ws ->
      catalogue_step ws c {|
        ct_providers := (fun p => if own_provider ws (pv_id old) p then new else p) <$> ct_providers c;
        ct_models := ct_models c;
        ct_audit := ct_audit c ++ [audit_row actor (update_entry (hide old) (hide new) (hide_change change))] |}
  | step_deleted old actor :
      aa_workspace_id actor = ws -> old ∈ ct_providers c -> own_provider ws (pv_id old) old = true ->
      catalogue_step ws c {|
        ct_providers := List.filter (fun p => negb (own_provider ws (pv_id old) p)) (ct_providers c);
        ct_models := List.filter (fun m => negb (md_provider_id m =? pv_id old)%N) (ct_models c);
        ct_audit := ct_audit c ++ [audit_row actor (deleted_entry (hide old))] |}
  | step_models ms : catalogue_step ws c (set_models ms c).

Definition reached (ws : Uuid) (c0 : Catalogue) (w : World) : Prop :=
  rtc (catalogue_step ws) c0 (aw_state w).

#[local] Instance reached_stable ws c0 : Stable (reached ws c0).
Proof. by split; [intros w Hw|intros w calls Hw]. Qed.

Lemma reached_step ws c0 c w : reached ws c0 w -> catalogue_step ws (aw_state w) c ->
  reached ws c0 (bump (set_state c w)).
Proof. intros Hr Hs. by eapply rtc_r. Qed.

Lemma update_entry_hide old new change :
  update_entry old new change = update_entry (hide old) (hide new) (hide_change change).
Proof. unfold update_entry. by destruct change as [[]|]. Qed.

Lemma own_provider_inv ws id p : own_provider ws id p = true -> pv_id p = id /\ pv_workspace_id p = ws.
Proof. unfold own_provider. lia. Qed.

Lemma reached_repo ws c0 : repo_keeps (reached ws c0) ws (fun _ _ => True) (fun _ => False).
Proof.
  split.
  - intros name ty cred cfg actor Ha. apply runs_transaction; [apply _|]. intros w a c Hw [= _ <-].
    eapply reached_step; [done|].
    set (p := {| pv_id := _ |}). replace (bool_decide (is_Some cred))
      with (bool_decide (is_Some (pv_encrypted_credential (hide p)))) by (by destruct cred).
    by apply (step_created ws (aw_state w) p actor).
  - intros id name ty cred cfg actor Ha. apply runs_transaction; [apply _|]. intros w a c Hw.
    destruct (List.find _ _) as [old|] eqn:Hf; [|done]. apply find_elem in Hf as [Hin Ho].
    intros [= _ <-]. eapply reached_step; [done|]. rewrite update_entry_hide.
    pose proof (own_provider_inv _ _ _ Ho) as [<- Hws]. by apply step_updated.
  - intros id actor _ Ha. apply runs_transaction; [apply _|]. intros w a c Hw.
    destruct (List.find _ _) as [old|] eqn:Hf; [|done]. apply find_elem in Hf as [Hin Ho].
    intros [= _ <-]. eapply reached_step; [done|].
    pose proof (own_provider_inv _ _ _ Ho) as [<- Hws]. by apply (step_deleted ws (aw_state w) old actor).
  - intros id name _. apply runs_transaction; [apply _|]. intros w a c Hw. destruct (negb _); [done|].
    destruct (List.find _ _) as [row|].
    + destruct (md_excluded row); intros [= _ <-]; [|apply stable_bump; by destruct w].
      eapply reached_step; [done|]. apply step_models.
    + intros [= _ <-]. eapply reached_step; [done|]. apply step_models.
  - intros id name. apply keeps_bind; [|intros k; destruct (k =? 0); [apply keeps_result|apply keeps_ret]].
    apply runs_transaction; [apply _|]. intros w a c Hw.
    destruct (update_models _ _ _) as [ms k]. intros [= _ <-]. eapply reached_step; [done|]. apply step_models.
  - intros id [|n names]; [apply keeps_ret|]. apply runs_transaction; [apply _|]. intros w a c Hw.
    destruct (update_models _ _ _) as [ms k]. intros [= _ <-]. eapply reached_step; [done|]. apply step_models.
  - intros id. apply runs_transaction; [apply _|]. intros w ex c Hw [= _ <-]. split; [|done].
    apply stable_bump. by destruct w.
Qed.

(** Every change of a provider is on record and the record holds no secret.
    Whatever request is handled and whichever calls fail, the catalogue it
    leaves is reached by transactions of the actor's workspace in each of which
    the creation, update or deletion of a provider appears together with its
    one row of the audit trail, written from the provider with its credential
    blanked out. *)
Theorem provider_changes_audited r w :
  rtc (catalogue_step (jc_workspace_id (ctx_of r))) (aw_state w) (aw_state (handle r w).2).
Proof.
  assert (Hk : keeps (reached (jc_workspace_id (ctx_of r)) (aw_state w)) (handle r)).
  { eapply (handle_keeps _ (jc_workspace_id (ctx_of r))); [apply reached_repo|done|]. destruct r; naive_solver. }
  specialize (Hk w (rtc_refl _ _)). by destruct (handle r w) as [[] w'].
Qed.

(** ** What a probe may reach *)

Definition screened (base : str) (o : Outbound ValidatedUrl) : Prop :=
  exists path v, hq_url (ob_request o) = base ++ path /\ ob_pinned o = Some v
    /\ validate_outbound_url lookup_host base (policy_from_env allow_private_env) = Ok v
    /\ Forall (fun sa => classify_ip sa.1 (allow_private_ranges (policy_from_env allow_private_env)) = None)
         (vu_addrs v).

Lemma validated_addrs base policy v :
  validate_outbound_url lookup_host base policy = Ok v ->
  Forall (fun sa => classify_ip sa.1 (allow_private_ranges policy) = None) (vu_addrs v).
Proof.
  unfold validate_outbound_url. destruct (parse_and_check_url base) as [u| |]; cbn [obind]; [|done..].
  destruct (url_host_str u) as [h|]; cbn [ok_or obind]; [|done]. destruct (_ || _); [done|].
  destruct (lookup_host _ _) as [[|sa addrs]| |]; [done| |done..].
  destruct (first_blocked (sa :: addrs) _) as [[addr reason]|] eqn:Hb; [done|]. intros [= <-].
  by apply first_blocked_None in Hb.
Qed.

Lemma fetch_calls what url headers pinned timeout n :
  (fetch_models what url headers pinned timeout n).2
  = [{| ob_request := get_request url headers timeout; ob_pinned := pinned; ob_deadline_ms := timeout |}].
Proof. done. Qed.

Lemma trim_end_byte_idemp c s : trim_end_byte c (trim_end_byte c s) = trim_end_byte c s.
Proof.
  unfold trim_end_byte. rewrite reverse_involutive. f_equal. generalize (reverse s). clear s. intros s.
  induction s as [|d s IH]; [done|]. cbn. case_bool_decide; [done|]. cbn. by rewrite bool_decide_eq_false_2.
Qed.

Lemma resolved_base_trimmed ty base_url :
  trim_end_byte "/" (resolved_base ty base_url) = resolved_base ty base_url.
Proof.
  assert (Hd : trim_end_byte "/" (default_base_url ty) = default_base_url ty).
  { unfold default_base_url. by repeat destruct (decide _). }
  unfold resolved_base. destruct base_url as [b|]; [|exact Hd].
  change (trim_end_byte "/" <$> Some b) with (Some (trim_end_byte "/" b)). pose proof (trim_end_byte_idemp "/" b) as Hi.
  destruct (trim_end_byte "/" b); [exact Hd|exact Hi].
Qed.

Lemma test_connection_screened ty key base_url region project n :
  eq_ignore_ascii_case ty $"vertex" = false ->
  length (test_connection ty key base_url region project n).2 <= 1
  /\ Forall (screened (resolved_base ty base_url)) (test_connection ty key base_url region project n).2.
Proof.
  intros Hv. unfold test_connection. rewrite Hv. destruct (bool_decide _); [split; [cbn; lia|constructor]|].
  destruct (bool_decide _); [split; [cbn; lia|constructor]|].
  destruct (validate_outbound_url _ _ _) as [v| |] eqn:Hval; [|split; [cbn; lia|constructor]..].
  destruct client_error; [split; [cbn; lia|constructor]|].
  assert (Hs : forall path hs d, screened (resolved_base ty base_url)
    {| ob_request := get_request (resolved_base ty base_url ++ path) hs d; ob_pinned := Some v; ob_deadline_ms := d |}).
  { intros path hs d. exists path, v. split_and!; [done|done|done|].
    by apply (validated_addrs (resolved_base ty base_url)). }
  unfold fetch_anthropic_models, fetch_openai_compat_models. rewrite resolved_base_trimmed.
  destruct (decide _); (split; [done|repeat constructor; apply Hs]).
Qed.

(** What [test_connection] adds to the calls made. *)
Lemma probe_screened ty key base_url region project w :
  eq_ignore_ascii_case ty $"vertex" = false ->
  exists calls, aw_sent (probe (test_connection ty key base_url region project) w).2 = aw_sent w ++ calls
    /\ length calls <= 1 /\ Forall (screened (resolved_base ty base_url)) calls.
Proof.
  intros Hv. pose proof (test_connection_screened ty key base_url region project (aw_calls w) Hv) as Hs.
  unfold probe, outbound, mbind, AdmM_bind.
  destruct (test_connection _ _ _ _ _ _) as [[t|] calls]; exists calls; done.
Qed.

Lemma stored_provider_found ctx id purpose w :
  runs (fun w' => aw_sent w' = aw_sent w /\ ct_providers (aw_state w') = ct_providers (aw_state w))
    (stored_provider ctx id purpose)
    (fun t w' => aw_sent w' = aw_sent w /\ t.1 ∈ ct_providers (aw_state w)
                 /\ own_provider (jc_workspace_id ctx) id t.1 = true)
    (fun w' => aw_sent w' = aw_sent w).
Proof.
  set (P := fun w' : World => aw_sent w' = aw_sent w /\ _).
  assert (Quiet P) by (by intros w' Hw').
  intros w0 Hw0. unfold stored_provider, list_providers, reading, transaction, mbind, AdmM_bind, admin_only, adm_result.
  destruct (require_role _ _) as [[]|e|]; [|apply Hw0..].
  destruct (tx_failure _); [apply Hw0|]. set (ps := newest_first _).
  destruct (List.find _ ps) as [p|] eqn:Hf; [|apply Hw0].
  apply find_elem in Hf as [Hin Hid]. unfold ps, newest_first in Hin. rewrite sort_by_perm in Hin.
  apply list_elem_of_In, filter_In in Hin as [Hin Hws].
  destruct (pv_encrypted_credential p) as [stored|]; [|apply Hw0]. set (w1 := bump _).
  assert (Hw1 : P w1) by (split; [apply Hw0|apply Hw0]).
  pose proof (decrypt_keeps P stored w1 Hw1) as Hd. revert Hd.
  destruct (decrypt_stored_credential stored w1) as [[plain|e|] w']; intros [Hh _]; [|exact Hh..].
  cbn. split; [exact Hh|]. destruct Hw0 as [_ Hc]. rewrite <- Hc. split; [by apply list_elem_of_In|].
  unfold own_provider. by rewrite Hid, Hws.
Qed.

(** The provider type and the address of the probe a request asks for. *)
Inductive probe_of (w : World) : AdminRequest -> str -> option str -> Prop :=
  | probe_unsaved ctx body : probe_of w (ATest ctx body) (tc_provider_type body) (tc_base_url body)
  | probe_stored ctx id p :
      p ∈ ct_providers (aw_state w) -> own_provider (jc_workspace_id ctx) id p = true ->
      probe_of w (ATestStored ctx id) (pv_provider_type p) None.

Lemma probe_screened_of r w ty key base_url region project w' :
  (forall ty base_url, probe_of w r ty base_url -> eq_ignore_ascii_case ty $"vertex" = false) ->
  probe_of w r ty base_url ->
  exists calls, aw_sent (probe (test_connection ty key base_url region project) w').2 = aw_sent w' ++ calls
    /\ (calls = [] \/ exists ty base_url, probe_of w r ty base_url
        /\ length calls = 1 /\ Forall (screened (resolved_base ty base_url)) calls).
Proof.
  intros Hv Hp. destruct (probe_screened ty key base_url region project w' (Hv _ _ Hp)) as (calls & He & Hl & Hs).
  exists calls. split; [done|]. destruct calls as [|c [|]]; [by left| |cbn in Hl; lia]. right. by exists ty, base_url.
Qed.

(** A credential probe reaches no internal address.  Testing a connection,
    before or after the provider is saved, makes at most one call, to a path of
    the provider's base address, through a client pinned to the addresses the
    egress guard resolved and admitted for that very address; when the guard
    refuses it, or nothing is found to test, no call is made at all. *)
Theorem probes_are_screened r w :
  match r with ATest _ _ | ATestStored _ _ => True | _ => False end ->
  (forall ty base_url, probe_of w r ty base_url -> eq_ignore_ascii_case ty $"vertex" = false) ->
  exists calls, aw_sent (handle r w).2 = aw_sent w ++ calls
    /\ (calls = [] \/ exists ty base_url, probe_of w r ty base_url
        /\ length calls = 1 /\ Forall (screened (resolved_base ty base_url)) calls).
Proof.
  intros Hr Hv. destruct r as [| | | | | | | |ctx body|ctx id|]; try done; cbn [handle]; rewrite forget_world.
  - unfold test_connection_unsaved, admin_only, adm_result, mbind, AdmM_bind.
    destruct (require_role _ _) as [[]|e|]; [|exists []; rewrite app_nil_r; auto..].
    eapply probe_screened_of; [done|]. constructor.
  - pose proof (stored_provider_found ctx id $"test" w w (conj eq_refl eq_refl)) as Hs. revert Hs.
    unfold test_connection_stored, mbind, AdmM_bind.
    destruct (stored_provider _ _ _ w) as [[[p plain]|e|] w'];
      [intros (<- & Hin & Ho)|intros Hw; exists []; rewrite app_nil_r; auto..].
    eapply probe_screened_of; [done|]. by constructor.
Qed.

(** The model listing of a sync asks nobody: it calls the address it is given. *)
Lemma sync_is_unscreened ty key base_url n b :
  trim key <> [] -> client_error = None -> trim_end_byte "/" base_url = b -> b <> [] ->
  to_lowercase ty <> $"anthropic" ->
  (list_upstream_models ty key (Some base_url) n).2 =
  [{| ob_request := get_request (b ++ $"/models") [($"authorization", $"Bearer " ++ key)] 15000;
      ob_pinned := None; ob_deadline_ms := 15000 |}].
Proof.
  intros Hk Hc <- Hb Ht. unfold list_upstream_models. rewrite bool_decide_eq_false_2, Hc by done.
  assert (resolved_base ty (Some base_url) = trim_end_byte "/" base_url) as ->.
  { unfold resolved_base. cbn. by destruct (trim_end_byte "/" base_url). }
  rewrite bool_decide_eq_false_2, decide_False by done. unfold fetch_openai_compat_models.
  by destruct (fetch_models _ _ _ _ _ _) eqn:Hf; apply (f_equal snd) in Hf; cbn in *.
Qed.

(** ** A removed model still answers *)

Lemma delete_keeps_serving ws p name w w1 :
  delete_model ws p name w = (Ok tt, w1) ->
  tx_failure (aw_calls w1) = None ->
  existsb (own_provider ws p) (ct_providers (aw_state w)) = true ->
  exists ts w2 t, resolve_model_targets ws name w1 = (Ok ts, w2) /\ t ∈ ts
    /\ mt_provider_id t = p /\ mt_model_name t = name.
Proof.
  unfold delete_model, mbind, AdmM_bind, transaction. destruct (tx_failure (aw_calls w)); [done|].
  destruct (update_models _ _ _) as [ms k] eqn:Hu. destruct (k =? 0) eqn:Hk; [done|].
  cbn. intros [= <-] Hnf Hp. cbn [aw_calls bump set_state] in Hnf.
  unfold resolve_model_targets, reading, transaction. cbn [aw_calls bump set_state]. rewrite Hnf.
  apply existsb_exists in Hp as (pr & Hpr & Ho). apply own_provider_inv in Ho as [<- <-].
  injection Hu as <- <-.
  destruct (List.filter _ (ct_models (aw_state w))) as [|m l] eqn:Hl; [done|].
  assert (Hm : m ∈ List.filter (fun m => named (pv_workspace_id pr) (pv_id pr) name m && negb (md_excluded m))
    (ct_models (aw_state w))) by (rewrite Hl; by left).
  apply list_elem_of_In, filter_In in Hm as [Hm [Hn Hx]%andb_true_iff].
  apply named_inv in Hn as (Hw & Hpid & Hname).
  eexists _, _, _. split; [reflexivity|]. split.
  - apply list_elem_of_fmap_2. rewrite sort_by_perm. apply list_elem_of_In, filter_In.
    split; [apply in_prod_iff; split; [|exact Hpr]|].
    + apply list_elem_of_In. apply list_elem_of_fmap. exists m. split; [reflexivity|]. by apply list_elem_of_In.
    + assert (Hn : named (pv_workspace_id pr) (pv_id pr) name m = true).
      { unfold named, of_provider. rewrite Hw, Hpid, Hname, !N.eqb_refl. by rewrite bool_decide_eq_true_2. }
      rewrite Hn, Hx. cbn. rewrite Hw, Hpid, Hname, !N.eqb_refl. by rewrite bool_decide_eq_true_2.
  - cbn. split; [done|]. by destruct (_ && _).
Qed.
End spec.

(** ** Concrete provider administration

    One workspace with one provider.  An administrator removes a model and
    syncs twice, probes a connection, and saves a base address that points at
    the metadata service. *)

Definition models_parse (text : str) : option Value :=
  if decide (text = $"{m}") then
    Some (Object [($"data", Array [Object [($"id", VString $"gpt-4o")]; Object [($"id", VString $"gpt-mini")];
                                   Object [($"id", VString $"text-embedding-3")]])])
  else None.

Definition models_http : HttpEnv := {|
  send _ _ := inl {| rs_status := 200%N; rs_pieces := [$"{m}"]; rs_read_error := None |};
  status_display n := show_N n;
  response_text r := Some (mjoin (rs_pieces r));
  json_parse := models_parse;
  json_error _ := $"expected value";
  elapsed_ms _ := 42%N |}.

Definition demo_probe : ProbeEnv := {|
  lookup_host := demo_lookup; allow_private_env := None; client_error := None |}.

Definition demo_admin : AdminEnv := {|
  tx_failure _ := None;
  fresh_id n := N.of_nat (1000 + n);
  now_at n := Z.of_nat n;
  actor_email _ _ := Ok (Some $"a@x") |}.

Definition demo_kms : KmsEnv := {|
  kms_seal _ s := inl s;
  kms_open _ s := inl s;
  utf8_error _ := [] |}.

Definition demo_base64 : Base64Env := {| b64url s := s; b64url_decode s := inl s |}.

Definition admin : JwtAuthContext := {|
  jc_user_id := 7; jc_workspace_id := 1; jc_role := Admin; jc_jti := []; jc_exp := 0 |}.

Definition saved_provider (config : Value) : ProviderRecord := {|
  pv_id := 2; pv_workspace_id := 1; pv_name := $"primary"; pv_provider_type := $"openai";
  pv_encrypted_credential := Some $"sk-1"; pv_created_at := 0; pv_updated_at := 0; pv_config := config |}.

Definition saved_model (id : N) (name : str) : ModelRecord := {|
  md_id := id; md_workspace_id := 1; md_provider_id := 2; md_name := name; md_created_at := 0;
  md_excluded := false |}.

Abbreviation World := (AdminWorld Catalogue (Outbound (@ValidatedUrl demo_url_env))).
Abbreviation demo_handle :=
  (@handle demo_url_env models_http demo_gcp demo_probe ascii_case_map demo_admin demo_kms demo_base64).
Abbreviation demo_requests :=
  (@run_requests demo_url_env models_http demo_gcp demo_probe ascii_case_map demo_admin demo_kms demo_base64).

Definition start (config : Value) : World := {|
  aw_state := {| ct_providers := [saved_provider config];
                     ct_models := [saved_model 10 $"gpt-4o"; saved_model 11 $"gpt-mini"]; ct_audit := [] |};
  aw_calls := 0; aw_sent := [] |}.

(** ** Removed, synced, rotated *)

Definition removed : World := Eval vm_compute in (demo_handle (ADeleteModel admin 2 $"gpt-4o") (start Null)).2.

Definition rotation : UpdateProviderRequest := {|
  up_name := None; up_provider_type := None; up_credential := Some $"sk-2"; up_config := None |}.

Definition later : list AdminRequest :=
  [ASync admin 2; AUpdate admin 2 rotation; AAddModel admin 2 $"gpt-5"; ASync admin 2].

Definition listed_later : list ModelRecord * World := Eval vm_compute in
  match @list_models_for_provider demo_url_env demo_admin 1 2 (demo_requests later removed) with
  | (Ok l, w) => (l, w)
  | (_, w) => ([], w)
  end.

Lemma demo_ids_inj j k : @fresh_id demo_admin j = @fresh_id demo_admin k -> j = k.
Proof. intros H. cbn in H. lia. Qed.

Lemma removed_ids : @ids_ok demo_admin _ md_id (aw_calls removed) (ct_models (aw_state removed)).
Proof.
  split.
  - apply (bool_decide_unpack _). vm_compute. exact I.
  - intros m j Hm _ Hj. unfold fresh_id, demo_admin in Hj.
    repeat (apply elem_of_cons in Hm as [->|Hm]; [cbn in Hj; lia|]). by apply not_elem_of_nil in Hm.
Qed.

Lemma removed_excluded : excluded 1 2 $"gpt-4o" (ct_models (aw_state removed)).
Proof.
  split.
  - eexists. split; [left|vm_compute; reflexivity].
  - intros m Hm. repeat (apply elem_of_cons in Hm as [->|Hm]; [vm_compute; tauto|]).
    by apply not_elem_of_nil in Hm.
Qed.

Lemma later_harmless : Forall (fun r => ~ may_revive 1 2 $"gpt-4o" r) later.
Proof. repeat constructor; intros H; try exact H. by apply (f_equal snd) in H. Qed.

Lemma listed_later_answer :
  @list_models_for_provider demo_url_env demo_admin 1 2 (demo_requests later removed)
  = (Ok listed_later.1, listed_later.2).
Proof. vm_compute. reflexivity. Qed.

Lemma removed_models_stay_removed_witness :
  (md_name <$> listed_later.1) = [$"gpt-5"; $"gpt-mini"]
  /\ $"gpt-4o" ∉ md_name <$> listed_later.1.
Proof.
  split; [vm_compute; reflexivity|].
  apply (@removed_models_stay_removed demo_url_env models_http demo_gcp demo_probe ascii_case_map demo_admin demo_kms demo_base64
    demo_ids_inj 1%N 2%N $"gpt-4o" later removed listed_later.1 listed_later.2
    removed_ids removed_excluded later_harmless listed_later_answer).
Defined.

(** ** A removed model still answers *)
Example removed_model_resolves :
  match @resolve_model_targets demo_url_env demo_admin 1 $"gpt-4o" removed with
  | (Ok [t], _) => mt_provider_id t = 2%N
  | _ => False
  end.
Proof. vm_compute. reflexivity. Qed.

(** ** Probes *)

Definition probe_body : TestConnectionRequest := {|
  tc_provider_type := $"openai"; tc_credential := $"sk-1"; tc_base_url := Some $"https://api/";
  tc_config := None |}.

Lemma probes_are_screened_witness :
  exists o, aw_sent (demo_handle (ATest admin probe_body) (start Null)).2 = [o]
    /\ @screened demo_url_env demo_probe $"https://api" o.
Proof.
  destruct (@probes_are_screened demo_url_env models_http demo_gcp demo_probe ascii_case_map demo_admin demo_kms demo_base64
    (ATest admin probe_body) (start Null)) as (calls & Hc & Hcalls).
  - exact I.
  - intros ty url Hp. inversion Hp; subst. vm_compute. reflexivity.
  - destruct Hcalls as [->|(ty & url & Hp & Hl & Hs)].
    + exfalso. apply (f_equal length) in Hc. vm_compute in Hc. discriminate.
    + inversion Hp; subst. destruct calls as [|o [|]]; try discriminate.
      exists o. split; [exact Hc|]. by apply Forall_inv in Hs.
Defined.

(** A saved base address is not screened when its models are listed. *)
Definition metadata_config : Value := Object [($"base_url", VString $"http://169.254.169.254")].

Example sync_reaches_metadata :
  (fun o => (hq_url (ob_request o), hq_headers (ob_request o), bool_decide (is_Some (ob_pinned o))))
    <$> aw_sent (demo_handle (ASync admin 2) (start metadata_config)).2
  = [($"http://169.254.169.254/models", [($"authorization", $"Bearer sk-1")], false)].
Proof. vm_compute. reflexivity. Qed.

(** The stored probe asks the default address, not the saved one. *)
Example stored_probe_ignores_config :
  (fun o => hq_url (ob_request o)) <$> aw_sent (demo_handle (ATestStored admin 2) (start metadata_config)).2
  = [$"https://api.openai.com/v1/models"].
Proof. vm_compute. reflexivity. Qed.
