(* ===== verification/PolicyAdmin.v ===== *)
(** * Administering policy rules

    db/policy_repo.rs and http/routes/dashboard/policy_rules.rs: the rules of
    every workspace with their audit trail, and the routes that change them.
    Handlers run in the world of [AdminTx]; what they send are the envelopes
    pushed to the queue of the indexing worker. *)

From S2P Require Import Prelude Rstr Json Types Providers Policy Roles AdminAudit Sessions AdminTx.
From S2P Require Import WorkerDb ExportJob.

(** A row of [policy_rules]: what the engine reads and its timestamps. *)
Record StoredRule : Type := {
  sr_rule : PolicyRuleRow;
  sr_created_at : Z;
  sr_updated_at : Z;
}.

Record RuleBook : Type := {
  rb_rules : list StoredRule;
  rb_audit : list AdminAuditRow;
}.

(** A message of [enqueue_task]: the queue and the envelope. *)
Definition QueuePush : Type := str * TaskEnvelope.

(** Whether the push at the [n]-th call is accepted. *)
Class QueueEnv := { push_accepted : nat -> bool }.

(** ** Rows *)

Definition own_rule (ws rule_id : Uuid) (r : StoredRule) : bool :=
  (id (sr_rule r) =? rule_id)%N && (workspace_id (sr_rule r) =? ws)%N.
Definition of_workspace (ws : Uuid) (r : StoredRule) : bool := (workspace_id (sr_rule r) =? ws)%N.

(** [ORDER BY priority ASC, id ASC] *)
Definition rule_leb (a b : StoredRule) : bool :=
  (priority (sr_rule a) <? priority (sr_rule b))%Z
  || ((priority (sr_rule a) =? priority (sr_rule b))%Z && (id (sr_rule a) <=? id (sr_rule b))%N).

Definition json_i32 (z : Z) : Value :=
  Number (if (0 <=? z)%Z then PosInt (Z.to_N z) else NegInt z).

Definition not_found_rule (rule_id : Uuid) : ApiError :=
  NotFound ($"policy rule " ++ show_uuid rule_id ++ $" not found").

(** The entries the repository writes. *)
Definition created_rule_entry (r : PolicyRuleRow) : AdminAuditEntry :=
  with_detail (on_object PolicyRuleCreated (id r) (Some (name r)))
    (Object [($"priority", json_i32 (priority r)); ($"rule_action", VString (action r));
             ($"enabled", Bool (enabled r)); ($"dry_run", Bool (dry_run r));
             ($"conditions_present",
              Bool (match conditions r with Array [] => false | _ => true end))]).

Definition rule_changes (before after : PolicyRuleRow) : list (str * Value) :=
  let m1 := changed_field [] $"name" (VString (name before)) (VString (name after)) in
  let m2 := changed_field m1 $"priority" (json_i32 (priority before)) (json_i32 (priority after)) in
  let m3 := changed_field m2 $"rule_action" (VString (action before)) (VString (action after)) in
  let m4 := changed_field m3 $"enabled" (Bool (enabled before)) (Bool (enabled after)) in
  changed_field m4 $"dry_run" (Bool (dry_run before)) (Bool (dry_run after)).

Definition updated_rule_entry (before after : PolicyRuleRow) : AdminAuditEntry :=
  with_detail (on_object PolicyRuleUpdated (id after) (Some (name after)))
    (Object [($"changed", Object (rule_changes before after));
             ($"conditions_changed", Bool (negb (value_eqb (conditions before) (conditions after))));
             ($"action_params_changed",
              Bool (negb (value_eqb (action_params before) (action_params after))))]).

Definition deleted_rule_entry (r : PolicyRuleRow) : AdminAuditEntry :=
  with_detail (on_object PolicyRuleDeleted (id r) (Some (name r)))
    (Object [($"priority", json_i32 (priority r)); ($"rule_action", VString (action r));
             ($"enabled", Bool (enabled r)); ($"dry_run", Bool (dry_run r))]).

Definition flag_entry (act : AdminAuditAction) (r : PolicyRuleRow) (was now : bool) : AdminAuditEntry :=
  with_detail (on_object act (id r) (Some (name r))) (Object [($"before", Bool was); ($"after", Bool now)]).

Definition with_enabled (b : bool) (r : PolicyRuleRow) : PolicyRuleRow := {|
  id := id r; workspace_id := workspace_id r; name := name r; priority := priority r;
  conditions := conditions r; action := action r; action_params := action_params r;
  enabled := b; dry_run := dry_run r |}.
Definition with_dry_run (b : bool) (r : PolicyRuleRow) : PolicyRuleRow := {|
  id := id r; workspace_id := workspace_id r; name := name r; priority := priority r;
  conditions := conditions r; action := action r; action_params := action_params r;
  enabled := enabled r; dry_run := b |}.

Section admin.
Context `{AdminEnv} `{QueueEnv} (regex_new : str -> option (str -> bool)).

#[local] Abbreviation Adm := (AdmM RuleBook QueuePush).

(** ** The repository *)

Definition repo_list_rules (ws : Uuid) : Adm (list StoredRule) :=
  reading (fun b => sort_by rule_leb (List.filter (of_workspace ws) (rb_rules b))).

Definition repo_get_rule (ws rule_id : Uuid) : Adm StoredRule := transaction (fun _ b =>
  match List.find (own_rule ws rule_id) (rb_rules b) with
  | Some r => (Ok r, b)
  | None => (Err (not_found_rule rule_id), b)
  end).

(** The fields a create or an update writes. *)
Definition rule_fields (ws rule_id : Uuid) (name : str) (priority : Z) (conditions : Value) (action : str)
    (action_params : Value) (enabled dry_run : bool) : PolicyRuleRow := {|
  Policy.id := rule_id; Policy.workspace_id := ws; Policy.name := name; Policy.priority := priority;
  Policy.conditions := conditions; Policy.action := action; Policy.action_params := action_params;
  Policy.enabled := enabled; Policy.dry_run := dry_run |}.

Definition repo_create_rule (ws : Uuid) (name : str) (priority : Z) (conditions : Value) (action : str)
    (action_params : Value) (enabled dry_run : bool) (actor : AdminActor) : Adm StoredRule :=
  transaction (fun n b =>
    let rule := rule_fields ws (fresh_id n) name priority conditions action action_params enabled dry_run in
    let row := {| sr_rule := rule; sr_created_at := now_at n; sr_updated_at := now_at n |} in
    (Ok row, {| rb_rules := rb_rules b ++ [row];
                rb_audit := audit_write actor (created_rule_entry rule) (rb_audit b) |})).

(** An [UPDATE] of one row, and the entry written with it. *)
Definition change_rule (ws rule_id : Uuid) (f : PolicyRuleRow -> PolicyRuleRow)
    (entry : PolicyRuleRow -> PolicyRuleRow -> AdminAuditEntry) (actor : AdminActor) : Adm StoredRule :=
  transaction (fun n b =>
    match List.find (own_rule ws rule_id) (rb_rules b) with
    | None => (Err (not_found_rule rule_id), b)
    | Some before =>
        let row := {| sr_rule := f (sr_rule before); sr_created_at := sr_created_at before;
                      sr_updated_at := now_at n |} in
        (Ok row, {| rb_rules := (fun r => if own_rule ws rule_id r then row else r) <$> rb_rules b;
                    rb_audit := audit_write actor (entry (sr_rule before) (sr_rule row)) (rb_audit b) |})
    end).

Definition repo_update_rule (ws rule_id : Uuid) (name : str) (priority : Z) (conditions : Value)
    (action : str) (action_params : Value) (enabled dry_run : bool) (actor : AdminActor) : Adm StoredRule :=
  change_rule ws rule_id
    (fun r => rule_fields ws rule_id name priority conditions action action_params enabled dry_run)
    updated_rule_entry actor.

Definition set_enabled (ws rule_id : Uuid) (b : bool) (actor : AdminActor) : Adm StoredRule :=
  change_rule ws rule_id (with_enabled b)
    (fun before after => flag_entry PolicyRuleEnabledChanged after (Policy.enabled before) b) actor.

Definition set_dry_run (ws rule_id : Uuid) (b : bool) (actor : AdminActor) : Adm StoredRule :=
  change_rule ws rule_id (with_dry_run b)
    (fun before after => flag_entry PolicyRuleDryRunChanged after (Policy.dry_run before) b) actor.

Definition repo_delete_rule (ws rule_id : Uuid) (actor : AdminActor) : Adm unit := transaction (fun _ b =>
  match List.find (own_rule ws rule_id) (rb_rules b) with
  | None => (Err (not_found_rule rule_id), b)
  | Some r =>
      (Ok tt, {| rb_rules := List.filter (fun r => negb (own_rule ws rule_id r)) (rb_rules b);
                 rb_audit := audit_write actor (deleted_rule_entry (sr_rule r)) (rb_audit b) |})
  end).

Definition takes_priority (ws : Uuid) (priority : Z) (exclude_id : option Uuid) (r : StoredRule) : bool :=
  of_workspace ws r && (Policy.priority (sr_rule r) =? priority)%Z
  && match exclude_id with Some x => negb (id (sr_rule r) =? x)%N | None => true end.

Definition priority_in_use (ws : Uuid) (priority : Z) (exclude_id : option Uuid) : Adm bool :=
  reading (fun b => existsb (takes_priority ws priority exclude_id) (rb_rules b)).

(** ** The handlers *)

Record PolicyRuleResponse : Type := {
  pl_id : Uuid;
  pl_workspace_id : Uuid;
  pl_name : str;
  pl_priority : Z;
  pl_conditions : Value;
  pl_action : str;
  pl_action_params : Value;
  pl_enabled : bool;
  pl_dry_run : bool;
  pl_created_at : Z;
  pl_updated_at : Z;
}.

Definition into_response (row : StoredRule) : PolicyRuleResponse := {|
  pl_id := id (sr_rule row); pl_workspace_id := workspace_id (sr_rule row); pl_name := name (sr_rule row);
  pl_priority := priority (sr_rule row); pl_conditions := conditions (sr_rule row);
  pl_action := action (sr_rule row); pl_action_params := action_params (sr_rule row);
  pl_enabled := enabled (sr_rule row); pl_dry_run := dry_run (sr_rule row);
  pl_created_at := sr_created_at row; pl_updated_at := sr_updated_at row |}.

(** The bodies of the creating and of the replacing request are alike. *)
Record RuleRequest : Type := {
  rr_name : str;
  rr_priority : Z;
  rr_conditions : option Value;
  rr_action : str;
  rr_action_params : option Value;
  rr_enabled : option bool;
  rr_dry_run : option bool;
}.

(** The answer of the two handlers that may meet a taken priority: the 409
    with its own body is [PriorityConflict]. *)
Inductive RuleAnswer : Type :=
  | Saved (r : PolicyRuleResponse)
  | PriorityConflict.

Definition list_rules (ctx : JwtAuthContext) : Adm (list PolicyRuleResponse) :=
  rows ← repo_list_rules (jc_workspace_id ctx); mret (into_response <$> rows).

Definition get_rule (ctx : JwtAuthContext) (rule_id : Uuid) : Adm PolicyRuleResponse :=
  row ← repo_get_rule (jc_workspace_id ctx) rule_id; mret (into_response row).

Definition index_envelope (rule_id : Uuid) (rule_name : str) (ws : Uuid) (now : Z) : TaskEnvelope :=
  TaskEnvelope_new INDEX_POLICY_RULE
    (Object [($"rule_id", VString (show_uuid rule_id)); ($"condition_text", VString rule_name)]) ws now.

(** A failed push is logged and forgotten. *)
Definition enqueue_index_task (rule_id : Uuid) (rule_name : str) (ws : Uuid) : Adm unit := outbound (fun n =>
  (tt, if push_accepted n
       then [(QUEUE_POLICY_INDEX, index_envelope rule_id rule_name ws (now_at n))] else [])).

(** The rest of a save once the priority is known to be free. *)
Definition save_rule (body : RuleRequest)
    (write : Value -> Value -> bool -> bool -> Adm StoredRule) (ws : Uuid) : Adm RuleAnswer :=
  let conds := default (Array []) (rr_conditions body) in
  adm_result (validate_conditions regex_new conds);;
  row ← write conds (default (Object []) (rr_action_params body)) (default true (rr_enabled body))
          (default false (rr_dry_run body));
  let response := into_response row in
  enqueue_index_task (pl_id response) (pl_name response) ws;;
  mret (Saved response).

(** The actor is looked up where it is written; the handlers look it up before
    they check the priority, which changes nothing but the order of reads. *)
Definition create_rule (ctx : JwtAuthContext) (body : RuleRequest) : Adm RuleAnswer :=
  admin_only ctx;;
  adm_result (validate_action (rr_action body));;
  let ws := jc_workspace_id ctx in
  taken ← priority_in_use ws (rr_priority body) None;
  if taken : bool then mret PriorityConflict
  else save_rule body (fun conds params on dry =>
         repo_create_rule ws (rr_name body) (rr_priority body) conds (rr_action body) params on dry
           (actor_of ctx)) ws.

Definition update_rule (ctx : JwtAuthContext) (rule_id : Uuid) (body : RuleRequest) : Adm RuleAnswer :=
  admin_only ctx;;
  adm_result (validate_action (rr_action body));;
  let ws := jc_workspace_id ctx in
  taken ← priority_in_use ws (rr_priority body) (Some rule_id);
  if taken : bool then mret PriorityConflict
  else save_rule body (fun conds params on dry =>
         repo_update_rule ws rule_id (rr_name body) (rr_priority body) conds (rr_action body) params on dry
           (actor_of ctx)) ws.

Definition delete_rule (ctx : JwtAuthContext) (rule_id : Uuid) : Adm unit :=
  admin_only ctx;; repo_delete_rule (jc_workspace_id ctx) rule_id (actor_of ctx).

Definition toggle_enabled (ctx : JwtAuthContext) (rule_id : Uuid) (b : bool) : Adm PolicyRuleResponse :=
  admin_only ctx;;
  row ← set_enabled (jc_workspace_id ctx) rule_id b (actor_of ctx); mret (into_response row).

Definition toggle_dry_run (ctx : JwtAuthContext) (rule_id : Uuid) (b : bool) : Adm PolicyRuleResponse :=
  admin_only ctx;;
  row ← set_dry_run (jc_workspace_id ctx) rule_id b (actor_of ctx); mret (into_response row).

(** [PolicyRepository::list_enabled_rules], which the request path reads. *)
Definition repo_list_enabled_rules (ws : Uuid) : Adm (list PolicyRuleRow) :=
  rows ← repo_list_rules ws; adm_result (list_enabled_rules (Ok (sr_rule <$> rows))).
End admin.
