(* ===== verification/PolicyAdminSpec.v ===== *)
(** * What the policy-rule routes guarantee *)

From S2P Require Import Prelude Rstr Json Types Redaction Policy PolicySpec Roles AdminAudit Sessions.
From S2P Require Import AdminTx PolicyAdmin.

Section spec.
Context `{CaseMap} `{AdminEnv} `{QueueEnv} (regex_new : str -> option (str -> bool)).

Context (fresh_inj : forall j k, fresh_id j = fresh_id k -> j = k).

(** ** Requests *)

Inductive RuleRoute : Type :=
  | RList (ctx : JwtAuthContext)
  | RGet (ctx : JwtAuthContext) (rule_id : Uuid)
  | RCreate (ctx : JwtAuthContext) (body : RuleRequest)
  | RUpdate (ctx : JwtAuthContext) (rule_id : Uuid) (body : RuleRequest)
  | RDelete (ctx : JwtAuthContext) (rule_id : Uuid)
  | REnabled (ctx : JwtAuthContext) (rule_id : Uuid) (b : bool)
  | RDryRun (ctx : JwtAuthContext) (rule_id : Uuid) (b : bool).

#[local] Abbreviation Adm := (AdmM RuleBook QueuePush).
#[local] Abbreviation World := (AdminWorld RuleBook QueuePush).

Definition handle_rule (r : RuleRoute) : Adm unit :=
  match r with
  | RList ctx => forget (list_rules ctx)
  | RGet ctx id => forget (get_rule ctx id)
  | RCreate ctx body => forget (create_rule regex_new ctx body)
  | RUpdate ctx id body => forget (update_rule regex_new ctx id body)
  | RDelete ctx id => delete_rule ctx id
  | REnabled ctx id b => forget (toggle_enabled ctx id b)
  | RDryRun ctx id b => forget (toggle_dry_run ctx id b)
  end.

Definition route_ctx (r : RuleRoute) : JwtAuthContext :=
  match r with
  | RList ctx | RGet ctx _ | RCreate ctx _ | RUpdate ctx _ _ | RDelete ctx _ | REnabled ctx _ _
  | RDryRun ctx _ _ => ctx
  end.

(** A history: the requests of all workspaces, one after another. *)
Definition run_rules (rs : list RuleRoute) (w : World) : World :=
  foldl (fun w r => (handle_rule r w).2) w rs.

(** ** The transactions a handler is made of *)

(** A rule the engine can honour. *)
Definition rule_ok (r : PolicyRuleRow) : Prop :=
  recognised (action r) = true /\ validate_conditions regex_new (conditions r) = Ok tt.

(** What an audit entry says of a change. *)
Inductive records (before after : PolicyRuleRow) : AdminAuditEntry -> Prop :=
  | records_update : records before after (updated_rule_entry before after)
  | records_enabled b : after = with_enabled b before ->
      records before after (flag_entry PolicyRuleEnabledChanged after (enabled before) b)
  | records_dry_run b : after = with_dry_run b before ->
      records before after (flag_entry PolicyRuleDryRunChanged after (dry_run before) b).

(** One call of workspace [ws], from the number of calls made and the rules to
    the next. *)
Inductive rule_step (ws : Uuid) : nat * RuleBook -> nat * RuleBook -> Prop :=
  | step_call n b : rule_step ws (n, b) (S n, b)
  | step_created n b row actor :
      rule_ok (sr_rule row) -> id (sr_rule row) = fresh_id n -> workspace_id (sr_rule row) = ws ->
      aa_workspace_id actor = ws ->
      rule_step ws (n, b) (S n, {| rb_rules := rb_rules b ++ [row];
        rb_audit := rb_audit b ++ [audit_row actor (created_rule_entry (sr_rule row))] |})
  | step_changed n b before row actor e :
      before ∈ rb_rules b -> of_workspace ws before = true ->
      id (sr_rule row) = id (sr_rule before) -> workspace_id (sr_rule row) = ws ->
      (rule_ok (sr_rule before) -> rule_ok (sr_rule row)) ->
      records (sr_rule before) (sr_rule row) e -> aa_workspace_id actor = ws ->
      rule_step ws (n, b) (S n, {|
        rb_rules := (fun r => if own_rule ws (id (sr_rule before)) r then row else r) <$> rb_rules b;
        rb_audit := rb_audit b ++ [audit_row actor e] |})
  | step_deleted n b before actor :
      before ∈ rb_rules b -> of_workspace ws before = true -> aa_workspace_id actor = ws ->
      rule_step ws (n, b) (S n, {|
        rb_rules := List.filter (fun r => negb (own_rule ws (id (sr_rule before)) r)) (rb_rules b);
        rb_audit := rb_audit b ++ [audit_row actor (deleted_rule_entry (sr_rule before))] |}).

Definition at_ (w : World) : nat * RuleBook := (aw_calls w, aw_state w).

Definition stepping (ws : Uuid) (c0 : nat * RuleBook) (w : World) : Prop := rtc (rule_step ws) c0 (at_ w).

#[local] Instance stepping_stable ws c0 : Stable (stepping ws c0).
Proof.
  split; [|by intros w calls Hw]. intros w Hw. eapply rtc_r; [exact Hw|]. apply step_call.
Qed.

Lemma stepping_step ws c0 w b :
  stepping ws c0 w -> rule_step ws (at_ w) (S (aw_calls w), b) -> stepping ws c0 (bump (set_state b w)).
Proof. intros Hw Hs. by eapply rtc_r. Qed.

Lemma own_rule_inv ws id r : own_rule ws id r = true -> Policy.id (sr_rule r) = id /\ workspace_id (sr_rule r) = ws.
Proof. unfold own_rule. lia. Qed.

Lemma change_rule_steps ws c0 rule_id f entry actor :
  aa_workspace_id actor = ws ->
  (forall r, id r = rule_id -> workspace_id r = ws -> id (f r) = rule_id /\ workspace_id (f r) = ws
     /\ (rule_ok r -> rule_ok (f r)) /\ records r (f r) (entry r (f r))) ->
  keeps (stepping ws c0) (change_rule ws rule_id f entry actor).
Proof.
  intros Ha Hf. apply runs_transaction; [apply _|]. intros w a b Hw.
  destruct (List.find _ _) as [before|] eqn:Hb; [|done]. apply find_elem in Hb as [Hin Ho].
  intros [= _ <-]. eapply stepping_step; [done|].
  pose proof (own_rule_inv _ _ _ Ho) as [<- Hws].
  destruct (Hf (sr_rule before) eq_refl Hws) as (Hi & Hw' & Hok & Hr).
  apply step_changed; try done. unfold of_workspace. lia.
Qed.

Lemma enqueue_keeps (P : World -> Prop) `{!Stable P} id name ws : keeps P (enqueue_index_task id name ws).
Proof. apply keeps_outbound, _. Qed.

Lemma save_rule_steps ws c0 body write :
  (forall conds params on dry, validate_conditions regex_new conds = Ok tt ->
     keeps (stepping ws c0) (write conds params on dry)) ->
  keeps (stepping ws c0) (save_rule regex_new body write ws).
Proof.
  intros Hw. unfold save_rule. set (conds := default _ _).
  eapply runs_bind; [apply (runs_result _ _ (fun _ w => stepping ws c0 w /\ validate_conditions regex_new conds = Ok tt))|].
  { by intros [] w Hv Hs. }
  intros _ w [Hs Hv]. revert w Hs. apply keeps_bind; [by apply Hw|]. intros row.
  apply keeps_bind; [apply enqueue_keeps, _|]. intros _. apply keeps_ret.
Qed.

Lemma recognised_valid act : validate_action act = Ok tt -> recognised act = true.
Proof. unfold validate_action, recognised. by case_bool_decide. Qed.

(** Past the checks that come first. *)
Lemma guarded_steps {A} ws c0 ctx act prio excl (k : bool -> Adm A) :
  (forall taken, validate_action act = Ok tt -> keeps (stepping ws c0) (k taken)) ->
  keeps (stepping ws c0)
    (admin_only ctx;; adm_result (validate_action act);; taken ← priority_in_use ws prio excl; k taken).
Proof.
  intros Hk. apply keeps_bind; [apply keeps_result|]. intros _.
  eapply runs_bind; [apply (runs_result _ _ (fun _ w => stepping ws c0 w /\ validate_action act = Ok tt))|].
  { by intros [] w Hv Hs. }
  intros _ w [Hs Hv]. revert w Hs. apply keeps_bind; [apply keeps_reading, _|]. intros taken. by apply Hk.
Qed.

Lemma handle_steps r w :
  rtc (rule_step (jc_workspace_id (route_ctx r))) (at_ w) (at_ (handle_rule r w).2).
Proof.
  set (ws := jc_workspace_id (route_ctx r)). assert (Hk : keeps (stepping ws (at_ w)) (handle_rule r)).
  { destruct r as [ctx|ctx rid|ctx body|ctx rid body|ctx rid|ctx rid b|ctx rid b]; cbn [handle_rule route_ctx] in *;
      try apply keeps_forget; unfold list_rules, get_rule, create_rule, update_rule, delete_rule,
        toggle_enabled, toggle_dry_run; fold ws.
    - apply keeps_bind; [apply keeps_reading, _|]. intros. apply keeps_ret.
    - apply keeps_bind; [|intros; apply keeps_ret]. apply runs_transaction; [apply _|]. intros w' a b Hw.
      destruct (List.find _ _); [|done]. intros [= _ <-]. apply stable_bump. by destruct w'.
    - apply guarded_steps. intros [] Hv; [apply keeps_ret|]. apply save_rule_steps. intros conds params on dry Hc.
      apply runs_transaction; [apply _|]. intros w' a b Hw [= _ <-]. eapply stepping_step; [done|].
      set (row := {| sr_rule := _ |}). apply (step_created _ _ _ row); try done.
      split; [by apply recognised_valid|done].
    - apply guarded_steps. intros [] Hv; [apply keeps_ret|]. apply save_rule_steps. intros conds params on dry Hc.
      apply change_rule_steps; [done|]. intros r <- Hw. split_and!; try done; [|constructor].
      intros _. split; [by apply recognised_valid|done].
    - apply keeps_bind; [apply keeps_result|]. intros _. apply runs_transaction; [apply _|]. intros w' a b Hw.
      destruct (List.find _ _) as [before|] eqn:Hb; [|done]. apply find_elem in Hb as [Hin Ho].
      intros [= _ <-]. eapply stepping_step; [done|]. pose proof (own_rule_inv _ _ _ Ho) as [<- Hws].
      apply step_deleted; try done. unfold of_workspace. lia.
    - apply keeps_bind; [apply keeps_result|]. intros _. apply keeps_bind; [|intros; apply keeps_ret].
      apply change_rule_steps; [done|]. intros r <- Hw. split_and!; try done. by constructor.
    - apply keeps_bind; [apply keeps_result|]. intros _. apply keeps_bind; [|intros; apply keeps_ret].
      apply change_rule_steps; [done|]. intros r <- Hw. split_and!; try done. by constructor. }
  specialize (Hk w (rtc_refl _ _)). by destruct (handle_rule r w) as [[] w'].
Qed.
(** ** What every history keeps *)

Definition rule_key (r : StoredRule) : Uuid := id (sr_rule r).
Definition book_ok (b : RuleBook) : Prop := Forall (fun r => rule_ok (sr_rule r)) (rb_rules b).
Definition keys_ok (c : nat * RuleBook) : Prop := ids_ok rule_key c.1 (rb_rules c.2).

Lemma steps_keep (I : nat * RuleBook -> Prop) :
  (forall ws c c', rule_step ws c c' -> I c -> I c') ->
  forall rs w, I (at_ w) -> I (at_ (run_rules rs w)).
Proof.
  intros Hs rs. induction rs as [|r rs IH]; intros w Hw; [done|]. apply IH.
  pose proof (handle_steps r w) as Hr. induction Hr; eauto.
Qed.

Lemma step_keys ws c c' : rule_step ws c c' -> keys_ok c -> keys_ok c'.
Proof.
  unfold keys_ok. destruct 1 as [n b|n b row actor _ Hi _ _|n b before row actor e Hin Hws Hi _ _ _ _|n b before actor _ _ _];
    cbn [fst snd rb_rules]; intros Hk.
  - by eapply ids_ok_mono; [|done]; lia.
  - by apply ids_ok_add.
  - eapply ids_ok_mono; [|apply ids_ok_fmap; [|exact Hk]]; [lia|]. intros r _.
    destruct (own_rule _ _ r) eqn:Ho; [|done]. apply own_rule_inv in Ho as [Ho _]. unfold rule_key. congruence.
  - eapply ids_ok_mono; [|apply ids_ok_filter, Hk]. lia.
Qed.

Lemma step_book ws c c' : rule_step ws c c' -> book_ok c.2 -> book_ok c'.2.
Proof.
  unfold book_ok. destruct 1 as [n b|n b row actor Hok _ _ _|n b before row actor e Hin _ _ _ Hok _ _|n b before actor _ _ _];
    cbn [fst snd rb_rules]; intros Hb.
  - done.
  - apply Forall_app. by split; [|constructor].
  - apply Forall_fmap, Forall_forall. intros r Hr. rewrite Forall_forall in Hb. cbn.
    destruct (own_rule _ _ r); [apply Hok|]; by apply Hb.
  - rewrite Forall_forall in *. intros r [Hr _]%list_elem_of_In%filter_In. apply Hb. by apply list_elem_of_In.
Qed.

(** C34: Every stored rule is one the engine can honour.  Whatever requests of
    whatever workspaces are handled and whichever calls fail, from well-formed
    rules only well-formed rules are reached: the action is one the engine
    knows, every [content_regex] pattern compiles, and no rule asks one
    detection for two classes. *)
Theorem stored_rules_well_formed rs w r :
  book_ok (aw_state w) -> r ∈ rb_rules (aw_state (run_rules rs w)) ->
  action (sr_rule r) ∈ VALID_ACTIONS
  /\ forall conds, conditions (sr_rule r) = Array conds ->
     (forall c p, c ∈ conds -> get_str c $"field" = Some $"content_regex" -> get_str c $"value" = Some p ->
        is_Some (regex_new p))
     /\ length (List.filter is_class_condition conds) <= 1.
Proof.
  intros Hb Hr. assert (Hb' : book_ok (at_ (run_rules rs w)).2).
  { apply (steps_keep (fun c => book_ok c.2)); [|done]. intros ws c c' Hs Hc. by eapply step_book. }
  unfold book_ok in Hb'. rewrite Forall_forall in Hb'. destruct (Hb' r Hr) as [Ha Hc]. split.
  - by apply bool_decide_eq_true in Ha.
  - intros conds He. rewrite He in Hc. by apply validate_conditions_iff in Hc.
Qed.

(** ** From the stored rules to the verdict *)

Lemma List_filter_fmap {A B} (f : A -> B) p (l : list A) :
  List.filter p (f <$> l) = f <$> List.filter (fun x => p (f x)) l.
Proof. induction l as [|x l IH]; [done|]. cbn. destruct (p (f x)); cbn; by rewrite <- IH. Qed.

Lemma sorted_filter {A} (R : A -> A -> Prop) p (l : list A) : StronglySorted R l -> StronglySorted R (List.filter p l).
Proof.
  induction 1 as [|x l _ IH Hx]; [constructor|]. cbn. destruct (p x); [|done]. constructor; [done|].
  rewrite Forall_forall in *. intros y [Hy _]%list_elem_of_In%filter_In. apply Hx. by apply list_elem_of_In.
Qed.

Lemma sorted_head {A} (R : A -> A -> Prop) pre x post :
  StronglySorted R (pre ++ x :: post) -> forall y, y ∈ post -> R x y.
Proof.
  induction pre as [|z pre IH]; cbn; intros Hs.
  - apply StronglySorted_inv in Hs as [_ Hx]. by apply Forall_forall.
  - apply StronglySorted_inv in Hs as [Hs _]. by apply IH.
Qed.

Lemma rule_leb_trans a b c : rule_leb a b -> rule_leb b c -> rule_leb a c.
Proof. rewrite !Is_true_true. unfold rule_leb. lia. Qed.
Lemma rule_leb_total a b : rule_leb a b \/ rule_leb b a.
Proof. rewrite !Is_true_true. unfold rule_leb. lia. Qed.
Lemma rule_leb_antisym a b : rule_leb a b -> rule_leb b a -> rule_key a = rule_key b.
Proof. rewrite !Is_true_true. unfold rule_leb, rule_key. lia. Qed.

(** The rules that bind a request: its workspace's, enabled, not dry runs, and
    matching. *)
Definition binding (ws : Uuid) (input : PolicyEvaluationInput) (r : StoredRule) : bool :=
  of_workspace ws r && enabled (sr_rule r) && negb (dry_run (sr_rule r))
  && rule_matches regex_new (sr_rule r) input.

Lemma decisive_binding ws input r :
  rule_ok (sr_rule r) -> of_workspace ws r = true -> enabled (sr_rule r) = true ->
  decisive regex_new input (sr_rule r) = binding ws input r.
Proof.
  intros [Ha _] Hw He. unfold decisive, binding. rewrite Ha, Hw, He, andb_true_r. cbn. apply andb_comm.
Qed.

Lemma enabled_rules_split ws b rules :
  List.filter enabled (sr_rule <$> sort_by rule_leb (List.filter (of_workspace ws) (rb_rules b))) = rules ->
  exists l, rules = sr_rule <$> l /\ StronglySorted (fun a b => rule_leb a b) l
    /\ forall r, r ∈ l <-> r ∈ rb_rules b /\ of_workspace ws r = true /\ enabled (sr_rule r) = true.
Proof.
  intros <-. rewrite List_filter_fmap. eexists. split; [reflexivity|]. split.
  - apply sorted_filter, sort_by_sorted; [apply rule_leb_trans|apply rule_leb_total].
  - intros r. rewrite list_elem_of_In, filter_In, <- list_elem_of_In, sort_by_perm, list_elem_of_In, filter_In.
    rewrite <- list_elem_of_In. tauto.
Qed.

(** The stored rule of least priority decides.  After any history of
    requests, of the rules of a workspace that are enabled, are not dry runs
    and match a request, the one of least priority (then least identifier)
    determines what happens to it: its action, the forwarded content, the
    vault and the verdict; and there is a verdict of the rules, so the request
    is not left to the default. *)
Theorem least_priority_decides rs w0 ws input v m r rules w' :
  let w := run_rules rs w0 in
  ids_ok rule_key (aw_calls w0) (rb_rules (aw_state w0)) -> book_ok (aw_state w0) ->
  r ∈ rb_rules (aw_state w) -> binding ws input r = true ->
  (forall r', r' ∈ rb_rules (aw_state w) -> binding ws input r' = true -> rule_leb r r') ->
  repo_list_enabled_rules ws w = (Ok rules, w') ->
  verdict (evaluate regex_new (Ok rules) input v m) =
    match action_effect input (sr_rule r) v m with
    | None => Panic
    | Some (c, v', m') =>
        Ok (c, action (sr_rule r), bool_decide (action (sr_rule r) = $"deny"), false, v', m')
    end.
Proof.
  intros w Hk Hb Hr Hbind Hmin Hl.
  assert (Hk' : keys_ok (at_ w)) by (apply steps_keep; [apply step_keys|done]).
  assert (Hb' : book_ok (at_ w).2).
  { apply (steps_keep (fun c => book_ok c.2)); [|done]. intros ws' c c' Hs Hc. by eapply step_book. }
  unfold repo_list_enabled_rules, repo_list_rules, reading, transaction, mbind, AdmM_bind, adm_result,
    list_enabled_rules in Hl. destruct (tx_failure _); [done|]. cbn in Hl. injection Hl as Hl _.
  apply enabled_rules_split in Hl as (l & -> & Hsort & Hin).
  assert (Hdec : forall s, s ∈ l -> decisive regex_new input (sr_rule s) = binding ws input s).
  { intros s (Hs & Hws & He)%Hin. apply decisive_binding; [|done..].
    unfold book_ok in Hb'. rewrite Forall_forall in Hb'. by apply Hb'. }
  assert (Hrl : r ∈ l).
  { apply Hin. split; [done|]. unfold binding in Hbind. rewrite !andb_true_iff in Hbind. tauto. }
  destruct (first_decisive regex_new input (sr_rule <$> l)) as [Hno|(pre & r0 & post & He & Hpre & Hr0)].
  { exfalso. rewrite Forall_fmap, Forall_forall in Hno. specialize (Hno r Hrl). cbn in Hno.
    rewrite Hdec, Hbind in Hno by done. done. }
  assert (sr_rule r = r0) as <-.
  { pose proof He as He'. apply fmap_app_inv in He' as (pre' & rest & -> & Hc & ->).
    symmetry in Hc. apply fmap_cons_inv in Hc as (s0 & post' & -> & -> & ->). f_equal.
    assert (Hs0 : s0 ∈ pre' ++ s0 :: post') by (apply elem_of_app; right; by left).
    rewrite Hdec in Hr0 by done. apply (ids_ok_inj _ _ _ _ _ Hk'); [done|by apply Hin|].
    apply rule_leb_antisym; [apply Hmin; [by apply Hin|done]|].
    apply elem_of_app in Hrl as [Hrl|Hrl].
    - exfalso. rewrite Forall_fmap, Forall_forall in Hpre. specialize (Hpre r Hrl). cbn in Hpre.
      rewrite Hdec, Hbind in Hpre by (apply elem_of_app; by left). done.
    - apply elem_of_cons in Hrl as [->|Hrl]; [rewrite Is_true_true; unfold rule_leb; lia|]. exact (sorted_head _ _ _ _ Hsort _ Hrl). }
  rewrite He, evaluate_decided by done.
  by destruct (action_effect input (sr_rule r) v m) as [[[c v'] m']|].
Qed.
(** ** The audit trail tells the rules *)

(** What the trail says of a rule. *)
Record RuleFacts : Type := {
  rf_workspace : Uuid;
  rf_id : Uuid;
  rf_priority : Value;
  rf_action : Value;
  rf_enabled : Value;
  rf_dry_run : Value;
}.

Definition facts (r : StoredRule) : RuleFacts := {|
  rf_workspace := workspace_id (sr_rule r); rf_id := id (sr_rule r);
  rf_priority := json_i32 (priority (sr_rule r)); rf_action := VString (action (sr_rule r));
  rf_enabled := Bool (enabled (sr_rule r)); rf_dry_run := Bool (dry_run (sr_rule r)) |}.

Definition member (detail : Value) (k : str) : Value := default Null (get detail k).

(** The value a [detail.changed] object says a field has now, if it moved. *)
Definition after_of (detail : Value) (k : str) (before : Value) : Value :=
  default before (changed ← get detail $"changed"; c ← get changed k; get c $"after").

Definition about (row : AdminAuditRow) (f : RuleFacts) : bool :=
  (rf_workspace f =? ar_workspace_id row)%N && bool_decide (ar_target_id row = Some (rf_id f)).

Definition set_flags (on dry : Value) (f : RuleFacts) : RuleFacts := {|
  rf_workspace := rf_workspace f; rf_id := rf_id f; rf_priority := rf_priority f; rf_action := rf_action f;
  rf_enabled := on; rf_dry_run := dry |}.

(** Reading one row of the trail, with nothing but the row. *)
Definition replay_row (l : list RuleFacts) (row : AdminAuditRow) : list RuleFacts :=
  let d := ar_detail row in
  let on_target g := (fun f => if about row f then g f else f) <$> l in
  if decide (ar_action row = $"policy_rule.created") then
    match ar_target_id row with
    | Some i => l ++ [{| rf_workspace := ar_workspace_id row; rf_id := i; rf_priority := member d $"priority";
                         rf_action := member d $"rule_action"; rf_enabled := member d $"enabled";
                         rf_dry_run := member d $"dry_run" |}]
    | None => l
    end
  else if decide (ar_action row = $"policy_rule.updated") then
    on_target (fun f => {|
      rf_workspace := rf_workspace f; rf_id := rf_id f;
      rf_priority := after_of d $"priority" (rf_priority f);
      rf_action := after_of d $"rule_action" (rf_action f);
      rf_enabled := after_of d $"enabled" (rf_enabled f);
      rf_dry_run := after_of d $"dry_run" (rf_dry_run f) |})
  else if decide (ar_action row = $"policy_rule.deleted") then List.filter (fun f => negb (about row f)) l
  else if decide (ar_action row = $"policy_rule.enabled_changed") then
    on_target (fun f => set_flags (member d $"after") (rf_dry_run f) f)
  else if decide (ar_action row = $"policy_rule.dry_run_changed") then
    on_target (fun f => set_flags (rf_enabled f) (member d $"after") f)
  else l.

Definition replay (rows : list AdminAuditRow) (l : list RuleFacts) : list RuleFacts := foldl replay_row l rows.

Lemma about_facts row r ws rid :
  ar_workspace_id row = ws -> ar_target_id row = Some rid -> about row (facts r) = own_rule ws rid r.
Proof.
  intros <- Ht. unfold about, own_rule, facts. rewrite Ht. cbn.
  rewrite (bool_decide_ext _ (rid = id (sr_rule r))) by naive_solver. case_bool_decide; lia.
Qed.

Lemma get_changed m k before after k' :
  obj_get (changed_field m k before after) k'
  = if decide (k' = k) then (if value_eqb before after then obj_get m k'
                             else Some (Object [($"before", before); ($"after", after)]))
    else obj_get m k'.
Proof.
  unfold changed_field. destruct (value_eqb before after); [by destruct (decide _)|]. by rewrite obj_get_insert.
Qed.

Lemma get_changed_other m k before after k' :
  k' <> k -> obj_get (changed_field m k before after) k' = obj_get m k'.
Proof. intros Hk. by rewrite get_changed, decide_False. Qed.

Lemma after_changed m k before after :
  obj_get m k = None -> (value_eqb before after = true -> before = after) ->
  default before (c ← obj_get (changed_field m k before after) k; get c $"after") = after.
Proof.
  intros Hm He. rewrite get_changed, decide_True by done. destruct (value_eqb before after).
  - rewrite Hm. by apply He.
  - reflexivity.
Qed.

Lemma json_i32_inj a b : value_eqb (json_i32 a) (json_i32 b) = true -> json_i32 a = json_i32 b.
Proof.
  unfold json_i32. destruct (Z.leb_spec 0 a), (Z.leb_spec 0 b); cbn; try done.
  - intros ->%N.eqb_eq. done.
  - intros ->%Z.eqb_eq. done.
Qed.
Lemma string_eqb a b : value_eqb (VString a) (VString b) = true -> VString a = VString b.
Proof. cbn. by intros ->%bool_decide_eq_true. Qed.
Lemma bool_eqb a b : value_eqb (Bool a) (Bool b) = true -> Bool a = Bool b.
Proof. cbn. by intros ->%bool_decide_eq_true. Qed.

Lemma replay_created actor row l :
  aa_workspace_id actor = workspace_id (sr_rule row) ->
  replay_row l (audit_row actor (created_rule_entry (sr_rule row))) = l ++ [facts row].
Proof. intros Ha. unfold replay_row, audit_row. cbn. by rewrite Ha. Qed.

Lemma updated_after before after :
  let d := ae_detail (updated_rule_entry before after) in
  after_of d $"priority" (json_i32 (priority before)) = json_i32 (priority after)
  /\ after_of d $"rule_action" (VString (action before)) = VString (action after)
  /\ after_of d $"enabled" (Bool (enabled before)) = Bool (enabled after)
  /\ after_of d $"dry_run" (Bool (dry_run before)) = Bool (dry_run after).
Proof.
  cbv zeta. unfold after_of.
  change (get (ae_detail (updated_rule_entry before after)) $"changed")
    with (Some (Object (rule_changes before after))).
  cbn [mbind option_bind get]. unfold rule_changes.
  split_and!; rewrite ?get_changed_other by done; apply after_changed; rewrite ?get_changed_other by done;
    auto using json_i32_inj, string_eqb, bool_eqb.
Qed.

Lemma replay_changed before row actor e rules n :
  ids_ok rule_key n rules -> before ∈ rules -> workspace_id (sr_rule before) = workspace_id (sr_rule row) ->
  id (sr_rule row) = id (sr_rule before) -> records (sr_rule before) (sr_rule row) e ->
  aa_workspace_id actor = workspace_id (sr_rule row) ->
  replay_row (facts <$> rules) (audit_row actor e)
  = facts <$> ((fun r => if own_rule (workspace_id (sr_rule row)) (id (sr_rule before)) r then row else r) <$> rules).
Proof.
  intros Hk Hin Hw Hi Hr Ha. set (ws := workspace_id (sr_rule row)) in *.
  assert (Hf : forall g : RuleFacts -> RuleFacts, g (facts before) = facts row ->
    (fun f => if about (audit_row actor e) f then g f else f) <$> (facts <$> rules)
    = facts <$> ((fun r => if own_rule ws (id (sr_rule before)) r then row else r) <$> rules)).
  { intros g Hg. rewrite <- !list_fmap_compose. apply list_fmap_ext. intros i r Hl. cbn.
    rewrite (about_facts _ _ ws (id (sr_rule before))); [|done|by destruct Hr; cbn; rewrite ?Hi].
    destruct (own_rule _ _ r) eqn:Ho; [|done]. apply own_rule_inv in Ho as [Ho _].
    rewrite (ids_ok_inj _ _ _ r before Hk); [done|by eapply list_elem_of_lookup_2|done|done]. }
  destruct Hr as [|b Hb|b Hb].
  - destruct (updated_after (sr_rule before) (sr_rule row)) as (E1 & E2 & E3 & E4).
    etrans; [|apply Hf]; [reflexivity|]. unfold facts. cbn [rf_priority rf_action rf_enabled rf_dry_run rf_workspace rf_id].
    cbn [audit_row ar_detail]. rewrite E1, E2, E3, E4, Hi, Hw. done.
  - etrans; [|apply Hf]; [reflexivity|]. unfold facts, set_flags. cbn. by rewrite Hb.
  - etrans; [|apply Hf]; [reflexivity|]. unfold facts, set_flags. cbn. by rewrite Hb.
Qed.

Lemma replay_deleted before actor rules :
  aa_workspace_id actor = workspace_id (sr_rule before) ->
  replay_row (facts <$> rules) (audit_row actor (deleted_rule_entry (sr_rule before)))
  = facts <$> List.filter (fun r => negb (own_rule (workspace_id (sr_rule before)) (id (sr_rule before)) r)) rules.
Proof.
  intros Ha. etrans; [apply List_filter_fmap|]. f_equal. apply List.filter_ext. intros r.
  by rewrite (about_facts _ _ (workspace_id (sr_rule before)) (id (sr_rule before))).
Qed.

(** The tables after some calls, against the tables before. *)
Definition told (b0 b : RuleBook) : Prop :=
  exists rows, rb_audit b = rb_audit b0 ++ rows /\ facts <$> rb_rules b = replay rows (facts <$> rb_rules b0).

Lemma told_snoc b0 b rules row :
  told b0 b -> facts <$> rules = replay_row (facts <$> rb_rules b) row ->
  told b0 {| rb_rules := rules; rb_audit := rb_audit b ++ [row] |}.
Proof.
  intros (rows & Ha & Hf) Hr. exists (rows ++ [row]). cbn. split; [by rewrite Ha, app_assoc|].
  rewrite Hr, Hf. unfold replay. by rewrite foldl_app.
Qed.

Lemma step_told ws c c' b0 : rule_step ws c c' -> keys_ok c /\ told b0 c.2 -> keys_ok c' /\ told b0 c'.2.
Proof.
  intros Hs [Hk Ht]. split; [by eapply step_keys|]. revert Hk Ht.
  destruct Hs as [n b|n b row actor _ _ <- Ha|n b before row actor e Hin Hws Hi <- _ Hr Ha|n b before actor _ Hws Ha];
    cbn [fst snd]; intros Hk Ht; [done|..]; apply told_snoc; try done; symmetry.
  - rewrite replay_created, fmap_app by done. done.
  - eapply replay_changed; [exact Hk|done..|unfold of_workspace in Hws; lia|done|done|done].
  - apply N.eqb_eq in Hws as <-. by apply replay_deleted.
Qed.

(** The audit trail tells the rules.  Whatever requests of whatever
    workspaces are handled and whichever calls fail, the trail only grows, and
    an auditor who replays its new rows, with nothing but the rows, on the
    rules as they were gets the rules as they are: which exist, and for each
    its workspace, priority, action and whether it is enabled or a dry run. *)
Theorem trail_replays_rules rs w :
  ids_ok rule_key (aw_calls w) (rb_rules (aw_state w)) ->
  exists rows,
    rb_audit (aw_state (run_rules rs w)) = rb_audit (aw_state w) ++ rows
    /\ facts <$> rb_rules (aw_state (run_rules rs w)) = replay rows (facts <$> rb_rules (aw_state w)).
Proof.
  intros Hk. assert (Ht : keys_ok (at_ w) /\ told (aw_state w) (at_ w).2).
  { split; [done|]. exists []. by rewrite app_nil_r. }
  by destruct (steps_keep (fun c => keys_ok c /\ told (aw_state w) c.2)
    (fun ws c c' Hs => step_told ws c c' _ Hs) rs w Ht) as [_ (rows & Hr)]; exists rows.
Qed.

(** ** Priorities *)

(** Two creations that both looked before either wrote leave two rules of one
    priority, although each was told the priority was free. *)
Lemma priority_race ws prio w name1 name2 conds act params on dry actor :
  (forall n, tx_failure n = None) ->
  existsb (takes_priority ws prio None) (rb_rules (aw_state w)) = false ->
  exists w1 w2 w3 w4 r1 r2,
    priority_in_use ws prio None w = (Ok false, w1) /\ priority_in_use ws prio None w1 = (Ok false, w2)
    /\ repo_create_rule ws name1 prio conds act params on dry actor w2 = (Ok r1, w3)
    /\ repo_create_rule ws name2 prio conds act params on dry actor w3 = (Ok r2, w4)
    /\ r1 ∈ rb_rules (aw_state w4) /\ r2 ∈ rb_rules (aw_state w4) /\ id (sr_rule r1) <> id (sr_rule r2)
    /\ priority (sr_rule r1) = prio /\ priority (sr_rule r2) = prio.
Proof.
  intros Hf Hp. unfold priority_in_use, reading, repo_create_rule, transaction.
  do 6 eexists. split; [by rewrite Hf, Hp|]. split; [by cbn; rewrite Hf, Hp|]. split; [by cbn; rewrite Hf|].
  split; [by cbn; rewrite Hf|]. cbn. split_and!; [|apply elem_of_app; right; by left| |done|done].
  - apply elem_of_app. left. apply elem_of_app. right. by left.
  - intros He%fresh_inj. lia.
Qed.
End spec.

(** ** A concrete history of policy rules

    Two workspaces.  An administrator creates a denying rule, is refused a
    second one with the same priority and one with a broken pattern, replaces
    it, switches it off (the transaction fails) and on, and deletes another. *)

Definition flaky_admin : AdminEnv := {|
  tx_failure n := if (n =? 11)%nat then Some (Database $"connection reset") else None;
  fresh_id n := N.of_nat (1000 + n);
  now_at n := Z.of_nat n;
  actor_email _ _ := Ok (Some $"a@x") |}.

Definition full_queue : QueueEnv := {| push_accepted n := (n <? 8)%nat |}.

Definition admin_of (ws : Uuid) : JwtAuthContext := {|
  jc_user_id := 7; jc_workspace_id := ws; jc_role := Admin; jc_jti := []; jc_exp := 0 |}.

Definition body (rule_name : str) (prio : Z) (act : str) (conds : list Value) : RuleRequest := {|
  rr_name := rule_name; rr_priority := prio; rr_conditions := Some (Array conds); rr_action := act;
  rr_action_params := None; rr_enabled := None; rr_dry_run := None |}.

Definition seeded : StoredRule := {|
  sr_rule := {| id := 1; workspace_id := 1; name := $"seeded"; priority := 50; conditions := Array [person_eq];
                action := $"redact"; action_params := Object []; enabled := true; dry_run := false |};
  sr_created_at := 0; sr_updated_at := 0 |}.

Abbreviation World := (AdminWorld RuleBook QueuePush).
Definition seeded_world : World := {|
  aw_state := {| rb_rules := [seeded]; rb_audit := [] |}; aw_calls := 0; aw_sent := [] |}.

Definition history : list RuleRoute :=
  [RCreate (admin_of 1) (body $"stop people" 10 $"deny" [person_eq]);
   RCreate (admin_of 1) (body $"again" 10 $"flag" []);
   RCreate (admin_of 1) (body $"broken" 20 $"flag" [mk_cond $"content_regex" $"matches" (VString $"(")]);
   RCreate (admin_of 2) (body $"other tenant" 10 $"flag" []);
   RUpdate (admin_of 1) 1001 (body $"stop all people" 5 $"deny" [person_eq]);
   REnabled (admin_of 1) 1001 false;
   REnabled (admin_of 1) 1001 true;
   RDelete (admin_of 1) 1].

Abbreviation demo_run := (@run_rules flaky_admin full_queue literal_regex).
Definition after_history : World := Eval vm_compute in demo_run history seeded_world.

Lemma flaky_inj j k : @fresh_id flaky_admin j = @fresh_id flaky_admin k -> j = k.
Proof. intros Hjk. cbn in Hjk. lia. Qed.

Lemma seeded_keys : @ids_ok flaky_admin _ rule_key (aw_calls seeded_world) (rb_rules (aw_state seeded_world)).
Proof.
  split; [decide_compute|]. intros x j ->%list_elem_of_singleton _. cbn. lia.
Qed.

Lemma seeded_ok : book_ok literal_regex (aw_state seeded_world).
Proof. constructor; [|constructor]. split; vm_compute; reflexivity. Qed.

(** The rule that was created, replaced and switched back on. *)
Definition denying : StoredRule := {|
  sr_rule := {| id := 1001; workspace_id := 1; name := $"stop all people"; priority := 5;
                conditions := Array [person_eq]; action := $"deny"; action_params := Object [];
                enabled := true; dry_run := false |};
  sr_created_at := 1; sr_updated_at := 12 |}.

Lemma history_computed : demo_run history seeded_world = after_history.
Proof. vm_compute. reflexivity. Qed.

Lemma stored_rules_well_formed_witness :
  action (sr_rule denying) ∈ VALID_ACTIONS
  /\ (forall conds, conditions (sr_rule denying) = Array conds ->
       length (List.filter is_class_condition conds) <= 1).
Proof.
  destruct (@stored_rules_well_formed flaky_admin full_queue literal_regex history seeded_world denying) as [Ha Hc].
  - exact seeded_ok.
  - rewrite history_computed. vm_compute. left.
  - split; [exact Ha|]. intros conds He. apply (Hc conds He).
Defined.

(** A request of workspace 1 that names a person is denied: the rule of
    priority 5 comes before none. *)
Lemma denying_binds : binding literal_regex 1 demo_input denying = true.
Proof. vm_compute. reflexivity. Qed.

Lemma denying_least r :
  r ∈ rb_rules (aw_state after_history) -> binding literal_regex 1 demo_input r = true -> rule_leb denying r.
Proof.
  intros Hr Hb. cbn in Hr. repeat (apply elem_of_cons in Hr as [->|Hr]; [|]); [done| |by apply not_elem_of_nil in Hr].
  vm_compute in Hb. discriminate.
Qed.

Lemma least_priority_decides_witness :
  verdict (@evaluate ascii_case_map literal_regex (Ok [sr_rule denying]) demo_input TokenVault_default ∅)
  = Ok (pe_content demo_input, $"deny", true, false, TokenVault_default, ∅).
Proof.
  etrans.
  - apply (@least_priority_decides ascii_case_map flaky_admin full_queue literal_regex flaky_inj history seeded_world 1%N
      demo_input TokenVault_default ∅ denying [sr_rule denying] (bump after_history)).
    + exact seeded_keys.
    + exact seeded_ok.
    + rewrite history_computed. vm_compute. left.
    + exact denying_binds.
    + intros r Hr. rewrite history_computed in Hr. by apply denying_least.
    + rewrite history_computed. vm_compute. reflexivity.
  - vm_compute. reflexivity.
Defined.

Lemma trail_replays_rules_witness :
  exists rows,
    rb_audit (aw_state after_history) = rows /\ length rows = 5
    /\ facts <$> rb_rules (aw_state after_history) = replay rows [facts seeded].
Proof.
  destruct (@trail_replays_rules flaky_admin full_queue literal_regex flaky_inj history seeded_world seeded_keys)
    as (rows & Ha & Hf).
  rewrite history_computed in Ha, Hf. exists rows. split; [exact Ha|]. split; [|exact Hf].
  apply (f_equal length) in Ha. vm_compute in Ha. symmetry. exact Ha.
Defined.

(** Replacing a rule without naming its flags puts it back in force. *)
Example put_re_enables :
  (fun r => (enabled (sr_rule r), dry_run (sr_rule r))) <$>
    rb_rules (aw_state (demo_run [RDryRun (admin_of 1) 1 true; REnabled (admin_of 1) 1 false;
                                  RUpdate (admin_of 1) 1 (body $"seeded" 50 $"redact" [person_eq])] seeded_world))
  = [(true, false)].
Proof. vm_compute. reflexivity. Qed.
