(* ===== verification/Posture.v ===== *)
(** * The security posture of a workspace

    db/secure_mode_repo.rs, db/sidecar_policy_repo.rs, db/raw_capture_repo.rs
    and GET and PUT of http/routes/dashboard/secure_mode.rs: three controls in
    three tables, each with its audit.  Handlers run in the world of [AdminTx];
    what they send is the alert raised when capture is switched on. *)

From S2P Require Import Prelude Rstr Json Types Sidecar Analytics SecureMode Roles AdminAudit Sessions.
From S2P Require Import WorkerDb AdminTx.

Record RawCaptureSettings : Type := { rw_enabled : bool; rw_retention_days : Z }.

#[export] Instance RawCaptureSettings_eq_dec : EqDecision RawCaptureSettings.
Proof. solve_decision. Defined.

Definition RawCaptureSettings_default : RawCaptureSettings :=
  {| rw_enabled := false; rw_retention_days := DEFAULT_RETENTION_DAYS |}.

(** [workspace_secure_mode] with its time of change, [workspace_sidecar_policy],
    [workspace_raw_capture] and the two trails. *)
Record PostureTables : Type := {
  pt_secure : gmap Uuid (SecureModeRow * Z);
  pt_sidecar : gmap Uuid str;
  pt_capture : gmap Uuid RawCaptureSettings;
  pt_audit : list AdminAuditRow;
  pt_capture_audit : list RawCaptureAuditRow;
}.

(** [alert = "raw_capture_enabled"] *)
Record CaptureAlert : Type := {
  al_workspace_id : Uuid;
  al_actor_user_id : option Uuid;
  al_retention_days : Z;
}.

(** ** Rows *)

(** The fields a PUT may name. *)
Record PutSecureModeRequest : Type := {
  pq_enabled : option bool;
  pq_level : option str;
  pq_block_on_pii_detection : option bool;
  pq_block_on_injection_detection : option bool;
  pq_redact_pii_in_responses : option bool;
  pq_sidecar_unavailable : option str;
  pq_capture_raw_content : option bool;
  pq_raw_capture_retention_days : option Z;
}.

Definition secure_default (ws : Uuid) : SecureModeRow := {|
  sm_workspace_id := ws; sm_enabled := sm_enabled SecureModeRow_default;
  sm_level := sm_level SecureModeRow_default;
  block_on_pii_detection := block_on_pii_detection SecureModeRow_default;
  block_on_injection_detection := block_on_injection_detection SecureModeRow_default;
  redact_pii_in_responses := redact_pii_in_responses SecureModeRow_default |}.

Definition secure_merged (ws : Uuid) (enabled : option bool) (level : option str)
    (block_pii block_injection redact : option bool) (current : SecureModeRow) : SecureModeRow := {|
  sm_workspace_id := ws;
  sm_enabled := default (sm_enabled current) enabled;
  sm_level := default (sm_level current) level;
  block_on_pii_detection := default (block_on_pii_detection current) block_pii;
  block_on_injection_detection := default (block_on_injection_detection current) block_injection;
  redact_pii_in_responses := default (redact_pii_in_responses current) redact |}.

Definition secure_changes (current new : SecureModeRow) : list (str * Value) :=
  let m1 := changed_field [] $"enabled" (Bool (sm_enabled current)) (Bool (sm_enabled new)) in
  let m2 := changed_field m1 $"level" (VString (sm_level current)) (VString (sm_level new)) in
  let m3 := changed_field m2 $"block_on_pii_detection" (Bool (block_on_pii_detection current))
              (Bool (block_on_pii_detection new)) in
  let m4 := changed_field m3 $"block_on_injection_detection" (Bool (block_on_injection_detection current))
              (Bool (block_on_injection_detection new)) in
  changed_field m4 $"redact_pii_in_responses" (Bool (redact_pii_in_responses current))
    (Bool (redact_pii_in_responses new)).

Definition secure_entry (ws : Uuid) (changed : list (str * Value)) : AdminAuditEntry :=
  with_detail (on_object SecureModeUpdated ws None) (Object [($"changed", Object changed)]).

Definition sidecar_entry (ws : Uuid) (before after : SidecarUnavailablePolicy) : AdminAuditEntry :=
  with_detail (on_object SidecarPolicyUpdated ws None)
    (Object [($"before", VString (policy_as_str before)); ($"after", VString (policy_as_str after))]).

Definition capture_audit_row (ws : Uuid) (user : option Uuid) (email : option str)
    (before after : RawCaptureSettings) : RawCaptureAuditRow := {|
  rc_workspace_id := ws; rc_actor_user_id := user; rc_actor_email := email;
  rc_enabled_before := rw_enabled before; rc_enabled_after := rw_enabled after;
  rc_retention_days_before := rw_retention_days before;
  rc_retention_days_after := rw_retention_days after |}.

Section posture.
Context `{AdminEnv} (sidecar_unavailable_default : str).

#[local] Abbreviation Adm := (AdmM PostureTables CaptureAlert).

(** ** The repositories *)

Definition secure_mode_get (ws : Uuid) : Adm (SecureModeRow * Z) := transaction (fun n t =>
  (Ok (default (secure_default ws, now_at n) (pt_secure t !! ws)), t)).

Definition secure_mode_upsert (ws : Uuid) (enabled : option bool) (level : option str)
    (block_pii block_injection redact : option bool) (actor : AdminActor) : Adm (SecureModeRow * Z) :=
  transaction (fun n t =>
    let current := default (secure_default ws) (fst <$> pt_secure t !! ws) in
    let new := secure_merged ws enabled level block_pii block_injection redact current in
    let changed := secure_changes current new in
    (Ok (new, now_at n), {|
       pt_secure := <[ws := (new, now_at n)]> (pt_secure t); pt_sidecar := pt_sidecar t;
       pt_capture := pt_capture t;
       pt_audit := match changed with
                   | [] => pt_audit t
                   | _ => audit_write actor (secure_entry ws changed) (pt_audit t)
                   end;
       pt_capture_audit := pt_capture_audit t |})).

Definition sidecar_get_effective (ws : Uuid) (deployment_default : SidecarUnavailablePolicy)
    : Adm SidecarUnavailablePolicy := transaction (fun _ t =>
  (get_effective (Ok (pt_sidecar t !! ws)) deployment_default, t)).

Definition sidecar_upsert (ws : Uuid) (policy deployment_default : SidecarUnavailablePolicy)
    (actor : AdminActor) : Adm SidecarUnavailablePolicy := transaction (fun _ t =>
  let '(stored, after, moved) := sidecar_policy_upsert (pt_sidecar t !! ws) policy deployment_default in
  (Ok after, {|
     pt_secure := pt_secure t; pt_sidecar := partial_alter (fun _ => stored) ws (pt_sidecar t);
     pt_capture := pt_capture t;
     pt_audit := match moved with
                 | None => pt_audit t
                 | Some (before, after) => audit_write actor (sidecar_entry ws before after) (pt_audit t)
                 end;
     pt_capture_audit := pt_capture_audit t |})).

Definition capture_get_effective (ws : Uuid) : Adm RawCaptureSettings :=
  reading (fun t => default RawCaptureSettings_default (pt_capture t !! ws)).

(** The transaction of [upsert_audited], which also answers what it replaced. *)
Definition capture_write (ws : Uuid) (settings : RawCaptureSettings) (user : option Uuid)
    (email : option str) : Adm (RawCaptureSettings * RawCaptureSettings) := transaction (fun _ t =>
  let before := default RawCaptureSettings_default (pt_capture t !! ws) in
  let stored := {| rw_enabled := rw_enabled settings;
                   rw_retention_days := clamp_retention (rw_retention_days settings) |} in
  (Ok (before, stored), {|
     pt_secure := pt_secure t; pt_sidecar := pt_sidecar t;
     pt_capture := <[ws := stored]> (pt_capture t); pt_audit := pt_audit t;
     pt_capture_audit := pt_capture_audit t ++ [capture_audit_row ws user email before stored] |})).

Definition upsert_audited (ws : Uuid) (settings : RawCaptureSettings) (user : option Uuid)
    (email : option str) : Adm RawCaptureSettings :=
  '(before, stored) ← capture_write ws settings user email;
  (if rw_enabled stored && negb (rw_enabled before)
   then outbound (fun _ => (tt, [{| al_workspace_id := ws; al_actor_user_id := user;
                                    al_retention_days := rw_retention_days stored |}]))
   else mret tt);;
  mret stored.

(** Newest first. *)
Definition audit_trail (ws : Uuid) (limit : nat) : Adm (list RawCaptureAuditRow) := reading (fun t =>
  take limit (reverse (List.filter (fun r => (rc_workspace_id r =? ws)%N) (pt_capture_audit t)))).

(** ** The handlers *)

Definition VALID_LEVELS : list str := [$"permissive"; $"standard"; $"strict"].
Definition VALID_SIDECAR_POLICIES : list str := [$"block"; $"degrade_with_alert"].

Record SecureModeResponse : Type := {
  sr_workspace_id : Uuid;
  sr_enabled : bool;
  sr_level : str;
  sr_block_on_pii_detection : bool;
  sr_block_on_injection_detection : bool;
  sr_redact_pii_in_responses : bool;
  sr_sidecar_unavailable : str;
  sr_capture_raw_content : bool;
  sr_raw_capture_retention_days : Z;
  sr_updated_at : Z;
}.

Definition secure_mode_response (row : SecureModeRow * Z) (sidecar : SidecarUnavailablePolicy)
    (capture : RawCaptureSettings) : SecureModeResponse := {|
  sr_workspace_id := sm_workspace_id row.1; sr_enabled := sm_enabled row.1; sr_level := sm_level row.1;
  sr_block_on_pii_detection := block_on_pii_detection row.1;
  sr_block_on_injection_detection := block_on_injection_detection row.1;
  sr_redact_pii_in_responses := redact_pii_in_responses row.1;
  sr_sidecar_unavailable := policy_as_str sidecar;
  sr_capture_raw_content := rw_enabled capture;
  sr_raw_capture_retention_days := rw_retention_days capture; sr_updated_at := row.2 |}.

Definition deployment_default : SidecarUnavailablePolicy := policy_from_db sidecar_unavailable_default.

Definition get_secure_mode (ctx : JwtAuthContext) : Adm SecureModeResponse :=
  let ws := jc_workspace_id ctx in
  row ← secure_mode_get ws;
  sidecar ← sidecar_get_effective ws deployment_default;
  capture ← capture_get_effective ws;
  mret (secure_mode_response row sidecar capture).

(** [if !VALID.contains(...)] on an optional field. *)
Definition one_of (what : str) (valid : list str) (v : option str) : result unit :=
  match v with
  | Some v => if bool_decide (v ∈ valid) then Ok tt
              else Err (BadRequest (what ++ $" must be one of: " ++ join $", " valid))
  | None => Ok tt
  end.

Definition put_sidecar (ws : Uuid) (body : PutSecureModeRequest) (actor : AdminActor)
    : Adm SidecarUnavailablePolicy :=
  match pq_sidecar_unavailable body with
  | Some v => sidecar_upsert ws (policy_from_db v) deployment_default actor
  | None => sidecar_get_effective ws deployment_default
  end.

Definition put_capture (ctx : JwtAuthContext) (body : PutSecureModeRequest) : Adm RawCaptureSettings :=
  let ws := jc_workspace_id ctx in
  match pq_capture_raw_content body, pq_raw_capture_retention_days body with
  | None, None => capture_get_effective ws
  | on, days =>
      current ← capture_get_effective ws;
      upsert_audited ws {| rw_enabled := default (rw_enabled current) on;
                           rw_retention_days := default (rw_retention_days current) days |}
        (Some (jc_user_id ctx))
        (match actor_email ws (jc_user_id ctx) with Ok e => e | _ => None end)
  end.

Definition put_secure_mode (ctx : JwtAuthContext) (body : PutSecureModeRequest) : Adm SecureModeResponse :=
  admin_only ctx;;
  adm_result (one_of $"level" VALID_LEVELS (pq_level body));;
  adm_result (one_of $"sidecar_unavailable" VALID_SIDECAR_POLICIES (pq_sidecar_unavailable body));;
  let ws := jc_workspace_id ctx in
  row ← secure_mode_upsert ws (pq_enabled body) (pq_level body) (pq_block_on_pii_detection body)
          (pq_block_on_injection_detection body) (pq_redact_pii_in_responses body) (actor_of ctx);
  sidecar ← put_sidecar ws body (actor_of ctx);
  capture ← put_capture ctx body;
  mret (secure_mode_response row sidecar capture).
End posture.

(** ** What changing the posture guarantees *)

Section spec.
Context `{AdminEnv} (sidecar_unavailable_default : str).

#[local] Abbreviation Adm := (AdmM PostureTables CaptureAlert).
#[local] Abbreviation World := (AdminWorld PostureTables CaptureAlert).
#[local] Abbreviation fallback := (deployment_default sidecar_unavailable_default).

(** ** The abstract posture *)

(** The controls in force for a workspace, stored or defaulted. *)
Record Posture : Type := {
  po_secure : SecureModeRow;
  po_sidecar : SidecarUnavailablePolicy;
  po_capture : RawCaptureSettings;
}.

Definition posture (ws : Uuid) (t : PostureTables) : Posture := {|
  po_secure := default (secure_default ws) (fst <$> pt_secure t !! ws);
  po_sidecar := default fallback (policy_from_db <$> pt_sidecar t !! ws);
  po_capture := default RawCaptureSettings_default (pt_capture t !! ws) |}.

(** What a request asks of each control; a field it does not name stays. *)
Definition ask_secure (ws : Uuid) (body : PutSecureModeRequest) (p : Posture) : Posture := {|
  po_secure := secure_merged ws (pq_enabled body) (pq_level body) (pq_block_on_pii_detection body)
                 (pq_block_on_injection_detection body) (pq_redact_pii_in_responses body) (po_secure p);
  po_sidecar := po_sidecar p; po_capture := po_capture p |}.

Definition ask_sidecar (body : PutSecureModeRequest) (p : Posture) : Posture := {|
  po_secure := po_secure p;
  po_sidecar := default (po_sidecar p) (policy_from_db <$> pq_sidecar_unavailable body);
  po_capture := po_capture p |}.

Definition names_capture (body : PutSecureModeRequest) : bool :=
  bool_decide (is_Some (pq_capture_raw_content body))
  || bool_decide (is_Some (pq_raw_capture_retention_days body)).

Definition ask_capture (body : PutSecureModeRequest) (p : Posture) : Posture := {|
  po_secure := po_secure p; po_sidecar := po_sidecar p;
  po_capture :=
    if names_capture body then {|
      rw_enabled := default (rw_enabled (po_capture p)) (pq_capture_raw_content body);
      rw_retention_days := clamp_retention
        (default (rw_retention_days (po_capture p)) (pq_raw_capture_retention_days body)) |}
    else po_capture p |}.

(** The posture after the first [k] of the three writes. *)
Definition asked (ws : Uuid) (body : PutSecureModeRequest) (k : nat) (p : Posture) : Posture :=
  match k with
  | 0 => p
  | 1 => ask_secure ws body p
  | 2 => ask_sidecar body (ask_secure ws body p)
  | _ => ask_capture body (ask_sidecar body (ask_secure ws body p))
  end.

(** The rows that record the move from one posture to another. *)
Definition secure_rows (actor : AdminActor) (ws : Uuid) (p p' : Posture) : list AdminAuditRow :=
  match secure_changes (po_secure p) (po_secure p') with
  | [] => []
  | changed => [audit_row actor (secure_entry ws changed)]
  end.
Definition sidecar_rows (actor : AdminActor) (ws : Uuid) (p p' : Posture) : list AdminAuditRow :=
  if decide (po_sidecar p = po_sidecar p') then []
  else [audit_row actor (sidecar_entry ws (po_sidecar p) (po_sidecar p'))].
Definition capture_rows (ctx : JwtAuthContext) (body : PutSecureModeRequest) (p p' : Posture)
    : list RawCaptureAuditRow :=
  if names_capture body
  then [capture_audit_row (jc_workspace_id ctx) (Some (jc_user_id ctx))
          (match actor_email (jc_workspace_id ctx) (jc_user_id ctx) with Ok e => e | _ => None end)
          (po_capture p) (po_capture p')]
  else [].

(** ** A request, write by write *)

Section put.
Context (ctx : JwtAuthContext) (body : PutSecureModeRequest) (t0 : PostureTables).
#[local] Abbreviation ws := (jc_workspace_id ctx).

Definition stage (k : nat) : Posture := asked ws body k (posture ws t0).

(** The tables once [k] of the three writes are done. *)
Definition reached (k : nat) (t : PostureTables) : Prop :=
  posture ws t = stage k
  /\ (forall other, other <> ws -> posture other t = posture other t0)
  /\ pt_audit t = pt_audit t0
       ++ (if 1 <=? k then secure_rows (actor_of ctx) ws (stage 0) (stage 1) else [])
       ++ (if 2 <=? k then sidecar_rows (actor_of ctx) ws (stage 1) (stage 2) else [])
  /\ pt_capture_audit t = pt_capture_audit t0
       ++ (if 3 <=? k then capture_rows ctx body (stage 2) (stage 3) else []).

#[local] Abbreviation At := (fun k => on_state (T := CaptureAlert) (reached k)).

Lemma secure_stage :
  runs (At 0) (secure_mode_upsert ws (pq_enabled body) (pq_level body) (pq_block_on_pii_detection body)
      (pq_block_on_injection_detection body) (pq_redact_pii_in_responses body) (actor_of ctx))
    (fun row w => At 1 w /\ row.1 = po_secure (stage 1)) (At 0).
Proof.
  apply runs_transaction; [apply _|]. intros w a t (Hp & Ho & Ha & Hc) [= <- <-].
  assert (Hs : default (secure_default ws) (fst <$> pt_secure (aw_state w) !! ws) = po_secure (stage 0)).
  { by rewrite <- Hp. }
  rewrite Hs. split; [|done]. split; [|split; [|split]].
  - unfold posture. cbn. rewrite lookup_insert_eq. cbn.
    change (stage 1) with (ask_secure ws body (stage 0)). unfold ask_secure.
    f_equal; [exact (f_equal po_sidecar Hp)|exact (f_equal po_capture Hp)].
  - intros other Hne. rewrite <- (Ho other Hne). unfold posture. cbn. by rewrite lookup_insert_ne.
  - cbn in *. rewrite Ha, !app_nil_r. unfold secure_rows, audit_write. cbn [po_secure].
    change (po_secure (stage 1)) with (secure_merged ws (pq_enabled body) (pq_level body)
      (pq_block_on_pii_detection body) (pq_block_on_injection_detection body)
      (pq_redact_pii_in_responses body) (po_secure (stage 0))).
    destruct (secure_changes _ _); by rewrite ?app_nil_r.
  - exact Hc.
Qed.

Lemma sidecar_stage :
  runs (At 1) (put_sidecar sidecar_unavailable_default ws body (actor_of ctx))
    (fun s w => At 2 w /\ s = po_sidecar (stage 2)) (At 1).
Proof.
  unfold put_sidecar. destruct (pq_sidecar_unavailable body) as [v|] eqn:Hv.
  - assert (Hd : po_sidecar (stage 2) = policy_from_db v) by (cbn; by rewrite Hv).
    apply runs_transaction; [apply _|]. intros w a t (Hp & Ho & Ha & Hc).
    assert (Hs : default fallback (policy_from_db <$> pt_sidecar (aw_state w) !! ws) = po_sidecar (stage 1))
      by (by rewrite <- Hp).
    assert (Hr : policy_from_db (policy_as_str (policy_from_db v)) = policy_from_db v)
      by (by destruct (policy_from_db v)).
    unfold sidecar_policy_upsert. rewrite Hs, Hr. intros [= <- <-]. split; [|done].
    split; [|split; [|split]].
    + unfold posture. cbn [pt_secure pt_sidecar pt_capture bump set_state aw_state].
      rewrite lookup_partial_alter_eq. cbn [fmap option_fmap option_map default from_option id]. rewrite Hr.
      change (stage 2) with (ask_sidecar body (stage 1)). unfold ask_sidecar. rewrite Hv. cbn [fmap option_fmap option_map default from_option id].
      f_equal; [exact (f_equal po_secure Hp)|exact (f_equal po_capture Hp)].
    + intros other Hne. rewrite <- (Ho other Hne). unfold posture. cbn. by rewrite lookup_partial_alter_ne.
    + cbn [pt_audit bump set_state aw_state]. cbn [Nat.leb] in *. rewrite app_nil_r in Ha. unfold sidecar_rows. rewrite Hd.
      destruct (decide _); [by rewrite app_nil_r|]. unfold audit_write. by rewrite Ha, app_assoc.
    + exact Hc.
  - assert (Hd : stage 2 = stage 1).
    { unfold stage, asked, ask_sidecar. rewrite Hv. by destruct (ask_secure _ _ _). }
    apply runs_transaction; [apply _|]. intros w a t (Hp & Ho & Ha & Hc).
    unfold get_effective, sidecar_policy_get. cbn [obind]. intros [= <- <-]. split.
    + split; [by rewrite Hd|]. split; [done|]. split; [|done]. cbn in *. rewrite Ha. unfold sidecar_rows.
      rewrite Hd, decide_True by done. by rewrite !app_nil_r.
    + rewrite Hd, <- Hp. done.
Qed.

Lemma capture_stage :
  runs (At 2) (put_capture ctx body) (fun c w => At 3 w /\ c = po_capture (stage 3)) (At 2).
Proof.
  assert (Hget : runs (At 2) (capture_get_effective ws) (fun c w => At 2 w /\ c = po_capture (stage 2)) (At 2)).
  { eapply runs_weaken; [apply runs_reading, _|done| |done]. intros c w [Hw ->]. split; [done|].
    destruct Hw as [Hp _]. by rewrite <- Hp. }
  assert (Hnone : names_capture body = false ->
    runs (At 2) (capture_get_effective ws) (fun c w => At 3 w /\ c = po_capture (stage 3)) (At 2)).
  { intros Hn. eapply runs_weaken; [exact Hget|done| |done].
    assert (Hd : stage 3 = stage 2).
    { unfold stage, asked, ask_capture. rewrite Hn. by destruct (ask_sidecar _ _). }
    intros c w [(Hp & Ho & Ha & Hc) ->]. rewrite Hd. split; [|done].
    split; [by rewrite Hd|]. split; [done|]. split; [done|]. cbn in *. unfold capture_rows. by rewrite Hn. }
  assert (Hsome : names_capture body = true ->
    runs (At 2)
      (current ← capture_get_effective ws;
       upsert_audited ws {| rw_enabled := default (rw_enabled current) (pq_capture_raw_content body);
                            rw_retention_days := default (rw_retention_days current)
                              (pq_raw_capture_retention_days body) |} (Some (jc_user_id ctx))
         (match actor_email ws (jc_user_id ctx) with Ok e => e | _ => None end))
      (fun c w => At 3 w /\ c = po_capture (stage 3)) (At 2)).
  { intros Hn. eapply runs_bind; [exact Hget|]. intros current. unfold upsert_audited.
    eapply runs_bind with (R := fun bs w => At 3 w /\ bs.2 = po_capture (stage 3)).
    - eapply (runs_weaken _ (fun w => At 2 w /\ current = po_capture (stage 2)) _
        (fun bs w => At 3 w /\ bs.2 = po_capture (stage 3)));
        [apply runs_transaction; [intros w' [Hw' ?]; by split|]|done|done|by intros w []].
      intros w a t [(Hp & Ho & Ha & Hc) ->] [= <- <-].
      assert (Hs : default RawCaptureSettings_default (pt_capture (aw_state w) !! ws) = po_capture (stage 2))
        by (by rewrite <- Hp).
      rewrite Hs.
      assert (Hd : stage 3 = ask_capture body (stage 2)) by done. unfold ask_capture in Hd. rewrite Hn in Hd.
      split; [|by rewrite Hd]. split; [|split; [|split]].
      + unfold posture. cbn [pt_secure pt_sidecar pt_capture bump set_state aw_state].
        rewrite lookup_insert_eq, Hd. cbn [default from_option id].
        f_equal; [exact (f_equal po_secure Hp)|exact (f_equal po_sidecar Hp)].
      + intros other Hne. rewrite <- (Ho other Hne). unfold posture. cbn. by rewrite lookup_insert_ne.
      + exact Ha.
      + cbn [pt_capture_audit bump set_state aw_state]. rewrite Hc. cbn [Nat.leb]. rewrite app_nil_r.
        unfold capture_rows. rewrite Hn. by rewrite Hd.
    - intros [before stored] w [Hw Hst]. cbn [snd] in Hst. subst stored. unfold mbind, AdmM_bind.
      by destruct (_ && _). }
  unfold put_capture. unfold names_capture in *.
  destruct (pq_capture_raw_content body), (pq_raw_capture_retention_days body); try (by apply Hsome); by apply Hnone.
Qed.

(** What a request must show before anything is written. *)
Definition admissible : Prop :=
  require_role (jc_role ctx) Admin = Ok tt
  /\ one_of $"level" VALID_LEVELS (pq_level body) = Ok tt
  /\ one_of $"sidecar_unavailable" VALID_SIDECAR_POLICIES (pq_sidecar_unavailable body) = Ok tt.

Lemma reached_start : reached 0 t0.
Proof. split; [done|]. split; [done|]. by rewrite !app_nil_r. Qed.

Lemma put_runs :
  runs (At 0) (put_secure_mode sidecar_unavailable_default ctx body)
    (fun resp w => (admissible /\ At 3 w) /\ exists time,
       resp = secure_mode_response (po_secure (stage 3), time) (po_sidecar (stage 3)) (po_capture (stage 3)))
    (fun w => exists k, k <= 2 /\ (0 < k -> admissible) /\ At k w).
Proof.
  set (E := fun w => exists k, _). assert (H0 : forall w : World, At 0 w -> E w) by (intros w Hw; exists 0; auto with lia).
  assert (Hcheck : forall {A} (r : result unit) (k : Adm A) (Q : A -> World -> Prop) (P : World -> Prop),
    (r = Ok tt -> runs P k Q E) -> (forall w, P w -> E w) -> runs P (adm_result r;; k) Q E).
  { intros A r k Q P Hk HP w Hw. unfold mbind, AdmM_bind, adm_result.
    destruct r as [[]|e|]; [by apply (Hk eq_refl)|by apply HP..]. }
  unfold put_secure_mode, admin_only. apply Hcheck; [|done]. intros Hrole. apply Hcheck; [|done]. intros Hlevel.
  apply Hcheck; [|done]. intros Hpol. assert (Hadm : admissible) by done.
  eapply runs_bind; [eapply runs_weaken; [apply secure_stage|done|done|done]|].
  intros [row time] w [Hw Hrow]. cbn [fst] in Hrow. subst row. revert w Hw.
  eapply runs_bind; [eapply runs_weaken; [apply sidecar_stage|done|done|]|].
  { intros w Hw. exists 1. auto. }
  intros s w [Hw ->]. revert w Hw. eapply runs_bind; [eapply runs_weaken; [apply capture_stage|done|done|]|].
  { intros w Hw. exists 2. auto. }
  intros c w [Hw ->]. cbn. split; [done|]. by exists time.
Qed.
End put.

(** Changing the posture is a prefix of three audited writes.  A PUT of
    the secure mode, whatever calls fail, does the first [k] of its three
    writes: secure mode, outage policy, capture.  It answers success exactly
    when it did all three, with the posture now in force; each write changes
    the fields the request names and no other, keeps the retention in bounds
    and leaves the other workspaces alone; and the two trails grow by exactly
    the rows that record what moved.  Nothing is written unless the caller is
    an administrator and every value is a known one; a request that fails never
    touches capture. *)
Theorem put_secure_mode_outcome ctx body w :
  let ws := jc_workspace_id ctx in
  let p k := asked ws body k (posture ws (aw_state w)) in
  let '(r, w') := put_secure_mode sidecar_unavailable_default ctx body w in
  let t := aw_state w in let t' := aw_state w' in
  exists k, k <= 3 /\ (0 < k -> admissible ctx body)
    /\ posture ws t' = p k
    /\ (forall other, other <> ws -> posture other t' = posture other t)
    /\ pt_audit t' = pt_audit t
         ++ (if 1 <=? k then secure_rows (actor_of ctx) ws (p 0) (p 1) else [])
         ++ (if 2 <=? k then sidecar_rows (actor_of ctx) ws (p 1) (p 2) else [])
    /\ pt_capture_audit t' = pt_capture_audit t ++ (if 3 <=? k then capture_rows ctx body (p 2) (p 3) else [])
    /\ match r with
       | Ok resp => k = 3 /\ exists time,
           resp = secure_mode_response (po_secure (p 3), time) (po_sidecar (p 3)) (po_capture (p 3))
       | _ => k <= 2 /\ po_capture (posture ws t') = po_capture (posture ws t)
       end.
Proof.
  cbv zeta. pose proof (put_runs ctx body (aw_state w) w (reached_start ctx body (aw_state w))) as Hr. revert Hr.
  destruct (put_secure_mode _ ctx body w) as [[resp|e|] w'].
  - intros [[Hadm (Hp & Ho & Ha & Hc)] Hresp]. exists 3. split_and!; try done; lia.
  - intros (k & Hk & Hadm & Hp & Ho & Ha & Hc). exists k. split_and!; try done; [lia|].
    rewrite Hp. destruct k as [|[|[|]]]; [done..|lia].
  - intros (k & Hk & Hadm & Hp & Ho & Ha & Hc). exists k. split_and!; try done; [lia|].
    rewrite Hp. destruct k as [|[|[|]]]; [done..|lia].
Qed.

(** ** Two administrators *)

(** The settings a request writes were read in another transaction: when
    capture is switched off in between, a request that only names the
    retention switches it on again. *)
Lemma capture_race ws user email user' email' days w current w1 off w2 final w3 :
  (forall n, tx_failure n = None) ->
  rw_enabled (default RawCaptureSettings_default (pt_capture (aw_state w) !! ws)) = true ->
  capture_get_effective ws w = (Ok current, w1) ->
  upsert_audited ws {| rw_enabled := false; rw_retention_days := rw_retention_days current |} user' email' w1
    = (Ok off, w2) ->
  upsert_audited ws {| rw_enabled := rw_enabled current; rw_retention_days := days |} user email w2
    = (Ok final, w3) ->
  rw_enabled off = false /\ rw_enabled final = true
  /\ pt_capture (aw_state w3) !! ws = Some final.
Proof.
  intros Hf Hon. unfold capture_get_effective, reading, upsert_audited, capture_write, transaction, mbind, AdmM_bind.
  repeat setoid_rewrite Hf. intros [= <- <-]. cbn. intros [= <- <-]. cbn. rewrite lookup_insert_eq. cbn. rewrite Hon.
  cbn. intros [= <- <-]. split_and!; [done..|]. cbn. by rewrite lookup_insert_eq.
Qed.
End spec.

(** ** Concrete changes of posture

    A workspace that redacts, blocks on nothing and has chosen to degrade; a
    PUT whose second write fails; two administrators at once. *)

Definition failing_at (k : nat) : AdminEnv := {|
  tx_failure n := if (n =? k)%nat then Some (Database $"connection reset") else None;
  fresh_id n := N.of_nat n;
  now_at n := Z.of_nat n;
  actor_email _ _ := Ok (Some $"a@x") |}.

Definition posture_admin : JwtAuthContext := {|
  jc_user_id := 7; jc_workspace_id := 1; jc_role := Admin; jc_jti := []; jc_exp := 0 |}.

Definition guarded : PostureTables := {|
  pt_secure := {[ 1%N := (secure_merged 1 (Some true) (Some $"strict") None None None (secure_default 1), 0%Z) ]};
  pt_sidecar := {[ 1%N := $"degrade_with_alert" ]};
  pt_capture := {[ 1%N := {| rw_enabled := true; rw_retention_days := 30 |} ]};
  pt_audit := []; pt_capture_audit := [] |}.

Definition guarded_world : AdminWorld PostureTables CaptureAlert :=
  {| aw_state := guarded; aw_calls := 0; aw_sent := [] |}.

(** Secure mode off, but closed when the detector is down. *)
Definition trade : PutSecureModeRequest := {|
  pq_enabled := Some false; pq_level := None; pq_block_on_pii_detection := None;
  pq_block_on_injection_detection := None; pq_redact_pii_in_responses := None;
  pq_sidecar_unavailable := Some $"block"; pq_capture_raw_content := None;
  pq_raw_capture_retention_days := None |}.

(** The second write fails: secure mode is off, and the outage policy keeps
    the looser value the request replaced. *)
Example partial_put_loosens :
  let '(r, w) := @put_secure_mode (failing_at 1) $"block" posture_admin trade guarded_world in
  match r with Ok _ => False | _ => True end
  /\ sm_enabled (po_secure (posture $"block" 1 (aw_state w))) = false
  /\ po_sidecar (posture $"block" 1 (aw_state w)) = DegradeWithAlert
  /\ length (pt_audit (aw_state w)) = 1.
Proof. vm_compute. auto. Qed.

Example whole_put :
  let '(r, w) := @put_secure_mode (failing_at 9) $"block" posture_admin trade guarded_world in
  match r with Ok resp => sr_sidecar_unavailable resp = $"block" | _ => False end
  /\ length (pt_audit (aw_state w)) = 2 /\ pt_capture_audit (aw_state w) = [].
Proof. vm_compute. auto. Qed.

(** The trail of the race: the second row says this administrator switched
    capture on. *)
Example capture_race_trail :
  let on := {| rw_enabled := true; rw_retention_days := 30 |} in
  let '(_, w1) := @upsert_audited (failing_at 9) 1 {| rw_enabled := false; rw_retention_days := 30 |}
    (Some 8%N) None guarded_world in
  let '(_, w2) := @upsert_audited (failing_at 9) 1 {| rw_enabled := rw_enabled on; rw_retention_days := 60 |}
    (Some 7%N) None w1 in
  (fun r => (rc_actor_user_id r, rc_enabled_before r, rc_enabled_after r)) <$> pt_capture_audit (aw_state w2)
  = [(Some 8%N, true, false); (Some 7%N, false, true)].
Proof. vm_compute. reflexivity. Qed.
