(* ===== verification/Tools.v ===== *)
(** * The tool routes: tokenize, detokenize, redact, policy check, stash

    POST tokenize and detokenize of http/routes/dashboard/secure_mode.rs,
    http/sidecar_coverage.rs, db/token_vault_repo.rs, the routes of
    http/routes/mcp_routes.rs and the file vault of redis/mod.rs.  Handlers
    run in the world of [AdminTx]; what they send are alerts.  Times are in
    microseconds. *)

From S2P Require Import Prelude Rstr Json Types Providers Redaction Sidecar Policy Roles AdminAudit.
From S2P Require Import Sessions AdminTx Pipeline PolicyAdmin.

(** A row of [token_vault_entries]. *)
Record VaultRow : Type := {
  vr_id : Uuid;
  vr_workspace_id : Uuid;
  vr_ciphertext : str;
  vr_created_at : Z;
  vr_expires_at : Z;
}.

(** The shared sidecar client, the tables the routes read or write, and the
    Redis keys of the file vault with their times of expiry. *)
Record ToolTables : Type := {
  tl_sidecar : MlSidecarClient;
  tl_policies : gmap Uuid str;
  tl_rules : list StoredRule;
  tl_vault : list VaultRow;
  tl_stash : gmap str (str * Z);
}.

Inductive ToolAlert : Type :=
  | CoverageLost (request_id : RequestId) (workspace_id : Uuid) (reason action : str)
  | VaultEncryptFailed
  | FileVaultEncryptFailed
  | FileVaultDecryptFailed.

(** What the sidecar answers to the [n]-th call: the clock and the replies,
    chunk by chunk. *)
Class ScanEnv := {
  scan_now : nat -> N;
  scan_chunks : nat -> nat -> ChunkEnv;
}.

(** [serde_json] on a map of strings: it reads back what it writes. *)
Class MapJson := {
  map_to_json : gmap str str -> str;
  map_of_json : str -> gmap str str + str;
  map_of_to_json m : map_of_json (map_to_json m) = inl m;
}.

Definition SECOND : Z := 1000000.
(** The default of [expires_at]: NOW() + INTERVAL '24 hours'. *)
Definition VAULT_TTL : Z := 24 * 3600 * SECOND.
Definition FILE_VAULT_TTL_SECS : Z := 6 * 60 * 60.

(** ** Placeholder classes *)

Fixpoint rfind_byte (c : ascii) (s : str) : option nat :=
  match s with
  | [] => None
  | x :: s' =>
      match rfind_byte c s' with
      | Some i => Some (S i)
      | None => if bool_decide (x = c) then Some 0 else None
      end
  end.

Definition strip_suffix (s pat : str) : option str :=
  if ends_with s pat then Some (take (length s - length pat) s) else None.

Definition class_from_placeholder `{CaseMap} (placeholder : str) : option str :=
  inner ← strip_prefix placeholder $"{{" ≫= fun s => strip_suffix s $"}}";
  idx ← rfind_byte "_"%char inner;
  let class_part := take idx inner in
  let index_part := drop_while (fun c => bool_decide (c = "_"%char)) (drop idx inner) in
  if bool_decide (class_part = []) then None
  else if bool_decide (index_part = []) || negb (forallb is_ascii_digit index_part) then None
  else Some (to_uppercase class_part).

(** [*entity_counts.entry(class).or_default() += 1] *)
Definition count_class (counts : gmap str N) (class : str) : gmap str N :=
  <[class := u32_succ (default 0%N (counts !! class))]> counts.

Definition count_entities `{CaseMap} (placeholders : list str) : gmap str N :=
  foldl (fun counts p => match class_from_placeholder p with
                         | Some c => count_class counts c
                         | None => counts
                         end) ∅ placeholders.

Record TokenizeRequest : Type := { tq_text : str; tq_entity_labels : option (list str) }.
Record TokenizeResponse : Type := {
  tr_tokenized_text : str; tr_token_vault_id : Uuid; tr_entity_counts : gmap str N }.
Record DetokenizeRequest : Type := { dq_token_vault_id : Uuid; dq_text : str }.

Record RedactResponse : Type := {
  rd_redacted_text : str; rd_detections : list (str * str); rd_vault_size : nat }.
Record PolicyCheckRequest : Type := { pk_text : str; pk_model : option str }.
Record PolicyCheckResponse : Type := { pc_allowed : bool; pc_action : str; pc_events : list str }.

(** An answer with the [x-secureprompt-sidecar-degraded] header, if set. *)
Definition Answer (A : Type) : Type := option str * A.

Definition with_sidecar_degraded {A} (body : A) (reason : option CoverageLoss) : Answer A :=
  (CoverageLoss_as_str <$> reason, body).

Section tools.
Context `{CaseMap} `{HashOrder} `{AdminEnv} `{KmsEnv} `{ScanEnv} `{MapJson}.
(** [regex::Regex::new], [detect_content], [merge_detections], the two
    settings of the deployment, and [PolicyEvent]'s Debug. *)
Context (regex_new : str -> option (str -> bool)) (detect_content : floor_detector)
  (merge_detections : merger) (sidecar_unavailable_default : str) (redact_when_no_rules : bool)
  (debug_event : PolicyEvent -> str).

#[local] Abbreviation Adm := (AdmM ToolTables ToolAlert).

Definition raise_alert (a : ToolAlert) : Adm unit := outbound (fun _ => (tt, [a])).

(** ** http/sidecar_coverage.rs *)

Definition with_sidecar (cl : MlSidecarClient) (t : ToolTables) : ToolTables := {|
  tl_sidecar := cl; tl_policies := tl_policies t; tl_rules := tl_rules t; tl_vault := tl_vault t;
  tl_stash := tl_stash t |}.

(** [state.ml_sidecar.detect_if_available] *)
Definition detect (text : str) : Adm MlDetectionOutcome := fun w =>
  let n := aw_calls w in
  let '(outcome, cl) :=
    detect_if_available (tl_sidecar (aw_state w)) (scan_now n) (scan_chunks n) text in
  (Ok outcome, bump (set_state (with_sidecar cl (aw_state w)) w)).

Definition effective_policy (ws : Uuid) : Adm SidecarUnavailablePolicy :=
  read ← adm_attempt (transaction (fun _ t =>
           (get_effective (Ok (tl_policies t !! ws)) (policy_from_db sidecar_unavailable_default), t)));
  mret (match read with Ok p => p | _ => policy_default end).

Definition enforce (request_id : RequestId) (ws : Uuid) (coverage : SidecarCoverage)
    : Adm (option CoverageLoss) :=
  policy ← effective_policy ws;
  match sidecar_gate coverage policy with
  | Sidecar.Proceed => mret None
  | GateBlock reason =>
      raise_alert (CoverageLost request_id ws (CoverageLoss_as_str reason) (policy_as_str Block));;
      adm_result (Err coverage_unavailable)
  | GateDegrade reason =>
      raise_alert (CoverageLost request_id ws (CoverageLoss_as_str reason) (policy_as_str DegradeWithAlert));;
      mret (Some reason)
  end.

(** ** db/token_vault_repo.rs *)

(** A text encrypted, or the alert and the error of the caller. *)
Definition encrypt (alert : ToolAlert) (what plaintext : str) : Adm str :=
  sealed ← numbered (fun n => kms_seal n plaintext);
  match sealed with
  | inr e => raise_alert alert;; adm_result (Err (Internal (what ++ $": " ++ e)))
  | inl ciphertext =>
      if utf8_valid ciphertext then mret ciphertext
      else raise_alert alert;; adm_result (Err (Internal (what ++ $": ciphertext not UTF-8")))
  end.

Definition vault_seal (mapping : gmap str str) : Adm str :=
  encrypt VaultEncryptFailed $"vault encrypt" (map_to_json mapping).

Definition vault_unseal (ciphertext : str) : Adm (gmap str str) :=
  opened ← numbered (fun n => kms_open n ciphertext);
  match opened with
  | inr e => adm_result (Err (Internal ($"vault decrypt: " ++ e)))
  | inl plaintext =>
      match map_of_json plaintext with
      | inl mapping => mret mapping
      | inr e => adm_result (Err (Internal ($"vault deserialize: " ++ e)))
      end
  end.

Definition with_vault (l : list VaultRow) (t : ToolTables) : ToolTables := {|
  tl_sidecar := tl_sidecar t; tl_policies := tl_policies t; tl_rules := tl_rules t; tl_vault := l;
  tl_stash := tl_stash t |}.

Definition vault_row (id ws : Uuid) (ciphertext : str) (now : Z) : VaultRow := {|
  vr_id := id; vr_workspace_id := ws; vr_ciphertext := ciphertext; vr_created_at := now;
  vr_expires_at := now + VAULT_TTL |}.

Definition vault_insert_row (id ws : Uuid) (mapping : gmap str str) : Adm VaultRow :=
  ciphertext ← vault_seal mapping;
  transaction (fun n t =>
    let row := vault_row id ws ciphertext (now_at n) in
    (Ok row, with_vault (tl_vault t ++ [row]) t)).

Definition live_entry (id ws : Uuid) (now : Z) (r : VaultRow) : bool :=
  (vr_id r =? id)%N && (vr_workspace_id r =? ws)%N && (now <? vr_expires_at r)%Z.

Definition entry_not_found (id : Uuid) : ApiError :=
  NotFound ($"token vault entry " ++ show_uuid id ++ $" not found or expired").

Definition vault_get (id ws : Uuid) : Adm (gmap str str) :=
  row ← transaction (fun n t =>
          (match List.find (live_entry id ws (now_at n)) (tl_vault t) with
           | Some r => Ok r
           | None => Err (entry_not_found id)
           end, t));
  vault_unseal (vr_ciphertext row).

(** ** tokenize and detokenize *)

Definition label_allowed (allowed : option (list str)) (d : Detection) : bool :=
  match allowed with
  | None => true
  | Some l => existsb (fun label => eq_ignore_ascii_case label (class d)) l
  end.

Definition tokenize_detections (text : str) (ml : list MlDetection) (allowed : option (list str))
    : list Detection :=
  List.filter (label_allowed allowed) (merge_detections (detect_content text) ml).

Definition tokenize_guard (text : str) : result unit :=
  if bool_decide (text = []) then Err (BadRequest $"text must not be empty")
  else if (32 * 1024 <? slen text)%N then Err (BadRequest $"text exceeds 32 KiB limit")
  else Ok tt.

Definition tokenize (ctx : JwtAuthContext) (body : TokenizeRequest) : Adm (Answer TokenizeResponse) :=
  adm_result (tokenize_guard (tq_text body));;
  outcome ← detect (tq_text body);
  request_id ← numbered fresh_id;
  degraded ← enforce request_id (jc_workspace_id ctx) (ml_coverage outcome);
  let allowed := (fun labels : list str => to_uppercase <$> labels) <$> tq_entity_labels body in
  let detections := tokenize_detections (tq_text body) (ml_detections outcome) allowed in
  '(tokenized_text, _, mapping) ←
     adm_result (or_panic (apply_redaction (tq_text body) detections TokenVault_default ∅));
  vault_id ← numbered fresh_id;
  vault_insert_row vault_id (jc_workspace_id ctx) mapping;;
  mret (with_sidecar_degraded
          {| tr_tokenized_text := tokenized_text; tr_token_vault_id := vault_id;
             tr_entity_counts := count_entities (hash_iter mapping).*1 |} degraded).

Definition detokenize (ctx : JwtAuthContext) (body : DetokenizeRequest) : Adm str :=
  mapping ← vault_get (dq_token_vault_id body) (jc_workspace_id ctx);
  let vault := foldl (fun v kv => vault_insert v kv.1 kv.2) TokenVault_default (hash_iter mapping) in
  mret (restore_content (dq_text body) vault).

(** ** http/routes/mcp_routes.rs *)

(** The rules of a workspace, as the engine asks for them. *)
Definition enabled_rules (ws : Uuid) : Adm (list PolicyRuleRow) :=
  transaction (fun _ t =>
    (list_enabled_rules (Ok (sr_rule <$> sort_by rule_leb (List.filter (of_workspace ws) (tl_rules t)))), t)).

(** The floor, the sidecar and the gate, as [redact] and [policy_check] begin. *)
Definition scan (request_id : RequestId) (ws : Uuid) (text : str)
    : Adm (option CoverageLoss * list Detection) :=
  outcome ← detect text;
  degraded ← enforce request_id ws (ml_coverage outcome);
  mret (degraded, merge_detections (detect_content text) (ml_detections outcome)).

Definition policy_outcome (request_id : RequestId) (ws : Uuid) (model text : str) (ds : list Detection)
    (v : TokenVault) (m : gmap str str) : Adm (PolicyEvaluationOutcome * TokenVault * gmap str str) :=
  rules ← enabled_rules ws;
  adm_result (evaluate regex_new (Ok rules)
    {| pe_request_id := request_id; pe_workspace_id := ws; provider_name := $"none"; Policy.model := model;
       pe_content := text; pe_detections := ds; fail_closed := redact_when_no_rules |} v m).

Definition redact (auth : result AuthContext) (text : str) : Adm (Answer RedactResponse) :=
  auth ← adm_result auth;
  request_id ← numbered fresh_id;
  '(degraded, ds) ← scan request_id (au_workspace_id auth) text;
  '(redacted_text, vault, redaction_map) ←
     adm_result (or_panic (apply_redaction text ds TokenVault_default ∅));
  '(outcome, vault, _) ←
     policy_outcome request_id (au_workspace_id auth) $"none" text ds vault redaction_map;
  mret (with_sidecar_degraded
          {| rd_redacted_text := if denied outcome then redacted_text else oc_content outcome;
             rd_detections := (fun d => (class d, value d)) <$> ds;
             rd_vault_size := vault_len vault |} degraded).

Definition policy_check (auth : result AuthContext) (body : PolicyCheckRequest)
    : Adm (Answer PolicyCheckResponse) :=
  auth ← adm_result auth;
  request_id ← numbered fresh_id;
  '(degraded, ds) ← scan request_id (au_workspace_id auth) (pk_text body);
  '(outcome, _, _) ←
     policy_outcome request_id (au_workspace_id auth) (default $"none" (pk_model body)) (pk_text body) ds
       TokenVault_default ∅;
  mret (with_sidecar_degraded
          {| pc_allowed := negb (denied outcome); pc_action := final_action (oc_result outcome);
             pc_events := debug_event <$> events (oc_result outcome) |} degraded).

(** [(len as f64 / 4.0).ceil() as u64], exact below 2^53. *)
Definition tokens_estimate (text : str) (model : option str) : N * str :=
  (((slen text + 3) / 4)%N, default $"unknown" model).

(** ** The file vault of redis/mod.rs *)

Definition filevault_key (vault_ref : str) : str := $"filevault:" ++ vault_ref.

Definition with_stash (m : gmap str (str * Z)) (t : ToolTables) : ToolTables := {|
  tl_sidecar := tl_sidecar t; tl_policies := tl_policies t; tl_rules := tl_rules t;
  tl_vault := tl_vault t; tl_stash := m |}.

(** A checkout or a command that fails is a failed transaction. *)
Definition stash_file_vault (vault_ref map_json : str) (ttl_secs : Z) : Adm unit :=
  ciphertext ← encrypt FileVaultEncryptFailed $"file vault encrypt" map_json;
  transaction (fun n t =>
    (Ok tt, with_stash (<[filevault_key vault_ref := (ciphertext, (now_at n + ttl_secs * SECOND)%Z)]>
                          (tl_stash t)) t)).

Definition redis_get (key : str) : Adm (option str) := transaction (fun n t =>
  (Ok (match tl_stash t !! key with
       | Some (v, expires) => if (now_at n <? expires)%Z then Some v else None
       | None => None
       end), t)).

Definition load_file_vault (vault_ref : str) : Adm (option str) :=
  stored ← adm_attempt (redis_get (filevault_key vault_ref));
  match stored with
  | Ok (Some stored) =>
      opened ← numbered (fun n => kms_open n stored);
      match opened with
      | inl plaintext => mret (if utf8_valid plaintext then Some plaintext else None)
      | inr _ => raise_alert FileVaultDecryptFailed;; mret None
      end
  | _ => mret None
  end.

Definition vault_stash (auth : result AuthContext) (token_map : gmap str str) : Adm str :=
  adm_result auth;;
  if bool_decide (token_map = ∅) then mret []
  else
    request_id ← numbered fresh_id;
    let vault_ref := show_uuid request_id in
    stash_file_vault vault_ref (map_to_json token_map) FILE_VAULT_TTL_SECS;;
    mret vault_ref.

(** The map behind a reference as [preload_file_vault] reads it. *)
Definition load_map (vault_ref : str) : Adm (option (list (str * str))) :=
  json ← load_file_vault vault_ref;
  mret (json ≫= fun j => match map_of_json j with inl m => Some (hash_iter m) | inr _ => None end).
End tools.
