(* ===== verification/ToolsSpec.v ===== *)
(** * What the tool routes guarantee *)

From S2P Require Import Prelude Rstr Json Types Placeholders Redaction RedactionSpec Sidecar Policy.
From S2P Require Import Roles AdminAudit Sessions AdminTx Pipeline PolicyAdmin Tools.

(** ** Undoing redaction *)

Lemma foldl_insert (l : list (str * str)) v :
  entries (foldl (fun v kv => vault_insert v kv.1 kv.2) v l)
  = list_to_map (reverse l) ∪ entries v.
Proof.
  revert v. induction l as [|[k x] l IH]; intros v; cbn [foldl]; [cbn; by rewrite (left_id_L ∅ (∪))|].
  rewrite IH, reverse_cons, list_to_map_app, <- (assoc_L (∪)). cbn.
  by rewrite <- insert_union_l, (left_id_L ∅ (∪)).
Qed.

(** Inserting the entries of a map one by one gives the map. *)
Lemma rebuild_vault `{HashOrder} (m : gmap str str) :
  entries (foldl (fun v kv => vault_insert v kv.1 kv.2) TokenVault_default (hash_iter m)) = m.
Proof.
  rewrite foldl_insert. cbn [TokenVault_default entries]. rewrite (right_id_L ∅ (∪)).
  assert (Hp : reverse (hash_iter m) ≡ₚ map_to_list m) by (by rewrite reverse_Permutation, hash_iter_perm).
  rewrite <- (list_to_map_to_list m) at 2. apply list_to_map_proper; [|done].
  rewrite Hp. apply NoDup_fst_map_to_list.
Qed.

(** Conditions under which redaction can be undone (RedactionSpec.v). *)
Definition restorable (text : str) (ds : list Detection) : Prop :=
  atoms_ok (Chr <$> text) /\ Forall (span_honest text) ds /\ Forall (fun d => class_ok (class d)) ds /\
  (N.of_nat (length ds) < 2 ^ 32)%N.

Lemma restorable_filter text p ds : restorable text ds -> restorable text (List.filter p ds).
Proof.
  intros (Ht & Hh & Hc & Hn). split_and!; [done|..].
  1,2: rewrite Forall_forall in *; intros d [Hd _]%list_elem_of_In%filter_In; auto using list_elem_of_In.
  - apply Hh. by apply list_elem_of_In.
  - apply Hc. by apply list_elem_of_In.
  - pose proof (List.filter_length_le p ds). lia.
Qed.


Section spec.
Context `{CaseMap} `{HashOrder} `{AdminEnv} `{KmsEnv} `{ScanEnv} `{MapJson}.
Context (regex_new : str -> option (str -> bool)) (detect_content : floor_detector)
  (merge_detections : merger) (sidecar_unavailable_default : str) (redact_when_no_rules : bool)
  (debug_event : PolicyEvent -> str).

#[local] Abbreviation Adm := (AdmM ToolTables ToolAlert).
#[local] Abbreviation World := (AdminWorld ToolTables ToolAlert).
#[local] Abbreviation tokenize' := (tokenize detect_content merge_detections sidecar_unavailable_default).
#[local] Abbreviation redact' :=
  (redact regex_new detect_content merge_detections sidecar_unavailable_default redact_when_no_rules).
#[local] Abbreviation policy_check' :=
  (policy_check regex_new detect_content merge_detections sidecar_unavailable_default redact_when_no_rules
     debug_event).
#[local] Abbreviation enforce' := (enforce sidecar_unavailable_default).

(** ** Histories *)

(** What the routes and the rest of the system do to the tables: an
    administrator's changes, and the worker's purge of expired entries. *)
Inductive ToolCall : Type :=
  | CTokenize (ctx : JwtAuthContext) (body : TokenizeRequest)
  | CDetokenize (ctx : JwtAuthContext) (body : DetokenizeRequest)
  | CRedact (auth : result AuthContext) (text : str)
  | CCheck (auth : result AuthContext) (body : PolicyCheckRequest)
  | CStash (auth : result AuthContext) (token_map : gmap str str)
  | CLoad (vault_ref : str)
  | CSettings (policies : gmap Uuid str) (rules : list StoredRule)
  | CPurge.

Definition settings (policies : gmap Uuid str) (rules : list StoredRule) : Adm unit :=
  transaction (fun _ t => (Ok tt, {|
    tl_sidecar := tl_sidecar t; tl_policies := policies; tl_rules := rules; tl_vault := tl_vault t;
    tl_stash := tl_stash t |})).

Definition purge : Adm unit := transaction (fun n t =>
  (Ok tt, with_vault (List.filter (fun r => negb (vr_expires_at r <=? now_at n)%Z) (tl_vault t)) t)).

Definition handle_tool (c : ToolCall) : Adm unit :=
  match c with
  | CTokenize ctx body => forget (tokenize' ctx body)
  | CDetokenize ctx body => forget (detokenize ctx body)
  | CRedact auth text => forget (redact' auth text)
  | CCheck auth body => forget (policy_check' auth body)
  | CStash auth m => forget (vault_stash auth m)
  | CLoad r => forget (load_map r)
  | CSettings policies rules => settings policies rules
  | CPurge => purge
  end.

Definition run_tools (cs : list ToolCall) (w : World) : World := foldl (fun w c => (handle_tool c w).2) w cs.

(** ** Properties of a part of the tables *)

(** [P] looks at [f] of the tables only. *)
Class Sees {X} (f : ToolTables -> X) (P : World -> Prop) : Prop := {
  sees_stable :: Stable P;
  sees_state : forall w t, f t = f (aw_state w) -> P w -> P (set_state t w) }.

Section sees.
Context {X} (f : ToolTables -> X) (P : World -> Prop) `{!Sees f P}.

Lemma keeps_tx {A} (body : nat -> ToolTables -> result A * ToolTables) :
  (forall n t a t', body n t = (Ok a, t') -> f t' = f t) -> keeps P (transaction body).
Proof.
  intros Hb. apply runs_transaction; [apply _|]. intros w a t Hw Ht. apply stable_bump, sees_state; [|done].
  by eapply Hb.
Qed.

Lemma keeps_alert a : keeps P (raise_alert a).
Proof. apply keeps_outbound, _. Qed.

Lemma keeps_detect text : (forall cl t, f (with_sidecar cl t) = f t) -> keeps P (detect text).
Proof.
  intros Hf w Hw. unfold detect. destruct (detect_if_available _ _ _ _) as [o cl].
  apply stable_bump, sees_state; [apply Hf|done].
Qed.

Lemma keeps_enforce rid ws cov : keeps P (enforce' rid ws cov).
Proof.
  apply keeps_bind.
  - apply keeps_bind; [|intros; apply keeps_ret]. apply keeps_attempt, keeps_tx. by intros n t a t' [= _ <-].
  - intros p. destruct (sidecar_gate _ _); [apply keeps_ret|..]; (apply keeps_bind; [apply keeps_alert|]);
      intros; [apply keeps_result|apply keeps_ret].
Qed.

Lemma keeps_encrypt al what plain : keeps P (encrypt al what plain).
Proof.
  apply keeps_bind; [apply keeps_numbered, _|]. intros [c|e]; [case_match; [apply keeps_ret|]|];
    (apply keeps_bind; [apply keeps_alert|intros; apply keeps_result]).
Qed.

Lemma keeps_unseal c : keeps P (vault_unseal c).
Proof.
  apply keeps_bind; [apply keeps_numbered, _|]. intros [p|e]; [case_match|]; first [apply keeps_ret|apply keeps_result].
Qed.

Lemma keeps_detokenize ctx body : keeps P (detokenize ctx body).
Proof.
  apply keeps_bind; [|intros; apply keeps_ret]. apply keeps_bind; [|intros; apply keeps_unseal].
  apply keeps_tx. intros n t a t'. by destruct (List.find _ _); intros [= _ <-].
Qed.

Lemma keeps_scan rid ws text : (forall cl t, f (with_sidecar cl t) = f t) ->
  keeps P (scan detect_content merge_detections sidecar_unavailable_default rid ws text).
Proof.
  intros Hf. apply keeps_bind; [by apply keeps_detect|]. intros o.
  apply keeps_bind; [apply keeps_enforce|intros; apply keeps_ret].
Qed.

Lemma keeps_policy_outcome rid ws mdl text ds v m :
  keeps P (policy_outcome regex_new redact_when_no_rules rid ws mdl text ds v m).
Proof.
  apply keeps_bind; [|intros; apply keeps_result]. apply keeps_tx. by intros n t a t' [= _ <-].
Qed.

Lemma keeps_redact auth text : (forall cl t, f (with_sidecar cl t) = f t) -> keeps P (redact' auth text).
Proof.
  intros Hf. apply keeps_bind; [apply keeps_result|]. intros a. apply keeps_bind; [apply keeps_numbered, _|].
  intros rid. apply keeps_bind; [by apply keeps_scan|]. intros [l ds].
  apply keeps_bind; [apply keeps_result|]. intros [[o v] m].
  apply keeps_bind; [apply keeps_policy_outcome|]. intros [[o' v'] m']. apply keeps_ret.
Qed.

Lemma keeps_policy_check auth body : (forall cl t, f (with_sidecar cl t) = f t) ->
  keeps P (policy_check' auth body).
Proof.
  intros Hf. apply keeps_bind; [apply keeps_result|]. intros a. apply keeps_bind; [apply keeps_numbered, _|].
  intros rid. apply keeps_bind; [by apply keeps_scan|]. intros [l ds].
  apply keeps_bind; [apply keeps_policy_outcome|]. intros [[o' v'] m']. apply keeps_ret.
Qed.

Lemma keeps_load r : keeps P (load_map r).
Proof.
  apply keeps_bind; [|intros; apply keeps_ret]. apply keeps_bind.
  - apply keeps_attempt, keeps_tx. intros n t a t'. by intros [= _ <-].
  - intros [[c|]|e|]; [|apply keeps_ret..]. apply keeps_bind; [apply keeps_numbered, _|].
    intros [p|e]; [apply keeps_ret|]. apply keeps_bind; [apply keeps_alert|intros; apply keeps_ret].
Qed.
End sees.

(** ** Tokens *)

Section tokens.
Context (fresh_inj : forall j k, fresh_id j = fresh_id k -> j = k)
  (clock : forall j k, j <= k -> (now_at j <= now_at k)%Z)
  (kms_law : forall i j p c q, kms_seal i p = inl c -> kms_open j c = inl q -> q = p).

(** No entry has an identifier still to be drawn. *)
Definition untaken (w : World) : Prop :=
  forall r j, r ∈ tl_vault (aw_state w) -> aw_calls w <= j -> fresh_id j <> vr_id r.

(** The entry [r] is stored until it expires, and its identifier is its own. *)
Record known (r : VaultRow) (w : World) : Prop := {
  kn_stored : r ∈ tl_vault (aw_state w) \/ (vr_expires_at r <= now_at (aw_calls w))%Z;
  kn_unique : forall r', r' ∈ tl_vault (aw_state w) -> vr_id r' = vr_id r -> r' = r;
  kn_drawn : forall j, aw_calls w <= j -> fresh_id j <> vr_id r;
}.

#[local] Instance untaken_sees : Sees tl_vault untaken.
Proof.
  split; [split|].
  - intros w Hw r j Hr Hj. apply Hw; [done|]. cbn in Hj. lia.
  - done.
  - intros w t Ht Hw r j. cbn. rewrite Ht. apply Hw.
Qed.

#[local] Instance known_sees r : Sees tl_vault (known r).
Proof using All.
  split; [split|].
  - intros w [Hs Hu Hd]. split; [|done|].
    + destruct Hs as [Hs|Hs]; [by left|]. right. pose proof (clock (aw_calls w) (S (aw_calls w))). cbn. lia.
    + intros j Hj. apply Hd. cbn in Hj. lia.
  - by intros w calls [Hs Hu Hd].
  - intros w t Ht [Hs Hu Hd]. split; cbn; rewrite ?Ht; done.
Qed.

#[local] Instance known_and_sees r (F : Prop) : Sees tl_vault (fun w => known r w /\ F).
Proof using All.
  split; [split|].
  - intros w [Hw Hf]. split; [by apply stable_bump|done].
  - intros w l [Hw Hf]. split; [by apply stable_sent|done].
  - intros w t Ht [Hw Hf]. split; [by apply (sees_state (f := tl_vault))|done].
Qed.

Lemma vault_insert_keeps r id ws m :
  id <> vr_id r -> keeps (known r) (vault_insert_row id ws m).
Proof using All.
  intros Hid. apply keeps_bind; [apply (keeps_encrypt tl_vault _)|]. intros c.
  apply runs_transaction; [apply _|]. cbn. intros w a t Hw [= _ <-].
  apply stable_bump. destruct Hw as [Hs Hu Hd]. split; cbn.
  - rewrite elem_of_app. destruct Hs as [Hs|Hs]; [by left; left|by right].
  - intros r' [Hr'| ->%list_elem_of_singleton]%elem_of_app He; [by apply Hu|]. by cbn in He.
  - done.
Qed.

Lemma runs_pure {A} (F : Prop) (P : World -> Prop) (x : Adm A) Q E :
  (F -> runs P x Q E) -> runs (fun w => P w /\ F) x Q E.
Proof using Type. intros Hx w [Hw HF]. by apply Hx. Qed.

Lemma tokenize_keeps r ctx body : keeps (known r) (tokenize' ctx body).
Proof using All.
  apply keeps_bind; [apply keeps_result|]. intros _.
  apply keeps_bind; [by apply (keeps_detect tl_vault _)|]. intros o.
  apply keeps_bind; [apply keeps_numbered, _|]. intros rid.
  apply keeps_bind; [apply (keeps_enforce tl_vault _)|]. intros l.
  apply keeps_bind; [apply keeps_result|]. intros [[out v] m].
  eapply (runs_bind _ _ _ (fun id w => known r w /\ id <> vr_id r)).
  { intros w Hw. split; [by apply stable_bump|]. by apply (kn_drawn _ _ Hw). }
  intros id. apply runs_pure. intros Hid. apply keeps_bind; [by apply vault_insert_keeps|].
  intros. apply keeps_ret.
Qed.

Lemma purge_keeps r : keeps (known r) purge.
Proof using All.
  apply runs_transaction; [apply _|]. intros w a t Hw [= _ <-]. apply stable_bump.
  destruct Hw as [Hs Hu Hd]. split; cbn; [|intros r' [Hr' _]%list_elem_of_In%filter_In; by apply Hu, list_elem_of_In|done].
  destruct Hs as [Hs|Hs]; [|by right]. destruct (vr_expires_at r <=? now_at (aw_calls w))%Z eqn:He; [right; lia|].
  left. apply list_elem_of_In, filter_In. rewrite He. split; [by apply list_elem_of_In|done].
Qed.

Lemma stash_keeps r auth m : keeps (known r) (vault_stash auth m).
Proof using All.
  apply keeps_bind; [apply keeps_result|]. intros _. case_match; [apply keeps_ret|].
  apply keeps_bind; [apply keeps_numbered, _|]. intros rid. apply keeps_bind; [|intros; apply keeps_ret].
  apply keeps_bind; [apply (keeps_encrypt tl_vault _)|]. intros c.
  apply (keeps_tx tl_vault _). by intros n t a t' [= _ <-].
Qed.

Lemma tool_keeps r c : keeps (known r) (handle_tool c).
Proof using All.
  destruct c; cbn [handle_tool]; try apply keeps_forget.
  - apply tokenize_keeps.
  - apply (keeps_detokenize tl_vault _).
  - by apply (keeps_redact tl_vault _).
  - by apply (keeps_policy_check tl_vault _).
  - apply stash_keeps.
  - apply (keeps_load tl_vault _).
  - apply (keeps_tx tl_vault _). by intros n t a t' [= _ <-].
  - apply purge_keeps.
Qed.

Lemma run_tools_known r cs w : known r w -> known r (run_tools cs w).
Proof using All.
  revert w. induction cs as [|c cs IH]; intros w Hw; [done|]. apply IH.
  pose proof (tool_keeps r c w Hw). by destruct (handle_tool c w) as [[] w'].
Qed.

(** What the sidecar finds when it is asked now. *)
Definition scanned (w : World) (text : str) : MlDetectionOutcome :=
  (detect_if_available (tl_sidecar (aw_state w)) (scan_now (aw_calls w)) (scan_chunks (aw_calls w)) text).1.


(** ** What a tokenize leaves behind *)

(** The identifier is drawn, and not that of an entry or of one to come. *)
Definition drawn (id : Uuid) (w : World) : Prop := exists k, id = fresh_id k /\ k < aw_calls w /\
  forall r j, r ∈ tl_vault (aw_state w) -> k <= j -> fresh_id j <> vr_id r.

#[local] Instance drawn_sees id : Sees tl_vault (drawn id).
Proof.
  split; [split|].
  - intros w (k & ? & ? & Hf). exists k. split_and!; [done|cbn; lia|done].
  - done.
  - intros w t Ht (k & ? & ? & Hf). exists k. split_and!; [done|done|]. cbn. by rewrite Ht.
Qed.

Lemma keeps_runs {A} (P : World -> Prop) (x : Adm A) : keeps P x -> runs P x (fun _ => P) (fun _ => True).
Proof using Type. intros Hx. by eapply runs_weaken. Qed.

Lemma result_runs {A} (P : World -> Prop) (r : result A) : runs P (adm_result r) (fun a w => P w /\ r = Ok a) (fun _ => True).
Proof using Type. intros w Hw. by destruct r. Qed.

Lemma encrypt_runs (P : World -> Prop) `{!Sees tl_vault P} al what plain :
  runs P (encrypt al what plain) (fun c w => P w /\ exists k, kms_seal k plain = inl c) (fun _ => True).
Proof using Type.
  eapply (runs_bind _ _ _ (fun s w => P w /\ exists k, kms_seal k plain = s)).
  { intros w Hw. split; [by apply stable_bump|by eexists]. }
  intros [c|e].
  - case_match; [by intros w Hw|]. intros w Hw. cbn. done.
  - intros w Hw. cbn. done.
Qed.

(** The entry [r] holds the map [m], sealed, for the workspace [ws]. *)
Definition holds (ws : Uuid) (m : gmap str str) (r : VaultRow) : Prop :=
  vr_workspace_id r = ws /\ vr_expires_at r = (vr_created_at r + VAULT_TTL)%Z /\
  exists k, kms_seal k (map_to_json m) = inl (vr_ciphertext r).

Lemma vault_insert_runs id ws m :
  runs (drawn id) (vault_insert_row id ws m) (fun r w => vr_id r = id /\ holds ws m r /\ known r w) (fun _ => True).
Proof using All.
  eapply runs_bind; [apply encrypt_runs, _|]. intros c w [Hd [k Hk]]. unfold transaction.
  destruct (tx_failure _); [done|]. cbn. split; [done|]. split; [split_and!; [done|done|by exists k]|].
  destruct Hd as (j & -> & Hj & Hf). split; cbn.
  - left. apply elem_of_app. right. by left.
  - intros r' [Hr'| ->%list_elem_of_singleton]%elem_of_app He; [|done]. exfalso. by apply (Hf r' j).
  - intros i Hi He%fresh_inj. lia.
Qed.

Definition tokenize_scan (w : World) (body : TokenizeRequest) : list Detection :=
  tokenize_detections detect_content merge_detections (tq_text body)
    (ml_detections (scanned w (tq_text body)))
    ((fun labels : list str => to_uppercase <$> labels) <$> tq_entity_labels body).

Lemma tokenize_runs ctx body w0 :
  runs (fun w => untaken w /\ w = w0) (tokenize' ctx body)
    (fun a w => exists r m v, vr_id r = tr_token_vault_id a.2 /\ holds (jc_workspace_id ctx) m r /\ known r w /\
       apply_redaction (tq_text body) (tokenize_scan w0 body) TokenVault_default ∅
       = Some (tr_tokenized_text a.2, v, m))
    (fun _ => True).
Proof using All.
  eapply runs_bind; [apply result_runs|]. intros u. eapply (runs_bind _ _ _ (fun o w => untaken w /\
    ml_detections o = ml_detections (scanned w0 (tq_text body)))).
  { intros w [[Hu ->] _]. unfold detect, scanned. destruct (detect_if_available _ _ _ _) as [o cl].
    split; [|done]. apply stable_bump. by apply (sees_state (f := tl_vault)). }
  intros o. apply runs_pure. intros Ho.
  eapply runs_bind; [apply keeps_runs, keeps_numbered, _|]. intros rid.
  eapply runs_bind; [apply keeps_runs, (keeps_enforce tl_vault _)|]. intros l. rewrite Ho.
  eapply runs_bind; [apply result_runs|]. intros [[out v] m]. apply runs_pure. intros Ha.
  apply or_panic_Ok in Ha. eapply (runs_bind _ _ _ drawn).
  { intros w Hw. exists (aw_calls w). split_and!; [done|cbn; lia|]. intros r j Hr Hj. by apply Hw. }
  intros id. eapply runs_bind; [apply vault_insert_runs|]. intros r w (He & Hh & Hk).
  exists r, m, v. cbn. by split_and!.
Qed.

(** Reading back an entry that is known. *)
Lemma detokenize_known r ctx text w m ws :
  known r w -> holds ws m r ->
  (detokenize ctx {| dq_token_vault_id := vr_id r; dq_text := text |} w).1 =
  match tx_failure (aw_calls w) with
  | Some e => Err e
  | None =>
      if (ws =? jc_workspace_id ctx)%N && (now_at (aw_calls w) <? vr_expires_at r)%Z then
        match kms_open (S (aw_calls w)) (vr_ciphertext r) with
        | inr e => Err (Internal ($"vault decrypt: " ++ e))
        | inl _ => Ok (restore_content text {| entries := m |})
        end
      else Err (entry_not_found (vr_id r))
  end.
Proof using All.
  intros [Hs Hu _] (Hws & _ & k & Hk). unfold detokenize, vault_get, mbind, AdmM_bind, transaction.
  destruct (tx_failure _); [done|].
  destruct (List.find _ _) as [r'|] eqn:Hf.
  - apply find_elem in Hf as [Hin Hl]. unfold live_entry in Hl. cbn [dq_token_vault_id] in Hl. assert (r' = r) as -> by (apply Hu; [done|lia]).
    replace ((ws =? jc_workspace_id ctx)%N && _) with true by (subst ws; lia).
    unfold vault_unseal, numbered, mbind, AdmM_bind. cbn -[kms_open restore_content].
    destruct (kms_open _ _) as [q|e] eqn:Ho; [|done]. rewrite (kms_law _ _ _ _ _ Hk Ho), map_of_to_json. cbn.
    f_equal. unfold restore_content. f_equal.
    destruct (foldl _ _ _) as [es] eqn:He. f_equal. rewrite <- (rebuild_vault m), He. done.
  - destruct Hs as [Hs|Hs]; [|by replace (now_at _ <? _)%Z with false by lia; rewrite andb_false_r].
    eapply find_none in Hf; [|by apply list_elem_of_In]. unfold live_entry in Hf. cbn [dq_token_vault_id] in Hf. subst ws.
    by replace ((vr_workspace_id r =? _)%N && _) with false by lia.
Qed.

(** C28: What tokenize took out comes back, to its workspace and in time only.
    For a text without an opening double brace, whose detections carry the
    text they claim and have ASCII class names without braces, fewer than 2^32
    of them, and as long as identifiers are drawn once and never for an entry
    already stored, the clock does not run back, and the KMS opens a
    ciphertext to nothing but what was sealed: whatever requests of any workspace, administrative changes and purges come
    between, detokenizing the tokenized text gives the original to the same
    workspace for 24 hours after the entry was made, or the failure of the
    database or of the KMS; another workspace, or one that comes later, is
    told that there is no such entry. *)
Theorem tokens_come_back ctx body w h resp w1 cs ctx' :
  untaken w -> restorable (tq_text body) (merge_detections (detect_content (tq_text body))
                                            (ml_detections (scanned w (tq_text body)))) ->
  tokenize' ctx body w = (Ok (h, resp), w1) ->
  let w2 := run_tools cs w1 in
  exists created ciphertext,
  (detokenize ctx' {| dq_token_vault_id := tr_token_vault_id resp; dq_text := tr_tokenized_text resp |} w2).1 =
  match tx_failure (aw_calls w2) with
  | Some e => Err e
  | None =>
      if (jc_workspace_id ctx =? jc_workspace_id ctx')%N
         && (now_at (aw_calls w2) <? created + 24 * 3600 * 1000000)%Z then
        match kms_open (S (aw_calls w2)) ciphertext with
        | inr e => Err (Internal ($"vault decrypt: " ++ e))
        | inl _ => Ok (tq_text body)
        end
      else Err (entry_not_found (tr_token_vault_id resp))
  end.
Proof using All.
  intros Hu Hr Ht w2. pose proof (tokenize_runs ctx body w w (conj Hu eq_refl)) as Hp. rewrite Ht in Hp.
  destruct Hp as (r & m & v & He & Hh & Hk & Ha). cbn [snd] in He, Ha. rewrite <- He.
  exists (vr_created_at r), (vr_ciphertext r).
  rewrite (detokenize_known r _ _ w2 m (jc_workspace_id ctx)); [|by apply run_tools_known|done].
  pose proof Hh as (_ & -> & _). change VAULT_TTL with (24 * 3600 * 1000000)%Z.
  pose proof (apply_redaction_map _ _ _ _ _ Ha) as ->. destruct v as [es]. cbn [entries].
  apply (restorable_filter _ (label_allowed ((fun labels : list str => to_uppercase <$> labels) <$> tq_entity_labels body)))
    in Hr as (Hat & Hho & Hcl & Hle).
  by rewrite (redact_restore _ _ _ _ _ _ _ Hat Hho Hcl empty_keys_ok Hle Ha).
Qed.
End tokens.

(** ** Coverage *)

(** What the [k]-th call finds missing of a text. *)
Definition loss_at (k : nat) (w : World) (text : str) : option CoverageLoss :=
  CoverageLoss_from_coverage
    (ml_coverage (detect_if_available (tl_sidecar (aw_state w)) (scan_now k) (scan_chunks k) text).1).

(** The policy the [k]-th call reads: a failed read counts as block. *)
Definition policy_at (k : nat) (ws : Uuid) (w : World) : SidecarUnavailablePolicy :=
  match tx_failure k with
  | Some _ => Block
  | None => default (policy_from_db sidecar_unavailable_default) (policy_from_db <$> tl_policies (aw_state w) !! ws)
  end.

(** What became of a loss of coverage: refused, with nothing stored and one
    alert, or told in the header of the answer and alerted. *)
Definition told {A} (rid : RequestId) (ws : Uuid) (loss : option CoverageLoss)
    (policy : SidecarUnavailablePolicy) (w : World) (out : result (Answer A) * World) : Prop :=
  match loss, policy with
  | Some l, Block =>
      out.1 = Err coverage_unavailable /\
      tl_vault (aw_state out.2) = tl_vault (aw_state w) /\ tl_stash (aw_state out.2) = tl_stash (aw_state w) /\
      aw_sent out.2 = aw_sent w ++ [CoverageLost rid ws (CoverageLoss_as_str l) $"block"]
  | _, _ =>
      match out with
      | (Ok (header, _), w') =>
          header = CoverageLoss_as_str <$> loss /\
          match loss with
          | Some l => CoverageLost rid ws (CoverageLoss_as_str l) $"degrade_with_alert" ∈ aw_sent w'
          | None => True
          end
      | _ => True
      end
  end.

#[local] Instance alerted_sees (a : ToolAlert) : Sees (fun _ => tt) (fun w : World => a ∈ aw_sent w).
Proof.
  split; [split; [by intros w Hw|]|by intros w t _ Hw]. intros w l Hw. cbn. apply elem_of_app. by left.
Qed.

#[local] Instance anything_sees : Sees (fun _ => tt) (fun _ : World => True).
Proof. by repeat split. Qed.

(** The rest of a route says in the header what it was given. *)
Definition says {A} (k : option CoverageLoss -> Adm (Answer A)) : Prop := forall l (P : World -> Prop),
  Sees (fun _ => tt) P -> runs P (k l) (fun a w => a.1 = CoverageLoss_as_str <$> l /\ P w) (fun _ => True).

Lemma enforce_told {A} (k : option CoverageLoss -> Adm (Answer A)) rid ws cov w w' :
  says k -> aw_sent w' = aw_sent w -> tl_vault (aw_state w') = tl_vault (aw_state w) ->
  tl_stash (aw_state w') = tl_stash (aw_state w) ->
  tl_policies (aw_state w') = tl_policies (aw_state w) ->
  told rid ws (CoverageLoss_from_coverage cov) (policy_at (aw_calls w') ws w) w ((enforce' rid ws cov ≫= k) w').
Proof.
  intros Hk Hsent Hv Hst Hp.
  assert (He : exists w1, aw_sent w1 = aw_sent w' /\ aw_state w1 = aw_state w' /\ enforce' rid ws cov w' =
    match sidecar_gate cov (policy_at (aw_calls w') ws w) with
    | Sidecar.Proceed => (Ok None, w1)
    | GateBlock l =>
        (Err coverage_unavailable,
         sent [CoverageLost rid ws (CoverageLoss_as_str l) (policy_as_str Block)] (bump w1))
    | GateDegrade l =>
        (Ok (Some l),
         sent [CoverageLost rid ws (CoverageLoss_as_str l) (policy_as_str DegradeWithAlert)] (bump w1))
    end).
  { exists (bump w'). split_and!; [done|done|].
    unfold enforce, effective_policy, adm_attempt, transaction, policy_at, mbind, AdmM_bind. rewrite <- Hp.
    destruct w' as [t n l]. cbn [aw_calls aw_state aw_sent].
    destruct (tx_failure n); cbn; destruct (sidecar_gate _ _); reflexivity. }
  destruct He as (w1 & Hs1 & Ht1 & He). unfold mbind, AdmM_bind. rewrite He. clear He.
  unfold sidecar_gate, told. destruct (CoverageLoss_from_coverage cov) as [l|].
  - destruct (policy_at _ _ _).
    + cbn. by rewrite Hs1, Ht1, Hsent.
    + pose proof (Hk (Some l) _ (alerted_sees (CoverageLost rid ws (CoverageLoss_as_str l) $"degrade_with_alert"))
        (sent [CoverageLost rid ws (CoverageLoss_as_str l) (policy_as_str DegradeWithAlert)] (bump w1))) as Hr.
      destruct (k _ _) as [[[hd a]|e|] w2]; [|done..]. apply Hr. cbn. apply elem_of_app. right. by left.
  - pose proof (Hk None _ anything_sees w1 I) as Hr. destruct (k None w1) as [[[hd a]|e|] w2]; [|done..]. by destruct Hr as [Hr _].
Qed.

Lemma says_bind {A B} (x : Adm B) (k : option CoverageLoss -> B -> Adm (Answer A)) :
  (forall P, Sees (fun _ => tt) P -> keeps P x) -> (forall b, says (fun l => k l b)) ->
  says (fun l => x ≫= k l).
Proof.
  intros Hx Hk l P HP. eapply runs_bind; [|intros b; by apply Hk].
  eapply runs_weaken; [by apply Hx|done..].
Qed.

Lemma says_ret {A} (a : A) : says (fun l => mret (with_sidecar_degraded a l)).
Proof. by intros l P HP w Hw. Qed.

Lemma numbered_bind {A B} (f : nat -> A) (k : A -> Adm B) w :
  (numbered f ≫= k) w = k (f (aw_calls w)) (bump w).
Proof. done. Qed.
Lemma result_bind {A B} (a : A) (k : A -> Adm B) w : (adm_result (Ok a) ≫= k) w = k a w.
Proof. done. Qed.

Lemma scan_bind {A} rid ws text (k : option CoverageLoss * list Detection -> Adm A) w :
  (scan detect_content merge_detections sidecar_unavailable_default rid ws text ≫= k) w =
  (detect text ≫= fun o => enforce' rid ws (ml_coverage o) ≫= fun l =>
     k (l, merge_detections (detect_content text) (ml_detections o))) w.
Proof.
  unfold scan, mbind, AdmM_bind. destruct (detect text w) as [[o|e|] w1]; [|done..].
  by destruct (enforce' rid ws (ml_coverage o) w1) as [[l|e|] w2].
Qed.

Lemma detect_told {A} (k : MlDetectionOutcome -> option CoverageLoss -> Adm (Answer A)) text rid ws w :
  (forall o, says (k o)) ->
  told rid ws (loss_at (S (aw_calls w)) w text) (policy_at (S (S (aw_calls w))) ws w) w
    ((detect text ≫= fun o => enforce' rid ws (ml_coverage o) ≫= k o) (bump w)).
Proof.
  intros Hk. unfold loss_at. unfold detect at 1, mbind at 1, AdmM_bind at 1. cbn.
  destruct (detect_if_available _ _ _ _) as [o cl].
  by apply (enforce_told (k o) rid ws (ml_coverage o) w (bump (set_state (with_sidecar cl (aw_state w)) (bump w)))).
Qed.

(** The same with the identifier drawn after the scan. *)
Lemma scan_first_told {A} (k : MlDetectionOutcome -> option CoverageLoss -> Adm (Answer A)) text ws w :
  (forall o, says (k o)) ->
  told (fresh_id (S (aw_calls w))) ws (loss_at (aw_calls w) w text) (policy_at (S (S (aw_calls w))) ws w) w
    ((detect text ≫= fun o => numbered fresh_id ≫= fun rid => enforce' rid ws (ml_coverage o) ≫= k o) w).
Proof.
  intros Hk. unfold loss_at. unfold detect at 1, mbind at 1, AdmM_bind at 1.
  destruct (detect_if_available _ _ _ _) as [o cl]. unfold numbered, mbind at 1, AdmM_bind at 1. cbn.
  by apply (enforce_told (k o) _ ws (ml_coverage o) w (bump (bump (set_state (with_sidecar cl (aw_state w)) w)))).
Qed.

(** The policy on lost coverage holds on every tool route: when the
    sidecar did not scan the whole text, tokenize, redact and the policy check
    answer 503 with one alert and store nothing in a workspace that blocks,
    or whose policy cannot be read; otherwise the answer's header names the
    loss and the alert is raised, and an answer without the header was fully
    scanned. *)
Theorem coverage_loss_is_told ctx body auth text pbody w :
  let ws := jc_workspace_id ctx in let n := aw_calls w in
  match tokenize_guard (tq_text body) with
  | Ok _ => told (fresh_id (S n)) ws (loss_at n w (tq_text body)) (policy_at (S (S n)) ws w) w (tokenize' ctx body w)
  | r => tokenize' ctx body w = (match r with Err e => Err e | _ => Panic end, w)
  end /\
  told (fresh_id n) (au_workspace_id auth) (loss_at (S n) w text) (policy_at (S (S n)) (au_workspace_id auth) w) w
    (redact' (Ok auth) text w) /\
  told (fresh_id n) (au_workspace_id auth) (loss_at (S n) w (pk_text pbody))
    (policy_at (S (S n)) (au_workspace_id auth) w) w (policy_check' (Ok auth) pbody w).
Proof.
  intros ws n. split; [|split].
  - unfold tokenize, adm_result at 1, mbind at 1, AdmM_bind at 1.
    destruct (tokenize_guard _) as [[]|e|]; [|done..]. apply scan_first_told. intros o.
    apply says_bind; [intros; apply keeps_result|]. intros [[out v] m].
    apply says_bind; [intros; apply keeps_numbered, _|]. intros id.
    apply says_bind; [|intros; apply says_ret]. intros P HP. apply keeps_bind; [by apply (keeps_encrypt (fun _ => tt))|].
    intros c. by apply (keeps_tx (fun _ => tt)).
  - unfold redact. rewrite result_bind, numbered_bind, scan_bind. apply detect_told. intros o.
    apply says_bind; [intros; apply keeps_result|]. intros [[out v] m].
    apply says_bind; [|intros [[? ?] ?]; apply says_ret]. intros P HP. by apply (keeps_policy_outcome (fun _ => tt)).
  - unfold policy_check. rewrite result_bind, numbered_bind, scan_bind. apply detect_told. intros o.
    apply says_bind; [|intros [[? ?] ?]; apply says_ret]. intros P HP. by apply (keeps_policy_outcome (fun _ => tt)).
Qed.

(** ** Ciphertext only *)

(** A text the KMS produced. *)
Definition sealed (c : str) : Prop := exists n p, kms_seal n p = inl c.

Definition encrypted (t : ToolTables) : Prop :=
  Forall (fun r => sealed (vr_ciphertext r)) (tl_vault t) /\ map_Forall (fun _ v => sealed v.1) (tl_stash t).

#[local] Instance encrypted_sees : Sees (fun t => (tl_vault t, tl_stash t)) (on_state encrypted).
Proof. split; [apply _|]. intros w t [= Hv Hs] Hw. unfold on_state, encrypted in *. cbn. by rewrite Hv, Hs. Qed.

Lemma encrypt_sealed al what plain :
  runs (on_state encrypted) (encrypt al what plain) (fun c w => on_state encrypted w /\ sealed c) (on_state encrypted).
Proof.
  eapply (runs_bind _ _ _ (fun s w => on_state encrypted w /\ exists k, kms_seal k plain = s)).
  { intros w Hw. split; [by apply stable_bump|by eexists]. }
  intros [c|e].
  - case_match; [intros w [Hw [k Hk]]; split; [done|by exists k, plain]|]. by intros w [Hw _].
  - by intros w [Hw _].
Qed.

Lemma tool_encrypted c : keeps (on_state encrypted) (handle_tool c).
Proof.
  set (f := fun t => (tl_vault t, tl_stash t)).
  destruct c; cbn [handle_tool]; try apply keeps_forget.
  - apply keeps_bind; [apply keeps_result|]. intros _. apply keeps_bind; [by apply (keeps_detect f _)|]. intros o.
    apply keeps_bind; [apply keeps_numbered, _|]. intros rid. apply keeps_bind; [apply (keeps_enforce f _)|].
    intros l. apply keeps_bind; [apply keeps_result|]. intros [[out v] m].
    apply keeps_bind; [apply keeps_numbered, _|]. intros id. apply keeps_bind; [|intros; apply keeps_ret].
    eapply runs_bind; [apply encrypt_sealed|]. intros ct. apply runs_pure. intros Hc.
    apply keeps_transaction. intros n t a t' [Hv Hs] [= _ <-]. split; [|done]. by apply Forall_app_2; [|constructor].
  - apply (keeps_detokenize f _).
  - by apply (keeps_redact f _).
  - by apply (keeps_policy_check f _).
  - apply keeps_bind; [apply keeps_result|]. intros _. case_match; [apply keeps_ret|].
    apply keeps_bind; [apply keeps_numbered, _|]. intros rid. apply keeps_bind; [|intros; apply keeps_ret].
    eapply runs_bind; [apply encrypt_sealed|]. intros ct. apply runs_pure. intros Hc.
    apply keeps_transaction. intros n t a t' [Hv Hs] [= _ <-]. split; [done|]. by apply map_Forall_insert_2.
  - apply (keeps_load f _).
  - apply (keeps_tx f _). by intros n t a t' [= _ <-].
  - apply keeps_transaction. intros n t a t' [Hv Hs] [= _ <-]. split; [|done]. cbn.
    rewrite Forall_forall in *. intros r [Hr _]%list_elem_of_In%filter_In. by apply Hv, list_elem_of_In.
Qed.

(** Encrypt or fail: whatever requests of any workspace are served and
    whatever calls fail, every entry of the token vault and every stash in
    Redis is a text the KMS produced; no original is ever stored in the clear. *)
Theorem stores_hold_ciphertext cs w : encrypted (aw_state w) -> encrypted (aw_state (run_tools cs w)).
Proof.
  revert w. induction cs as [|c cs IH]; intros w Hw; [done|]. apply IH.
  pose proof (tool_encrypted c w Hw) as Hk. by destruct (handle_tool c w) as [[] w'].
Qed.

(** ** The redact tool *)

Definition no_rules (ws : Uuid) (t : ToolTables) : Prop :=
  forall r, r ∈ tl_rules t -> of_workspace ws r = true -> enabled (sr_rule r) = false.

Lemma enabled_rules_none ws :
  runs (on_state (no_rules ws)) (enabled_rules ws) (fun rules w => on_state (no_rules ws) w /\ rules = [])
    (fun _ => True).
Proof.
  intros w Hw. unfold enabled_rules, transaction. destruct (tx_failure _); [done|]. cbn [obind list_enabled_rules].
  split; [by apply stable_bump|]. unfold on_state, no_rules in Hw.
  destruct (List.filter enabled _) as [|r l] eqn:Hf; [done|].
  assert (Hr : r ∈ r :: l) by left. rewrite <- Hf in Hr.
  apply list_elem_of_In, filter_In in Hr as [Hr He]. apply list_elem_of_In in Hr.
  apply list_elem_of_fmap in Hr as (sr & -> & Hr). rewrite sort_by_perm in Hr.
  apply list_elem_of_In, filter_In in Hr as [Hr Hws]. apply list_elem_of_In in Hr.
  specialize (Hw sr Hr Hws). congruence.
Qed.

(** The redact tool redacts by rule only: in a workspace without an enabled
    rule every answer of POST /v1/redact returns the caller's text untouched,
    whatever was detected in it and whatever the deployment's default is. *)
Theorem redact_echoes auth text w h a w' :
  no_rules (au_workspace_id auth) (aw_state w) ->
  redact' (Ok auth) text w = (Ok (h, a), w') -> rd_redacted_text a = text.
Proof.
  intros Hn Hr.
  set (P := on_state (no_rules (au_workspace_id auth)) : World -> Prop).
  assert (HP : Sees tl_rules P).
  { split; [apply _|]. intros w0 t Ht Hw. unfold P, on_state, no_rules in *. cbn. by rewrite Ht. }
  assert (Hs : runs P (redact' (Ok auth) text) (fun a _ => rd_redacted_text a.2 = text) (fun _ => True)).
  { eapply (runs_bind _ _ _ (fun a w => P w /\ a = auth)); [by intros w0 Hw|]. intros au. apply runs_pure. intros ->.
    eapply runs_bind; [apply keeps_runs, keeps_numbered, _|]. intros rid.
    eapply runs_bind; [by apply keeps_runs, (keeps_scan tl_rules _)|]. intros [l ds].
    eapply runs_bind; [apply keeps_runs, keeps_result|]. intros [[out v] m].
    eapply (runs_bind _ _ _ (fun o _ => denied o.1.1 = false /\ oc_content o.1.1 = text)).
    - eapply runs_bind; [apply enabled_rules_none|]. intros rules w0 [_ ->]. by split.
    - intros [[o v'] m'] w0 [Ho Hc]. cbn in Ho, Hc |- *. by rewrite Ho. }
  specialize (Hs w Hn). by rewrite Hr in Hs.
Qed.
End spec.

(** ** The tool routes on concrete requests *)

(** ** A codec for maps *)

Fixpoint bits (p : positive) : str :=
  match p with xH => [] | xO p => "0"%char :: bits p | xI p => "1"%char :: bits p end.
Fixpoint of_bits (s : str) : positive :=
  match s with [] => xH | c :: s => if bool_decide (c = "1"%char) then xI (of_bits s) else xO (of_bits s) end.

Lemma of_bits_bits p : of_bits (bits p) = p.
Proof. induction p as [p IH|p IH|]; cbn; by rewrite ?IH. Qed.

#[refine] Definition demo_json : MapJson := {|
  map_to_json m := bits (encode m);
  map_of_json s := match decode (of_bits s) with Some m => inl m | None => inr $"not a map" end |}.
Proof. intros m. by rewrite of_bits_bits, decode_encode. Defined.

Definition demo_admin : AdminEnv := {|
  tx_failure _ := None; fresh_id n := N.of_nat (1000 + n); now_at n := Z.of_nat n;
  actor_email _ _ := Ok None |}.

(** A KMS that marks what it seals. *)
Definition demo_kms : KmsEnv := {|
  kms_seal _ p := inl ($"v1:" ++ p);
  kms_open _ c := match strip_prefix c $"v1:" with Some p => inl p | None => inr $"not sealed" end;
  utf8_error _ := [] |}.

Definition demo_reply : ChunkEnv := {|
  env_others c := c; env_now := 1; env_budget_expired := false; env_reply := Entities []; env_fail_now := 1 |}.
Definition demo_scan : ScanEnv := {| scan_now _ := 1%N; scan_chunks _ _ := demo_reply |}.

Definition demo_floor : floor_detector := fun text => if decide (text = demo_text) then demo_detections else [].
Definition demo_merge : merger := fun floor _ => floor.

Definition user (ws : Uuid) : JwtAuthContext := {|
  jc_user_id := 7; jc_workspace_id := ws; jc_role := Admin; jc_jti := []; jc_exp := 0 |}.
Definition key (ws : Uuid) : AuthContext := {|
  au_api_key_id := 3; au_workspace_id := ws; au_api_key_name := $"k"; au_user_id := None |}.

Abbreviation World := (AdminWorld ToolTables ToolAlert).

(** The sidecar at an address, the policies of the workspaces, their rules. *)
Definition start (url : str) (policies : gmap Uuid str) (rules : list StoredRule) : World := {|
  aw_state := {| tl_sidecar := client_new url None; tl_policies := policies; tl_rules := rules; tl_vault := [];
                 tl_stash := ∅ |};
  aw_calls := 0; aw_sent := [] |}.

Definition never_regex : str -> option (str -> bool) := fun _ => None.

Definition demo_tokenize := (@tokenize ascii_case_map map_order demo_admin demo_kms demo_scan demo_json
  demo_floor demo_merge $"block").
Definition demo_detokenize := (@detokenize map_order demo_admin demo_kms demo_json).
Definition demo_redact := (@redact ascii_case_map demo_admin demo_scan never_regex demo_floor demo_merge $"block" true).
Abbreviation demo_run :=
  (@run_tools ascii_case_map map_order demo_admin demo_kms demo_scan demo_json never_regex demo_floor demo_merge
     $"block" true (fun _ => [])).

Definition ask : TokenizeRequest := {| tq_text := demo_text; tq_entity_labels := None |}.
Definition scanned_world : World := start $"http://ml" ∅ [].

Definition answered : Answer TokenizeResponse := Eval vm_compute in
  match (demo_tokenize (user 1) ask scanned_world).1 with
  | Ok a => a
  | _ => (None, {| tr_tokenized_text := []; tr_token_vault_id := 0; tr_entity_counts := ∅ |})
  end.
Definition after_tokenize : World := (demo_tokenize (user 1) ask scanned_world).2.

Example tokenized :
  tr_tokenized_text answered.2 = $"{{Person_1}} wrote to {{Email_Address_1}} and {{Person_2}}"
  /\ tr_entity_counts answered.2 !! $"PERSON" = Some 2%N /\ answered.1 = None.
Proof. vm_compute. done. Qed.

Definition give_back : DetokenizeRequest :=
  {| dq_token_vault_id := tr_token_vault_id answered.2; dq_text := tr_tokenized_text answered.2 |}.

(** Requests of both workspaces and a purge, in between. *)
Definition between : list ToolCall :=
  [CTokenize (user 2) ask; CDetokenize (user 2) give_back; CPurge; CRedact (Ok (key 2)) demo_text].

Example same_workspace : (demo_detokenize (user 1) give_back (demo_run between after_tokenize)).1 = Ok demo_text.
Proof. vm_compute. reflexivity. Qed.

Lemma demo_fresh j k : @fresh_id demo_admin j = @fresh_id demo_admin k -> j = k.
Proof. cbn. lia. Qed.
Lemma demo_clock j k : j <= k -> (@now_at demo_admin j <= @now_at demo_admin k)%Z.
Proof. cbn. lia. Qed.
Lemma demo_kms_law (i j : nat) (p c q : str) :
  @kms_seal demo_kms i p = inl c -> @kms_open demo_kms j c = inl q -> q = p.
Proof. cbn. intros [= <-]. cbn. intros [= <-]. done. Qed.

Lemma demo_restorable : restorable (tq_text ask)
  (demo_merge (demo_floor (tq_text ask)) (ml_detections (@scanned demo_scan scanned_world (tq_text ask)))).
Proof.
  split; [exact demo_no_opener|split; [exact demo_honest|split; [exact demo_classes|vm_compute; reflexivity]]].
Qed.

Lemma demo_answer : (demo_tokenize (user 1) ask scanned_world).1 = Ok (answered.1, answered.2).
Proof. vm_compute. reflexivity. Qed.
Lemma demo_answered : demo_tokenize (user 1) ask scanned_world = (Ok (answered.1, answered.2), after_tokenize).
Proof. rewrite <- demo_answer. apply surjective_pairing. Qed.

Lemma tokens_come_back_witness :
  (demo_detokenize (user 2) give_back (demo_run between after_tokenize)).1
  = Err (entry_not_found (tr_token_vault_id answered.2)).
Proof.
  destruct (@tokens_come_back ascii_case_map map_order demo_admin demo_kms demo_scan demo_json never_regex
    demo_floor demo_merge $"block" true (fun _ => []) demo_fresh demo_clock demo_kms_law (user 1) ask scanned_world
    answered.1 answered.2 after_tokenize between (user 2)) as (created & ciphertext & He).
  - intros r j Hr. by apply not_elem_of_nil in Hr.
  - exact demo_restorable.
  - exact demo_answered.
  - exact He.
Defined.

Lemma stores_hold_ciphertext_witness :
  @encrypted demo_kms (aw_state (demo_run between scanned_world)).
Proof. apply stores_hold_ciphertext. split; [constructor|apply map_Forall_empty]. Defined.

(** With every detection found, the answer of the redact tool is the text. *)
Definition redacted : RedactResponse := Eval vm_compute in
  match (demo_redact (Ok (key 1)) demo_text scanned_world).1 with
  | Ok (_, a) => a
  | _ => {| rd_redacted_text := []; rd_detections := []; rd_vault_size := 0 |}
  end.
Definition after_redact : World := (demo_redact (Ok (key 1)) demo_text scanned_world).2.

Lemma redact_answer : (demo_redact (Ok (key 1)) demo_text scanned_world).1 = Ok (None, redacted).
Proof. vm_compute. reflexivity. Qed.
Lemma redact_answered : demo_redact (Ok (key 1)) demo_text scanned_world = (Ok (None, redacted), after_redact).
Proof. rewrite <- redact_answer. apply surjective_pairing. Qed.
Lemma no_rules_start ws : no_rules ws (aw_state scanned_world).
Proof. intros r Hr. by apply not_elem_of_nil in Hr. Qed.

Lemma redact_echoes_witness : rd_redacted_text redacted = demo_text /\ length (rd_detections redacted) = 3.
Proof.
  split; [|reflexivity].
  exact (@redact_echoes ascii_case_map demo_admin demo_scan never_regex demo_floor demo_merge $"block" true
    (key 1) demo_text scanned_world None redacted after_redact (no_rules_start _) redact_answered).
Defined.

(** A gateway without a sidecar, in a workspace that never chose: refused. *)
Example unscanned_is_refused :
  (demo_tokenize (user 1) ask (start [] ∅ [])).1 = Err coverage_unavailable
  /\ tl_vault (aw_state (demo_tokenize (user 1) ask (start [] ∅ [])).2) = [].
Proof. vm_compute. done. Qed.

(** In a workspace that accepts the risk: served, and told. *)
Example unscanned_is_told :
  match (demo_tokenize (user 1) ask (start [] {[1%N := $"degrade_with_alert"]} [])).1 with
  | Ok (header, _) => header = Some $"unconfigured"
  | _ => False
  end.
Proof. vm_compute. reflexivity. Qed.
