(* ===== verification/ScanFile.v ===== *)
(** * The audited door of the file scanner

    http/routes/scan_file.rs, [proxy_scan] of ml_sidecar/client.rs and the
    scan-task bindings of redis/mod.rs.  Handlers run in the world of
    [AdminTx]; what they send are the calls forwarded to the sidecar.  Times
    are in microseconds. *)

From S2P Require Import Prelude Rstr Json Types Providers Roles AdminAudit AdminTx Pipeline ApiKeys OpenAi.
From S2P Require Import Tools.
From S2P Require Import ProvidersSpec.

Inductive ProxyMethod : Type := ProxyGet | ProxyPost.

Record SidecarProxyResponse : Type := {
  sp_status : N;
  sp_content_type : option str;
  sp_body : str;
}.

(** What the sidecar is asked: the request line, the two headers the gateway
    sets, and the body of a POST. *)
Record ProxiedCall : Type := {
  px_method : ProxyMethod;
  px_url : str;
  px_authorization : str;
  px_content_type : option str;
  px_body : str;
}.

(** The columns of [users] the routes read. *)
Record Member : Type := { mb_id : Uuid; mb_workspace_id : Uuid; mb_email : str; mb_role : str }.

(** The tables, and the Redis bindings with their times of expiry. *)
Record ScanTables : Type := {
  sc_users : list Member;
  sc_tasks : gmap str (str * Z);
  sc_audit : list AdminAuditRow;
}.

(** The [n]-th call to the sidecar: why the client could not be built, or why
    the exchange failed, or the answer. *)
Class ScanProxyEnv := {
  client_build : nat -> option str;
  proxy_reply : nat -> SidecarProxyResponse + str;
}.

(** The sidecar as configured: [MlSidecarClient]'s address and credential. *)
Record ScanEndpoint : Type := { se_enabled : bool; se_base_url : str; se_token : str }.

(** The two headers the routes read. *)
Record ScanHeaders : Type := { sh_request_id : HeaderValue; sh_content_type : HeaderValue }.

Record ScanPrincipal : Type := {
  sn_workspace_id : Uuid;
  sn_user_id : Uuid;
  sn_email : str;
  sn_role : str;
  sn_api_key_id : Uuid;
}.

(** An answer relayed to the uploader. *)
Record Relayed : Type := { rl_status : N; rl_content_type : option str; rl_body : str }.

Definition DEFAULT_SCAN_MAX_BODY_BYTES : N := 16 * 1024 * 1024.
Definition SCAN_TASK_BINDING_TTL_SECS : Z := 3600.
Definition DEFAULT_SCAN_TIMEOUT_MS : N := 120000.

(** [raw...parse().ok()...filter(|n| *n > 0).unwrap_or(default)] *)
Definition positive_or (fallback : N) (raw : option str) : N :=
  match raw ≫= fun value => parse_u64 (trim value) with
  | Some n => if (0 <? n)%N then n else fallback
  | None => fallback
  end.

Definition parse_scan_max_body_bytes (raw : option str) : N := positive_or DEFAULT_SCAN_MAX_BODY_BYTES raw.

(** In milliseconds. *)
Definition scan_timeout (env : option str) : N := positive_or DEFAULT_SCAN_TIMEOUT_MS env.

Definition may_run_file_scan (role : UserRole) : bool :=
  match role with
  | Owner | Admin | Developer | Employee => true
  | Viewer => false
  end.

Definition scan_task_key (task_id : str) : str := $"scan_task:" ++ task_id.

Definition scan_unavailable : ApiError := ServiceUnavailable $"file scanning is unavailable".

(** [StatusCode::from_u16(..).unwrap_or(INTERNAL_SERVER_ERROR)] *)
Definition status_or_500 (status : N) : N :=
  if (100 <=? status)%N && (status <? 1000)%N then status else 500.

Section scan_file.
Context `{AdminEnv} `{ScanProxyEnv}.
(** [Uuid::parse_str], the syntax check of [HeaderValue::from_str] and
    [serde_json::from_slice]. *)
Context (parse_uuid_text : str -> option Uuid) (header_valid : str -> bool) (from_json : str -> option Value)
  (sidecar : ScanEndpoint).

#[local] Abbreviation Adm := (AdmM ScanTables ProxiedCall).

(** ** ml_sidecar/client.rs *)

(** The outer [Ok] is the monad's; [inr] is the [Err] of [proxy_scan]. *)
Definition proxy_scan (method : ProxyMethod) (path : str) (content_type : option str) (body : str)
    : Adm (SidecarProxyResponse + str) :=
  if negb (se_enabled sidecar) then mret (inr $"ML sidecar is not configured")
  else outbound (fun n =>
    match client_build n with
    | Some e => (inr ($"failed to build scan client: " ++ e), [])
    | None =>
        (proxy_reply n,
         [{| px_method := method; px_url := se_base_url sidecar ++ path;
             px_authorization := $"Bearer " ++ se_token sidecar; px_content_type := content_type;
             px_body := match method with ProxyGet => [] | ProxyPost => body end |}])
    end).

(** ** redis/mod.rs *)

Definition with_tasks (m : gmap str (str * Z)) (t : ScanTables) : ScanTables :=
  {| sc_users := sc_users t; sc_tasks := m; sc_audit := sc_audit t |}.

(** A checkout or a command that fails is a failed transaction. *)
Definition bind_scan_task (task_id : str) (ws : Uuid) (ttl_secs : Z) : Adm unit := transaction (fun n t =>
  (Ok tt, with_tasks (<[scan_task_key task_id := (show_uuid ws, (now_at n + ttl_secs * SECOND)%Z)]>
                        (sc_tasks t)) t)).

Definition scan_task_owner (task_id : str) : Adm (option str) := transaction (fun n t =>
  (Ok (match sc_tasks t !! scan_task_key task_id with
       | Some (v, expires) => if (now_at n <? expires)%Z then Some v else None
       | None => None
       end), t)).

(** ** scan_file.rs *)

Definition member_of (user_id ws : Uuid) (m : Member) : bool :=
  (mb_id m =? user_id)%N && (mb_workspace_id m =? ws)%N.

Definition authorize_scan (auth : result AuthContext) : Adm ScanPrincipal :=
  auth ← adm_result auth;
  user_id ← adm_result (ok_or (au_user_id auth)
    (Forbidden $"file scans require an API key assigned to a workspace member"));
  row ← reading (fun t => List.find (member_of user_id (au_workspace_id auth)) (sc_users t));
  m ← adm_result (ok_or row (Forbidden $"the API key is assigned to no current workspace member"));
  role ← adm_result (role_from_db_str (mb_role m));
  adm_result (ensure (may_run_file_scan role) (Forbidden $"this role may not run file scans"));;
  mret {| sn_workspace_id := au_workspace_id auth; sn_user_id := user_id; sn_email := mb_email m;
          sn_role := mb_role m; sn_api_key_id := au_api_key_id auth |}.

Definition scan_request_id (h : ScanHeaders) : option RequestId :=
  header_text (sh_request_id h) ≫= parse_uuid_text.

Definition scan_actor (p : ScanPrincipal) : AdminActor := {|
  aa_workspace_id := sn_workspace_id p; aa_user_id := Some (sn_user_id p);
  aa_email := Some (sn_email p); aa_role := Some (sn_role p) |}.

Definition scan_entry (p : ScanPrincipal) (request_id : Uuid) (mode : str) (request_bytes : N)
    : AdminAuditEntry :=
  with_detail
    (targeting_user (on_object FileScanRequested request_id None) (sn_user_id p) (sn_email p) (sn_role p))
    (Object [($"mode", VString mode); ($"request_bytes", Number (PosInt request_bytes));
             ($"api_key_id", VString (show_uuid (sn_api_key_id p)))]).

Definition record_scan (p : ScanPrincipal) (h : ScanHeaders) (mode : str) (request_bytes : N) : Adm unit :=
  request_id ← match scan_request_id h with
               | Some id => mret id
               | None => numbered fresh_id
               end;
  transaction (fun _ t =>
    (Ok tt, {| sc_users := sc_users t; sc_tasks := sc_tasks t;
               sc_audit := audit_write (scan_actor p) (scan_entry p request_id mode request_bytes)
                             (sc_audit t) |})).

Definition relay (response : SidecarProxyResponse) : Relayed :=
  let content_type := default $"application/json" (sp_content_type response) in
  {| rl_status := status_or_500 (sp_status response);
     rl_content_type := if header_valid content_type then Some content_type else None;
     rl_body := sp_body response |}.

(** The answer of the sidecar, or the 503 of [sidecar_unreachable]. *)
Definition answer_or_503 (r : SidecarProxyResponse + str) : result SidecarProxyResponse :=
  match r with inl response => Ok response | inr _ => Err scan_unavailable end.

Definition task_id_of (body : str) : option str := v ← from_json body; get_str v $"task_id".

Definition bind_kickoff (mode : str) (ws : Uuid) (response : SidecarProxyResponse) : Adm unit :=
  if bool_decide (mode = $"async") && (200 <=? sp_status response)%N && (sp_status response <? 300)%N then
    match task_id_of (sp_body response) with
    | Some task_id => bind_scan_task task_id ws SCAN_TASK_BINDING_TTL_SECS
    | None => adm_result (Err scan_unavailable)
    end
  else mret tt.

Definition forward_scan (auth : result AuthContext) (h : ScanHeaders) (body mode path : str)
    : Adm Relayed :=
  principal ← authorize_scan auth;
  record_scan principal h mode (slen body);;
  answer ← proxy_scan ProxyPost path (header_text (sh_content_type h)) body;
  response ← adm_result (answer_or_503 answer);
  bind_kickoff mode (sn_workspace_id principal) response;;
  mret (relay response).

Definition scan_file_sync (auth : result AuthContext) (h : ScanHeaders) (body : str) : Adm Relayed :=
  forward_scan auth h body $"sync" $"/v1/scan-file".

Definition scan_file_async (auth : result AuthContext) (h : ScanHeaders) (body : str) : Adm Relayed :=
  forward_scan auth h body $"async" $"/v1/scan-file/async".

Definition scan_file_task (auth : result AuthContext) (task_id : str) : Adm Relayed :=
  principal ← authorize_scan auth;
  owner ← scan_task_owner task_id;
  adm_result (ensure (bool_decide (owner = Some (show_uuid (sn_workspace_id principal))))
                (NotFound $"no such scan task"));;
  answer ← proxy_scan ProxyGet ($"/v1/scan-file/tasks/" ++ task_id) None [];
  response ← adm_result (answer_or_503 answer);
  mret (relay response).

(** ** A history of requests *)

Inductive ScanRequest : Type :=
  | ScanSync (auth : result AuthContext) (h : ScanHeaders) (body : str)
  | ScanAsync (auth : result AuthContext) (h : ScanHeaders) (body : str)
  | ScanPoll (auth : result AuthContext) (task_id : str)
  | SetMembers (users : list Member).

(** [SetMembers] is what the user administration does meanwhile. *)
Definition serve_scan (r : ScanRequest) : Adm (option Relayed) :=
  match r with
  | ScanSync auth h body => a ← scan_file_sync auth h body; mret (Some a)
  | ScanAsync auth h body => a ← scan_file_async auth h body; mret (Some a)
  | ScanPoll auth task_id => a ← scan_file_task auth task_id; mret (Some a)
  | SetMembers users =>
      transaction (fun _ t => (Ok None, {| sc_users := users; sc_tasks := sc_tasks t; sc_audit := sc_audit t |}))
  end.

(** The requests served, each with its answer, oldest first. *)
Fixpoint scan_history (rs : list ScanRequest) (w : AdminWorld ScanTables ProxiedCall)
    : list (ScanRequest * result (option Relayed)) * AdminWorld ScanTables ProxiedCall :=
  match rs with
  | [] => ([], w)
  | r :: rs =>
      let '(a, w1) := serve_scan r w in
      let '(log, w2) := scan_history rs w1 in
      ((r, a) :: log, w2)
  end.
End scan_file.

(** ** What the file-scan routes guarantee

    Every file handed to the scanner is on the record under the name of a
    member who may scan, and the result of an asynchronous scan goes back to
    the workspace that started it only. *)

Section spec.
Context `{AdminEnv} `{ScanProxyEnv}.
Context (parse_uuid_text : str -> option Uuid) (header_valid : str -> bool) (from_json : str -> option Value)
  (sidecar : ScanEndpoint).

#[local] Abbreviation Adm := (AdmM ScanTables ProxiedCall).
#[local] Abbreviation World := (AdminWorld ScanTables ProxiedCall).
#[local] Abbreviation forward_scan' := (forward_scan parse_uuid_text header_valid from_json sidecar).
#[local] Abbreviation serve' := (serve_scan parse_uuid_text header_valid from_json sidecar).
#[local] Abbreviation history' := (scan_history parse_uuid_text header_valid from_json sidecar).

(** ** The record of a forwarded file *)

Definition scan_path (mode : str) : str :=
  if bool_decide (mode = $"async") then $"/v1/scan-file/async" else $"/v1/scan-file".

(** The row names a member of the workspace who may scan, and the mode and the
    size of the upload [c]. *)
Definition records (r : AdminAuditRow) (c : ProxiedCall) : Prop :=
  ar_action r = $"file_scan.requested" /\ ar_target_label r = None
  /\ (exists user email text role, ar_actor_user_id r = Some user /\ ar_actor_email r = Some email
        /\ ar_actor_role r = Some text /\ role_from_db_str text = Ok role /\ may_run_file_scan role = true)
  /\ exists mode, get_str (ar_detail r) $"mode" = Some mode /\ px_url c = se_base_url sidecar ++ scan_path mode
     /\ get (ar_detail r) $"request_bytes" = Some (Number (PosInt (slen (px_body c)))).

Definition uploads (w : World) : list ProxiedCall :=
  List.filter (fun c => match px_method c with ProxyPost => true | ProxyGet => false end) (aw_sent w).

(** Each upload has a row of its own, in the order of the uploads. *)
Definition recorded (w : World) : Prop :=
  exists rows, rows `sublist_of` sc_audit (aw_state w) /\ Forall2 records rows (uploads w).

(** The row of the upload [c] is written, and [c] is still to be sent. *)
Definition pending (c : ProxiedCall) (w : World) : Prop :=
  exists rows r, rows ++ [r] `sublist_of` sc_audit (aw_state w)
                 /\ Forall2 records rows (uploads w) /\ records r c.

#[local] Instance recorded_quiet : Quiet recorded.
Proof. by intros w Hw. Qed.
#[local] Instance pending_quiet c : Quiet (pending c).
Proof. by intros w Hw. Qed.

Lemma pending_recorded c w : pending c w -> recorded w.
Proof using Type.
  intros (rows & r & Hs & Hf & _). exists rows. split; [|done]. etrans; [|exact Hs]. by apply sublist_inserts_r.
Qed.

(** A transaction that leaves the trail alone. *)
Lemma keeps_trail {A} (body : nat -> ScanTables -> result A * ScanTables) :
  (forall n t a t', body n t = (Ok a, t') -> sc_audit t' = sc_audit t) -> keeps recorded (transaction body).
Proof using Type.
  intros Hb. apply runs_transaction; [apply _|]. intros w a t (rows & Hs & Hf) Ht.
  exists rows. split; [|exact Hf]. cbn. by rewrite (Hb _ _ _ _ Ht).
Qed.

(** What [authorize_scan] promises of a principal. *)
Definition may_scan (auth : result AuthContext) (p : ScanPrincipal) : Prop :=
  (exists role, role_from_db_str (sn_role p) = Ok role /\ may_run_file_scan role = true)
  /\ exists a, auth = Ok a /\ sn_workspace_id p = au_workspace_id a.

Lemma authorize_runs auth P `{!Quiet P} :
  runs P (authorize_scan auth) (fun p w => P w /\ may_scan auth p) P.
Proof using Type.
  unfold authorize_scan. eapply runs_bind.
  { apply (runs_result _ _ (fun a w => P w /\ auth = Ok a)). done. }
  intros a. eapply runs_bind with (R := fun _ w => P w /\ auth = Ok a).
  { eapply runs_weaken; [apply (keeps_result _ (fun w => P w /\ auth = Ok a))|done|done|by intros w []]. }
  intros uid. eapply runs_bind with (R := fun _ w => P w /\ auth = Ok a).
  { intros w [Hw Ha]. pose proof (keeps_reading (fun t => List.find (member_of uid (au_workspace_id a)) (sc_users t)) P w Hw) as Hr.
    destruct (reading _ w) as [[] w']; auto. }
  intros row. eapply runs_bind with (R := fun _ w => P w /\ auth = Ok a).
  { intros w [Hw Ha]. by destruct row. }
  intros m. eapply runs_bind with (R := fun role w => P w /\ auth = Ok a /\ role_from_db_str (mb_role m) = Ok role).
  { intros w [Hw Ha]. cbn. by destruct (role_from_db_str (mb_role m)). }
  intros role. intros w (Hw & Ha & Hr). destruct (may_run_file_scan role) eqn:He; cbn; [|done].
  cbn. split; [done|]. split; eauto.
Qed.

Lemma record_runs auth p h mode ct body : may_scan auth p ->
  runs recorded (record_scan parse_uuid_text p h mode (slen body))
    (fun _ => pending {| px_method := ProxyPost; px_url := se_base_url sidecar ++ scan_path mode;
                         px_authorization := $"Bearer " ++ se_token sidecar; px_content_type := ct;
                         px_body := body |}) recorded.
Proof using Type.
  intros [(role & Hr & Hm) _]. eapply runs_bind with (R := fun _ => recorded).
  { destruct (scan_request_id _ h); [apply keeps_ret|apply keeps_numbered, _]. }
  intros rid. apply runs_transaction; [apply _|]. intros w a t (rows & Hs & Hf) [= _ <-].
  eexists rows, _. split; [|split; [exact Hf|]].
  { cbn. unfold audit_write. apply sublist_app; [exact Hs|reflexivity]. }
  split; [done|]. split; [done|]. split; [by eexists _, _, _, role|].
  by exists mode.
Qed.

Lemma proxy_runs path ct body :
  runs (pending {| px_method := ProxyPost; px_url := se_base_url sidecar ++ path;
                   px_authorization := $"Bearer " ++ se_token sidecar; px_content_type := ct;
                   px_body := body |})
    (proxy_scan sidecar ProxyPost path ct body) (fun _ => recorded) recorded.
Proof using Type.
  intros w Hw. unfold proxy_scan. destruct (se_enabled sidecar); cbn; [|by eapply pending_recorded].
  unfold outbound. destruct (client_build _) eqn:Hb; cbn.
  - apply pending_recorded in Hw as (rows & Hs & Hf). exists rows. split; [exact Hs|].
    unfold uploads. cbn. by rewrite app_nil_r.
  - destruct Hw as (rows & r & Hs & Hf & Hr). exists (rows ++ [r]). split; [exact Hs|].
    unfold uploads. cbn. rewrite List.filter_app. apply Forall2_app; [exact Hf|]. by constructor.
Qed.

Lemma proxy_get_keeps path ct body : keeps recorded (proxy_scan sidecar ProxyGet path ct body).
Proof using Type.
  unfold proxy_scan. destruct (se_enabled sidecar); cbn; [|apply keeps_ret].
  intros w (rows & Hs & Hf). unfold outbound. destruct (client_build _); cbn;
    (exists rows; split; [exact Hs|]; unfold uploads; cbn; by rewrite List.filter_app, app_nil_r).
Qed.

Lemma bind_kickoff_keeps mode ws r P :
  (forall task_id, keeps P (bind_scan_task task_id ws SCAN_TASK_BINDING_TTL_SECS)) ->
  keeps P (bind_kickoff from_json mode ws r).
Proof using Type.
  intros Hb. unfold bind_kickoff. destruct (_ && _); [|apply keeps_ret].
  destruct (task_id_of _ _); [apply Hb|apply keeps_result].
Qed.

Lemma forward_keeps auth h body mode : keeps recorded (forward_scan' auth h body mode (scan_path mode)).
Proof using Type.
  unfold forward_scan. eapply runs_bind; [apply authorize_runs, _|]. intros p w [Hw Hp]. revert w Hw.
  change (keeps recorded (record_scan parse_uuid_text p h mode (slen body);;
    answer ← proxy_scan sidecar ProxyPost (scan_path mode) (header_text (sh_content_type h)) body;
    response ← adm_result (answer_or_503 answer); bind_kickoff from_json mode (sn_workspace_id p) response;;
    mret (relay header_valid response))).
  eapply runs_bind; [by eapply record_runs|]. intros u. eapply runs_bind; [apply proxy_runs|]. intros a.
  apply keeps_bind; [apply keeps_result|]. intros r.
  apply keeps_bind; [|intros; apply keeps_ret]. apply bind_kickoff_keeps. intros. apply keeps_trail.
  by intros n t a' t' [= _ <-].
Qed.

Lemma poll_keeps auth task_id : keeps recorded (scan_file_task header_valid sidecar auth task_id).
Proof using Type.
  unfold scan_file_task. eapply runs_bind; [apply authorize_runs, _|]. intros p w [Hw _]. revert w Hw.
  apply keeps_bind; [apply keeps_trail; by intros n t a t' [= _ <-]|]. intros o.
  apply keeps_bind; [apply keeps_result|]. intros _. apply keeps_bind; [apply proxy_get_keeps|]. intros a.
  apply keeps_bind; [apply keeps_result|]. intros r. apply keeps_ret.
Qed.

Lemma serve_keeps r : keeps recorded (serve' r).
Proof using Type.
  destruct r as [auth h body|auth h body|auth task_id|users]; cbn.
  - apply keeps_bind; [apply (forward_keeps auth h body $"sync")|intros; apply keeps_ret].
  - apply keeps_bind; [apply (forward_keeps auth h body $"async")|intros; apply keeps_ret].
  - apply keeps_bind; [apply poll_keeps|intros; apply keeps_ret].
  - apply keeps_trail. by intros n t a t' [= _ <-].
Qed.

(** C36: Whatever requests are served and whatever fails in between, every
    file handed to the scanner has a row of its own in the audit trail, in
    the order of the uploads: it names the uploading member, whose role may
    scan, the mode and the size of the upload, and no file name. *)
Theorem uploads_are_recorded rs w : recorded w -> recorded (history' rs w).2.
Proof using Type.
  revert w. induction rs as [|r rs IH]; intros w Hw; cbn; [done|].
  pose proof (serve_keeps r w Hw) as Hk. destruct (serve' r w) as [a w1].
  assert (Hw1 : recorded w1) by (destruct a; done).
  specialize (IH w1 Hw1). by destruct (history' rs w1).
Qed.

(** ** The result of an asynchronous scan *)

(** A request of the log started the task [t] for the workspace [ws]. *)
Definition started (log : list (ScanRequest * result (option Relayed))) (t : str) (ws : Uuid) : Prop :=
  exists auth h body a, (ScanAsync (Ok auth) h body, Ok (Some a)) ∈ log
    /\ au_workspace_id auth = ws /\ task_id_of from_json (rl_body a) = Some t.

(** Every binding is of a task the log started. *)
Definition bound (log : list (ScanRequest * result (option Relayed))) (w : World) : Prop :=
  forall k v, sc_tasks (aw_state w) !! k = Some v ->
  exists t ws, k = scan_task_key t /\ v.1 = show_uuid ws /\ started log t ws.

Definition tasks_are (m : gmap str (str * Z)) : World -> Prop := on_state (fun t => sc_tasks t = m).

Lemma proxy_keeps method path ct body P `{!Stable P} : keeps P (proxy_scan sidecar method path ct body).
Proof using Type. unfold proxy_scan. destruct (se_enabled sidecar); cbn; [by apply keeps_outbound|apply keeps_ret]. Qed.

(** A kickoff leaves the bindings alone, or adds that of the task it answers
    with. *)
Definition kicked_off (mode : str) (auth : result AuthContext) (m : gmap str (str * Z)) (a : Relayed) (w : World) : Prop :=
  tasks_are m w \/ exists c t expires, mode = $"async" /\ auth = Ok c
    /\ task_id_of from_json (rl_body a) = Some t
    /\ tasks_are (<[scan_task_key t := (show_uuid (au_workspace_id c), expires)]> m) w.

Lemma forward_binds auth h body mode m :
  runs (tasks_are m) (forward_scan' auth h body mode (scan_path mode)) (kicked_off mode auth m) (tasks_are m).
Proof using Type.
  unfold forward_scan. eapply runs_bind; [apply authorize_runs, _|]. intros p w [Hw [_ (c & -> & Hc)]].
  revert w Hw. change (runs (tasks_are m) (record_scan parse_uuid_text p h mode (slen body);;
    answer ← proxy_scan sidecar ProxyPost (scan_path mode) (header_text (sh_content_type h)) body;
    response ← adm_result (answer_or_503 answer); bind_kickoff from_json mode (sn_workspace_id p) response;;
    mret (relay header_valid response)) (kicked_off mode (Ok c) m) (tasks_are m)).
  eapply runs_bind with (R := fun _ => tasks_are m).
  { apply keeps_bind; [destruct (scan_request_id _ h); [apply keeps_ret|apply keeps_numbered, _]|].
    intros rid. apply keeps_transaction. by intros n t a t' Ht [= _ <-]. }
  intros u. eapply runs_bind; [apply proxy_keeps, _|]. intros a. eapply runs_bind; [apply keeps_result|]. intros r.
  eapply runs_bind with (R := fun _ => kicked_off mode (Ok c) m (relay header_valid r)); [|by intros ? w].
  unfold bind_kickoff. destruct (bool_decide_reflect (mode = $"async")) as [Hm|]; [|intros w Hw; by left].
  destruct (_ && _); [|intros w Hw; by left].
  destruct (task_id_of from_json (sp_body r)) as [t|] eqn:Ht; [|by intros w Hw].
  apply runs_transaction; [apply _|]. intros w b s Hw [= _ <-]. right. exists c, t. eexists. split; [done|].
  split; [done|]. split; [exact Ht|]. red. red. cbn. rewrite Hw, Hc. reflexivity.
Qed.

Lemma poll_binds auth t m : keeps (tasks_are m) (scan_file_task header_valid sidecar auth t).
Proof using Type.
  unfold scan_file_task. eapply runs_bind; [apply authorize_runs, _|]. intros p w [Hw _]. revert w Hw.
  apply keeps_bind; [apply keeps_transaction; by intros n s a s' Hs [= _ <-]|]. intros o.
  apply keeps_bind; [apply keeps_result|]. intros u. apply keeps_bind; [apply proxy_keeps, _|]. intros a.
  apply keeps_bind; [apply keeps_result|]. intros r. apply keeps_ret.
Qed.

Lemma started_mono log log' t ws : started log t ws -> started (log ++ log') t ws.
Proof using Type. intros (auth & h & body & a & Hin & Hr). exists auth, h, body, a. split; [|done]. apply elem_of_app. by left. Qed.

Lemma bound_same log log' w w' : tasks_are (sc_tasks (aw_state w)) w' -> bound log w -> bound (log ++ log') w'.
Proof using Type.
  intros Ht Hb k v Hk. rewrite Ht in Hk. destruct (Hb k v Hk) as (t & ws & -> & Hv & Hs).
  exists t, ws. eauto using started_mono.
Qed.

Lemma serve_bound log r w : bound log w -> bound (log ++ [(r, (serve' r w).1)]) (serve' r w).2.
Proof using Type.
  intros Hb. destruct r as [auth h body|auth h body|auth t|users].
  - pose proof (forward_binds auth h body $"sync" (sc_tasks (aw_state w)) w eq_refl) as Hf.
    change (scan_path $"sync") with ($"/v1/scan-file") in Hf.
    cbn. unfold scan_file_sync, mbind, AdmM_bind, mret, AdmM_ret.
    destruct (forward_scan' _ _ _ _ _ w) as [[a|e|] w']; cbn; [|by eapply bound_same..].
    destruct Hf as [Hf|(c & t & x & Hm & _)]; [by eapply bound_same|discriminate Hm].
  - pose proof (forward_binds auth h body $"async" (sc_tasks (aw_state w)) w eq_refl) as Hf.
    change (scan_path $"async") with ($"/v1/scan-file/async") in Hf.
    cbn. unfold scan_file_async, mbind, AdmM_bind, mret, AdmM_ret.
    destruct (forward_scan' _ _ _ _ _ w) as [[a|e|] w']; cbn; [|by eapply bound_same..].
    destruct Hf as [Hf|(c & t & x & _ & -> & Ht & Hf)]; [by eapply bound_same|].
    intros k v Hk. rewrite Hf in Hk. apply lookup_insert_Some in Hk as [[<- <-]|[_ Hk]].
    + exists t, (au_workspace_id c). split; [done|]. split; [done|]. exists c, h, body, a.
      split; [|done]. apply elem_of_app. right. by apply list_elem_of_singleton.
    + destruct (Hb k v Hk) as (t' & ws & -> & Hv & Hs). exists t', ws. eauto using started_mono.
  - pose proof (poll_binds auth t (sc_tasks (aw_state w)) w eq_refl) as Hf.
    cbn. unfold mbind, AdmM_bind, mret, AdmM_ret.
    destruct (scan_file_task _ _ _ _ w) as [[a|e|] w']; by eapply bound_same.
  - cbn. unfold transaction. destruct (tx_failure _); by eapply bound_same.
Qed.

Lemma history_bound log0 rs w : bound log0 w -> bound (log0 ++ (history' rs w).1) (history' rs w).2.
Proof using Type.
  revert log0 w. induction rs as [|r rs IH]; intros log0 w Hb; cbn; [by rewrite app_nil_r|].
  pose proof (serve_bound log0 r w Hb) as Hs. destruct (serve' r w) as [a w1]. cbn in Hs.
  specialize (IH _ w1 Hs). destruct (history' rs w1) as [log w2]. cbn in *. by rewrite <- app_assoc in IH.
Qed.

(** Nothing is written and nothing sent. *)
Definition untouched (w w' : World) : Prop := aw_state w' = aw_state w /\ aw_sent w' = aw_sent w.

#[local] Instance untouched_quiet w : Quiet (untouched w).
Proof. by intros w' Hw. Qed.

(** A poll whose task is bound to nobody, or to somebody else. *)
Lemma poll_refused c t w :
  (forall v, sc_tasks (aw_state w) !! scan_task_key t = Some v -> v.1 <> show_uuid (au_workspace_id c)) ->
  runs (untouched w) (scan_file_task header_valid sidecar (Ok c) t) (fun _ _ => False) (untouched w).
Proof using Type.
  intros Hn. unfold scan_file_task. eapply runs_bind; [apply authorize_runs, _|]. intros p w1 [Hw [_ (? & [= <-] & Hc)]].
  revert w1 Hw. change (runs (untouched w) (owner ← scan_task_owner t;
    adm_result (ensure (bool_decide (owner = Some (show_uuid (sn_workspace_id p)))) (NotFound $"no such scan task"));;
    answer ← proxy_scan sidecar ProxyGet ($"/v1/scan-file/tasks/" ++ t) None [];
    response ← adm_result (answer_or_503 answer); mret (relay header_valid response)) (fun _ _ => False) (untouched w)).
  eapply runs_bind with (R := fun o w' => untouched w w' /\ o <> Some (show_uuid (sn_workspace_id p))).
  - apply runs_transaction; [apply _|]. intros w' o s [Hs Ht] [= <- <-]. split; [by split|].
    rewrite Hs, Hc. destruct (sc_tasks _ !! _) as [[v x]|] eqn:Hk; [|done].
    case_match; [|done]. intros [= ->]. by apply (Hn _ eq_refl).
  - intros o w' [Hw Ho]. unfold mbind at 1, AdmM_bind. rewrite bool_decide_eq_false_2 by done. done.
Qed.

(** C27: In a history that starts without bindings, whatever is served and
    whatever fails: a poll for a task no key of the caller's workspace has
    started answers with an error, sends nothing to the sidecar and writes
    nothing.  A result comes back only where its upload came from. *)
Theorem scan_results_stay_home rs w c t :
  sc_tasks (aw_state w) = ∅ ->
  (forall c h body a, (ScanAsync (Ok c) h body, a) ∈ (history' rs w).1 -> (au_workspace_id c < 2 ^ 128)%N) ->
  (au_workspace_id c < 2 ^ 128)%N ->
  started (history' rs w).1 t (au_workspace_id c) \/
  let w1 := (history' rs w).2 in
  let '(answer, w2) := scan_file_task header_valid sidecar (Ok c) t w1 in
  (forall a, answer <> Ok a) /\ aw_sent w2 = aw_sent w1 /\ aw_state w2 = aw_state w1.
Proof using Type.
  intros He Hids Hc. pose proof (history_bound [] rs w) as Hb. cbn in Hb.
  assert (Hb0 : bound [] w) by (intros k v Hk; by rewrite He, lookup_empty in Hk). specialize (Hb Hb0).
  destruct (history' rs w) as [log w1]. cbn in *.
  assert (refuse : (forall v, sc_tasks (aw_state w1) !! scan_task_key t = Some v ->
                      v.1 <> show_uuid (au_workspace_id c)) ->
    started log t (au_workspace_id c) \/
    let '(answer, w2) := scan_file_task header_valid sidecar (Ok c) t w1 in
    (forall a, answer <> Ok a) /\ aw_sent w2 = aw_sent w1 /\ aw_state w2 = aw_state w1).
  { intros Hn. right. pose proof (poll_refused c t w1 Hn w1 (conj eq_refl eq_refl)) as Hp.
    destruct (scan_file_task _ _ _ _ w1) as [[] w2]; [done|..]; by destruct Hp. }
  destruct (sc_tasks (aw_state w1) !! scan_task_key t) as [v|] eqn:Hk.
  - destruct (decide (v.1 = show_uuid (au_workspace_id c))) as [Hv|Hv].
    + left. destruct (Hb _ _ Hk) as (t' & ws & Ht & Hv' & Hs). apply (inj (app _)) in Ht as <-.
      destruct Hs as (c' & h & body & a & Hin & <- & Hid). exists c', h, body, a. split; [done|]. split; [|done].
      apply show_uuid_inj; [by eapply Hids|done|congruence].
    + apply refuse. intros v' Hv'. congruence.
  - apply refuse. intros v' Hv'. congruence.
Qed.
End spec.

(** ** The file-scan routes on concrete requests *)

(** A database whose twelfth call fails. *)
Definition flaky_admin : AdminEnv := {|
  tx_failure n := if bool_decide (n = 12) then Some (Database $"down") else None;
  fresh_id n := N.of_nat (1000 + n); now_at n := Z.of_nat n; actor_email _ _ := Ok None |}.

Definition kickoff_answer : SidecarProxyResponse := {|
  sp_status := 202; sp_content_type := Some $"application/json"; sp_body := $"{}" |}.
Definition demo_proxy : ScanProxyEnv := {|
  client_build _ := None;
  proxy_reply _ := inl kickoff_answer |}.

Definition demo_uuid : str -> option Uuid := fun _ => None.
Definition task_json : str -> option Value := fun _ => Some (Object [($"task_id", VString $"t1")]).
Definition demo_sidecar : ScanEndpoint := {| se_enabled := true; se_base_url := $"http://ml"; se_token := $"s" |}.

Definition member (id ws : Uuid) (role : str) : Member :=
  {| mb_id := id; mb_workspace_id := ws; mb_email := $"m@x.io"; mb_role := role |}.
Definition caller (user ws : Uuid) : AuthContext := {|
  au_api_key_id := 3; au_workspace_id := ws; au_api_key_name := $"k"; au_user_id := Some user |}.
Definition plain : ScanHeaders := {| sh_request_id := HAbsent; sh_content_type := HText $"multipart/form-data" |}.

Definition scan_start : AdminWorld ScanTables ProxiedCall := {|
  aw_state := {| sc_users := [member 7 1 $"employee"; member 8 1 $"viewer"; member 9 2 $"owner"];
                 sc_tasks := ∅; sc_audit := [] |};
  aw_calls := 0; aw_sent := [] |}.

Abbreviation demo_history :=
  (@scan_history flaky_admin demo_proxy demo_uuid (fun _ => true) task_json demo_sidecar).
Abbreviation demo_poll := (@scan_file_task flaky_admin demo_proxy (fun _ => true) demo_sidecar).

(** An employee's upload, a viewer's, and one whose record cannot be written. *)
Definition day : list ScanRequest :=
  [ScanAsync (Ok (caller 7 1)) plain $"file"; ScanAsync (Ok (caller 8 1)) plain $"file";
   ScanSync (Ok (caller 7 1)) plain $"page"; ScanSync (Ok (caller 9 2)) plain $"page"].

Example day_sent :
  (fun c => (px_url c, px_body c)) <$> aw_sent (demo_history day scan_start).2
  = [($"http://ml/v1/scan-file/async", $"file"); ($"http://ml/v1/scan-file", $"page")].
Proof. vm_compute. reflexivity. Qed.

Example day_answers :
  (fun l => match l.2 with Ok _ => None | Err e => Some e | Panic => None end) <$> (demo_history day scan_start).1
  = [None; Some (Forbidden $"this role may not run file scans"); None; Some (Database $"down")].
Proof. vm_compute. reflexivity. Qed.

Lemma uploads_are_recorded_witness :
  @recorded demo_sidecar (demo_history day scan_start).2 /\ length (uploads (demo_history day scan_start).2) = 2.
Proof.
  split; [|vm_compute; reflexivity]. apply uploads_are_recorded. exists []. split; [constructor|constructor].
Defined.

Lemma nobody_started_for_two : ~ started task_json (demo_history day scan_start).1 $"t1" 2.
Proof.
  intros (auth & h & body & a & Hin & Hw & _). apply list_elem_of_In in Hin. vm_compute in Hin.
  destruct Hin as [Hin|[Hin|[Hin|[Hin|[]]]]]; try discriminate Hin. injection Hin as <- <- <- <-. discriminate Hw.
Qed.

(** Workspace 2 has an owner, but not the task. *)
Lemma scan_results_stay_home_witness :
  aw_sent (demo_poll (Ok (caller 9 2)) $"t1" (demo_history day scan_start).2).2
  = aw_sent (demo_history day scan_start).2.
Proof.
  pose proof (@scan_results_stay_home flaky_admin demo_proxy demo_uuid (fun _ => true) task_json demo_sidecar
    day scan_start (caller 9 2) $"t1" eq_refl) as Hh.
  destruct Hh as [Hs|Hr].
  - intros c h body a Hin. apply list_elem_of_In in Hin. vm_compute in Hin.
    destruct Hin as [Hin|[Hin|[Hin|[Hin|[]]]]]; try discriminate Hin; injection Hin as <- <- <- <-; reflexivity.
  - reflexivity.
  - destruct (nobody_started_for_two Hs).
  - cbn zeta in Hr. destruct (demo_poll _ _ _) as [answer w2]. apply Hr.
Defined.

(** The workspace that started it is served. *)
Example poll_at_home :
  (fun r => rl_body <$> match r with Ok a => Some a | _ => None end)
    (demo_poll (Ok (caller 7 1)) $"t1" (demo_history day scan_start).2).1 = Some $"{}".
Proof. vm_compute. reflexivity. Qed.
