(* ===== verification/Edge.v ===== *)
(** * The edge of the gateway

    http/mod.rs and http/middleware/request_hygiene.rs: the router, and the
    layers around it: request id, inbound deadline, the two body limits, the
    license gate and the session gate of the dashboard.  A layer is a function
    from services to services, as in the code; what a request's [Content-Length]
    does not announce is cut by the extractors of the handlers.  Times are in
    milliseconds. *)

From S2P Require Import Prelude Rstr Json Types Providers Roles License Sessions ApiKeys OpenAi.
From S2P Require Import ScanFile Startup.

(** ** request_hygiene.rs *)

Definition REQUEST_ID_HEADER : str := $"x-request-id".
Definition DEFAULT_MAX_BODY_BYTES : N := 2 * 1024 * 1024.
Definition DEFAULT_REQUEST_DEADLINE_MS : N := 150000.

Record ResolvedRequestId : Type := { ri_id : Uuid; ri_from_caller : bool }.

Definition parse_max_body_bytes (raw : option str) : N := positive_or DEFAULT_MAX_BODY_BYTES raw.
Definition parse_request_deadline (raw : option str) : N := positive_or DEFAULT_REQUEST_DEADLINE_MS raw.

(** ** Requests, replies, services *)

(** A request as far as the layers look at it; [er_auth] is what
    [jwt_auth::require] makes of its bearer token. *)
Record EdgeRequest : Type := {
  er_path : str;
  er_request_id : HeaderValue;
  er_content_length : option N;
  er_auth : result JwtAuthContext;
}.

Definition with_request_id (v : str) (r : EdgeRequest) : EdgeRequest := {|
  er_path := er_path r; er_request_id := HText v; er_content_length := er_content_length r;
  er_auth := er_auth r |}.

Inductive EdgeOutcome (A : Type) : Type :=
  | Served (a : A)
  | Failed (e : ApiError)
  | PayloadTooLarge
  | GatewayTimeout
  | NoSuchRoute.
Arguments Served {A} a. Arguments Failed {A} e. Arguments PayloadTooLarge {A}.
Arguments GatewayTimeout {A}. Arguments NoSuchRoute {A}.

(** An outcome, the headers added on the way out, the alerts raised and the
    time it took. *)
Record EdgeReply (A : Type) : Type := {
  ep_outcome : EdgeOutcome A;
  ep_headers : list (str * str);
  ep_alerts : list (str * str);
  ep_millis : N;
}.
Arguments ep_outcome {A}. Arguments ep_headers {A}. Arguments ep_alerts {A}. Arguments ep_millis {A}.

Definition Service (A : Type) : Type := EdgeRequest -> EdgeReply A.

(** An answer of the edge itself. *)
Definition at_once {A} (o : EdgeOutcome A) : EdgeReply A :=
  {| ep_outcome := o; ep_headers := []; ep_alerts := []; ep_millis := 0 |}.

(** [HeaderMap::insert] *)
Definition header_insert (name value : str) (l : list (str * str)) : list (str * str) :=
  List.filter (fun h => negb (bool_decide (h.1 = name))) l ++ [(name, value)].

Definition header_values (name : str) (l : list (str * str)) : list str :=
  (List.filter (fun h => bool_decide (h.1 = name)) l).*2.

(** ** The layers *)

(** [RequestBodyLimitLayer] *)
Definition body_limit {A} (limit : N) (inner : Service A) : Service A := fun r =>
  match er_content_length r with
  | Some n => if (limit <? n)%N then at_once PayloadTooLarge else inner r
  | None => inner r
  end.

(** [TimeoutLayer]: what the handler did by then is done. *)
Definition timeout {A} (deadline : N) (inner : Service A) : Service A := fun r =>
  let p := inner r in
  if (deadline <? ep_millis p)%N
  then {| ep_outcome := GatewayTimeout; ep_headers := []; ep_alerts := ep_alerts p; ep_millis := deadline |}
  else p.

Definition license_layer {A} (st : LicenseState) (now : Z) (inner : Service A) : Service A := fun r =>
  let g := enforce st now (er_path r) (fun _ => inner r) in
  match g_body g with
  | inl p => {| ep_outcome := ep_outcome p; ep_headers := ep_headers p ++ g_headers g;
                ep_alerts := g_alerts g ++ ep_alerts p; ep_millis := ep_millis p |}
  | inr e => {| ep_outcome := Failed e; ep_headers := g_headers g; ep_alerts := g_alerts g; ep_millis := 0 |}
  end.

(** [from_fn_with_state(state, jwt_auth::require)] *)
Definition jwt_layer {A} (inner : Service A) : Service A := fun r =>
  match er_auth r with
  | Ok _ => inner r
  | Err e => at_once (Failed e)
  | Panic => at_once (Failed (Internal []))
  end.

Section hygiene.
(** [Uuid::parse_str] *)
Context (parse_uuid_text : str -> option Uuid).

Definition resolve_request_id (inbound : option str) (generated : Uuid) : ResolvedRequestId :=
  match (fun v => parse_uuid_text (trim v)) <$> inbound with
  | Some (Some id) => {| ri_id := id; ri_from_caller := true |}
  | _ => {| ri_id := generated; ri_from_caller := false |}
  end.

Definition edge_request_id (r : EdgeRequest) : option RequestId :=
  header_text (er_request_id r) ≫= parse_uuid_text.

Definition propagate {A} (generated : Uuid) (next : Service A) : Service A := fun r =>
  let resolved := resolve_request_id (header_text (er_request_id r)) generated in
  let value := show_uuid (ri_id resolved) in
  let p := next (with_request_id value r) in
  {| ep_outcome := ep_outcome p; ep_headers := header_insert REQUEST_ID_HEADER value (ep_headers p);
     ep_alerts := ep_alerts p; ep_millis := ep_millis p |}.
End hygiene.

(** ** http/mod.rs *)

(** The routes of the data plane, and what is nested with its own gates. *)
Definition open_routes : list str :=
  [$"/v1/chat/completions"; $"/v1/completions"; $"/v1/embeddings"; $"/metrics"; $"/openapi.json";
   $"/v1/redact"; $"/v1/vault/stash"; $"/v1/tokens/estimate"; $"/v1/policy/check"; $"/internal/attestation"].
Definition own_gate_nests : list str := [$"/v1/auth"; $"/v1/workspaces"].

(** What is nested behind [jwt_auth::require]. *)
Definition jwt_nests : list str :=
  [$"/v1/analytics"; $"/v1/requests"; $"/v1/keys"; $"/v1/me"; $"/v1/providers"; $"/v1/license";
   $"/v1/policy-rules"; $"/v1/telemetry"; $"/v1/users"; $"/v1/leak-report"; $"/v1/data-inventory";
   $"/v1/audit-exports"; $"/v1/secure-mode"].

Definition under (nests : list str) (path : str) : bool := existsb (is_under path) nests.

Definition is_scan_path (path : str) : bool :=
  bool_decide (path ∈ [$"/v1/scan-file"; $"/v1/scan-file/async"])
  || match strip_prefix path $"/v1/scan-file/tasks/" with
     | Some (c :: id) => negb (bool_decide ("/"%char ∈ c :: id))
     | _ => false
     end.

(** [nested] tells whether a nested router knows the path: an unknown one is
    answered before the session gate of its nest. *)
Definition core_routes {A} (nested : str -> bool) (handlers : Service A) : Service A := fun r =>
  if under jwt_nests (er_path r) then
    if nested (er_path r) then jwt_layer handlers r else at_once NoSuchRoute
  else if under own_gate_nests (er_path r) then
    if nested (er_path r) then handlers r else at_once NoSuchRoute
  else if bool_decide (er_path r ∈ open_routes) then handlers r
  else at_once NoSuchRoute.

Definition core_router {A} (nested : str -> bool) (st : LicenseState) (now : Z) (handlers : Service A)
    : Service A := license_layer st now (core_routes nested handlers).

Definition max_body_bytes (env : Env) : N := parse_max_body_bytes (env $"SECUREPROMPT_MAX_BODY_BYTES").
Definition inbound_deadline (env : Env) : N :=
  parse_request_deadline (env $"SECUREPROMPT_REQUEST_DEADLINE_MS").
Definition scan_max_body_bytes (env : Env) : N :=
  parse_scan_max_body_bytes (env $"SECUREPROMPT_SCAN_MAX_BODY_BYTES").

(** The ceiling of the half a path belongs to. *)
Definition body_ceiling (env : Env) (path : str) : N :=
  if is_scan_path path then scan_max_body_bytes env else max_body_bytes env.

Definition build_router {A} (parse_uuid_text : str -> option Uuid) (env : Env) (nested : str -> bool)
    (st : LicenseState) (now : Z) (generated : Uuid) (handlers : Service A) : Service A :=
  let core := body_limit (max_body_bytes env) (core_router nested st now handlers) in
  let scan := body_limit (scan_max_body_bytes env) (license_layer st now handlers) in
  propagate parse_uuid_text generated
    (timeout (inbound_deadline env) (fun r => if is_scan_path (er_path r) then scan r else core r)).

(** ** Errors *)

Definition error_status (e : ApiError) : N :=
  match e with
  | BadRequest _ => 400
  | Unauthorized _ => 401
  | Forbidden _ => 403
  | NotFound _ => 404
  | NotImplemented _ => 501
  | BudgetExceeded _ => 402
  | ServiceUnavailable _ => 503
  | Conflict _ => 409
  | TooManyRequests _ => 429
  | Database _ | Internal _ => 500
  end.

Definition error_to_string (e : ApiError) : str :=
  match e with
  | NotFound m => $"not found: " ++ m
  | Unauthorized m => $"unauthorized: " ++ m
  | Forbidden m => $"forbidden: " ++ m
  | BadRequest m => $"bad request: " ++ m
  | NotImplemented m => $"not implemented: " ++ m
  | Internal m => $"internal error: " ++ m
  | Database m => $"database error: " ++ m
  | BudgetExceeded m => $"budget exceeded: " ++ m
  | ServiceUnavailable m => $"service unavailable: " ++ m
  | Conflict m => $"conflict: " ++ m
  | TooManyRequests m => $"too many requests: " ++ m
  end.

Definition error_body (e : ApiError) : Value :=
  match e with
  | BudgetExceeded m =>
      Object [($"error", Object [($"code", VString $"budget_exceeded"); ($"message", VString m);
                                 ($"type", VString $"secureprompt_error")])]
  | _ => Object [($"error", Object [($"message", VString (error_to_string e));
                                    ($"type", VString $"secureprompt_error")])]
  end.

Definition api_error_response (e : ApiError) : N * Value := (error_status e, error_body e).

(** The status an outcome goes out with; [of_served] is that of an answer. *)
Definition outcome_status {A} (of_served : A -> N) (o : EdgeOutcome A) : N :=
  match o with
  | Served a => of_served a
  | Failed e => error_status e
  | PayloadTooLarge => 413
  | GatewayTimeout => 504
  | NoSuchRoute => 404
  end.
