(* ===== verification/EdgeSpec.v ===== *)
(** * What the edge guarantees *)

From S2P Require Import Prelude Rstr Json Types Providers Roles License Sessions ApiKeys OpenAi.
From S2P Require Import ScanFile Startup Edge.
From S2P Require Import ProvidersSpec AdminTx.

(** ** Limits *)

(** A limit of the operator is a positive 64-bit number, whatever the
    variable holds. *)
Lemma digits_value_bound acc s n : (acc < 2 ^ 64)%N -> digits_value acc s = Some n -> (n < 2 ^ 64)%N.
Proof.
  revert acc. induction s as [|c s IH]; intros acc Ha; cbn -[N.pow]; [congruence|].
  destruct (is_ascii_digit c); [|done]. case_match eqn:Hlt; [|done]. apply IH. by apply N.ltb_lt.
Qed.

Lemma parse_u64_bound s n : parse_u64 s = Some n -> (n < 2 ^ 64)%N.
Proof.
  unfold parse_u64. set (ds := match s with "+"%char :: s' => s' | _ => s end).
  destruct ds; [done|]. by apply digits_value_bound.
Qed.

Lemma positive_or_bound fallback raw : (0 < fallback < 2 ^ 64)%N -> (0 < positive_or fallback raw < 2 ^ 64)%N.
Proof.
  intros Hf. unfold positive_or. destruct (raw ≫= _) as [n|] eqn:Hn; [|done].
  apply bind_Some in Hn as (v & _ & Hv%parse_u64_bound). destruct (N.ltb_spec 0 n); [done|done].
Qed.

(** ** Headers *)

Lemma header_values_insert name value l : header_values name (header_insert name value l) = [value].
Proof.
  unfold header_values, header_insert. rewrite List.filter_app, fmap_app. cbn.
  rewrite bool_decide_eq_true_2 by done. cbn. replace (List.filter _ (List.filter _ l)) with (@nil (str * str)); [done|].
  induction l as [|[n v] l IH]; [done|]. cbn. destruct (bool_decide (n = name)) eqn:Hn; cbn; [done|].
  by rewrite Hn.
Qed.

(** No setting of the operator closes a route to every body. *)
Lemma body_ceiling_bound env path : (0 < body_ceiling env path < 2 ^ 64)%N.
Proof. unfold body_ceiling. destruct (is_scan_path path); by apply positive_or_bound. Qed.

Section edge.
Context (parse_uuid_text : str -> option Uuid) {A : Type}.
#[local] Abbreviation app := (build_router (A := A) parse_uuid_text).

(** The request as [propagate] passes it on. *)
Definition correlated (generated : Uuid) (r : EdgeRequest) : EdgeRequest :=
  with_request_id
    (show_uuid (ri_id (resolve_request_id parse_uuid_text (header_text (er_request_id r)) generated))) r.

(** The conditions on which the edge lets a request through to a handler. *)
Record admitted (env : Env) (st : LicenseState) (now : Z) (generated : Uuid) (r q : EdgeRequest) : Prop := {
  ad_request : q = correlated generated r;
  ad_size : forall n, er_content_length r = Some n -> (n <= body_ceiling env (er_path r))%N;
  ad_license : is_revoked st = true -> is_allowlisted (er_path r) = true;
  ad_session : under jwt_nests (er_path r) = true -> is_scan_path (er_path r) = false ->
                 exists ctx, er_auth r = Ok ctx;
}.

Lemma body_limit_ext (limit : N) (inner inner' : Service A) r :
  ((forall n, er_content_length r = Some n -> (n <= limit)%N) -> inner r = inner' r) ->
  body_limit limit inner r = body_limit limit inner' r.
Proof using Type.
  intros Hi. unfold body_limit. destruct (er_content_length r) as [n|]; [|by apply Hi].
  destruct (N.ltb_spec limit n); [done|]. apply Hi. by intros ? [= <-].
Qed.

Lemma license_ext st now (inner inner' : Service A) r :
  ((is_revoked st = true -> is_allowlisted (er_path r) = true) -> inner r = inner' r) ->
  license_layer st now inner r = license_layer st now inner' r.
Proof using Type.
  intros Hi. unfold license_layer, enforce, license_gate.
  destruct (is_allowlisted (er_path r)); cbn; [by rewrite Hi|]. destruct (is_revoked st); [done|].
  destruct (is_hard_stale st now); cbn; by rewrite Hi.
Qed.

Lemma core_routes_ext nested (inner inner' : Service A) r :
  ((under jwt_nests (er_path r) = true -> exists ctx, er_auth r = Ok ctx) -> inner r = inner' r) ->
  core_routes nested inner r = core_routes nested inner' r.
Proof using Type.
  intros Hi. unfold core_routes, jwt_layer. destruct (under jwt_nests (er_path r)).
  - destruct (nested (er_path r)); [|done]. destruct (er_auth r) as [ctx|e|]; [|done..]. apply Hi. eauto.
  - rewrite Hi by done. done.
Qed.

(** C40: The handlers are behind the edge: a reply depends on what they do with
    admitted requests only.  They see the request the middleware correlated,
    with a body its half of the router accepts, never on a revoked license
    outside the recovery routes, and on the dashboard's routes never without
    a session. *)
Theorem handlers_are_shielded env nested st now generated handlers handlers' r :
  (forall q, admitted env st now generated r q -> handlers q = handlers' q) ->
  app env nested st now generated handlers r = app env nested st now generated handlers' r.
Proof using Type.
  intros Hh. unfold build_router, propagate, timeout. fold (correlated generated r).
  set (q := correlated generated r) in *. assert (Hq : er_path q = er_path r) by done.
  replace (if is_scan_path (er_path q) then _ else _)
    with (if is_scan_path (er_path q)
          then body_limit (scan_max_body_bytes env) (license_layer st now handlers') q
          else body_limit (max_body_bytes env) (core_router nested st now handlers') q); [done|].
  destruct (is_scan_path (er_path q)) eqn:Hs; symmetry.
  - apply body_limit_ext. intros Hn. apply license_ext. intros Hl. apply Hh. split; [done| |done|].
    + intros n Hc. unfold body_ceiling. rewrite <- Hq, Hs. by apply Hn.
    + intros _ Hf. rewrite Hq in Hs. congruence.
  - apply body_limit_ext. intros Hn. apply license_ext. intros Hl. apply core_routes_ext. intros Ha.
    apply Hh. split; [done| |done|].
    + intros n Hc. unfold body_ceiling. rewrite <- Hq, Hs. by apply Hn.
    + intros Hu _. by apply Ha.
Qed.

(** One request id everywhere: every reply, a rejection of the edge too,
    carries exactly one [x-request-id]; it is the caller's when that is a UUID
    and a fresh one otherwise, and it is the id the handlers read. *)
Theorem one_request_id env nested st now generated handlers r :
  (forall u, (u < 2 ^ 128)%N -> parse_uuid_text (show_uuid u) = Some u) ->
  (forall s u, parse_uuid_text s = Some u -> (u < 2 ^ 128)%N) -> (generated < 2 ^ 128)%N ->
  exists id, header_values REQUEST_ID_HEADER (ep_headers (app env nested st now generated handlers r))
             = [show_uuid id]
    /\ edge_request_id parse_uuid_text (correlated generated r) = Some id
    /\ id = default generated (v ← header_text (er_request_id r); parse_uuid_text (trim v)).
Proof using Type.
  intros Hp Hb Hg. eexists. split; [apply header_values_insert|]. split.
  - apply Hp. unfold resolve_request_id. destruct (header_text _) as [v|]; [|done]. cbn.
    destruct (parse_uuid_text (trim v)) eqn:He; [by eapply Hb|done].
  - unfold resolve_request_id. destruct (header_text (er_request_id r)) as [v|]; [|done]. cbn.
    by destruct (parse_uuid_text (trim v)).
Qed.
End edge.

(** ** Start-up and the edge on concrete environments *)

(** ** Codecs *)

Definition nibble (n : N) : ascii := ascii_of_N (97 + n).
Definition encode_byte (c : ascii) : str := [nibble (byte_val c / 16); nibble (byte_val c mod 16)].
Definition to_letters (s : str) : str := s ≫= encode_byte.
Fixpoint of_letters (s : str) : option str :=
  match s with
  | [] => Some []
  | a :: b :: s => cons (ascii_of_N (16 * (byte_val a - 97) + (byte_val b - 97))) <$> of_letters s
  | _ => None
  end.

Lemma of_to_letters s : of_letters (to_letters s) = Some s.
Proof.
  induction s as [|c s IH]; [done|]. change (to_letters (c :: s)) with (encode_byte c ++ to_letters s).
  cbn [encode_byte app of_letters]. rewrite IH. cbn. do 2 f_equal.
  destruct c as [[] [] [] [] [] [] [] []]; reflexivity.
Qed.

Lemma letters_valid s : utf8_valid (to_letters s) = true.
Proof.
  induction s as [|c s IH]; [done|]. change (to_letters (c :: s)) with (encode_byte c ++ to_letters s).
  destruct c as [[] [] [] [] [] [] [] []]; exact IH.
Qed.

(** Two texts that stand for each other. *)
Definition swap (s : str) : str :=
  if bool_decide (s = published_kms_key) then $"secureprompt-dev-kms-key-32bytes"
  else if bool_decide (s = $"secureprompt-dev-kms-key-32bytes") then published_kms_key else s.

Lemma swap_swap s : swap (swap s) = s.
Proof. unfold swap. repeat case_bool_decide; subst; done. Qed.

#[refine] Definition demo_codec : CodecEnv := {|
  std_encode := swap; std_decode s := inl (swap s);
  url_encode := to_letters;
  url_decode s := match of_letters s with Some t => inl t | None => inr $"odd" end;
  hex_decode := inl; debug_str s := s |}.
Proof.
  - intros s. by rewrite swap_swap.
  - intros s. by rewrite of_to_letters.
  - exact letters_valid.
Defined.

(** A cipher that marks a text with its key. *)
#[refine] Definition demo_aes : AesEnv := {|
  aes_seal key _ p := Some (key ++ p); aes_open key _ c := strip_prefix c key;
  os_nonce n := replicate 12 "n"%char |}.
Proof.
  - intros key nonce p c [= <-]. unfold strip_prefix. by rewrite starts_with_app, drop_app_length.
  - done.
Defined.

Definition demo_transit : TransitEnv := {|
  transit_encrypt _ _ _ p := inr $"down"; transit_decrypt _ _ _ c := inr $"down"; vault_client _ _ := None |}.

(** ** Secrets *)

Definition env_of (l : list (str * str)) : Env := fun name => (list_to_map l : gmap str str) !! name.

Definition healthy : Env := env_of
  [($"SECUREPROMPT_JWT_SECRET", $"3f9a-signing"); ($"SECUREPROMPT_PROVIDER_KEY", $"77c1-provider");
   ($"KMS_FILE_KEY", $" 0123456789abcdef0123456789abcdef "); ($"SECUREPROMPT_MAX_BODY_BYTES", $" 4096 ")].
Definition templated : Env := env_of
  [($"SECUREPROMPT_JWT_SECRET", $"Dev-JWT-Secret-ChangeMe-in-prod-1")].

Example healthy_boots : match @app_config demo_codec healthy with Ok _ => True | _ => False end.
Proof. vm_compute. exact I. Qed.
Example templated_refused : match @app_config demo_codec templated with Err _ => True | _ => False end.
Proof. vm_compute. exact I. Qed.

Lemma healthy_secrets : secrets_ok healthy $"3f9a-signing".
Proof.
  pose proof (@jwt_from_env_Ok demo_codec healthy $"3f9a-signing"
    {| access_ttl_secs := 900; refresh_ttl_secs := 2592000 |}) as Hj. apply Hj. vm_compute. reflexivity.
Qed.

Lemma aliased_key_boots_witness :
  @parse_provider_key demo_codec $"3f9a-signing " = @parse_provider_key demo_codec $"3f9a-signing".
Proof. exact (proj2 (@aliased_key_boots demo_codec healthy $"3f9a-signing" healthy_secrets)). Defined.

Example published_kms_key_accepted :
  @kms_backend_from_env demo_codec demo_aes demo_transit (env_of [($"KMS_FILE_KEY", published_kms_key)])
  = inl (@FileKms demo_codec demo_aes $"secureprompt-dev-kms-key-32bytes").
Proof. apply published_kms_key_boots; reflexivity. Qed.

Definition file_key : str := $"0123456789abcdef0123456789abcdef".

Lemma configured_kms_is_honest_witness :
  let k := @kms_of (@FileKms demo_codec demo_aes file_key) in
  exists c, @kms_seal k 0 $"{}" = inl c /\ @kms_open k 5 c = inl $"{}".
Proof.
  intros k.
  destruct (@configured_kms_is_honest demo_codec demo_aes demo_transit) with (env := healthy)
    (b := @FileKms demo_codec demo_aes file_key) as [_ Hf].
  - discriminate.
  - discriminate.
  - vm_compute. reflexivity.
  - destruct (Hf eq_refl) as (raw & key & _ & _ & _ & Ho).
    eexists. split; [reflexivity|]. apply (Ho 0 5). reflexivity.
Defined.

(** ** Identifiers *)

Definition hex_value (c : ascii) : N := if (byte_val c <? 58)%N then byte_val c - 48 else byte_val c - 87.
Definition unhex (s : str) : N :=
  foldl (fun n c => (16 * n + hex_value c)%N) 0%N (List.filter (fun c => negb (bool_decide (c = "-"%char))) s).

(** Accepts the hyphenated form. *)
Definition parse_hyphenated (s : str) : option Uuid :=
  if bool_decide (show_uuid (unhex s) = s) && (unhex s <? 2 ^ 128)%N then Some (unhex s) else None.

Lemma hex_value_digit n : (n < 16)%N -> hex_value (hex_digit n) = n /\ hex_digit n <> "-"%char.
Proof.
  intros Hn. destruct n as [|[[[[]|[]|]|[[]|[]|]|]|[[[]|[]|]|[[]|[]|]|]|]]; first [lia|by split].
Qed.

Lemma unhex_digits k n m :
  foldl (fun n c => (16 * n + hex_value c)%N) m
    (List.filter (fun c => negb (bool_decide (c = "-"%char))) (hex_digits k n))
  = (16 ^ N.of_nat k * m + n mod 16 ^ N.of_nat k)%N.
Proof.
  revert n m. induction k as [|k IH]; intros n m; [cbn; rewrite N.mod_1_r; lia|].
  destruct (hex_value_digit (n mod 16)) as [Hv Hd]; [by apply N.mod_lt|].
  cbn [hex_digits]. rewrite List.filter_app, foldl_app, IH. cbn [List.filter].
  rewrite bool_decide_eq_false_2 by done. cbn [negb foldl]. rewrite Hv, Nat2N.inj_succ, N.pow_succ_r'.
  rewrite N.Div0.mod_mul_r. lia.
Qed.

Lemma filter_show u :
  List.filter (fun c => negb (bool_decide (c = "-"%char))) (show_uuid u)
  = List.filter (fun c => negb (bool_decide (c = "-"%char))) (hex_digits 32 u).
Proof.
  unfold show_uuid. pose proof (hex_digits_length 32 u) as Hl. revert Hl. generalize (hex_digits 32 u). intros h Hl.
  assert (Hh : h = take 8 h ++ take 4 (drop 8 h) ++ take 4 (drop 12 h) ++ take 4 (drop 16 h) ++ drop 20 h).
  { by do 32 (destruct h as [|? h]; [discriminate|]). }
  rewrite Hh at 6. by rewrite !List.filter_app.
Qed.

Lemma parse_show u : (u < 2 ^ 128)%N -> parse_hyphenated (show_uuid u) = Some u.
Proof.
  intros Hu. assert (He : unhex (show_uuid u) = u).
  { unfold unhex. rewrite filter_show, unhex_digits. change (16 ^ N.of_nat 32)%N with (2 ^ 128)%N.
    rewrite N.mod_small by done. lia. }
  unfold parse_hyphenated. rewrite He, bool_decide_eq_true_2 by done. by rewrite (proj2 (N.ltb_lt _ _) Hu).
Qed.

Lemma parse_bound s u : parse_hyphenated s = Some u -> (u < 2 ^ 128)%N.
Proof. unfold parse_hyphenated. case_bool_decide; [|done]. cbn. case_match eqn:Hl; [|done]. intros [= <-]. by apply N.ltb_lt. Qed.

(** ** The edge *)

Definition good_standing : LicenseState := state_new unlicensed.
Definition edge_call (path : str) (id : HeaderValue) (len : option N) : EdgeRequest := {|
  er_path := path; er_request_id := id; er_content_length := len; er_auth := Err (Unauthorized $"no token") |}.

(** A handler that answers with the id it reads. *)
Definition echo : Service (option RequestId) := fun r => at_once (Served (edge_request_id parse_hyphenated r)).
Definition demo_app : Service (option RequestId) :=
  build_router parse_hyphenated healthy (fun _ => true) good_standing 0 5 echo.

Definition upload : EdgeRequest := edge_call $"/v1/scan-file" (HText (show_uuid 77)) (Some 9000%N).

(** The same body: the scan half takes it, the other half does not; the
    dashboard asks for a session first. *)
Example edge_outcomes :
  ep_outcome (demo_app upload) = Served (Some 77%N)
  /\ ep_outcome (demo_app (edge_call $"/v1/completions" HAbsent (Some 9000%N))) = PayloadTooLarge
  /\ ep_outcome (demo_app (edge_call $"/v1/completions" (HText $"req_1") None)) = Served (Some 5%N)
  /\ ep_outcome (demo_app (edge_call $"/v1/users" HAbsent None)) = Failed (Unauthorized $"no token").
Proof. vm_compute. done. Qed.

Lemma one_request_id_witness :
  header_values REQUEST_ID_HEADER (ep_headers (demo_app upload)) = [show_uuid 77].
Proof.
  destruct (one_request_id parse_hyphenated healthy (fun _ => true) good_standing 0 5 echo upload) as (id & Hh & _ & Hi).
  - exact parse_show.
  - exact parse_bound.
  - reflexivity.
  - rewrite Hi in Hh. exact Hh.
Defined.

(** Without a session a handler of the dashboard is not asked. *)
Lemma handlers_are_shielded_witness :
  let r := edge_call $"/v1/users" HAbsent None in
  demo_app r = build_router parse_hyphenated healthy (fun _ => true) good_standing 0 5
                 (fun _ => at_once (Served (Some 1%N))) r.
Proof.
  intros r. apply handlers_are_shielded. intros q [_ _ _ Hs]. exfalso.
  destruct Hs as [ctx Hc]; [reflexivity|reflexivity|discriminate Hc].
Defined.
