(* ===== verification/Oidc.v ===== *)
(** * Signing in through an identity provider

    http/routes/dashboard/oidc.rs and the state keys of redis/mod.rs: the
    PKCE code flow, over the world of [Sessions] with the states in Redis and
    a trace of the calls to the provider.  What the oauth2 crate and the
    provider answer is the class [OidcEnv], call by call. *)

From S2P Require Import Prelude Rstr Json Types Providers Roles Limits AdminAudit ApiKeys AuthRuns EdgeSpec.
From S2P Require Import Sessions Login TwoFactor SessionsSpec TwoFactorSpec LoginSpec AdminTx Startup.

Record OidcDiscovery : Type := {
  od_authorization_endpoint : str;
  od_token_endpoint : str;
  od_userinfo_endpoint : option str;
}.

Record OidcUserInfo : Type := { ui_sub : str; ui_email : option str }.

(** [BasicClient] with both endpoints and the redirect set. *)
Record OauthClient : Type := {
  oc_client_id : str;
  oc_client_secret : str;
  oc_auth_uri : str;
  oc_token_uri : str;
  oc_redirect_uri : str;
}.

(** What is sent to the identity provider. *)
Inductive OidcCall : Type :=
  | FetchDiscovery (url : str)
  | ExchangeCode (client : OauthClient) (code verifier : str)
  | FetchUserInfo (url access_token : str).

(** The provider at the [n]-th call, with the error of a failed fetch; the
    random values drawn there; and [oauth2]'s own checks and rendering. *)
Class OidcEnv := {
  discovery_reply : nat -> OidcDiscovery + str;
  exchange_reply : nat -> str + str;
  userinfo_reply : nat -> OidcUserInfo + str;
  fresh_pkce : nat -> str * str;                 (* challenge, verifier *)
  fresh_csrf : nat -> str;
  bad_url : str -> option str;
  oidc_http_client : nat -> option str;
  authorization_url : OauthClient -> list str -> str -> str -> str;
}.

(** The sessions, and the states: verifiers with their times of expiry. *)
Record OidcTables : Type := { ot_sess : World; ot_states : gmap str (str * Z) }.

Abbreviation Oidc := (AdmM OidcTables OidcCall).

(** A step of the sessions: what it changed stays changed when it fails. *)
Definition on_sess {A} (x : Sess A) : Oidc A := fun w =>
  let '(r, s) := x (ot_sess (aw_state w)) in
  (r, set_state {| ot_sess := s; ot_states := ot_states (aw_state w) |} w).

Definition set_states (m : gmap str (str * Z)) : Oidc unit := fun w =>
  (Ok tt, set_state {| ot_sess := ot_sess (aw_state w); ot_states := m |} w).
Definition get_states : Oidc (gmap str (str * Z)) := fun w => (Ok (ot_states (aw_state w)), w).

Definition ask_provider {A} (c : OidcCall) (f : nat -> A) : Oidc A := outbound (fun n => (f n, [c])).

(** [Err] with a message as [Internal]. *)
Definition or_internal {A} (what : str) (r : A + str) : result A :=
  match r with inl a => Ok a | inr e => Err (Internal (what ++ e)) end.

Definition OIDC_STATE_TTL : Z := 600.
Definition oidc_state_key (state_id : str) : str := $"oidc_state:" ++ state_id.

Inductive CallbackReply : Type :=
  | SignedIn (answer : TokenOr2fa)
  | InvalidState                      (* 400 invalid_state *)
  | UnknownUser.                      (* 401 invalid_credentials *)

Record CallbackQuery : Type := { cq_code : str; cq_state : str }.

(** Client id, client secret, issuer, redirect. *)
Definition read_oidc_env (env : Env) : result (str * str * str * str) :=
  let required name := ok_or (env name) (Internal (name ++ $" not set")) in
  obind (required $"SECUREPROMPT_OIDC_CLIENT_ID") (fun client_id =>
  obind (required $"SECUREPROMPT_OIDC_CLIENT_SECRET") (fun client_secret =>
  obind (required $"SECUREPROMPT_OIDC_ISSUER_URL") (fun issuer_url =>
  obind (required $"SECUREPROMPT_OIDC_REDIRECT_URI") (fun redirect_uri =>
  Ok (client_id, client_secret, issuer_url, redirect_uri))))).

(** ** redis/mod.rs *)

Definition store_oidc_state (m : Moment) (state_id verifier : str) (ttl : Z) : Oidc unit :=
  on_sess redis_io;;
  on_sess (valid_ttl ttl);;
  states ← get_states;
  set_states (<[oidc_state_key state_id := (verifier, (mo_redis m + ttl)%Z)]> states).

(** GETDEL *)
Definition consume_oidc_state (m : Moment) (state_id : str) : Oidc (option str) :=
  on_sess redis_io;;
  states ← get_states;
  set_states (delete (oidc_state_key state_id) states);;
  mret ('(v, expires) ← states !! oidc_state_key state_id;
        if (mo_redis m <? expires)%Z then Some v else None).

Section handlers.
Context `{AuthEnv} `{OidcEnv} (cfg : JwtConfig).

(** ** oidc.rs *)

Definition discover_oidc (issuer_url : str) : Oidc OidcDiscovery :=
  let url := trim_end_byte "/"%char issuer_url ++ $"/.well-known/openid-configuration" in
  d ← ask_provider (FetchDiscovery url) discovery_reply;
  adm_result (or_internal $"OIDC discovery " d).

Definition url_ok (what url : str) : result str :=
  match bad_url url with
  | None => Ok url
  | Some e => Err (Internal ($"invalid " ++ what ++ $": " ++ e))
  end.

Definition build_oauth_client (client_id client_secret auth_endpoint token_endpoint redirect_uri : str)
    : result OauthClient :=
  obind (url_ok $"auth_url" auth_endpoint) (fun auth_url =>
  obind (url_ok $"token_url" token_endpoint) (fun token_url =>
  obind (url_ok $"redirect_uri" redirect_uri) (fun redirect =>
  Ok {| oc_client_id := client_id; oc_client_secret := client_secret; oc_auth_uri := auth_url;
        oc_token_uri := token_url; oc_redirect_uri := redirect |}))).

Definition oidc_authorize (env : Env) (m : Moment) : Oidc str :=
  '(client_id, client_secret, issuer_url, redirect_uri) ← adm_result (read_oidc_env env);
  discovery ← discover_oidc issuer_url;
  client ← adm_result (build_oauth_client client_id client_secret (od_authorization_endpoint discovery)
                          (od_token_endpoint discovery) redirect_uri);
  '(challenge, verifier) ← numbered fresh_pkce;
  csrf_token ← numbered fresh_csrf;
  let auth_url := authorization_url client [$"openid"; $"email"] challenge csrf_token in
  store_oidc_state m csrf_token verifier OIDC_STATE_TTL;;
  mret auth_url.

Definition fetch_oidc_email (discovery : OidcDiscovery) (access_token : str) : Oidc str :=
  url ← adm_result (ok_or (od_userinfo_endpoint discovery)
                       (Internal $"OIDC provider does not expose userinfo_endpoint"));
  info ← ask_provider (FetchUserInfo url access_token) userinfo_reply;
  info ← adm_result (or_internal $"userinfo " info);
  adm_result (ok_or (ui_email info) (Internal $"OIDC userinfo response does not include email claim")).

(** What an OIDC sign-in does once the user is known. *)
Definition issue_token_or_2fa_response (m : Moment) (d : Draw) (user : Uuid) (u : UserRow)
    (device : DeviceContext) : Sess TokenOr2fa :=
  role ← lift_r (role_from_db_str (us_role u));
  let decision := decide_2fa role (bool_decide (us_totp_confirmed_at u <> None)) in
  record_login user (us_workspace_id u) (us_email u) (us_role u) LmOidc decision;;
  match decision with
  | TfAccess =>
    body ← build_token_pair_body cfg m d user (us_workspace_id u) (us_role u) (us_email u) device;
    mret (AccessPair body)
  | TfChallenge =>
    t ← encode_purpose_token m (dr_jti d) user (us_workspace_id u) $"2fa_challenge" 300;
    mret (ChallengeToken t)
  | TfEnroll =>
    t ← encode_purpose_token m (dr_jti d) user (us_workspace_id u) $"2fa_enroll" 300;
    mret (EnrollToken t)
  end.

(** [UserRepository::find_by_email_with_role] *)
Definition find_by_email_with_role (email : str) : Sess (option (Uuid * UserRow)) :=
  db_io;; gets (find_by_email email).

(** The part of the callback after the state was consumed. *)
Definition finish_callback (m : Moment) (d : Draw) (device : DeviceContext) (code verifier : str)
    (client : result OauthClient) (discovery : OidcDiscovery) : Oidc CallbackReply :=
  client ← adm_result client;
  failed ← numbered oidc_http_client;
  adm_result (match failed with
               | Some e => Err (Internal ($"oauth2 http client build failed: " ++ e))
               | None => Ok tt
               end);;
  token ← ask_provider (ExchangeCode client code verifier) exchange_reply;
  access_token ← adm_result (match token with
                              | inl t => Ok t
                              | inr e => Err (Unauthorized ($"OIDC token exchange failed: " ++ e))
                              end);
  email ← fetch_oidc_email discovery access_token;
  row ← on_sess (find_by_email_with_role email);
  match row with
  | None => mret UnknownUser
  | Some (user, u) =>
    answer ← on_sess (issue_token_or_2fa_response m d user u device);
    mret (SignedIn answer)
  end.

Definition oidc_callback (env : Env) (m : Moment) (d : Draw) (device : DeviceContext) (params : CallbackQuery)
    : Oidc CallbackReply :=
  '(client_id, client_secret, issuer_url, redirect_uri) ← adm_result (read_oidc_env env);
  discovery ← discover_oidc issuer_url;
  verifier ← consume_oidc_state m (cq_state params);
  match verifier with
  | None => mret InvalidState
  | Some verifier_secret =>
    finish_callback m d device (cq_code params) verifier_secret
      (build_oauth_client client_id client_secret (od_authorization_endpoint discovery)
         (od_token_endpoint discovery) redirect_uri) discovery
  end.

(** ** Histories *)

Inductive OidcRequest : Type :=
  | Authorize (m : Moment)
  | Callback (m : Moment) (d : Draw) (device : DeviceContext) (params : CallbackQuery).

(** What the rest of the gateway does to the sessions in between is any
    change of them. *)
Definition oidc_step (env : Env) (r : OidcRequest) (between : World -> World)
    (w : AdminWorld OidcTables OidcCall) : AdminWorld OidcTables OidcCall :=
  let w := set_state {| ot_sess := between (ot_sess (aw_state w)); ot_states := ot_states (aw_state w) |} w in
  match r with
  | Authorize m => (oidc_authorize env m w).2
  | Callback m d device params => (oidc_callback env m d device params w).2
  end.

Definition oidc_run (env : Env) (rs : list (OidcRequest * (World -> World)))
    (w : AdminWorld OidcTables OidcCall) : AdminWorld OidcTables OidcCall :=
  foldl (fun w r => oidc_step env r.1 r.2 w) w rs.
End handlers.

(** ** What signing in through an identity provider promises *)

Section spec.
Context `{AuthEnv} `{OidcEnv} (cfg : JwtConfig).

#[local] Abbreviation OWorld := (AdminWorld OidcTables OidcCall).

(** ** Verifiers *)

(** The verifiers sent to the token endpoint, and those waiting in Redis. *)
Definition exchanged (w : OWorld) : list str :=
  omap (fun c => match c with ExchangeCode _ _ v => Some v | _ => None end) (aw_sent w).
Definition waiting (w : OWorld) : list str := (map_to_list (ot_states (aw_state w))).*2.*1.

(** Every verifier was drawn, and is in one place: in [extra], sent, or
    waiting. *)
Definition single (extra : list str) (w : OWorld) : Prop :=
  NoDup (extra ++ exchanged w ++ waiting w)
  /\ forall v, v ∈ extra ++ exchanged w ++ waiting w -> exists n, n < aw_calls w /\ v = (fresh_pkce n).2.

Lemma single_sub extra extra' w w' :
  extra' ++ exchanged w' ++ waiting w' ⊆+ extra ++ exchanged w ++ waiting w -> aw_calls w <= aw_calls w' ->
  single extra w -> single extra' w'.
Proof using Type.
  intros Hs Hc [Hn Hd]. split.
  - apply submseteq_Permutation in Hs as [k Hk]. rewrite Hk in Hn. by apply NoDup_app in Hn as [Hn _].
  - intros v Hv. destruct (Hd v) as (n & Hl & He); [by eapply elem_of_submseteq|]. exists n. split; [lia|done].
Qed.

#[local] Instance single_quiet extra : Quiet (single extra).
Proof. intros w. apply single_sub; [done|cbn; lia]. Qed.

Lemma single_drop v w : single [v] w -> single [] w.
Proof using Type. apply single_sub; [|done]. cbn. by apply submseteq_cons. Qed.

Lemma keeps_sess {A} (x : Sess A) extra : keeps (single extra) (on_sess x).
Proof using Type. intros w Hw. unfold on_sess. by destruct (x _) as [[] s]. Qed.

(** A call that is not an exchange. *)
Lemma keeps_ask {A} c (f : nat -> A) extra :
  match c with ExchangeCode _ _ _ => False | _ => True end -> keeps (single extra) (ask_provider c f).
Proof using Type.
  intros Hc w. apply single_sub; [|cbn; lia]. unfold exchanged, sent. cbn. rewrite omap_app.
  destruct c; cbn; by rewrite ?app_nil_r.
Qed.

Lemma exchange_runs {A} client code v (f : nat -> A) :
  runs (single [v]) (ask_provider (ExchangeCode client code v) f) (fun _ => single []) (single []).
Proof using Type.
  intros w. apply single_sub; [|cbn; lia]. unfold exchanged, sent. cbn. rewrite omap_app. cbn.
  rewrite <- (assoc_L (++)). cbn. by rewrite Permutation_middle.
Qed.

Lemma waiting_delete (k : str) (m : gmap str (str * Z)) :
  (map_to_list m).*2.*1 ≡ₚ (match m !! k with Some (v, _) => [v] | None => [] end)
                            ++ (map_to_list (delete k m)).*2.*1.
Proof using Type.
  destruct (m !! k) as [[v x]|] eqn:Hk; [by rewrite <- (map_to_list_delete _ _ _ Hk)|by rewrite delete_id].
Qed.

Lemma store_runs m state_id v ttl :
  runs (single [v]) (store_oidc_state m state_id v ttl) (fun _ => single []) (single []).
Proof using Type.
  assert (Hs : forall (x : Sess unit), runs (single [v]) (on_sess x) (fun _ => single [v]) (single [])).
  { intros x. eapply runs_weaken; [apply keeps_sess|done|done|]. intros w. apply single_drop. }
  eapply runs_bind; [apply Hs|]. intros u1. eapply runs_bind; [apply Hs|]. intros u2.
  intros w. cbn. apply single_sub; [|done]. unfold waiting. cbn.
  rewrite <- (insert_delete_eq (ot_states _)), map_to_list_insert by apply lookup_delete_eq. cbn.
  rewrite <- Permutation_middle. apply submseteq_skip, submseteq_skips_l.
  rewrite (waiting_delete (oidc_state_key state_id) (ot_states (aw_state w))).
  by apply submseteq_inserts_l.
Qed.

Lemma consume_runs m state_id :
  runs (single []) (consume_oidc_state m state_id)
    (fun o => single (match o with Some v => [v] | None => [] end)) (single []).
Proof using Type.
  eapply runs_bind; [apply keeps_sess|]. intros u w. cbn. apply single_sub; [|done]. unfold waiting. cbn.
  rewrite (waiting_delete (oidc_state_key state_id) (ot_states (aw_state w))).
  destruct (ot_states (aw_state w) !! _) as [[v x]|]; cbn; [|done]. destruct (_ <? x)%Z; cbn.
  - by rewrite Permutation_middle.
  - by apply submseteq_skips_l, submseteq_cons.
Qed.

Lemma discover_keeps url extra : keeps (single extra) (discover_oidc url).
Proof using Type. apply keeps_bind; [by apply keeps_ask|]. intros d. apply keeps_result. Qed.

Lemma email_keeps d t extra : keeps (single extra) (fetch_oidc_email d t).
Proof using Type.
  apply keeps_bind; [apply keeps_result|]. intros url. apply keeps_bind; [by apply keeps_ask|]. intros i.
  apply keeps_bind; [apply keeps_result|]. intros i'. apply keeps_result.
Qed.

Lemma lose {A} (x : Oidc A) v : keeps (single [v]) x -> runs (single [v]) x (fun _ => single [v]) (single []).
Proof using Type. intros Hx. eapply runs_weaken; [exact Hx|done|done|]. intros w. apply single_drop. Qed.

Lemma finish_runs m d device code v client discovery :
  runs (single [v]) (finish_callback cfg m d device code v client discovery) (fun _ => single []) (single []).
Proof using Type.
  unfold finish_callback. eapply runs_bind; [apply lose, keeps_result|]. intros c.
  eapply runs_bind; [apply lose, keeps_numbered, _|]. intros failed.
  eapply runs_bind; [apply lose, keeps_result|]. intros u. eapply runs_bind; [apply exchange_runs|]. intros t.
  apply keeps_bind; [apply keeps_result|]. intros token. apply keeps_bind; [apply email_keeps|]. intros email.
  apply keeps_bind; [apply keeps_sess|]. intros [[user row]|]; [|apply keeps_ret].
  apply keeps_bind; [apply keeps_sess|]. intros answer. apply keeps_ret.
Qed.

Lemma callback_keeps env m d device params : keeps (single []) (oidc_callback cfg env m d device params).
Proof using Type.
  unfold oidc_callback. apply keeps_bind; [apply keeps_result|]. intros [[[cid secret] issuer] redirect].
  apply keeps_bind; [apply discover_keeps|]. intros disc. eapply runs_bind; [apply consume_runs|].
  intros [v|]; [apply finish_runs|apply keeps_ret].
Qed.

Section fresh.
Context (pkce_fresh : forall i j, (fresh_pkce i).2 = (fresh_pkce j).2 -> i = j).

Lemma draw_runs : runs (single []) (numbered fresh_pkce) (fun p => single [p.2]) (single []).
Proof using All.
  intros w [Hn Hd]. cbn. split.
  - cbn. apply NoDup_cons. split; [|done]. intros (n & Hl & He)%Hd. apply pkce_fresh in He. lia.
  - intros v [->|Hv]%elem_of_cons; [exists (aw_calls w); split; [cbn; lia|done]|].
    destruct (Hd v Hv) as (n & Hl & He). exists n. split; [cbn; lia|done].
Qed.

Lemma authorize_keeps env m : keeps (single []) (oidc_authorize env m).
Proof using All.
  unfold oidc_authorize. apply keeps_bind; [apply keeps_result|]. intros [[[cid secret] issuer] redirect].
  apply keeps_bind; [apply discover_keeps|]. intros disc. apply keeps_bind; [apply keeps_result|]. intros client.
  eapply runs_bind; [apply draw_runs|]. intros [challenge v]. eapply runs_bind; [apply lose, keeps_numbered, _|].
  intros csrf. eapply runs_bind; [apply store_runs|]. intros u. apply keeps_ret.
Qed.

(** Whatever sign-ins are begun and finished, in any order and whatever
    fails: the gateway exchanges a code only with a verifier it drew itself,
    and with each at most once.  A callback that is replayed finds nothing to
    exchange. *)
Theorem verifiers_are_spent_once env rs w :
  aw_sent w = [] -> ot_states (aw_state w) = ∅ ->
  NoDup (exchanged (oidc_run cfg env rs w))
  /\ forall v, v ∈ exchanged (oidc_run cfg env rs w) -> exists n, v = (fresh_pkce n).2.
Proof using All.
  intros Hs Ht. assert (Hw : single [] w).
  { unfold single, exchanged, waiting. rewrite Hs, Ht, map_to_list_empty.
    split; [constructor|]. intros v Hv. by apply not_elem_of_nil in Hv. }
  assert (Hr : single [] (oidc_run cfg env rs w)).
  { clear Hs Ht. revert w Hw. induction rs as [|[r between] rs IH]; intros w Hw; [done|]. apply IH.
    unfold oidc_step. cbn [fst snd]. set (w1 := set_state _ w). assert (Hw1 : single [] w1) by done.
    destruct r as [m|m d device params].
    - pose proof (authorize_keeps env m w1 Hw1) as Hk.
      destruct (oidc_authorize env m w1) as [[] ?]; exact Hk.
    - pose proof (callback_keeps env m d device params w1 Hw1) as Hk.
      destruct (oidc_callback cfg env m d device params w1) as [[] ?]; exact Hk. }
  destruct Hr as [Hn Hd]. cbn [app] in Hn, Hd. apply NoDup_app in Hn as [Hn _]. split; [done|].
  intros v Hv. destruct (Hd v) as (n & _ & He); [apply elem_of_app; by left|]. by exists n.
Qed.
End fresh.

(** ** Signing in *)

Lemma adm_bind_ok {A B} (x : Oidc A) (k : A -> Oidc B) w b w' :
  (x ≫= k) w = (Ok b, w') -> exists a w1, x w = (Ok a, w1) /\ k a w1 = (Ok b, w').
Proof using Type. unfold mbind, AdmM_bind. destruct (x w) as [[a|e|] w1]; [by exists a, w1|done..]. Qed.

Lemma sess_ok {A} (x : Sess A) w a w' : on_sess x w = (Ok a, w') ->
  exists s, x (ot_sess (aw_state w)) = (Ok a, s)
            /\ w' = set_state {| ot_sess := s; ot_states := ot_states (aw_state w) |} w.
Proof using Type. unfold on_sess. destruct (x _) as [r s]. intros [= -> <-]. by exists s. Qed.

Lemma issue_is_sign_in : issue_token_or_2fa_response cfg = sign_in cfg LmOidc.
Proof using Type. reflexivity. Qed.

Lemma outcome_from user u r w1 w w' : data4 w1 = data4 w -> sign_in_outcome user u r w1 w' -> sign_in_outcome user u r w w'.
Proof using Type. unfold sign_in_outcome. by intros [= <- _ <- <-]. Qed.

Lemma adm_result_ok {A} (r : result A) (w : OWorld) a w' : adm_result r w = (Ok a, w') -> r = Ok a /\ w' = w.
Proof using Type. unfold adm_result. by intros [= -> ->]. Qed.

Lemma ask_ok {A} c (f : nat -> A) w a w' : ask_provider c f w = (Ok a, w') ->
  a = f (aw_calls w) /\ w' = sent [c] (bump w).
Proof using Type. unfold ask_provider, outbound. by intros [= <- <-]. Qed.

Lemma redis_io_ok w u w' : redis_io w = (Ok u, w') -> data4 w' = data4 w.
Proof using Type. unfold redis_io. destruct (w_redis_faults w 0); [done|]. by intros [= _ <-]. Qed.

Lemma finish_ok m d device code verifier client discovery w a w' :
  finish_callback cfg m d device code verifier client discovery w = (Ok (SignedIn a), w') ->
  exists client n access_token k info email user u,
    ot_states (aw_state w') = ot_states (aw_state w)
    /\ ExchangeCode client code verifier ∈ aw_sent w'
    /\ exchange_reply n = inl access_token /\ userinfo_reply k = inl info /\ ui_email info = Some email
    /\ w_users (ot_sess (aw_state w)) !! user = Some u /\ us_email u = email
    /\ sign_in_outcome user u a (ot_sess (aw_state w)) (ot_sess (aw_state w')).
Proof using Type.
  unfold finish_callback. intros Hx.
  apply adm_bind_ok in Hx as (c & w1 & [_ ->]%adm_result_ok & Hx).
  apply adm_bind_ok in Hx as (failed & w2 & Hn & Hx). injection Hn as _ <-.
  apply adm_bind_ok in Hx as (u1 & w3 & [_ ->]%adm_result_ok & Hx).
  apply adm_bind_ok in Hx as (t & w4 & [-> ->]%ask_ok & Hx).
  apply adm_bind_ok in Hx as (tok & w5 & [Htok ->]%adm_result_ok & Hx).
  destruct (exchange_reply _) as [tok'|] eqn:Hex; [|done]. injection Htok as ->.
  apply adm_bind_ok in Hx as (email & w6 & He & Hx). unfold fetch_oidc_email in He.
  apply adm_bind_ok in He as (url & w7 & [_ ->]%adm_result_ok & He).
  apply adm_bind_ok in He as (i & w8 & [-> ->]%ask_ok & He).
  apply adm_bind_ok in He as (info & w9 & [Hi ->]%adm_result_ok & He).
  apply adm_result_ok in He as [Hem%ok_or_Ok ->].
  destruct (userinfo_reply _) as [info'|] eqn:Hui; [|done]. injection Hi as ->.
  apply adm_bind_ok in Hx as (row & w10 & (s & Hs & ->)%sess_ok & Hx).
  unfold find_by_email_with_role in Hs. apply bind_ok in Hs as (u2 & s1 & Hdb%db_io_ok & Hs). injection Hs as Hs <-.
  destruct row as [[user u]|]; [|done]. apply find_by_email_ok in Hs as [Hu Hue].
  apply adm_bind_ok in Hx as (answer & w11 & (s2 & Hi & ->)%sess_ok & Hx). injection Hx as <- <-.
  rewrite issue_is_sign_in in Hi. apply sign_in_run in Hi. cbn in *.
  exists c, (Datatypes.S (aw_calls w)), tok, (Datatypes.S (Datatypes.S (aw_calls w))), info, email, user, u.
  split_and!; try done.
  - rewrite <- !(assoc_L (++)). apply elem_of_app. right. apply elem_of_app. left. by left.
  - by injection Hdb as <- _ _ _.
  - by eapply outcome_from.
Qed.

(** C25: A sign-in through the identity provider is exact: the callback's state
    was stored and unexpired and is gone afterwards, the code was exchanged
    with the verifier of that state, and the provider reported the address of
    the user as it is stored.  From there on it does what a password login
    does: the login is in the administrative audit trail, a session goes only
    to an account without a confirmed second factor whose role demands none,
    every other account gets a token for its second factor and no session. *)
Theorem oidc_login_exact env m d device params w a w' :
  oidc_callback cfg env m d device params w = (Ok (SignedIn a), w') ->
  let key := oidc_state_key (cq_state params) in
  let before := ot_sess (aw_state w) in
  exists verifier expires client n access_token k info email user u,
    ot_states (aw_state w) !! key = Some (verifier, expires) /\ (mo_redis m < expires)%Z
    /\ ot_states (aw_state w') = delete key (ot_states (aw_state w))
    /\ ExchangeCode client (cq_code params) verifier ∈ aw_sent w'
    /\ exchange_reply n = inl access_token /\ userinfo_reply k = inl info /\ ui_email info = Some email
    /\ w_users before !! user = Some u /\ us_email u = email
    /\ sign_in_outcome user u a before (ot_sess (aw_state w')).
Proof using Type.
  unfold oidc_callback. intros Hx.
  apply adm_bind_ok in Hx as ([[[cid secret] issuer] redirect] & w1 & [_ ->]%adm_result_ok & Hx).
  apply adm_bind_ok in Hx as (disc & w2 & Hd & Hx). unfold discover_oidc in Hd.
  apply adm_bind_ok in Hd as (dr & w3 & [_ ->]%ask_ok & Hd). apply adm_result_ok in Hd as [_ ->].
  apply adm_bind_ok in Hx as (v & w4 & Hc & Hx). unfold consume_oidc_state in Hc.
  apply adm_bind_ok in Hc as (u1 & w5 & (s1 & Hr%redis_io_ok & ->)%sess_ok & Hc).
  apply adm_bind_ok in Hc as (states & w6 & Hg & Hc). injection Hg as <- <-.
  apply adm_bind_ok in Hc as (u2 & w7 & Hset & Hc). injection Hset as _ <-. injection Hc as Hv <-.
  cbn in Hv, Hr. destruct (ot_states (aw_state w) !! _) as [[v' x]|] eqn:Hk; [|by subst v].
  cbn in Hv. destruct (mo_redis m <? x)%Z eqn:Hlt; [|by subst v]. subst v. apply Z.ltb_lt in Hlt.
  apply finish_ok in Hx as (client & n & tok & k & info & email & user & u & F1 & F2 & F3 & F4 & F5 & F6 & F7 & F8).
  cbn in F1, F6, F8. cbn zeta. exists v', x, client, n, tok, k, info, email, user, u.
  split_and!; try done.
  - injection Hr as Eu _ _ _. by rewrite <- Eu.
  - by eapply outcome_from.
Qed.
End spec.

(** ** Sign-ins through an identity provider on concrete worlds *)

(** A provider that vouches for one address. *)
Definition provider_of (email : str) : OidcEnv := {|
  discovery_reply _ := inl {| od_authorization_endpoint := $"https://idp/auth"; od_token_endpoint := $"https://idp/token";
                              od_userinfo_endpoint := Some $"https://idp/me" |};
  exchange_reply _ := inl $"at"; userinfo_reply _ := inl {| ui_sub := $"s"; ui_email := Some email |};
  fresh_pkce n := ($"challenge", replicate n "v"%char); fresh_csrf _ := $"csrf"; bad_url _ := None;
  oidc_http_client _ := None; authorization_url _ _ _ state := $"https://idp/auth?state=" ++ state |}.

Definition oidc_env : Env := env_of
  [($"SECUREPROMPT_OIDC_CLIENT_ID", $"gw"); ($"SECUREPROMPT_OIDC_CLIENT_SECRET", $"s");
   ($"SECUREPROMPT_OIDC_ISSUER_URL", $"https://idp/"); ($"SECUREPROMPT_OIDC_REDIRECT_URI", $"https://gw/cb")].

Definition oidc_start (u : UserRow) : AdminWorld OidcTables OidcCall := {|
  aw_state := {| ot_sess := world0 u []; ot_states := ∅ |}; aw_calls := 0; aw_sent := [] |}.

#[local] Abbreviation run_of email u rs := (@oidc_run signer (provider_of email) jcfg oidc_env rs (oidc_start u)).
#[local] Abbreviation return_to email m params :=
  (@oidc_callback signer (provider_of email) jcfg oidc_env m (draw $"a" $"r" 20 30) laptop params).

Definition back : CallbackQuery := {| cq_code := $"code"; cq_state := $"csrf" |}.
Definition came_back : OidcRequest := Callback (at_time 1000) (draw $"a" $"r" 20 30) laptop back.
Definition still (w : World) : World := w.

(** Begun, finished, and replayed twice. *)
Definition replayed : list (OidcRequest * (World -> World)) :=
  [(Authorize (at_time 990), still); (came_back, still); (came_back, still); (came_back, still)].

Lemma pkce_fresh_of email i j : (@fresh_pkce (provider_of email) i).2 = (@fresh_pkce (provider_of email) j).2 -> i = j.
Proof. cbn. intros He. apply (f_equal length) in He. by rewrite !length_replicate in He. Qed.

Example exchanged_once : length (exchanged (run_of $"dev@x" plain_dev replayed)) = 1.
Proof. vm_compute. reflexivity. Qed.

Lemma verifiers_are_spent_once_witness : NoDup (exchanged (run_of $"dev@x" plain_dev replayed)).
Proof.
  apply (@verifiers_are_spent_once signer (provider_of $"dev@x") jcfg (pkce_fresh_of _) oidc_env replayed
           (oidc_start plain_dev)); reflexivity.
Defined.

Definition begun (email : str) (u : UserRow) := run_of email u [(Authorize (at_time 990), still)].

Definition granted : CallbackReply := Eval vm_compute in
  match (return_to $"dev@x" (at_time 1000) back (begun $"dev@x" plain_dev)).1 with Ok a => a | _ => InvalidState end.
Definition token_of (a : CallbackReply) : TokenOr2fa :=
  match a with SignedIn t => t | _ => EnrollToken [] end.

Lemma granted_ok : return_to $"dev@x" (at_time 1000) back (begun $"dev@x" plain_dev)
  = (Ok (SignedIn (token_of granted)), (return_to $"dev@x" (at_time 1000) back (begun $"dev@x" plain_dev)).2).
Proof. apply answered. vm_compute. reflexivity. Qed.

Lemma oidc_login_exact_witness :
  exists u, @sign_in_outcome signer 7 u (token_of granted) (world0 plain_dev [])
    (ot_sess (aw_state (return_to $"dev@x" (at_time 1000) back (begun $"dev@x" plain_dev)).2))
    /\ us_email u = $"dev@x".
Proof.
  destruct (@oidc_login_exact signer (provider_of $"dev@x") jcfg oidc_env _ _ _ _ _ _ _ granted_ok)
    as (v & x & c & n & t & k & i & e & user & u & _ & _ & _ & _ & _ & Hi & He & Hu & Hue & Hs).
  injection Hi as <-. injection He as <-. assert (user = 7%N) as ->.
  { change (w_users (ot_sess (aw_state (begun $"dev@x" plain_dev)))) with ({[7%N := plain_dev]} : gmap Uuid UserRow) in Hu.
    apply lookup_singleton_Some in Hu as [<- _]. reflexivity. }
  exists u. split; [exact Hs|exact Hue].
Defined.

(** An account with a confirmed second factor gets no session here either. *)
Definition challenged : CallbackReply := Eval vm_compute in
  match (return_to $"dev@x" (at_time 1000) back (begun $"dev@x" (totp_dev 0))).1 with Ok a => a | _ => InvalidState end.

(** The address is compared as the provider spells it. *)
Example other_capitals :
  (return_to $"Dev@x" (at_time 1000) back (begun $"Dev@x" plain_dev)).1 = Ok UnknownUser.
Proof. vm_compute. reflexivity. Qed.
