(* ===== verification/Reports.v ===== *)
(** * What the reporting routes share

    db/scope.rs, and the shape of a read-only report: SQL groupings as maps of
    rows, [BTreeMap]s by their entries in key order, and handlers that fail
    with an [ApiError] over the failing calls of [Db].

    ClickHouse is not a snapshot: the [n]-th query of a handler reads the
    [n]-th warehouse. *)

From S2P Require Import Prelude Rstr Json Types Providers ProvidersSpec Roles Sessions WorkerDb ExportRoutes.

(** ** Keys with an order *)

Class KeyOrder (K : Type) : Type := {
  key_leb : K -> K -> bool;
  key_leb_trans : forall x y z, key_leb x y -> key_leb y z -> key_leb x z;
  key_leb_total : forall x y, key_leb x y \/ key_leb y x;
  key_leb_antisymm : forall x y, key_leb x y -> key_leb y x -> x = y;
}.

(** [a <= b] on strings. *)
Definition str_le (a b : str) : bool := negb (str_ltb b a).

#[export, refine] Instance str_order : KeyOrder str := {| key_leb := str_le |}.
Proof.
  - unfold str_le. intros x y z Hxy%Is_true_true%negb_true_iff Hyz%Is_true_true%negb_true_iff.
    apply Is_true_true, negb_true_iff. destruct (str_ltb z x) eqn:E; [|done].
    destruct (str_ltb_total y z) as [->|[H|H]]; [congruence| |congruence].
    rewrite (str_ltb_trans y z x H E) in Hxy. done.
  - unfold str_le. intros x y. destruct (str_ltb y x) eqn:E; [|by left]. right.
    destruct (str_ltb x y) eqn:E'; [|done]. pose proof (str_ltb_trans _ _ _ E E') as H.
    by rewrite str_ltb_irrefl in H.
  - unfold str_le. intros x y Hxy%Is_true_true%negb_true_iff Hyx%Is_true_true%negb_true_iff.
    destruct (str_ltb_total x y) as [H|[H|H]]; [done|congruence..].
Defined.

#[export, refine] Instance uuid_order : KeyOrder Uuid := {| key_leb := N.leb |}.
Proof. all: intros *; rewrite ?Is_true_true, ?N.leb_le; lia. Defined.

(** [Option]: [None] first; pairs: lexicographic. *)
Definition option_leb {K} `{KeyOrder K} (a b : option K) : bool :=
  match a, b with
  | None, _ => true
  | Some _, None => false
  | Some a, Some b => key_leb a b
  end.

#[export, refine] Instance option_order K `{KeyOrder K} : KeyOrder (option K) := {| key_leb := option_leb |}.
Proof.
  - intros [x|] [y|] [z|]; cbn; try done. apply key_leb_trans.
  - intros [x|] [y|]; cbn; auto. apply key_leb_total.
  - intros [x|] [y|]; cbn; try done. intros ??. f_equal. by apply key_leb_antisymm.
Defined.

Definition pair_leb {K L} `{EqDecision K, KeyOrder K, KeyOrder L} (a b : K * L) : bool :=
  if decide (a.1 = b.1) then key_leb a.2 b.2 else key_leb a.1 b.1.

#[export, refine] Instance pair_order K L `{EqDecision K, KeyOrder K, KeyOrder L} : KeyOrder (K * L) :=
  {| key_leb := pair_leb |}.
Proof.
  - intros [x x'] [y y'] [z z']. unfold pair_leb; cbn. repeat case_decide; subst; try done.
    + apply key_leb_trans.
    + intros Hxy Hyx. pose proof (key_leb_antisymm _ _ Hxy Hyx). congruence.
    + apply key_leb_trans.
  - intros [x x'] [y y']. unfold pair_leb; cbn. repeat case_decide; subst; try done; apply key_leb_total.
  - intros [x x'] [y y']. unfold pair_leb; cbn. repeat case_decide; subst; try done; intros Hxy Hyx;
      pose proof (key_leb_antisymm _ _ Hxy Hyx); congruence.
Defined.

(** ** Maps in key order, and groupings *)

Section tables.
Context {K R : Type} `{Countable K} `{!KeyOrder K}.

(** [BTreeMap::into_iter] *)
Definition btree_iter {V} (m : gmap K V) : list (K * V) :=
  sort_by (fun a b => key_leb a.1 b.1) (map_to_list m).

(** [GROUP BY key] *)
Definition group_by (key : R -> K) (rows : list R) : gmap K (list R) :=
  foldr (fun r m => <[key r := r :: default [] (m !! key r)]> m) ∅ rows.

(** [GROUP BY key ORDER BY key] with one row [f k group] per group. *)
Definition grouped {B} (key : R -> K) (f : K -> list R -> B) (rows : list R) : list B :=
  (fun '(k, rs) => f k rs) <$> btree_iter (group_by key rows).

(** The reference: the distinct keys in order, each with its own rows. *)
Definition tally {B} (key : R -> K) (f : K -> list R -> B) (rows : list R) : list B :=
  (fun k => f k (filter (fun r => key r = k) rows)) <$> sort_by key_leb (remove_dups (key <$> rows)).
End tables.

(** A 64-bit sum, and [uniqExact]. *)
Definition wrap64 (n : N) : N := (n mod 2 ^ 64)%N.
Definition uniq {A} `{EqDecision A} (l : list A) : N := wrap64 (N.of_nat (length (remove_dups l))).

(** An order of the rows of a query without [ORDER BY]. *)
Class SqlOrder : Type := {
  any_order : forall A, list A -> list A;
  any_order_perm : forall A (l : list A), any_order A l ≡ₚ l;
}.

(** ** Handlers over failing calls *)

(** [.map_err(f)] *)
Definition or_err {A} (f : str -> ApiError) (x : Job A) : Api A := fun d =>
  match x d with
  | (inl a, d') => (Ok a, d')
  | (inr e, d') => (Err (f e), d')
  end.

(** [.map_err(f)] on a call that already fails with an [ApiError]. *)
Definition map_err {A} (f : ApiError -> ApiError) (x : Api A) : Api A := fun d =>
  match x d with
  | (Err e, d') => (Err (f e), d')
  | rd => rd
  end.

(** ** [db/scope.rs] *)

Module Scope.
Definition SCOPE_NOT_ARMED : str :=
  $"app.current_workspace_id was not armed for this transaction; refusing to " ++
  $"run a row-level-security-protected query that would silently return no rows".

(** The setting the transaction has is read back. *)
Definition scope_is_armed (armed : option Uuid) (workspace_id : Uuid) : Api (option Uuid) :=
  or_err Database pg_io;;
  if decide (armed = Some workspace_id) then mret armed else of_result (Err (Internal SCOPE_NOT_ARMED)).

Definition arm_scope (workspace_id : Uuid) : Api (option Uuid) :=
  or_err Database pg_io;;
  armed ← api_total (set_scope workspace_id);
  scope_is_armed armed workspace_id.

Definition begin_scoped (workspace_id : Uuid) : Api (option Uuid) :=
  or_err Database pg_io;; arm_scope workspace_id.
End Scope.

(** ** Groupings agree with the reference *)

Lemma sort_by_fmap {A B} (le : A -> A -> bool) (le' : B -> B -> bool) (g : A -> B) l :
  (forall x y, le' (g x) (g y) = le x y) -> sort_by le' (g <$> l) = g <$> sort_by le l.
Proof.
  intros Hg. induction l as [|x l IH]; [done|]. cbn. fold (g <$> l). rewrite IH. clear IH.
  induction (sort_by le l) as [|y l' IH]; [done|]. cbn. rewrite Hg. destruct (le x y); [done|].
  cbn. by rewrite <- IH.
Qed.

Lemma sort_by_unique {K} `{KeyOrder K} (l l' : list K) : l ≡ₚ l' -> sort_by key_leb l = sort_by key_leb l'.
Proof.
  intros Hp. apply (StronglySorted_unique_strong (fun a b => Is_true (key_leb a b))).
  - intros x y _ _. apply key_leb_antisymm.
  - apply sort_by_sorted; [apply key_leb_trans|apply key_leb_total].
  - apply sort_by_sorted; [apply key_leb_trans|apply key_leb_total].
  - by rewrite !sort_by_perm.
Qed.

Section agree.
Context {K R : Type} `{Countable K} `{!KeyOrder K}.
Implicit Types (key : R -> K) (rows : list R).

Lemma group_by_default key rows k : default [] (group_by key rows !! k) = filter (fun r => key r = k) rows.
Proof.
  induction rows as [|r rows IH]; [cbn; by rewrite lookup_empty|]. cbn [group_by foldr]. fold (group_by key rows).
  rewrite filter_cons. destruct (decide (key r = k)) as [<-|Hne].
  - by rewrite lookup_insert_eq, IH.
  - by rewrite lookup_insert_ne, IH.
Qed.

Lemma group_by_dom key rows k : is_Some (group_by key rows !! k) <-> k ∈ key <$> rows.
Proof.
  induction rows as [|r rows IH]; [cbn; rewrite lookup_empty; by split; intros Hk; inversion Hk|].
  cbn [group_by foldr]. fold (group_by key rows). rewrite fmap_cons, elem_of_cons.
  destruct (decide (key r = k)) as [<-|Hne].
  - rewrite lookup_insert_eq. split; [by left|by eexists].
  - rewrite lookup_insert_ne by done. rewrite IH. split; [by right|]. intros [->|?]; done.
Qed.

Lemma group_by_lookup key rows k :
  group_by key rows !! k = if decide (k ∈ key <$> rows) then Some (filter (fun r => key r = k) rows) else None.
Proof.
  rewrite <- group_by_default. case_decide as Hk; rewrite <- group_by_dom in Hk.
  - by destruct Hk as [l ->].
  - by apply eq_None_not_Some.
Qed.

(** The entries of a map in key order are those of its sorted keys. *)
Lemma btree_iter_keys {V} (m : gmap K V) keys :
  NoDup keys -> (forall k, is_Some (m !! k) <-> k ∈ keys) ->
  (btree_iter m).*1 = sort_by key_leb keys.
Proof.
  intros Hn Hk. unfold btree_iter.
  rewrite <- (sort_by_fmap (fun a b => key_leb a.1 b.1) key_leb fst) by done. apply sort_by_unique.
  apply NoDup_Permutation; [apply NoDup_fst_map_to_list|done|]. intros k. rewrite <- Hk, list_elem_of_fmap. split.
  - intros ([k' v] & -> & Hv%elem_of_map_to_list). by exists v.
  - intros [v Hv]. exists (k, v). by rewrite elem_of_map_to_list.
Qed.

Lemma btree_iter_elem {V} (m : gmap K V) kv : kv ∈ btree_iter m <-> m !! kv.1 = Some kv.2.
Proof. unfold btree_iter. rewrite sort_by_perm. destruct kv. apply elem_of_map_to_list. Qed.

Lemma btree_iter_map {V B} (m : gmap K V) keys (f : K -> V -> B) (g : K -> B) :
  NoDup keys -> (forall k, is_Some (m !! k) <-> k ∈ keys) -> (forall k v, m !! k = Some v -> f k v = g k) ->
  ((fun '(k, v) => f k v) <$> btree_iter m) = (g <$> sort_by key_leb keys).
Proof.
  intros Hn Hk Hf. rewrite <- (btree_iter_keys m keys Hn Hk), <- list_fmap_compose.
  apply list_fmap_ext. intros i [k v] Hi. cbn. apply Hf.
  apply (btree_iter_elem m (k, v)). by eapply list_elem_of_lookup_2.
Qed.

Lemma grouped_tally {B} key (f : K -> list R -> B) rows : grouped key f rows = tally key f rows.
Proof.
  unfold grouped, tally. apply btree_iter_map; [apply NoDup_remove_dups|..].
  - intros k. by rewrite group_by_dom, elem_of_remove_dups.
  - intros k v. rewrite group_by_lookup. case_decide; [|done]. by intros [= <-].
Qed.
End agree.

(** ** Runs that succeed *)

Lemma api_bind_ok {A B} (x : Api A) (k : A -> Api B) d b d' :
  (x ≫= k) d = (Ok b, d') -> exists a d1, x d = (Ok a, d1) /\ k a d1 = (Ok b, d').
Proof. unfold mbind, Api_bind. destruct (x d) as [[a|e|] d1]; [by exists a, d1|done..]. Qed.

Lemma arm_scope_ok ws d s d' : Scope.arm_scope ws d = (Ok s, d') -> s = Some ws.
Proof.
  intros (u & d1 & _ & (armed & d2 & _ & (u' & d3 & _ & Hs)%api_bind_ok)%api_bind_ok)%api_bind_ok.
  case_decide; [|done]. injection Hs as <- _. done.
Qed.

Lemma map_err_ok {A} f (x : Api A) d a d' : map_err f x d = (Ok a, d') -> x d = (Ok a, d').
Proof. unfold map_err. by destruct (x d) as [[]]. Qed.

Definition is_ok {A} (r : result A) : bool := match r with Ok _ => true | _ => false end.

Lemma is_ok_run {A} (x : Api A) d : is_ok (x d).1 = true -> exists a d', x d = (Ok a, d').
Proof. destruct (x d) as [[a|e|] d']; [by exists a, d'|done..]. Qed.

(** ** Computations that do not tell two deployments apart *)

(** The same connection, the same calls failing, whatever the messages. *)
Record alike (d d' : Db) : Prop := {
  al_bypass : d_bypass d = d_bypass d';
  al_arming : forall n ws, d_arming d n ws = d_arming d' n ws;
  al_pg : forall n, is_Some (d_pg_faults d n) <-> is_Some (d_pg_faults d' n);
  al_ch : forall n, is_Some (d_ch_faults d n) <-> is_Some (d_ch_faults d' n);
  al_redis : forall n, is_Some (t_redis_faults (d_export d) n) <-> is_Some (t_redis_faults (d_export d') n);
}.

(** Run on two such deployments, [x] and [y] answer alike. *)
Definition same_answer {A} (x y : Api A) : Prop :=
  forall d d', alike d d' -> (x d).1 = (y d').1 /\ alike (x d).2 (y d').2.

Lemma same_bind {A B} (x y : Api A) (k l : A -> Api B) :
  same_answer x y -> (forall a, same_answer (k a) (l a)) -> same_answer (x ≫= k) (y ≫= l).
Proof.
  intros Hx Hk d d' Hd. unfold mbind, Api_bind. specialize (Hx d d' Hd).
  destruct (x d) as [r e], (y d') as [r' e']. cbn in Hx. destruct Hx as [<- He].
  destruct r; [by apply Hk|done..].
Qed.

Lemma same_result {A} (r : result A) : same_answer (of_result r) (of_result r).
Proof. by intros d d' Hd. Qed.
Lemma same_ret {A} (a : A) : same_answer (mret a) (mret a).
Proof. by intros d d' Hd. Qed.

Lemma same_pg_io f : (forall e e', f e = f e') -> same_answer (or_err f pg_io) (or_err f pg_io).
Proof.
  intros Hf d d' [Hb Ha Hp Hc]. unfold or_err, pg_io.
  assert (alike (with_env (d_arming d) (fun n => d_pg_faults d (S n)) (d_ch_faults d) d)
                (with_env (d_arming d') (fun n => d_pg_faults d' (S n)) (d_ch_faults d') d')) by (by split; cbn).
  specialize (Hp 0). destruct (d_pg_faults d 0), (d_pg_faults d' 0); cbn; split; try done.
  - f_equal. apply Hf.
  - by destruct Hp as [[] _].
  - by destruct Hp as [_ []].
Qed.

Lemma same_ch_io f : (forall e e', f e = f e') -> same_answer (or_err f ch_io) (or_err f ch_io).
Proof.
  intros Hf d d' [Hb Ha Hp Hc]. unfold or_err, ch_io.
  assert (alike (with_env (d_arming d) (d_pg_faults d) (fun n => d_ch_faults d (S n)) d)
                (with_env (d_arming d') (d_pg_faults d') (fun n => d_ch_faults d' (S n)) d')) by (by split; cbn).
  specialize (Hc 0). destruct (d_ch_faults d 0), (d_ch_faults d' 0); cbn; split; try done.
  - f_equal. apply Hf.
  - by destruct Hc as [[] _].
  - by destruct Hc as [_ []].
Qed.

Lemma same_set_scope ws : same_answer (api_total (set_scope ws)) (api_total (set_scope ws)).
Proof. intros d d' [Hb Ha Hp Hc Hr]. unfold api_total, set_scope. cbn. rewrite Ha. split; [done|]. by split; cbn. Qed.

Lemma same_map_err_bind {A B} f (x y : Api A) (k l : A -> Api B) :
  same_answer (map_err f x) (map_err f y) -> (forall a, same_answer (map_err f (k a)) (map_err f (l a))) ->
  same_answer (map_err f (x ≫= k)) (map_err f (y ≫= l)).
Proof.
  intros Hx Hk d d' Hd. unfold mbind, Api_bind, map_err. specialize (Hx d d' Hd). unfold map_err in Hx.
  destruct (x d) as [[a|e|] e1], (y d') as [[a'|e'|] e1']; cbn in *; destruct Hx as [Hr He]; try done.
  - injection Hr as <-. by apply Hk.
  - injection Hr as ->. done.
Qed.

Lemma same_map_err_pg f g : (forall e e', f (g e) = f (g e')) ->
  same_answer (map_err f (or_err g pg_io)) (map_err f (or_err g pg_io)).
Proof.
  intros Hf. pose proof (same_pg_io (fun e => f (g e)) Hf) as Hs. intros d d' Hd. specialize (Hs d d' Hd).
  unfold map_err, or_err in *. by destruct (pg_io d) as [[] ?], (pg_io d') as [[] ?].
Qed.

Lemma same_map_err_ok {A} f (x y : Api A) :
  (forall d, match x d with (Err _, _) => False | _ => True end) ->
  (forall d, match y d with (Err _, _) => False | _ => True end) ->
  same_answer x y -> same_answer (map_err f x) (map_err f y).
Proof.
  intros Hx Hy Hs d d' Hd. specialize (Hs d d' Hd). specialize (Hx d). specialize (Hy d'). unfold map_err.
  by destruct (x d) as [[] ?], (y d') as [[] ?].
Qed.

(** Arming the scope, once the errors of the database are given one text. *)
Lemma same_arm_scope f ws : (forall e e', f (Database e) = f (Database e')) ->
  same_answer (map_err f (Scope.arm_scope ws)) (map_err f (Scope.arm_scope ws)).
Proof.
  intros Hf. unfold Scope.arm_scope, Scope.scope_is_armed.
  apply same_map_err_bind; [by apply same_map_err_pg|]. intros _.
  apply same_map_err_bind; [by apply same_map_err_ok, same_set_scope|]. intros armed.
  apply same_map_err_bind; [by apply same_map_err_pg|]. intros _.
  case_decide; by intros d d' Hd.
Qed.
