(* ===== verification/LeakReport.v ===== *)
(** * The leak report

    http/routes/dashboard/leak_report.rs and leak_report_labels.rs:
    [GET /v1/leak-report], how much of what classes a workspace's requests
    carried, per model and per actor.

    The handler sends seven queries to ClickHouse and one to Postgres; each
    may fail, and between two of them rows may come and go.  [wh n] is the
    warehouse the [n]-th query reads. *)

From S2P Require Import Prelude Rstr Json Types Sidecar Analytics Providers ProvidersSpec Roles Sessions.
From S2P Require Import WorkerDb ExportRoutes Reports.

(** ** Texts of the document *)

Definition SCHEMA_VERSION : N := 2.
Definition MAX_WINDOW_DAYS : Z := 366.

Definition WINDOW_INTERPRETATION : str :=
  $"Both bounds are calendar dates in UTC and both are INCLUSIVE: rows are selected from " ++
  $"00:00:00 on `from` up to 23:59:59 on `to`. Note that detection_class_counts carries a " ++
  $"90-day TTL, so a window reaching further back than that reports only what has not yet " ++
  $"expired — the report cannot distinguish an expired day from a quiet one.".
Definition CONTENT_POLICY : str :=
  $"This report contains COUNTS ONLY. Every string in it comes from one of three bounded " ++
  $"sources, and none of them is a request body. `entity_class` values are identifiers from a " ++
  $"fixed vocabulary compiled into the gateway. `model` is either a name that is in this " ++
  $"workspace's model catalogue AS OF NOW or the literal `unregistered`, which is what a " ++
  $"request naming an uncatalogued model is reported as — a caller cannot choose the bytes that " ++
  $"appear here. That bound is applied TWICE, and the second one matters for reading this " ++
  $"document: the gateway bounds `model` when it WRITES a counts row, and this report bounds it " ++
  $"again when it RENDERS one, against the catalogue at the moment you asked. Two consequences, " ++
  $"both real. (1) Rows written before the write-path bound existed are still on disk for that " ++
  $"table's 90-day retention window and still carry whatever name was requested; they are " ++
  $"reported here under `unregistered`, but a reader querying `detection_class_counts` DIRECTLY " ++
  $"will see the stored value. (2) A model an administrator has since DELETED from the " ++
  $"catalogue is reported as `unregistered` even for a window in which it was registered. " ++
  $"`api_key_name` and `user_id` are the operator's own attribution metadata; `api_key_name` is " ++
  $"free text an administrator chose and may name a person. NO DETECTED VALUE — no name, " ++
  $"number, card or address taken from a prompt — is stored in the table this report reads or " ++
  $"emitted anywhere in this payload.".
Definition COVERAGE : str :=
  $"GATEWAY TRAFFIC ONLY. These figures cover requests through `/v1/chat/completions`, " ++
  $"`/v1/completions` and `/v1/embeddings` — the paths that write `request_events` and " ++
  $"`detection_class_counts`. They do NOT cover `/v1/redact`, `/v1/secure-mode/tokenize`, the " ++
  $"MCP server, or file scanning: those run the same detection pass and emit no analytics event " ++
  $"at all, so entities they found are counted nowhere in this report and their requests are " ++
  $"absent from `requests_in_window` too. This is a limit of what is recorded, not a claim that " ++
  $"those surfaces detected nothing. A workspace that uses them should read these numbers as a " ++
  $"floor.".
Definition COUNTING_RULE : str :=
  $"An `entities` figure counts CLASS-DETECTIONS, not placeholders: distinct (class, value) " ++
  $"pairs of that class. One span may carry MORE THAN ONE class — an `Authorization: Bearer " ++
  $"<token>` header genuinely is both a credential header and a JWT, and both detections are " ++
  $"kept, because discarding the inner one would delete a fact this report exists to record. " ++
  $"Such a span contributes one figure to EACH of its classes while the redacted prompt carries " ++
  $"a SINGLE placeholder for it, so the sum of `entities` across `by_class` can EXCEED the " ++
  $"number of placeholders, and does on every request containing a nested detection. " ++
  $"`entities_detected` is that same sum and inherits the same caveat. The placeholder count is " ++
  $"reported separately, as `placeholders`, and is not derivable from these figures — read that " ++
  $"section before treating any number here as one. The same VALUE repeated in one request " ++
  $"still counts once for its class; the redacted prompt reuses one placeholder token for it, " ++
  $"which then appears at each occurrence. A `requests` figure counts requests in which the " ++
  $"class appeared at least once, so summing `requests` across classes will exceed " ++
  $"`requests_with_detections` whenever a request contained more than one class.".
Definition PLACEHOLDERS_NOT_RECORDED : str :=
  $"NOT RECORDED. This report cannot tell you how many placeholders the redacted prompts in " ++
  $"this window carried, and reports null rather than a number it cannot support. A placeholder " ++
  $"is what the redaction step emits — one token per distinct (class, value) it actually " ++
  $"replaced — and that figure exists only while the request that produced it is being served. " ++
  $"`detection_class_counts`, the table every figure above is read from, stores one " ++
  $"(entity_class, entity_count) row per request and nothing else, so a request whose rows read " ++
  $"`BEARER_TOKEN 1, JWT 1` is indistinguishable from one that redacted two separate spans: the " ++
  $"same two rows describe one placeholder or two. The one other stored artifact that contains " ++
  $"placeholders, `request_events.redacted_prompt`, does not answer it either — it holds only " ++
  $"the LAST USER MESSAGE of the request, it is produced by a SECOND detection pass rather than " ++
  $"the one these counts came from, and it is NULL whenever ML coverage was lost — so counting " ++
  $"tokens in it would answer a different question and under-count silently. Reporting a " ++
  $"placeholder count therefore needs a column on `detection_class_counts` written from the " ++
  $"redaction the request actually applied. Until that migration exists this field stays null, " ++
  $"and no figure in this report may be read as a placeholder count.".

(** ** The document *)

Record Window : Type := { wn_from : Z; wn_to : Z; wn_interpretation : str }.

Record Totals : Type := {
  to_requests_in_window : N;
  to_requests_with_detections : N;
  to_entities_detected : N;
  to_distinct_classes : N;
}.

Record ClassCount : Type := { cl_entity_class : str; cl_entities : N; cl_requests : N }.

Record ModelBreakdown : Type := {
  mb_model : str;
  mb_entities : N;
  mb_requests : N;
  mb_by_class : list ClassCount;
}.

Record ActorBreakdown : Type := {
  ab_user_id : option Uuid;
  ab_api_key_name : option str;
  ab_entities : N;
  ab_requests : N;
  ab_by_class : list ClassCount;
}.

Record Placeholders : Type := { ph_count : option N; ph_status : str; ph_detail : str }.
Record AvailableDimension : Type := { ad_dimension : str; ad_source : str; ad_caveat : str }.
Record UnavailableDimension : Type := { ud_dimension : str; ud_reason : str }.
Record Attribution : Type := {
  at_available : list AvailableDimension;
  at_unavailable : list UnavailableDimension;
}.

Record LeakReportResponse : Type := {
  lr_schema_version : N;
  lr_workspace_id : Uuid;
  lr_generated_at : DateTime;
  lr_window : Window;
  lr_totals : Totals;
  lr_coverage : str;
  lr_counting_rule : str;
  lr_placeholders : Placeholders;
  lr_by_class : list ClassCount;
  lr_by_model : list ModelBreakdown;
  lr_by_actor : list ActorBreakdown;
  lr_attribution : Attribution;
  lr_labels : gmap str (gmap str str);
  lr_content_policy : str;
}.

(** What the report can and cannot attribute traffic to. *)
Definition attribution : Attribution := {|
  at_available := [
    {| ad_dimension := $"model";
       ad_source :=
         $"the `model` recorded on every counts row, matched against this workspace's `models` " ++
         $"catalogue when the report is rendered";
       ad_caveat :=
         $"The model the CALLER asked for, but only when that name is in this workspace's catalogue at " ++
         $"the moment the report is produced. A request naming an uncatalogued model is served anyway " ++
         $"(the gateway passes the name through to the provider) and is reported under the single " ++
         $"bucket `unregistered`, because the name is then caller-supplied free text and this report " ++
         $"must not render those bytes. Two things follow from the match happening at RENDER time: a " ++
         $"model deleted from the catalogue since the window drops into `unregistered` too, and a row " ++
         $"written before the gateway bounded the column at write time is reported safely here while " ++
         $"still holding the requested name on disk. A pilot that wants passthrough traffic broken " ++
         $"down by destination must catalogue the models first. Separately: when provider fallback " ++
         $"redirected a request, the model that actually served it can differ; the destination that " ++
         $"mattered for disclosure is the provider, and this report groups by the requested name." |};
    {| ad_dimension := $"user_id";
       ad_source :=
         $"api_keys.assigned_user_id";
       ad_caveat :=
         $"NULL for a workspace-scoped API key that was never assigned to a member. Those rows are " ++
         $"grouped under a null user rather than dropped or merged into another actor." |};
    {| ad_dimension := $"api_key_name";
       ad_source :=
         $"api_keys.name";
       ad_caveat :=
         $"Operator-chosen free text, not an identity. Two keys may share a name and a key may be " ++
         $"renamed, in which case traffic before and after the rename appears as two actors." |}];
  at_unavailable := [
    {| ud_dimension := $"department";
       ud_reason :=
         $"SecurePrompt has no department concept. There is no department column on `users` or " ++
         $"`api_keys`, no departments table, and no field on the analytics schema that carries one — " ++
         $"so any figure under this heading would be invented, and this report is read as evidence. " ++
         $"Closing it is a PRODUCT decision with a migration behind it: department could live as a " ++
         $"column on `users`, as a workspace-level mapping from API keys to cost centres, or as a sync " ++
         $"from an external directory, and those three answer different questions about contractors, " ++
         $"shared keys and reorganisations. Until one is chosen, group by `api_key_name` — pilots that " ++
         $"need departmental reporting today typically issue one key per department, and that grouping " ++
         $"IS supported." |};
    {| ud_dimension := $"provider";
       ud_reason :=
         $"`request_events` records the provider, but the counts table does not, and joining the two " ++
         $"would let a lost analytics row drop whole classes out of this report. Add it to migration " ++
         $"008's denormalised columns if a pilot needs per-provider figures." |}] |}.

(** ** [leak_report_labels.rs] *)

Definition LABELS : list (str * str * str) := [
  ($"other", $"Прочий класс (не распознан шлюзом)", $"Boshqa turkum (shlyuz tanimadi)");
  ($"ANTHROPIC_API_KEY", $"Ключ API Anthropic", $"Anthropic API kaliti");
  ($"API_TOKEN_GENERIC", $"Токен API", $"API tokeni");
  ($"AWS_ACCESS_KEY", $"Ключ доступа AWS", $"AWS kirish kaliti");
  ($"AZURE_STORAGE_CONNECTION_STRING", $"Строка подключения Azure Storage", $"Azure Storage ulanish satri");
  ($"AZURE_KEY", $"Ключ Azure", $"Azure kaliti");
  ($"BASIC_AUTH_HEADER", $"Заголовок Basic-авторизации", $"Basic avtorizatsiya sarlavhasi");
  ($"BEARER_TOKEN", $"Токен Bearer", $"Bearer tokeni");
  ($"GCP_KEY", $"Ключ Google Cloud", $"Google Cloud kaliti");
  ($"GCP_SERVICE_ACCOUNT_EMAIL", $"Служебный аккаунт Google Cloud", $"Google Cloud xizmat hisobi");
  ($"GITHUB_FINE_GRAINED_PAT", $"Токен GitHub (детальные права)", $"GitHub tokeni (batafsil huquqlar)");
  ($"GITHUB_OAUTH_TOKEN", $"Токен OAuth GitHub", $"GitHub OAuth tokeni");
  ($"GITHUB_PAT", $"Личный токен GitHub", $"GitHub shaxsiy tokeni");
  ($"GITHUB_REFRESH_TOKEN", $"Токен обновления GitHub", $"GitHub yangilash tokeni");
  ($"GOOGLE_API_KEY", $"Ключ API Google", $"Google API kaliti");
  ($"JWT", $"Веб-токен JWT", $"JWT veb-tokeni");
  ($"MONGODB_URI", $"Строка подключения MongoDB", $"MongoDB ulanish satri");
  ($"OAUTH_CLIENT_SECRET", $"Секрет клиента OAuth", $"OAuth mijoz maxfiy kaliti");
  ($"OPENAI_API_KEY", $"Ключ API OpenAI", $"OpenAI API kaliti");
  ($"OPENSSH_PRIVATE_KEY", $"Закрытый ключ OpenSSH", $"OpenSSH yopiq kaliti");
  ($"PASSWORD_ASSIGNMENT", $"Пароль в тексте", $"Matndagi parol");
  ($"POSTGRESQL_URI", $"Строка подключения PostgreSQL", $"PostgreSQL ulanish satri");
  ($"PRIVATE_KEY_PEM", $"Закрытый ключ (PEM)", $"Yopiq kalit (PEM)");
  ($"RSA_PRIVATE_KEY", $"Закрытый ключ RSA", $"RSA yopiq kaliti");
  ($"SLACK_APP_TOKEN", $"Токен приложения Slack", $"Slack ilova tokeni");
  ($"SLACK_BOT_TOKEN", $"Токен бота Slack", $"Slack bot tokeni");
  ($"SLACK_USER_TOKEN", $"Пользовательский токен Slack", $"Slack foydalanuvchi tokeni");
  ($"STRIPE_PUBLISHABLE_KEY", $"Публичный ключ Stripe", $"Stripe ochiq kaliti");
  ($"STRIPE_SECRET_KEY", $"Секретный ключ Stripe", $"Stripe maxfiy kaliti");
  ($"WEBHOOK_URL", $"URL веб-хука", $"Veb-huk manzili");
  ($"PERSON", $"Физическое лицо (ФИО)", $"Jismoniy shaxs (F.I.Sh.)");
  ($"USERNAME", $"Имя пользователя", $"Foydalanuvchi nomi");
  ($"EMAIL_ADDRESS", $"Адрес электронной почты", $"Elektron pochta manzili");
  ($"PHONE_NUMBER", $"Номер телефона", $"Telefon raqami");
  ($"ADDRESS", $"Адрес", $"Manzil");
  ($"POSTAL_CODE", $"Почтовый индекс", $"Pochta indeksi");
  ($"LOCATION", $"Местоположение", $"Joylashuv");
  ($"GPE", $"Географический объект", $"Geografik obyekt");
  ($"ORGANIZATION", $"Организация", $"Tashkilot");
  ($"IP_ADDRESS", $"IP-адрес", $"IP manzil");
  ($"DATE_TIME", $"Дата или время", $"Sana yoki vaqt");
  ($"DATE_OF_BIRTH", $"Дата рождения", $"Tug'ilgan sana");
  ($"BLOOD_TYPE", $"Группа крови", $"Qon guruhi");
  ($"PINFL", $"ПИНФЛ (персональный идентификационный номер)", $"JSHSHIR (jismoniy shaxsning shaxsiy identifikatsiya raqami)");
  ($"STIR", $"ИНН (идентификационный номер налогоплательщика)", $"STIR (soliq to'lovchining identifikatsiya raqami)");
  ($"PASSPORT_NUMBER", $"Номер паспорта", $"Pasport raqami");
  ($"PASSPORT_EXPIRATION_DATE", $"Срок действия паспорта", $"Pasport amal qilish muddati");
  ($"IDENTITY_CARD_NUMBER", $"Номер удостоверения личности", $"Shaxsni tasdiqlovchi hujjat raqami");
  ($"BIRTH_CERTIFICATE_NUMBER", $"Номер свидетельства о рождении", $"Tug'ilganlik guvohnomasi raqami");
  ($"DRIVERS_LICENSE_NUMBER", $"Номер водительского удостоверения", $"Haydovchilik guvohnomasi raqami");
  ($"US_DRIVER_LICENSE", $"Водительское удостоверение (США)", $"Haydovchilik guvohnomasi (AQSh)");
  ($"VISA_NUMBER", $"Номер визы", $"Viza raqami");
  ($"STUDENT_ID_NUMBER", $"Номер студенческого билета", $"Talaba bileti raqami");
  ($"SERIAL_NUMBER", $"Серийный номер", $"Seriya raqami");
  ($"REGISTRATION_NUMBER", $"Регистрационный номер", $"Ro'yxatga olish raqami");
  ($"SSN", $"Номер социального страхования", $"Ijtimoiy sug'urta raqami");
  ($"SOCIAL_SECURITY_NUMBER", $"Номер социального страхования", $"Ijtimoiy sug'urta raqami");
  ($"US_SSN", $"Номер социального страхования (США)", $"Ijtimoiy sug'urta raqami (AQSh)");
  ($"CNPJ", $"CNPJ (Бразилия)", $"CNPJ (Braziliya)");
  ($"CPF", $"CPF (Бразилия)", $"CPF (Braziliya)");
  ($"TAX_IDENTIFICATION_NUMBER", $"Идентификационный номер налогоплательщика", $"Soliq to'lovchi identifikatsiya raqami");
  ($"MFO", $"МФО (код банка)", $"MFO (bank kodi)");
  ($"UZCARD", $"Карта Uzcard", $"Uzcard kartasi");
  ($"HUMO", $"Карта Humo", $"Humo kartasi");
  ($"CREDIT_CARD", $"Номер банковской карты", $"Bank kartasi raqami");
  ($"CREDIT_CARD_NUMBER", $"Номер банковской карты", $"Bank kartasi raqami");
  ($"CREDIT_CARD_BRAND", $"Платёжная система карты", $"Karta to'lov tizimi");
  ($"CREDIT_CARD_EXPIRATION_DATE", $"Срок действия карты", $"Karta amal qilish muddati");
  ($"CVV", $"Код CVV/CVC", $"CVV/CVC kodi");
  ($"IBAN", $"Международный номер банковского счёта (IBAN)", $"Xalqaro bank hisob raqami (IBAN)");
  ($"IBAN_CODE", $"Международный номер банковского счёта (IBAN)", $"Xalqaro bank hisob raqami (IBAN)");
  ($"BANK_ACCOUNT_NUMBER", $"Номер банковского счёта", $"Bank hisob raqami");
  ($"CREDIT_AGREEMENT_ID", $"Номер кредитного договора", $"Kredit shartnomasi raqami");
  ($"LOAN_AMOUNT", $"Сумма кредита", $"Kredit summasi");
  ($"SALARY", $"Заработная плата", $"Ish haqi");
  ($"TRANSACTION_NUMBER", $"Номер транзакции", $"Tranzaksiya raqami");
  ($"MEDICAL_CONDITION", $"Диагноз или состояние", $"Tashxis yoki holat");
  ($"MEDICATION", $"Лекарственный препарат", $"Dori vositasi");
  ($"MEDICAL_LICENSE", $"Номер медицинской лицензии", $"Tibbiy litsenziya raqami");
  ($"INSURANCE_COMPANY", $"Страховая компания", $"Sug'urta kompaniyasi");
  ($"INSURANCE_NUMBER", $"Номер страхового полиса", $"Sug'urta polisi raqami");
  ($"HEALTH_INSURANCE_NUMBER", $"Номер медицинского страхования", $"Tibbiy sug'urta raqami");
  ($"NATIONAL_HEALTH_INSURANCE_NUMBER", $"Номер национального медицинского страхования", $"Milliy tibbiy sug'urta raqami");
  ($"FLIGHT_NUMBER", $"Номер рейса", $"Reys raqami");
  ($"RESERVATION_NUMBER", $"Номер бронирования", $"Bron raqami");
  ($"TRAIN_TICKET_NUMBER", $"Номер железнодорожного билета", $"Temir yo'l chiptasi raqami");
  ($"LICENSE_PLATE_NUMBER", $"Государственный номер автомобиля", $"Avtomobil davlat raqami");
  ($"VEHICLE_REGISTRATION_NUMBER", $"Регистрационный номер транспортного средства", $"Transport vositasi ro'yxat raqami")].

Definition lookup_labels (class : str) : option (str * str) :=
  (fun '(_, ru, uz) => (ru, uz)) <$> List.find (fun '(key, _, _) => bool_decide (key = class)) LABELS.

(** ** The window

    A [NaiveDate] is a day number; the last one has no successor. *)

Definition NaiveDate : Type := Z.
Definition NaiveDate_MAX : NaiveDate := 95026236%Z.
Definition DAY : Z := 86400.

Definition succ_opt (d : NaiveDate) : option NaiveDate := if (d <? NaiveDate_MAX)%Z then Some (d + 1)%Z else None.

(** The first second of [from] and the first second after [to].  The queries
    pass them through [toDateTime], a 32-bit count of seconds: the model is
    about windows within 1970 to 2106. *)
Definition bounds (from to : NaiveDate) : result (Z * Z) :=
  obind (ok_or (succ_opt to) (BadRequest $"invalid 'to' date")) (fun next =>
  Ok (from * DAY, next * DAY)%Z).

Definition validate_window (from to : NaiveDate) : result unit :=
  if (to <? from)%Z then Err (BadRequest $"invalid window: 'to' must be on or after 'from'")
  else
    let span := (to - from)%Z in
    ensure (span <=? MAX_WINDOW_DAYS)%Z
      (BadRequest ($"window too large: " ++ show_i32 span ++ $" days (max " ++ show_i32 MAX_WINDOW_DAYS ++ $")")).

(** ** Errors *)

Definition pg_err (e : str) : ApiError :=
  Internal ($"leak report could not be produced: this workspace's model catalogue " ++
    $"could not be read, so `by_model` cannot be bounded to registered " ++
    $"names. The store's own error message is in the gateway log, not in " ++
    $"this response. No partial report is returned.").

Definition ch_err (table : str) (e : str) : ApiError :=
  Internal ($"leak report could not be produced: reading " ++ table ++ $" failed. The " ++
    $"store's own error message is in the gateway log, not in this " ++
    $"response, because a database exception can quote the row that " ++
    $"provoked it. No partial report is returned, because an incomplete " ++
    $"leak report is indistinguishable from a clean one.").

Definition scope_err (e : ApiError) : ApiError :=
  match e with
  | Internal m => Internal m
  | _ => Internal ($"leak report could not be produced: this workspace's tenancy " ++
      $"scope could not be armed, so the model catalogue would have " ++
      $"been read under a row-level-security policy that admits " ++
      $"nothing. No partial report is returned.")
  end.

(** ** The stores *)

Record Warehouse : Type := {
  wh_counts : list DetectionClassCountRow;
  wh_events : list RequestEventRow;
}.

(** A row of [models]: its workspace and its name. *)
Abbreviation Catalogue := (list (Uuid * str)).

(** [SCOPE]: the workspace, and the window's first and first later second. *)
Definition in_scope (ws : Uuid) (from until : Z) (row_workspace : Uuid) (created_at : Z) : bool :=
  bool_decide (row_workspace = ws) && (from <=? created_at)%Z && (created_at <? until)%Z.

Section queries.
Context `{SqlOrder} (ws : Uuid) (from until : Z).

Definition scoped_counts (w : Warehouse) : list DetectionClassCountRow :=
  filter (fun r => in_scope ws from until (dc_workspace_id r) (dc_created_at r)) (wh_counts w).
Definition scoped_events (w : Warehouse) : list RequestEventRow :=
  filter (fun r => in_scope ws from until (Analytics.rr_workspace_id r) (Analytics.rr_created_at r)) (wh_events w).

(** [sum(entity_count)] and [uniqExact(request_id)] of a group. *)
Definition entities_of (rs : list DetectionClassCountRow) : N :=
  wrap64 (foldr N.add 0%N (dc_entity_count <$> rs)).
Definition requests_of (rs : list DetectionClassCountRow) : N := uniq (dc_request_id <$> rs).

(** entities, requests, classes *)
Definition TotalsRow : Type := N * N * N.
Definition totals_query (w : Warehouse) : TotalsRow :=
  let rs := scoped_counts w in (entities_of rs, requests_of rs, uniq (dc_entity_class <$> rs)).

Definition denominator_query (w : Warehouse) : N := uniq (Analytics.rr_request_id <$> scoped_events w).

Definition class_query (w : Warehouse) : list (str * (N * N)) :=
  grouped dc_entity_class (fun c rs => (c, (entities_of rs, requests_of rs))) (scoped_counts w).

(** Model, class, entities, requests. *)
Definition model_query (w : Warehouse) : list (str * str * (N * N)) :=
  grouped (fun r => (dc_model r, dc_entity_class r)) (fun k rs => (k, (entities_of rs, requests_of rs)))
    (scoped_counts w).

(** The classes of an actor come in order, the actors in the store's. *)
Definition actor_query (w : Warehouse) : list (option str * option Uuid * str * (N * N)) :=
  mjoin (any_order _ (grouped (fun r => (dc_api_key_name r, dc_user_id r)) (fun actor rs =>
    grouped dc_entity_class (fun c rs' => (actor, c, (entities_of rs', requests_of rs'))) rs)
    (scoped_counts w))).

Definition model_totals_query (w : Warehouse) : list (str * (N * N)) :=
  grouped dc_model (fun m rs => (m, (entities_of rs, requests_of rs))) (scoped_counts w).

Definition actor_totals_query (w : Warehouse) : list (option str * option Uuid * (N * N)) :=
  any_order _ (grouped (fun r => (dc_api_key_name r, dc_user_id r))
    (fun actor rs => (actor, (entities_of rs, requests_of rs))) (scoped_counts w)).
End queries.

(** [fetch_one] and [fetch_all]; [table] is what the error names. *)
Definition ch_query {A} (table : str) (answer : A) : Api A := or_err (ch_err table) ch_io;; mret answer.

(** [SELECT name FROM models WHERE workspace_id = $1] under the transaction's
    scope. *)
Definition registered_models (catalogue : Catalogue) (ws : Uuid) : Api (gset str) :=
  or_err pg_err pg_io;;
  scope ← map_err scope_err (Scope.arm_scope ws);
  or_err pg_err pg_io;;
  names ← api_total (fun d => (snd <$> filter (fun '(w, _) => (visible scope w d && bool_decide (w = ws))) catalogue, d));
  or_err pg_err pg_io;;
  mret (list_to_set names).

Definition bound_model (stored : str) (registered : gset str) : str :=
  if bool_decide (stored = UNREGISTERED_MODEL) || bool_decide (stored ∈ registered) then stored
  else UNREGISTERED_MODEL.

(** [+=] on a pair of [u64]s *)
Definition add2 (a b : N * N) : N * N := (wrap64 (a.1 + b.1), wrap64 (a.2 + b.2)).

(** ** Folding the rows *)

Definition to_class (row : str * (N * N)) : ClassCount :=
  {| cl_entity_class := row.1; cl_entities := row.2.1; cl_requests := row.2.2 |}.

Definition fold_models (registered : gset str) (rows : list (str * str * (N * N)))
    : gmap str (gmap str (N * N)) :=
  foldl (fun models '(model, class, n) =>
    let m := bound_model model registered in
    let classes := default ∅ (models !! m) in
    <[m := <[class := add2 (default (0, 0)%N (classes !! class)) n]> classes]> models) ∅ rows.

Definition fold_totals (registered : gset str) (rows : list (str * (N * N))) : gmap str (N * N) :=
  foldl (fun totals '(stored, n) =>
    let m := bound_model stored registered in
    <[m := add2 (default (0, 0)%N (totals !! m)) n]> totals) ∅ rows.

Definition model_breakdowns (models : gmap str (gmap str (N * N))) (totals : gmap str (N * N))
    : list ModelBreakdown :=
  (fun '(model, classes) =>
    let total := default (0, 0)%N (totals !! model) in
    {| mb_model := model; mb_entities := total.1; mb_requests := total.2;
       mb_by_class := to_class <$> btree_iter classes |}) <$> btree_iter models.

Definition fold_actors (rows : list (option str * option Uuid * str * (N * N)))
    : gmap (option str * option Uuid) (list ClassCount) :=
  foldl (fun actors '(actor, class, n) =>
    <[actor := default [] (actors !! actor) ++ [to_class (class, n)]]> actors) ∅ rows.

Definition actor_breakdowns (actors : gmap (option str * option Uuid) (list ClassCount))
    (index : gmap (option str * option Uuid) (N * N)) : list ActorBreakdown :=
  (fun '(actor, by_class) =>
    let total := default (0, 0)%N (index !! actor) in
    {| ab_user_id := actor.2; ab_api_key_name := actor.1; ab_entities := total.1; ab_requests := total.2;
       ab_by_class := by_class |}) <$> btree_iter actors.

(** [entry(locale).or_default().insert(class, label)] *)
Definition add_label (locale class label : str) (labels : gmap str (gmap str str)) : gmap str (gmap str str) :=
  <[locale := <[class := label]> (default ∅ (labels !! locale))]> labels.

Definition labels_for (by_class : list ClassCount) : gmap str (gmap str str) :=
  foldl (fun labels c =>
    match lookup_labels (cl_entity_class c) with
    | Some (ru, uz) => add_label $"uz" (cl_entity_class c) uz (add_label $"ru" (cl_entity_class c) ru labels)
    | None => labels
    end) ∅ by_class.

(** ** The handler *)

Section handler.
Context `{SqlOrder} (now : DateTime) (wh : nat -> Warehouse) (catalogue : Catalogue).

(** The totals by one column; [table_label] is what the error names. *)
Definition group_totals {A} (table_label : str) (rows : A) : Api A := ch_query table_label rows.

Definition get_leak_report (ctx : JwtAuthContext) (from to : NaiveDate) : Api LeakReportResponse :=
  of_result (require_role (jc_role ctx) Admin);;
  let ws := jc_workspace_id ctx in
  of_result (validate_window from to);;
  '(start, until) ← of_result (bounds from to);
  totals ← ch_query $"detection_class_counts" (totals_query ws start until (wh 0));
  requests_in_window ← ch_query $"request_events" (denominator_query ws start until (wh 1));
  class_rows ← ch_query $"detection_class_counts" (class_query ws start until (wh 2));
  model_rows ← ch_query $"detection_class_counts" (model_query ws start until (wh 3));
  actor_rows ← ch_query $"detection_class_counts" (actor_query ws start until (wh 4));
  let by_class := to_class <$> class_rows in
  registered ← registered_models catalogue ws;
  model_totals ← group_totals $"model" (model_totals_query ws start until (wh 5));
  actor_totals ← ch_query $"detection_class_counts" (actor_totals_query ws start until (wh 6));
  mret {|
    lr_schema_version := SCHEMA_VERSION;
    lr_workspace_id := ws;
    lr_generated_at := now;
    lr_window := {| wn_from := from; wn_to := to; wn_interpretation := WINDOW_INTERPRETATION |};
    lr_totals := {| to_requests_in_window := requests_in_window; to_requests_with_detections := totals.1.2;
                    to_entities_detected := totals.1.1; to_distinct_classes := totals.2 |};
    lr_coverage := COVERAGE;
    lr_counting_rule := COUNTING_RULE;
    lr_placeholders := {| ph_count := None; ph_status := $"not_recorded"; ph_detail := PLACEHOLDERS_NOT_RECORDED |};
    lr_by_class := by_class;
    lr_by_model := model_breakdowns (fold_models registered model_rows) (fold_totals registered model_totals);
    lr_by_actor := actor_breakdowns (fold_actors actor_rows) (list_to_map (reverse actor_totals));
    lr_attribution := attribution;
    lr_labels := labels_for by_class;
    lr_content_policy := CONTENT_POLICY |}.
End handler.
