(* ===== verification/LeakReportSpec.v ===== *)
(** * What the leak report guarantees

    The report is the reference tally of the rows the window holds; it speaks
    of one workspace, in a fixed vocabulary, and never in a store's words; over
    rows the gateway's own writer left, it counts the traffic. *)

From S2P Require Import Prelude Rstr Json Types Sidecar Analytics AnalyticsSpec Providers ProvidersSpec Roles.
From S2P Require Import Sessions WorkerDb ExportRoutes Reports LeakReport.

(** ** Sums over groups *)

Lemma wrap64_add a b : wrap64 (wrap64 a + wrap64 b) = wrap64 (a + b).
Proof. unfold wrap64. by rewrite <- N.Div0.add_mod. Qed.

Definition sum2 (l : list (N * N)) : N * N := foldl add2 (0, 0)%N l.

Lemma sum2_snoc l n : sum2 (l ++ [n]) = add2 (sum2 l) n.
Proof. unfold sum2. by rewrite foldl_app. Qed.

Abbreviation CountRow := DetectionClassCountRow.

Definition entities_raw (rs : list CountRow) : N := foldr N.add 0%N (dc_entity_count <$> rs).
Definition requests_raw (rs : list CountRow) : N := N.of_nat (length (remove_dups (dc_request_id <$> rs))).

(** The two figures of a group of rows. *)
Definition figures (rs : list CountRow) : N * N := (entities_of rs, requests_of rs).

Lemma entities_raw_app a b : entities_raw (a ++ b) = (entities_raw a + entities_raw b)%N.
Proof. unfold entities_raw. induction a as [|x a IH]; [done|]. cbn in *. lia. Qed.

Lemma entities_raw_perm a b : a ≡ₚ b -> entities_raw a = entities_raw b.
Proof. unfold entities_raw. induction 1; cbn in *; lia. Qed.

Lemma length_remove_dups_perm {A} `{EqDecision A} (l l' : list A) :
  (forall x, x ∈ l <-> x ∈ l') -> length (remove_dups l) = length (remove_dups l').
Proof.
  intros Hl. apply Permutation_length, NoDup_Permutation; [apply NoDup_remove_dups..|].
  intros x. by rewrite !elem_of_remove_dups.
Qed.

Lemma requests_raw_perm a b : a ≡ₚ b -> requests_raw a = requests_raw b.
Proof. intros Hp. unfold requests_raw. f_equal. apply length_remove_dups_perm. intros x. by rewrite Hp. Qed.

Lemma requests_raw_app a b :
  (forall r r', r ∈ a -> r' ∈ b -> dc_request_id r <> dc_request_id r') ->
  requests_raw (a ++ b) = (requests_raw a + requests_raw b)%N.
Proof.
  intros Hd. unfold requests_raw. rewrite <- Nnat.Nat2N.inj_add, <- length_app. f_equal.
  apply Permutation_length, NoDup_Permutation; [apply NoDup_remove_dups|..].
  - apply NoDup_app. split_and!; [apply NoDup_remove_dups| |apply NoDup_remove_dups].
    intros x. rewrite !elem_of_remove_dups, !list_elem_of_fmap. intros (r & -> & Hr) (r' & He & Hr').
    by apply (Hd r r').
  - intros x. by rewrite elem_of_app, !elem_of_remove_dups, fmap_app, elem_of_app.
Qed.

Section groups.
Context {K : Type} `{EqDecision K} (key : CountRow -> K) (rows : list CountRow).

Definition rows_in (keys : list K) : list CountRow := filter (fun r => key r ∈ keys) rows.

Lemma rows_in_snoc keys k : k ∉ keys ->
  rows_in (keys ++ [k]) ≡ₚ rows_in keys ++ filter (fun r => key r = k) rows.
Proof.
  intros Hk. unfold rows_in. induction rows as [|r l IH]; [done|]. rewrite !filter_cons.
  destruct (decide (key r ∈ keys)) as [Hr|Hr].
  - rewrite decide_True by (apply elem_of_app; by left). rewrite decide_False by (intros <-; done).
    cbn. by rewrite IH.
  - destruct (decide (key r = k)) as [He|He].
    + rewrite decide_True by (apply elem_of_app; right; rewrite He; by apply list_elem_of_singleton).
      rewrite IH. apply Permutation_middle.
    + rewrite decide_False; [done|]. rewrite elem_of_app, list_elem_of_singleton. tauto.
Qed.

(** The figures of distinct groups that share no request add up to those of
    their rows. *)
Lemma figures_add keys : NoDup keys ->
  (forall r r', r ∈ rows -> r' ∈ rows -> key r ∈ keys -> key r' ∈ keys ->
    dc_request_id r = dc_request_id r' -> key r = key r') ->
  sum2 ((fun k => figures (filter (fun r => key r = k) rows)) <$> keys) = figures (rows_in keys).
Proof.
  induction keys as [|k keys IH] using rev_ind; intros Hn Hone.
  - unfold rows_in. assert (filter (fun r => key r ∈ []) rows = []) as ->; [|done].
    clear. induction rows as [|r l IH]; [done|]. rewrite filter_cons, decide_False; [done|]. apply not_elem_of_nil.
  - apply NoDup_app in Hn as (Hn & Hk & _). assert (k ∉ keys) as Hk'.
    { intros Hin. apply (Hk k Hin). by apply list_elem_of_singleton. }
    rewrite fmap_app. cbn. rewrite sum2_snoc, IH; [|done|].
    2: { intros r r' ? ? ? ?. apply Hone; [done..| |]; apply elem_of_app; by left. }
    unfold add2, figures, entities_of, requests_of. cbn. rewrite !wrap64_add.
    pose proof (rows_in_snoc keys k Hk') as Hp. f_equal.
    + fold (entities_raw (rows_in keys)) (entities_raw (filter (fun r => key r = k) rows))
        (entities_raw (rows_in (keys ++ [k]))). by rewrite <- entities_raw_app, (entities_raw_perm _ _ Hp).
    + unfold uniq. rewrite wrap64_add. fold (requests_raw (rows_in keys))
        (requests_raw (filter (fun r => key r = k) rows)) (requests_raw (rows_in (keys ++ [k]))).
      rewrite (requests_raw_perm _ _ Hp), requests_raw_app; [done|].
      intros r r' [Hr1 Hr2]%list_elem_of_filter [Hr1' Hr2']%list_elem_of_filter He.
      rewrite (Hone r r') in Hr1; [congruence|done|done| | |done].
      * apply elem_of_app. by left.
      * apply elem_of_app. right. by apply list_elem_of_singleton.
Qed.
End groups.

(** ** Accumulating rows into maps *)

(** A map filled by updating one key per row holds, at a key, what its own
    rows make of it. *)
Lemma insert_fold {K A R} `{Countable K} (step : gmap K A -> R -> gmap K A) (key : R -> K)
    (upd : option A -> R -> A) rows k :
  (forall t x, step t x = <[key x := upd (t !! key x) x]> t) ->
  foldl step ∅ rows !! k = foldl (fun o x => Some (upd o x)) None (filter (fun x => key x = k) rows).
Proof.
  intros Hs. induction rows as [|x rows IH] using rev_ind; [cbn; by rewrite lookup_empty|].
  rewrite foldl_app, filter_app, foldl_app. cbn [foldl]. rewrite Hs, filter_cons, filter_nil.
  destruct (decide (key x = k)) as [<-|Hne]; cbn.
  - by rewrite lookup_insert_eq, IH.
  - by rewrite lookup_insert_ne.
Qed.

(** Starting from a default, that is a plain fold when there are rows. *)
Lemma insert_fold_default {K A R} `{Countable K} (step : gmap K A -> R -> gmap K A) (key : R -> K)
    (upd : A -> R -> A) (a0 : A) rows k :
  (forall t x, step t x = <[key x := upd (default a0 (t !! key x)) x]> t) ->
  foldl step ∅ rows !! k =
    if decide (k ∈ key <$> rows) then Some (foldl upd a0 (filter (fun x => key x = k) rows)) else None.
Proof.
  intros Hs. rewrite (insert_fold step key (fun o x => upd (default a0 o) x)) by done.
  case_decide as Hk.
  - apply list_elem_of_fmap in Hk as (x & -> & Hx).
    assert (x ∈ filter (fun y => key y = key x) rows) as Hf by by apply list_elem_of_filter.
    destruct (filter _ rows) as [|y l]; [by apply elem_of_nil in Hf|]. clear. cbn. generalize (upd a0 y) as a.
    induction l as [|z l IH]; intros a; [done|]. cbn. apply IH.
  - rewrite filter_none; [done|]. intros x Hx <-. apply Hk. by apply list_elem_of_fmap_2.
Qed.

Definition bound_rows (registered : gset str) (rows : list (str * str * (N * N))) (m : str)
  : list (str * str * (N * N)) := filter (fun x => bound_model x.1.1 registered = m) rows.

(** The classes of a bounded model. *)
Definition class_map (rows : list (str * str * (N * N))) : gmap str (N * N) :=
  foldl (fun classes x => <[x.1.2 := add2 (default (0, 0)%N (classes !! x.1.2)) x.2]> classes) ∅ rows.

Lemma fold_add2 {R} (f : R -> N * N) rows : foldl (fun a x => add2 a (f x)) (0, 0)%N rows = sum2 (f <$> rows).
Proof. unfold sum2. generalize (0, 0)%N. induction rows as [|x rows IH]; intros a; [done|]. cbn. apply IH. Qed.

Lemma class_map_lookup rows c :
  class_map rows !! c =
    if decide (c ∈ (fun x => x.1.2) <$> rows) then Some (sum2 (filter (fun x => x.1.2 = c) rows).*2) else None.
Proof.
  unfold class_map. rewrite (insert_fold_default _ (fun x => x.1.2) (fun a x => add2 a x.2) (0, 0)%N) by done.
  by rewrite fold_add2.
Qed.

Lemma fold_models_lookup reg rows m :
  fold_models reg rows !! m =
    if decide (m ∈ (fun x => bound_model x.1.1 reg) <$> rows) then Some (class_map (bound_rows reg rows m)) else None.
Proof.
  unfold fold_models. by rewrite (insert_fold_default _ (fun x => bound_model x.1.1 reg)
    (fun classes x => <[x.1.2 := add2 (default (0, 0)%N (classes !! x.1.2)) x.2]> classes) ∅) by by intros t [[??]?].
Qed.

Lemma fold_totals_lookup reg rows m :
  fold_totals reg rows !! m =
    if decide (m ∈ (fun x => bound_model x.1 reg) <$> rows)
    then Some (sum2 (filter (fun x => bound_model x.1 reg = m) rows).*2) else None.
Proof.
  unfold fold_totals. rewrite (insert_fold_default _ (fun x => bound_model x.1 reg)
    (fun a x => add2 a x.2) (0, 0)%N) by by intros t [??]. by rewrite fold_add2.
Qed.

Lemma foldl_snoc {A B} (f : A -> B) acc l : foldl (fun l x => l ++ [f x]) acc l = acc ++ (f <$> l).
Proof.
  revert acc. induction l as [|x l IH]; intros acc; cbn; [by rewrite app_nil_r|]. by rewrite IH, <- app_assoc.
Qed.

Definition actor_rows (rows : list (option str * option Uuid * str * (N * N))) (a : option str * option Uuid)
  : list ClassCount := (fun x => to_class (x.1.2, x.2)) <$> filter (fun x => x.1.1 = a) rows.

Lemma fold_actors_lookup rows a :
  fold_actors rows !! a = if decide (a ∈ (fun x => x.1.1) <$> rows) then Some (actor_rows rows a) else None.
Proof.
  unfold fold_actors. rewrite (insert_fold_default _ (fun x => x.1.1)
    (fun l x => l ++ [to_class (x.1.2, x.2)]) []) by by intros t [[??]?].
  case_decide; [|done]. f_equal. apply (foldl_snoc (fun x => to_class (x.1.2, x.2)) []).
Qed.

(** ** The folds against the reference *)

Lemma tally_fmap {K R A B} `{Countable K} `{!KeyOrder K} (f : A -> B) (key : R -> K) (g : K -> list R -> A) rows :
  f <$> tally key g rows = tally key (fun k l => f (g k l)) rows.
Proof. unfold tally. by rewrite <- list_fmap_compose. Qed.

Section grouping.
Context {K : Type} `{Countable K} `{!KeyOrder K} (key : CountRow -> K) (rows : list CountRow).
#[local] Abbreviation answer := (grouped key (fun k g => (k, figures g)) rows).

Lemma answer_keys : answer.*1 = sort_by key_leb (remove_dups (key <$> rows)).
Proof using Type. rewrite grouped_tally. unfold tally. rewrite <- list_fmap_compose. apply list_fmap_id. Qed.

Lemma answer_key k : k ∈ answer.*1 <-> k ∈ key <$> rows.
Proof using Type. by rewrite answer_keys, sort_by_perm, elem_of_remove_dups. Qed.

Lemma answer_image {B} (f : K -> B) b : b ∈ (fun x => f x.1) <$> answer <-> b ∈ (fun r => f (key r)) <$> rows.
Proof using Type.
  change (b ∈ (f ∘ fst) <$> answer <-> b ∈ (f ∘ key) <$> rows). rewrite !list_fmap_compose, !list_elem_of_fmap.
  split; intros (k & -> & Hk); exists k; (split; [done|]); by apply answer_key.
Qed.

Lemma answer_figures (P : K -> Prop) `{forall k, Decision (P k)} :
  (forall r r', r ∈ rows -> r' ∈ rows -> P (key r) -> P (key r') -> dc_request_id r = dc_request_id r' ->
    key r = key r') ->
  sum2 (filter (fun x => P x.1) answer).*2 = figures (filter (fun r => P (key r)) rows).
Proof using Type.
  intros Hone. rewrite grouped_tally. unfold tally.
  rewrite filter_fmap. rewrite <- list_fmap_compose. unfold compose. cbn.
  rewrite figures_add.
  - f_equal. unfold rows_in. apply filter_ext. intros r Hr.
    rewrite list_elem_of_filter, sort_by_perm, elem_of_remove_dups. split; [by intros [? _]|].
    intros Hp. split; [done|]. by apply list_elem_of_fmap_2.
  - apply NoDup_filter. rewrite sort_by_perm. apply NoDup_remove_dups.
  - intros r r' Hr Hr' [Hp _]%list_elem_of_filter [Hp' _]%list_elem_of_filter. by apply Hone.
Qed.
End grouping.

(** Within [rows], a request has one model. *)
Definition one_model (rows : list CountRow) : Prop :=
  forall r r', r ∈ rows -> r' ∈ rows -> dc_request_id r = dc_request_id r' -> dc_model r = dc_model r'.

Definition class_entry (c : str) (g : list CountRow) : ClassCount := to_class (c, figures g).

Definition model_entry (m : str) (g : list CountRow) : ModelBreakdown := {|
  mb_model := m; mb_entities := entities_of g; mb_requests := requests_of g;
  mb_by_class := tally dc_entity_class class_entry g |}.

Definition actor_entry (a : option str * option Uuid) (g : list CountRow) : ActorBreakdown := {|
  ab_user_id := a.2; ab_api_key_name := a.1; ab_entities := entities_of g; ab_requests := requests_of g;
  ab_by_class := tally dc_entity_class class_entry g |}.

Definition actor_of_row (r : CountRow) : option str * option Uuid := (dc_api_key_name r, dc_user_id r).

Section folds.
Context (reg : gset str) (rows : list CountRow).
#[local] Abbreviation bound r := (bound_model (dc_model r) reg).
#[local] Abbreviation model_answer := (grouped (fun r => (dc_model r, dc_entity_class r)) (fun k g => (k, figures g)) rows).

Lemma class_answer : to_class <$> grouped dc_entity_class (fun c g => (c, figures g)) rows = tally dc_entity_class class_entry rows.
Proof using Type. by rewrite grouped_tally, tally_fmap. Qed.

Lemma classes_of_model m : one_model rows ->
  to_class <$> btree_iter (class_map (bound_rows reg model_answer m))
  = tally dc_entity_class class_entry (filter (fun r => bound r = m) rows).
Proof using Type.
  intros Hone. unfold tally.
  transitivity ((fun '(c, n) => to_class (c, n)) <$> btree_iter (class_map (bound_rows reg model_answer m))).
  { apply list_fmap_ext. by intros i [c n] _. }
  apply btree_iter_map; [apply NoDup_remove_dups|..].
  - intros c. rewrite class_map_lookup, elem_of_remove_dups. unfold bound_rows.
    transitivity (c ∈ (fun x : str * str * (N * N) => x.1.2) <$> filter (fun x => bound_model x.1.1 reg = m) model_answer).
    { case_decide; [by split; [|by eexists]|]. split; [by intros []|done]. }
    rewrite !list_elem_of_fmap. split.
    + intros ([[m' c'] n] & -> & [Hm Hin]%list_elem_of_filter). cbn in *.
      assert ((m', c') ∈ model_answer.*1) as Hk by (by apply (list_elem_of_fmap_2 fst _ (m', c', n))).
      apply answer_key, list_elem_of_fmap in Hk as (r & [= -> ->] & Hr). exists r. by rewrite list_elem_of_filter.
    + intros (r & -> & [Hm Hr]%list_elem_of_filter).
      assert ((dc_model r, dc_entity_class r) ∈ model_answer.*1) as Hk
        by (apply answer_key; by apply (list_elem_of_fmap_2 (fun r => (dc_model r, dc_entity_class r)))).
      apply list_elem_of_fmap in Hk as ([k n] & [= <-] & Hx). exists (dc_model r, dc_entity_class r, n).
      by rewrite list_elem_of_filter.
  - intros c v. rewrite class_map_lookup. case_decide; [|done]. intros [= <-]. unfold class_entry. do 2 f_equal.
    unfold bound_rows. rewrite list_filter_filter.
    pose proof (answer_figures (fun r => (dc_model r, dc_entity_class r)) rows
      (fun k => k.2 = c /\ bound_model k.1 reg = m)) as Hf.
    etrans; [apply Hf|].
    + cbn. intros r r' Hr Hr' [Hc _] [Hc' _] He. f_equal; [by apply Hone|congruence].
    + by rewrite list_filter_filter.
Qed.

Lemma breakdown_by_model : one_model rows ->
  model_breakdowns (fold_models reg model_answer)
    (fold_totals reg (grouped dc_model (fun k g => (k, figures g)) rows))
  = tally (fun r => bound r) model_entry rows.
Proof using Type.
  intros Hone. unfold model_breakdowns, tally. apply btree_iter_map; [apply NoDup_remove_dups|..].
  - intros m. rewrite fold_models_lookup, elem_of_remove_dups.
    transitivity (m ∈ (fun x : str * str * (N * N) => bound_model x.1.1 reg) <$> model_answer).
    { case_decide; [by split; [|by eexists]|]. split; [by intros []|done]. }
    apply (answer_image (fun r => (dc_model r, dc_entity_class r)) _ (fun k => bound_model k.1 reg)).
  - intros m v. rewrite fold_models_lookup. case_decide as Hm; [|done]. intros [= <-].
    rewrite fold_totals_lookup. rewrite decide_True.
    + pose proof (answer_figures dc_model rows (fun k => bound_model k reg = m)) as Hf. cbn.
      unfold model_entry. rewrite classes_of_model by done.
      match goal with |- context [sum2 ?x] => replace (sum2 x) with (figures (filter (fun r => bound r = m) rows)) end; [done|].
      symmetry. apply Hf. intros r r' ? ? _ _. by apply Hone.
    + apply (answer_image dc_model _ (fun k => bound_model k reg)).
      by apply (answer_image (fun r => (dc_model r, dc_entity_class r)) _ (fun k => bound_model k.1 reg)) in Hm.
Qed.
End folds.

Section actors.
Context `{SqlOrder} (rows : list CountRow).

(** The answer of the store about one actor. *)
Definition actor_group (a : option str * option Uuid) (g : list CountRow) : list (option str * option Uuid * str * (N * N)) :=
  grouped dc_entity_class (fun c g' => (a, c, figures g')) g.

Lemma actor_group_actor a g x : x ∈ actor_group a g -> x.1.1 = a.
Proof using Type.
  unfold actor_group. rewrite grouped_tally. unfold tally. by intros (c & -> & _)%list_elem_of_fmap.
Qed.

(** Whatever order the groups of distinct actors come in, an actor's rows are
    its own group. *)
Lemma filter_groups (F : option str * option Uuid -> list CountRow) ks a : NoDup ks ->
  filter (fun x => x.1.1 = a) (mjoin ((fun k => actor_group k (F k)) <$> ks))
  = if decide (a ∈ ks) then actor_group a (F a) else [].
Proof using Type.
  induction 1 as [|k ks Hk Hn IH]; [done|]. rewrite fmap_cons.
  match goal with |- context [mjoin (?x :: ?l)] => change (mjoin (x :: l)) with (x ++ mjoin l) end.
  rewrite filter_app, IH. destruct (decide (k = a)) as [->|Hne].
  - rewrite (filter_ext _ (fun _ => True)) by (intros x Hx; by rewrite (actor_group_actor _ _ _ Hx)).
    rewrite (decide_False (P := a ∈ ks)) by done. rewrite decide_True by by left. rewrite app_nil_r.
    clear. induction (actor_group a (F a)) as [|x l IH]; [done|]. by rewrite filter_cons, decide_True, IH.
  - rewrite filter_none by (intros x Hx; by rewrite (actor_group_actor _ _ _ Hx)). cbn.
    apply decide_ext. rewrite elem_of_cons. split; [by right|]. intros [?|?]; congruence.
Qed.

Lemma any_order_fmap {A B} (f : A -> B) l : exists l', any_order _ (f <$> l) = f <$> l' /\ l' ≡ₚ l.
Proof using Type.
  destruct (Permutation_map_inv f l (any_order_perm B (f <$> l))) as (l' & He & Hp).
  exists l'. by split.
Qed.

#[local] Abbreviation mine a := (filter (fun r => actor_of_row r = a) rows).

Lemma indexed {K V} `{Countable K} (f : K -> V) ks k : NoDup ks -> k ∈ ks ->
  (list_to_map (reverse ((fun a => (a, f a)) <$> ks)) : gmap K V) !! k = Some (f k).
Proof using Type.
  intros Hn Hk. apply elem_of_list_to_map.
  - rewrite fmap_reverse, reverse_Permutation, <- list_fmap_compose. unfold compose. cbn. by rewrite list_fmap_id.
  - rewrite elem_of_reverse. apply list_elem_of_fmap. by eexists.
Qed.

Lemma breakdown_by_actor :
  actor_breakdowns (fold_actors (mjoin (any_order _ (grouped actor_of_row actor_group rows))))
    (list_to_map (reverse (any_order _ (grouped actor_of_row (fun a g => (a, figures g)) rows))))
  = tally actor_of_row actor_entry rows.
Proof using Type.
  rewrite !grouped_tally. unfold tally at 1 2.
  set (ks := sort_by key_leb (remove_dups (actor_of_row <$> rows))).
  assert (Hks : NoDup ks) by (unfold ks; rewrite sort_by_perm; apply NoDup_remove_dups).
  assert (Hin : forall a, a ∈ ks <-> a ∈ actor_of_row <$> rows)
    by (intros a; unfold ks; by rewrite sort_by_perm, elem_of_remove_dups).
  destruct (any_order_fmap (fun a => actor_group a (mine a)) ks) as (ks1 & -> & Hp1).
  destruct (any_order_fmap (fun a => (a, figures (mine a))) ks) as (ks2 & -> & Hp2).
  assert (Hn1 : NoDup ks1) by by rewrite Hp1.
  unfold actor_breakdowns, tally. apply btree_iter_map; [apply NoDup_remove_dups|..].
  - intros a. rewrite fold_actors_lookup, elem_of_remove_dups, <- Hin, <- Hp1.
    transitivity (a ∈ (fun x => x.1.1) <$> mjoin ((fun k => actor_group k (mine k)) <$> ks1)).
    { case_decide; [by split; [|by eexists]|]. split; [by intros []|done]. }
    rewrite list_elem_of_fmap. split.
    + intros (x & -> & (l & Hx & (k & -> & Hk)%list_elem_of_fmap)%list_elem_of_join).
      by rewrite (actor_group_actor _ _ _ Hx).
    + intros Ha. pose proof Ha as Hr. rewrite Hp1 in Hr. apply Hin, list_elem_of_fmap in Hr as (r & -> & Hr).
      assert (Hg : r ∈ mine (actor_of_row r)) by by apply list_elem_of_filter.
      assert (Hc : dc_entity_class r ∈ (fun x => x.1.2) <$> actor_group (actor_of_row r) (mine (actor_of_row r))).
      { unfold actor_group. rewrite grouped_tally. unfold tally. rewrite <- list_fmap_compose. unfold compose. cbn.
        rewrite list_fmap_id, sort_by_perm, elem_of_remove_dups. by apply list_elem_of_fmap_2. }
      apply list_elem_of_fmap in Hc as (x & _ & Hx). exists x. split; [by rewrite (actor_group_actor _ _ _ Hx)|].
      apply list_elem_of_join. eexists. split; [exact Hx|]. apply list_elem_of_fmap. by eexists.
  - intros a v. rewrite fold_actors_lookup. case_decide as Ha; [|done]. intros [= <-].
    assert (Ha' : a ∈ ks1).
    { apply list_elem_of_fmap in Ha as (x & -> & (l & Hx & (k & -> & Hk)%list_elem_of_fmap)%list_elem_of_join).
      by rewrite (actor_group_actor _ _ _ Hx). }
    rewrite (indexed (fun a => figures (mine a))) by (by rewrite ?Hp2, <- ?Hp1).
    unfold actor_rows, actor_entry. rewrite filter_groups by done. rewrite decide_True by done. cbn.
    f_equal. unfold actor_group. by rewrite grouped_tally, tally_fmap.
Qed.
End actors.

(** ** The handler *)

Section handler.
Context `{SqlOrder} (now : DateTime) (wh : nat -> Warehouse) (catalogue : Catalogue).

#[local] Abbreviation report := (get_leak_report now wh catalogue).

(** The workspace's own model names. *)
Definition names_of (ws : Uuid) : gset str := list_to_set (snd <$> filter (fun x => x.1 = ws) catalogue).

Lemma ch_query_ok {A} table (a a' : A) d d' : ch_query table a d = (Ok a', d') -> a' = a.
Proof using Type. intros (u & d1 & _ & He)%api_bind_ok. by injection He. Qed.

Lemma registered_models_ok ws d reg d' : registered_models catalogue ws d = (Ok reg, d') -> reg = names_of ws.
Proof using Type.
  intros (u & d1 & _ & (s & d2 & Hs & (u' & d3 & _ & (names & d4 & Hn & (u'' & d5 & _ & Hr)%api_bind_ok)
    %api_bind_ok)%api_bind_ok)%api_bind_ok)%api_bind_ok.
  assert (s = Some ws) as ->.
  { apply map_err_ok in Hs. by eapply arm_scope_ok. }
  injection Hr as <- _. injection Hn as <- _. unfold names_of. do 2 f_equal. apply filter_ext.
  intros [w n] _. cbn. unfold visible.
  destruct (decide (w = ws)) as [->|Hne].
  - rewrite (bool_decide_eq_true_2 (Some ws = Some ws)) by done. rewrite orb_true_r, bool_decide_eq_true_2 by done. done.
  - rewrite (bool_decide_eq_false_2 (w = ws)) by done. rewrite andb_false_r. naive_solver.
Qed.

(** What a report that is produced was made of. *)
Record made (ctx : JwtAuthContext) (from to : NaiveDate) (r : LeakReportResponse) : Prop := {
  made_admin : require_role (jc_role ctx) Admin = Ok tt;
  made_order : (from <= to)%Z;
  made_span : (to - from <= MAX_WINDOW_DAYS)%Z;
  made_of : let q {A} (f : Uuid -> Z -> Z -> Warehouse -> A) n := f (jc_workspace_id ctx) (from * DAY)%Z ((to + 1) * DAY)%Z (wh n) in
    let reg := names_of (jc_workspace_id ctx) in
    lr_workspace_id r = jc_workspace_id ctx
    /\ lr_totals r = {| to_requests_in_window := q denominator_query 1;
         to_requests_with_detections := (q totals_query 0).1.2; to_entities_detected := (q totals_query 0).1.1;
         to_distinct_classes := (q totals_query 0).2 |}
    /\ lr_by_class r = to_class <$> q class_query 2
    /\ lr_by_model r = model_breakdowns (fold_models reg (q model_query 3)) (fold_totals reg (q model_totals_query 5))
    /\ lr_by_actor r = actor_breakdowns (fold_actors (q actor_query 4)) (list_to_map (reverse (q actor_totals_query 6)))
    /\ lr_labels r = labels_for (lr_by_class r);
}.

Lemma report_made ctx from to d r d' : report ctx from to d = (Ok r, d') -> made ctx from to r.
Proof using Type.
  intros Hr. unfold get_leak_report in Hr.
  apply api_bind_ok in Hr as ([] & d1 & Hadmin & Hr). injection Hadmin as Hadmin _.
  apply api_bind_ok in Hr as ([] & d2 & Hwin & Hr). injection Hwin as Hwin _.
  apply api_bind_ok in Hr as ([start until] & d3 & Hb & Hr). injection Hb as Hb _.
  apply api_bind_ok in Hr as (totals & d4 & ->%ch_query_ok & Hr).
  apply api_bind_ok in Hr as (inw & d5 & ->%ch_query_ok & Hr).
  apply api_bind_ok in Hr as (crows & d6 & ->%ch_query_ok & Hr).
  apply api_bind_ok in Hr as (mrows & d7 & ->%ch_query_ok & Hr).
  apply api_bind_ok in Hr as (arows & d8 & ->%ch_query_ok & Hr).
  apply api_bind_ok in Hr as (reg & d9 & ->%registered_models_ok & Hr).
  apply api_bind_ok in Hr as (mt & d10 & ->%ch_query_ok & Hr).
  apply api_bind_ok in Hr as (acts & d11 & ->%ch_query_ok & Hr).
  injection Hr as <- _. unfold validate_window in Hwin. destruct (Z.ltb_spec to from); [done|].
  apply ensure_Ok, Z.leb_le in Hwin. unfold bounds, succ_opt in Hb.
  destruct (to <? NaiveDate_MAX)%Z; [|done]. cbn in Hb. injection Hb as <- <-.
  by split.
Qed.
End handler.

(** ** The report against the rows *)

(** The report of an unchanging warehouse. *)
Record exact (reg : gset str) (rows : list CountRow) (requests : list RequestEventRow) (r : LeakReportResponse) : Prop := {
  ex_totals : lr_totals r = {| to_requests_in_window := uniq (Analytics.rr_request_id <$> requests);
    to_requests_with_detections := requests_of rows; to_entities_detected := entities_of rows;
    to_distinct_classes := uniq (dc_entity_class <$> rows) |};
  ex_class : lr_by_class r = tally dc_entity_class class_entry rows;
  ex_model : lr_by_model r = tally (fun r => bound_model (dc_model r) reg) model_entry rows;
  ex_actor : lr_by_actor r = tally actor_of_row actor_entry rows;
}.

Lemma made_exact `{SqlOrder} wh catalogue w ctx from to r :
  let rows := scoped_counts (jc_workspace_id ctx) (from * DAY) ((to + 1) * DAY) w in
  (forall n, wh n = w) -> one_model rows -> made wh catalogue ctx from to r ->
  exact (names_of catalogue (jc_workspace_id ctx)) rows
    (scoped_events (jc_workspace_id ctx) (from * DAY) ((to + 1) * DAY) w) r.
Proof.
  intros rows Hw Hone [_ _ _ (Hws & Ht & Hc & Hm & Ha & _)]. rewrite !(Hw 0), (Hw 1) in Ht.
  rewrite (Hw 2) in Hc. rewrite (Hw 3), (Hw 5) in Hm. rewrite (Hw 4), (Hw 6) in Ha. split.
  - exact Ht.
  - rewrite Hc. apply class_answer.
  - rewrite Hm. by apply breakdown_by_model.
  - rewrite Ha. apply breakdown_by_actor.
Qed.

(** ** The rows the writer leaves *)

Definition counts_of (rows : list Row) : list CountRow :=
  omap (fun r => match r with RowCount c => Some c | _ => None end) rows.
Definition requests_among (rows : list Row) : list RequestEventRow :=
  omap (fun r => match r with RowRequest q => Some q | _ => None end) rows.
Definition warehouse_of (w : WriterState) : Warehouse :=
  {| wh_counts := counts_of (w_rows w); wh_events := requests_among (w_rows w) |}.

(** The consumer, over events with the seconds at which they are written. *)
Definition consume_all (server : nat -> WriteResult) (events : list (Z * RequestEvent)) : WriterState :=
  foldl (fun w ne => consume server ne.1 w ne.2) writer_init events.

Definition counted_rows (ne : Z * RequestEvent) : list CountRow := DetectionClassCountRow_from_event ne.2 ne.1.

Lemma omap_skip {A B C} (f : B -> A) (g : A -> option C) (l : list B) : (forall x, g (f x) = None) -> omap g (f <$> l) = [].
Proof. intros Hg. induction l as [|x l IH]; [done|]. cbn. by rewrite Hg. Qed.
Lemma omap_all {A B} (f : B -> A) (g : A -> option B) (l : list B) : (forall x, g (f x) = Some x) -> omap g (f <$> l) = l.
Proof. intros Hg. induction l as [|x l IH]; [done|]. cbn. rewrite Hg. f_equal. apply IH. Qed.

Lemma event_rows_counts ne : counts_of (event_rows ne.1 ne.2) = counted_rows ne.
Proof.
  unfold counts_of, event_rows, other_rows. cbn. rewrite !omap_app.
  rewrite (omap_all RowCount) by done. rewrite omap_skip by done.
  destruct (RequestContentCaptureRow_from_event _ _), (rq_latency_ms _); cbn; by rewrite app_nil_r.
Qed.

Lemma event_rows_requests ne : requests_among (event_rows ne.1 ne.2) = [RequestEventRow_from_event ne.2 ne.1].
Proof.
  unfold requests_among, event_rows, other_rows. cbn. rewrite !omap_app, !omap_skip by done.
  by destruct (RequestContentCaptureRow_from_event _ _), (rq_latency_ms _).
Qed.

Lemma consumed_warehouse server events : (forall n, server n = Written) ->
  warehouse_of (consume_all server events)
  = {| wh_counts := events ≫= counted_rows; wh_events := (fun ne => RequestEventRow_from_event ne.2 ne.1) <$> events |}.
Proof.
  intros Hs. unfold consume_all. induction events as [|ne events IH] using rev_ind; [done|].
  rewrite foldl_app. cbn. destruct (consume_cases server ne.1 (foldl (fun w ne => consume server ne.1 w ne.2) writer_init events) ne.2)
    as (sub & E & _ & Hsub). rewrite (Hsub Hs) in E. unfold warehouse_of in *. rewrite E.
  unfold counts_of, requests_among. rewrite !omap_app. injection IH as IHc IHr.
  unfold counts_of in IHc. unfold requests_among in IHr. rewrite IHc, IHr, bind_app, fmap_app.
  cbn [fmap list_fmap]. rewrite <- event_rows_requests. cbn [mbind list_bind]. rewrite app_nil_r.
  by rewrite <- event_rows_counts.
Qed.

(** ** Figures of the traffic *)

Abbreviation Recorded := (Z * RequestEvent)%type.
Definition id_of (ne : Recorded) : Uuid := rq_request_id ne.2.

Lemma filter_bind {A B} (P : B -> Prop) (Q : A -> Prop) `{forall x, Decision (P x)} `{forall x, Decision (Q x)}
    (g : A -> list B) (l : list A) :
  (forall x y, y ∈ g x -> P y <-> Q x) -> filter P (l ≫= g) = filter Q l ≫= g.
Proof.
  intros Hg. induction l as [|x l IH]; [done|]. rewrite bind_cons, filter_app, filter_cons, IH.
  destruct (decide (Q x)) as [Hq|Hq].
  - rewrite bind_cons. f_equal. rewrite (filter_ext _ (fun _ => True)) by (intros y Hy; by rewrite (Hg x y Hy)).
    clear. induction (g x) as [|y l IH]; [done|]. by rewrite filter_cons, decide_True, IH.
  - by rewrite filter_none by (intros y Hy; by rewrite (Hg x y Hy)).
Qed.

Lemma filter_bind_inner {A B} (P : B -> Prop) `{forall x, Decision (P x)} (g : A -> list B) (l : list A) :
  filter P (l ≫= g) = l ≫= (fun x => filter P (g x)).
Proof. induction l as [|x l IH]; [done|]. by rewrite !bind_cons, filter_app, IH. Qed.

(** Requests with different identifiers count once each, if they have rows. *)
Lemma requests_bind (g : Recorded -> list CountRow) l :
  NoDup (id_of <$> l) -> (forall ne r, r ∈ g ne -> dc_request_id r = id_of ne) ->
  requests_raw (l ≫= g) = N.of_nat (length (filter (fun ne => g ne <> []) l)).
Proof.
  intros Hn Hid. unfold requests_raw. f_equal. rewrite <- (length_fmap id_of (filter _ l)).
  apply Permutation_length, NoDup_Permutation; [apply NoDup_remove_dups|..].
  - apply (sublist_NoDup _ (id_of <$> l)); [exact Hn|]. apply fmap_sublist, sublist_filter.
  - intros x. rewrite elem_of_remove_dups, !list_elem_of_fmap. split.
    + intros (r & -> & (ne & Hr & Hne)%list_elem_of_bind). exists ne. split; [by eapply Hid|].
      apply list_elem_of_filter. split; [|done]. intros E. rewrite E in Hr. by apply elem_of_nil in Hr.
    + intros (ne & -> & [Hg Hne]%list_elem_of_filter). destruct (g ne) as [|r rs] eqn:E; [done|].
      exists r. split; [symmetry; apply Hid; rewrite E; by left|]. apply list_elem_of_bind. exists ne.
      rewrite E. split; [by left|done].
Qed.

Lemma entities_bind (g : Recorded -> list CountRow) l :
  entities_raw (l ≫= g) = foldr N.add 0%N ((fun ne => entities_raw (g ne)) <$> l).
Proof. induction l as [|ne l IH]; [done|]. rewrite bind_cons, entities_raw_app, IH. done. Qed.

(** What a request's row says of it. *)
Lemma count_rows_spec ne r : r ∈ counted_rows ne ->
  dc_request_id r = id_of ne /\ dc_workspace_id r = rq_workspace_id ne.2 /\ dc_created_at r = ne.1
  /\ dc_model r = canonicalize_model (rq_model ne.2) (rq_model_registered ne.2)
  /\ dc_entity_class r ∈ (rq_detection_counts ne.2).*1.
Proof.
  unfold counted_rows, DetectionClassCountRow_from_event. intros ([c n] & -> & Hin)%list_elem_of_fmap. cbn.
  split_and!; [done..|]. by apply (list_elem_of_fmap_2 fst _ (c, n)).
Qed.

Lemma count_rows_actor ne r : r ∈ counted_rows ne -> actor_of_row r = (rq_api_key_name ne.2, rq_user_id ne.2).
Proof. unfold counted_rows, DetectionClassCountRow_from_event. by intros ([c n] & -> & _)%list_elem_of_fmap. Qed.

Lemma count_rows_entities ne : entities_raw (counted_rows ne) = foldr N.add 0%N (rq_detection_counts ne.2).*2.
Proof.
  unfold entities_raw, counted_rows, DetectionClassCountRow_from_event. rewrite <- list_fmap_compose. f_equal.
  apply list_fmap_ext. by intros i [c n].
Qed.

Lemma count_rows_class ne c : filter (fun r => dc_entity_class r = c) (counted_rows ne) <> []
  <-> c ∈ (rq_detection_counts ne.2).*1.
Proof.
  split.
  - destruct (filter _ _) as [|r rs] eqn:E; [done|]. intros _.
    assert (r ∈ filter (fun r => dc_entity_class r = c) (counted_rows ne)) as [<- Hr]%list_elem_of_filter
      by (rewrite E; by left). by apply count_rows_spec.
  - intros ([k n] & -> & Hin)%list_elem_of_fmap E. unfold counted_rows, DetectionClassCountRow_from_event in E.
    rewrite filter_fmap in E. apply fmap_nil_inv in E.
    apply (not_elem_of_nil (k, n)). rewrite <- E. by apply list_elem_of_filter.
Qed.

Section traffic.
Context `{SqlOrder} (now : DateTime) (catalogue : Catalogue) (server : nat -> WriteResult) (events : list Recorded).
Context (ctx : JwtAuthContext) (from to : NaiveDate).

(** The workspace's requests of the window, and those that carried
    something. *)
Definition seen : list Recorded :=
  filter (fun ne => in_scope (jc_workspace_id ctx) (from * DAY) ((to + 1) * DAY) (rq_workspace_id ne.2) ne.1) events.
Definition leaking : list Recorded := filter (fun ne => rq_detection_counts ne.2 <> []) seen.
Definition entity_total (l : list Recorded) : N :=
  wrap64 (foldr N.add 0%N ((fun ne => foldr N.add 0%N (rq_detection_counts ne.2).*2) <$> l)).
Definition request_total (l : list Recorded) : N := wrap64 (N.of_nat (length l)).

(** What was found of a class in some requests: its entities, and the requests
    it appeared in; and this for every class of theirs, in order. *)
Definition classes_in (ne : Recorded) : list str := (rq_detection_counts ne.2).*1.
Definition class_total (c : str) (l : list Recorded) : N :=
  wrap64 (foldr N.add 0%N
    ((fun ne => foldr N.add 0%N (filter (fun x => x.1 = c) (rq_detection_counts ne.2)).*2) <$> l)).
Definition class_tally (l : list Recorded) : list ClassCount :=
  (fun c => {| cl_entity_class := c; cl_entities := class_total c l;
               cl_requests := request_total (filter (fun ne => c ∈ classes_in ne) l) |})
  <$> sort_by key_leb (remove_dups (l ≫= classes_in)).

(** The figures of one destination and of one actor. *)
Definition model_figures (m : str) (l : list Recorded) : ModelBreakdown := {|
  mb_model := m; mb_entities := entity_total l; mb_requests := request_total l;
  mb_by_class := class_tally l |}.
Definition actor_figures (a : option str * option Uuid) (l : list Recorded) : ActorBreakdown := {|
  ab_user_id := a.2; ab_api_key_name := a.1; ab_entities := entity_total l; ab_requests := request_total l;
  ab_by_class := class_tally l |}.
Definition sender_of (ne : Recorded) : option str * option Uuid := (rq_api_key_name ne.2, rq_user_id ne.2).

(** Where a request went, as the report may say it. *)
Definition destination (ne : Recorded) : str :=
  bound_model (canonicalize_model (rq_model ne.2) (rq_model_registered ne.2)) (names_of catalogue (jc_workspace_id ctx)).

Context (wh : nat -> Warehouse).
Hypothesis all_written : forall n, server n = Written.
Hypothesis quiet : forall n, wh n = warehouse_of (consume_all server events).
Hypothesis fresh : NoDup (id_of <$> events).

Lemma seen_rows : scoped_counts (jc_workspace_id ctx) (from * DAY) ((to + 1) * DAY) (warehouse_of (consume_all server events))
  = seen ≫= counted_rows.
Proof using All.
  unfold scoped_counts. rewrite consumed_warehouse by done. apply filter_bind. intros ne r Hr.
  apply count_rows_spec in Hr as (_ & -> & -> & _). done.
Qed.

Lemma seen_fresh : NoDup (id_of <$> seen).
Proof using All. apply (sublist_NoDup _ (id_of <$> events)); [done|]. apply fmap_sublist, sublist_filter. Qed.

Lemma rows_one_model : one_model (seen ≫= counted_rows).
Proof using All.
  intros r r' (ne & Hr & Hne)%list_elem_of_bind (ne' & Hr' & Hne')%list_elem_of_bind He.
  apply count_rows_spec in Hr as (Hi & _ & _ & Hm & _). apply count_rows_spec in Hr' as (Hi' & _ & _ & Hm' & _).
  assert (ne = ne') as <-; [|congruence].
  apply list_elem_of_lookup in Hne as [i Hne]. apply list_elem_of_lookup in Hne' as [j Hne'].
  assert (i = j) as <-; [|congruence]. eapply (NoDup_lookup (id_of <$> seen)); [apply seen_fresh|..].
  - by rewrite list_lookup_fmap, Hne.
  - rewrite list_lookup_fmap, Hne'. cbn. congruence.
Qed.

Lemma leaking_rows (l : list Recorded) :
  filter (fun ne => counted_rows ne <> []) l = filter (fun ne => rq_detection_counts ne.2 <> []) l.
Proof using Type.
  apply filter_ext. intros ne _. unfold counted_rows, DetectionClassCountRow_from_event.
  by destruct (rq_detection_counts ne.2).
Qed.

Lemma requests_of_rows l : NoDup (id_of <$> l) ->
  requests_of (l ≫= counted_rows) = request_total (filter (fun ne => rq_detection_counts ne.2 <> []) l).
Proof using Type.
  intros Hn. unfold requests_of, uniq, request_total. f_equal. rewrite <- leaking_rows.
  apply requests_bind; [done|]. intros ne r Hr. by apply count_rows_spec.
Qed.

Lemma entities_of_rows l : entities_of (l ≫= counted_rows) = entity_total l.
Proof using Type.
  unfold entities_of, entity_total. f_equal. fold (entities_raw (l ≫= counted_rows)). rewrite entities_bind. f_equal.
  apply list_fmap_ext. intros i ne _. apply count_rows_entities.
Qed.

(** The requests that carried nothing leave no rows. *)
Lemma leaking_bind : seen ≫= counted_rows = leaking ≫= counted_rows.
Proof using Type.
  unfold leaking. generalize seen. intros l. induction l as [|ne l IH]; [done|].
  rewrite bind_cons, filter_cons, IH. destruct (decide _) as [|Hn]; [done|].
  apply dec_stable in Hn. unfold counted_rows at 1, DetectionClassCountRow_from_event. by rewrite Hn.
Qed.

Lemma rows_classes (l : list Recorded) : dc_entity_class <$> (l ≫= counted_rows) = l ≫= classes_in.
Proof using Type.
  induction l as [|ne l IH]; [done|]. rewrite !bind_cons, fmap_app, IH. f_equal.
  unfold counted_rows, DetectionClassCountRow_from_event, classes_in. rewrite <- list_fmap_compose.
  apply list_fmap_ext. by intros i [c n].
Qed.

Lemma class_tally_rows (l : list Recorded) : NoDup (id_of <$> l) ->
  tally dc_entity_class class_entry (l ≫= counted_rows) = class_tally l.
Proof using Type.
  intros Hn. unfold tally, class_tally. rewrite rows_classes. apply list_fmap_ext. intros i c _.
  unfold class_entry, to_class, figures. cbn. rewrite filter_bind_inner. f_equal.
  - unfold entities_of, class_total. f_equal.
    fold (entities_raw (l ≫= (fun ne => filter (fun r => dc_entity_class r = c) (counted_rows ne)))).
    rewrite entities_bind. f_equal. apply list_fmap_ext. intros j ne _.
    unfold entities_raw, counted_rows, DetectionClassCountRow_from_event.
    rewrite filter_fmap, <- list_fmap_compose. f_equal. unfold compose.
    erewrite (filter_ext _ (fun x => x.1 = c)) by (by intros []).
    apply list_fmap_ext. by intros k [].
  - unfold requests_of, uniq, request_total. f_equal.
    fold (requests_raw (l ≫= (fun ne => filter (fun r => dc_entity_class r = c) (counted_rows ne)))).
    rewrite requests_bind; [|done|]. 2: { intros ne r' [_ Hr']%list_elem_of_filter. by apply count_rows_spec. }
    do 2 f_equal. apply filter_ext. intros ne _. apply count_rows_class.
Qed.

(** A tally of the rows by something they say of their request is the tally
    of the requests by it. *)
Lemma tally_rows {K B} `{Countable K} `{!KeyOrder K} (key : CountRow -> K) (by_what : Recorded -> K)
    (f : K -> list CountRow -> B) (g : K -> list Recorded -> B) :
  (forall ne r, r ∈ counted_rows ne -> key r = by_what ne) ->
  (forall k l, l `sublist_of` leaking -> f k (l ≫= counted_rows) = g k l) ->
  tally key f (leaking ≫= counted_rows) = tally by_what g leaking.
Proof using Type.
  intros Hk Hf. unfold tally.
  rewrite (sort_by_unique (remove_dups (key <$> _)) (remove_dups (by_what <$> leaking))).
  - apply list_fmap_ext. intros i k _. rewrite (filter_bind _ (fun ne => by_what ne = k)).
    + apply Hf, sublist_filter.
    + intros ne r Hr. by rewrite (Hk _ _ Hr).
  - apply NoDup_Permutation; [apply NoDup_remove_dups..|]. intros k.
    rewrite !elem_of_remove_dups, !list_elem_of_fmap. split.
    + intros (r & -> & (ne & Hr & Hne)%list_elem_of_bind). exists ne. split; [by apply Hk|done].
    + intros (ne & -> & Hne). pose proof Hne as [Hd _]%list_elem_of_filter.
      destruct (counted_rows ne) as [|r rs] eqn:E.
      { destruct Hd. unfold counted_rows, DetectionClassCountRow_from_event in E. by apply fmap_nil_inv in E. }
      assert (r ∈ counted_rows ne) as Hr by (rewrite E; by left).
      exists r. split; [by rewrite (Hk _ _ Hr)|]. apply list_elem_of_bind. by exists ne.
Qed.

(** The figures over a selection of the requests that carried something. *)
Lemma figures_of_rows (l : list Recorded) : l `sublist_of` leaking ->
  entities_of (l ≫= counted_rows) = entity_total l /\ requests_of (l ≫= counted_rows) = request_total l /\
  tally dc_entity_class class_entry (l ≫= counted_rows) = class_tally l.
Proof using fresh.
  intros Hl. assert (Hn : NoDup (id_of <$> l)).
  { eapply sublist_NoDup; [exact fresh|]. apply fmap_sublist. transitivity leaking; [done|].
    transitivity seen; apply sublist_filter. }
  split; [apply entities_of_rows|]. split; [|by apply class_tally_rows].
  rewrite requests_of_rows by done. f_equal. apply filter_all, Forall_forall. intros ne Hne.
  assert (ne ∈ leaking) as [Hd _]%list_elem_of_filter; [|done].
  by eapply elem_of_sublist.
Qed.

Lemma tally_elem {K R B} `{Countable K} `{!KeyOrder K} (key : R -> K) (f : K -> list R -> B) rows b :
  b ∈ tally key f rows <-> exists k, k ∈ key <$> rows /\ b = f k (filter (fun r => key r = k) rows).
Proof using Type.
  unfold tally. rewrite list_elem_of_fmap. setoid_rewrite sort_by_perm. setoid_rewrite elem_of_remove_dups. naive_solver.
Qed.

Lemma seen_requests : uniq (Analytics.rr_request_id <$>
    scoped_events (jc_workspace_id ctx) (from * DAY) ((to + 1) * DAY) (warehouse_of (consume_all server events)))
  = request_total seen.
Proof using All.
  unfold scoped_events. rewrite consumed_warehouse by done. cbn [wh_events]. rewrite filter_fmap, <- list_fmap_compose.
  unfold uniq, request_total. do 2 f_equal. rewrite <- (length_fmap id_of seen).
  apply Permutation_length, NoDup_Permutation; [apply NoDup_remove_dups|apply seen_fresh|].
  intros x. by rewrite elem_of_remove_dups.
Qed.

(** C37: Over the rows the gateway's own writer leaves, when all of them were
    stored, requests have identifiers of their own and nothing is written while
    the report reads, the report is the tally of the workspace's requests in
    the window.  Its totals are how many there were, how many carried
    something, their entities and their distinct classes; its breakdowns, in
    the order of their keys, are by class, by destination (under the name the
    workspace's catalogue has, or in the one bucket) and by actor, the pair of
    key name and user: for each destination and actor the entities and the
    requests of its own requests that carried something, and for each class
    among them the entities and the requests it appeared in.  Counts are
    modulo 2^64. *)
Theorem report_counts_the_traffic d r d' :
  get_leak_report now wh catalogue ctx from to d = (Ok r, d') ->
  lr_totals r = {| to_requests_in_window := request_total seen;
                   to_requests_with_detections := request_total leaking;
                   to_entities_detected := entity_total leaking;
                   to_distinct_classes := uniq (leaking ≫= classes_in) |}
  /\ lr_by_class r = class_tally leaking
  /\ lr_by_model r = tally destination model_figures leaking
  /\ lr_by_actor r = tally sender_of actor_figures leaking.
Proof using All.
  intros Hr. apply report_made, made_exact with (w := warehouse_of (consume_all server events)) in Hr as [Ht Hc Hm Ha];
    [|done|rewrite seen_rows; apply rows_one_model].
  rewrite seen_rows, leaking_bind in Ht, Hc, Hm, Ha. rewrite Ht, Hc, Hm, Ha.
  destruct (figures_of_rows leaking) as (He & Hq & Hcl); [done|].
  split; [|split; [exact Hcl|split]].
  - by rewrite seen_requests, Hq, He, rows_classes.
  - apply tally_rows.
    + intros ne r' Hr'. by apply count_rows_spec in Hr' as (_ & _ & _ & -> & _).
    + intros m l (E1 & E2 & E3)%figures_of_rows. unfold model_entry. by rewrite E1, E2, E3.
  - apply tally_rows.
    + intros ne r' Hr'. by apply count_rows_actor.
    + intros a l (E1 & E2 & E3)%figures_of_rows. unfold actor_entry. by rewrite E1, E2, E3.
Qed.
End traffic.

(** ** What the report may say *)

Lemma labels_lookup l locale c : locale = $"ru" \/ locale = $"uz" ->
  labels_for l !! locale ≫= (.!! c) =
    if decide (c ∈ cl_entity_class <$> l)
    then (if decide (locale = $"ru") then fst else snd) <$> lookup_labels c else None.
Proof.
  intros Hloc. induction l as [|b l IH] using rev_ind.
  { cbn. by rewrite lookup_empty. }
  unfold labels_for in *. rewrite foldl_app, fmap_app. cbn [foldl fmap list_fmap].
  destruct (decide (cl_entity_class b = c)) as [Hc|Hc].
  - rewrite decide_True by (apply elem_of_app; right; rewrite Hc; by apply list_elem_of_singleton). rewrite Hc.
    destruct (lookup_labels c) as [[ru uz]|] eqn:E; [|etrans; [exact IH|]; by case_decide].
    unfold add_label. destruct Hloc as [-> | ->]; cbn.
    + rewrite lookup_insert_ne by done. rewrite lookup_insert_eq. cbn. by rewrite lookup_insert_eq.
    + rewrite lookup_insert_eq. cbn. by rewrite lookup_insert_eq.
  - etrans; [|etrans; [exact IH|]].
    + destruct (lookup_labels (cl_entity_class b)) as [[ru uz]|]; [|done]. unfold add_label.
      destruct Hloc as [-> | ->]; cbn.
      * rewrite lookup_insert_ne by done. rewrite lookup_insert_eq. cbn. rewrite lookup_insert_ne by done.
        destruct (foldl _ ∅ l !! _); [done|]. cbn. by rewrite lookup_empty.
      * rewrite lookup_insert_eq. cbn. rewrite lookup_insert_ne by done. rewrite lookup_insert_ne by done.
        destruct (foldl _ ∅ l !! _); [done|]. cbn. by rewrite lookup_empty.
    + apply decide_ext. rewrite elem_of_app, list_elem_of_singleton. split; [by left|]. intros [?|?]; [done|congruence].
Qed.

(** Every class the gateway counts has a label in each language, different
    from each other and from the class. *)
Lemma vocabulary_labelled :
  Forall (fun c => exists ru uz, lookup_labels c = Some (ru, uz) /\ ru <> uz /\ ru <> c /\ uz <> c) (OTHER :: CANONICAL_CLASSES).
Proof.
  assert (forallb (fun c => match lookup_labels c with
    | Some (ru, uz) => negb (bool_decide (ru = uz)) && negb (bool_decide (ru = c)) && negb (bool_decide (uz = c))
    | None => false end) (OTHER :: CANONICAL_CLASSES) = true) as H by (vm_compute; reflexivity).
  apply Forall_forall. intros c Hc. rewrite forallb_forall in H. specialize (H c).
  rewrite <- list_elem_of_In in H. specialize (H Hc). destruct (lookup_labels c) as [[ru uz]|]; [|done].
  exists ru, uz. rewrite !andb_true_iff, !negb_true_iff, !bool_decide_eq_false in H. naive_solver.
Qed.

(** A warehouse left by the consumer of some events, whatever the server
    answered it. *)
Definition written (w : Warehouse) : Prop :=
  exists server events, (forall e, e ∈ events.*2 -> counts_canonical e) /\ w = warehouse_of (consume_all server events).

Definition vocabulary (c : str) : Prop := c ∈ OTHER :: CANONICAL_CLASSES.

Lemma written_vocabulary w r : written w -> r ∈ wh_counts w -> vocabulary (dc_entity_class r).
Proof.
  intros (server & events & Hc & ->) Hr. unfold warehouse_of in Hr. cbn in Hr. unfold counts_of in Hr.
  apply list_elem_of_omap in Hr as (row & Hrow & E). destruct row; try done. injection E as ->.
  pose proof (warehouse_rows_ok server events Hc) as Hall. rewrite Forall_forall in Hall. by apply Hall in Hrow as [? _].
Qed.

Lemma class_entries_vocabulary rows b : (forall r, r ∈ rows -> vocabulary (dc_entity_class r)) ->
  b ∈ to_class <$> grouped dc_entity_class (fun c g => (c, figures g)) rows -> vocabulary (cl_entity_class b).
Proof.
  intros Hv. rewrite class_answer. intros (c & (r & -> & Hr)%list_elem_of_fmap & ->)%tally_elem. by apply Hv.
Qed.

Lemma scoped_sub ws s u w r : r ∈ scoped_counts ws s u w -> r ∈ wh_counts w.
Proof. by intros [_ Hr]%list_elem_of_filter. Qed.

(** Whatever the tables hold, a destination in the report is a name of the
    workspace's own catalogue or the fixed bucket; over rows the writer left -
    whatever the server did to it - every class in it is a word compiled into
    the gateway, and every class of the summary has its label in Russian and
    in Uzbek. *)
Theorem report_speaks_fixed_words `{SqlOrder} now wh catalogue ctx from to d r d' :
  get_leak_report now wh catalogue ctx from to d = (Ok r, d') ->
  (forall b, b ∈ lr_by_model r -> mb_model b = UNREGISTERED_MODEL \/ (jc_workspace_id ctx, mb_model b) ∈ catalogue)
  /\ ((forall n, written (wh n)) ->
      (forall b, b ∈ lr_by_class r -> vocabulary (cl_entity_class b)
        /\ exists ru uz, lr_labels r !! $"ru" ≫= (.!! cl_entity_class b) = Some ru
             /\ lr_labels r !! $"uz" ≫= (.!! cl_entity_class b) = Some uz /\ ru <> uz)
      /\ (forall m b, m ∈ lr_by_model r -> b ∈ mb_by_class m -> vocabulary (cl_entity_class b))
      /\ (forall a b, a ∈ lr_by_actor r -> b ∈ ab_by_class a -> vocabulary (cl_entity_class b))).
Proof.
  intros [_ _ _ (Hws & Ht & Hc & Hm & Ha & Hl)]%report_made. split.
  - rewrite Hm. unfold model_breakdowns. intros b ([m classes] & -> & Hk)%list_elem_of_fmap. cbn.
    apply btree_iter_elem in Hk. cbn in Hk. rewrite fold_models_lookup in Hk. case_decide as Hin; [|done].
    apply list_elem_of_fmap in Hin as (x & -> & _). unfold bound_model.
    destruct (bool_decide_reflect (x.1.1 = UNREGISTERED_MODEL)); [by left|]. cbn.
    case_bool_decide as Hreg; [right|by left]. unfold names_of in Hreg.
    apply elem_of_list_to_set, list_elem_of_fmap in Hreg as ([w k] & -> & [<- Hn]%list_elem_of_filter). done.
  - intros Hw. assert (Hv : forall n r', r' ∈ scoped_counts (jc_workspace_id ctx) (from * DAY) ((to + 1) * DAY) (wh n) ->
      vocabulary (dc_entity_class r')).
    { intros n r' Hr'%scoped_sub. by eapply written_vocabulary. }
    split_and!.
    + intros b Hb. assert (vocabulary (cl_entity_class b)) as Hvb.
      { rewrite Hc in Hb. eapply class_entries_vocabulary; [apply (Hv 2)|done]. }
      split; [done|]. rewrite Hl, !labels_lookup by auto.
      rewrite !(decide_True (P := cl_entity_class b ∈ _)) by by apply list_elem_of_fmap_2.
      pose proof vocabulary_labelled as Hlab. rewrite Forall_forall in Hlab. destruct (Hlab _ Hvb) as (ru & uz & -> & ? & _).
      exists ru, uz. split_and!; [reflexivity..|done].
    + intros m b Hin Hb. rewrite Hm in Hin. unfold model_breakdowns in Hin.
      apply list_elem_of_fmap in Hin as ([m' classes] & -> & Hk%btree_iter_elem). cbn in Hk, Hb.
      rewrite fold_models_lookup in Hk. case_decide; [|done]. injection Hk as <-.
      apply list_elem_of_fmap in Hb as ([c n] & -> & Hcn%btree_iter_elem). cbn in *.
      rewrite class_map_lookup in Hcn. case_decide as Hin; [|done]. clear Hcn.
      apply list_elem_of_fmap in Hin as (x & -> & [_ Hx]%list_elem_of_filter).
      apply (list_elem_of_fmap_2 fst), (answer_key (fun r => (dc_model r, dc_entity_class r))) in Hx.
      apply list_elem_of_fmap in Hx as (r' & -> & Hr'). by apply (Hv 3).
    + intros a b Hin Hb. rewrite Ha in Hin. unfold actor_breakdowns in Hin.
      apply list_elem_of_fmap in Hin as ([k l] & -> & Hk%btree_iter_elem). cbn in Hk, Hb.
      rewrite fold_actors_lookup in Hk. case_decide; [|done]. injection Hk as <-. unfold actor_rows in Hb.
      apply list_elem_of_fmap in Hb as (x & -> & [_ Hx]%list_elem_of_filter). cbn.
      unfold actor_query in Hx. apply list_elem_of_join in Hx as (g & Hx & Hg). rewrite any_order_perm in Hg.
      rewrite grouped_tally in Hg. apply tally_elem in Hg as (a' & _ & ->).
      rewrite grouped_tally in Hx. apply tally_elem in Hx as (c & (r' & -> & [_ Hr']%list_elem_of_filter)%list_elem_of_fmap & ->).
      cbn. by apply (Hv 4).
Qed.

(** ** Whom the report depends on *)

(** The rows of one workspace. *)
Definition own_rows (ws : Uuid) (w : Warehouse) : list CountRow * list RequestEventRow :=
  (filter (fun r => dc_workspace_id r = ws) (wh_counts w), filter (fun r => Analytics.rr_workspace_id r = ws) (wh_events w)).
Definition own_models (ws : Uuid) (catalogue : Catalogue) : Catalogue := filter (fun x => x.1 = ws) catalogue.

Lemma filter_own {A} (P Q : A -> Prop) `{forall x, Decision (P x)} `{forall x, Decision (Q x)} (l : list A) :
  (forall x, P x -> Q x) -> filter P l = filter P (filter Q l).
Proof. intros HPQ. rewrite list_filter_filter. apply filter_ext. intros x _. split; [by auto|by intros [? _]]. Qed.

Lemma scoped_own ws s u w w' : own_rows ws w = own_rows ws w' ->
  scoped_counts ws s u w = scoped_counts ws s u w' /\ scoped_events ws s u w = scoped_events ws s u w'.
Proof.
  intros [= Hc He]. unfold scoped_counts, scoped_events. split.
  - rewrite (filter_own _ (fun r => dc_workspace_id r = ws) (wh_counts w)), (filter_own _ (fun r => dc_workspace_id r = ws) (wh_counts w')), Hc; [done|..];
      unfold in_scope; intros r Hr; destruct (bool_decide_reflect (dc_workspace_id r = ws)); [done..|by destruct Hr].
  - rewrite (filter_own _ (fun r => Analytics.rr_workspace_id r = ws) (wh_events w)), (filter_own _ (fun r => Analytics.rr_workspace_id r = ws) (wh_events w')), He; [done|..];
      unfold in_scope; intros r Hr; destruct (bool_decide_reflect (Analytics.rr_workspace_id r = ws)); [done..|by destruct Hr].
Qed.

Lemma same_models c c' ws : own_models ws c = own_models ws c' ->
  same_answer (registered_models c ws) (registered_models c' ws).
Proof.
  intros Hc. unfold registered_models. apply same_bind; [by apply same_pg_io|]. intros _.
  apply same_bind; [by apply same_arm_scope|]. intros scope. apply same_bind; [by apply same_pg_io|]. intros _.
  apply same_bind; [|intros names; apply same_bind; [by apply same_pg_io|]; intros _; apply same_ret].
  intros d d' Hd. split; [|exact Hd]. unfold api_total. cbn. do 2 f_equal. unfold visible. rewrite (al_bypass _ _ Hd).
  assert (Hf : forall l : Catalogue, filter (fun '(w, _) => (d_bypass d' || bool_decide (scope = Some w)) && bool_decide (w = ws)) l
    = filter (fun '(w, _) => (d_bypass d' || bool_decide (scope = Some w)) && bool_decide (w = ws)) (own_models ws l)).
  { intros l. unfold own_models. apply filter_own. intros [w n] Hw. cbn.
    destruct (bool_decide_reflect (w = ws)); [done|]. rewrite andb_false_r in Hw. by destruct Hw. }
  by rewrite (Hf c), (Hf c'), Hc.
Qed.

Lemma same_query {A} table (a : A) : same_answer (ch_query table a) (ch_query table a).
Proof. apply same_bind; [by apply same_ch_io|]. intros _. apply same_ret. Qed.

(** C32: The report and every refusal of it are a function of the caller's own
    workspace: two deployments that agree on its rows, its models and on which
    calls fail give the same answer, whatever the other tenants did and
    whatever messages their databases have. *)
Theorem report_is_the_tenants_own `{SqlOrder} now wh wh' catalogue catalogue' ctx from to d d' :
  (forall n, own_rows (jc_workspace_id ctx) (wh n) = own_rows (jc_workspace_id ctx) (wh' n)) ->
  own_models (jc_workspace_id ctx) catalogue = own_models (jc_workspace_id ctx) catalogue' ->
  alike d d' ->
  (get_leak_report now wh catalogue ctx from to d).1 = (get_leak_report now wh' catalogue' ctx from to d').1.
Proof.
  intros Hw Hc Hd.
  cut (same_answer (get_leak_report now wh catalogue ctx from to) (get_leak_report now wh' catalogue' ctx from to)).
  { intros Hs. by apply Hs. }
  assert (Hs : forall n s u, scoped_counts (jc_workspace_id ctx) s u (wh n) = scoped_counts (jc_workspace_id ctx) s u (wh' n))
    by (intros n s u; by apply scoped_own).
  assert (He : forall n s u, scoped_events (jc_workspace_id ctx) s u (wh n) = scoped_events (jc_workspace_id ctx) s u (wh' n))
    by (intros n s u; by apply scoped_own).
  unfold get_leak_report, group_totals.
  apply same_bind; [apply same_result|]. intros _. apply same_bind; [apply same_result|]. intros _.
  apply same_bind; [apply same_result|]. intros [start until].
  unfold totals_query, denominator_query, class_query, model_query, actor_query, model_totals_query, actor_totals_query.
  rewrite !Hs, !He. repeat (apply same_bind; [apply same_query|]; intros ?).
  apply same_bind; [by apply same_models|]. intros reg. repeat (apply same_bind; [apply same_query|]; intros ?).
  apply same_ret.
Qed.

(** ** A window of three requests

    Two of workspace 1: one with a person and an address sent to a catalogued
    model, one with nothing; and one of workspace 2. *)

#[local] Existing Instance ascii_case_map.
#[local, refine] Instance stored_order : SqlOrder := {| any_order _ l := reverse l |}.
Proof. intros A l. apply reverse_Permutation. Defined.

Definition no_faults : ExportTables := {|
  t_exports := []; t_pages := []; t_raw_capture := []; t_revocations := []; t_admin := [];
  t_events := fun _ => []; t_queues := ∅; t_points := ∅; t_embed := fun _ _ => None;
  t_redis_faults := fun _ => None; t_qdrant_faults := fun _ => None |}.

(** A deployment whose connection obeys row-level security. *)
Definition pilot_db (pg ch : nat -> option str) : Db := {|
  d_workspaces := [1%N; 2%N]; d_vault := []; d_settings := ∅; d_refresh := []; d_keys := []; d_captures := [];
  d_audit := []; d_export := no_faults; d_bypass := false; d_workspaces_armed := true;
  d_stamps := fun _ => (0%N, 0%Z); d_arming := fun _ ws => Some ws; d_pg_faults := pg; d_ch_faults := ch |}.

Definition calm (_ : nat) : option str := None.

Definition pilot_event (id ws : Uuid) (model : str) (registered : bool) (ds : list Detection) : RequestEvent :=
  set_context None None (Some 70%N) None (Some $"ci") None None false FloorOnly registered
    (record_detections ds (event_new id ws $"openai" model $"redact" TokenUsage_default false
      (SpecFloat.S754_zero false) [])).

Definition pilot_events : list Recorded :=
  [(90000%Z, pilot_event 1 1 $"gpt-4o" true [cls_det $"person" $"Anna"; cls_det $"EMAIL_ADDRESS" $"a@b.c"; cls_det $"PERSON" $"Anna"]);
   (172799%Z, pilot_event 2 1 $"gpt-4o" true []);
   (100000%Z, pilot_event 3 2 $"Anna 30107030010011" false [cls_det $"PERSON" $"Boris"]);
   (172800%Z, pilot_event 4 1 $"gpt-4o" true [cls_det $"SSN" $"1"])].

Definition pilot_ctx : JwtAuthContext := {|
  jc_user_id := 70; jc_workspace_id := 1; jc_role := Admin; jc_jti := []; jc_exp := 0 |}.

Definition pilot_models : Catalogue := [(1%N, $"gpt-4o"); (2%N, $"other")].
Definition always_written (_ : nat) : WriteResult := Written.
Definition pilot_wh (_ : nat) : Warehouse := warehouse_of (consume_all always_written pilot_events).

(** The second of January 1970. *)
#[local] Abbreviation pilot_report := (get_leak_report 0%Z pilot_wh pilot_models pilot_ctx 1%Z 1%Z).
#[local] Abbreviation pilot_seen := (seen pilot_events pilot_ctx 1%Z 1%Z).
#[local] Abbreviation pilot_leaking := (leaking pilot_events pilot_ctx 1%Z 1%Z).

Lemma pilot_ok : is_ok (pilot_report (pilot_db calm calm)).1 = true.
Proof. vm_compute. reflexivity. Qed.

Lemma pilot_fresh : NoDup (id_of <$> pilot_events).
Proof. apply (bool_decide_unpack _). vm_compute. exact I. Qed.

Lemma pilot_written : forall n, always_written n = Written.
Proof. done. Qed.
Lemma pilot_quiet : forall n, pilot_wh n = warehouse_of (consume_all always_written pilot_events).
Proof. done. Qed.

Definition pilot_class (c : str) : ClassCount := {| cl_entity_class := c; cl_entities := 1; cl_requests := 1 |}.

Lemma pilot_figures :
  request_total pilot_seen = 2%N /\ request_total pilot_leaking = 1%N /\ entity_total pilot_leaking = 2%N
  /\ tally (destination pilot_models pilot_ctx) model_figures pilot_leaking
     = [{| mb_model := $"gpt-4o"; mb_entities := 2; mb_requests := 1;
           mb_by_class := [pilot_class $"EMAIL_ADDRESS"; pilot_class $"PERSON"] |}]
  /\ tally sender_of actor_figures pilot_leaking
     = [{| ab_user_id := Some 70%N; ab_api_key_name := Some $"ci"; ab_entities := 2; ab_requests := 1;
           ab_by_class := [pilot_class $"EMAIL_ADDRESS"; pilot_class $"PERSON"] |}].
Proof. vm_compute. repeat split. Qed.

Lemma report_counts_the_traffic_witness :
  exists r d', pilot_report (pilot_db calm calm) = (Ok r, d')
    /\ to_requests_in_window (lr_totals r) = 2%N /\ to_requests_with_detections (lr_totals r) = 1%N
    /\ to_entities_detected (lr_totals r) = 2%N
    /\ mb_requests <$> lr_by_model r = [1%N] /\ ab_entities <$> lr_by_actor r = [2%N].
Proof.
  destruct (is_ok_run _ _ pilot_ok) as (r & d' & Hr). exists r, d'. split; [exact Hr|].
  destruct (report_counts_the_traffic 0%Z pilot_models always_written pilot_events pilot_ctx 1%Z 1%Z pilot_wh
    pilot_written pilot_quiet pilot_fresh _ _ _ Hr) as (H1 & _ & H3 & H4).
  destruct pilot_figures as (F1 & F2 & F3 & F4 & F5). rewrite H1, H3, H4, F4, F5.
  split_and!; [exact F1|exact F2|exact F3|reflexivity|reflexivity].
Defined.

Definition some_written (n : nat) : WriteResult := if decide (n = 3) then WriteError else Written.
Definition lossy_wh (n : nat) : Warehouse := warehouse_of (consume_all some_written (take n pilot_events)).

Lemma pilot_canonical : Forall (fun e => Forall vocabulary (rq_detection_counts e).*1) pilot_events.*2.
Proof. apply (bool_decide_unpack _). vm_compute. exact I. Qed.

Lemma lossy_written n : written (lossy_wh n).
Proof.
  exists some_written, (take n pilot_events). split; [|done]. intros e (ne & -> & Hne)%list_elem_of_fmap k Hk.
  apply list_elem_of_lookup in Hne as [i [Hi _]%lookup_take_Some]. pose proof pilot_canonical as Hc.
  rewrite Forall_forall in Hc. assert (He : ne.2 ∈ pilot_events.*2)
    by (apply list_elem_of_fmap_2; by eapply list_elem_of_lookup_2).
  specialize (Hc _ He). rewrite Forall_forall in Hc. by apply Hc.
Qed.

Lemma lossy_ok : is_ok (get_leak_report 0%Z lossy_wh pilot_models pilot_ctx 1%Z 1%Z (pilot_db calm calm)).1 = true.
Proof. vm_compute. reflexivity. Qed.

Lemma report_speaks_fixed_words_witness :
  exists r d', get_leak_report 0%Z lossy_wh pilot_models pilot_ctx 1%Z 1%Z (pilot_db calm calm) = (Ok r, d')
    /\ forall b, b ∈ lr_by_class r -> vocabulary (cl_entity_class b).
Proof.
  destruct (is_ok_run _ _ lossy_ok) as (r & d' & Hr). exists r, d'. split; [exact Hr|].
  destruct (report_speaks_fixed_words 0%Z lossy_wh pilot_models pilot_ctx 1%Z 1%Z _ _ _ Hr) as [_ H].
  intros b Hb. by apply (H lossy_written).
Defined.

(** Another tenant's requests, models and error messages. *)
Definition other_tenant (_ : nat) : Warehouse :=
  warehouse_of (consume_all always_written (filter (fun ne => rq_workspace_id ne.2 = 1%N) pilot_events)).
Definition broken (message : str) (n : nat) : option str := if decide (n = 2) then Some message else None.

Lemma report_is_the_tenants_own_witness :
  (pilot_report (pilot_db calm (broken $"cannot parse 30107030010011"))).1
  = (get_leak_report 0%Z other_tenant (own_models 1 pilot_models) pilot_ctx 1%Z 1%Z (pilot_db calm (broken $"timeout"))).1.
Proof.
  apply (report_is_the_tenants_own 0%Z pilot_wh other_tenant pilot_models (own_models 1 pilot_models) pilot_ctx 1%Z 1%Z).
  - intros n. vm_compute. reflexivity.
  - vm_compute. reflexivity.
  - split; try done. intros n. cbn. unfold broken. case_decide; by rewrite ?is_Some_alt.
Defined.
