(* ===== verification/Inventory.v ===== *)
(** * The data inventory

    http/routes/dashboard/data_inventory.rs: [GET /v1/data-inventory], what the
    product stores of a workspace, how it is sealed and how long it is kept,
    with the source's own text ([++] joins the pieces of one literal).

    The handler probes the KMS and the provider key, counts the Postgres tables
    in one scoped transaction, reads the capture settings, asks ClickHouse one
    query per relation - each may fail, and none is a snapshot with the next -
    and Redis for the budget counters. *)

From S2P Require Import Prelude Rstr Json Types Analytics Providers Roles Sessions AdminTx WorkerDb QueueDrain.
From S2P Require Import ExportRoutes Limits Posture Startup Reports.

(** ** Vocabulary *)

Module AtRest.
Definition CIPHERTEXT : str := $"ciphertext".
Definition PLAINTEXT : str := $"plaintext".
Definition MIXED : str := $"mixed".
Definition HASHED : str := $"hashed".
Definition PLAIN_BY_DESIGN : str := $"plaintext_by_design".
Definition EMPTY : str := $"empty".
Definition UNKNOWN : str := $"unknown".
End AtRest.

Module Basis.
Definition WRITE_PATH : str := $"write_path_encrypt_or_fail".
Definition KMS_SELF_TEST : str := $"kms_self_test".
Definition PROVIDER_KEY_SELF_TEST : str := $"provider_key_self_test".
Definition STORED_SHAPE : str := $"stored_payload_shape".
Definition ONE_WAY_HASH : str := $"one_way_hash".
Definition AS_WRITTEN : str := $"stored_as_written".
End Basis.

Module Mechanism.
Definition CH_TTL : str := $"clickhouse_ttl".
Definition CH_TTL_AND_PURGE : str := $"clickhouse_ttl+worker_purge".
Definition WORKER_PURGE : str := $"worker_purge".
Definition REDIS_TTL : str := $"redis_ttl".
Definition SOURCE_TTL : str := $"inherits_source_ttl".
Definition NONE : str := $"none".
End Mechanism.

Module DbtDb.
Definition STAGING : str := $"secureprompt_staging".
Definition INTERMEDIATE : str := $"secureprompt_intermediate".
Definition MARTS : str := $"secureprompt_marts".
End DbtDb.

Definition CH_TTL_DETAIL : str :=
  $"ClickHouse `TTL ... DELETE`, applied by a background merge — NOT at the instant of expiry. " ++
  $"Rows past their TTL remain on disk and readable until the containing part is merged; the " ++
  $"delay is unbounded for a part that never merges. Treat the number as a policy ceiling, not " ++
  $"a deletion receipt.".

Definition CIPHERTEXT_SHAPE_CLAIM : str :=
  $"Stored payloads were compared against the envelope this deployment's KMS produces: " ++
  $"base64url (unpadded, >= 38 chars) for the file backend, a `vault:` prefix for the Vault " ++
  $"Transit backend. This DISPROVES plaintext retention — the prose, JSON and identifiers this " ++
  $"product stores all contain characters the envelope cannot — but it does NOT prove the " ++
  $"payload decrypts under the current key, and a value that is itself a long unpunctuated " ++
  $"token would pass. The row's own `encrypted` column is deliberately NOT consulted: it is " ++
  $"written by the same code path as the payload, so it can only repeat what that path believed.".

Definition KMS_PROBE : str :=
  $"secureprompt-data-inventory-kms-self-test".

Definition NO_COUNT : str :=
  $"the store did not answer, so no count is reported rather than a zero.".

(** ** Shapes *)

Definition is_some {A} (o : option A) : bool := match o with Some _ => true | None => false end.

Definition in_class (p : N -> bool) (s : str) : bool := negb (bool_decide (s = [])) && forallb (fun c => p (byte_val c)) s.

(** [^[A-Za-z0-9_-]+$] and [^[0-9a-f]+$] *)
Definition base64url_byte (b : N) : bool :=
  ((65 <=? b) && (b <=? 90) || (97 <=? b) && (b <=? 122) || (48 <=? b) && (b <=? 57) || (b =? 95) || (b =? 45))%N.
Definition hex_byte (b : N) : bool := ((48 <=? b) && (b <=? 57) || (97 <=? b) && (b <=? 102))%N.

(** The predicate [ch_sealed] and [pg_sealed] write in two dialects; a match
    of the class is ASCII, so both lengths are its bytes. *)
Definition sealed_shape (s : str) : bool :=
  in_class base64url_byte s && (38 <=? slen s)%N || starts_with s $"vault:".

(** NULL is vacuously sealed. *)
Definition ch_sealed (col : option str) : bool := match col with Some s => sealed_shape s | None => true end.
Definition pg_sealed (col : str) : bool := sealed_shape col.

(** ** Documents *)

Record Retention : Type := {
  ret_days : option Z;
  ret_window : str;
  ret_mechanism : str;
  ret_mechanism_detail : str;
}.

Definition Retention_none (detail : str) : Retention :=
  {| ret_days := None; ret_window := $"none"; ret_mechanism := Mechanism.NONE; ret_mechanism_detail := detail |}.

Definition Retention_days (days : Z) (mechanism detail : str) : Retention :=
  {| ret_days := Some days; ret_window := show_i32 days ++ $" days"; ret_mechanism := mechanism;
     ret_mechanism_detail := detail |}.

Definition Retention_bounded_by (window mechanism detail : str) : Retention :=
  {| ret_days := None; ret_window := window; ret_mechanism := mechanism; ret_mechanism_detail := detail |}.

Record ShapeVerification : Type := {
  sv_predicate : str;
  sv_rows_matching : N;
  sv_rows_not_matching : N;
}.

Record Encryption : Type := {
  en_at_rest : str;
  en_basis : list str;
  en_verification : option ShapeVerification;
  en_note : option str;
}.

Definition Encryption_plain (note : str) : Encryption :=
  {| en_at_rest := AtRest.PLAIN_BY_DESIGN; en_basis := [Basis.AS_WRITTEN]; en_verification := None; en_note := Some note |}.

(** [saturating_sub] *)
Definition Encryption_sealed (predicate : str) (total matching : N) (note : option str) : Encryption :=
  let not_matching := (total - matching)%N in
  let verdict :=
    if (total =? 0)%N then AtRest.EMPTY
    else if (not_matching =? 0)%N then AtRest.CIPHERTEXT
    else if (matching =? 0)%N then AtRest.PLAINTEXT
    else AtRest.MIXED in
  {| en_at_rest := verdict; en_basis := [Basis.WRITE_PATH; Basis.KMS_SELF_TEST; Basis.STORED_SHAPE];
     en_verification := Some {| sv_predicate := predicate; sv_rows_matching := matching; sv_rows_not_matching := not_matching |};
     en_note := note |}.

Definition Encryption_hashed (predicate : str) (total matching : N) (note : str) : Encryption :=
  let not_matching := (total - matching)%N in
  let verdict :=
    if (total =? 0)%N then AtRest.EMPTY
    else if (not_matching =? 0)%N then AtRest.HASHED
    else AtRest.MIXED in
  {| en_at_rest := verdict; en_basis := [Basis.ONE_WAY_HASH; Basis.STORED_SHAPE];
     en_verification := Some {| sv_predicate := predicate; sv_rows_matching := matching; sv_rows_not_matching := not_matching |};
     en_note := Some note |}.

Record GovernedBy : Type := { gb_endpoint : str; gb_field : str; gb_role_required : str; gb_audit_table : str }.

Record ArtifactClass : Type := {
  art_class : str;
  art_store : str;
  art_location : str;
  art_description : str;
  art_sensitivity : str;
  art_row_count : option N;
  art_row_count_status : str;
  art_row_count_detail : option str;
  art_encryption : Encryption;
  art_retention : Retention;
  art_governed_by : option GovernedBy;
  art_enabled : option bool;
}.

Record UnenumerableClass : Type := {
  un_class : str;
  un_store : str;
  un_location : str;
  un_description : str;
  un_reason : str;
  un_per_workspace_erasure : str;
  un_row_count : option N;
  un_encryption : Encryption;
  un_retention : Retention;
}.

Record EncryptionBasis : Type := {
  eb_kms_backend : str;
  eb_kms_self_test : str;
  eb_kms_self_test_detail : str;
  eb_provider_key_self_test : str;
  eb_provider_key_self_test_detail : str;
  eb_ciphertext_shape_claim : str;
}.

Record DataInventoryResponse : Type := {
  di_schema_version : N;
  di_workspace_id : Uuid;
  di_generated_at : DateTime;
  di_encryption_basis : EncryptionBasis;
  di_artifacts : list ArtifactClass;
  di_not_enumerable : list UnenumerableClass;
  di_caveats : list str;
}.

(** ** Failures, without the store's words *)

Definition unavailable (table consequence error : str) : str :=
    consequence ++ $" Reading `" ++ table ++ $"` failed. The store's own error message is in the gateway log, not in this response, " ++
    $"because a database exception quotes the statement that provoked it — schema, " ++
    $"identifiers, and for some error classes the value it choked on.".

Definition probe_failed (probe consequence : str) (error : str) : str :=
    consequence ++ $" The backend's own error message is in the gateway log, not in this response, because " ++
    $"an encryption backend builds its errors out of what it was configured with — a key " ++
    $"file, a vault endpoint, or the offending character of a key it could not parse. Treat " ++
    $"every `ciphertext` verdict resting on `" ++
    probe ++ $"` as UNVERIFIED until the log is read.".

Definition counted (table : str) (result : N + str) : option N * str * option str :=
  match result with
  | inl n => (Some n, $"counted", None)
  | inr e => (None, $"unavailable", Some (unavailable table NO_COUNT e))
  end.

Definition pg_err (stage : str) (e : str) : ApiError :=
  Database (
    $"the data inventory could not be produced: this workspace's Postgres counts could not be " ++
    $"read. The store's own error message is in the gateway log, not in this response, " ++
    $"because a database error quotes the statement that provoked it and, for cast and " ++
    $"constraint failures, the value it choked on. No partial inventory is returned — an " ++
    $"inventory missing its Postgres half reports every Postgres class as absent, which is " ++
    $"the false assurance this endpoint exists to prevent.").

Definition scope_err (e : ApiError) : ApiError :=
  match e with
  | Internal m => Internal m
  | _ => Database (
    $"the data inventory could not be produced: this workspace's tenancy scope could not be " ++
    $"armed, so every Postgres count would have been taken under a row-level-security policy " ++
    $"that admits nothing. No partial inventory is returned.")
  end.

(** ** ClickHouse *)

(** A row of a relation: its workspace and, where the relation has them, its
    content columns. *)
Record ChRow : Type := {
  ch_workspace : Uuid;
  ch_raw_prompt : option str;
  ch_raw_response : option str;
  ch_restored_response : option str;
}.

(** The relations that exist, and what the server says of one that does not. *)
Record ClickHouse : Type := { ch_relations : gmap str (list ChRow); ch_unknown : str -> str }.

Record ShapeCount : Type := { sc_total : N; sc_with_payload : N; sc_matching : N }.

Definition own (ws : Uuid) (rows : list ChRow) : list ChRow := filter (fun r => ch_workspace r = ws) rows.
Definition count_if (p : ChRow -> bool) (rows : list ChRow) : N := N.of_nat (length (filter p rows)).

Definition has_payload (r : ChRow) : bool :=
  is_some (ch_raw_prompt r) || is_some (ch_raw_response r) || is_some (ch_restored_response r).
Definition row_sealed (r : ChRow) : bool :=
  ch_sealed (ch_raw_prompt r) && ch_sealed (ch_raw_response r) && ch_sealed (ch_restored_response r).

(** A query on one relation that answers or fails with a message. *)
Definition ch_ask {A} (table : str) (f : list ChRow -> A) (ch : ClickHouse) : Api (A + str) := fun d =>
  match ch_io d with
  | (inr e, d') => (Ok (inr e), d')
  | (inl _, d') =>
      (Ok (match ch_relations ch !! table with Some rows => inl (f rows) | None => inr (ch_unknown ch table) end), d')
  end.

Definition ch_count (table : str) (ws : Uuid) (ch : ClickHouse) : Api (N + str) :=
  ch_ask table (fun rows => count_if (fun _ => true) (own ws rows)) ch.

Definition ch_capture_shape (ws : Uuid) (ch : ClickHouse) : Api (ShapeCount + str) :=
  ch_ask $"request_content_captures" (fun rows =>
    {| sc_total := count_if (fun _ => true) (own ws rows); sc_with_payload := count_if has_payload (own ws rows);
       sc_matching := count_if (fun r => has_payload r && row_sealed r) (own ws rows) |}) ch.

Definition ch_legacy (ws : Uuid) (ch : ClickHouse) : Api (N + str) :=
  ch_ask $"request_events" (fun rows => count_if has_payload (own ws rows)) ch.

(** ** Postgres *)

Record PgUser : Type := { pu_id : Uuid; pu_workspace_id : Uuid; pu_password_hash : str; pu_totp : option str }.
Record PgToken : Type := {
  pk_workspace_id : Uuid; pk_token_hash : str; pk_client_ip : option str; pk_client_descriptor : option str }.

(** The columns the counts read; a table of which only the rows are counted is
    the list of their workspaces. *)
Record PgTables : Type := {
  tb_workspaces : list Uuid;
  tb_users : list PgUser;
  tb_api_keys : list (Uuid * str);
  tb_providers : list (Uuid * option str);
  tb_models : list Uuid;
  tb_policy_rules : list Uuid;
  tb_audit_events_meta : list Uuid;
  tb_refresh_tokens : list PgToken;
  tb_workspace_budgets : list Uuid;
  tb_token_vault_entries : list (Uuid * str);
  tb_workspace_secure_mode : list Uuid;
  tb_user_backup_codes : list (Uuid * str);   (* the user, the hash *)
  tb_workspace_sidecar_policy : list Uuid;
  tb_workspace_raw_capture : gmap Uuid RawCaptureSettings;
  tb_raw_capture_audit : list Uuid;
  tb_retention_purge_audit : list (option Uuid);
  tb_audit_exports : list Uuid;
  tb_audit_export_pages : list Uuid;
  tb_session_revocation_audit : list Uuid;
  tb_admin_audit : list Uuid;
}.

(** [count( * ) ... WHERE workspace_id = $1 AND p]; a table under row-level
    security shows the rows of the scope only. *)
Definition count_where {R} (policed : bool) (scope : option Uuid) (d : Db) (ws : Uuid)
    (workspace_of : R -> Uuid) (p : R -> bool) (rows : list R) : Z :=
  Z.of_nat (length (filter (fun r =>
    (negb policed || visible scope (workspace_of r) d) && bool_decide (workspace_of r = ws) && p r) rows)).

Definition argon2_hash (h : str) : bool := starts_with h $"$argon2".
Definition sha256_hash (h : str) : bool := in_class hex_byte h && (slen h =? 64)%N.
Definition opt_sealed (c : option str) : bool := match c with Some c => pg_sealed c | None => false end.

(** The join of the codes with their users. *)
Definition codes_of (ws : Uuid) (t : PgTables) : list str :=
  tb_user_backup_codes t ≫= (fun '(user, hash) =>
    const hash <$> filter (fun u => bool_decide (pu_id u = user) && bool_decide (pu_workspace_id u = ws)) (tb_users t)).

(** The one row of the statement: its columns by name. *)
Definition PgCounts : Type := list (str * Z).

Definition pg_counts (scope : option Uuid) (d : Db) (ws : Uuid) (t : PgTables) : PgCounts :=
  let open {R} := @count_where R false scope d ws in
  let policed {R} := @count_where R true scope d ws in
  let any {R} (_ : R) := true in
  [($"c_workspaces", open id any (tb_workspaces t));
   ($"c_users", open pu_workspace_id any (tb_users t));
   ($"v_users", open pu_workspace_id (fun u => argon2_hash (pu_password_hash u)) (tb_users t));
   ($"c_users_totp", open pu_workspace_id (fun u => is_some (pu_totp u)) (tb_users t));
   ($"c_api_keys", policed fst any (tb_api_keys t));
   ($"v_api_keys", policed fst (fun k => sha256_hash k.2) (tb_api_keys t));
   ($"c_providers", policed fst any (tb_providers t));
   ($"c_providers_cred", policed fst (fun p => is_some p.2) (tb_providers t));
   ($"v_providers", policed fst (fun p => is_some p.2 && opt_sealed p.2) (tb_providers t));
   ($"c_models", policed id any (tb_models t));
   ($"c_policy_rules", policed id any (tb_policy_rules t));
   ($"c_audit_events_meta", policed id any (tb_audit_events_meta t));
   ($"c_refresh_tokens", policed pk_workspace_id any (tb_refresh_tokens t));
   ($"v_refresh_tokens", policed pk_workspace_id (fun k => sha256_hash (pk_token_hash k)) (tb_refresh_tokens t));
   ($"c_session_device_context",
     policed pk_workspace_id (fun k => is_some (pk_client_ip k) || is_some (pk_client_descriptor k)) (tb_refresh_tokens t));
   ($"c_workspace_budgets", policed id any (tb_workspace_budgets t));
   ($"c_token_vault_entries", open fst any (tb_token_vault_entries t));
   ($"v_token_vault_entries", open fst (fun e => pg_sealed e.2) (tb_token_vault_entries t));
   ($"c_workspace_secure_mode", policed id any (tb_workspace_secure_mode t));
   ($"c_user_backup_codes", Z.of_nat (length (codes_of ws t)));
   ($"v_user_backup_codes", Z.of_nat (length (filter argon2_hash (codes_of ws t))));
   ($"c_workspace_sidecar_policy", policed id any (tb_workspace_sidecar_policy t));
   ($"c_workspace_raw_capture", policed fst any (map_to_list (tb_workspace_raw_capture t)));
   ($"c_raw_capture_audit", policed id any (tb_raw_capture_audit t));
   ($"c_retention_purge_audit", policed id any (omap id (tb_retention_purge_audit t)));
   ($"c_audit_exports", policed id any (tb_audit_exports t));
   ($"c_audit_export_pages", policed id any (tb_audit_export_pages t));
   ($"c_session_revocation_audit", policed id any (tb_session_revocation_audit t));
   ($"c_admin_audit", policed id any (tb_admin_audit t))].

(** A column that is not there, or not a count, reads as zero. *)
Definition pg_n (row : PgCounts) (column : str) : N :=
  Z.to_N (default 0%Z (snd <$> List.find (fun kv => bool_decide (kv.1 = column)) row)).

Definition postgres_counts (t : PgTables) (ws : Uuid) : Api PgCounts :=
  or_err (pg_err $"begin") pg_io;;
  scope ← map_err scope_err (Scope.arm_scope ws);
  or_err (pg_err $"counts") pg_io;;
  row ← api_total (fun d => (pg_counts scope d ws t, d));
  or_err (pg_err $"commit") pg_io;;
  mret row.

(** [RawCaptureRepository::get] and [get_effective] *)
Definition raw_capture_get (t : PgTables) (ws : Uuid) : Api (option RawCaptureSettings) :=
  scope ← Scope.begin_scoped ws;
  or_err Database pg_io;;
  row ← api_total (fun d => ((if visible scope ws d then tb_workspace_raw_capture t !! ws else None), d));
  or_err Database pg_io;;
  mret row.

Definition raw_capture_get_effective (t : PgTables) (ws : Uuid) : Api RawCaptureSettings :=
  row ← raw_capture_get t ws;
  mret (default RawCaptureSettings_default row).

(** ** The classes *)

Definition art_request_events (ch_db : str) (events legacy : N + str) : ArtifactClass :=
  let '(row_count, row_count_status, row_count_detail) := counted $"request_events" events in
  let legacy_note :=
    match legacy with
    | inl 0%N =>
      $"No row for this workspace carries a legacy plaintext content column. `redacted_prompt` " ++
      $"holds placeholder-safe text and is NULL whenever NER coverage was lost (WS2-6), so it " ++
      $"is not a plaintext channel."
    | inl n => show_N n ++
      $" row(s) for this workspace still carry PLAINTEXT content in the `raw_prompt` / " ++
      $"`raw_response` / `restored_response` columns that migrations 004 and 005 put on this " ++
      $"table. They were written before WS3-1 made capture opt-in; the writer now always sends " ++
      $"NULL. They are deleted by this table's 90-day TTL and by nothing else."
    | inr e => unavailable
        ($"request_events (legacy plaintext column scan)")
        ($"the legacy-plaintext column scan did not complete, so this class's plaintext exposure " ++
        $"is UNKNOWN rather than zero.") e
    end in
  {|
    art_class := $"request_events";
    art_store := $"clickhouse";
    art_location :=
      ch_db ++
      $".request_events";
    art_description :=
      $"One analytics row per gateway request: provider, model, action, token counts, cost, " ++
      $"actor, client IP and user agent, plus the placeholder-safe `redacted_prompt`.";
    art_sensitivity := $"derived_metadata";
    art_row_count := row_count;
    art_row_count_status := row_count_status;
    art_row_count_detail := row_count_detail;
    art_encryption := {|
        en_at_rest := AtRest.PLAIN_BY_DESIGN;
        en_basis := [Basis.AS_WRITTEN];
        en_verification := None;
        en_note := Some legacy_note |};
    art_retention :=
      Retention_days (90%Z)
        Mechanism.CH_TTL
        CH_TTL_DETAIL;
    art_governed_by := None;
    art_enabled := None |}.

Definition captures_encryption (captures : ShapeCount + str) : Encryption :=
  match captures with
  | inl c =>
      let total := sc_total c in
      let with_payload := sc_with_payload c in
      Encryption_sealed (
          $"of " ++
          show_N total ++
          $" row(s), the " ++
          show_N with_payload ++
          $" carrying at least one content column were checked: every non-NULL raw_prompt / " ++
          $"raw_response / restored_response matches the deployment's KMS envelope. Rows with no " ++
          $"content column at all are NOT counted as evidence — there is nothing on them to verify.")
        with_payload (sc_matching c) (Some CIPHERTEXT_SHAPE_CLAIM)
  | inr _ =>
      {| en_at_rest := AtRest.UNKNOWN; en_basis := [Basis.WRITE_PATH]; en_verification := None;
         en_note := Some (
          $"the store did not answer, so the bytes on disk were not inspected and no encryption " ++
          $"verdict is claimed. This is NOT a statement that the class is empty: whether anything " ++
          $"is stored is unknown on this response — see `row_count_status`.") |}
  end.

Definition art_request_content_captures (ch_db : str) (capture_settings : RawCaptureSettings)
    (captures : ShapeCount + str) : ArtifactClass :=
  let '(captures_row_count, status, detail) :=
    match captures with
    | inl c => (Some (sc_total c), $"counted", None)
    | inr e => (None, $"unavailable", Some (unavailable $"request_content_captures" NO_COUNT e))
    end in
  let encryption := captures_encryption captures in
  {|
    art_class := $"request_content_captures";
    art_store := $"clickhouse";
    art_location :=
      ch_db ++
      $".request_content_captures";
    art_description :=
      $"OPT-IN capture of the raw user message, the raw upstream response and the PII-restored " ++
      $"response. This is the only store in the product that holds un-redacted request content, " ++
      $"and it is OFF for every workspace that has not explicitly enabled it.";
    art_sensitivity := $"user_content";
    art_row_count := captures_row_count;
    art_row_count_status := status;
    art_row_count_detail := detail;
    art_encryption := encryption;
    art_retention :=
      Retention_days (rw_retention_days capture_settings)
        Mechanism.CH_TTL_AND_PURGE
        ($"Two mechanisms. (1) " ++
         CH_TTL_DETAIL ++
         $" `expires_at` is stamped at INSERT from the workspace's retention at that moment, so " ++
         $"LOWERING retention does not shorten rows already on disk. (2) The worker's " ++
         $"`retention.purge` job (daily 04:00) re-derives the boundary from the CURRENT setting " ++
         $"and issues an explicit DELETE, which is what makes a lowered window take effect; it " ++
         $"writes a `retention_purge_audit` row per run per workspace, including a recount after " ++
         $"deleting.");
    art_governed_by :=
      Some ({|
              gb_endpoint := $"PUT /v1/secure-mode";
              gb_field := $"capture_raw_content";
              gb_role_required := $"admin";
              gb_audit_table := $"raw_capture_audit" |});
    art_enabled := Some (rw_enabled capture_settings) |}.

Definition events_extra (class : str) : option str :=
  if bool_decide (class = $"token_usage") then Some (
        $"SummingMergeTree: `count()` is the number of PARTS rows currently on disk, which is >= " ++
        $"the number of logical (workspace, model, date) keys until a merge collapses them.")
  else if bool_decide (class = $"detection_class_counts") then Some (
        $"Rows are written ONLY when something was detected, so `count()` here is a count of " ++
        $"(request, class) pairs and NOT a request count. `api_key_name` is operator-chosen free " ++
        $"text copied from request_events and may name a person — it is not detected PII, but it " ++
        $"is personal data for an erasure request. The 90-day window is deliberately identical to " ++
        $"request_events': this table is derived from the same requests, so it must not outlive " ++
        $"them the way the mv_* aggregates and the dbt marts below do.")
  else None.

Definition art_event_table (ch_db : str) (table : str * str * (N + str) * Z) : ArtifactClass :=
  let '(class, description, result, days) := table in
  let '(row_count, row_count_status, row_count_detail) := counted class result in
  let extra := events_extra class in
  {|
    art_class := class;
    art_store := $"clickhouse";
    art_location :=
      ch_db ++
      $"." ++
      class;
    art_description := description;
    art_sensitivity := $"derived_metadata";
    art_row_count := row_count;
    art_row_count_status := row_count_status;
    art_row_count_detail := row_count_detail;
    art_encryption := {|
        en_at_rest := AtRest.PLAIN_BY_DESIGN;
        en_basis := [Basis.AS_WRITTEN];
        en_verification := None;
        en_note := extra |};
    art_retention :=
      Retention_days days
        Mechanism.CH_TTL
        CH_TTL_DETAIL;
    art_governed_by := None;
    art_enabled := None |}.

Definition event_tables (ch_policy_events ch_token_usage ch_latency_samples ch_detection_counts : N + str)
  : list (str * str * (N + str) * Z) := [
    ($"policy_events",
     $"One row per policy rule that matched a request: rule id, rule name, action, dry-run " ++
     $"flag. No request content.",
     ch_policy_events,
     90%Z);
    ($"token_usage",
     $"Per workspace / model / day token and cost totals.",
     ch_token_usage,
     365%Z);
    ($"latency_samples",
     $"Per-request latency and time-to-first-byte measurements.",
     ch_latency_samples,
     30%Z);
    ($"detection_class_counts",
     $"WS3-6, the shadow-mode leak report's source. One row per request per ENTITY CLASS: how " ++
     $"many distinct entities of that class the detection pass found, plus the destination " ++
     $"model and the actor (user id, API key name) already recorded on request_events. NO " ++
     $"DETECTED VALUE IS STORED — `entity_class` can only ever hold one of the class-name " ++
     $"string literals compiled into the gateway, or the literal `other`, because a class " ++
     $"arriving from the ML sidecar is mapped through an allowlist before it is written.",
     ch_detection_counts,
     90%Z)].

Definition art_aggregate (ch_db : str) (table : str * str * (N + str)) : ArtifactClass :=
  let '(class, description, result) := table in
  let '(row_count, row_count_status, row_count_detail) := counted class result in
  {|
    art_class := class;
    art_store := $"clickhouse";
    art_location :=
      ch_db ++
      $"." ++
      class;
    art_description := description;
    art_sensitivity := $"derived_metadata";
    art_row_count := row_count;
    art_row_count_status := row_count_status;
    art_row_count_detail := row_count_detail;
    art_encryption :=
      Encryption_plain
        ($"Aggregate state only — sums and quantile sketches keyed by workspace, model and hour. " ++
         $"No request content, no identifier.");
    art_retention :=
      Retention_none
        ($"NO TTL. `001_analytics_schema.sql` gives these two aggregate tables no TTL clause, so " ++
         $"the hourly cost and latency shape of a workspace's traffic OUTLIVES the 90-day and " ++
         $"30-day windows on the source tables and is kept indefinitely. They contain no content " ++
         $"and no identifier, but an auditor asking 'is everything gone after 90 days' must be " ++
         $"told these are not.");
    art_governed_by := None;
    art_enabled := None |}.

Definition aggregate_tables (ch_hourly_cost ch_p95_latency : N + str) : list (str * str * (N + str)) := [
    ($"mv_hourly_cost_agg",
     $"Materialized-view target: hourly cost aggregate per workspace and model, maintained by " ++
     $"`mv_hourly_cost` on every insert into request_events.",
     ch_hourly_cost);
    ($"mv_p95_latency_agg",
     $"Materialized-view target: hourly p95 latency aggregate per workspace and model, " ++
     $"maintained by `mv_p95_latency` on every insert into latency_samples.",
     ch_p95_latency)].

(** A dbt relation by its database and name. *)
Definition relation (db class : str) : str := db ++ $"." ++ class.

Definition staging_models : list (str * str * str) := [
    ($"stg_request_events",
     $"request_events",
     $"dbt staging model: a VIEW, 1:1 with `request_events`, coalescing the nullable token " ++
     $"columns to 0 for the layers above. It selects no content column — not " ++
     $"`redacted_prompt`, not the legacy raw columns.");
    ($"stg_policy_events",
     $"policy_events",
     $"dbt staging model: a VIEW, 1:1 with `policy_events`. Rule id, rule name, action, " ++
     $"dry-run flag.")].

Definition art_staging (model : str * str * str) (result : N + str) : ArtifactClass :=
  let '(class, source, description) := model in
  let '(row_count, row_count_status, row_count_detail) := counted (relation DbtDb.STAGING class) result in
  {|
    art_class := class;
    art_store := $"clickhouse";
    art_location :=
      DbtDb.STAGING ++
      $"." ++
      class;
    art_description := description;
    art_sensitivity := $"derived_metadata";
    art_row_count := row_count;
    art_row_count_status := row_count_status;
    art_row_count_detail := row_count_detail;
    art_encryption :=
      Encryption_plain
        ($"A VIEW has no bytes of its own — it is a saved query, so the count above is the SOURCE " ++
         $"table's rows seen through it, not a second copy. " ++
         $"`secureprompt-analytics/dbt_project.yml` materialises the staging layer as `view`.");
    art_retention := {|
        ret_days := Some (90%Z);
        ret_window := $"90 days";
        ret_mechanism := Mechanism.SOURCE_TTL;
        ret_mechanism_detail :=
          $"Nothing deletes rows HERE, and nothing needs to: a view shows whatever `" ++
          source ++
          $"` currently holds, so a row leaves it at the moment that table's 90-day TTL removes it. " ++
          CH_TTL_DETAIL ++
          $" This is reported as an inherited window rather than as `none` because `none` would " ++
          $"read as an indefinite copy, which a view is not." |};
    art_governed_by := None;
    art_enabled := None |}.

Definition art_int_requests_enriched (result : N + str) : ArtifactClass :=
  let '(row_count, row_count_status, row_count_detail) :=
    counted (relation DbtDb.INTERMEDIATE $"int_requests_enriched") result in
  {|
    art_class := $"int_requests_enriched";
    art_store := $"clickhouse";
    art_location :=
      DbtDb.INTERMEDIATE ++
      $".int_requests_enriched";
    art_description :=
      $"dbt intermediate model: ONE ROW PER GATEWAY REQUEST, copied out of `request_events` " ++
      $"with the usage date and hour precomputed. Unlike the marts below it is NOT an aggregate " ++
      $"— request_id, workspace_id, provider, model, final action, every token count and the " ++
      $"cost are carried per request.";
    art_sensitivity := $"derived_metadata";
    art_row_count := row_count;
    art_row_count_status := row_count_status;
    art_row_count_detail := row_count_detail;
    art_encryption :=
      Encryption_plain
        ($"Stored as written, and it carries `model` as the CALLER supplied it: `resolve_model` " ++
         $"passes an uncatalogued model name through to the provider verbatim, and " ++
         $"`request_events` records that raw string, so this copy holds it too. The leak report's " ++
         $"own `model` column is bounded to registered names (see `detection_class_counts`); this " ++
         $"one is not, because per-model cost for a passthrough workspace depends on the raw name. " ++
         $"No prompt or response content is selected into this model.");
    art_retention :=
      Retention_none
        ($"NO TTL — `materialized='table'`, `MergeTree()`, no TTL clause " ++
         $"(secureprompt-analytics/models/intermediate/int_requests_enriched.sql). This is the " ++
         $"sharpest retention gap in the inventory, because the copy is PER REQUEST rather than " ++
         $"aggregated: once `request_events`' 90-day TTL has removed the source rows, a row-level " ++
         $"record of every request this workspace made survives here. It is replaced wholesale by " ++
         $"the next `dbt build`, which rebuilds it from whatever `request_events` still holds — so " ++
         $"a deployment that stops running dbt keeps the old rows indefinitely, and nothing in " ++
         $"this product schedules a build.");
    art_governed_by := None;
    art_enabled := None |}.

Definition mart_models : list (str * str) := [
    ($"mart_usage_daily",
     $"dbt mart: daily token and cost totals per workspace and model.");
    ($"mart_cost_by_model",
     $"dbt mart: daily cost per model with 7-day and 30-day rolling windows.");
    ($"mart_policy_violations",
     $"dbt mart: policy violation counts per rule and day.");
    ($"mart_latency_pctiles",
     $"dbt mart: latency and TTFT percentiles per model and day.")].

Definition art_mart (model : str * str) (result : N + str) : ArtifactClass :=
  let '(class, description) := model in
  let '(row_count, row_count_status, row_count_detail) := counted (relation DbtDb.MARTS class) result in
  {|
    art_class := class;
    art_store := $"clickhouse";
    art_location :=
      DbtDb.MARTS ++
      $"." ++
      class;
    art_description := description;
    art_sensitivity := $"derived_metadata";
    art_row_count := row_count;
    art_row_count_status := row_count_status;
    art_row_count_detail := row_count_detail;
    art_encryption := Encryption_plain $"Aggregate rows only. No request content.";
    art_retention :=
      Retention_none
        ($"NO TTL. dbt materialises these as plain MergeTree tables with no TTL clause (see " ++
         $"secureprompt-analytics/models/marts/*.sql), and a full rebuild replaces rather than " ++
         $"expires. Aggregates therefore survive the expiry of the raw rows they were derived from.");
    art_governed_by := None;
    art_enabled := None |}.

Definition art_token_vault_entries (pg : PgCounts) : ArtifactClass := {|
    art_class := $"token_vault_entries";
    art_store := $"postgres";
    art_location := $"token_vault_entries";
    art_description :=
      $"Placeholder → original mappings produced by POST /v1/secure-mode/tokenize, so the " ++
      $"caller can later detokenize. The originals are the un-redacted PII the caller asked " ++
      $"SecurePrompt to protect.";
    art_sensitivity := $"user_content";
    art_row_count := Some (pg_n pg $"c_token_vault_entries");
    art_row_count_status := $"counted";
    art_row_count_detail := None;
    art_encryption :=
      Encryption_sealed $"mapping_ciphertext matches the deployment's KMS envelope"
        (pg_n pg $"c_token_vault_entries")
        (pg_n pg $"v_token_vault_entries")
        (Some CIPHERTEXT_SHAPE_CLAIM);
    art_retention :=
      Retention_days (1%Z)
        Mechanism.WORKER_PURGE
        ($"`expires_at` defaults to NOW() + 24 hours (migration 008) and the read path filters on " ++
         $"it, so an expired entry stops resolving immediately. The ROWS are deleted by the " ++
         $"worker's `retention.purge` job (daily 04:00), which writes a `retention_purge_audit` " ++
         $"record with the cutoff, the deleted range, and a recount taken after the delete — read " ++
         $"that class's note for what the recount does and does not establish. Before WS3-4 that " ++
         $"job was a no-op stub and these rows accumulated forever.");
    art_governed_by := None;
    art_enabled := None |}.

Definition users_encryption (pg : PgCounts) : Encryption :=
  let enc := Encryption_hashed
      ($"password_hash begins with an Argon2 identifier") (pg_n pg $"c_users") (pg_n pg $"v_users") [] in
  {| en_at_rest := if (0 <? pg_n pg $"c_users")%N then AtRest.MIXED else en_at_rest enc;
     en_basis := [Basis.ONE_WAY_HASH; Basis.WRITE_PATH; Basis.KMS_SELF_TEST; Basis.STORED_SHAPE];
     en_verification := en_verification enc;
     en_note := Some (
      $"Three states in one table. `password_hash` is Argon2id (one-way, verified above). " ++
      $"`totp_secret_encrypted` is KMS ciphertext — " ++
      show_N (pg_n pg $"c_users_totp") ++ $" of " ++
      show_N (pg_n pg $"c_users") ++ $" rows currently hold one. `email`, `first_name`, `last_name`, `position` and " ++
      $"`device_mac` are stored in the clear; they are directory data, not secrets, but they " ++
      $"ARE personal data for a GDPR/erasure request.") |}.

Definition art_users (pg : PgCounts) : ArtifactClass :=
  let enc := users_encryption pg in
  {|
    art_class := $"users";
    art_store := $"postgres";
    art_location := $"users";
    art_description :=
      $"Workspace members: email, name, position, role, password hash, TOTP enrolment state, " ++
      $"device MAC.";
    art_sensitivity := $"credential_material";
    art_row_count := Some (pg_n pg $"c_users");
    art_row_count_status := $"counted";
    art_row_count_detail := None;
    art_encryption := enc;
    art_retention :=
      Retention_none
        ($"Rows live until the account is deleted. Deleting a workspace cascades to its users; " ++
         $"there is no time-based expiry and none is intended.");
    art_governed_by := None;
    art_enabled := None |}.

Definition art_refresh_tokens (pg : PgCounts) : ArtifactClass := {|
    art_class := $"refresh_tokens";
    art_store := $"postgres";
    art_location := $"refresh_tokens";
    art_description :=
      $"One row per refresh token ever issued to a member of this workspace, including rotated " ++
      $"and revoked predecessors.";
    art_sensitivity := $"credential_material";
    art_row_count := Some (pg_n pg $"c_refresh_tokens");
    art_row_count_status := $"counted";
    art_row_count_detail := None;
    art_encryption :=
      Encryption_hashed $"token_hash is 64 lowercase hex characters (SHA-256)"
        (pg_n pg $"c_refresh_tokens")
        (pg_n pg $"v_refresh_tokens")
        ($"SHA-256 rather than Argon2 by design: the refresh path looks this value up on every " ++
         $"/v1/auth/refresh and a memory-hard hash there is a self-inflicted denial of service. " ++
         $"The stored value is not reversible.");
    art_retention :=
      Retention_none
        ($"NOTHING DELETES THESE ROWS. `expires_at` and `revoked_at` are honoured at READ time, so " ++
         $"an expired or rotated token stops working — but the row itself is kept forever, one per " ++
         $"refresh per user, and `retention.purge` does not delete from this table. Reported as " ++
         $"`none` deliberately: `expires_at` is a validity check, not a deletion, and presenting " ++
         $"it as a retention window would be a false assurance. The `session_device_context` class " ++
         $"below covers the FU4 columns on these same rows, which ARE erased on a schedule — the " ++
         $"rows are not.");
    art_governed_by := None;
    art_enabled := None |}.

Definition art_session_device_context (pg : PgCounts) : ArtifactClass := {|
    art_class := $"session_device_context";
    art_store := $"postgres";
    art_location := $"refresh_tokens.client_ip + refresh_tokens.client_descriptor";
    art_description :=
      $"The device that opened each session: the IP address as seen at sign-in, and a coarse " ++
      $"client descriptor. Recorded once per session, on the sign-in row only — never " ++
      $"re-recorded when the token rotates.";
    art_sensitivity := $"personal_data";
    art_row_count := Some (pg_n pg $"c_session_device_context");
    art_row_count_status := $"counted";
    art_row_count_detail := None;
    art_encryption :=
      Encryption_plain
        ($"Stored in the clear, and bounded rather than verbatim. The raw `User-Agent` is NOT " ++
         $"kept: it is reduced to `{browser} on {os}` drawn from a closed vocabulary, so no byte " ++
         $"of that header reaches this column and the version/build detail that makes a User-Agent " ++
         $"a fingerprint is discarded. `client_ip` is written only when the value parses as an IP " ++
         $"address, and is re-rendered from the parse. CHECK constraints on the table bound both " ++
         $"independently of the code.");
    art_retention :=
      Retention_bounded_by $"until the session ends, then the next purge run"
        Mechanism.WORKER_PURGE
        ($"`retention.purge`, scope `refresh_tokens.device_context`, daily at 04:00. It SCRUBS " ++
         $"these two columns to NULL on every session with no live refresh row left — it does not " ++
         $"delete the row, because a deleted row would make a replayed refresh token " ++
         $"indistinguishable from one that never existed and would silently disable replay " ++
         $"detection. The upper bound on how long an address is held is therefore the " ++
         $"refresh-token lifetime (default 30 days) from the session's last use, plus up to 24h " ++
         $"until the next run. The decision is made per rotation CHAIN, not per row. The scrub " ++
         $"runs once per workspace inside a transaction scoped to that workspace, so this " ++
         $"workspace's run leaves a `retention_purge_audit` row carrying THIS workspace's id and " ++
         $"count; a run that could not reach a workspace records `status = error` on the run's " ++
         $"global census row rather than a zero that reads as `nothing to erase`.");
    art_governed_by := None;
    art_enabled := None |}.

Definition art_api_keys (pg : PgCounts) : ArtifactClass := {|
    art_class := $"api_keys";
    art_store := $"postgres";
    art_location := $"api_keys";
    art_description := $"Gateway API keys for this workspace, including rotation successors.";
    art_sensitivity := $"credential_material";
    art_row_count := Some (pg_n pg $"c_api_keys");
    art_row_count_status := $"counted";
    art_row_count_detail := None;
    art_encryption :=
      Encryption_hashed $"key_hash is 64 lowercase hex characters (SHA-256)"
        (pg_n pg $"c_api_keys")
        (pg_n pg $"v_api_keys")
        ($"The key itself is shown once at creation and never stored. `name`, `key_prefix` and the " ++
         $"assignment columns are plaintext.");
    art_retention :=
      Retention_none
        ($"Revocation sets `revoked_at`; the row is kept so an audit trail survives. Nothing " ++
         $"deletes it.");
    art_governed_by := None;
    art_enabled := None |}.

Definition providers_encryption (pg : PgCounts) (provider_key_self_test : str) : Encryption :=
  let enc := Encryption_sealed
      ($"encrypted_credential, where present, matches the AES-256-GCM envelope (base64url of " ++
      $"nonce || ciphertext)") (pg_n pg $"c_providers_cred") (pg_n pg $"v_providers") None in
  {| en_at_rest := en_at_rest enc;
     en_basis := [Basis.WRITE_PATH; Basis.PROVIDER_KEY_SELF_TEST; Basis.STORED_SHAPE];
     en_verification := en_verification enc;
     en_note := Some (
      $"SEALED WITH A DIFFERENT KEY FROM EVERY OTHER CLASS HERE. " ++
      $"`providers.encrypted_credential` is AES-256-GCM under `SECUREPROMPT_PROVIDER_KEY` " ++
      $"(`crypto::encrypt_aes_gcm`), not through the KMS backend, so the KMS self-test says " ++
      $"nothing about it — this request probed that key separately and reports " ++
      $"`encryption_basis.provider_key_self_test: " ++
      provider_key_self_test ++ $"`. The key has an ALL-ZERO fallback when the variable is unset " ++
      $"(`ProviderKeyConfig::from_env_or_zero`), and zero-key ciphertext PASSES the shape check " ++
      $"below, because a shape check inspects the envelope and not the key. So read " ++
      $"`ciphertext` here as a statement about the bytes and read the self-test for whether " ++
      $"they are confidential. " ++
      CIPHERTEXT_SHAPE_CLAIM) |}.

Definition art_providers (pg : PgCounts) (provider_key_self_test : str) : ArtifactClass :=
  let enc := providers_encryption pg provider_key_self_test in
  {|
    art_class := $"providers";
    art_store := $"postgres";
    art_location := $"providers";
    art_description :=
      $"Upstream LLM providers configured for this workspace, with their encrypted API " ++
      $"credentials.";
    art_sensitivity := $"credential_material";
    art_row_count := Some (pg_n pg $"c_providers");
    art_row_count_status := $"counted";
    art_row_count_detail := None;
    art_encryption := enc;
    art_retention := Retention_none $"Configuration. Removed when the provider is deleted.";
    art_governed_by := None;
    art_enabled := None |}.

Definition art_user_backup_codes (pg : PgCounts) : ArtifactClass := {|
    art_class := $"user_backup_codes";
    art_store := $"postgres";
    art_location := $"user_backup_codes";
    art_description :=
      $"Single-use 2FA recovery codes for this workspace's members. Counted through " ++
      $"users.workspace_id — the table itself has no workspace column.";
    art_sensitivity := $"credential_material";
    art_row_count := Some (pg_n pg $"c_user_backup_codes");
    art_row_count_status := $"counted";
    art_row_count_detail := None;
    art_encryption :=
      Encryption_hashed $"code_hash begins with an Argon2 identifier"
        (pg_n pg $"c_user_backup_codes")
        (pg_n pg $"v_user_backup_codes")
        $"Plaintext codes are returned to the user exactly once, at enrolment.";
    art_retention :=
      Retention_none
        ($"A used code keeps its row with `used_at` set, so replay is detectable. Codes are " ++
         $"removed only when the user is deleted or re-enrols.");
    art_governed_by := None;
    art_enabled := None |}.

Definition art_policy_rules (pg : PgCounts) : ArtifactClass := {|
    art_class := $"policy_rules";
    art_store := $"postgres";
    art_location := $"policy_rules";
    art_description := $"Redaction and enforcement rules for this workspace: conditions, actions, priorities.";
    art_sensitivity := $"configuration";
    art_row_count := Some (pg_n pg $"c_policy_rules");
    art_row_count_status := $"counted";
    art_row_count_detail := None;
    art_encryption :=
      Encryption_plain
        ($"Rule bodies are stored as written. `conditions` may embed operator-supplied regexes and " ++
         $"literals, so anything an admin types into a rule is retained in the clear.");
    art_retention := Retention_none $"Configuration. Removed when the rule is deleted.";
    art_governed_by := None;
    art_enabled := None |}.

Definition art_raw_capture_audit (pg : PgCounts) : ArtifactClass := {|
    art_class := $"raw_capture_audit";
    art_store := $"postgres";
    art_location := $"raw_capture_audit";
    art_description :=
      $"Append-only record of every accepted change to this workspace's raw-capture setting: " ++
      $"who, when, and the before/after state.";
    art_sensitivity := $"audit_trail";
    art_row_count := Some (pg_n pg $"c_raw_capture_audit");
    art_row_count_status := $"counted";
    art_row_count_detail := None;
    art_encryption :=
      Encryption_plain
        ($"Actor email is denormalised in the clear on purpose: a foreign key would let deleting a " ++
         $"user rewrite the evidence that they switched plaintext retention on.");
    art_retention :=
      Retention_none
        ($"Append-only and never purged, by design. An audit trail with a retention window is an " ++
         $"audit trail with a deadline. These rows are carried by `audit.export`'s " ++
         $"`control_plane_events` section, so a COPY of any exported window also lives in " ++
         $"`audit_export_pages`.");
    art_governed_by := None;
    art_enabled := None |}.

Definition art_retention_purge_audit (pg : PgCounts) : ArtifactClass := {|
    art_class := $"retention_purge_audit";
    art_store := $"postgres";
    art_location := $"retention_purge_audit";
    art_description :=
      $"Proof-of-purge records: one row per scope per `retention.purge` run — and, for the " ++
      $"scopes that sweep tenant by tenant, one row per workspace plus a global census row " ++
      $"saying how many workspaces the run could reach. Each carries the cutoff, rows deleted, " ++
      $"the deleted range, and a recount taken after the delete.";
    art_sensitivity := $"audit_trail";
    art_row_count := Some (pg_n pg $"c_retention_purge_audit");
    art_row_count_status := $"counted";
    art_row_count_detail := None;
    art_encryption :=
      Encryption_plain
        ($"Counts and timestamps only. NOTE what this table does NOT prove, and READ THIS BEFORE " ++
         $"CITING `rows_remaining_past_cutoff` AT ANYONE. (1) It is self-attestation written by " ++
         $"the purge process into a database that same process can modify, and a logical DELETE is " ++
         $"not an assurance that the bytes are irrecoverable from backups or unmerged parts. (2) " ++
         $"The recount is a SELF-recount, not an independent check: the job re-runs its own `what " ++
         $"still violates the policy` query on the same connection, through the same " ++
         $"row-level-security filter as the delete. It therefore catches a job that MISCOUNTED " ++
         $"what it deleted, and it CANNOT catch a job that could not SEE the rows — a filter that " ++
         $"hides them hides them from both statements and the two then agree on zero. That is not " ++
         $"hypothetical: it is exactly what the `refresh_tokens.device_context` scope did under a " ++
         $"role that does not bypass row-level security, emitting `rows_deleted = 0, " ++
         $"rows_remaining_past_cutoff = 0, status = ok` while ended sessions kept their IP " ++
         $"addresses. What covers `could not see` is `status` and the per-run census row, not this " ++
         $"number. (3) A per-workspace row CAN be re-derived by anyone who can scope a connection " ++
         $"to that workspace, the tenant included; a row with `workspace_id IS NULL` covers every " ++
         $"tenant at once and can only be re-derived by someone who can see them all.");
    art_retention :=
      Retention_none
        ($"Append-only and never purged, by design. Rows whose `workspace_id` is this workspace's " ++
         $"are carried by `audit.export`'s `control_plane_events` section, so a COPY of any " ++
         $"exported window also lives in `audit_export_pages`. Rows whose `workspace_id` IS NULL — " ++
         $"purge scopes that are not per-workspace — are NOT exported to any tenant, and the count " ++
         $"of them in the window is reported in the export manifest so the exclusion is visible. " ++
         $"The `error` column is never exported: it holds a ClickHouse exception message.");
    art_governed_by := None;
    art_enabled := None |}.

Definition art_session_revocation_audit (pg : PgCounts) : ArtifactClass := {|
    art_class := $"session_revocation_audit";
    art_store := $"postgres";
    art_location := $"session_revocation_audit";
    art_description :=
      $"Append-only record of every accepted `DELETE /v1/users/{user_id}/sessions`: who " ++
      $"revoked, whose sessions, when, the watermark instant from which that user's access " ++
      $"tokens were refused, and how many refresh tokens the action closed. Written in the same " ++
      $"transaction as the revocation itself.";
    art_sensitivity := $"audit_trail";
    art_row_count := Some (pg_n pg $"c_session_revocation_audit");
    art_row_count_status := $"counted";
    art_row_count_detail := None;
    art_encryption :=
      Encryption_plain
        ($"Identifiers, two email addresses (actor and target, denormalised in the clear for the " ++
         $"reason `raw_capture_audit` gives — a foreign key would let deleting a user rewrite the " ++
         $"evidence), two role names, a unix second and a count. DELIBERATELY ABSENT: IP address, " ++
         $"User-Agent and any free-text reason. This table is never purged, so it takes only what " ++
         $"the record needs; an actor's device and a free-text note are personal data that would " ++
         $"then be retained forever to no auditable purpose.");
    art_retention :=
      Retention_none
        ($"Append-only and never purged, by design, like `raw_capture_audit` and " ++
         $"`retention_purge_audit`. `retention.purge` does not cover this table and is not " ++
         $"intended to. The gap WS4-3 disclosed here — that these rows were not carried by " ++
         $"`audit.export` — is CLOSED: they are now the `control_plane_events` section of every " ++
         $"export, and the manifest states that this table has no TTL, so that section's window is " ++
         $"complete however far back it reaches. A COPY of these rows therefore also lives in " ++
         $"`audit_export_pages` for every window that has been exported, and an erasure request " ++
         $"must reach that table too.");
    art_governed_by := None;
    art_enabled := None |}.

Definition art_admin_audit (pg : PgCounts) : ArtifactClass := {|
    art_class := $"admin_audit";
    art_store := $"postgres";
    art_location := $"admin_audit";
    art_description :=
      $"Append-only record of the audited administrative actions: API key create/revoke/rotate, " ++
      $"provider credential create/update/delete, policy rule create/update/delete and " ++
      $"enabled/dry-run toggles, user creation (FU5), and 2FA enrolment/confirmation/reset, " ++
      $"license activation and removal, budget / secure-mode / sidecar-failure settings " ++
      $"changes, successful dashboard and OIDC logins, and second-factor verification (P1A). " ++
      $"Each row says who acted, on which object, what changed and when. Written in the SAME " ++
      $"transaction as the action it records, so the action and its record commit together or " ++
      $"neither does — with two named exceptions whose action has no transaction to join: " ++
      $"`auth.login_succeeded` and `auth.second_factor_verified` commit BEFORE the session they " ++
      $"precede, so no session is issued without a record of the login that opened it. NOT a " ++
      $"complete record of administrative activity: a FAILED login writes nothing, deliberately " ++
      $"— an attempt against an unknown email has no workspace to be recorded under, and " ++
      $"auditing only the resolvable failures would make row-absence mean `no such account`. " ++
      $"Public signup, token refresh, logout, API-key reassignment and provider model changes " ++
      $"are also unaudited. Their absence here is not evidence they did not happen.";
    art_sensitivity := $"audit_trail";
    art_row_count := Some (pg_n pg $"c_admin_audit");
    art_row_count_status := $"counted";
    art_row_count_detail := None;
    art_encryption :=
      Encryption_plain
        ($"Identifiers, the acting administrator's email and role as they read at the time, the " ++
         $"acted-on object's own name, and a JSONB `detail` of bounded action-specific facts (a " ++
         $"priority, an enabled flag, a provider type, a grace-window instant, and before/after " ++
         $"pairs for the fields that moved). NO SECRET IS STORED: not an API key or any prefix of " ++
         $"one, not a provider credential in plaintext or ciphertext, not a password or its hash, " ++
         $"not a TOTP secret, a 2FA backup code or the signed license token — " ++
         $"`tests/admin_audit.rs` dumps every column of every row to text and searches it. " ++
         $"DELIBERATELY ABSENT for the reason `session_revocation_audit` gives: IP address, " ++
         $"User-Agent and any free-text reason. That holds for the LOGIN rows too, which are the " ++
         $"only ones whose request carries those headers, and it holds for the reduced `{browser} " ++
         $"on {os}` descriptor a session row stores as well: that descriptor is ERASED when the " ++
         $"session ends, and this table is never purged, so a copy here would undo the erasure " ++
         $"permanently. The object's NAME is the one administrator-supplied string admitted, " ++
         $"because without it a deleted object's audit row names only a UUID that resolves to " ++
         $"nothing; it is truncated to 200 characters and the database REFUSES anything longer.");
    art_retention :=
      Retention_none
        ($"Append-only and never purged, by design, like `raw_capture_audit`, " ++
         $"`retention_purge_audit` and `session_revocation_audit`. `retention.purge` does not " ++
         $"cover this table and is not intended to — an audit trail with a retention window is an " ++
         $"audit trail with a deadline. Everything written here is kept forever, which is why what " ++
         $"may enter is bounded so tightly. These rows ARE carried by `audit.export` as part of " ++
         $"the `control_plane_events` section, so a COPY of them also lives in " ++
         $"`audit_export_pages` for every window that has been exported, and an erasure request " ++
         $"must reach that table too.");
    art_governed_by := None;
    art_enabled := None |}.

Definition art_audit_exports (pg : PgCounts) : ArtifactClass := {|
    art_class := $"audit_exports";
    art_store := $"postgres";
    art_location := $"audit_exports";
    art_description :=
      $"One row per requested audit export: the window, format, page size, status, and — once " ++
      $"complete — the signed manifest, its detached Ed25519 signature, the public key and the " ++
      $"signing-key fingerprint. The manifest (schema version 2) describes the export as two " ++
      $"SECTIONS — `request_events` and `control_plane_events` — each with its own column list, " ++
      $"coverage statement and per-source retention block, and names the section of every page. " ++
      $"No exported rows live here; they are in `audit_export_pages`.";
    art_sensitivity := $"audit_trail";
    art_row_count := Some (pg_n pg $"c_audit_exports");
    art_row_count_status := $"counted";
    art_row_count_detail := None;
    art_encryption :=
      Encryption_plain
        ($"Manifest, signature and public key, stored in the clear. `manifest_json` is " ++
         $"deliberately TEXT and byte-exact: the signature covers those bytes, so normalising them " ++
         $"(JSONB, re-serialisation) would make every export fail its own verification. The " ++
         $"manifest contains counts, digests and column DESCRIPTIONS — no exported row values. " ++
         $"NOTE what the signature is and is not: it establishes that an export has not been " ++
         $"ALTERED since it was produced. It is not encryption and provides no confidentiality for " ++
         $"`audit_export_pages`.");
    art_retention :=
      Retention_none
        ($"INDEFINITE. Nothing deletes rows in this table: there is no TTL, and the " ++
         $"`retention.purge` worker job does not cover it. An export requested once is kept until " ++
         $"an operator removes it by hand. This is a STATED GAP, not a design: how long a " ++
         $"regulated customer must keep an export is a compliance decision that has not been made, " ++
         $"and defaulting to a silent forever is the thing this entry exists to stop a reader " ++
         $"assuming otherwise.");
    art_governed_by := None;
    art_enabled := None |}.

Definition art_audit_export_pages (pg : PgCounts) : ArtifactClass := {|
    art_class := $"audit_export_pages";
    art_store := $"postgres";
    art_location := $"audit_export_pages";
    art_description :=
      $"The exported audit rows themselves, as the exact CSV or JSONL bytes that were signed. A " ++
      $"MATERIALISED COPY OF TWO PLANES, in two sections of the same export. The DATA PLANE " ++
      $"copies `request_events` metadata for the window: request id, timestamp, provider, " ++
      $"model, disposition, token counts, cost, and the actor columns — user id, API key id, " ++
      $"API key name, IP address, User-Agent. The CONTROL PLANE copies this workspace's rows " ++
      $"from `raw_capture_audit`, `retention_purge_audit` and `session_revocation_audit`: who " ++
      $"changed raw-content capture, what a purge run deleted, and who terminated whose " ++
      $"sessions, with the actor and target emails and roles as they read at the time. NO " ++
      $"PROMPT OR RESPONSE CONTENT: `raw_prompt`, `raw_response`, `redacted_prompt` and " ++
      $"`restored_response` are not exported, by construction. `retention_purge_audit.error` is " ++
      $"not exported either — it holds a ClickHouse exception message, which quotes the " ++
      $"statement that provoked it; the export carries a boolean `error_present` in its place.";
    art_sensitivity := $"audit_trail";
    art_row_count := Some (pg_n pg $"c_audit_export_pages");
    art_row_count_status := $"counted";
    art_row_count_detail :=
      Some ($"Counts PAGES, not exported rows. One page holds up to the export's `page_size` rows " ++
            $"(default 5000); the signed per-page row counts are in the manifest on the parent " ++
            $"`audit_exports` row.");
    art_encryption :=
      Encryption_plain
        ($"PLAINTEXT, and this is the entry's most important line. The page bytes are stored " ++
         $"exactly as signed, so they are readable by anyone with database access. Two " ++
         $"consequences a reader must not have to infer. (1) The Ed25519 signature protects " ++
         $"INTEGRITY ONLY — it makes alteration detectable and provides NO confidentiality. (2) " ++
         $"The bytes carry personal data: `api_key_name` is administrator-chosen free text that " ++
         $"routinely names a person, and `ip_address`, `user_agent`, `user_id` and `api_key_id` " ++
         $"identify an actor, and the control-plane section adds two more email addresses per " ++
         $"revocation row — the actor's and the target's — copied verbatim from " ++
         $"`session_revocation_audit`, plus the acting administrator's email from " ++
         $"`raw_capture_audit`. `model` is copied VERBATIM from `request_events.model` and, unlike " ++
         $"the leak report's `by_model`, is NOT bounded against the workspace model catalogue — " ++
         $"`analytics::detection_counts::canonicalize_model` is applied only on the " ++
         $"`detection_class_counts` write path — so it carries whatever string the caller asked " ++
         $"for. Encrypting this column at rest is possible (decrypt on read would still serve " ++
         $"byte-identical pages) and is NOT implemented; treat that as an open gap rather than a " ++
         $"considered decision.");
    art_retention :=
      Retention_none
        ($"INDEFINITE, and this outlives the source. `request_events` carries a 90-day ClickHouse " ++
         $"TTL; these pages carry none, so an export taken today preserves that window's audit " ++
         $"metadata in Postgres after the ClickHouse rows have expired. That is the POINT of an " ++
         $"export — but it means a workspace's 90-day retention claim does not hold for data that " ++
         $"has been exported, and an erasure request must reach this table too.");
    art_governed_by := None;
    art_enabled := None |}.

Definition settings_tables (pg : PgCounts) : list (str * str * str * N * str) := [
    ($"workspaces",
     $"This workspace's own row: name and timestamps.",
     $"configuration",
     pg_n pg $"c_workspaces",
     $"Name and timestamps only.");
    ($"models",
     $"Model catalogue entries for this workspace's providers.",
     $"configuration",
     pg_n pg $"c_models",
     $"Model names and exclusion flags.");
    ($"audit_events_meta",
     $"Postgres-side pointer rows linking a request id to an event type. The event bodies live " ++
     $"in ClickHouse.",
     $"derived_metadata",
     pg_n pg $"c_audit_events_meta",
     $"Identifiers and event type only. No content.");
    ($"workspace_budgets",
     $"Token budget limits and the enforcement behaviour for this workspace.",
     $"configuration",
     pg_n pg $"c_workspace_budgets",
     $"Limits and an enum.");
    ($"workspace_secure_mode",
     $"Secure-mode posture: level, block-on-detection flags, response redaction.",
     $"configuration",
     pg_n pg $"c_workspace_secure_mode",
     $"Flags and an enum.");
    ($"workspace_sidecar_policy",
     $"What this workspace does when the ML sidecar cannot provide detection coverage: `block` " ++
     $"or `degrade_with_alert`.",
     $"configuration",
     pg_n pg $"c_workspace_sidecar_policy",
     $"A single enum.");
    ($"workspace_raw_capture",
     $"This workspace's raw-capture setting and retention window. Absence of a row IS the " ++
     $"default — capture off, 30 days — so a zero here means nobody has ever opted in.",
     $"configuration",
     pg_n pg $"c_workspace_raw_capture",
     $"A boolean, a day count and the id of whoever last changed them.")].

Definition art_settings (table : str * str * str * N * str) : ArtifactClass :=
  let '(class, description, sensitivity, count, note) := table in
  {|
    art_class := class;
    art_store := $"postgres";
    art_location := class;
    art_description := description;
    art_sensitivity := sensitivity;
    art_row_count := Some count;
    art_row_count_status := $"counted";
    art_row_count_detail := None;
    art_encryption := Encryption_plain note;
    art_retention :=
      Retention_none
        ($"Configuration. Kept for the life of the workspace and removed with it (ON DELETE " ++
         $"CASCADE); no time-based expiry.");
    art_governed_by := None;
    art_enabled := None |}.

Definition art_redis_budget (budget_keys : N + str) : ArtifactClass :=
  let '(row_count, row_count_status, row_count_detail) :=
    match budget_keys with
    | inl n => (Some n, $"counted", None)
    | inr e => (None, $"unavailable", Some (unavailable
        ($"redis:budget (EXISTS on this workspace's two counter keys)") NO_COUNT e))
    end in
  {|
    art_class := $"redis:budget";
    art_store := $"redis";
    art_location := $"budget:{workspace_id}:tokens:{YYYYMMDD|YYYYMM}";
    art_description :=
      $"Token spend counters for the current day and month. The count reported here is how many " ++
      $"of this workspace's two current-window counter keys exist right now (0, 1 or 2).";
    art_sensitivity := $"derived_metadata";
    art_row_count := row_count;
    art_row_count_status := row_count_status;
    art_row_count_detail := row_count_detail;
    art_encryption := Encryption_plain $"An integer per key.";
    art_retention := {|
        ret_days := Some (32%Z);
        ret_window := $"2 days (daily key) / 32 days (monthly key)";
        ret_mechanism := Mechanism.REDIS_TTL;
        ret_mechanism_detail :=
          $"Redis key expiry, set with `EXPIRE ... NX` when the counter is first created. Redis " ++
          $"deletes lazily on access plus by a background sampler, so an untouched expired key can " ++
          $"occupy memory past its TTL — it is never SERVED, which is what matters here." |};
    art_governed_by := None;
    art_enabled := None |}.

(** ** What cannot be enumerated *)

Definition un_redis_filevault : UnenumerableClass := {|
  un_class := $"redis:filevault";
  un_store := $"redis";
  un_location := $"filevault:{ref}";
  un_description :=
    $"The SECOND token vault. Holds the placeholder → original map for PII found in an " ++
    $"uploaded file, so the chat pipeline can restore it in the reply. Same data class as " ++
    $"`token_vault_entries`: un-redacted customer PII.";
  un_reason :=
    $"The key is `filevault:{ref}` where ref is a bare random UUID. It carries NO workspace " ++
    $"id, and the value is opaque ciphertext, so there is no way to attribute a key to a " ++
    $"workspace — not by SCAN, not by reading it. Any per-workspace count would be " ++
    $"fabricated, and this endpoint reports nothing rather than a number it cannot support.";
  un_per_workspace_erasure := $"not_possible";
  un_row_count := None;
  un_encryption := {|
      en_at_rest := AtRest.CIPHERTEXT;
      en_basis := [Basis.WRITE_PATH; Basis.KMS_SELF_TEST];
      en_verification := None;
      en_note :=
        Some ($"Encrypted through the same KMS as the other stores, encrypt-or-fail with no plaintext " ++
              $"fallback (`redis::stash_file_vault`). NOT shape-verified here, because verification " ++
              $"would require enumerating keys this endpoint has just explained it cannot enumerate. " ++
              $"The claim therefore rests on the write path and the live KMS probe only. Also note this " ++
              $"was made ciphertext only recently: stashes written before that upgrade are plaintext " ++
              $"JSON, stop restoring, and age out within the 6h TTL. " ++
              CIPHERTEXT_SHAPE_CLAIM) |};
  un_retention := {|
      ret_days := None;
      ret_window := $"6 hours";
      ret_mechanism := Mechanism.REDIS_TTL;
      ret_mechanism_detail :=
        $"Redis key TTL of 6 hours, set at write time (`FILE_VAULT_TTL_SECS`). This is the ONLY " ++
        $"thing that removes a file-vault entry: there is no purge job for it, and because it " ++
        $"cannot be enumerated per tenant, an erasure request cannot be honoured against it any " ++
        $"faster than waiting out the TTL." |} |}.

Definition un_mongo_librechat : UnenumerableClass := {|
  un_class := $"mongo:librechat";
  un_store := $"mongodb";
  un_location :=
    $"docker-compose service `librechat-mongo`, named volume `librechat_mongo_data` mounted " ++
    $"at /data/db";
  un_description :=
    $"LibreChat's own database. It stores each conversation as the CHAT UI held it: the " ++
    $"user's message BEFORE SecurePrompt redacted it, and the assistant's reply AFTER " ++
    $"SecurePrompt restored the placeholders into it. That makes it the SECOND store in this " ++
    $"deployment holding un-redacted request content, alongside `request_content_captures` — " ++
    $"and unlike that one it is not opt-in, not gated, and not encrypted by this product.";
  un_reason :=
    $"A separate MongoDB service with no SecurePrompt workspace id anywhere in its schema: " ++
    $"LibreChat has its own user and conversation model and knows nothing about workspaces. " ++
    $"The gateway API process holds no Mongo client, so it could not attribute a document to " ++
    $"a tenant even if the schema allowed it. Note this is NOT an optional add-on that an " ++
    $"operator opted into: the service carries no `profiles:` key (line 127 is the only one " ++
    $"in docker-compose.yml), so a plain `docker compose up -d` starts it.";
  un_per_workspace_erasure := $"not_possible";
  un_row_count := None;
  un_encryption :=
    Encryption_plain
      ($"Stored as LibreChat writes it. SecurePrompt's KMS is not in this path at any point — " ++
       $"`by_design` here means this product never encrypts it, NOT that leaving it in the clear " ++
       $"is safe: these are un-redacted prompts and restored replies. At-rest protection is " ++
       $"whatever MongoDB and the host volume provide, which by default is none.");
  un_retention :=
    Retention_none
      ($"NO TTL and no purge. LibreChat keeps a conversation until its own user deletes it; the " ++
       $"worker's `retention.purge` job does not know this store exists; and the " ++
       $"`librechat_mongo_data` volume survives `docker compose down` (removing it takes `-v`). " ++
       $"A SecurePrompt erasure request does not reach this data, and neither does the retention " ++
       $"window an operator configures on `PUT /v1/secure-mode`.") |}.

Definition un_redis_jti_blacklist : UnenumerableClass := {|
  un_class := $"redis:jti_blacklist";
  un_store := $"redis";
  un_location := $"jti_blacklist:{jti}";
  un_description := $"Access-token ids revoked by logout, held until the token would have expired anyway.";
  un_reason :=
    $"The key is the token's random jti with no workspace id, and the value is the constant " ++
    $"1, so nothing associates a key with a workspace.";
  un_per_workspace_erasure := $"not_possible";
  un_row_count := None;
  un_encryption := Encryption_plain $"A random identifier and the integer 1. No personal data.";
  un_retention := {|
      ret_days := None;
      ret_window := $"remaining access-token lifetime";
      ret_mechanism := Mechanism.REDIS_TTL;
      ret_mechanism_detail := $"Redis key TTL, set to the token's remaining validity at logout." |} |}.

Definition un_redis_session_revocation : UnenumerableClass := {|
  un_class := $"redis:session_revocation";
  un_store := $"redis";
  un_location := $"session_revoked:{user_id}";
  un_description :=
    $"WS4-3. One key per user whose sessions an administrator has terminated, holding the " ++
    $"unix second of the revocation. Every access token for that user minted at or before it " ++
    $"is refused by the auth middleware on the next request.";
  un_reason :=
    $"The key is a bare user id with no workspace id, in the same shape as `jti_blacklist`. " ++
    $"Counting a workspace's keys would mean issuing one EXISTS per member — a per-request " ++
    $"cost that grows with headcount for a number that says nothing an auditor can act on, " ++
    $"since `session_revocation_audit` above holds the durable record of every revocation and " ++
    $"is counted there.";
  un_per_workspace_erasure := $"not_possible";
  un_row_count := None;
  un_encryption :=
    Encryption_plain
      ($"A user id in the key and a unix timestamp in the value. No content, no credential " ++
       $"material.");
  un_retention := {|
      ret_days := None;
      ret_window := $"access-token lifetime + 120s";
      ret_mechanism := Mechanism.REDIS_TTL;
      ret_mechanism_detail :=
        $"Redis key TTL, sized by `redis::revocation_watermark_ttl_secs` to outlive every access " ++
        $"token that existed when the revocation happened (access TTL, plus the 60s JWT " ++
        $"validation leeway, plus 60s of clock slack). After that every token it would refuse has " ++
        $"expired on its own terms, so the key is allowed to lapse rather than accumulating one " ++
        $"entry per revoked user forever. The permanent record is `session_revocation_audit`." |} |}.

Definition un_redis_oidc_state : UnenumerableClass := {|
  un_class := $"redis:oidc_state";
  un_store := $"redis";
  un_location := $"oidc_state:{state_id}";
  un_description := $"PKCE verifier secrets for in-flight OIDC logins.";
  un_reason :=
    $"Written before any workspace is known — the login has not completed — so the key cannot " ++
    $"carry one.";
  un_per_workspace_erasure := $"not_applicable";
  un_row_count := None;
  un_encryption :=
    Encryption_plain
      ($"The PKCE verifier is stored as written. It is single-use: the callback consumes it with " ++
       $"GETDEL, so it cannot be replayed.");
  un_retention := {|
      ret_days := None;
      ret_window := $"10 minutes";
      ret_mechanism := Mechanism.REDIS_TTL;
      ret_mechanism_detail := $"Redis key TTL, plus GETDEL on the callback so a completed login removes it immediately." |} |}.

Definition un_redis_scan_task : UnenumerableClass := {|
  un_class := $"redis:scan_task";
  un_store := $"redis";
  un_location := $"scan_task:{task_id}";
  un_description :=
    $"WS4-2 — which workspace started an in-flight async file scan, so a poll for its result " ++
    $"can be refused to every other tenant. The value is a workspace id and nothing else: no " ++
    $"filename, no document bytes, no scan result.";
  un_reason :=
    $"Keyed by the ML sidecar's task id, which carries no workspace, so this endpoint cannot " ++
    $"select this workspace's keys without scanning every tenant's.";
  un_per_workspace_erasure := $"whole_store_only";
  un_row_count := None;
  un_encryption :=
    Encryption_plain
      ($"A workspace UUID, stored as written. It identifies a tenant of this deployment and is " ++
       $"not a secret about anyone.");
  un_retention := {|
      ret_days := None;
      ret_window := $"1 hour";
      ret_mechanism := Mechanism.REDIS_TTL;
      ret_mechanism_detail :=
        $"Redis key TTL, set when the scan is started (`redis::bind_scan_task`). Sized to outlive " ++
        $"the longest scan a caller will wait for; the binding is not deleted when the scan " ++
        $"finishes, because a caller may poll a completed task more than once." |} |}.

Definition un_redis_queues : UnenumerableClass := {|
  un_class := $"redis:queues";
  un_store := $"redis";
  un_location := $"queue:analytics | queue:audit_export | queue:retention | queue:policy_index";
  un_description :=
    $"Task envelopes waiting for the worker. A policy-index envelope carries the rule text " ++
    $"that is about to be embedded.";
  un_reason :=
    $"A queue is one Redis list shared by every workspace. Counting it would mean draining or " ++
    $"scanning other tenants' payloads, which this endpoint will not do.";
  un_per_workspace_erasure := $"whole_store_only";
  un_row_count := None;
  un_encryption :=
    Encryption_plain
      ($"JSON task envelopes, stored as written. They are transient — the worker pops each one — " ++
       $"but there is no TTL, so an envelope for a queue with no running consumer is retained " ++
       $"indefinitely.");
  un_retention :=
    Retention_none
      ($"No TTL. An entry leaves the list when the worker pops it and not otherwise, so a " ++
       $"stalled or absent worker means unbounded retention.") |}.

Definition un_license_freshness : UnenumerableClass := {|
  un_class := $"license_freshness";
  un_store := $"postgres";
  un_location := $"license_freshness";
  un_description := $"Last successful license revalidation and the signed freshness assertion behind it.";
  un_reason :=
    $"Deployment-scoped: the table has no workspace_id column, because a license covers the " ++
    $"whole gateway rather than one tenant.";
  un_per_workspace_erasure := $"not_applicable";
  un_row_count := None;
  un_encryption := Encryption_plain $"Timestamps and a signed assertion. No tenant data.";
  un_retention := Retention_none $"One row, overwritten in place." |}.

Definition un_license_activation : UnenumerableClass := {|
  un_class := $"license_activation";
  un_store := $"postgres";
  un_location := $"license_activation";
  un_description := $"The license token activated through the dashboard console.";
  un_reason := $"Deployment-scoped: no workspace_id column.";
  un_per_workspace_erasure := $"not_applicable";
  un_row_count := None;
  un_encryption :=
    Encryption_plain
      ($"The license token is stored as issued. It is a signed capability, not a secret about " ++
       $"any tenant.");
  un_retention := Retention_none $"Replaced when a new license is activated." |}.

Definition un_schema_migrations : UnenumerableClass := {|
  un_class := $"_schema_migrations";
  un_store := $"clickhouse";
  un_location := $"_schema_migrations";
  un_description := $"Which ClickHouse migrations the worker has applied.";
  un_reason := $"Deployment-scoped bookkeeping with no workspace column.";
  un_per_workspace_erasure := $"not_applicable";
  un_row_count := None;
  un_encryption := Encryption_plain $"Version strings and timestamps.";
  un_retention := Retention_none $"Kept for the life of the deployment, by necessity." |}.

Definition un_dbt_lock : UnenumerableClass := {|
  un_class := $"_dbt_lock";
  un_store := $"clickhouse";
  un_location := $"_dbt_lock";
  un_description := $"Single-run lock for dbt builds.";
  un_reason := $"Deployment-scoped bookkeeping with no workspace column.";
  un_per_workspace_erasure := $"not_applicable";
  un_row_count := None;
  un_encryption := Encryption_plain $"A lock key and a holder name.";
  un_retention := Retention_none $"Overwritten by each run." |}.

Definition un_qdrant_policy_rag : UnenumerableClass := {|
  un_class := $"qdrant:policy_rag";
  un_store := $"qdrant";
  un_location := $"collection `policy_rag`";
  un_description :=
    $"One vector per policy rule, with a `workspace_id` payload field, written by the " ++
    $"worker's `policy.index_rule` task.";
  un_reason :=
    $"The gateway API process holds no Qdrant client — vector operations belong to the worker " ++
    $"and the ML sidecar. The points DO carry a workspace_id payload, so this class is " ++
    $"enumerable in principle; it is not enumerable FROM HERE, and this endpoint will not " ++
    $"report a number it did not measure.";
  un_per_workspace_erasure := $"whole_store_only";
  un_row_count := None;
  un_encryption :=
    Encryption_plain
      ($"Embedding vectors plus a payload of workspace id, doc type and rule id. The rule TEXT " ++
       $"is not stored; the embedding of it is.");
  un_retention :=
    Retention_none
      ($"No TTL and no purge. A point is overwritten when its rule is re-indexed (the rule id is " ++
       $"the point id) and is NOT removed when the rule is deleted.") |}.

Definition un_qdrant_prompt_similarity : UnenumerableClass := {|
  un_class := $"qdrant:prompt_similarity";
  un_store := $"qdrant";
  un_location := $"collection `prompt_similarity`";
  un_description := $"Prompt embedding collection provisioned by the ML sidecar.";
  un_reason := $"Same as `qdrant:policy_rag`: no Qdrant client in this process.";
  un_per_workspace_erasure := $"whole_store_only";
  un_row_count := None;
  un_encryption := Encryption_plain $"Embedding vectors and their payloads.";
  un_retention := Retention_none $"No TTL and no purge." |}.

Definition not_enumerable : list UnenumerableClass :=
  [un_redis_filevault; un_mongo_librechat; un_redis_jti_blacklist; un_redis_session_revocation; un_redis_oidc_state; un_redis_scan_task; un_redis_queues; un_license_freshness; un_license_activation; un_schema_migrations; un_dbt_lock; un_qdrant_policy_rag; un_qdrant_prompt_similarity].

Definition caveats : list str := [
  $"`at_rest` is COMPUTED from `verification` wherever a `verification` block is present, " ++
  $"and the rule is: `ciphertext` = every payload checked matched the envelope, `plaintext` " ++
  $"= none did, `mixed` = some did, `hashed` = one-way by construction and every value " ++
  $"matched, `empty` = the check RAN and there was nothing stored to verify. `unknown` is " ++
  $"not any of those: it means the store did not answer, so nothing was inspected and no " ++
  $"verdict — not even `empty` — is claimed; it pairs with `row_count_status: unavailable` " ++
  $"and is the `at_rest` half of caveat 3's rule that a measured zero and an unread store " ++
  $"are never conflated. `plaintext_by_design` carries no `verification` and claims nothing " ++
  $"beyond `stored as written`. THREE CLASSES ARE EXCEPTIONS and their verdict is DECLARED " ++
  $"rather than computed — this caveat used to say `never declared per class`, which was " ++
  $"false: (1) `users` reports `mixed` unconditionally whenever the workspace has any " ++
  $"member, because the table holds three states at once — an Argon2id password hash, a " ++
  $"KMS-encrypted TOTP secret, and plaintext directory fields — so no single computed " ++
  $"verdict would be honest; its `verification` block still carries the real Argon2 counts, " ++
  $"and those are what to read. (2) `redis:filevault` is declared `ciphertext` with NO " ++
  $"verification, because verifying it would mean enumerating keys this endpoint has just " ++
  $"explained it cannot enumerate; the claim rests on the write path and the live KMS probe " ++
  $"alone, and its own note records that stashes written before the encryption upgrade are " ++
  $"plaintext JSON. (3) `mongo:librechat` is declared `plaintext_by_design` without " ++
  $"verification because it is in a store this process cannot query at all. Every other " ++
  $"class's verdict can be recomputed from the numbers printed next to it.";
  $"The analytics classes above — `request_events`, `detection_class_counts`, " ++
  $"`policy_events`, `latency_samples`, `token_usage`, the mv_* aggregates and every dbt " ++
  $"relation derived from them — cover GATEWAY TRAFFIC ONLY: requests through " ++
  $"`/v1/chat/completions`, `/v1/completions` and `/v1/embeddings`. `/v1/redact`, " ++
  $"`/v1/secure-mode/tokenize`, the MCP server and file scanning run the same detection " ++
  $"pass and emit NO analytics event (the whole API crate enqueues one from a single file, " ++
  $"the gateway pipeline), so their requests are absent from every count in this section. " ++
  $"Their SIDE EFFECTS are not: tokenize writes `token_vault_entries` and file scanning " ++
  $"writes `redis:filevault`, both listed above with their own counts. Read the analytics " ++
  $"counts as covering the gateway, not the product.";
  $"A count of zero means the query ran and found nothing. A `row_count` of null with " ++
  $"`row_count_status: unavailable` means the store did not answer and the true figure is " ++
  $"UNKNOWN. The two are never conflated.";
  $"This inventory covers the stores the gateway API can reach — Postgres, ClickHouse and " ++
  $"Redis — plus the Qdrant collections and the LibreChat MongoDB it CANNOT reach and " ++
  $"declares anyway, under `not_enumerable`. The following are OUT OF SCOPE and their " ++
  $"absence from this document is not evidence of their absence from the deployment: " ++
  $"replicas and WAL archives; the `backup` compose service, its `clickhouse_backups` " ++
  $"volume and the `./backups` host directory it writes, which by construction hold copies " ++
  $"of everything listed above INCLUDING rows the TTLs have since removed; the `prometheus` " ++
  $"service's metric series and the `grafana` service's dashboards, users and sessions, " ++
  $"which carry no request content but do carry model names and workspace ids as label " ++
  $"values; the ML sidecar's temporary upload directory; and any operator-side log " ++
  $"aggregation.";
  $"A logical DELETE — by TTL, by the purge job, or by hand — is not an assurance that the " ++
  $"bytes are irrecoverable. ClickHouse parts, Postgres dead tuples and any backup taken " ++
  $"before the delete may still hold them."].

(** ** Probes *)

Section probes.
Context `{CodecEnv} `{AesEnv}.

Definition PROBE : str :=
  $"secureprompt-data-inventory-provider-key-self-test".

(** The nonce is that of the process's [n]-th call. *)
Definition provider_key_self_test_for (n : nat) (hex_key : str) : str * str :=
  match parse_provider_key hex_key with
  | Err e => ($"failed", probe_failed Basis.PROVIDER_KEY_SELF_TEST
      ($"SECUREPROMPT_PROVIDER_KEY is not 64 hex characters, so no provider credential can be " ++
      $"sealed or read.") (show_crypto_error e))
  | Panic => ($"failed", [])
  | Ok key =>
      if bool_decide (key = replicate 32 (ascii_of_N 0)) then ($"failed",
      $"SECUREPROMPT_PROVIDER_KEY IS UNSET. `ProviderKeyConfig::from_env_or_zero` substitutes " ++
      $"an ALL-ZERO 32-byte key so the API can start without provider encryption configured, " ++
      $"and every credential sealed under it is decryptable by anyone holding the ciphertext. " ++
      $"Note what this means for the `providers` class below: zero-key ciphertext still PASSES " ++
      $"the stored-shape check, because that check inspects the envelope and not the key, so " ++
      $"`at_rest: ciphertext` there is a statement about the bytes and NOT about their " ++
      $"confidentiality.")
      else
        match encrypt_aes_gcm n PROBE key with
        | Ok (nonce, ciphertext) =>
            match decrypt_aes_gcm nonce ciphertext key with
            | Ok plain =>
                if bool_decide (plain = PROBE) then ($"ok",
      $"a synthetic marker was encrypted and decrypted under SECUREPROMPT_PROVIDER_KEY while " ++
      $"answering this request, and the key is not the all-zero fallback")
                else ($"failed",
      $"the provider key round-tripped a synthetic marker to DIFFERENT bytes")
            | Err e => ($"failed", probe_failed Basis.PROVIDER_KEY_SELF_TEST
      ($"decrypt of a synthetic marker under the provider key failed.") (show_crypto_error e))
            | Panic => ($"failed", [])
            end
        | Err e => ($"failed", probe_failed Basis.PROVIDER_KEY_SELF_TEST
      ($"encrypt of a synthetic marker under the provider key failed.") (show_crypto_error e))
        | Panic => ($"failed", [])
        end
  end.

Definition provider_key_self_test (n : nat) (env : Env) : str * str :=
  provider_key_self_test_for n (provider_key_or_zero env).
End probes.

(** The KMS calls are the process's [n]-th and the next. *)
Definition kms_self_test `{KmsEnv} (n : nat) : str * str :=
  match kms_seal n KMS_PROBE with
  | inr e => ($"failed", probe_failed Basis.KMS_SELF_TEST
      ($"encrypt of a synthetic marker through the configured KMS backend failed.") e)
  | inl sealed =>
      match kms_open (S n) sealed with
      | inl plain =>
          if bool_decide (plain = KMS_PROBE) then ($"ok",
      $"a synthetic marker was encrypted and decrypted through the configured backend while " ++
      $"answering this request")
          else ($"failed",
      $"the configured backend round-tripped a synthetic marker to DIFFERENT bytes; treat every " ++
      $"ciphertext claim below as unverified")
      | inr e => ($"failed", probe_failed Basis.KMS_SELF_TEST
      ($"decrypt of a synthetic marker through the configured KMS backend failed.") e)
      end
  end.

(** [EXISTS] on the two counters of the clock's day and month. *)
Definition live_budget_keys `{BudgetKeys} (exists_key : str -> bool) (clock : Z) (ws : Uuid) : Api (N + str) := fun d =>
  match redis_io d with
  | (inr e, d') => (Ok (inr ($"redis checkout failed: " ++ e)), d')
  | (inl _, d1) =>
      match redis_io d1 with
      | (inr e, d') => (Ok (inr ($"EXISTS failed: " ++ e)), d')
      | (inl _, d') =>
          (Ok (inl (N.of_nat (length (filter exists_key [budget_daily_key clock ws; budget_monthly_key clock ws])))), d')
      end
  end.

(** ** The handler *)

Section handler.
Context `{CodecEnv} `{AesEnv} `{KmsEnv} `{BudgetKeys}.
Context (env : Env) (ch_db : str) (clock : Z) (now : DateTime) (nonce kms_call : nat).
Context (t : PgTables) (ch : nat -> ClickHouse) (exists_key : str -> bool).

Definition get_data_inventory (ctx : JwtAuthContext) : Api DataInventoryResponse :=
  of_result (require_role (jc_role ctx) Admin);;
  let ws := jc_workspace_id ctx in
  let kms := kms_self_test kms_call in
  let kms_backend := default $"file" (env $"KMS_BACKEND") in
  let provider_key := provider_key_self_test nonce env in
  pg ← postgres_counts t ws;
  capture_settings ← raw_capture_get_effective t ws;
  ch_request_events ← ch_count $"request_events" ws (ch 0);
  ch_policy_events ← ch_count $"policy_events" ws (ch 1);
  ch_token_usage ← ch_count $"token_usage" ws (ch 2);
  ch_latency_samples ← ch_count $"latency_samples" ws (ch 3);
  ch_detection_counts ← ch_count $"detection_class_counts" ws (ch 4);
  ch_hourly_cost ← ch_count $"mv_hourly_cost_agg" ws (ch 5);
  ch_p95_latency ← ch_count $"mv_p95_latency_agg" ws (ch 6);
  ch_captures ← ch_capture_shape ws (ch 7);
  ch_legacy_plaintext ← ch_legacy ws (ch 8);
  staging ← mapM (fun '(i, m) => ch_count (relation DbtDb.STAGING m.1.1) ws (ch i)) (zip [9; 10] staging_models);
  enriched ← ch_count (relation DbtDb.INTERMEDIATE $"int_requests_enriched") ws (ch 11);
  marts ← mapM (fun '(i, m) => ch_count (relation DbtDb.MARTS m.1) ws (ch i)) (zip [12; 13; 14; 15] mart_models);
  budget_keys ← live_budget_keys exists_key clock ws;
  mret {|
    di_schema_version := 1;
    di_workspace_id := ws;
    di_generated_at := now;
    di_encryption_basis := {|
      eb_kms_backend := kms_backend;
      eb_kms_self_test := kms.1;
      eb_kms_self_test_detail := kms.2;
      eb_provider_key_self_test := provider_key.1;
      eb_provider_key_self_test_detail := provider_key.2;
      eb_ciphertext_shape_claim := CIPHERTEXT_SHAPE_CLAIM |};
    di_artifacts :=
      [art_request_events ch_db ch_request_events ch_legacy_plaintext;
       art_request_content_captures ch_db capture_settings ch_captures]
      ++ (art_event_table ch_db <$> event_tables ch_policy_events ch_token_usage ch_latency_samples ch_detection_counts)
      ++ (art_aggregate ch_db <$> aggregate_tables ch_hourly_cost ch_p95_latency)
      ++ zip_with art_staging staging_models staging
      ++ [art_int_requests_enriched enriched]
      ++ zip_with art_mart mart_models marts
      ++ [art_token_vault_entries pg; art_users pg; art_refresh_tokens pg; art_session_device_context pg;
          art_api_keys pg; art_providers pg provider_key.1; art_user_backup_codes pg; art_policy_rules pg;
          art_raw_capture_audit pg; art_retention_purge_audit pg; art_session_revocation_audit pg;
          art_admin_audit pg; art_audit_exports pg; art_audit_export_pages pg]
      ++ (art_settings <$> settings_tables pg)
      ++ [art_redis_budget budget_keys];
    di_not_enumerable := not_enumerable;
    di_caveats := caveats |}.
End handler.
