(* ===== verification/InventorySpec.v ===== *)
(** * What the data inventory guarantees

    Every number is the number of the caller's own rows, or openly missing; a
    protective verdict has rows behind it that all pass the shape check; the
    answer does not depend on other tenants nor, with one exception, on a
    store's own words; the windows it states are those the code enforces. *)

From S2P Require Import Prelude Rstr Json Types Analytics Providers ProvidersSpec Roles Sessions AdminTx WorkerDb.
From S2P Require Import QueueDrain ExportRoutes Limits Posture Startup Edge EdgeSpec Reports Inventory.

(** ** Counting rows *)

(** The rows of a workspace, and how many of them there are. *)
Definition owned {R} (ws : Uuid) (workspace_of : R -> Uuid) (rows : list R) : list R :=
  filter (fun r => workspace_of r = ws) rows.
Definition held {R} (ws : Uuid) (workspace_of : R -> Uuid) (p : R -> bool) (rows : list R) : N :=
  N.of_nat (length (filter p (owned ws workspace_of rows))).
Definition any {R} (_ : R) : bool := true.

Lemma counted_nat n : N.of_nat n = Z.to_N (Z.of_nat n).
Proof. lia. Qed.

(** Under an armed scope row-level security hides nothing of the workspace. *)
Lemma count_where_armed {R} policed d ws (f : R -> Uuid) p rows :
  Z.to_N (count_where policed (Some ws) d ws f p rows) = held ws f p rows.
Proof.
  unfold count_where, held, owned. rewrite list_filter_filter.
  assert (filter (fun r => (negb policed || visible (Some ws) (f r) d) && bool_decide (f r = ws) && p r) rows
    = filter (fun r => p r /\ f r = ws) rows) as ->; [|lia].
  induction rows as [|r rows IH]; [done|]. rewrite !filter_cons, IH. apply decide_ext.
  unfold visible. destruct (bool_decide_reflect (f r = ws)) as [->|Hne].
  - rewrite (bool_decide_eq_true_2 (Some ws = Some ws)) by done. rewrite !orb_true_r. cbn. tauto.
  - rewrite andb_false_r. cbn. tauto.
Qed.

Lemma held_none {R} ws (f : R -> Uuid) p rows :
  held ws f p rows = 0%N <-> forall r, r ∈ rows -> f r = ws -> p r = false.
Proof.
  unfold held, owned. rewrite list_filter_filter. split.
  - intros Hl r Hr Hw. destruct (p r) eqn:Hp; [|done]. exfalso.
    destruct (filter _ rows) as [|x l] eqn:E; [|cbn in Hl; lia].
    apply (not_elem_of_nil r). rewrite <- E. apply list_elem_of_filter. by rewrite Hp.
  - intros Hn. destruct (filter _ rows) as [|x l] eqn:E; [done|]. exfalso.
    assert (x ∈ x :: l) as Hx by by left. rewrite <- E in Hx. apply list_elem_of_filter in Hx as [[Hp Hw] Hx].
    rewrite (Hn x Hx Hw) in Hp. done.
Qed.

Lemma held_some {R} ws (f : R -> Uuid) p rows :
  held ws f p rows <> 0%N -> exists r, r ∈ rows /\ f r = ws /\ p r = true.
Proof.
  unfold held, owned. rewrite list_filter_filter. intros Hl. destruct (filter _ rows) as [|x l] eqn:E; [done|].
  assert (x ∈ x :: l) as Hx by by left. rewrite <- E in Hx. apply list_elem_of_filter in Hx as [[Hp Hw] Hx].
  exists x. split_and!; [done|done|by apply Is_true_true].
Qed.

Lemma filter_cons_bool {A} (p : A -> bool) x l : length (filter p (x :: l)) = (if p x then 1 else 0) + length (filter p l).
Proof. rewrite filter_cons. by destruct (p x). Qed.

Lemma filter_andb_le {A} (p q : A -> bool) l : length (filter (fun r => p r && q r) l) <= length (filter p l).
Proof.
  induction l as [|x l IH]; [done|]. rewrite !filter_cons_bool. destruct (p x), (q x); cbn in *; lia.
Qed.

(** When as many rows pass both tests as pass the first, all do. *)
Lemma held_all {R} ws (f : R -> Uuid) (p q : R -> bool) rows :
  (held ws f p rows - held ws f (fun r => p r && q r) rows)%N = 0%N ->
  forall r, r ∈ rows -> f r = ws -> p r = true -> q r = true.
Proof.
  unfold held. intros Hl r Hr Hw Hp.
  assert (Hin : r ∈ owned ws f rows) by by apply list_elem_of_filter.
  clear Hr Hw. revert Hl Hin. generalize (owned ws f rows) as l.
  induction l as [|x l IH]; intros Hl Hin; [by apply elem_of_nil in Hin|].
  pose proof (filter_andb_le p q l) as Hle. rewrite !filter_cons_bool in Hl.
  apply elem_of_cons in Hin as [<-|Hin].
  - rewrite Hp in Hl. destruct (q r); [done|]. cbn [andb] in Hl. lia.
  - apply IH; [|done]. destruct (p x), (q x); cbn [andb] in Hl; lia.
Qed.

(** ** What the calls leave behind *)

(** [d] is [d0] after [k] queries to ClickHouse and none to Redis. *)
Definition after (k : nat) (d0 d : Db) : Prop :=
  (forall n, d_ch_faults d n = d_ch_faults d0 (k + n)) /\ (forall n, t_redis_faults (d_export d) n = t_redis_faults (d_export d0) n).

Lemma after_pg k d0 d f : after k d0 d -> after k d0 (or_err f pg_io d).2.
Proof. intros [Hc Hr]. unfold or_err, pg_io. by destruct (d_pg_faults d 0). Qed.

Definition keeps_calls {A} (x : Api A) : Prop := forall k d0 d, after k d0 d -> after k d0 (x d).2.
Lemma keeps_calls_bind {A B} (x : Api A) (k : A -> Api B) :
  keeps_calls x -> (forall a, keeps_calls (k a)) -> keeps_calls (x ≫= k).
Proof.
  intros Hx Hk n d0 d Hd. unfold mbind, Api_bind. specialize (Hx n d0 d Hd).
  destruct (x d) as [[a|e|] d1]; [by apply Hk|done..].
Qed.
Lemma keeps_calls_pg f : keeps_calls (or_err f pg_io).
Proof. intros k d0 d. apply after_pg. Qed.
Lemma keeps_calls_look {A} (f : Db -> A) : keeps_calls (api_total (fun d => (f d, d))).
Proof. by intros k d0 d Hd. Qed.
Lemma keeps_calls_ret {A} (a : A) : keeps_calls (mret a).
Proof. by intros k d0 d Hd. Qed.
Lemma keeps_calls_scope ws : keeps_calls (Scope.arm_scope ws).
Proof.
  apply keeps_calls_bind; [apply keeps_calls_pg|intros _]. apply keeps_calls_bind; [by intros k d0 d Hd|intros armed].
  apply keeps_calls_bind; [apply keeps_calls_pg|intros _]. case_decide; by intros k d0 d Hd.
Qed.
Lemma keeps_calls_map_err {A} f (x : Api A) : keeps_calls x -> keeps_calls (map_err f x).
Proof. intros Hx k d0 d Hd. specialize (Hx k d0 d Hd). unfold map_err. by destruct (x d) as [[] ?]. Qed.

(** What the [k]-th query finds. *)
Definition asked {A} (d0 : Db) (k : nat) (table : str) (f : list ChRow -> A) (ch : ClickHouse) : option A :=
  match d_ch_faults d0 k with
  | Some _ => None
  | None => f <$> ch_relations ch !! table
  end.

Definition answer_of {A} (r : A + str) : option A := match r with inl a => Some a | inr _ => None end.

Lemma ch_ask_ok {A} table (f : list ChRow -> A) ch k d0 d r d' :
  after k d0 d -> ch_ask table f ch d = (Ok r, d') -> answer_of r = asked d0 k table f ch /\ after (S k) d0 d'.
Proof.
  intros [Hc Hr] E. unfold ch_ask, ch_io in E. unfold asked. rewrite (Hc 0), Nat.add_0_r in E.
  assert (Ha : after (S k) d0 (with_env (d_arming d) (d_pg_faults d) (fun n => d_ch_faults d (S n)) d)).
  { split; [|done]. intros n. cbn. rewrite Hc. f_equal. lia. }
  destruct (d_ch_faults d0 k); injection E as <- <-; [done|]. by destruct (ch_relations ch !! table).
Qed.

(** ** What an answer is made of *)

Section spec.
Context `{CodecEnv} `{AesEnv} `{KmsEnv} `{BudgetKeys}.
Context (env : Env) (ch_db : str) (clock : Z) (now : DateTime) (nonce kms_call : nat).
Context (t : PgTables) (ch : nat -> ClickHouse) (exists_key : str -> bool).

#[local] Abbreviation inventory := (get_data_inventory env ch_db clock now nonce kms_call t ch exists_key).

Lemma postgres_counts_ok ws d0 d row d' : after 0 d0 d -> postgres_counts t ws d = (Ok row, d') ->
  (exists e, row = pg_counts (Some ws) e ws t) /\ after 0 d0 d'.
Proof using Type.
  intros Ha Hr. split.
  - apply api_bind_ok in Hr as (u & d1 & _ & (s & d2 & Hs%map_err_ok%arm_scope_ok & (u' & d3 & _ & (row' & d4 & Hn & (u'' & d5 & _ & Hr)
      %api_bind_ok)%api_bind_ok)%api_bind_ok)%api_bind_ok).
    injection Hr as <- _. injection Hn as <- _. rewrite Hs. by eexists.
  - assert (keeps_calls (postgres_counts t ws)) as Hk.
    { apply keeps_calls_bind; [apply keeps_calls_pg|intros _].
      apply keeps_calls_bind; [apply keeps_calls_map_err, keeps_calls_scope|intros s].
      apply keeps_calls_bind; [apply keeps_calls_pg|intros _]. apply keeps_calls_bind; [apply keeps_calls_look|intros r].
      apply keeps_calls_bind; [apply keeps_calls_pg|intros _]. apply keeps_calls_ret. }
    specialize (Hk 0 d0 d Ha). by rewrite Hr in Hk.
Qed.

Lemma raw_capture_ok ws d0 d s d' : after 0 d0 d -> raw_capture_get_effective t ws d = (Ok s, d') ->
  s = default RawCaptureSettings_default (tb_workspace_raw_capture t !! ws) /\ after 0 d0 d'.
Proof using Type.
  intros Ha Hr. split.
  - apply api_bind_ok in Hr as (row & d1 & Hg & Hr). injection Hr as <- _.
    apply api_bind_ok in Hg as (scope & d2 & (u & d3 & _ & Hs%arm_scope_ok)%api_bind_ok & (u' & d4 & _ & (row' & d5 & Hn &
      (u'' & d6 & _ & Hr)%api_bind_ok)%api_bind_ok)%api_bind_ok).
    injection Hr as <- _. injection Hn as <- _. rewrite Hs. unfold visible.
    rewrite bool_decide_eq_true_2 by done. by rewrite orb_true_r.
  - assert (keeps_calls (raw_capture_get_effective t ws)) as Hk.
    { apply keeps_calls_bind; [|intros r; apply keeps_calls_ret].
      apply keeps_calls_bind; [apply keeps_calls_bind; [apply keeps_calls_pg|intros _; apply keeps_calls_scope]|intros s'].
      apply keeps_calls_bind; [apply keeps_calls_pg|intros _]. apply keeps_calls_bind; [apply keeps_calls_look|intros r].
      apply keeps_calls_bind; [apply keeps_calls_pg|intros _]. apply keeps_calls_ret. }
    specialize (Hk 0 d0 d Ha). by rewrite Hr in Hk.
Qed.

(** What Redis answers about the counters. *)
Definition counters (d0 : Db) (ws : Uuid) : option N :=
  match t_redis_faults (d_export d0) 0, t_redis_faults (d_export d0) 1 with
  | None, None => Some (N.of_nat (length (filter exists_key [budget_daily_key clock ws; budget_monthly_key clock ws])))
  | _, _ => None
  end.

Lemma live_budget_keys_ok k d0 d ws r d' : after k d0 d -> live_budget_keys exists_key clock ws d = (Ok r, d') ->
  answer_of r = counters d0 ws.
Proof using Type.
  intros [_ Hr] E. unfold live_budget_keys, redis_io in E. unfold counters.
  rewrite <- !Hr. destruct (t_redis_faults (d_export d) 0); [by injection E as <- _|]. cbn in E.
  destruct (t_redis_faults (d_export d) 1); by injection E as <- _.
Qed.

Definition rows_count (ws : Uuid) (rows : list ChRow) : N := held ws ch_workspace any rows.

Lemma ch_count_ok table ws c k d0 d r d' : after k d0 d -> ch_count table ws c d = (Ok r, d') ->
  answer_of r = asked d0 k table (rows_count ws) c /\ after (S k) d0 d'.
Proof using Type. intros Ha Hr. by eapply ch_ask_ok. Qed.

Lemma asks_ok {M} (name : M -> str) ws (ms : list M) k d0 d rs d' : after k d0 d ->
  mapM (M := Api) (fun '(i, m) => ch_count (name m) ws (ch i)) (zip (seq k (length ms)) ms) d = (Ok rs, d') ->
  answer_of <$> rs = imap (fun j m => asked d0 (k + j) (name m) (rows_count ws) (ch (k + j))) ms
  /\ after (k + length ms) d0 d'.
Proof using Type.
  revert k d rs. induction ms as [|m ms IH]; intros k d rs Ha Hr.
  - injection Hr as <- <-. by rewrite Nat.add_0_r.
  - apply api_bind_ok in Hr as (r & d1 & [Hm Ha1]%(ch_count_ok _ _ _ _ _ _ _ _ Ha) & Hr).
    apply api_bind_ok in Hr as (rs' & d2 & Hrs & Hr). injection Hr as <- <-.
    destruct (IH (S k) _ _ Ha1 Hrs) as [He Ha2]. split.
    + cbn. rewrite Nat.add_0_r, Hm. f_equal. etrans; [exact He|]. apply imap_ext. intros j x _. cbn.
      by rewrite Nat.add_succ_r.
    + cbn. by rewrite Nat.add_succ_r.
Qed.

(** The answers of a run that started in [d]. *)
Record Answers : Type := {
  an_pg : PgCounts;
  an_settings : RawCaptureSettings;
  an_counts : list (N + str);     (* the seven tables, in the order asked *)
  an_captures : ShapeCount + str;
  an_legacy : N + str;
  an_dbt : list (N + str);        (* the seven dbt relations *)
  an_budget : N + str;
}.

(** The relations counted, in the order asked. *)
Definition counted_tables : list str :=
  [$"request_events"; $"policy_events"; $"token_usage"; $"latency_samples"; $"detection_class_counts";
   $"mv_hourly_cost_agg"; $"mv_p95_latency_agg"].
Definition dbt_relations : list str :=
  (relation DbtDb.STAGING <$> [$"stg_request_events"; $"stg_policy_events"])
  ++ [relation DbtDb.INTERMEDIATE $"int_requests_enriched"]
  ++ (relation DbtDb.MARTS <$> [$"mart_usage_daily"; $"mart_cost_by_model"; $"mart_policy_violations"; $"mart_latency_pctiles"]).

Definition capture_shape (ws : Uuid) (rows : list ChRow) : ShapeCount :=
  {| sc_total := held ws ch_workspace any rows; sc_with_payload := held ws ch_workspace has_payload rows;
     sc_matching := held ws ch_workspace (fun r => has_payload r && row_sealed r) rows |}.

(** They are what the stores hold for the workspace. *)
Record true_answers (ws : Uuid) (d : Db) (a : Answers) : Prop := {
  ta_pg : exists e, an_pg a = pg_counts (Some ws) e ws t;
  ta_settings : an_settings a = default RawCaptureSettings_default (tb_workspace_raw_capture t !! ws);
  ta_counts : answer_of <$> an_counts a
    = imap (fun k table => asked d k table (rows_count ws) (ch k)) counted_tables;
  ta_captures : answer_of (an_captures a) = asked d 7 $"request_content_captures" (capture_shape ws) (ch 7);
  ta_legacy : answer_of (an_legacy a) = asked d 8 $"request_events" (held ws ch_workspace has_payload) (ch 8);
  ta_dbt : answer_of <$> an_dbt a
    = imap (fun k table => asked d (9 + k) table (rows_count ws) (ch (9 + k))) dbt_relations;
  ta_budget : answer_of (an_budget a) = counters d ws;
}.

Definition artifacts_of (a : Answers) : list ArtifactClass :=
  match an_counts a, an_dbt a with
  | [c0; c1; c2; c3; c4; c5; c6], [s1; s2; i; m1; m2; m3; m4] =>
      [art_request_events ch_db c0 (an_legacy a); art_request_content_captures ch_db (an_settings a) (an_captures a)]
      ++ (art_event_table ch_db <$> event_tables c1 c2 c3 c4)
      ++ (art_aggregate ch_db <$> aggregate_tables c5 c6)
      ++ zip_with art_staging staging_models [s1; s2]
      ++ [art_int_requests_enriched i]
      ++ zip_with art_mart mart_models [m1; m2; m3; m4]
      ++ [art_token_vault_entries (an_pg a); art_users (an_pg a); art_refresh_tokens (an_pg a);
          art_session_device_context (an_pg a); art_api_keys (an_pg a);
          art_providers (an_pg a) (provider_key_self_test nonce env).1; art_user_backup_codes (an_pg a);
          art_policy_rules (an_pg a); art_raw_capture_audit (an_pg a); art_retention_purge_audit (an_pg a);
          art_session_revocation_audit (an_pg a); art_admin_audit (an_pg a); art_audit_exports (an_pg a);
          art_audit_export_pages (an_pg a)]
      ++ (art_settings <$> settings_tables (an_pg a))
      ++ [art_redis_budget (an_budget a)]
  | _, _ => []
  end.

Lemma inventory_made ctx d r d' : inventory ctx d = (Ok r, d') ->
  require_role (jc_role ctx) Admin = Ok tt
  /\ exists a, true_answers (jc_workspace_id ctx) d a /\ di_artifacts r = artifacts_of a
       /\ di_not_enumerable r = not_enumerable
       /\ eb_kms_self_test (di_encryption_basis r) = (kms_self_test kms_call).1
       /\ eb_provider_key_self_test (di_encryption_basis r) = (provider_key_self_test nonce env).1.
Proof using Type.
  intros Hr. unfold get_data_inventory in Hr.
  apply api_bind_ok in Hr as ([] & d1 & Hadmin & Hr). injection Hadmin as Hadmin <-. split; [done|].
  assert (Ha : after 0 d d) by done.
  apply api_bind_ok in Hr as (pg & d2 & [Hpg Ha1]%(postgres_counts_ok _ _ _ _ _ Ha) & Hr). clear Ha.
  apply api_bind_ok in Hr as (s & d3 & [Hs Ha]%(raw_capture_ok _ _ _ _ _ Ha1) & Hr). clear Ha1.
  apply api_bind_ok in Hr as (c0 & e0 & [H0' Ha0]%(ch_count_ok _ _ _ _ _ _ _ _ Ha) & Hr). clear Ha.
  apply api_bind_ok in Hr as (c1 & e1 & [H1' Ha]%(ch_count_ok _ _ _ _ _ _ _ _ Ha0) & Hr). clear Ha0.
  apply api_bind_ok in Hr as (c2 & e2 & [H2' Ha0]%(ch_count_ok _ _ _ _ _ _ _ _ Ha) & Hr). clear Ha.
  apply api_bind_ok in Hr as (c3 & e3 & [H3' Ha]%(ch_count_ok _ _ _ _ _ _ _ _ Ha0) & Hr). clear Ha0.
  apply api_bind_ok in Hr as (c4 & e4 & [H4' Ha0]%(ch_count_ok _ _ _ _ _ _ _ _ Ha) & Hr). clear Ha.
  apply api_bind_ok in Hr as (c5 & e5 & [H5' Ha]%(ch_count_ok _ _ _ _ _ _ _ _ Ha0) & Hr). clear Ha0.
  apply api_bind_ok in Hr as (c6 & e6 & [H6' Ha0]%(ch_count_ok _ _ _ _ _ _ _ _ Ha) & Hr). clear Ha.
  apply api_bind_ok in Hr as (cap & e7 & [H7' Ha]%(ch_ask_ok _ _ _ _ _ _ _ _ Ha0) & Hr). clear Ha0.
  apply api_bind_ok in Hr as (leg & e8 & [H8' Ha0]%(ch_ask_ok _ _ _ _ _ _ _ _ Ha) & Hr). clear Ha.
  apply api_bind_ok in Hr as (stg & e9 & [H9' Ha]%(asks_ok (fun m => relation DbtDb.STAGING m.1.1) _ staging_models _ _ _ _ _ Ha0) & Hr).
  clear Ha0. cbn [length staging_models Nat.add] in Ha.
  apply api_bind_ok in Hr as (enr & e10 & [H10' Ha0]%(ch_count_ok _ _ _ _ _ _ _ _ Ha) & Hr). clear Ha.
  apply api_bind_ok in Hr as (mrt & e11 & [H11' Ha]%(asks_ok (fun m => relation DbtDb.MARTS m.1) _ mart_models _ _ _ _ _ Ha0) & Hr).
  clear Ha0. apply api_bind_ok in Hr as (bk & e12 & Hbk%(live_budget_keys_ok _ _ _ _ _ _ Ha) & Hr).
  injection Hr as <- _. destruct stg as [|s1 [|s2 [|? ?]]]; try done. destruct mrt as [|m1 [|m2 [|m3 [|m4 [|? ?]]]]]; try done.
  exists {| an_pg := pg; an_settings := s; an_counts := [c0; c1; c2; c3; c4; c5; c6]; an_captures := cap; an_legacy := leg;
    an_dbt := [s1; s2; enr; m1; m2; m3; m4]; an_budget := bk |}. split; [|done].
  split; cbn -[asked relation] in *; [done|done| |done|done| |done].
  - by rewrite H0', H1', H2', H3', H4', H5', H6'.
  - injection H9' as -> ->. injection H11' as -> -> -> ->. by rewrite H10'.
Qed.

(** ** Every number *)

Definition pg_held (ws : Uuid) : list (str * N) :=
  [($"token_vault_entries", held ws fst any (tb_token_vault_entries t));
   ($"users", held ws pu_workspace_id any (tb_users t));
   ($"refresh_tokens", held ws pk_workspace_id any (tb_refresh_tokens t));
   ($"session_device_context",
     held ws pk_workspace_id (fun k => is_some (pk_client_ip k) || is_some (pk_client_descriptor k)) (tb_refresh_tokens t));
   ($"api_keys", held ws fst any (tb_api_keys t));
   ($"providers", held ws fst any (tb_providers t));
   ($"user_backup_codes", N.of_nat (length (codes_of ws t)));
   ($"policy_rules", held ws id any (tb_policy_rules t));
   ($"raw_capture_audit", held ws id any (tb_raw_capture_audit t));
   ($"retention_purge_audit", held ws id any (omap id (tb_retention_purge_audit t)));
   ($"session_revocation_audit", held ws id any (tb_session_revocation_audit t));
   ($"admin_audit", held ws id any (tb_admin_audit t));
   ($"audit_exports", held ws id any (tb_audit_exports t));
   ($"audit_export_pages", held ws id any (tb_audit_export_pages t));
   ($"workspaces", held ws id any (tb_workspaces t));
   ($"models", held ws id any (tb_models t));
   ($"audit_events_meta", held ws id any (tb_audit_events_meta t));
   ($"workspace_budgets", held ws id any (tb_workspace_budgets t));
   ($"workspace_secure_mode", held ws id any (tb_workspace_secure_mode t));
   ($"workspace_sidecar_policy", held ws id any (tb_workspace_sidecar_policy t));
   ($"workspace_raw_capture", held ws fst any (map_to_list (tb_workspace_raw_capture t)))].

(** What the stores hold of a workspace, per class, in the order reported;
    [None] where a store does not answer. *)
Definition measures (ws : Uuid) (d : Db) : list (str * option N) :=
  let ask k table := asked d k table (rows_count ws) (ch k) in
  [($"request_events", ask 0 $"request_events");
   ($"request_content_captures", ask 7 $"request_content_captures");
   ($"policy_events", ask 1 $"policy_events"); ($"token_usage", ask 2 $"token_usage");
   ($"latency_samples", ask 3 $"latency_samples"); ($"detection_class_counts", ask 4 $"detection_class_counts");
   ($"mv_hourly_cost_agg", ask 5 $"mv_hourly_cost_agg"); ($"mv_p95_latency_agg", ask 6 $"mv_p95_latency_agg");
   ($"stg_request_events", ask 9 (relation DbtDb.STAGING $"stg_request_events"));
   ($"stg_policy_events", ask 10 (relation DbtDb.STAGING $"stg_policy_events"));
   ($"int_requests_enriched", ask 11 (relation DbtDb.INTERMEDIATE $"int_requests_enriched"));
   ($"mart_usage_daily", ask 12 (relation DbtDb.MARTS $"mart_usage_daily"));
   ($"mart_cost_by_model", ask 13 (relation DbtDb.MARTS $"mart_cost_by_model"));
   ($"mart_policy_violations", ask 14 (relation DbtDb.MARTS $"mart_policy_violations"));
   ($"mart_latency_pctiles", ask 15 (relation DbtDb.MARTS $"mart_latency_pctiles"))]
  ++ (prod_map id Some <$> pg_held ws)
  ++ [($"redis:budget", counters d ws)].

(** A class and its number, and that its status says whether there is one. *)
Definition reported (a : ArtifactClass) : str * option N := (art_class a, art_row_count a).
Definition status_of (n : option N) : str := if is_some n then $"counted" else $"unavailable".
Definition honest (a : ArtifactClass) : Prop := art_row_count_status a = status_of (art_row_count a).

Lemma reported_events c l : reported (art_request_events ch_db c l) = ($"request_events", answer_of c) /\ honest (art_request_events ch_db c l).
Proof using Type. by destruct c. Qed.
Lemma reported_captures s c : reported (art_request_content_captures ch_db s c)
  = ($"request_content_captures", sc_total <$> answer_of c) /\ honest (art_request_content_captures ch_db s c).
Proof using Type. by destruct c. Qed.
Lemma reported_table cl desc c days : reported (art_event_table ch_db (cl, desc, c, days)) = (cl, answer_of c)
  /\ honest (art_event_table ch_db (cl, desc, c, days)).
Proof using Type. by destruct c. Qed.
Lemma reported_aggregate cl desc c : reported (art_aggregate ch_db (cl, desc, c)) = (cl, answer_of c)
  /\ honest (art_aggregate ch_db (cl, desc, c)).
Proof using Type. by destruct c. Qed.
Lemma reported_staging cl src desc c : reported (art_staging (cl, src, desc) c) = (cl, answer_of c)
  /\ honest (art_staging (cl, src, desc) c).
Proof using Type. by destruct c. Qed.
Lemma reported_enriched c : reported (art_int_requests_enriched c) = ($"int_requests_enriched", answer_of c)
  /\ honest (art_int_requests_enriched c).
Proof using Type. by destruct c. Qed.
Lemma reported_mart cl desc c : reported (art_mart (cl, desc) c) = (cl, answer_of c) /\ honest (art_mart (cl, desc) c).
Proof using Type. by destruct c. Qed.
Lemma reported_budget c : reported (art_redis_budget c) = ($"redis:budget", answer_of c) /\ honest (art_redis_budget c).
Proof using Type. by destruct c. Qed.

(** The Postgres classes, in the order of the document. *)
Definition pg_artifacts (pg : PgCounts) (key_test : str) : list ArtifactClass :=
  [art_token_vault_entries pg; art_users pg; art_refresh_tokens pg; art_session_device_context pg; art_api_keys pg;
   art_providers pg key_test; art_user_backup_codes pg; art_policy_rules pg; art_raw_capture_audit pg;
   art_retention_purge_audit pg; art_session_revocation_audit pg; art_admin_audit pg; art_audit_exports pg;
   art_audit_export_pages pg] ++ (art_settings <$> settings_tables pg).

Lemma pg_held_is ws e key_test :
  reported <$> pg_artifacts (pg_counts (Some ws) e ws t) key_test = prod_map id Some <$> pg_held ws.
Proof using Type.
  unfold pg_held. rewrite <- (Nat2Z.id (length (codes_of ws t))), Z_nat_N.
  rewrite <- (count_where_armed false e ws fst any (tb_token_vault_entries t)),
    <- (count_where_armed false e ws pu_workspace_id any (tb_users t)),
    <- (count_where_armed false e ws id any (tb_workspaces t)), <- !(count_where_armed true e).
  reflexivity.
Qed.

Lemma pg_honest pg key_test : Forall honest (pg_artifacts pg key_test).
Proof using Type. unfold pg_artifacts. apply Forall_app. split; repeat constructor. Qed.

Lemma asked_fmap {A B} (g : A -> B) d k table (f : list ChRow -> A) c :
  g <$> asked d k table f c = asked d k table (fun rows => g (f rows)) c.
Proof using Type. unfold asked. destruct (d_ch_faults d k); [done|]. by destruct (ch_relations c !! table). Qed.

(** The document in three parts: ClickHouse, Postgres, Redis. *)
Lemma artifacts_split ws d a : true_answers ws d a ->
  exists c0 c1 c2 c3 c4 c5 c6 s1 s2 i m1 m2 m3 m4,
    an_counts a = [c0; c1; c2; c3; c4; c5; c6] /\ an_dbt a = [s1; s2; i; m1; m2; m3; m4]
    /\ artifacts_of a = ([art_request_events ch_db c0 (an_legacy a); art_request_content_captures ch_db (an_settings a) (an_captures a)]
      ++ (art_event_table ch_db <$> event_tables c1 c2 c3 c4) ++ (art_aggregate ch_db <$> aggregate_tables c5 c6)
      ++ zip_with art_staging staging_models [s1; s2] ++ [art_int_requests_enriched i]
      ++ zip_with art_mart mart_models [m1; m2; m3; m4])
      ++ pg_artifacts (an_pg a) (provider_key_self_test nonce env).1 ++ [art_redis_budget (an_budget a)].
Proof using Type.
  intros [_ _ Hc _ _ Hd _]. unfold artifacts_of, pg_artifacts.
  destruct (an_counts a) as [|c0 [|c1 [|c2 [|c3 [|c4 [|c5 [|c6 [|? ?]]]]]]]]; try done.
  destruct (an_dbt a) as [|s1 [|s2 [|i [|m1 [|m2 [|m3 [|m4 [|? ?]]]]]]]]; try done.
  repeat eexists.
Qed.

(** C33: Every class of the document carries the number of the workspace's own
    rows in that relation, read in this request and under its own tenancy
    scope, or no number at all when the store did not answer - never a zero in
    its place - and the status says which. *)
Theorem inventory_is_measured ctx d r d' : inventory ctx d = (Ok r, d') ->
  reported <$> di_artifacts r = measures (jc_workspace_id ctx) d /\ Forall honest (di_artifacts r).
Proof using Type.
  intros (_ & a & Ha & -> & _)%inventory_made.
  destruct (artifacts_split _ _ _ Ha) as (c0 & c1 & c2 & c3 & c4 & c5 & c6 & s1 & s2 & i & m1 & m2 & m3 & m4 & Ec & Ed & ->).
  destruct Ha as [[e Hpg] _ Hc Hcap _ Hd Hb]. rewrite Ec in Hc. rewrite Ed in Hd.
  cbn -[asked relation] in Hc, Hd. injection Hc as H0' H1' H2' H3' H4' H5' H6'. injection Hd as K1 K2 K3 K4 K5 K6 K7.
  split.
  - unfold measures. rewrite !fmap_app, Hpg, pg_held_is. f_equal; [|f_equal].
    + cbn [fmap list_fmap event_tables aggregate_tables staging_models mart_models zip_with app].
      rewrite (proj1 (reported_events _ _)), (proj1 (reported_captures _ _)), !(proj1 (reported_table _ _ _ _)),
        !(proj1 (reported_aggregate _ _ _)), !(proj1 (reported_staging _ _ _ _)), (proj1 (reported_enriched _)),
        !(proj1 (reported_mart _ _ _)).
      rewrite Hcap, asked_fmap, H0', H1', H2', H3', H4', H5', H6', K1, K2, K3, K4, K5, K6, K7. reflexivity.
    + cbn [fmap list_fmap]. by rewrite (proj1 (reported_budget _)), Hb.
  - rewrite Forall_app. split; [|apply Forall_app; split; [apply pg_honest|constructor; [apply reported_budget|done]]].
    cbn [fmap list_fmap event_tables aggregate_tables staging_models mart_models zip_with app].
    rewrite !Forall_cons. split_and!; [apply reported_events|apply reported_captures|..].
    1-4: apply reported_table. 1-2: apply reported_aggregate. 1-2: apply reported_staging.
    1: apply reported_enriched. 1-4: apply reported_mart. done.
Qed.

(** ** Every verdict

    It depends on the two numbers alone. *)

Lemma sealed_verdict total matching : en_at_rest (Encryption_sealed [] total matching None) = AtRest.CIPHERTEXT ->
  total <> 0%N /\ (total - matching)%N = 0%N.
Proof using Type.
  unfold Encryption_sealed. cbn. destruct (N.eqb_spec total 0); [done|]. destruct (N.eqb_spec (total - matching) 0); [done|].
  by destruct (matching =? 0)%N.
Qed.
Lemma sealed_not_hashed total matching : en_at_rest (Encryption_sealed [] total matching None) <> AtRest.HASHED.
Proof using Type.
  unfold Encryption_sealed. cbn. destruct (total =? 0)%N; [done|]. destruct (total - matching =? 0)%N; [done|].
  by destruct (matching =? 0)%N.
Qed.
Lemma hashed_verdict total matching : en_at_rest (Encryption_hashed [] total matching []) = AtRest.HASHED ->
  total <> 0%N /\ (total - matching)%N = 0%N.
Proof using Type.
  unfold Encryption_hashed. cbn. destruct (N.eqb_spec total 0); [done|]. by destruct (N.eqb_spec (total - matching) 0).
Qed.
(** A hashed class in which nothing passes is not told from one in which
    something does. *)
Lemma hashed_none_reads_mixed total : total <> 0%N -> en_at_rest (Encryption_hashed [] total 0 []) = AtRest.MIXED.
Proof using Type.
  intros Ht. unfold Encryption_hashed. cbn. rewrite N.sub_0_r. by destruct (N.eqb_spec total 0).
Qed.
Lemma hashed_not_sealed total matching : en_at_rest (Encryption_hashed [] total matching []) <> AtRest.CIPHERTEXT.
Proof using Type.
  unfold Encryption_hashed. cbn. destruct (total =? 0)%N; [done|]. by destruct (total - matching =? 0)%N.
Qed.

(** The workspace has such rows, and all of them pass. *)
Definition all_pass {R} (ws : Uuid) (workspace_of : R -> Uuid) (such pass : R -> bool) (rows : list R) : Prop :=
  (exists r, r ∈ rows /\ workspace_of r = ws /\ such r = true)
  /\ forall r, r ∈ rows -> workspace_of r = ws -> such r = true -> pass r = true.

Lemma all_pass_held {R} ws (f : R -> Uuid) (p q : R -> bool) rows :
  held ws f p rows <> 0%N /\ (held ws f p rows - held ws f (fun r => p r && q r) rows)%N = 0%N -> all_pass ws f p q rows.
Proof using Type. intros [Hs Ha]. split; [by apply held_some|by apply held_all]. Qed.

(** What stands behind a protective verdict on a class. *)
Definition evidence (ws : Uuid) (class verdict : str) : Prop :=
  (verdict = AtRest.CIPHERTEXT ->
     class = $"token_vault_entries" /\ all_pass ws fst any (fun e => pg_sealed e.2) (tb_token_vault_entries t)
     \/ class = $"providers"
        /\ all_pass ws fst (fun p => is_some p.2) (fun p => opt_sealed p.2) (tb_providers t)
     \/ class = $"request_content_captures"
        /\ exists rows, ch_relations (ch 7) !! $"request_content_captures" = Some rows
             /\ all_pass ws ch_workspace has_payload row_sealed rows)
  /\ (verdict = AtRest.HASHED ->
     class = $"api_keys" /\ all_pass ws fst any (fun k => sha256_hash k.2) (tb_api_keys t)
     \/ class = $"refresh_tokens"
        /\ all_pass ws pk_workspace_id any (fun k => sha256_hash (pk_token_hash k)) (tb_refresh_tokens t)
     \/ class = $"user_backup_codes" /\ all_pass ws (const ws) any argon2_hash (codes_of ws t)).

Definition backed (ws : Uuid) (a : ArtifactClass) : Prop := evidence ws (art_class a) (en_at_rest (art_encryption a)).

Lemma not_in_strs (v : str) (l : list str) : negb (existsb (fun x => bool_decide (x = v)) l) = true -> v ∉ l.
Proof using Type.
  intros Hn Hv. apply negb_true_iff in Hn. apply not_true_iff_false in Hn. apply Hn. apply existsb_exists.
  exists v. split; [by apply list_elem_of_In|by apply bool_decide_eq_true_2].
Qed.

(** A class that claims no protection needs none. *)
Lemma unprotected_backed ws a :
  en_at_rest (art_encryption a) ∈ [AtRest.PLAIN_BY_DESIGN; AtRest.UNKNOWN; AtRest.MIXED; AtRest.EMPTY] -> backed ws a.
Proof using Type.
  intros Hv. split; intros E; rewrite E in Hv; exfalso; revert Hv; apply not_in_strs; reflexivity.
Qed.

Lemma plain_backed ws a note : art_encryption a = Encryption_plain note -> backed ws a.
Proof using Type. intros E. apply unprotected_backed. rewrite E. by left. Qed.

Lemma captures_backed ws d s c : answer_of c = asked d 7 $"request_content_captures" (capture_shape ws) (ch 7) ->
  backed ws (art_request_content_captures ch_db s c).
Proof using Type.
  intros Hc. unfold backed. assert (en_at_rest (art_encryption (art_request_content_captures ch_db s c))
    = en_at_rest (captures_encryption c)) as -> by by destruct c.
  assert (art_class (art_request_content_captures ch_db s c) = $"request_content_captures") as -> by by destruct c.
  split; intros Hv.
  - right; right. split; [done|]. destruct c as [c|]; [|done]. cbn [answer_of] in Hc. unfold asked in Hc.
    destruct (d_ch_faults d 7); [done|]. destruct (ch_relations (ch 7) !! _) as [rows|]; [|done].
    exists rows. split; [done|]. injection Hc as ->. apply all_pass_held. by eapply sealed_verdict.
  - destruct c as [c|]; [|done]. by eapply sealed_not_hashed in Hv.
Qed.

Section counts.
Context (ws : Uuid) (e : Db).
#[local] Abbreviation pg := (pg_counts (Some ws) e ws t).

Lemma vault_backed : backed ws (art_token_vault_entries pg).
Proof using Type.
  split; intros Hv; [|by eapply sealed_not_hashed in Hv]. left. split; [done|]. apply all_pass_held.
  rewrite <- !(count_where_armed false e). by eapply sealed_verdict.
Qed.
Lemma providers_backed key_test : backed ws (art_providers pg key_test).
Proof using Type.
  split; intros Hv; [|by eapply sealed_not_hashed in Hv]. right; left. split; [done|]. apply all_pass_held.
  rewrite <- !(count_where_armed true e). by eapply sealed_verdict.
Qed.
Lemma api_keys_backed : backed ws (art_api_keys pg).
Proof using Type.
  split; intros Hv; [by eapply hashed_not_sealed in Hv|]. left. split; [done|]. apply all_pass_held.
  rewrite <- !(count_where_armed true e). by eapply hashed_verdict.
Qed.
Lemma refresh_tokens_backed : backed ws (art_refresh_tokens pg).
Proof using Type.
  split; intros Hv; [by eapply hashed_not_sealed in Hv|]. right; left. split; [done|]. apply all_pass_held.
  rewrite <- !(count_where_armed true e). by eapply hashed_verdict.
Qed.

Lemma held_const {R} (p : R -> bool) rows : held ws (const ws) p rows = N.of_nat (length (filter p rows)).
Proof using Type. unfold held, owned. by rewrite (filter_all (fun r => const ws r = ws)) by by apply Forall_true. Qed.

Lemma backup_codes_backed : backed ws (art_user_backup_codes pg).
Proof using Type.
  split; intros Hv; [by eapply hashed_not_sealed in Hv|]. right; right. split; [done|]. apply all_pass_held.
  rewrite !held_const. rewrite (filter_all any) by by apply Forall_true. rewrite !counted_nat.
  by eapply hashed_verdict.
Qed.

(** The users' verdict is declared: mixed as soon as there is a member. *)
Lemma users_verdict n v :
  (if (0 <? n)%N then AtRest.MIXED else en_at_rest (Encryption_hashed [] n v [])) ∈ [AtRest.MIXED; AtRest.EMPTY].
Proof using Type. destruct n as [|p]; [by right; left|by left]. Qed.
Lemma users_backed : backed ws (art_users pg).
Proof using Type.
  apply unprotected_backed. do 2 right. exact (users_verdict (pg_n pg $"c_users") (pg_n pg $"v_users")).
Qed.
End counts.

Lemma pg_backed ws e key_test : Forall (backed ws) (pg_artifacts (pg_counts (Some ws) e ws t) key_test).
Proof using Type.
  unfold pg_artifacts. apply Forall_app. split.
  - repeat apply Forall_cons_2; try (by eapply plain_backed);
      [apply vault_backed|apply users_backed|apply refresh_tokens_backed|apply api_keys_backed|apply providers_backed
      |apply backup_codes_backed|done].
  - apply Forall_fmap, Forall_forall. intros [[[[cl loc] desc] n] note] _. by eapply plain_backed.
Qed.

Lemma events_backed ws c l : backed ws (art_request_events ch_db c l).
Proof using Type. destruct c; (apply unprotected_backed; by left). Qed.
Lemma table_backed ws x : backed ws (art_event_table ch_db x).
Proof using Type. destruct x as [[[cl desc] [c|c]] days]; (apply unprotected_backed; by left). Qed.
Lemma aggregate_backed ws x : backed ws (art_aggregate ch_db x).
Proof using Type. destruct x as [[cl desc] [c|c]]; by eapply plain_backed. Qed.
Lemma staging_backed ws m c : backed ws (art_staging m c).
Proof using Type. destruct m as [[cl src] desc], c; by eapply plain_backed. Qed.
Lemma enriched_backed ws c : backed ws (art_int_requests_enriched c).
Proof using Type. destruct c; by eapply plain_backed. Qed.
Lemma mart_backed ws m c : backed ws (art_mart m c).
Proof using Type. destruct m as [cl desc], c; by eapply plain_backed. Qed.
Lemma budget_backed ws c : backed ws (art_redis_budget c).
Proof using Type. destruct c; by eapply plain_backed. Qed.

(** C31: A class is reported [ciphertext] or [hashed] only when the workspace
    has such rows and every one of them has the shape: a class with nothing in
    it, a store that does not answer, one plaintext row among many - none of
    these reads as protected, and no class is protected by declaration. *)
Theorem protective_verdicts_are_backed ctx d r d' : inventory ctx d = (Ok r, d') ->
  Forall (backed (jc_workspace_id ctx)) (di_artifacts r).
Proof using Type.
  intros (_ & a & Ha & -> & _)%inventory_made.
  destruct (artifacts_split _ _ _ Ha) as (c0 & c1 & c2 & c3 & c4 & c5 & c6 & s1 & s2 & i & m1 & m2 & m3 & m4 & _ & _ & ->).
  destruct Ha as [[e ->] _ _ Hcap _ _ _]. rewrite !Forall_app. split_and!.
  - repeat apply Forall_cons_2; [apply events_backed|by eapply captures_backed|done].
  - apply Forall_fmap, Forall_forall. intros x _. apply table_backed.
  - apply Forall_fmap, Forall_forall. intros x _. apply aggregate_backed.
  - repeat apply Forall_cons_2; [apply staging_backed..|done].
  - apply Forall_cons_2; [apply enriched_backed|done].
  - repeat apply Forall_cons_2; [apply mart_backed..|done].
  - apply pg_backed.
  - apply Forall_cons_2; [apply budget_backed|done].
Qed.
End spec.

(** ** The answer is the tenant's own *)

(** Two computations that succeed on the same deployments, with related
    answers. *)
Definition agree {A} (R : A -> A -> Prop) (x y : Api A) : Prop := forall d d', alike d d' ->
  match (x d).1, (y d').1 with Ok a, Ok b => R a b | Ok _, _ | _, Ok _ => False | _, _ => True end
  /\ alike (x d).2 (y d').2.

Lemma agree_same {A} (x y : Api A) : same_answer x y -> agree eq x y.
Proof. intros Hs d d' Hd. destruct (Hs d d' Hd) as [-> ?]. by destruct (y d').1. Qed.

Lemma agree_bind {A B} (R : A -> A -> Prop) (S : B -> B -> Prop) (x y : Api A) (k l : A -> Api B) :
  agree R x y -> (forall a b, R a b -> agree S (k a) (l b)) -> agree S (x ≫= k) (y ≫= l).
Proof.
  intros Hx Hk d d' Hd. unfold mbind, Api_bind. specialize (Hx d d' Hd).
  destruct (x d) as [[a|e|] d1], (y d') as [[b|e'|] d1']; cbn in Hx; destruct Hx as [Hr Ha]; try done. by apply (Hk a b).
Qed.

Lemma agree_ret {A} (R : A -> A -> Prop) a b : R a b -> agree R (mret a) (mret b).
Proof. by intros Hr d d' Hd. Qed.

Lemma agree_pg f g : agree eq (or_err f pg_io) (or_err g pg_io).
Proof.
  intros d d' [Hb Ha Hp Hc Hr]. unfold or_err, pg_io.
  assert (alike (with_env (d_arming d) (fun n => d_pg_faults d (S n)) (d_ch_faults d) d)
                (with_env (d_arming d') (fun n => d_pg_faults d' (S n)) (d_ch_faults d') d')) by (by split; cbn).
  specialize (Hp 0). destruct (d_pg_faults d 0), (d_pg_faults d' 0); cbn; split; try done.
  - by destruct Hp as [[] _].
  - by destruct Hp as [_ []].
Qed.

Lemma agree_map_err {A} (R : A -> A -> Prop) f g (x y : Api A) : agree R x y -> agree R (map_err f x) (map_err g y).
Proof.
  intros Hx d d' Hd. specialize (Hx d d' Hd). unfold map_err.
  by destruct (x d) as [[a|e|] d1], (y d') as [[b|e'|] d1'].
Qed.

Lemma agree_scope ws : agree eq (Scope.arm_scope ws) (Scope.arm_scope ws).
Proof.
  eapply agree_bind; [apply agree_pg|intros _ _ _]. eapply agree_bind; [apply agree_same, same_set_scope|intros s _ <-].
  eapply agree_bind; [apply agree_pg|intros _ _ _]. apply agree_same. case_decide; by intros d d' Hd.
Qed.

(** The same number, or none, whatever the reason. *)
Definition same_reading {A} (r r' : A + str) : Prop := answer_of r = answer_of r'.

Lemma agree_ask {A} table table' (f g : list ChRow -> A) c c' :
  f <$> ch_relations c !! table = g <$> ch_relations c' !! table' ->
  agree same_reading (ch_ask table f c) (ch_ask table' g c').
Proof.
  intros Hf d d' [Hb Ha Hp Hc Hr]. unfold ch_ask, ch_io.
  assert (alike (with_env (d_arming d) (d_pg_faults d) (fun n => d_ch_faults d (S n)) d)
                (with_env (d_arming d') (d_pg_faults d') (fun n => d_ch_faults d' (S n)) d')) by (by split; cbn).
  specialize (Hc 0). destruct (d_ch_faults d 0), (d_ch_faults d' 0); cbn; split; try done.
  - by destruct Hc as [[] _].
  - by destruct Hc as [_ []].
  - destruct (ch_relations c !! table), (ch_relations c' !! table'); try done.
Qed.

Lemma alike_redis d d' : alike d d' ->
  match redis_io d, redis_io d' with
  | (inl _, e), (inl _, e') | (inr _, e), (inr _, e') => alike e e'
  | _, _ => False
  end.
Proof.
  intros [Hb Ha Hp Hc Hr]. unfold redis_io.
  assert (alike (set_export (with_replies (t_embed (d_export d)) (fun n => t_redis_faults (d_export d) (S n))
                   (t_qdrant_faults (d_export d)) (d_export d)) d)
                (set_export (with_replies (t_embed (d_export d')) (fun n => t_redis_faults (d_export d') (S n))
                   (t_qdrant_faults (d_export d')) (d_export d')) d')) by (by split; cbn).
  specialize (Hr 0). destruct (t_redis_faults (d_export d) 0), (t_redis_faults (d_export d') 0); try done.
  - by destruct Hr as [[] _].
  - by destruct Hr as [_ []].
Qed.

Lemma agree_budget `{BudgetKeys} ex ex' clock ws :
  ex (budget_daily_key clock ws) = ex' (budget_daily_key clock ws) ->
  ex (budget_monthly_key clock ws) = ex' (budget_monthly_key clock ws) ->
  agree same_reading (live_budget_keys ex clock ws) (live_budget_keys ex' clock ws).
Proof.
  intros Hd Hm d d' Ha.
  assert (Hf : length (filter ex [budget_daily_key clock ws; budget_monthly_key clock ws])
    = length (filter ex' [budget_daily_key clock ws; budget_monthly_key clock ws])).
  { rewrite !filter_cons_bool. by rewrite Hd, Hm. }
  unfold live_budget_keys. apply alike_redis in Ha.
  destruct (redis_io d) as [[]], (redis_io d') as [[]]; try done. apply alike_redis in Ha.
  destruct (redis_io _) as [[]], (redis_io _) as [[]]; try done. split; [|done].
  unfold same_reading. cbn [fst answer_of]. by rewrite Hf.
Qed.

(** What Postgres holds of a workspace. *)
Record same_own (ws : Uuid) (t t' : PgTables) : Prop := {
  so_workspaces : owned ws id (tb_workspaces t) = owned ws id (tb_workspaces t');
  so_users : owned ws pu_workspace_id (tb_users t) = owned ws pu_workspace_id (tb_users t');
  so_api_keys : owned ws fst (tb_api_keys t) = owned ws fst (tb_api_keys t');
  so_providers : owned ws fst (tb_providers t) = owned ws fst (tb_providers t');
  so_models : owned ws id (tb_models t) = owned ws id (tb_models t');
  so_policy_rules : owned ws id (tb_policy_rules t) = owned ws id (tb_policy_rules t');
  so_audit_events_meta : owned ws id (tb_audit_events_meta t) = owned ws id (tb_audit_events_meta t');
  so_refresh_tokens : owned ws pk_workspace_id (tb_refresh_tokens t) = owned ws pk_workspace_id (tb_refresh_tokens t');
  so_budgets : owned ws id (tb_workspace_budgets t) = owned ws id (tb_workspace_budgets t');
  so_vault : owned ws fst (tb_token_vault_entries t) = owned ws fst (tb_token_vault_entries t');
  so_secure_mode : owned ws id (tb_workspace_secure_mode t) = owned ws id (tb_workspace_secure_mode t');
  so_codes : codes_of ws t = codes_of ws t';
  so_sidecar : owned ws id (tb_workspace_sidecar_policy t) = owned ws id (tb_workspace_sidecar_policy t');
  so_capture : owned ws fst (map_to_list (tb_workspace_raw_capture t)) = owned ws fst (map_to_list (tb_workspace_raw_capture t'));
  so_capture_audit : owned ws id (tb_raw_capture_audit t) = owned ws id (tb_raw_capture_audit t');
  so_purges : owned ws id (omap id (tb_retention_purge_audit t)) = owned ws id (omap id (tb_retention_purge_audit t'));
  so_exports : owned ws id (tb_audit_exports t) = owned ws id (tb_audit_exports t');
  so_pages : owned ws id (tb_audit_export_pages t) = owned ws id (tb_audit_export_pages t');
  so_revocations : owned ws id (tb_session_revocation_audit t) = owned ws id (tb_session_revocation_audit t');
  so_admin : owned ws id (tb_admin_audit t) = owned ws id (tb_admin_audit t');
}.

Lemma count_where_owned {R} policed scope d ws (f : R -> Uuid) p rows :
  count_where policed scope d ws f p rows = count_where policed scope d ws f p (owned ws f rows).
Proof.
  unfold count_where, owned. rewrite list_filter_filter. do 2 f_equal. apply list_filter_iff. intros r. cbn.
  destruct (bool_decide_reflect (f r = ws)); [tauto|]. rewrite andb_false_r. cbn. tauto.
Qed.

Lemma capture_owned ws (m : gmap Uuid RawCaptureSettings) s :
  m !! ws = Some s <-> (ws, s) ∈ owned ws fst (map_to_list m).
Proof. unfold owned. rewrite list_elem_of_filter, elem_of_map_to_list. cbn. tauto. Qed.

Lemma capture_row ws t t' : same_own ws t t' -> tb_workspace_raw_capture t !! ws = tb_workspace_raw_capture t' !! ws.
Proof. intros Ho. apply option_eq. intros s. by rewrite !capture_owned, (so_capture _ _ _ Ho). Qed.

Lemma counts_owned scope d d' ws t t' : same_own ws t t' -> alike d d' ->
  pg_counts scope d ws t = pg_counts scope d' ws t'.
Proof.
  intros Ho Hd. assert (Hv : forall w, visible scope w d = visible scope w d') by (intros w; unfold visible; by rewrite (al_bypass _ _ Hd)).
  assert (Hc : forall {R} policed (f : R -> Uuid) p rows rows', owned ws f rows = owned ws f rows' ->
    count_where policed scope d ws f p rows = count_where policed scope d' ws f p rows').
  { intros R policed f p rows rows' E. rewrite count_where_owned, E, <- count_where_owned. unfold count_where.
    do 2 f_equal. apply list_filter_iff. intros r. by rewrite Hv. }
  destruct Ho as [? ? ? ? ? ? ? ? ? ? ? Hcodes]. unfold pg_counts. cbv zeta. rewrite Hcodes.
  repeat (apply (f_equal2 cons); [f_equal; first [by apply Hc|done]|]). done.
Qed.

Lemma agree_look {A} (f g : Db -> A) : (forall d d', alike d d' -> f d = g d') ->
  agree eq (api_total (fun d => (f d, d))) (api_total (fun d => (g d, d))).
Proof. intros Hf d d' Hd. split; [by apply Hf|done]. Qed.

Lemma agree_postgres ws t t' : same_own ws t t' -> agree eq (postgres_counts t ws) (postgres_counts t' ws).
Proof.
  intros Ho. eapply agree_bind; [apply agree_pg|intros _ _ _].
  eapply agree_bind; [apply agree_map_err, agree_scope|intros s _ <-]. eapply agree_bind; [apply agree_pg|intros _ _ _].
  eapply agree_bind; [apply agree_look; intros; by apply counts_owned|intros r _ <-].
  eapply agree_bind; [apply agree_pg|intros _ _ _]. by apply agree_ret.
Qed.

Lemma agree_capture ws t t' : same_own ws t t' ->
  agree eq (raw_capture_get_effective t ws) (raw_capture_get_effective t' ws).
Proof.
  intros Ho. apply (agree_bind eq); [|intros r _ <-; by apply agree_ret].
  apply (agree_bind eq); [eapply agree_bind; [apply agree_pg|intros _ _ _; apply agree_scope]|intros s _ <-].
  eapply agree_bind; [apply agree_pg|intros _ _ _].
  apply (agree_bind eq); [apply agree_look; intros d d' Hd|intros r _ <-].
  - unfold visible. by rewrite (al_bypass _ _ Hd), (capture_row _ _ _ Ho).
  - eapply agree_bind; [apply agree_pg|intros _ _ _]. by apply agree_ret.
Qed.

(** What ClickHouse holds of a workspace. *)
Definition same_relations (ws : Uuid) (c c' : ClickHouse) : Prop :=
  forall table, own ws <$> ch_relations c !! table = own ws <$> ch_relations c' !! table.

Lemma agree_own {A} table ws c c' (f : list ChRow -> A) : same_relations ws c c' ->
  agree same_reading (ch_ask table (fun rows => f (own ws rows)) c) (ch_ask table (fun rows => f (own ws rows)) c').
Proof.
  intros Hc. apply agree_ask. specialize (Hc table).
  destruct (ch_relations c !! table), (ch_relations c' !! table); try done. injection Hc as Hc. cbn. by rewrite Hc.
Qed.

Lemma agree_shape ws c c' : same_relations ws c c' ->
  agree same_reading (ch_capture_shape ws c) (ch_capture_shape ws c').
Proof.
  apply (agree_own $"request_content_captures" ws c c' (fun rows =>
    {| sc_total := count_if (fun _ => true) rows; sc_with_payload := count_if has_payload rows;
       sc_matching := count_if (fun r => has_payload r && row_sealed r) rows |})).
Qed.

Lemma agree_mapM {A B} (R : B -> B -> Prop) (f g : A -> Api B) l :
  (forall a, agree R (f a) (g a)) -> agree (Forall2 R) (mapM (M := Api) f l) (mapM (M := Api) g l).
Proof.
  intros Hf. induction l as [|a l IH]; [by apply agree_ret|]. cbn.
  eapply agree_bind; [apply Hf|intros b b' Hb]. eapply agree_bind; [exact IH|intros bs bs' Hbs].
  apply agree_ret. by constructor.
Qed.

Section readings.
Context (ch_db : str).

Ltac read := let H := fresh in let x := fresh in let y := fresh in
  intros x y H; unfold same_reading in H; destruct x, y; cbn in H; simplify_eq; done.
Lemma read_events c c' l l' : same_reading c c' -> same_reading l l' ->
  art_request_events ch_db c l = art_request_events ch_db c' l'.
Proof. unfold same_reading. intros Hc Hl. destruct c, c', l, l'; cbn in Hc, Hl; by simplify_eq. Qed.
Lemma read_captures s : forall c c', same_reading c c' ->
  art_request_content_captures ch_db s c = art_request_content_captures ch_db s c'.
Proof. read. Qed.
Lemma read_table cl desc days : forall c c', same_reading c c' ->
  art_event_table ch_db (cl, desc, c, days) = art_event_table ch_db (cl, desc, c', days).
Proof. read. Qed.
Lemma read_aggregate cl desc : forall c c', same_reading c c' ->
  art_aggregate ch_db (cl, desc, c) = art_aggregate ch_db (cl, desc, c').
Proof. read. Qed.
Lemma read_staging m : forall c c', same_reading c c' -> art_staging m c = art_staging m c'.
Proof. destruct m as [[cl src] desc]. read. Qed.
Lemma read_enriched : forall c c', same_reading c c' -> art_int_requests_enriched c = art_int_requests_enriched c'.
Proof. read. Qed.
Lemma read_mart m : forall c c', same_reading c c' -> art_mart m c = art_mart m c'.
Proof. destruct m as [cl desc]. read. Qed.
Lemma read_budget : forall c c', same_reading c c' -> art_redis_budget c = art_redis_budget c'.
Proof. read. Qed.

Lemma read_all {M} (art : M -> N + str -> ArtifactClass) ms rs rs' :
  (forall m c c', same_reading c c' -> art m c = art m c') -> Forall2 same_reading rs rs' ->
  zip_with art ms rs = zip_with art ms rs'.
Proof.
  intros Ha Hr. revert ms. induction Hr as [|r r' rs rs' Hr _ IH]; intros [|m ms]; try done.
  cbn. by rewrite (Ha m _ _ Hr), IH.
Qed.
End readings.

(** The document is a function of the caller's own workspace: two
    deployments that agree on its rows and on which calls fail produce the same
    one, whatever the other tenants store and whatever the stores say when they
    fail. *)
Theorem inventory_is_the_tenants_own `{CodecEnv} `{AesEnv} `{KmsEnv} `{BudgetKeys}
    env ch_db clock now nonce kms_call t t' ch ch' ex ex' ctx d d' r d1 :
  let ws := jc_workspace_id ctx in
  same_own ws t t' -> (forall k, same_relations ws (ch k) (ch' k)) ->
  (forall key, key ∈ [budget_daily_key clock ws; budget_monthly_key clock ws] -> ex key = ex' key) -> alike d d' ->
  get_data_inventory env ch_db clock now nonce kms_call t ch ex ctx d = (Ok r, d1) ->
  (get_data_inventory env ch_db clock now nonce kms_call t' ch' ex' ctx d').1 = Ok r.
Proof.
  intros ws Ho Hch Hex Hd Hr.
  cut (agree eq (get_data_inventory env ch_db clock now nonce kms_call t ch ex ctx)
                (get_data_inventory env ch_db clock now nonce kms_call t' ch' ex' ctx)).
  { intros Hs. specialize (Hs d d' Hd). rewrite Hr in Hs. cbn in Hs. destruct Hs as [Hs _].
    by destruct (get_data_inventory _ _ _ _ _ _ t' _ _ _ _).1 as [?|?|]; subst. }
  unfold get_data_inventory. fold ws. cbv zeta.
  assert (Hn : forall table k, agree same_reading (ch_count table ws (ch k)) (ch_count table ws (ch' k)))
    by (intros; by apply (agree_own table ws (ch k) (ch' k) (count_if (fun _ => true)))).
  eapply agree_bind; [apply agree_same, same_result|intros _ _ _].
  eapply agree_bind; [by apply agree_postgres|intros pg _ <-].
  eapply agree_bind; [by apply agree_capture|intros s _ <-].
  eapply agree_bind; [apply Hn|intros c0 c0' R0].
  eapply agree_bind; [apply Hn|intros c1 c1' R1].
  eapply agree_bind; [apply Hn|intros c2 c2' R2].
  eapply agree_bind; [apply Hn|intros c3 c3' R3].
  eapply agree_bind; [apply Hn|intros c4 c4' R4].
  eapply agree_bind; [apply Hn|intros c5 c5' R5].
  eapply agree_bind; [apply Hn|intros c6 c6' R6].
  eapply agree_bind; [by apply agree_shape|intros cap cap' Hcap].
  eapply agree_bind; [by apply (agree_own _ ws _ _ (count_if has_payload))|intros leg leg' Hleg].
  eapply agree_bind; [apply agree_mapM; intros [k m]; apply Hn|intros stg stg' Hstg].
  eapply agree_bind; [apply Hn|intros enr enr' Henr].
  eapply agree_bind; [apply agree_mapM; intros [k m]; apply Hn|intros mrt mrt' Hmrt].
  eapply agree_bind; [apply agree_budget; apply Hex; [by left|by right; left]|intros bk bk' Hbk].
  apply agree_ret. f_equal. unfold event_tables, aggregate_tables. cbn [fmap list_fmap].
  rewrite (read_events ch_db _ _ _ _ R0 Hleg), (read_captures ch_db s _ _ Hcap).
  rewrite (read_table _ _ _ _ _ _ R1), (read_table _ _ _ _ _ _ R2), (read_table _ _ _ _ _ _ R3), (read_table _ _ _ _ _ _ R4).
  rewrite (read_aggregate _ _ _ _ _ R5), (read_aggregate _ _ _ _ _ R6), (read_enriched _ _ Henr), (read_budget _ _ Hbk).
  by rewrite (read_all art_staging staging_models _ _ read_staging Hstg), (read_all art_mart mart_models _ _ read_mart Hmrt).
Qed.

(** ** The message that does get out *)

Definition next_pg (d : Db) : Db := with_env (d_arming d) (fun n => d_pg_faults d (S n)) (d_ch_faults d) d.
Definition next_scope (d : Db) : Db := with_env (fun n => d_arming d (S n)) (d_pg_faults d) (d_ch_faults d) d.

Lemma bind_run {A B} (x : Api A) (k : A -> Api B) d a d' : x d = (Ok a, d') -> (x ≫= k) d = k a d'.
Proof. intros E. unfold mbind, Api_bind. by rewrite E. Qed.
Lemma bind_fails {A B} (x : Api A) (k : A -> Api B) d e : (x d).1 = Err e -> ((x ≫= k) d).1 = Err e.
Proof. unfold mbind, Api_bind. destruct (x d) as [[]]; naive_solver. Qed.
Lemma pg_run f d : d_pg_faults d 0 = None -> or_err f pg_io d = (Ok tt, next_pg d).
Proof. intros E. unfold or_err, pg_io. by rewrite E. Qed.
Lemma pg_fails f d m : d_pg_faults d 0 = Some m -> (or_err f pg_io d).1 = Err (f m).
Proof. intros E. unfold or_err, pg_io. by rewrite E. Qed.
Lemma scope_run ws d : d_pg_faults d 0 = None -> d_pg_faults d 1 = None -> d_arming d 0 ws = Some ws ->
  Scope.arm_scope ws d = (Ok (Some ws), next_pg (next_scope (next_pg d))).
Proof.
  intros E0 E1 Ea. unfold Scope.arm_scope, Scope.scope_is_armed.
  rewrite (bind_run _ _ _ _ _ (pg_run Database d E0)). erewrite bind_run by reflexivity. cbn -[mbind].
  rewrite (bind_run _ _ _ _ _ (pg_run Database (next_scope (next_pg d)) E1)). by rewrite Ea, decide_True.
Qed.

(** The counts' own failures are reported in fixed words, but the read of the
    capture settings hands on what Postgres said: the body quotes it. *)
Theorem capture_failure_is_quoted `{CodecEnv} `{AesEnv} `{KmsEnv} `{BudgetKeys}
    env ch_db clock now nonce kms_call t ch ex ctx d message :
  jc_role ctx = Admin -> (forall n ws, d_arming d n ws = Some ws) -> (forall n, n < 8 -> d_pg_faults d n = None) ->
  d_pg_faults d 8 = Some message ->
  (get_data_inventory env ch_db clock now nonce kms_call t ch ex ctx d).1 = Err (Database message)
  /\ api_error_response (Database message)
     = (500%N, Object [($"error", Object [($"message", VString ($"database error: " ++ message));
                                          ($"type", VString $"secureprompt_error")])]).
Proof.
  intros Hadmin Ha Hok Hm. split; [|done]. unfold get_data_inventory. rewrite Hadmin.
  erewrite bind_run by reflexivity. cbv zeta.
  assert (postgres_counts t (jc_workspace_id ctx) d
    = (Ok (pg_counts (Some (jc_workspace_id ctx)) (next_pg (next_pg (next_scope (next_pg (next_pg d))))) (jc_workspace_id ctx) t),
       next_pg (next_pg (next_pg (next_scope (next_pg (next_pg d))))))) as Hpg.
  { unfold postgres_counts. rewrite (bind_run _ _ _ _ _ (pg_run _ d (Hok 0 ltac:(lia)))).
    erewrite bind_run; [|unfold map_err; by rewrite scope_run; [|apply (Hok 1); lia|apply (Hok 2); lia|apply Ha]].
    rewrite (bind_run _ _ _ _ _ (pg_run _ (next_pg (next_scope (next_pg (next_pg d)))) (Hok 3 ltac:(lia)))).
    erewrite bind_run by reflexivity.
    by rewrite (bind_run _ _ _ _ _ (pg_run _ (next_pg (next_pg (next_scope (next_pg (next_pg d))))) (Hok 4 ltac:(lia)))). }
  rewrite (bind_run _ _ _ _ _ Hpg). apply bind_fails. unfold raw_capture_get_effective. apply bind_fails.
  unfold raw_capture_get, Scope.begin_scoped. set (d5 := next_pg (next_pg _)).
  erewrite bind_run; [|erewrite bind_run; [|exact (pg_run Database d5 (Hok 5 ltac:(lia)))];
    apply scope_run; [apply (Hok 6); lia|apply (Hok 7); lia|apply Ha]].
  apply bind_fails. by apply pg_fails.
Qed.

(** ** A deployment

    Workspace 1 keeps two vault entries, one of them in the clear, a sealed
    provider credential, a hashed key, and a capture it can prove sealed;
    workspace 2 has rows of its own; [mart_usage_daily] was never built. *)

Definition sealed_text : str := replicate 40 "Q"%char.
Definition hash_text : str := replicate 64 "a"%char.
Definition ch_row (ws : Uuid) (prompt : option str) : ChRow :=
  {| ch_workspace := ws; ch_raw_prompt := prompt; ch_raw_response := None; ch_restored_response := None |}.

Definition held_tables : PgTables := {|
  tb_workspaces := [1%N; 2%N];
  tb_users := [{| pu_id := 70; pu_workspace_id := 1; pu_password_hash := $"$argon2id$v=19"; pu_totp := None |}];
  tb_api_keys := [(1%N, hash_text); (2%N, $"plain")];
  tb_providers := [(1%N, Some sealed_text); (1%N, None)];
  tb_models := [1%N; 1%N; 2%N]; tb_policy_rules := []; tb_audit_events_meta := [];
  tb_refresh_tokens := [];
  tb_workspace_budgets := [];
  tb_token_vault_entries := [(1%N, $"vault:v1:abc"); (1%N, $"Anna Schmidt")];
  tb_workspace_secure_mode := []; tb_user_backup_codes := [(70%N, $"$argon2id$v=19")];
  tb_workspace_sidecar_policy := [];
  tb_workspace_raw_capture := {[1%N := {| rw_enabled := true; rw_retention_days := 7 |}]};
  tb_raw_capture_audit := [1%N]; tb_retention_purge_audit := [None; Some 1%N]; tb_audit_exports := [];
  tb_audit_export_pages := []; tb_session_revocation_audit := []; tb_admin_audit := [1%N; 2%N; 1%N] |}.

Definition held_ch (_ : nat) : ClickHouse := {|
  ch_relations := list_to_map
    [($"request_events", [ch_row 1 None; ch_row 1 None; ch_row 2 (Some $"secret")]); ($"policy_events", []);
     ($"token_usage", [ch_row 1 None]); ($"latency_samples", []); ($"detection_class_counts", [ch_row 2 None]);
     ($"mv_hourly_cost_agg", []); ($"mv_p95_latency_agg", []);
     ($"request_content_captures", [ch_row 1 (Some sealed_text); ch_row 1 None; ch_row 2 (Some $"in the clear")]);
     (relation DbtDb.STAGING $"stg_request_events", [ch_row 1 None])];
  ch_unknown table := $"Unknown table " ++ table |}.

Definition inventory_db (pg ch : nat -> option str) : Db := {|
  d_workspaces := [1%N; 2%N]; d_vault := []; d_settings := ∅; d_refresh := []; d_keys := []; d_captures := [];
  d_audit := []; d_export := {| t_exports := []; t_pages := []; t_raw_capture := []; t_revocations := []; t_admin := [];
    t_events := fun _ => []; t_queues := ∅; t_points := ∅; t_embed := fun _ _ => None;
    t_redis_faults := fun _ => None; t_qdrant_faults := fun _ => None |};
  d_bypass := false; d_workspaces_armed := true;
  d_stamps := fun _ => (0%N, 0%Z); d_arming := fun _ ws => Some ws; d_pg_faults := pg; d_ch_faults := ch |}.
Definition quiet (_ : nat) : option str := None.
Definition one_fault (at_call : nat) (m : str) (n : nat) : option str := if decide (n = at_call) then Some m else None.

Definition inventory_ctx : JwtAuthContext := {|
  jc_user_id := 70; jc_workspace_id := 1; jc_role := Admin; jc_jti := []; jc_exp := 0 |}.
#[local] Instance inventory_kms : KmsEnv := {| kms_seal _ s := inl s; kms_open _ s := inl s; utf8_error _ := [] |}.
#[local] Instance inventory_keys : BudgetKeys := {| show_ws ws := show_N ws; fmt_day _ := $"d"; fmt_month _ := $"m" |}.
#[local] Existing Instance demo_codec.
#[local] Existing Instance demo_aes.
Definition nothing_set : Env := fun _ => None.

#[local] Abbreviation held_inventory t ch :=
  (get_data_inventory nothing_set $"secureprompt" 0 0 0 0 t ch (fun key => bool_decide (key = $"budget:1:tokens:d")) inventory_ctx).

(** The fourth table's query times out. *)
Definition timed_out : Db := inventory_db quiet (one_fault 3 $"timeout").

Lemma held_ok : is_ok (held_inventory held_tables held_ch timed_out).1 = true.
Proof. vm_compute. reflexivity. Qed.

Definition classes_where (p : ArtifactClass -> bool) (r : result DataInventoryResponse) : list str :=
  match r with Ok r => art_class <$> filter p (di_artifacts r) | _ => [] end.
Definition verdict_is (v : str) (a : ArtifactClass) : bool := bool_decide (en_at_rest (art_encryption a) = v).

(** One clear vault entry and the class is not called ciphertext; the sealed
    captures are; what was never built is unavailable, not empty. *)
Example held_figures : let r := (held_inventory held_tables held_ch timed_out).1 in
  classes_where (verdict_is AtRest.CIPHERTEXT) r = [$"request_content_captures"; $"providers"]
  /\ classes_where (verdict_is AtRest.HASHED) r = [$"api_keys"; $"user_backup_codes"]
  /\ classes_where (verdict_is AtRest.MIXED) r = [$"token_vault_entries"; $"users"]
  /\ classes_where (fun a => bool_decide (art_row_count a = None)) r
     = [$"latency_samples"; $"stg_policy_events"; $"int_requests_enriched"; $"mart_usage_daily"; $"mart_cost_by_model";
        $"mart_policy_violations"; $"mart_latency_pctiles"].
Proof. repeat split; vm_compute; reflexivity. Qed.

Lemma inventory_is_measured_witness :
  exists r d', held_inventory held_tables held_ch timed_out = (Ok r, d')
    /\ reported <$> di_artifacts r = measures 0 held_tables held_ch (fun key => bool_decide (key = $"budget:1:tokens:d")) 1 timed_out.
Proof.
  destruct (is_ok_run _ _ held_ok) as (r & d' & Hr). exists r, d'. split; [exact Hr|].
  exact (proj1 (inventory_is_measured _ _ _ _ _ _ _ _ _ _ _ _ _ Hr)).
Defined.

Lemma protective_verdicts_are_backed_witness :
  exists r d', held_inventory held_tables held_ch timed_out = (Ok r, d')
    /\ Forall (backed held_tables held_ch 1) (di_artifacts r).
Proof.
  destruct (is_ok_run _ _ held_ok) as (r & d' & Hr). exists r, d'. split; [exact Hr|].
  exact (protective_verdicts_are_backed _ _ _ _ _ _ _ _ _ _ _ _ _ Hr).
Defined.

(** The other tenant empties its tables; ClickHouse words its refusals
    otherwise. *)
Definition other_tables : PgTables := {|
  tb_workspaces := [1%N]; tb_users := tb_users held_tables;
  tb_api_keys := [(1%N, hash_text)]; tb_providers := tb_providers held_tables; tb_models := [1%N; 1%N];
  tb_policy_rules := [2%N]; tb_audit_events_meta := []; tb_refresh_tokens := []; tb_workspace_budgets := [];
  tb_token_vault_entries := (2%N, $"4111 1111") :: tb_token_vault_entries held_tables;
  tb_workspace_secure_mode := []; tb_user_backup_codes := tb_user_backup_codes held_tables;
  tb_workspace_sidecar_policy := []; tb_workspace_raw_capture := tb_workspace_raw_capture held_tables;
  tb_raw_capture_audit := [1%N]; tb_retention_purge_audit := [Some 1%N]; tb_audit_exports := [2%N];
  tb_audit_export_pages := []; tb_session_revocation_audit := []; tb_admin_audit := [1%N; 1%N] |}.
Definition other_ch (k : nat) : ClickHouse :=
  {| ch_relations := filter (fun r => ch_workspace r <> 2%N) <$> ch_relations (held_ch k); ch_unknown _ := $"no such table" |}.

Lemma other_own : same_own 1 held_tables other_tables.
Proof. by split; vm_compute. Qed.
Lemma other_relations k : same_relations 1 (held_ch k) (other_ch k).
Proof.
  intros table. cbn [other_ch ch_relations]. rewrite lookup_fmap. destruct (ch_relations (held_ch k) !! table) as [rows|]; [|done].
  cbn. f_equal. unfold own. rewrite list_filter_filter. apply list_filter_iff. intros r.
  split; [intros E; split; [done|by rewrite E]|by intros [E _]].
Qed.
Lemma other_alike : alike timed_out (inventory_db quiet (one_fault 3 $"cannot parse 4111")).
Proof. split; try done. intros n. cbn. unfold one_fault. case_decide; [by split|done]. Qed.

Lemma inventory_is_the_tenants_own_witness : exists r,
  (held_inventory held_tables held_ch timed_out).1 = Ok r
  /\ (held_inventory other_tables other_ch (inventory_db quiet (one_fault 3 $"cannot parse 4111"))).1 = Ok r.
Proof.
  destruct (is_ok_run _ _ held_ok) as (r & d' & Hr). exists r. split; [exact (f_equal fst Hr)|].
  exact (inventory_is_the_tenants_own _ _ _ _ _ _ held_tables other_tables held_ch other_ch _ _ inventory_ctx _ _ _ _ other_own other_relations (fun _ _ => eq_refl)
    other_alike Hr).
Defined.

Example quoted : (held_inventory held_tables held_ch (inventory_db (one_fault 8 $"invalid input syntax: 4111") quiet)).1
  = Err (Database $"invalid input syntax: 4111").
Proof.
  apply capture_failure_is_quoted; [done|done| |done].
  intros n Hn. cbn. unfold one_fault. case_decide; [lia|done].
Qed.
